(* ===== verification/_CoqProject ===== *)
-Q . S2P
Prelude.v
Memory.v
PbTypes.v
CrashlyticsProto.v
PbLayout.v
PbWire.v
PbEncode.v
PbStreams.v
PbEncodeSpec.v
PbRelease.v
PbDecode.v
PbInput.v
PbCodec.v
PbDecodeMsg.v
PbRequired.v
PbSafety.v
PbDecodeSafety.v
PbTheorems.v
PbValue.v
PbFrame.v
PbValueDecode.v
PbFieldDecode.v
PbMessageDecode.v
PbRoundtrip.v
PbExamples.v
DwarfData.v
ThreadState.v
Arm64State.v
X86State.v
DwarfDataSpec.v
DwarfExpression.v
DwarfExpressionSpec.v
DwarfUnwind.v
DwarfCfiSpec.v
DwarfUnwindSpec.v
DwarfSafety.v
DwarfTheorems.v
CompactUnwind.v
Arm64Unwind.v
CompactSpec.v
Unwind.v
X86Unwind.v
UnwindSafety.v
FrameChain.v
Arm64Theorems.v
X86Spec.v
X86Theorems.v
UnwindTheorems.v
Allocate.v
AllocateTheorems.v
File.v
FileFormat.v
FileSpec.v
FileFormatSpec.v
FileJson.v
FileTheorems.v
Log.v
Crash.v
Process.v
CrashSpec.v
Redact.v
ProcessInfo.v
ProcessInfoSpec.v
ArchProcess.v
Handler.v
HandlerSpec.v
Signal.v
BinaryImage.v
ImageSpec.v
MachOSpec.v
MachException.v
ReportSpec.v
RestoreSpec.v
RunSpec.v
CrashMachine.v
ImageTheorems.v
CrashTheorems.v
CrashExamples.v
Base64.v
Base64Theorems.v
