(* ===== verification/Prelude.v ===== *)
(** * Verification of the C code of GoodThing's pods

    GoodThing is an iOS application; its C code is in the pods under
    src/GoodThing/Pods. This library models seven of its parts and proves them
    correct: nanopb, the protocol buffer codec that Crashlytics and Google data
    transport encode their reports with; the stack unwinder of Crashlytics, which
    runs in a process that has crashed and reads whatever memory it finds;
    Crashlytics' allocator of protected memory, which threads share without a
    lock; the report file that Crashlytics writes, as JSON, while the process is
    down, and its log; the images of the process, which are tracked for the unwinder
    while the process runs; the handlers of signals and Mach exceptions, which bring
    these together in the report of a crash; and BoringSSL's base64.

    ** The C machine (Prelude.v, Memory.v)

    Integers are [Z], with the wrap-around of their width written out ([u32],
    [s64], ...). Memory is a partial map from addresses to bytes; code that reads
    and writes it is a computation of the monad [M] of Memory.v, which returns
    ([Done]), does what C leaves undefined ([Fault]: an access to unmapped memory,
    a null call, a double free, an undefined shift), or runs out of fuel
    ([Timeout]). [Timeout] is no behaviour of the code: loops that are not
    structural carry fuel that is computed from what bounds them (the bytes left,
    the size of memory for a list or a string in it, the nesting depth of
    messages, the number of frames), and the theorems called termination, safety
    or liveness show that it is never reached. [wp], [wlp] and [ends] are the
    postconditions of total correctness, of partial correctness, and of
    termination with undefined behaviour allowed; [ReadOnly] is the class of
    computations that keep the world.

    ** nanopb (src/GoodThing/Pods/nanopb: pb.h, pb_common.c, pb_encode.c, pb_decode.c)

    - PbTypes.v: field descriptors, their types, and the field iterator
      (pb_common.c). The descriptor tables are the parameter [PbDescriptors]:
      constant data that protoc generates; CrashlyticsProto.v and PbExamples.v
      have some of the program's own.
    - PbLayout.v: the iterator goes round the fields, the searches for a tag and
      for an extension end; the offsets of the fields of a struct, and the
      decidable check [static_message] that a struct has room for them.
    - PbWire.v: the wire format. PbEncode.v: pb_encode.c; the output callback, the
      callbacks of fields and of extensions are the parameter [EncCallbacks].
      PbStreams.v and PbEncodeSpec.v: the bytes of a message as a function of the
      memory that holds it ([spec_message]), and that pb_encode writes exactly
      those, or fails without writing outside the buffer; the sizing pass agrees
      with the writing pass.
    - PbRelease.v: pb_message_set_to_defaults and pb_release. PbDecode.v:
      streams, varints, tags and skipping; PbDecodeMsg.v: the field and message
      decoders, with malloc support (callbacks: [DecCallbacks]).
      PbInput.v, PbCodec.v: what the parsers return on every input, and the round
      trips of the wire format.
    - PbSafety.v, PbDecodeSafety.v: decoding any bytes into the struct of a static
      message stays within the struct and ends. PbRequired.v: the fields of a
      message that is decoded, and that the bit map of the required fields decides
      the result. PbTheorems.v has the properties.
    - PbValue.v: messages as values, what a struct in memory holds and how it is
      encoded, for the regular messages: static fields with a member of their own
      for presence or count, and distinct tags. PbFrame.v: reading depends on the
      bytes of the fields only; the defaults make a struct without any present
      field. PbValueDecode.v, PbFieldDecode.v, PbMessageDecode.v: the
      decoders of values, fields and messages on the encoding of a value.
      PbRoundtrip.v: what pb_encode writes, pb_decode reads back. PbExamples.v:
      concrete inputs for all of nanopb, among them a message with every type of
      field.

    ** The unwinder (src/GoodThing/Pods/FirebaseCrashlytics/Crashlytics/Crashlytics)

    - ThreadState.v: what the unwinder needs of the registers of a thread, the
      class [ThreadState] of the functions that Helpers/FIRCLSThreadState.c and
      FIRCLSUnwind_arch.h give for each architecture, with its laws
      ([ThreadStateLaws], [RegisterFile]). The modules below are generic over it.
      Arm64State.v and X86State.v implement it: FIRCLSThreadState.c and the DWARF
      registers of Unwind/FIRCLSUnwind_arm.c and Unwind/FIRCLSUnwind_x86.c for
      ARM64 and for x86_64 (names in [_x86_64]). The kernel call behind
      FIRCLSReadMemory is the parameter [VmRead], with [VmReadSpec] what it
      documents.
    - DwarfData.v: Unwind/Dwarf/FIRCLSDataParsing.c. DwarfExpression.v:
      FIRCLSDwarfExpressionMachine.c. DwarfUnwind.v: FIRCLSDwarfUnwind.c.
    - DwarfDataSpec.v, DwarfExpressionSpec.v, DwarfCfiSpec.v, DwarfUnwindSpec.v:
      encoders and meanings of DWARF data, expressions, call
      frame instructions, rows of the unwind table and records; the interpreters
      compute these meanings, from the bytes of a record to the registers of the
      caller. For call frame instructions the meaning is that of the standard
      ([cfi_meaning], [table_row]), the row is that of the address before the program
      counter, and the programs are those the interpreter treats as the standard does
      ([supported]); examples show the others. DwarfSafety.v: the same code ends on any memory and writes none.
      DwarfTheorems.v: properties, concrete inputs.
    - CompactUnwind.v: Unwind/Compact/FIRCLSCompactUnwind.c, with the layout of
      mach-o/compact_unwind_encoding.h as the parameter [CompactEncoding]; what an
      encoding means, and how to unwind without one, is the class [UnwindArch].
      CompactSpec.v: the lookup finds the function of a program counter in a table
      in memory, and fails for the last one of a page.
    - Unwind.v: Unwind/FIRCLSUnwind.c, the lookup of an image
      (Components/FIRCLSBinaryImage.m) and the loop that records the stack trace
      of a thread (FIRCLSProcessRecordThread of Components/FIRCLSProcess.c) as a
      function to the list of its frames; the code itself, which writes them, is
      [stacktrace_loop] of Process.v, proved to write what this function gives.
      UnwindSafety.v: from the laws [UnwindArchLaws] of an architecture, a trace
      ends on any memory, with at most [FIRCLSUnwindMaxFrames] frames, and is the
      summary of their addresses. FrameChain.v: the scan of a stack for return
      addresses; from the class [FrameRecords] of architectures with frame
      pointers, in code without tables the trace is the chain of frame
      records. UnwindTheorems.v: properties, concrete inputs.
    - Arm64Unwind.v and X86Unwind.v: the implementations of [UnwindArch]
      (FIRCLSUnwind_arm.c, FIRCLSUnwind_x86.c); Arm64Theorems.v and X86Spec.v:
      their laws and frame records, so that the theorems above hold of both, and
      ARM64's registers and frame pointer step. X86Theorems.v: functions without a
      frame pointer on x86_64, the number that encodes the order of the registers
      they save, and the frame that is undone.

    ** The allocator (Helpers/FIRCLSAllocate.c)

    Allocate.v has the functions over a host that maps, protects and allocates
    memory ([Host]), and the step relation [alloc_steps] of threads that allocate
    from a region at the same time, a step for each access to the shared cursor.
    AllocateTheorems.v: its invariant, the atomic allocator it refines, the
    measure that bounds executions, the properties and concrete inputs.

    ** The report file (Helpers/FIRCLSFile.m, the C functions)

    - File.v: the record [FIRCLSFile], opening and closing, and writing with
      retries and an optional buffer of 1000 bytes, over a kernel with files (the
      parameter [Kernel]), in a monad of its own with the outcomes [Returns],
      [Undefined] and [Exhausted]. FIRCLSFileWriteToFileDescriptorOrBuffer calls
      itself; its fuel is the length of the string and two more, since every call
      but the first takes at least a byte into an empty buffer.
    - FileFormat.v: strings, numbers, hexadecimal bytes and JSON collections.
    - FileSpec.v: what a kernel documents ([KernelSpec]; [progress] is a kernel
      whose writes transfer at least a given number of bytes), the invariant
      [wf_file] of a file and its buffer, and [emits]: the bytes that a
      computation puts out, with the state of the commas and of the depth. It is
      total: with any kernel the computation ends and keeps the invariant.
      FileFormatSpec.v: the text of numbers and strings.
    - FileJson.v: JSON values, the calls that write one, and the text that is
      written, with strings as they are ([written_text]), which is the JSON text
      ([json_text]) when no string needs escaping ([plain_json]); a report
      from opening to closing. FileTheorems.v: properties, concrete inputs.
    - Log.v: Crashlytics' log of its own (Helpers/FIRCLSInternalLogging.c), which
      formats its messages with these functions; [formatted] is what printf makes of
      a format and its arguments, and a sequence of calls with the conversions that
      the log knows leaves these texts of the messages that reach the level, in a file
      that is opened once.

    ** The images of the process (Components/FIRCLSBinaryImage.m, Shared/FIRCLSMachO)

    - BinaryImage.v: what dyld's callbacks read from the header of an image (the
      parameters [MachOFormat], with the numbers and layout of mach-o/loader.h and
      the search of sections), the table of 1024 images, the log of images and the
      section of the main executable ([ImageHost]: dladdr, NSBundle and the
      architectures). The changes are blocks of a serial queue, run by
      [run_queue]. The relation [store_step] takes a change of the table one
      access at a time, since a crash can interrupt it and then looks into the table.
    - ImageSpec.v: histories of loads and unloads ([history]; [images_after] where no
      base has an image unloaded twice) and the table that tracks them
      ([holds_images], [tracks_images]); the states of a change that was interrupted;
      the JSON of a change. MachOSpec.v: the load commands of an image in memory as a
      list ([image_at]) and the details as a function of it ([image_details]).
    - ImageTheorems.v: looking up an address finds the image that is loaded there,
      or, where images were unloaded twice, one that was loaded there at some time;
      a crash in the middle of a change sees the image before, after, or some of its
      fields; the table keeps its shape; what is read and what is logged; concrete
      inputs, on the system of CrashMachine.v.
    - Bounds: the loop over load commands has the rounds that the header says, the
      loops over the table have 1024 or its slots.

    ** The handling of a crash (Handlers, Components, FIRCLSUtility.m)

    - Crash.v: the state of a process that has crashed ([crash_state]: memory, the
      writable context, the open file and the kernel) and the monad [P] over it,
      with the outcomes [Completes], [Exits] (the call of exit), [Faults] and
      [Starves] (out of fuel). Computations in memory and on files run in it by
      [in_memory] and [to_file], calls of the kernel by [ask] and [call]; the
      class [Mach] has the calls on threads and tasks.
    - Process.v: Components/FIRCLSProcess.c, the threads: suspending, their
      registers and stack traces. What depends on the architecture is the class
      [RecordArch], which ArchProcess.v implements. Redact.v:
      strings of Helpers/FIRCLSUtility.m. ProcessInfo.v: the other sections of
      FIRCLSProcess.c and the disk usage (Components/FIRCLSHost.m), over the
      system calls [SystemInfo]; [SelectorArch] has the registers in which
      objc_msgSend keeps a selector.
    - Handler.v: FIRCLSHandler.m, the crash flag (Components/FIRCLSContext.m) and
      the marker file (FIRCLSCrashedMarkerFile.c). Signal.v: FIRCLSSignal.c over
      the calls [Signals]. MachException.v: FIRCLSMachException.c over the calls
      [MachPorts]. The read-only context is an argument of the functions that
      read it, and a result of those that set it up.
    - CrashSpec.v: what the kernel documents ([MachSpec]: recording
      only asks about tasks, and writing does not change the answers), the
      calculus [pwp] of postconditions, and the bytes of a list of threads.
      Redact.v: [redact], the string that is left. ProcessInfoSpec.v,
      HandlerSpec.v, ReportSpec.v: the text of each section, strings as they are,
      as a function of memory and kernel ([crash_facts] collects what they hold
      for the process), and that exactly this text is written.
    - RestoreSpec.v: what installing handlers and ports leaves behind, from what
      the calls document ([ActionsSpec], [PortsSpec], [ServerSpec]; [stack_accepted]
      says whether the kernel takes the earlier signal stack back),
      and the counts of suspended threads ([SuspendSpec]). RunSpec.v: no step
      clears the flag of a crash, and the whole handlers: what they do around the
      report keeps files and threads ([HandlerCalls], [tracks]), and a round of the
      server of exceptions. CrashTheorems.v: properties.
      CrashMachine.v: a system with three threads, for the examples; it satisfies
      the classes of laws. CrashExamples.v: concrete inputs.
    - Bounds: a stack trace has fuel for [FIRCLSUnwindMaxFrames] rounds and one
      more, which [FIRCLSUnwindNextFrame] ends at; a string that is checked has a
      round for each byte that may be read; searching and blotting out have a
      round for each allocated byte; a list of threads or codes has its length.
      FIRCLSMachExceptionServer loops for ever, and is modelled up to any number
      of messages.

    ** Base64 (src/GoodThing/Pods/BoringSSL-GRPC/src/crypto/base64/base64.c)

    - Base64.v: the constant-time operations of crypto/internal.h that base64 uses,
      the encoder and the decoder, in one go and as a stream with its context. Buffers
      are lists and pointers offsets, and [None] is a read or a write outside of them.
      The fuel of a loop is the length of its input and one more; at most two zeros
      are padded, in three rounds.
    - Base64Theorems.v: the text of bytes ([base64_text], [pem_text]) and the bytes of
      a text ([base64_decode]) as functions; from the invariant [holding] of the
      context, the stream encoder writes the one and the stream decoder computes the
      other whatever the pieces, within buffers with room for them; round trip,
      concrete inputs.

    ** Not modelled

    The other C code of the pods: the rest of BoringSSL, the generated code of upb and
    gRPC (vendored libraries of their own); the profiling of Crashlytics (timing in
    floating point for debug output); FIRCLSProcessDebuggerAttached,
    FIRCLSSignalCheckHandlers and the workaround for the simulator in
    FIRCLSSignalInitialize, which do not take part in the handling of a crash; the
    setup of the contexts and of the report, in Objective-C. Of the interrupted
    handlers, only sequences are modelled: that a second crash interrupts the test
    and the setting of the crash flag, which are not atomic, is not;
    FIRCLSFileReadSections and the other wrappers for NSString in FIRCLSFile.m;
    Mach-O files on disk (the rest of FIRCLSMachO.m), and the branches of
    FIRCLSBinaryImage.m for visionOS and for the names of images;
    the branches of the preprocessor for 32-bit ARM and i386, which are other
    builds. C++ (abseil, leveldb, Firestore, gRPC), Objective-C and Swift are other
    languages. Of the modelled files the calls of the log are left out, but not the
    reads of memory in the arguments of these calls. *)
From stdpp Require Export base gmap list strings.
From Stdlib Require Export ZArith Lia Bool.

#[global] Open Scope Z_scope.

(** ** Machine integers: a w-bit value is the residue of a [Z]. *)

Definition wrap (w x : Z) : Z := x mod 2 ^ w.

Definition to_signed (w x : Z) : Z :=
  let y := wrap w x in if y <? 2 ^ (w - 1) then y else y - 2 ^ w.

#[global] Arguments wrap : simpl never.
#[global] Arguments to_signed : simpl never.

Abbreviation u8 := (wrap 8).
Abbreviation u16 := (wrap 16).
Abbreviation u32 := (wrap 32).
Abbreviation u64 := (wrap 64).
Abbreviation s8 := (to_signed 8).
Abbreviation s16 := (to_signed 16).
Abbreviation s32 := (to_signed 32).
Abbreviation s64 := (to_signed 64).

(** ** Little-endian byte strings *)

Definition is_byte (b : Z) : Prop := 0 <= b < 256.

(** A string of C with its terminator. *)
Definition c_string (s : list Z) : list Z := s ++ [0].

Fixpoint le_bytes (n : nat) (v : Z) : list Z :=
  match n with
  | O => []
  | S n' => v mod 256 :: le_bytes n' (v / 256)
  end.

Fixpoint le_val (bs : list Z) : Z :=
  match bs with
  | [] => 0
  | b :: bs' => b + 256 * le_val bs'
  end.

(** ** Lemmas on machine integers *)

Lemma wrap_bounds w x : 0 <= w -> 0 <= wrap w x < 2 ^ w.
Proof. intros. apply Z.mod_pos_bound. lia. Qed.

Lemma wrap_small w x : 0 <= x < 2 ^ w -> wrap w x = x.
Proof. apply Z.mod_small. Qed.

Lemma wrap_idemp w x : wrap w (wrap w x) = wrap w x.
Proof. apply Zmod_mod. Qed.

Lemma wrap_add_l w x y : 0 <= w -> wrap w (wrap w x + y) = wrap w (x + y).
Proof. intros Hw. unfold wrap. apply Zplus_mod_idemp_l. Qed.

Lemma to_signed_bounds w x :
  0 < w -> - 2 ^ (w - 1) <= to_signed w x < 2 ^ (w - 1).
Proof.
  intros. unfold to_signed. pose proof (wrap_bounds w x).
  assert (2 ^ w = 2 * 2 ^ (w - 1)) by (rewrite <- Z.pow_succ_r by lia; f_equal; lia).
  destruct (Z.ltb_spec (wrap w x) (2 ^ (w - 1))); lia.
Qed.

Lemma to_signed_small w x :
  0 < w -> - 2 ^ (w - 1) <= x < 2 ^ (w - 1) -> to_signed w x = x.
Proof.
  intros. unfold to_signed.
  assert (2 ^ w = 2 * 2 ^ (w - 1)) by (rewrite <- Z.pow_succ_r by lia; f_equal; lia).
  destruct (Z_lt_dec x 0).
  - replace (wrap w x) with (x + 2 ^ w).
    + destruct (Z.ltb_spec (x + 2 ^ w) (2 ^ (w - 1))); lia.
    + unfold wrap. rewrite <- (Z_mod_plus_full x 1), Z.mul_1_l, Z.mod_small; lia.
  - rewrite wrap_small by lia. destruct (Z.ltb_spec x (2 ^ (w - 1))); lia.
Qed.

Lemma to_signed_wrap w x : to_signed w (wrap w x) = to_signed w x.
Proof. unfold to_signed. by rewrite wrap_idemp. Qed.

Lemma wrap_to_signed w x : 0 < w -> wrap w (to_signed w x) = wrap w x.
Proof.
  intros. unfold to_signed. destruct (_ <? _); [apply wrap_idemp|].
  unfold wrap. rewrite Zminus_mod, Z_mod_same_full, Z.sub_0_r, !Zmod_mod. done.
Qed.

(** ** Bit operations as arithmetic *)

Lemma land_ones_mod x n : 0 <= n -> Z.land x (Z.ones n) = x mod 2 ^ n.
Proof. apply Z.land_ones. Qed.

Lemma land_127 x : Z.land x 127 = x mod 128.
Proof. apply (Z.land_ones x 7). lia. Qed.

Lemma land_255 x : Z.land x 255 = x mod 256.
Proof. apply (Z.land_ones x 8). lia. Qed.

Lemma testbit_small a n i : 0 <= a < 2 ^ n -> 0 <= n <= i -> Z.testbit a i = false.
Proof.
  intros ? ?. rewrite <- (Z.mod_small a (2 ^ n)) by done.
  apply Z.mod_pow2_bits_high. lia.
Qed.

(** An [or] of a low part and a shifted high part is their sum. *)
Lemma lor_shiftl_add a b n :
  0 <= n -> 0 <= a < 2 ^ n -> Z.lor a (Z.shiftl b n) = a + b * 2 ^ n.
Proof.
  intros Hn Ha. rewrite <- Z.shiftl_mul_pow2 by done.
  rewrite <- Z.lxor_lor, <- Z.add_nocarry_lxor; try done.
  all: apply Z.bits_inj'; intros i Hi; rewrite Z.land_spec, Z.bits_0.
  all: destruct (Z_lt_dec i n);
    [rewrite (Z.shiftl_spec_low b n i), andb_false_r by lia; done
    |rewrite (testbit_small a n i), andb_false_l by lia; done].
Qed.

Lemma lor_128 b : 0 <= b < 128 -> Z.lor b 128 = b + 128.
Proof. intros. apply (lor_shiftl_add b 1 7); lia. Qed.

(** The continuation bit of a byte. *)
Lemma land_128 b : is_byte b -> Z.land b 128 = if b <? 128 then 0 else 128.
Proof.
  intros [H1 H2]. apply Z.bits_inj'; intros i Hi. rewrite Z.land_spec.
  change 128 with (2 ^ 7) at 1. rewrite Z.pow2_bits_eqb by lia.
  destruct (Z.eqb_spec 7 i) as [<-|Hne].
  - rewrite andb_true_r.
    destruct (Z.ltb_spec b 128).
    + rewrite Z.bits_0. apply (testbit_small b 7); lia.
    + replace b with ((b - 128) + 1 * 2 ^ 7) by lia.
      rewrite <- lor_shiftl_add, Z.lor_spec, Z.shiftl_spec by lia.
      rewrite orb_true_r. done.
  - rewrite andb_false_r. destruct (b <? 128); [by rewrite Z.bits_0|].
    change 128 with (2 ^ 7). rewrite Z.pow2_bits_eqb by lia.
    by destruct (Z.eqb_spec 7 i).
Qed.

(** ** Lemmas on little-endian byte strings *)

Lemma length_le_bytes n v : length (le_bytes n v) = n.
Proof. revert v. induction n; intros; simpl; auto. Qed.

Lemma le_bytes_is_byte n v : Forall is_byte (le_bytes n v).
Proof.
  revert v. induction n; intros; simpl; constructor; auto.
  apply Z.mod_pos_bound. lia.
Qed.

Lemma le_val_bound bs :
  Forall is_byte bs -> 0 <= le_val bs < 2 ^ (8 * Z.of_nat (length bs)).
Proof.
  induction 1 as [|b bs Hb ? IH]; simpl le_val; [done|].
  rewrite length_cons, Nat2Z.inj_succ, Z.mul_succ_r, Z.pow_add_r by lia.
  change (2 ^ 8) with 256. unfold is_byte in Hb. nia.
Qed.

Lemma le_val_le_bytes n v : le_val (le_bytes n v) = v mod 2 ^ (8 * Z.of_nat n).
Proof.
  revert v. induction n as [|n IH]; intros v; [simpl; by rewrite Z.mod_1_r|].
  cbn [le_bytes le_val]. rewrite IH.
  replace (8 * Z.of_nat (S n)) with (8 + 8 * Z.of_nat n) by lia.
  rewrite Z.pow_add_r by lia. change (2 ^ 8) with 256.
  rewrite Z.rem_mul_r by lia. lia.
Qed.

Lemma le_val_le_bytes_small n v :
  0 <= v < 2 ^ (8 * Z.of_nat n) -> le_val (le_bytes n v) = v.
Proof. intros. rewrite le_val_le_bytes. by apply Z.mod_small. Qed.

Lemma le_bytes_le_val bs : Forall is_byte bs -> le_bytes (length bs) (le_val bs) = bs.
Proof.
  induction 1 as [|b bs Hb ? IH]; [done|]. unfold is_byte in Hb.
  rewrite length_cons. cbn [le_bytes le_val]. f_equal.
  - rewrite (Z.mul_comm 256), Z_mod_plus_full. by apply Z.mod_small.
  - rewrite (Z.mul_comm 256), Z.div_add, Z.div_small by lia. done.
Qed.

(** ** Automation *)

(** Split every boolean test of the goal or of a hypothesis. *)
Ltac split_ifs :=
  repeat match goal with
  | |- context [if ?b then _ else _] => destruct b eqn:?
  | H : context [if ?b then _ else _] |- _ => destruct b eqn:?
  end.

(** Arithmetic after turning boolean comparisons into propositions. *)
Ltac blia :=
  repeat match goal with
  | H : _ && _ = true |- _ => apply andb_true_iff in H as [? ?]
  | H : _ || _ = false |- _ => apply orb_false_iff in H as [? ?]
  | H : negb _ = true |- _ => apply negb_true_iff in H
  | H : negb _ = false |- _ => apply negb_false_iff in H
  end; lia.

Create HintDb ints discriminated.
#[export] Hint Resolve wrap_bounds le_bytes_is_byte : ints.
Create Rewrite HintDb ints_rw.
#[export] Hint Rewrite length_le_bytes wrap_idemp to_signed_wrap : ints_rw.
