(* ===== verification/Memory.v ===== *)
(** The C abstract machine the components share: a partial byte-addressed
    memory with a heap, the monad of code that reads and writes it, the typed
    loads and stores, and [realloc]/[free] of the C library.

    A computation ends in one of three ways: it returns a value and a new
    world ([Done]); it does what C leaves undefined, such as an access outside
    the allocated memory, a call through a null function pointer or a double
    free ([Fault]); or the fuel of a loop runs out ([Timeout]), which is no
    behaviour of the code and is ruled out by the termination theorems. *)
From S2P Require Import Prelude.

(** ** Worlds *)

Record world := World {
  mem : gmap Z Z;            (** the allocated bytes, by address *)
  heap : gmap Z Z;           (** live heap blocks: base address, size *)
  next_addr : Z;             (** first address the allocator has not used *)
  heap_limit : Z;            (** [realloc] fails beyond this address *)
  fill_byte : Z              (** contents of freshly allocated bytes *)
}.

Definition set_mem (m : gmap Z Z) (w : world) : world :=
  World m (heap w) (next_addr w) (heap_limit w) (fill_byte w).

(** ** The monad *)

Inductive outcome (A : Type) : Type :=
  | Done (a : A) (w : world)
  | Fault
  | Timeout.
Arguments Done {A}.
Arguments Fault {A}.
Arguments Timeout {A}.

Definition M (A : Type) : Type := world -> outcome A.

#[global] Instance M_ret : MRet M := fun A a w => Done a w.
#[global] Instance M_bind : MBind M := fun A B k m w =>
  match m w with
  | Done a w' => k a w'
  | Fault => Fault
  | Timeout => Timeout
  end.
#[global] Instance M_fmap : FMap M := fun A B f m => m ≫= fun a => mret (f a).

Definition fault {A} : M A := fun _ => Fault.
Definition timeout {A} : M A := fun _ => Timeout.

Definition of_option {A} (o : option A) : M A :=
  match o with Some a => mret a | None => fault end.

(** ** Pure reads of a memory *)

Fixpoint read_bytes (m : gmap Z Z) (a : Z) (n : nat) : option (list Z) :=
  match n with
  | O => Some []
  | S n' => b ← m !! a; bs ← read_bytes m (a + 1) n'; Some (b :: bs)
  end.

Definition read_le (m : gmap Z Z) (n : nat) (a : Z) : option Z :=
  le_val <$> read_bytes m a n.

Fixpoint write_bytes (m : gmap Z Z) (a : Z) (bs : list Z) : option (gmap Z Z) :=
  match bs with
  | [] => Some m
  | b :: bs' =>
      match m !! a with
      | Some _ => write_bytes (<[a := b]> m) (a + 1) bs'
      | None => None
      end
  end.

(** ** Loads and stores *)

(** An [n]-byte little-endian unsigned load. *)
Definition load (n : nat) (a : Z) : M Z := fun w =>
  match read_le (mem w) n a with Some v => Done v w | None => Fault end.

Definition load_bytes (a : Z) (n : nat) : M (list Z) := fun w =>
  match read_bytes (mem w) a n with Some bs => Done bs w | None => Fault end.

Definition store_bytes (a : Z) (bs : list Z) : M unit := fun w =>
  match write_bytes (mem w) a bs with
  | Some m => Done tt (set_mem m w)
  | None => Fault
  end.

(** An [n]-byte little-endian store of the low bits of [v]. *)
Definition store (n : nat) (a v : Z) : M unit := store_bytes a (le_bytes n v).

Definition load_ptr (a : Z) : M Z := load 8 a.
Definition store_ptr (a p : Z) : M unit := store 8 a p.

Definition memset (a c n : Z) : M unit :=
  store_bytes a (replicate (Z.to_nat n) (u8 c)).

(** ** The heap *)

Fixpoint map_region (m : gmap Z Z) (a : Z) (bs : list Z) : gmap Z Z :=
  match bs with
  | [] => m
  | b :: bs' => map_region (<[a := b]> m) (a + 1) bs'
  end.

Fixpoint unmap_region (m : gmap Z Z) (a : Z) (n : nat) : gmap Z Z :=
  match n with
  | O => m
  | S n' => unmap_region (delete a m) (a + 1) n'
  end.

(** [free(p)]: a no-op on [NULL], undefined unless [p] is a live block. *)
Definition c_free (p : Z) : M unit := fun w =>
  if p =? 0 then Done tt w
  else match heap w !! p with
       | None => Fault
       | Some sz =>
           Done tt (World (unmap_region (mem w) p (Z.to_nat sz)) (delete p (heap w))
                          (next_addr w) (heap_limit w) (fill_byte w))
       end.

(** A fresh block of [n] bytes holding [init] and then fill bytes; blocks are
    16-byte aligned. *)
Definition fresh_block (n : Z) (init : list Z) (w : world) : world :=
  let base := next_addr w in
  World (map_region (mem w) base
           (init ++ replicate (Z.to_nat n - length init) (fill_byte w)))
        (<[base := n]> (heap w))
        (base + ((n + 31) / 16) * 16) (heap_limit w) (fill_byte w).

(** [realloc(p, n)]: [NULL] when the heap limit is reached, the old block then
    being kept; otherwise a block that starts with the old contents. *)
Definition c_realloc (p n : Z) : M Z := fun w =>
  if heap_limit w <? next_addr w + n then
    if p =? 0 then Done 0 w
    else match heap w !! p with Some _ => Done 0 w | None => Fault end
  else if p =? 0 then Done (next_addr w) (fresh_block n [] w)
  else match heap w !! p with
       | None => Fault
       | Some sz =>
           match read_bytes (mem w) p (Z.to_nat (Z.min sz n)) with
           | None => Fault
           | Some old =>
               mbind (M := M) (fun _ w' => Done (next_addr w') (fresh_block n old w'))
                 (c_free p) w
           end
       end.

(** ** Postconditions

    [wlp m w Q]: if [m] returns from [w], then [Q] holds of the result.
    [wp m w Q]: [m] returns from [w], and [Q] holds of the result. *)

Definition wlp {A} (m : M A) (w : world) (Q : A -> world -> Prop) : Prop :=
  match m w with Done a w' => Q a w' | _ => True end.

Definition wp {A} (m : M A) (w : world) (Q : A -> world -> Prop) : Prop :=
  match m w with Done a w' => Q a w' | _ => False end.

Lemma wlp_ret {A} (a : A) w (Q : A -> world -> Prop) : Q a w -> wlp (mret a) w Q.
Proof. done. Qed.

Lemma wp_ret {A} (a : A) w (Q : A -> world -> Prop) : Q a w -> wp (mret a) w Q.
Proof. done. Qed.

Lemma wlp_bind {A B} (m : M A) (k : A -> M B) w Q :
  wlp m w (fun a w' => wlp (k a) w' Q) -> wlp (m ≫= k) w Q.
Proof. unfold wlp, mbind, M_bind. by destruct (m w). Qed.

Lemma wp_bind {A B} (m : M A) (k : A -> M B) w Q :
  wp m w (fun a w' => wp (k a) w' Q) -> wp (m ≫= k) w Q.
Proof. unfold wp, mbind, M_bind. by destruct (m w). Qed.

Lemma wlp_mono {A} (m : M A) w (P Q : A -> world -> Prop) :
  wlp m w P -> (forall a w', P a w' -> Q a w') -> wlp m w Q.
Proof. unfold wlp. destruct (m w); auto. Qed.

Lemma wp_mono {A} (m : M A) w (P Q : A -> world -> Prop) :
  wp m w P -> (forall a w', P a w' -> Q a w') -> wp m w Q.
Proof. unfold wp. destruct (m w); auto. Qed.

Lemma wp_done {A} (m : M A) w Q :
  wp m w Q <-> exists a w', m w = Done a w' /\ Q a w'.
Proof.
  unfold wp. split.
  - destruct (m w); naive_solver.
  - intros (a & w' & -> & ?). done.
Qed.

Lemma wlp_done {A} (m : M A) w Q :
  wlp m w Q <-> forall a w', m w = Done a w' -> Q a w'.
Proof. unfold wlp. split; [intros ? ? ? E; by rewrite E in *|]. destruct (m w); auto. Qed.

Lemma wlp_fault {A} w (Q : A -> world -> Prop) : wlp fault w Q.
Proof. done. Qed.

Lemma wlp_timeout {A} w (Q : A -> world -> Prop) : wlp timeout w Q.
Proof. done. Qed.

(** ** Equations of the monad *)

Lemma bind_done {A B} (m : M A) (k : A -> M B) w a w' :
  m w = Done a w' -> (m ≫= k) w = k a w'.
Proof. intros E. unfold mbind, M_bind. by rewrite E. Qed.

Lemma bind_ret {A B} (a : A) (k : A -> M B) w : (mret a ≫= k) w = k a w.
Proof. done. Qed.

Lemma bind_Done_inv {A B} (m : M A) (k : A -> M B) w b w'' :
  (m ≫= k) w = Done b w'' ->
  exists a w', m w = Done a w' /\ k a w' = Done b w''.
Proof. unfold mbind, M_bind. destruct (m w); naive_solver. Qed.

Lemma bind_assoc {A B C} (m : M A) (f : A -> M B) (g : B -> M C) w :
  ((m ≫= f) ≫= g) w = (m ≫= fun a => f a ≫= g) w.
Proof. unfold mbind, M_bind. by destruct (m w). Qed.

(** Decompose a hypothesis that a bind returns. *)
Ltac inv_bind H :=
  match type of H with
  | (?m ≫= ?k) ?w = Done _ _ =>
      let a := fresh "a" in let w1 := fresh "w" in
      let E := fresh "E" in
      apply bind_Done_inv in H as (a & w1 & E & H); cbv beta in H
  end.

(** ** Reads and writes of regions *)

Definition mapped (m : gmap Z Z) (a n : Z) : Prop :=
  forall x, a <= x < a + n -> is_Some (m !! x).

Lemma read_bytes_length m a n bs : read_bytes m a n = Some bs -> length bs = n.
Proof.
  revert a bs. induction n as [|n IH]; intros a bs; cbn; [naive_solver|].
  intros (b & ? & (bs' & ? & [= <-])%bind_Some)%bind_Some. simpl. f_equal. eauto.
Qed.

Lemma read_bytes_mono m m' a n bs :
  m ⊆ m' -> read_bytes m a n = Some bs -> read_bytes m' a n = Some bs.
Proof.
  intros Hs. revert a bs. induction n as [|n IH]; intros a bs; cbn; [done|].
  intros (b & Hb & (bs' & Hr & [= <-])%bind_Some)%bind_Some.
  rewrite (lookup_weaken _ _ _ _ Hb Hs). cbn. by rewrite (IH _ _ Hr).
Qed.

Lemma read_le_mono m m' n a v :
  m ⊆ m' -> read_le m n a = Some v -> read_le m' n a = Some v.
Proof.
  intros Hs. unfold read_le. intros (bs & Hr & ->)%fmap_Some.
  by rewrite (read_bytes_mono _ _ _ _ _ Hs Hr).
Qed.

Lemma read_bytes_app m a n1 n2 bs1 bs2 :
  read_bytes m a n1 = Some bs1 ->
  read_bytes m (a + Z.of_nat n1) n2 = Some bs2 ->
  read_bytes m a (n1 + n2) = Some (bs1 ++ bs2).
Proof.
  revert a bs1. induction n1 as [|n1 IH]; intros a bs1; cbn.
  - intros [= <-]. by rewrite Z.add_0_r.
  - intros (b & Hb & (bs & Hr & [= <-])%bind_Some)%bind_Some H2.
    rewrite Hb. cbn. rewrite (IH (a + 1) bs Hr); [done|].
    by replace (a + 1 + Z.of_nat n1) with (a + Z.of_nat (S n1)) by lia.
Qed.

Lemma read_bytes_same m m' a n :
  (forall x, a <= x < a + Z.of_nat n -> m' !! x = m !! x) ->
  read_bytes m' a n = read_bytes m a n.
Proof.
  revert a. induction n as [|n IH]; intros a H; cbn; [done|].
  rewrite (H a) by lia. destruct (m !! a); cbn; [|done].
  rewrite IH; [done|]. intros. apply H. lia.
Qed.

Lemma read_bytes_lookup m a n bs i :
  read_bytes m a n = Some bs -> (i < n)%nat -> m !! (a + Z.of_nat i) = bs !! i.
Proof.
  revert a bs i. induction n as [|n IH]; intros a bs i; cbn; [lia|].
  intros (b & Hb & (bs' & Hr & [= <-])%bind_Some)%bind_Some Hi.
  destruct i as [|i]; [by rewrite Z.add_0_r|].
  replace (a + Z.of_nat (S i)) with (a + 1 + Z.of_nat i) by lia.
  rewrite (IH _ _ _ Hr); [done|lia].
Qed.

Lemma read_bytes_mapped m a n :
  mapped m a (Z.of_nat n) -> is_Some (read_bytes m a n).
Proof.
  revert a. induction n as [|n IH]; intros a H; cbn; [by eexists|].
  destruct (H a ltac:(lia)) as [b ->]. cbn.
  destruct (IH (a + 1)) as [bs ->]; [|by eexists]. intros x Hx. apply H. lia.
Qed.

(** A mapped region takes up memory. *)
Lemma mapped_size (m : gmap Z Z) a n : mapped m a (Z.of_nat n) -> (n <= size m)%nat.
Proof.
  intros Hm. assert (El : length (seqZ a (Z.of_nat n)) = n) by (rewrite length_seqZ; lia).
  rewrite <- El, <- (size_list_to_set (C := gset Z)) by apply NoDup_seqZ.
  rewrite <- (size_dom (D := gset Z) m). apply subseteq_size.
  intros x Hx%elem_of_list_to_set%elem_of_seqZ. apply elem_of_dom, Hm. lia.
Qed.

Lemma write_bytes_inv m a bs m' :
  write_bytes m a bs = Some m' ->
  mapped m a (Z.of_nat (length bs)) /\
  read_bytes m' a (length bs) = Some bs /\
  (forall x, ~ (a <= x < a + Z.of_nat (length bs)) -> m' !! x = m !! x).
Proof.
  revert m a. induction bs as [|b bs IH]; intros m a; cbn [write_bytes length read_bytes].
  - intros [= <-]. repeat split; intros; auto. intros x Hx. lia.
  - destruct (m !! a) as [b0|] eqn:Ha; [|done]. intros (Hm & Hr & Hf)%IH.
    split; [|split].
    + intros x Hx. destruct (decide (x = a)) as [->|]; [eauto|].
      destruct (Hm x ltac:(lia)) as [y Hy].
      rewrite lookup_insert_ne in Hy by done. eauto.
    + rewrite Hf by lia. rewrite lookup_insert_eq. cbn. by rewrite Hr.
    + intros x Hx. rewrite Hf by lia. rewrite lookup_insert_ne; [done|lia].
Qed.

Lemma write_bytes_mapped m a bs :
  mapped m a (Z.of_nat (length bs)) -> is_Some (write_bytes m a bs).
Proof.
  revert m a. induction bs as [|b bs IH]; intros m a H; cbn; [by eexists|].
  destruct (H a) as [c ->]; [rewrite length_cons; lia|]. apply IH.
  intros x Hx. destruct (decide (x = a)) as [->|].
  - rewrite lookup_insert_eq. eauto.
  - rewrite lookup_insert_ne by done. apply H. rewrite length_cons. lia.
Qed.

Lemma write_bytes_dom m a bs m' :
  write_bytes m a bs = Some m' -> forall x, is_Some (m' !! x) <-> is_Some (m !! x).
Proof.
  revert m a. induction bs as [|b bs IH]; intros m a; cbn [write_bytes].
  - by intros [= <-].
  - destruct (m !! a) as [b0|] eqn:Ha; [|done]. intros H x. rewrite (IH _ _ H x).
    destruct (decide (x = a)) as [->|].
    + rewrite lookup_insert_eq, Ha. split; eauto.
    + by rewrite lookup_insert_ne.
Qed.

Lemma write_bytes_app m a bs1 bs2 m1 m2 :
  write_bytes m a bs1 = Some m1 ->
  write_bytes m1 (a + Z.of_nat (length bs1)) bs2 = Some m2 ->
  write_bytes m a (bs1 ++ bs2) = Some m2.
Proof.
  revert m a. induction bs1 as [|b bs1 IH]; intros m a; cbn.
  - intros [= <-]. by rewrite Z.add_0_r.
  - destruct (m !! a); [|done]. intros H1 H2. apply (IH _ _ H1).
    by replace (a + 1 + Z.of_nat (length bs1)) with (a + Z.of_nat (S (length bs1))) by lia.
Qed.

Lemma read_le_bytes_val m a n v :
  0 <= v < 2 ^ (8 * Z.of_nat n) -> read_bytes m a n = Some (le_bytes n v) ->
  read_le m n a = Some v.
Proof. intros Hv H. unfold read_le. rewrite H. cbn. by rewrite le_val_le_bytes_small. Qed.

(** A store is read back. *)
Lemma store_load n a v w w' :
  store n a v w = Done tt w' ->
  read_le (mem w') n a = Some (v mod 2 ^ (8 * Z.of_nat n)).
Proof.
  unfold store, store_bytes. destruct (write_bytes _ _ _) as [m|] eqn:E; [|done].
  intros [= <-]. apply write_bytes_inv in E as (_ & Hr & _).
  rewrite length_le_bytes in Hr. unfold read_le. cbn [mem set_mem].
  rewrite Hr. cbn. by rewrite le_val_le_bytes.
Qed.

(** ** Calls that may fail: [if (!f(...)) return false;]

    A C function returning [bool] and updating the struct [s] it is passed a
    pointer to is a computation of type [M (bool * S)]. *)
Definition and_then {T : Type} (m : M (bool * T)) (k : T -> M (bool * T)) : M (bool * T) :=
  m ≫= fun r : bool * T => if r.1 then k r.2 else mret (false, r.2).

Notation "s '<-?' m ';' k" := (and_then m (fun s => k))
  (at level 100, m at next level, k at level 200, right associativity) : stdpp_scope.

Lemma wlp_and_then {T : Type} (m : M (bool * T)) (k : T -> M (bool * T)) w Q :
  wlp m w (fun r w' => if r.1 then wlp (k r.2) w' Q else Q (false, r.2) w') ->
  wlp (and_then m k) w Q.
Proof.
  intros H. apply wlp_bind. eapply wlp_mono; [exact H|].
  intros [[] s] w'; simpl; auto.
Qed.

Lemma and_then_done {T : Type} (m : M (bool * T)) (k : T -> M (bool * T)) w s w' :
  m w = Done (true, s) w' -> and_then m k w = k s w'.
Proof. intros E. unfold and_then. by rewrite (bind_done _ _ _ _ _ E). Qed.

Lemma and_then_false {T : Type} (m : M (bool * T)) (k : T -> M (bool * T)) w s w' :
  m w = Done (false, s) w' -> and_then m k w = Done (false, s) w'.
Proof. intros E. unfold and_then. by rewrite (bind_done _ _ _ _ _ E). Qed.

(** ** Read-only computations

    A read-only computation leaves the world as it is and returns the same
    value in every world that has at least the memory it was run with. *)
Class ReadOnly {A} (m : M A) : Prop :=
  read_only : forall w a w', m w = Done a w' ->
    w' = w /\ forall w2, mem w ⊆ mem w2 -> m w2 = Done a w2.

#[export] Instance read_only_ret {A} (a : A) : ReadOnly (mret a).
Proof. intros w b w' [= <- <-]. done. Qed.

#[export] Instance read_only_fault {A} : ReadOnly (fault (A := A)).
Proof. intros w b w'. done. Qed.

#[export] Instance read_only_timeout {A} : ReadOnly (timeout (A := A)).
Proof. intros w b w'. done. Qed.

#[export] Instance read_only_of_option {A} (o : option A) : ReadOnly (of_option o).
Proof. destruct o; apply _. Qed.

#[export] Instance read_only_load n a : ReadOnly (load n a).
Proof.
  intros w v w'. unfold load. destruct (read_le (mem w) n a) as [v'|] eqn:E; [|done].
  intros [= <- <-]. split; [done|]. intros w2 Hs. by rewrite (read_le_mono _ _ _ _ _ Hs E).
Qed.

#[export] Instance read_only_load_ptr a : ReadOnly (load_ptr a).
Proof. apply read_only_load. Qed.

#[export] Instance read_only_bind {A B} (m : M A) (k : A -> M B) :
  ReadOnly m -> (forall a, ReadOnly (k a)) -> ReadOnly (m ≫= k).
Proof.
  intros Hm Hk w b w' H. inv_bind H. apply Hm in E as [-> E].
  apply Hk in H as [-> H]. split; [done|]. intros w2 Hs.
  rewrite (bind_done _ _ _ _ _ (E _ Hs)). by apply H.
Qed.

#[export] Instance read_only_if {A} (b : bool) (m1 m2 : M A) :
  ReadOnly m1 -> ReadOnly m2 -> ReadOnly (if b then m1 else m2).
Proof. by destruct b. Qed.

#[export] Instance read_only_match_prod {A B C} (p : A * B) (k : A -> B -> M C) :
  (forall a b, ReadOnly (k a b)) -> ReadOnly (let '(a, b) := p in k a b).
Proof. by destruct p. Qed.

(** The value a computation returns on a bare memory. *)
Definition eval {A} (m : M A) (mm : gmap Z Z) : option A :=
  match m (World mm ∅ 0 0 0) with Done a _ => Some a | _ => None end.

Lemma eval_run {A} (m : M A) `{!ReadOnly m} mm w a :
  eval m mm = Some a -> mm ⊆ mem w -> m w = Done a w.
Proof.
  unfold eval. destruct (m _) as [a' w'| |] eqn:E; [|done|done].
  intros [= <-] Hs. by apply (read_only _ _ _ E).
Qed.

(** ** Bytes in range *)

Definition wf_mem (m : gmap Z Z) : Prop := forall a b, m !! a = Some b -> is_byte b.

Lemma read_bytes_byte m a n bs :
  wf_mem m -> read_bytes m a n = Some bs -> Forall is_byte bs.
Proof.
  intros Hm. revert a bs. induction n as [|n IH]; intros a bs; cbn.
  - intros [= <-]. constructor.
  - intros (b & Hb & (bs' & Hr & [= <-])%bind_Some)%bind_Some. constructor; eauto.
Qed.

Lemma read_le_bound m n a v :
  wf_mem m -> read_le m n a = Some v -> 0 <= v < 2 ^ (8 * Z.of_nat n).
Proof.
  intros Hm. unfold read_le. intros (bs & Hr & ->)%fmap_Some.
  rewrite <- (read_bytes_length _ _ _ _ Hr). apply le_val_bound.
  by eapply read_bytes_byte.
Qed.

Lemma load_run n a m w v :
  read_le m n a = Some v -> m ⊆ mem w -> load n a w = Done v w.
Proof. intros H Hs. unfold load. by rewrite (read_le_mono _ _ _ _ _ Hs H). Qed.

(** ** Deciding the premises on concrete memories *)

Lemma wf_mem_check m :
  bool_decide (map_Forall (fun _ b => 0 <= b < 256) m) = true -> wf_mem m.
Proof. intros H%bool_decide_eq_true a b Hb. exact (H a b Hb). Qed.

Lemma subset_check (m m' : gmap Z Z) :
  bool_decide (map_Forall (fun a b => m' !! a = Some b) m) = true -> m ⊆ m'.
Proof. intros H%bool_decide_eq_true. apply map_subseteq_spec. exact H. Qed.

Lemma read_bytes_is_mapped m a n :
  is_Some (read_bytes m a n) -> mapped m a (Z.of_nat n).
Proof.
  revert a. induction n as [|n IH]; intros a; cbn; [intros _ x Hx; lia|].
  intros (bs & (b & Hb & (bs' & Hr & _)%bind_Some)%bind_Some) x Hx.
  destruct (decide (x = a)) as [->|]; [eauto|]. apply (IH (a + 1)); [eauto|lia].
Qed.

Lemma mapped_check m a n :
  (if read_bytes m a (Z.to_nat n) is Some _ then true else false) = true ->
  mapped m a n.
Proof.
  intros H. destruct (read_bytes m a (Z.to_nat n)) eqn:E; [|done].
  intros x Hx. apply (read_bytes_is_mapped m a (Z.to_nat n)); [eauto|lia].
Qed.

Lemma apart_check (m : gmap Z Z) a n :
  bool_decide (map_Forall (fun x _ => ~ (a <= x < a + n)) m) = true ->
  forall x, a <= x < a + n -> m !! x = None.
Proof.
  intros H%bool_decide_eq_true x Hx. destruct (m !! x) eqn:E; [|done].
  by destruct (H x z E).
Qed.

(** A memory given by its regions: start addresses and contents. *)
Fixpoint mem_of (regions : list (Z * list Z)) : gmap Z Z :=
  match regions with
  | [] => ∅
  | (a, bs) :: rs => map_region (mem_of rs) a bs
  end.

(** A world with memory [m], an empty heap starting at [base], and [limit]
    as its end. *)
Definition world_of (m : gmap Z Z) (base limit : Z) : world := World m ∅ base limit 0.

(** ** Calls with an output parameter

    [if (!f(&s, &dest)) return false;]: [None] for a false return. *)
Definition bind_val {A T B : Type} (m : M (option A * T)) (k : A -> T -> M (option B * T)) :
    M (option B * T) :=
  m ≫= fun r : option A * T =>
    match r.1 with Some a => k a r.2 | None => mret (None, r.2) end.

(** The same in a function that returns only [bool]. *)
Definition bind_ok {A T : Type} (m : M (option A * T)) (k : A -> T -> M (bool * T)) :
    M (bool * T) :=
  m ≫= fun r : option A * T =>
    match r.1 with Some a => k a r.2 | None => mret (false, r.2) end.

Notation "v ',,' s '<-!' m ';' k" := (bind_val m (fun v s => k))
  (at level 100, s at next level, m at next level, k at level 200, right associativity)
  : stdpp_scope.
Notation "v ',,' s '<-&' m ';' k" := (bind_ok m (fun v s => k))
  (at level 100, s at next level, m at next level, k at level 200, right associativity)
  : stdpp_scope.

Lemma bind_val_done {A T B : Type} (m : M (option A * T)) (k : A -> T -> M (option B * T)) w a s w' :
  m w = Done (Some a, s) w' -> bind_val m k w = k a s w'.
Proof. intros E. unfold bind_val. by rewrite (bind_done _ _ _ _ _ E). Qed.

Lemma bind_val_none {A T B : Type} (m : M (option A * T)) (k : A -> T -> M (option B * T)) w s w' :
  m w = Done (None, s) w' -> bind_val m k w = Done (None, s) w'.
Proof. intros E. unfold bind_val. by rewrite (bind_done _ _ _ _ _ E). Qed.

Lemma bind_ok_done {A T : Type} (m : M (option A * T)) (k : A -> T -> M (bool * T)) w a s w' :
  m w = Done (Some a, s) w' -> bind_ok m k w = k a s w'.
Proof. intros E. unfold bind_ok. by rewrite (bind_done _ _ _ _ _ E). Qed.

Lemma bind_ok_none {A T : Type} (m : M (option A * T)) (k : A -> T -> M (bool * T)) w s w' :
  m w = Done (None, s) w' -> bind_ok m k w = Done (false, s) w'.
Proof. intros E. unfold bind_ok. by rewrite (bind_done _ _ _ _ _ E). Qed.

(** ** Termination

    [ends m w Q]: [m] ends from [w], and [Q] holds of the result if it returns;
    undefined behaviour is allowed. *)
Definition ends {A} (m : M A) (w : world) (Q : A -> world -> Prop) : Prop :=
  match m w with Done a w' => Q a w' | Fault => True | Timeout => False end.

Lemma ends_ret {A} (a : A) w (Q : A -> world -> Prop) : Q a w -> ends (mret a) w Q.
Proof. done. Qed.

Lemma ends_fault {A} w (Q : A -> world -> Prop) : ends fault w Q.
Proof. done. Qed.

Lemma ends_bind {A B} (m : M A) (k : A -> M B) w Q :
  ends m w (fun a w' => ends (k a) w' Q) -> ends (m ≫= k) w Q.
Proof. unfold ends, mbind, M_bind. by destruct (m w). Qed.

Lemma ends_mono {A} (m : M A) w (P Q : A -> world -> Prop) :
  ends m w P -> (forall a w', P a w' -> Q a w') -> ends m w Q.
Proof. unfold ends. destruct (m w); auto. Qed.

Lemma ends_load n a w (Q : Z -> world -> Prop) :
  (forall v, Q v w) -> ends (load n a) w Q.
Proof. intros H. unfold ends, load. by destruct (read_le _ _ _). Qed.

Lemma ends_of_option {A} (o : option A) w (Q : A -> world -> Prop) :
  (forall a, o = Some a -> Q a w) -> ends (of_option o) w Q.
Proof. destruct o; [intros H; by apply H|done]. Qed.

Lemma ends_not_timeout {A} (m : M A) w Q : ends m w Q -> m w <> Timeout.
Proof. unfold ends. by destruct (m w). Qed.

(** From here on [simpl] and [cbn] leave the accesses to memory and the monads of
    results alone; lemmas rewrite with what they do. *)
#[global] Arguments load : simpl never.
#[global] Arguments read_le : simpl never.
#[global] Arguments bind_val : simpl never.
#[global] Arguments bind_ok : simpl never.
#[global] Arguments and_then : simpl never.
#[global] Arguments store : simpl never.
