(* ===== verification/PbTypes.v ===== *)
(** nanopb's shared data (pb.h) and its field iterator (pb_common.c).

    Field descriptor arrays are constant data of the program: a pointer to a
    descriptor is an array name and an index ([field_ref]), and the arrays
    themselves, with the extension type structures, are the parameter
    [PbDescriptors]. *)
From S2P Require Import Prelude Memory.

(** ** Field types: [pb_type_t] bits *)

Definition PB_LTYPE_BOOL : Z := 0.
Definition PB_LTYPE_VARINT : Z := 1.
Definition PB_LTYPE_UVARINT : Z := 2.
Definition PB_LTYPE_SVARINT : Z := 3.
Definition PB_LTYPE_FIXED32 : Z := 4.
Definition PB_LTYPE_FIXED64 : Z := 5.
Definition PB_LTYPE_LAST_PACKABLE : Z := 5.
Definition PB_LTYPE_BYTES : Z := 6.
Definition PB_LTYPE_STRING : Z := 7.
Definition PB_LTYPE_SUBMESSAGE : Z := 8.
Definition PB_LTYPE_EXTENSION : Z := 9.
Definition PB_LTYPE_FIXED_LENGTH_BYTES : Z := 10.

Definition PB_HTYPE_REQUIRED : Z := 0.
Definition PB_HTYPE_OPTIONAL : Z := 16.
Definition PB_HTYPE_REPEATED : Z := 32.
Definition PB_HTYPE_ONEOF : Z := 48.

Definition PB_ATYPE_STATIC : Z := 0.
Definition PB_ATYPE_POINTER : Z := 128.
Definition PB_ATYPE_CALLBACK : Z := 64.

Definition PB_LTYPE (x : Z) : Z := Z.land x 15.
Definition PB_HTYPE (x : Z) : Z := Z.land x 48.
Definition PB_ATYPE (x : Z) : Z := Z.land x 192.

Lemma PB_LTYPE_range x : 0 <= PB_LTYPE x < 16.
Proof.
  unfold PB_LTYPE. change 15 with (Z.ones 4). rewrite Z.land_ones by lia.
  apply Z.mod_pos_bound. lia.
Qed.

Lemma PB_HTYPE_cases x :
  PB_HTYPE x = PB_HTYPE_REQUIRED \/ PB_HTYPE x = PB_HTYPE_OPTIONAL \/
  PB_HTYPE x = PB_HTYPE_REPEATED \/ PB_HTYPE x = PB_HTYPE_ONEOF.
Proof.
  unfold PB_HTYPE. change 48 with (Z.shiftl (Z.ones 2) 4).
  assert (Z.land x (Z.shiftl (Z.ones 2) 4) = Z.shiftl (Z.shiftr x 4 mod 4) 4) as ->.
  { assert (Z.shiftr x 4 mod 4 = Z.land (Z.shiftr x 4) (Z.ones 2)) as ->
      by (by rewrite Z.land_ones by lia).
    apply Z.bits_inj'; intros i Hi.
    rewrite Z.land_spec, !Z.shiftl_spec by done. destruct (Z_lt_dec i 4).
    - rewrite (Z.testbit_neg_r (Z.ones 2)), andb_false_r, Z.testbit_neg_r by lia. done.
    - rewrite Z.land_spec, Z.shiftr_spec by lia. by replace (i - 4 + 4) with i by lia. }
  pose proof (Z.mod_pos_bound (Z.shiftr x 4) 4 ltac:(lia)) as Hb.
  assert (Z.shiftr x 4 mod 4 = 0 \/ Z.shiftr x 4 mod 4 = 1 \/
          Z.shiftr x 4 mod 4 = 2 \/ Z.shiftr x 4 mod 4 = 3) as [-> | [-> | [-> | ->]]] by lia;
    vm_compute; auto.
Qed.

(** [pb_size_t] is [uint32_t] (PB_FIELD_32BIT); pointers and [size_t] have 64
    bits, [bool] one byte. *)
Definition PB_SIZE_MAX : Z := 2 ^ 32 - 1.
Definition SIZE_MAX : Z := 2 ^ 64 - 1.
Definition NULL : Z := 0.

(** Wire types ([pb_wire_type_t]); the decoder casts any 3-bit number. *)
Definition PB_WT_VARINT : Z := 0.
Definition PB_WT_64BIT : Z := 1.
Definition PB_WT_STRING : Z := 2.
Definition PB_WT_32BIT : Z := 5.

(** ** Field descriptors *)

(** A [const pb_field_t *]: an array of descriptors and an index into it. *)
Definition field_ref : Type := (nat * nat)%type.

#[global] Instance field_ref_eq_dec : EqDecision field_ref.
Proof. solve_decision. Defined.

(** [const void *ptr] of a descriptor: null, the descriptors of a submessage,
    or the default value. *)
Inductive field_ptr :=
  | PtrNull
  | PtrSubmsg (fields : nat)
  | PtrDefault (value : list Z).

Record pb_field_t := PbField {
  tag : Z;
  type : Z;
  data_offset : Z;
  size_offset : Z;
  data_size : Z;
  array_size : Z;
  ptr : field_ptr
}.

Definition PB_LAST_FIELD : pb_field_t := PbField 0 0 0 0 0 0 PtrNull.

(** [pb_extension_type_t]: the handlers are function pointers, null for the
    default ones; [arg] points at a descriptor. *)
Record pb_extension_type_t := PbExtensionType {
  ext_decode : Z;
  ext_encode : Z;
  ext_arg : field_ref
}.

(** The constant data of the program. *)
Class PbDescriptors := {
  fields_at : nat -> list pb_field_t;
  extension_type_at : Z -> option pb_extension_type_t
}.

(** Layout of [pb_extension_t]: type, dest, next, found. *)
Definition pb_extension_type_off : Z := 0.
Definition pb_extension_dest_off : Z := 8.
Definition pb_extension_next_off : Z := 16.
Definition pb_extension_found_off : Z := 24.

(** Layout of [pb_callback_t] (funcs, arg) and [pb_bytes_array_t] (size, bytes). *)
Definition pb_callback_arg_off : Z := 8.
Definition pb_bytes_off : Z := 4.

(** [PB_SET_ERROR] keeps the first message. *)
Definition PB_SET_ERROR (errmsg : option string) (msg : string) : option string :=
  match errmsg with Some m => Some m | None => Some msg end.

Section WithDescriptors.
Context {PD : PbDescriptors}.

Definition deref_field (r : field_ref) : option pb_field_t := fields_at r.1 !! r.2.

(** ** The field iterator *)

Record pb_field_iter_t := PbFieldIter {
  start : field_ref;
  pos : field_ref;
  required_field_index : Z;
  dest_struct : Z;
  pData : Z;
  pSize : Z
}.

(** [None] when a descriptor outside its array is read. *)
Definition pb_field_iter_begin (fields : field_ref) (dest : Z) :
    option (bool * pb_field_iter_t) :=
  f ← deref_field fields;
  let '(d, s) :=
    if dest =? NULL then (NULL, NULL)
    else (dest + data_offset f, dest + data_offset f + size_offset f) in
  Some (negb (tag f =? 0), PbFieldIter fields fields 0 dest d s).

Definition pb_field_iter_next (iter : pb_field_iter_t) : option (bool * pb_field_iter_t) :=
  prev_field ← deref_field (pos iter);
  if tag prev_field =? 0 then Some (false, iter)
  else
    let pos' := ((pos iter).1, S (pos iter).2) in
    cur ← deref_field pos';
    if tag cur =? 0 then
      '(_, iter') ← pb_field_iter_begin (start iter) (dest_struct iter);
      Some (false, iter')
    else if (PB_HTYPE (type prev_field) =? PB_HTYPE_ONEOF) &&
            (PB_HTYPE (type cur) =? PB_HTYPE_ONEOF) &&
            (data_offset cur =? PB_SIZE_MAX) then
      Some (true, PbFieldIter (start iter) pos' (required_field_index iter)
                    (dest_struct iter) (pData iter) (pSize iter))
    else
      let prev_size :=
        if (PB_ATYPE (type prev_field) =? PB_ATYPE_STATIC) &&
           (PB_HTYPE (type prev_field) =? PB_HTYPE_REPEATED) then
          u64 (data_size prev_field * array_size prev_field)
        else if PB_ATYPE (type prev_field) =? PB_ATYPE_POINTER then 8
        else data_size prev_field in
      let rfi :=
        if PB_HTYPE (type prev_field) =? PB_HTYPE_REQUIRED then
          u32 (required_field_index iter + 1)
        else required_field_index iter in
      let d := pData iter + prev_size + data_offset cur in
      Some (true, PbFieldIter (start iter) pos' rfi (dest_struct iter)
                    d (d + size_offset cur)).

(** The search loop of [pb_field_iter_find]: at most one round over the array,
    the fuel being the number of its entries. [Some (found, iter)]. *)
Fixpoint pb_field_iter_find_loop (fuel : nat) (st : field_ref) (t : Z)
    (iter : pb_field_iter_t) : option (option (bool * pb_field_iter_t)) :=
  match fuel with
  | O => Some None
  | S fuel' =>
      f ← deref_field (pos iter);
      if (tag f =? t) && negb (PB_LTYPE (type f) =? PB_LTYPE_EXTENSION) then
        Some (Some (true, iter))
      else
        '(_, iter') ← pb_field_iter_next iter;
        if decide (pos iter' = st) then Some (Some (false, iter'))
        else pb_field_iter_find_loop fuel' st t iter'
  end.

Definition array_fuel (r : field_ref) : nat := S (length (fields_at r.1)).

Definition of_option2 {A} (o : option (option A)) : M A :=
  match o with Some (Some a) => mret a | Some None => timeout | None => fault end.

Definition pb_field_iter_find (iter : pb_field_iter_t) (t : Z) :
    M (bool * pb_field_iter_t) :=
  of_option2 (pb_field_iter_find_loop (array_fuel (pos iter)) (pos iter) t iter).

End WithDescriptors.
