(* ===== verification/CrashlyticsProto.v ===== *)
(** The descriptors protoc generates for Crashlytics' report
    (FirebaseCrashlytics, Protogen/nanopb/crashlytics.nanopb.c), the message
    FIRCLSReportAdapter.m passes to [pb_encode] and [pb_release], with the
    struct offsets of the 64-bit ABI, and a concrete report in memory. *)
From S2P Require Import Prelude Memory PbTypes.

Definition google_crashlytics_Report_id : nat := 0.
Definition google_crashlytics_FilesPayload_id : nat := 1.
Definition google_crashlytics_FilesPayload_File_id : nat := 2.

(** PB_FIELD(tag, BYTES, SINGULAR, POINTER, ...): [data_size] is that of
    [pb_bytes_array_t]. *)
Definition bytes_pointer (t offset : Z) : pb_field_t :=
  PbField t (PB_ATYPE_POINTER + PB_HTYPE_OPTIONAL + PB_LTYPE_BYTES) offset 0 8 0 PtrNull.

Definition google_crashlytics_Report_fields : list pb_field_t :=
  [bytes_pointer 1 0;
   bytes_pointer 3 0;
   PbField 4 (PB_ATYPE_STATIC + PB_HTYPE_OPTIONAL + PB_LTYPE_UVARINT) 0 0 4 0 PtrNull;
   bytes_pointer 5 4;
   bytes_pointer 6 0;
   bytes_pointer 7 0;
   PbField 10 (PB_ATYPE_STATIC + PB_HTYPE_OPTIONAL + PB_LTYPE_SUBMESSAGE) 0 0 16 0
     (PtrSubmsg google_crashlytics_FilesPayload_id);
   bytes_pointer 16 0;
   bytes_pointer 17 0;
   PB_LAST_FIELD].

Definition google_crashlytics_FilesPayload_fields : list pb_field_t :=
  [PbField 1 (PB_ATYPE_POINTER + PB_HTYPE_REPEATED + PB_LTYPE_SUBMESSAGE) 8 (-8) 16 0
     (PtrSubmsg google_crashlytics_FilesPayload_File_id);
   PB_LAST_FIELD].

Definition google_crashlytics_FilesPayload_File_fields : list pb_field_t :=
  [bytes_pointer 1 0;
   bytes_pointer 2 0;
   PB_LAST_FIELD].

#[export] Instance crashlytics_descriptors : PbDescriptors := {
  fields_at id :=
    match id with
    | 0 => google_crashlytics_Report_fields
    | 1 => google_crashlytics_FilesPayload_fields
    | 2 => google_crashlytics_FilesPayload_File_fields
    | _ => []
    end%nat;
  extension_type_at _ := None
}.

Definition report_ref : field_ref := (google_crashlytics_Report_id, 0%nat).

(** ** A concrete report *)

(** [pb_bytes_array_t]: the size, then the bytes. *)
Definition bytes_array (bs : list Z) : list Z :=
  le_bytes 4 (Z.of_nat (length bs)) ++ bs.

Definition example_report_addr : Z := 4096.

(** A report with an SDK version, platform 7 and one file of 3 bytes. *)
Definition example_report_mem : gmap Z Z :=
  mem_of
    [(4096, le_bytes 8 8192 ++ le_bytes 8 0 ++ le_bytes 4 7 ++ le_bytes 4 0 ++
            le_bytes 8 0 ++ le_bytes 8 0 ++ le_bytes 8 0 ++
            le_bytes 4 1 ++ le_bytes 4 0 ++ le_bytes 8 8208 ++
            le_bytes 8 0 ++ le_bytes 8 0);
     (8192, bytes_array [49; 48; 46; 49; 53]);
     (8208, le_bytes 8 8224 ++ le_bytes 8 8240);
     (8224, bytes_array [97; 46; 98]);
     (8240, bytes_array [1; 2; 3])].
