(* ===== verification/PbLayout.v ===== *)
(** The field iterator of pb_common.c and the layout of a message struct: the
    iterator runs through the fields of a message in a circle, the search of a tag
    finds the field that has it from any position, with the same data pointers as a
    scan from the first field; the offsets of the fields, and the check that a
    message of static fields fits its struct. *)
From S2P Require Import Prelude Memory PbTypes.

Section Iterator.
Context {PD : PbDescriptors}.

(** An array of descriptors: fields with a tag, and the end marker. *)
Definition descriptors (arr : nat) (fs : list pb_field_t) : Prop :=
  fs <> [] /\ exists last, fields_at arr = fs ++ [last] /\
    Forall (fun f => tag f <> 0) fs /\ tag last = 0.

(** The iterator [k] steps after [pb_field_iter_begin]. *)
Fixpoint field_iter (arr : nat) (dest : Z) (k : nat) : option pb_field_iter_t :=
  match k with
  | O => snd <$> pb_field_iter_begin (arr, 0%nat) dest
  | S k =>
      iter ← field_iter arr dest k;
      snd <$> pb_field_iter_next iter
  end.

(** The search of a field by a predicate, of which [pb_field_iter_find] and
    [find_extension_field] are the two uses. *)
Fixpoint search_loop (stop : pb_field_t -> bool) (fuel : nat) (st : field_ref)
    (iter : pb_field_iter_t) : option (option (bool * pb_field_iter_t)) :=
  match fuel with
  | O => Some None
  | S fuel' =>
      f ← deref_field (pos iter);
      if stop f then Some (Some (true, iter))
      else
        '(_, iter') ← pb_field_iter_next iter;
        if decide (pos iter' = st) then Some (Some (false, iter'))
        else search_loop stop fuel' st iter'
  end.

Definition has_tag (t : Z) (f : pb_field_t) : bool :=
  (tag f =? t) && negb (PB_LTYPE (type f) =? PB_LTYPE_EXTENSION).

Lemma find_loop_search fuel st t iter :
  pb_field_iter_find_loop fuel st t iter = search_loop (has_tag t) fuel st iter.
Proof.
  revert iter. induction fuel as [|fuel IH]; intros iter; [done|]. cbn.
  destruct (deref_field (pos iter)); [|done]. cbn. unfold has_tag. destruct (_ && _); [done|].
  destruct (pb_field_iter_next iter) as [[b it]|]; [|done]. cbn. by rewrite IH.
Qed.

(** A field that a search stops at. *)
Definition stops_at (stop : pb_field_t -> bool) (fs : list pb_field_t) (k : nat) : bool :=
  match fs !! k with Some f => stop f | None => false end.

Definition field_matches (fs : list pb_field_t) (t : Z) (k : nat) : bool :=
  stops_at (has_tag t) fs k.

Section Array.
Context (arr : nat) (fs : list pb_field_t) (dest : Z).
Context (Harr : descriptors arr fs).

Abbreviation n := (length fs).

Lemma descriptors_nonempty : (0 < n)%nat.
Proof. destruct Harr as [H _]. destruct fs; [done|cbn; lia]. Qed.

Lemma deref_fields k : (k < n)%nat -> exists f, deref_field (arr, k) = Some f /\ fs !! k = Some f /\ tag f <> 0.
Proof.
  intros Hk. destruct Harr as (_ & last & E & Hf & _).
  destruct (lookup_lt_is_Some_2 fs k Hk) as [f Ef]. exists f. split; [|split; [done|]].
  - unfold deref_field. cbn. by rewrite E, lookup_app_l.
  - by eapply Forall_lookup_1 in Hf.
Qed.

Lemma deref_last : exists f, deref_field (arr, n) = Some f /\ tag f = 0.
Proof.
  destruct Harr as (_ & last & E & _ & Hl). exists last. split; [|done].
  unfold deref_field. cbn. by rewrite E, lookup_app_r, Nat.sub_diag by lia.
Qed.

Lemma begin_run : exists it, pb_field_iter_begin (arr, 0%nat) dest = Some (true, it) /\
  pos it = (arr, 0%nat) /\ start it = (arr, 0%nat) /\ dest_struct it = dest.
Proof.
  destruct (deref_fields 0 descriptors_nonempty) as (f & E & _ & Ht).
  unfold pb_field_iter_begin. rewrite E. cbn [mbind option_bind].
  rewrite (proj2 (Z.eqb_neq _ _) Ht). destruct (dest =? NULL); by eexists.
Qed.

(** The next position: round the array. *)
Definition after (k : nat) : nat := if (S k <? n)%nat then S k else 0%nat.

Lemma next_run it k :
  (k < n)%nat -> pos it = (arr, k) -> start it = (arr, 0%nat) -> dest_struct it = dest ->
  exists it', pb_field_iter_next it = Some ((S k <? n)%nat, it') /\
    pos it' = (arr, after k) /\ start it' = (arr, 0%nat) /\ dest_struct it' = dest /\
    ((S k <? n)%nat = false -> pb_field_iter_begin (arr, 0%nat) dest = Some (true, it')).
Proof.
  intros Hk Hp Hs Hd. destruct (deref_fields k Hk) as (f & E & _ & Ht).
  unfold pb_field_iter_next, after. rewrite Hp, E. cbn [mbind option_bind fst snd].
  rewrite (proj2 (Z.eqb_neq _ _) Ht). destruct (Nat.ltb_spec (S k) n) as [Hlt|Hge].
  - destruct (deref_fields (S k) Hlt) as (g & E' & _ & Ht'). rewrite E'. cbn [mbind option_bind].
    rewrite (proj2 (Z.eqb_neq _ _) Ht'). destruct (_ && _ && _); eexists; by split_and!.
  - replace (S k) with n by lia. destruct deref_last as (g & -> & Ht'). cbn [mbind option_bind].
    rewrite (proj2 (Z.eqb_eq _ _) Ht'), Hs, Hd. destruct begin_run as (it' & E' & ? & ? & ?).
    rewrite E'. cbn [mbind option_bind]. eexists. by split_and!.
Qed.

Lemma field_iter_shape k :
  (k < n)%nat -> exists it, field_iter arr dest k = Some it /\
    pos it = (arr, k) /\ start it = (arr, 0%nat) /\ dest_struct it = dest.
Proof.
  induction k as [|k IH]; intros Hk; cbn [field_iter].
  - destruct begin_run as (it & E & H). rewrite E. by exists it.
  - destruct IH as (it & E & Hp & Hs & Hd); [lia|]. rewrite E. cbn [mbind option_bind].
    destruct (next_run it k ltac:(lia) Hp Hs Hd) as (it' & E' & Hp' & Hs' & Hd' & _).
    rewrite E'. exists it'. unfold after in Hp'. by rewrite (proj2 (Nat.ltb_lt _ _) Hk) in Hp'.
Qed.

(** The iterator is a function of the position, round after round. *)
Lemma field_iter_next k it :
  (k < n)%nat -> field_iter arr dest k = Some it ->
  exists it', pb_field_iter_next it = Some ((S k <? n)%nat, it') /\
    field_iter arr dest (after k) = Some it'.
Proof.
  intros Hk E. destruct (field_iter_shape k Hk) as (it0 & E0 & Hp & Hs & Hd).
  rewrite E in E0. injection E0 as <-.
  destruct (next_run it k Hk Hp Hs Hd) as (it' & E' & _ & _ & _ & Hb).
  exists it'. split; [done|]. unfold after. destruct (S k <? n)%nat eqn:El.
  - cbn [field_iter]. rewrite E. cbn [mbind option_bind]. by rewrite E'.
  - cbn [field_iter]. by rewrite (Hb eq_refl).
Qed.

(** The position [i] steps after [k0]. *)
Definition rotate (k0 i : nat) : nat := if (k0 + i <? n)%nat then (k0 + i)%nat else (k0 + i - n)%nat.

Lemma search_loop_run stop k0 i fuel it :
  (k0 < n)%nat -> (i < n)%nat -> (n - i <= fuel)%nat ->
  field_iter arr dest (rotate k0 i) = Some it ->
  (forall j, (j < i)%nat -> stops_at stop fs (rotate k0 j) = false) ->
  exists found k it', search_loop stop fuel (arr, k0) it = Some (Some (found, it')) /\
    field_iter arr dest k = Some it' /\ (k < n)%nat /\
    if found : bool then stops_at stop fs k = true
    else k = k0 /\ forall j, (j < n)%nat -> stops_at stop fs (rotate k0 j) = false.
Proof.
  revert i it. induction fuel as [|fuel IH]; intros i it Hk0 Hi Hf Hit Hno; [lia|].
  assert (Hk : (rotate k0 i < n)%nat) by (unfold rotate; destruct (Nat.ltb_spec (k0 + i) n); lia).
  destruct (field_iter_shape _ Hk) as (it0 & E0 & Hp & _). rewrite Hit in E0. injection E0 as <-.
  destruct (deref_fields _ Hk) as (f & E & Ef & _).
  cbn [search_loop]. rewrite Hp, E. cbn [mbind option_bind].
  assert (Em : stops_at stop fs (rotate k0 i) = stop f) by (unfold stops_at; by rewrite Ef).
  rewrite <- Em. destruct (stops_at stop fs (rotate k0 i)) eqn:Ematch.
  { exists true, (rotate k0 i), it. by split_and!. }
  destruct (field_iter_next _ _ Hk Hit) as (it1 & E1 & Hit1). rewrite E1. cbn [mbind option_bind].
  assert (Ea : after (rotate k0 i) = rotate k0 (S i) \/ S i = n /\ after (rotate k0 i) = k0).
  { unfold after, rotate in *. destruct (Nat.ltb_spec (k0 + i) n), (Nat.ltb_spec (k0 + S i) n);
      repeat match goal with |- context [Nat.ltb ?a ?b] => destruct (Nat.ltb_spec a b) end; lia. }
  assert (Ha : (after (rotate k0 i) < n)%nat)
    by (pose proof descriptors_nonempty; unfold after; destruct (Nat.ltb_spec (S (rotate k0 i)) n); lia).
  destruct (field_iter_shape _ Ha) as (it2 & E2 & Hp2 & _). rewrite Hit1 in E2. injection E2 as <-.
  assert (Hno' : forall j, (j < S i)%nat -> stops_at stop fs (rotate k0 j) = false).
  { intros j Hj. destruct (decide (j = i)) as [->|]; [done|]. apply Hno. lia. }
  rewrite Hp2. destruct (decide _) as [Heq|Hne].
  - injection Heq as Heq. exists false, k0, it1. rewrite Heq in Hit1. split_and!; try done.
    intros j Hj. apply Hno'. unfold after, rotate in *.
    destruct (Nat.ltb_spec (k0 + i) n);
      match type of Heq with context [Nat.ltb ?a ?b] => destruct (Nat.ltb_spec a b) end; lia.
  - destruct Ea as [Ea|[_ Ea]]; [|by rewrite Ea in Hne].
    assert (Hsi : (S i < n)%nat).
    { destruct (decide (S i = n)) as [Hn|]; [|lia]. exfalso. apply Hne. rewrite Ea. f_equal.
      unfold rotate. destruct (Nat.ltb_spec (k0 + S i) n); lia. }
    rewrite Ea in Hit1. apply (IH (S i) it1); [done|done|lia|done|done].
Qed.

Lemma rotate_covers k0 j : (k0 < n)%nat -> (j < n)%nat -> exists i, (i < n)%nat /\ rotate k0 i = j.
Proof.
  intros Hk Hj. exists (if (k0 <=? j)%nat then (j - k0)%nat else (j + n - k0)%nat).
  unfold rotate. destruct (Nat.leb_spec k0 j);
    match goal with |- context [Nat.ltb ?a ?b] => destruct (Nat.ltb_spec a b) end; lia.
Qed.

(** A search from any field, with fuel for all of them. *)
Lemma search_run stop k0 it fuel :
  (k0 < n)%nat -> (n <= fuel)%nat -> field_iter arr dest k0 = Some it ->
  exists found k it', search_loop stop fuel (arr, k0) it = Some (Some (found, it')) /\
    field_iter arr dest k = Some it' /\ (k < n)%nat /\
    if found : bool then stops_at stop fs k = true
    else k = k0 /\ forall j, stops_at stop fs j = false.
Proof.
  intros Hk Hf E.
  assert (Hr : rotate k0 0 = k0).
  { unfold rotate. rewrite Nat.add_0_r. by rewrite (proj2 (Nat.ltb_lt _ _)). }
  pose proof descriptors_nonempty as Hn.
  destruct (search_loop_run stop k0 0 fuel it) as (found & k & it' & Eloop & Hit & Hkn & H);
    [done|done|lia|by rewrite Hr|lia|].
  exists found, k, it'. split_and!; try done. destruct found; [done|].
  destruct H as [-> H]. split; [done|]. intros j. destruct (decide (j < n)%nat) as [Hj|Hj].
  - destruct (rotate_covers k0 j Hk Hj) as (i & Hi & <-). by apply H.
  - unfold stops_at. by rewrite lookup_ge_None_2 by lia.
Qed.

Lemma length_descriptors : length (fields_at arr) = S n.
Proof. destruct Harr as (_ & last & -> & _). rewrite length_app. cbn. lia. Qed.

(** [pb_field_iter_find] from any field. *)
Lemma field_iter_find_run t k0 it w :
  (k0 < n)%nat -> field_iter arr dest k0 = Some it ->
  exists found k it', pb_field_iter_find it t w = Done (found, it') w /\
    field_iter arr dest k = Some it' /\ (k < n)%nat /\
    if found : bool then field_matches fs t k = true
    else k = k0 /\ forall j, field_matches fs t j = false.
Proof.
  intros Hk E. destruct (field_iter_shape k0 Hk) as (it0 & E0 & Hp & _).
  rewrite E in E0. injection E0 as <-.
  unfold pb_field_iter_find, array_fuel. rewrite Hp, find_loop_search. cbn [fst].
  destruct (search_run (has_tag t) k0 it (S (length (fields_at arr))) Hk) as
    (found & k & it' & -> & H); [rewrite length_descriptors; lia|done|].
  by exists found, k, it'.
Qed.

End Array.
End Iterator.

Section Layout.
Context {PD : PbDescriptors}.

(** ** Offsets *)

(** The bytes a static field takes. *)
Definition field_extent (f : pb_field_t) : Z :=
  if PB_HTYPE (type f) =? PB_HTYPE_REPEATED then data_size f * array_size f else data_size f.

Definition step_size (f : pb_field_t) : Z :=
  if (PB_ATYPE (type f) =? PB_ATYPE_STATIC) && (PB_HTYPE (type f) =? PB_HTYPE_REPEATED) then
    u64 (data_size f * array_size f)
  else if PB_ATYPE (type f) =? PB_ATYPE_POINTER then 8
  else data_size f.

(** The offsets of the data and of the size of field [k]. *)
Fixpoint field_offsets (fs : list pb_field_t) (k : nat) : option (Z * Z) :=
  match k with
  | O => f ← fs !! 0%nat; Some (data_offset f, data_offset f + size_offset f)
  | S k' =>
      prev ← fs !! k';
      cur ← fs !! k;
      '(d, s) ← field_offsets fs k';
      if (PB_HTYPE (type prev) =? PB_HTYPE_ONEOF) && (PB_HTYPE (type cur) =? PB_HTYPE_ONEOF) &&
         (data_offset cur =? PB_SIZE_MAX)
      then Some (d, s)
      else
        let d := d + step_size prev + data_offset cur in
        Some (d, d + size_offset cur)
  end.

Lemma iter_next_same it k f g b it' :
  pos it = k -> deref_field k = Some f -> deref_field (k.1, S k.2) = Some g ->
  tag f <> 0 -> tag g <> 0 -> pb_field_iter_next it = Some (b, it') ->
  (pData it', pSize it') =
  (if (PB_HTYPE (type f) =? PB_HTYPE_ONEOF) && (PB_HTYPE (type g) =? PB_HTYPE_ONEOF) &&
      (data_offset g =? PB_SIZE_MAX)
   then (pData it, pSize it)
   else (pData it + step_size f + data_offset g,
         pData it + step_size f + data_offset g + size_offset g)).
Proof.
  intros Hp Hf Hg Htf Htg. unfold pb_field_iter_next. rewrite Hp, Hf. cbn [mbind option_bind].
  rewrite (proj2 (Z.eqb_neq _ _) Htf), Hg. cbn [mbind option_bind].
  rewrite (proj2 (Z.eqb_neq _ _) Htg). destruct (_ && _ && _); by intros [= <- <-].
Qed.

Lemma field_iter_offsets arr fs dest k it :
  descriptors arr fs -> dest <> NULL -> (k < length fs)%nat -> field_iter arr dest k = Some it ->
  exists d s, field_offsets fs k = Some (d, s) /\ pData it = dest + d /\ pSize it = dest + s.
Proof.
  intros Harr Hdest. revert it. induction k as [|k IH]; intros it Hk E.
  - cbn [field_iter] in E. destruct (deref_fields arr fs Harr 0 Hk) as (f & Ef & Efs & Ht).
    unfold pb_field_iter_begin in E. rewrite Ef in E. cbn [mbind option_bind] in E.
    rewrite (proj2 (Z.eqb_neq _ _) Hdest) in E. injection E as <-.
    cbn [field_offsets pData pSize]. rewrite Efs. cbn [mbind option_bind]. do 2 eexists.
    split_and!; [done|done|lia].
  - destruct (field_iter_shape arr fs dest Harr k ltac:(lia)) as (it0 & E0 & Hp & _).
    destruct (IH it0 ltac:(lia) E0) as (d & s & Eo & Hd & Hs).
    destruct (deref_fields arr fs Harr k ltac:(lia)) as (f & Ef & Efs & Htf).
    destruct (deref_fields arr fs Harr (S k) Hk) as (g & Eg & Egs & Htg).
    destruct (field_iter_next arr fs dest Harr k it0 ltac:(lia) E0) as (it1 & E1 & E1').
    unfold after in E1'. rewrite (proj2 (Nat.ltb_lt _ _) Hk) in E1'.
    rewrite E in E1'. injection E1' as <-.
    pose proof (iter_next_same _ _ _ _ _ _ Hp Ef Eg Htf Htg E1) as Hn.
    change (field_offsets fs (S k)) with
      (prev ← fs !! k; cur ← fs !! S k; '(d, s) ← field_offsets fs k;
       if (PB_HTYPE (type prev) =? PB_HTYPE_ONEOF) && (PB_HTYPE (type cur) =? PB_HTYPE_ONEOF) &&
          (data_offset cur =? PB_SIZE_MAX)
       then Some (d, s)
       else let d := d + step_size prev + data_offset cur in Some (d, d + size_offset cur)).
    rewrite Efs, Egs, Eo. cbn [mbind option_bind].
    destruct (_ && _ && _); injection Hn as -> ->; do 2 eexists; (split; [done|]); lia.
Qed.

(** ** Messages of static fields *)

(** The space a decoder of the type needs in [data_size] bytes. *)
Definition type_fits (sub : Z -> nat -> bool) (f : pb_field_t) : bool :=
  let lt := PB_LTYPE (type f) in
  if lt =? PB_LTYPE_BOOL then 1 <=? data_size f
  else if lt =? PB_LTYPE_FIXED32 then 4 <=? data_size f
  else if lt =? PB_LTYPE_FIXED64 then 8 <=? data_size f
  else if lt =? PB_LTYPE_SUBMESSAGE then
    match ptr f with PtrSubmsg id => sub (data_size f) id | _ => false end
  else negb (lt =? PB_LTYPE_EXTENSION) && (lt <=? PB_LTYPE_FIXED_LENGTH_BYTES).

(** The default value of a field that is not a submessage. *)
Definition default_fits (f : pb_field_t) : bool :=
  if PB_LTYPE (type f) =? PB_LTYPE_SUBMESSAGE then true
  else
    match ptr f with
    | PtrNull => true
    | PtrDefault v => (data_size f <=? Z.of_nat (length v)) && forallb (fun b => (0 <=? b) && (b <? 256)) v
    | PtrSubmsg _ => false
    end.

(** The [has_], count or [which_] member of a field. *)
Definition size_fits (size : Z) (f : pb_field_t) (d s : Z) : bool :=
  let ht := PB_HTYPE (type f) in
  if ht =? PB_HTYPE_REQUIRED then true
  else if ht =? PB_HTYPE_OPTIONAL then (s =? d) || ((0 <=? s) && (s + 1 <=? size))
  else (0 <=? s) && (s + 4 <=? size).

Definition field_fits (sub : Z -> nat -> bool) (size : Z) (fs : list pb_field_t) (k : nat) : bool :=
  match fs !! k, field_offsets fs k with
  | Some f, Some (d, s) =>
      (PB_ATYPE (type f) =? PB_ATYPE_STATIC) && type_fits sub f && default_fits f &&
      (0 <=? data_size f) && (data_size f <? 2 ^ 32) && (0 <=? array_size f) &&
      (data_size f * array_size f <? 2 ^ 32) &&
      (0 <=? d) && (d + field_extent f <=? size) && size_fits size f d s
  | _, _ => false
  end.

Definition message_fields (id : nat) : list pb_field_t := removelast (fields_at id).

Definition descriptors_ok (id : nat) : bool :=
  bool_decide (message_fields id <> []) &&
  forallb (fun f => negb (tag f =? 0)) (message_fields id) &&
  match last (fields_at id) with Some f => tag f =? 0 | None => false end.

(** The struct of the message [id] and of the messages in it, [depth] levels
    down, have room for every static field in [size] bytes. *)
Fixpoint static_message (depth : nat) (size : Z) (id : nat) : bool :=
  match depth with
  | O => false
  | S depth =>
      descriptors_ok id &&
      forallb (field_fits (static_message depth) size (message_fields id))
        (seq 0 (length (message_fields id)))
  end.

Lemma removelast_last {A} (l : list A) x : last l = Some x -> l = removelast l ++ [x].
Proof.
  induction l as [|y l IH]; [done|]. destruct l as [|z l]; [by intros [= ->]|].
  intros H. cbn [removelast]. cbn. f_equal. by apply IH.
Qed.

Lemma descriptors_ok_spec id : descriptors_ok id = true -> descriptors id (message_fields id).
Proof.
  unfold descriptors_ok. intros [[H1%bool_decide_eq_true H2]%andb_true_iff H3]%andb_true_iff.
  split; [done|]. destruct (last (fields_at id)) as [f|] eqn:El; [|done].
  exists f. split; [by apply removelast_last|]. split; [|by apply Z.eqb_eq].
  apply Forall_forall. intros g Hg. apply list_elem_of_In in Hg.
  rewrite forallb_forall in H2. apply H2, negb_true_iff in Hg. by apply Z.eqb_neq.
Qed.

Lemma type_fits_mono (sub sub' : Z -> nat -> bool) f :
  (forall size id, sub size id = true -> sub' size id = true) ->
  type_fits sub f = true -> type_fits sub' f = true.
Proof.
  intros H. unfold type_fits. repeat match goal with |- context [if ?b then _ else _] => destruct b end; auto.
  destruct (ptr f); auto.
Qed.

Lemma static_message_mono depth size id :
  static_message depth size id = true -> static_message (S depth) size id = true.
Proof.
  revert size id. induction depth as [|depth IH]; intros size id; [done|].
  intros [H1 H2]%andb_true_iff. change (static_message (S (S depth)) size id) with
    (descriptors_ok id && forallb (field_fits (static_message (S depth)) size (message_fields id))
       (seq 0 (length (message_fields id)))).
  rewrite H1. cbn [andb]. rewrite forallb_forall in *. intros k Hk. specialize (H2 k Hk).
  unfold field_fits in *. destruct (_ !! k) as [f|]; [|done].
  destruct (field_offsets _ k) as [[d s]|]; [|done].
  repeat match goal with H : (_ && _) = true |- _ => apply andb_true_iff in H as [? ?] end.
  repeat (apply andb_true_iff; split); try done. eapply type_fits_mono; [|done]. exact IH.
Qed.

End Layout.
