(* ===== verification/PbWire.v ===== *)
(** The protocol buffers wire format as pure functions, the reference the
    encoder and the decoder are compared with: base-128 varints, zigzag,
    tags, length-delimited strings. *)
From S2P Require Import Prelude.

(** ** Varints *)

Fixpoint varint_fuel (n : nat) (v : Z) : list Z :=
  match n with
  | O => []
  | S n' => if v <? 128 then [v] else (v mod 128 + 128) :: varint_fuel n' (v / 128)
  end.

(** The minimal base-128 encoding of a 64-bit value, least significant group
    first; ten groups hold 64 bits. *)
Definition varint_bytes (v : Z) : list Z := varint_fuel 10 v.

(** The value a terminated varint denotes. *)
Fixpoint varint_val (bs : list Z) : Z :=
  match bs with
  | [] => 0
  | b :: bs' => b mod 128 + 128 * varint_val bs'
  end.

(** All bytes but the last have the continuation bit. *)
Inductive varint_shape : list Z -> Prop :=
  | vs_last b : 0 <= b < 128 -> varint_shape [b]
  | vs_more b bs : 128 <= b < 256 -> varint_shape bs -> varint_shape (b :: bs).

Definition zigzag (v : Z) : Z := if v <? 0 then - 2 * v - 1 else 2 * v.

Definition tag_key (wt t : Z) : Z := t * 8 + wt.

Definition delimited (bs : list Z) : list Z := varint_bytes (Z.of_nat (length bs)) ++ bs.

Lemma varint_fuel_val n v :
  0 <= v < 128 ^ Z.of_nat n -> varint_val (varint_fuel n v) = v.
Proof.
  revert v. induction n as [|n IH]; intros v Hv; cbn [varint_fuel].
  { simpl in *. change (128 ^ 0) with 1 in Hv. lia. }
  destruct (Z.ltb_spec v 128); cbn [varint_val].
  - rewrite Z.mod_small by lia. lia.
  - rewrite IH.
    + rewrite <- Z.add_mod_idemp_r, Z_mod_same_full, Z.add_0_r, Zmod_mod by lia.
      pose proof (Z_div_mod_eq_full v 128). lia.
    + rewrite Nat2Z.inj_succ, Z.pow_succ_r in Hv by lia.
      split; [apply Z.div_pos; lia|apply Z.div_lt_upper_bound; lia].
Qed.

Lemma varint_fuel_shape n v :
  0 <= v < 128 ^ Z.of_nat n -> (0 < n)%nat -> varint_shape (varint_fuel n v).
Proof.
  revert v. induction n as [|n IH]; intros v Hv Hn; [lia|]. cbn [varint_fuel].
  destruct (Z.ltb_spec v 128); [constructor; lia|].
  pose proof (Z.mod_pos_bound v 128). constructor; [lia|].
  rewrite Nat2Z.inj_succ, Z.pow_succ_r in Hv by lia.
  apply IH; [split; [apply Z.div_pos; lia|apply Z.div_lt_upper_bound; lia]|].
  destruct n; [|lia]. change (128 ^ Z.of_nat 0) with 1 in Hv. lia.
Qed.

Lemma varint_fuel_length n v : (length (varint_fuel n v) <= n)%nat.
Proof.
  revert v. induction n as [|n IH]; intros v; cbn [varint_fuel]; [done|].
  destruct (v <? 128); cbn [length]; [lia|]. specialize (IH (v / 128)). lia.
Qed.

Lemma varint_shape_byte bs : varint_shape bs -> Forall is_byte bs.
Proof. induction 1; repeat constructor; unfold is_byte; auto; lia. Qed.

Lemma varint_bytes_val v : 0 <= v < 2 ^ 64 -> varint_val (varint_bytes v) = v.
Proof. intros. apply varint_fuel_val. change (128 ^ Z.of_nat 10) with (2 ^ 70). lia. Qed.

Lemma varint_bytes_shape v : 0 <= v < 2 ^ 64 -> varint_shape (varint_bytes v).
Proof.
  intros. apply varint_fuel_shape; [|lia]. change (128 ^ Z.of_nat 10) with (2 ^ 70). lia.
Qed.

Lemma varint_bytes_byte v : 0 <= v < 2 ^ 64 -> Forall is_byte (varint_bytes v).
Proof. intros. by apply varint_shape_byte, varint_bytes_shape. Qed.

Lemma varint_bytes_length v : (1 <= length (varint_bytes v) <= 10)%nat.
Proof.
  split; [|apply varint_fuel_length].
  unfold varint_bytes. cbn [varint_fuel]. destruct (v <? 128); cbn; lia.
Qed.

Lemma zigzag_bounds v : - 2 ^ 63 <= v < 2 ^ 63 -> 0 <= zigzag v < 2 ^ 64.
Proof. unfold zigzag. destruct (Z.ltb_spec v 0); lia. Qed.

Lemma tag_key_bounds wt t :
  0 <= t < 2 ^ 32 -> 0 <= wt < 8 -> 0 <= tag_key wt t < 2 ^ 64.
Proof. unfold tag_key. lia. Qed.

(** More fuel than groups changes nothing. *)
Lemma varint_fuel_enough n m v :
  0 <= v < 128 ^ Z.of_nat n -> (0 < n)%nat -> varint_fuel (n + m) v = varint_fuel n v.
Proof.
  revert v. induction n as [|n IH]; intros v Hv Hn; [lia|]. cbn [Nat.add varint_fuel].
  destruct (Z.ltb_spec v 128); [done|]. f_equal.
  rewrite Nat2Z.inj_succ, Z.pow_succ_r in Hv by lia.
  apply IH; [split; [apply Z.div_pos; lia|apply Z.div_lt_upper_bound; lia]|].
  destruct n; [|lia]. change (128 ^ Z.of_nat 0) with 1 in Hv. lia.
Qed.

(** A group that is not the last. *)
Lemma varint_fuel_more n v :
  128 <= v -> varint_fuel (S n) v = (v mod 128 + 128) :: varint_fuel n (v / 128).
Proof. intros. cbn [varint_fuel]. by rewrite (proj2 (Z.ltb_ge _ _)). Qed.

(** A group of a negative value that is represented modulo [2 ^ m]. *)
Lemma varint_fuel_negative n m v :
  8 <= m -> - 2 ^ (m - 1) <= v < 0 ->
  varint_fuel (S n) (2 ^ m + v) = (v mod 128 + 128) :: varint_fuel n (2 ^ (m - 7) + v / 128).
Proof.
  intros Hm Hv. assert (2 ^ m = 2 ^ (m - 7) * 128)
    by (change 128 with (2 ^ 7); rewrite <- Z.pow_add_r by lia; f_equal; lia).
  assert (2 ^ m = 2 * 2 ^ (m - 1)) by (rewrite <- Z.pow_succ_r by lia; f_equal; lia).
  assert (2 ^ 7 <= 2 ^ (m - 1)) by (apply Z.pow_le_mono_r; lia).
  rewrite varint_fuel_more by lia. rewrite H, Z.div_add_l by lia.
  by rewrite (Z.add_comm (_ * 128) v), Z_mod_plus_full.
Qed.

(** The ten bytes of a negative 32-bit value, sign-extended to 64 bits. *)
Lemma varint_bytes_negative v :
  - 2 ^ 31 <= v < 0 ->
  varint_bytes (2 ^ 64 + v) =
  [v mod 128 + 128; v / 128 mod 128 + 128; v / 128 / 128 mod 128 + 128;
   v / 128 / 128 / 128 mod 128 + 128; v / 128 / 128 / 128 / 128 mod 128 + 128;
   255; 255; 255; 255; 1].
Proof.
  intros Hv.
  assert (Hd : forall x n, 0 <= n -> - 2 ^ (n + 7) <= x < 0 -> - 2 ^ n <= x / 128 < 0).
  { intros x n Hn Hx. rewrite Z.pow_add_r in Hx by lia.
    split; [apply Z.div_le_lower_bound|apply Z.div_lt_upper_bound]; lia. }
  pose proof (Hd v 24 ltac:(lia) Hv) as H1.
  pose proof (Hd _ 17 ltac:(lia) H1) as H2.
  pose proof (Hd _ 10 ltac:(lia) H2) as H3.
  pose proof (Hd _ 3 ltac:(lia) H3) as H4.
  assert (H5 : v / 128 / 128 / 128 / 128 / 128 = -1)
    by (symmetry; apply Z.div_unique with (v / 128 / 128 / 128 / 128 + 128); lia).
  unfold varint_bytes. do 5 (rewrite varint_fuel_negative by lia). rewrite H5. done.
Qed.
