(* ===== verification/PbEncode.v ===== *)
(** nanopb's encoder (pb_encode.c), function by function.

    An output stream is passed to and returned from every function that has a
    pointer to it.  Code of the application that the encoder calls through
    function pointers (stream callbacks, field callbacks, extension encoders)
    is the parameter [EncCallbacks]. *)
From S2P Require Import Prelude Memory PbTypes.

(** ** Output streams *)

(** The [callback] of a stream: null for a sizing stream, [buf_write] for a
    memory buffer, or a function of the application. *)
Inductive ostream_callback :=
  | OcbNull
  | OcbBufWrite
  | OcbUser (fn : Z).

#[global] Instance ostream_callback_eq_dec : EqDecision ostream_callback.
Proof. solve_decision. Defined.

Record pb_ostream_t := PbOstream {
  o_callback : ostream_callback;
  o_state : Z;
  o_max_size : Z;
  o_bytes_written : Z;
  o_errmsg : option string
}.

(** The [const pb_byte_t *buf] of a write: a local array, or memory. *)
Inductive wsrc :=
  | WLocal (bs : list Z)
  | WMem (p : Z).

Definition ores : Type := M (bool * pb_ostream_t).

Class EncCallbacks := {
  user_write : Z -> pb_ostream_t -> wsrc -> Z -> ores;
  user_encode : Z -> pb_ostream_t -> pb_field_t -> Z -> ores;
  user_ext_encode : Z -> pb_ostream_t -> Z -> ores
}.

Definition os_set_error (s : pb_ostream_t) (msg : string) : pb_ostream_t :=
  PbOstream (o_callback s) (o_state s) (o_max_size s) (o_bytes_written s)
    (PB_SET_ERROR (o_errmsg s) msg).

(** [PB_RETURN_ERROR(stream, msg)] *)
Definition os_return_error (s : pb_ostream_t) (msg : string) : ores :=
  mret (false, os_set_error s msg).

Definition os_with_written (s : pb_ostream_t) (n : Z) : pb_ostream_t :=
  PbOstream (o_callback s) (o_state s) (o_max_size s) n (o_errmsg s).

Definition os_with_state (s : pb_ostream_t) (p : Z) : pb_ostream_t :=
  PbOstream (o_callback s) p (o_max_size s) (o_bytes_written s) (o_errmsg s).

Definition PB_OSTREAM_SIZING : pb_ostream_t := PbOstream OcbNull 0 0 0 None.

Definition pb_ostream_from_buffer (buf bufsize : Z) : pb_ostream_t :=
  PbOstream OcbBufWrite buf bufsize 0 None.

(** [buf[i]] *)
Definition src_byte (buf : wsrc) (i : nat) : M Z :=
  match buf with
  | WLocal bs => of_option (bs !! i)
  | WMem p => load 1 (p + Z.of_nat i)
  end.

(** [for (i = 0; i < count; i++) dest[i] = buf[i];] with [n] rounds to go. *)
Fixpoint buf_write_loop (dest : Z) (buf : wsrc) (i n : nat) : M unit :=
  match n with
  | O => mret tt
  | S n' =>
      b ← src_byte buf i;
      store 1 (dest + Z.of_nat i) b ;;
      buf_write_loop dest buf (S i) n'
  end.

Definition buf_write (stream : pb_ostream_t) (buf : wsrc) (count : Z) : ores :=
  let dest := o_state stream in
  buf_write_loop dest buf 0 (Z.to_nat count) ;;
  mret (true, os_with_state stream (dest + count)).

Section Encoder.
Context {PD : PbDescriptors} {EC : EncCallbacks}.

Definition call_callback (stream : pb_ostream_t) (buf : wsrc) (count : Z) : ores :=
  match o_callback stream with
  | OcbNull => fault
  | OcbBufWrite => buf_write stream buf count
  | OcbUser fn => user_write fn stream buf count
  end.

Definition pb_write (stream : pb_ostream_t) (buf : wsrc) (count : Z) : ores :=
  s <-? (if (0 <? count) && bool_decide (o_callback stream ≠ OcbNull) then
           if (u64 (o_bytes_written stream + count) <? o_bytes_written stream) ||
              (o_max_size stream <? u64 (o_bytes_written stream + count)) then
             os_return_error stream "stream full"
           else
             '(ok, s) ← call_callback stream buf count;
             if ok : bool then mret (true, s) else os_return_error s "io error"
         else mret (true, stream));
  mret (true, os_with_written s (u64 (o_bytes_written s + count))).

(** ** Helper functions *)

(** The loop [while (value) { buffer[i] = ...; value >>= 7; i++; }]: the bytes
    it stores, each with its top bit set; 10 rounds empty 64 bits. *)
Fixpoint encode_varint_loop (fuel : nat) (value : Z) : option (list Z) :=
  if value =? 0 then Some [] else
  match fuel with
  | O => None
  | S fuel' =>
      bs ← encode_varint_loop fuel' (Z.shiftr value 7);
      Some (u8 (Z.lor (Z.land value 127) 128) :: bs)
  end.

(** [buffer[i-1] &= 0x7F;] *)
Definition clear_last_top_bit (buffer : list Z) : list Z :=
  alter (fun b => Z.land b 127) (length buffer - 1)%nat buffer.

Definition pb_encode_varint (stream : pb_ostream_t) (value : Z) : ores :=
  if value <=? 127 then pb_write stream (WLocal [u8 value]) 1
  else
    buffer ← of_option (encode_varint_loop 10 value);
    pb_write stream (WLocal (clear_last_top_bit buffer)) (Z.of_nat (length buffer)).

Definition pb_encode_svarint (stream : pb_ostream_t) (value : Z) : ores :=
  let zigzagged :=
    if value <? 0 then u64 (Z.lnot (u64 (Z.shiftl (u64 value) 1)))
    else u64 (Z.shiftl (u64 value) 1) in
  pb_encode_varint stream zigzagged.

Definition pb_encode_fixed32 (stream : pb_ostream_t) (value : Z) : ores :=
  val ← load 4 value;
  pb_write stream
    (WLocal [u8 (Z.land val 255);
             u8 (Z.land (Z.shiftr val 8) 255);
             u8 (Z.land (Z.shiftr val 16) 255);
             u8 (Z.land (Z.shiftr val 24) 255)]) 4.

Definition pb_encode_fixed64 (stream : pb_ostream_t) (value : Z) : ores :=
  val ← load 8 value;
  pb_write stream
    (WLocal [u8 (Z.land val 255);
             u8 (Z.land (Z.shiftr val 8) 255);
             u8 (Z.land (Z.shiftr val 16) 255);
             u8 (Z.land (Z.shiftr val 24) 255);
             u8 (Z.land (Z.shiftr val 32) 255);
             u8 (Z.land (Z.shiftr val 40) 255);
             u8 (Z.land (Z.shiftr val 48) 255);
             u8 (Z.land (Z.shiftr val 56) 255)]) 8.

Definition pb_encode_tag (stream : pb_ostream_t) (wiretype field_number : Z) : ores :=
  pb_encode_varint stream (Z.lor (u64 (Z.shiftl field_number 3)) wiretype).

Definition pb_encode_tag_for_field (stream : pb_ostream_t) (field : pb_field_t) : ores :=
  let lt := PB_LTYPE (type field) in
  if (lt =? PB_LTYPE_BOOL) || (lt =? PB_LTYPE_VARINT) ||
     (lt =? PB_LTYPE_UVARINT) || (lt =? PB_LTYPE_SVARINT) then
    pb_encode_tag stream PB_WT_VARINT (tag field)
  else if lt =? PB_LTYPE_FIXED32 then pb_encode_tag stream PB_WT_32BIT (tag field)
  else if lt =? PB_LTYPE_FIXED64 then pb_encode_tag stream PB_WT_64BIT (tag field)
  else if (lt =? PB_LTYPE_BYTES) || (lt =? PB_LTYPE_STRING) ||
          (lt =? PB_LTYPE_SUBMESSAGE) || (lt =? PB_LTYPE_FIXED_LENGTH_BYTES) then
    pb_encode_tag stream PB_WT_STRING (tag field)
  else os_return_error stream "invalid field type".

Definition pb_encode_string (stream : pb_ostream_t) (buffer : wsrc) (size : Z) : ores :=
  s <-? pb_encode_varint stream size;
  pb_write s buffer size.

(** ** Field values *)

(** [sizeof(bool)] is 1. *)
Definition safe_read_bool (pSize : Z) : M bool :=
  b ← load 1 pSize;
  mret (negb (b =? 0)).

Definition pb_encoder_t : Type := pb_ostream_t -> pb_field_t -> Z -> ores.

Definition pb_enc_bool (stream : pb_ostream_t) (field : pb_field_t) (src : Z) : ores :=
  b ← safe_read_bool src;
  pb_encode_varint stream (if b : bool then 1 else 0).

(** [*(const intN_t* )src] for the [data_size] of the field, sign extended. *)
Definition read_signed_field (field : pb_field_t) (src : Z) : M (option Z) :=
  if data_size field =? 1 then v ← load 1 src; mret (Some (s8 v))
  else if data_size field =? 2 then v ← load 2 src; mret (Some (s16 v))
  else if data_size field =? 4 then v ← load 4 src; mret (Some (s32 v))
  else if data_size field =? 8 then v ← load 8 src; mret (Some (s64 v))
  else mret None.

Definition read_unsigned_field (field : pb_field_t) (src : Z) : M (option Z) :=
  if data_size field =? 1 then v ← load 1 src; mret (Some v)
  else if data_size field =? 2 then v ← load 2 src; mret (Some v)
  else if data_size field =? 4 then v ← load 4 src; mret (Some v)
  else if data_size field =? 8 then v ← load 8 src; mret (Some v)
  else mret None.

Definition pb_enc_varint (stream : pb_ostream_t) (field : pb_field_t) (src : Z) : ores :=
  v ← read_signed_field field src;
  match v with
  | Some value => pb_encode_varint stream (u64 value)
  | None => os_return_error stream "invalid data_size"
  end.

Definition pb_enc_uvarint (stream : pb_ostream_t) (field : pb_field_t) (src : Z) : ores :=
  v ← read_unsigned_field field src;
  match v with
  | Some value => pb_encode_varint stream value
  | None => os_return_error stream "invalid data_size"
  end.

Definition pb_enc_svarint (stream : pb_ostream_t) (field : pb_field_t) (src : Z) : ores :=
  v ← read_signed_field field src;
  match v with
  | Some value => pb_encode_svarint stream value
  | None => os_return_error stream "invalid data_size"
  end.

Definition pb_enc_fixed64 (stream : pb_ostream_t) (field : pb_field_t) (src : Z) : ores :=
  pb_encode_fixed64 stream src.

Definition pb_enc_fixed32 (stream : pb_ostream_t) (field : pb_field_t) (src : Z) : ores :=
  pb_encode_fixed32 stream src.

Definition pb_enc_bytes (stream : pb_ostream_t) (field : pb_field_t) (src : Z) : ores :=
  if src =? NULL then pb_encode_string stream (WMem NULL) 0
  else
    size ← load 4 src;
    if (PB_ATYPE (type field) =? PB_ATYPE_STATIC) &&
       (u64 (data_size field - pb_bytes_off) <? size) then
      os_return_error stream "bytes size exceeded"
    else pb_encode_string stream (WMem (src + pb_bytes_off)) size.

(** [while (size < max_size && *p != 0) { size++; p++; }]; every round reads
    another allocated byte, so their number bounds the rounds. *)
Fixpoint strnlen_loop (fuel : nat) (p size max_size : Z) : M Z :=
  match fuel with
  | O => timeout
  | S fuel' =>
      if size <? max_size then
        c ← load 1 p;
        if c =? 0 then mret size else strnlen_loop fuel' (p + 1) (size + 1) max_size
      else mret size
  end.

Definition pb_enc_string (stream : pb_ostream_t) (field : pb_field_t) (src : Z) : ores :=
  let max_size :=
    if PB_ATYPE (type field) =? PB_ATYPE_POINTER then SIZE_MAX else data_size field in
  size ← (if src =? NULL then mret 0
          else fun w => strnlen_loop (S (size (mem w))) src 0 max_size w);
  pb_encode_string stream (WMem src) size.

Definition pb_enc_fixed_length_bytes (stream : pb_ostream_t) (field : pb_field_t)
    (src : Z) : ores :=
  pb_encode_string stream (WMem src) (data_size field).

(** ** proto3 default values *)

(** All bytes zero: the loop over [data_size] bytes. *)
Fixpoint all_zero_loop (n : nat) (p : Z) : M bool :=
  match n with
  | O => mret true
  | S n' =>
      b ← load 1 p;
      if negb (b =? 0) then mret false else all_zero_loop n' (p + 1)
  end.

(** The [do ... while (pb_field_iter_next(&iter))] of the submessage case. *)
Fixpoint check_fields_loop (check : pb_field_t -> Z -> M bool) (fuel : nat)
    (iter : pb_field_iter_t) : M bool :=
  match fuel with
  | O => timeout
  | S fuel' =>
      field ← of_option (deref_field (pos iter));
      is_default ← check field (pData iter);
      if negb is_default then mret false
      else
        '(more, iter') ← of_option (pb_field_iter_next iter);
        if more : bool then check_fields_loop check fuel' iter' else mret true
  end.

Fixpoint pb_check_proto3_default_value (depth : nat) (field : pb_field_t)
    (pData : Z) : M bool :=
  match depth with
  | O => timeout
  | S depth' =>
      let ty := type field in
      let pSize := pData + size_offset field in
      let pointer_or_bytes :=
        if (PB_ATYPE ty =? PB_ATYPE_POINTER) && (PB_LTYPE_LAST_PACKABLE <? PB_LTYPE ty) then
          p ← load_ptr pData;
          mret (p =? NULL)
        else all_zero_loop (Z.to_nat (data_size field)) pData in
      let singular :=
        if PB_ATYPE ty =? PB_ATYPE_STATIC then
          if PB_LTYPE ty =? PB_LTYPE_BYTES then
            size ← load 4 pData;
            mret (size =? 0)
          else if PB_LTYPE ty =? PB_LTYPE_STRING then
            c ← load 1 pData;
            mret (c =? 0)
          else if PB_LTYPE ty =? PB_LTYPE_FIXED_LENGTH_BYTES then
            mret (data_size field =? 0)
          else if PB_LTYPE ty =? PB_LTYPE_SUBMESSAGE then
            match ptr field with
            | PtrSubmsg fields =>
                '(nonempty, iter) ← of_option (pb_field_iter_begin (fields, 0%nat) pData);
                if nonempty : bool then
                  check_fields_loop (pb_check_proto3_default_value depth')
                    (array_fuel (fields, 0%nat)) iter
                else mret true
            | _ => fault
            end
          else pointer_or_bytes
        else pointer_or_bytes in
      if PB_HTYPE ty =? PB_HTYPE_REQUIRED then mret false
      else if PB_HTYPE ty =? PB_HTYPE_REPEATED then
        if negb (size_offset field =? 0) then
          count ← load 4 pSize;
          mret (count =? 0)
        else if PB_ATYPE ty =? PB_ATYPE_STATIC then mret false
        else singular
      else if PB_HTYPE ty =? PB_HTYPE_ONEOF then
        which ← load 4 pSize;
        mret (which =? 0)
      else if (PB_HTYPE ty =? PB_HTYPE_OPTIONAL) && negb (size_offset field =? 0) then
        has ← safe_read_bool pSize;
        mret (negb has)
      else singular
  end.

(** ** Submessages

    [rec] is [pb_encode] for the messages one level down. *)
Section Recursion.
Variable rec : pb_ostream_t -> field_ref -> Z -> ores.

Definition pb_encode_submessage (stream : pb_ostream_t) (fields : field_ref)
    (src_struct : Z) : ores :=
  '(ok, substream) ← rec PB_OSTREAM_SIZING fields src_struct;
  if negb ok then
    mret (false, PbOstream (o_callback stream) (o_state stream) (o_max_size stream)
                   (o_bytes_written stream) (o_errmsg substream))
  else
    let size := o_bytes_written substream in
    stream <-? pb_encode_varint stream size;
    if bool_decide (o_callback stream = OcbNull) then pb_write stream (WMem NULL) size
    else if o_max_size stream <? u64 (o_bytes_written stream + size) then
      os_return_error stream "stream full"
    else
      '(status, substream) ←
        rec (PbOstream (o_callback stream) (o_state stream) size 0 None) fields src_struct;
      let stream :=
        PbOstream (o_callback stream) (o_state substream) (o_max_size stream)
          (u64 (o_bytes_written stream + o_bytes_written substream))
          (o_errmsg substream) in
      if negb (o_bytes_written substream =? size) then
        os_return_error stream "submsg size changed"
      else mret (status, stream).

Definition pb_enc_submessage (stream : pb_ostream_t) (field : pb_field_t)
    (src : Z) : ores :=
  match ptr field with
  | PtrNull => os_return_error stream "invalid field descriptor"
  | PtrSubmsg fields => pb_encode_submessage stream (fields, 0%nat) src
  | PtrDefault _ => fault
  end.

(** The table indexed by LTYPE; [None] is the null entry of extensions. *)
Definition PB_ENCODERS : list (option pb_encoder_t) :=
  [Some pb_enc_bool; Some pb_enc_varint; Some pb_enc_uvarint; Some pb_enc_svarint;
   Some pb_enc_fixed32; Some pb_enc_fixed64;
   Some pb_enc_bytes; Some pb_enc_string; Some pb_enc_submessage;
   None;
   Some pb_enc_fixed_length_bytes].

(** A call through a function pointer read from the table. *)
Definition call_encoder (func : option pb_encoder_t) : pb_encoder_t :=
  fun stream field src =>
    match func with Some f => f stream field src | None => fault end.

(** ** Arrays *)

(** [for (i = 0; i < count; i++) { if (!func(stream, field, p)) return false;
    p += data_size; }] *)
Fixpoint encode_items_loop (func : option pb_encoder_t) (field : pb_field_t)
    (n : nat) (stream : pb_ostream_t) (p : Z) : ores :=
  match n with
  | O => mret (true, stream)
  | S n' =>
      s <-? call_encoder func stream field p;
      encode_items_loop func field n' s (p + data_size field)
  end.

(** The unpacked loop: a tag before every item, string and bytes items of
    pointer fields being pointers themselves. *)
Fixpoint encode_unpacked_loop (func : option pb_encoder_t) (field : pb_field_t)
    (n : nat) (stream : pb_ostream_t) (p : Z) : ores :=
  match n with
  | O => mret (true, stream)
  | S n' =>
      s <-? pb_encode_tag_for_field stream field;
      s' <-? (if (PB_ATYPE (type field) =? PB_ATYPE_POINTER) &&
                 ((PB_LTYPE (type field) =? PB_LTYPE_STRING) ||
                  (PB_LTYPE (type field) =? PB_LTYPE_BYTES)) then
                q ← load_ptr p;
                call_encoder func s field q
              else call_encoder func s field p);
      encode_unpacked_loop func field n' s' (p + data_size field)
  end.

Definition encode_array (stream : pb_ostream_t) (field : pb_field_t) (pData count : Z)
    (func : option pb_encoder_t) : ores :=
  if count =? 0 then mret (true, stream)
  else if negb (PB_ATYPE (type field) =? PB_ATYPE_POINTER) && (array_size field <? count) then
    os_return_error stream "array max size exceeded"
  else if PB_LTYPE (type field) <=? PB_LTYPE_LAST_PACKABLE then
    stream <-? pb_encode_tag stream PB_WT_STRING (tag field);
    '(ok, size) ←
      (if PB_LTYPE (type field) =? PB_LTYPE_FIXED32 then mret (true, u64 (4 * count))
       else if PB_LTYPE (type field) =? PB_LTYPE_FIXED64 then mret (true, u64 (8 * count))
       else
         '(ok, sizestream) ←
           encode_items_loop func field (Z.to_nat count) PB_OSTREAM_SIZING pData;
         mret (ok : bool, o_bytes_written sizestream));
    if negb ok then mret (false, stream)
    else
      stream <-? pb_encode_varint stream size;
      if bool_decide (o_callback stream = OcbNull) then pb_write stream (WMem NULL) size
      else encode_items_loop func field (Z.to_nat count) stream pData
  else encode_unpacked_loop func field (Z.to_nat count) stream pData.

(** ** A single field *)

(** [pSize] points into the message or at the local [implicit_has]. *)
Inductive psize :=
  | PSizeMem (p : Z)
  | PSizeLocal (implicit_has : bool).

Definition psize_read_bool (p : psize) : M bool :=
  match p with PSizeMem p => safe_read_bool p | PSizeLocal b => mret b end.

(** [*(const pb_size_t* )pSize]: out of bounds on the one-byte local. *)
Definition psize_read_count (p : psize) : M Z :=
  match p with PSizeMem p => load 4 p | PSizeLocal _ => fault end.

Definition encode_basic_field (depth : nat) (stream : pb_ostream_t) (field : pb_field_t)
    (pData : Z) : ores :=
  func ← of_option (PB_ENCODERS !! Z.to_nat (PB_LTYPE (type field)));
  pSize ← (if negb (size_offset field =? 0) then
             mret (PSizeMem (pData + size_offset field))
           else if PB_HTYPE (type field) =? PB_HTYPE_OPTIONAL then
             is_default ← pb_check_proto3_default_value depth field pData;
             mret (PSizeLocal (negb is_default))
           else mret (PSizeLocal true));
  '(pData, pSize) ←
    (if PB_ATYPE (type field) =? PB_ATYPE_POINTER then
       p ← load_ptr pData;
       mret (p, match pSize with
                | PSizeLocal _ => PSizeLocal (negb (p =? NULL))
                | PSizeMem a => PSizeMem a
                end)
     else mret (pData, pSize));
  let ht := PB_HTYPE (type field) in
  if ht =? PB_HTYPE_REQUIRED then
    if pData =? NULL then os_return_error stream "missing required field"
    else
      s <-? pb_encode_tag_for_field stream field;
      call_encoder func s field pData
  else if ht =? PB_HTYPE_OPTIONAL then
    has ← psize_read_bool pSize;
    if has : bool then
      s <-? pb_encode_tag_for_field stream field;
      call_encoder func s field pData
    else mret (true, stream)
  else if ht =? PB_HTYPE_REPEATED then
    count ← (if negb (size_offset field =? 0) then psize_read_count pSize
             else mret (array_size field));
    encode_array stream field pData count func
  else if ht =? PB_HTYPE_ONEOF then
    which ← psize_read_count pSize;
    if which =? tag field then
      s <-? pb_encode_tag_for_field stream field;
      call_encoder func s field pData
    else mret (true, stream)
  else os_return_error stream "invalid field type".

(** [pb_callback_t]: the function pointer, then [arg], whose address is passed. *)
Definition encode_callback_field (stream : pb_ostream_t) (field : pb_field_t)
    (pData : Z) : ores :=
  fn ← load_ptr pData;
  if negb (fn =? NULL) then
    '(ok, s) ← user_encode fn stream field (pData + pb_callback_arg_off);
    if ok : bool then mret (true, s) else os_return_error s "callback error"
  else mret (true, stream).

Definition encode_field (depth : nat) (stream : pb_ostream_t) (field : pb_field_t)
    (pData : Z) : ores :=
  let at_ := PB_ATYPE (type field) in
  if (at_ =? PB_ATYPE_STATIC) || (at_ =? PB_ATYPE_POINTER) then
    encode_basic_field depth stream field pData
  else if at_ =? PB_ATYPE_CALLBACK then encode_callback_field stream field pData
  else os_return_error stream "invalid field type".

(** ** Extensions *)

Definition default_extension_encoder (depth : nat) (stream : pb_ostream_t)
    (extension : Z) : ores :=
  ty ← load_ptr (extension + pb_extension_type_off);
  et ← of_option (extension_type_at ty);
  field ← of_option (deref_field (ext_arg et));
  if PB_ATYPE (type field) =? PB_ATYPE_POINTER then
    encode_field depth stream field (extension + pb_extension_dest_off)
  else
    dest ← load_ptr (extension + pb_extension_dest_off);
    encode_field depth stream field dest.

Fixpoint encode_extension_loop (fuel depth : nat) (stream : pb_ostream_t)
    (extension : Z) : ores :=
  if extension =? NULL then mret (true, stream) else
  match fuel with
  | O => timeout
  | S fuel' =>
      ty ← load_ptr (extension + pb_extension_type_off);
      et ← of_option (extension_type_at ty);
      s <-? (if negb (ext_encode et =? NULL) then
               user_ext_encode (ext_encode et) stream extension
             else default_extension_encoder depth stream extension);
      next ← load_ptr (extension + pb_extension_next_off);
      encode_extension_loop fuel' depth s next
  end.

Definition encode_extension_field (depth : nat) (stream : pb_ostream_t)
    (field : pb_field_t) (pData : Z) : ores :=
  extension ← load_ptr pData;
  encode_extension_loop depth depth stream extension.

(** ** All fields *)

Fixpoint encode_fields_loop (fuel depth : nat) (stream : pb_ostream_t)
    (iter : pb_field_iter_t) : ores :=
  match fuel with
  | O => timeout
  | S fuel' =>
      field ← of_option (deref_field (pos iter));
      s <-? (if PB_LTYPE (type field) =? PB_LTYPE_EXTENSION then
               encode_extension_field depth stream field (pData iter)
             else encode_field depth stream field (pData iter));
      '(more, iter') ← of_option (pb_field_iter_next iter);
      if more : bool then encode_fields_loop fuel' depth s iter' else mret (true, s)
  end.

End Recursion.

(** [depth] bounds the nesting of submessages and the length of extension
    lists. *)
Fixpoint pb_encode (depth : nat) (stream : pb_ostream_t) (fields : field_ref)
    (src_struct : Z) : ores :=
  match depth with
  | O => timeout
  | S depth' =>
      '(nonempty, iter) ← of_option (pb_field_iter_begin fields src_struct);
      if nonempty : bool then
        encode_fields_loop (pb_encode depth') (array_fuel fields) depth stream iter
      else mret (true, stream)
  end.

Definition pb_encode_delimited (depth : nat) (stream : pb_ostream_t) (fields : field_ref)
    (src_struct : Z) : ores :=
  pb_encode_submessage (pb_encode depth) stream fields src_struct.

Definition pb_encode_nullterminated (depth : nat) (stream : pb_ostream_t)
    (fields : field_ref) (src_struct : Z) : ores :=
  s <-? pb_encode depth stream fields src_struct;
  pb_write s (WLocal [0]) 1.

(** [*size] is written on success only. *)
Definition pb_get_encoded_size (depth : nat) (fields : field_ref) (src_struct : Z) :
    M (bool * option Z) :=
  '(ok, stream) ← pb_encode depth PB_OSTREAM_SIZING fields src_struct;
  if negb ok then mret (false, None)
  else mret (true, Some (o_bytes_written stream)).

End Encoder.
