(* ===== verification/PbStreams.v ===== *)
(** Output streams of nanopb: what it means for a piece of the encoder to
    write a given byte string, and that the helpers of pb_encode.c write the
    wire format. *)
From S2P Require Import Prelude Memory PbTypes PbWire PbEncode.

(** ** The effect of a write *)

(** The stream after [n] more bytes. *)
Definition advance (s : pb_ostream_t) (n : Z) : pb_ostream_t :=
  match o_callback s with
  | OcbNull => os_with_written s (o_bytes_written s + n)
  | _ => os_with_state (os_with_written s (o_bytes_written s + n)) (o_state s + n)
  end.

(** The bytes go to memory for a buffer stream and nowhere for a sizing one. *)
Definition emitted (s : pb_ostream_t) (bs : list Z) (w w' : world) : Prop :=
  match o_callback s with
  | OcbNull => w' = w
  | _ => exists m', write_bytes (mem w) (o_state s) bs = Some m' /\ w' = set_mem m' w
  end.

(** [stream_ok m s w]: [s] is a sizing stream, or a buffer stream whose
    remaining room is allocated and apart from the message memory [m]; no error
    has been recorded. *)
Definition stream_ok (m : gmap Z Z) (s : pb_ostream_t) (w : world) : Prop :=
  m ⊆ mem w /\ o_errmsg s = None /\ 0 <= o_bytes_written s /\
  match o_callback s with
  | OcbNull => True
  | OcbBufWrite =>
      o_bytes_written s <= o_max_size s < 2 ^ 64 /\
      mapped (mem w) (o_state s) (o_max_size s - o_bytes_written s) /\
      forall x, o_state s <= x < o_state s + (o_max_size s - o_bytes_written s) ->
        m !! x = None
  | OcbUser _ => False
  end.

Definition has_room (s : pb_ostream_t) (n : Z) : Prop :=
  match o_callback s with OcbNull => True | _ => o_bytes_written s + n <= o_max_size s end.

#[global] Instance has_room_dec s n : Decision (has_room s n).
Proof. unfold has_room. destruct (o_callback s); apply _. Defined.

(** Nothing outside the room of [s] has changed. *)
Definition confined (s : pb_ostream_t) (w w' : world) : Prop :=
  forall x, ~ (o_state s <= x < o_state s + (o_max_size s - o_bytes_written s)) ->
    mem w' !! x = mem w !! x.

(** [writes m f bs]: reading the message memory [m], the code [f] emits exactly
    [bs] where there is room, and otherwise returns false without touching
    anything outside the room. *)
Definition writes (m : gmap Z Z) (f : pb_ostream_t -> ores) (bs : list Z) : Prop :=
  forall s w, stream_ok m s w ->
    o_bytes_written s + Z.of_nat (length bs) < 2 ^ 64 ->
    if decide (has_room s (Z.of_nat (length bs))) then
      exists w', f s w = Done (true, advance s (Z.of_nat (length bs))) w' /\
        emitted s bs w w'
    else exists s' w', f s w = Done (false, s') w' /\ confined s w w'.

(** ** Lemmas on the effect of a write *)

Lemma advance_callback s n : o_callback (advance s n) = o_callback s.
Proof. unfold advance. by destruct (o_callback s) eqn:E; rewrite <- E. Qed.

Lemma advance_written s n : o_bytes_written (advance s n) = o_bytes_written s + n.
Proof. unfold advance. by destruct (o_callback s). Qed.

Lemma advance_max s n : o_max_size (advance s n) = o_max_size s.
Proof. unfold advance. by destruct (o_callback s). Qed.

Lemma advance_errmsg s n : o_errmsg (advance s n) = o_errmsg s.
Proof. unfold advance. by destruct (o_callback s). Qed.

Lemma advance_add s n1 n2 : advance (advance s n1) n2 = advance s (n1 + n2).
Proof.
  unfold advance at 1. rewrite advance_callback. unfold advance.
  destruct s as [[] ? ? ? ?]; unfold os_with_written, os_with_state; cbn; f_equal; lia.
Qed.

Lemma advance_0 s : advance s 0 = s.
Proof.
  destruct s as [[] ? ? ? ?]; unfold advance, os_with_written, os_with_state; cbn;
    f_equal; lia.
Qed.

Lemma emitted_nil s w : emitted s [] w w.
Proof. unfold emitted. destruct (o_callback s); eauto; exists (mem w); by destruct w. Qed.

Lemma emitted_app s bs1 bs2 w w1 w2 :
  emitted s bs1 w w1 ->
  emitted (advance s (Z.of_nat (length bs1))) bs2 w1 w2 ->
  emitted s (bs1 ++ bs2) w w2.
Proof.
  unfold emitted. rewrite advance_callback. unfold advance.
  destruct s as [[] st mx wr er]; cbn; [by intros -> ->| |].
  all: intros (m1 & H1 & ->) (m2 & H2 & ->); exists m2;
    split; [by eapply write_bytes_app|done].
Qed.

(** A stream stays usable after a write that had room. *)
Lemma stream_ok_advance m s w bs w' :
  stream_ok m s w -> has_room s (Z.of_nat (length bs)) -> emitted s bs w w' ->
  stream_ok m (advance s (Z.of_nat (length bs))) w'.
Proof.
  unfold stream_ok, has_room, emitted. rewrite advance_callback, advance_written, advance_max, advance_errmsg.
  unfold advance. destruct s as [[] st mx wr er]; cbn;
    [intros (? & ? & ? & _) _ ->; repeat split; (done || lia)| |intros (_ & _ & _ & []) _ _].
  intros (Hs & He & H0 & Hm & Hma & Hd) Hr (m' & E & ->). cbn.
  pose proof (write_bytes_dom _ _ _ _ E) as Hdom.
  apply write_bytes_inv in E as (_ & _ & Hf).
  split; [|split; [done|split; [lia|split; [lia|split]]]].
  - apply map_subseteq_spec. intros x v Hx. rewrite Hf.
    + by eapply lookup_weaken.
    + intros ?. rewrite Hd in Hx; [done|lia].
  - intros x Hx. apply Hdom, Hma. lia.
  - intros x Hx. apply Hd. lia.
Qed.

Lemma has_room_app s n1 n2 : 0 <= n1 -> 0 <= n2 ->
  has_room s (n1 + n2) <-> has_room s n1 /\ has_room (advance s n1) n2.
Proof.
  unfold has_room. rewrite advance_callback, advance_written, advance_max.
  destruct (o_callback s); intuition lia.
Qed.

Lemma confined_after m s w bs w1 w2 :
  stream_ok m s w -> has_room s (Z.of_nat (length bs)) -> emitted s bs w w1 ->
  confined (advance s (Z.of_nat (length bs))) w1 w2 -> confined s w w2.
Proof.
  unfold stream_ok, has_room, emitted, confined, advance.
  destruct s as [[] st mx wr er]; cbn; [| |by intros (_ & _ & _ & [])].
  - intros _ _ -> Hc x Hx. apply Hc. lia.
  - intros _ Hr (m' & E & ->) Hc x Hx. rewrite Hc by lia. cbn.
    apply write_bytes_inv in E as (_ & _ & E). apply E. lia.
Qed.

(** ** Composition *)

Lemma writes_nil m : writes m (fun s => mret (true, s)) [].
Proof.
  intros s w Hok _. rewrite decide_True.
  - exists w. rewrite advance_0. split; [done|apply emitted_nil].
  - destruct Hok as (_ & _ & _ & H). unfold has_room. destruct (o_callback s); cbn in *; [done|lia|done].
Qed.

Lemma writes_app m f g bs1 bs2 :
  writes m f bs1 -> writes m g bs2 ->
  writes m (fun s => and_then (f s) g) (bs1 ++ bs2).
Proof.
  intros Hf Hg s w Hok Hn. rewrite length_app, Nat2Z.inj_add in Hn |- *.
  specialize (Hf s w Hok ltac:(lia)).
  destruct (decide (has_room s (Z.of_nat (length bs1)))) as [Hr1|Hr1].
  - destruct Hf as (w1 & E1 & Hw1).
    assert (Hok1 := stream_ok_advance _ _ _ _ _ Hok Hr1 Hw1).
    specialize (Hg _ w1 Hok1). rewrite advance_written in Hg. specialize (Hg ltac:(lia)).
    rewrite advance_add in Hg.
    destruct (decide (has_room (advance s _) _)) as [Hr2|Hr2].
    + destruct Hg as (w2 & E2 & Hw2).
      rewrite decide_True by (apply has_room_app; [lia|lia|done]).
      exists w2. split; [by rewrite (and_then_done _ _ _ _ _ E1)|by eapply emitted_app].
    + destruct Hg as (s2 & w2 & E2 & Hc2).
      rewrite decide_False by (intros []%has_room_app; [done|lia|lia]).
      exists s2, w2. rewrite (and_then_done _ _ _ _ _ E1).
      split; [done|]. by eapply confined_after.
  - destruct Hf as (s1 & w1 & E1 & Hc1).
    rewrite decide_False by (intros []%has_room_app; [done|lia|lia]).
    exists s1, w1. split; [by apply and_then_false|done].
Qed.

(** Code that behaves like [f] on every usable stream. *)
Lemma writes_ext m f g bs :
  (forall s w, m ⊆ mem w -> g s w = f s w) -> writes m f bs -> writes m g bs.
Proof.
  intros He Hf s w Hok Hn. specialize (Hf s w Hok Hn).
  rewrite (He s w) by apply Hok. done.
Qed.

(** A read-only prefix. *)
Lemma writes_read {A} m (r : M A) `{!ReadOnly r} (k : A -> pb_ostream_t -> ores) a bs :
  eval r m = Some a -> writes m (k a) bs -> writes m (fun s => r ≫= fun x => k x s) bs.
Proof.
  intros Hr. apply writes_ext. intros s w Hs. by rewrite (bind_done _ _ _ _ _ (eval_run r m w a Hr Hs)).
Qed.

(** ** [pb_write] *)

(** [src] holds the bytes [bs]: a local array, or memory that is part of [m]. *)
Definition src_holds (m : gmap Z Z) (src : wsrc) (bs : list Z) : Prop :=
  match src with
  | WLocal l => l = bs
  | WMem p => read_bytes m p (length bs) = Some bs
  end.

Lemma store_1_done a b w v :
  mem w !! a = Some v -> is_byte b -> store 1 a b w = Done tt (set_mem (<[a := b]> (mem w)) w).
Proof.
  intros Ha Hb. unfold store, store_bytes. cbn. rewrite Ha.
  by rewrite Z.mod_small by apply Hb.
Qed.

Lemma load_1_done a w b : mem w !! a = Some b -> load 1 a w = Done b w.
Proof. intros Ha. unfold load, read_le. cbn. rewrite Ha. cbn. by rewrite Z.add_0_r. Qed.

Lemma src_byte_done m src bs i w b :
  src_holds m src bs -> m ⊆ mem w -> bs !! i = Some b -> src_byte src i w = Done b w.
Proof.
  destruct src as [l|p]; cbn; [by intros -> _ ->|].
  intros Hr Hs Hi. apply load_1_done. eapply lookup_weaken; [|done].
  erewrite read_bytes_lookup; [done|done|]. by eapply lookup_lt_Some.
Qed.

Lemma buf_write_loop_done m src bs dest n i w m' :
  Forall is_byte bs -> src_holds m src bs ->
  m ⊆ mem w ->
  (forall x, dest + Z.of_nat i <= x < dest + Z.of_nat i + Z.of_nat n -> m !! x = None) ->
  (i + n = length bs)%nat ->
  write_bytes (mem w) (dest + Z.of_nat i) (drop i bs) = Some m' ->
  buf_write_loop dest src i n w = Done tt (set_mem m' w).
Proof.
  intros Hb Hsrc. revert i w. induction n as [|n IH]; intros i w Hs Hd Hi Hw; cbn [buf_write_loop].
  - rewrite drop_ge in Hw by lia. cbn in Hw. injection Hw as <-. by destruct w.
  - destruct (lookup_lt_is_Some_2 bs i ltac:(lia)) as [b Hbi].
    rewrite (drop_S _ _ _ Hbi) in Hw. cbn in Hw.
    destruct (mem w !! (dest + Z.of_nat i)) as [v|] eqn:Hv; [|done].
    rewrite (bind_done _ _ _ _ _ (src_byte_done _ _ _ _ _ _ Hsrc Hs Hbi)).
    assert (is_byte b) by (by eapply Forall_lookup_1).
    rewrite (bind_done _ _ _ _ _ (store_1_done _ _ _ _ Hv H)).
    rewrite (IH (S i) (set_mem (<[_:=b]> (mem w)) w)); cbn; [done| |intros; apply Hd; lia|lia|].
    + apply insert_subseteq_r; [apply Hd; lia|done].
    + by replace (dest + Z.of_nat (S i)) with (dest + Z.of_nat i + 1) by lia.
Qed.

Section WithCode.
Context {PD : PbDescriptors} {EC : EncCallbacks}.

(** On a sizing stream only the count grows. *)
Lemma pb_write_sizing s src n w :
  o_callback s = OcbNull -> 0 <= o_bytes_written s -> 0 <= n ->
  o_bytes_written s + n < 2 ^ 64 ->
  pb_write s src n w = Done (true, advance s n) w.
Proof.
  intros Ecb H0 Hn Hlt. unfold pb_write.
  rewrite bool_decide_false, andb_false_r by (intros Hc; by apply Hc).
  unfold and_then. rewrite bind_ret. cbn. rewrite wrap_small by lia.
  unfold advance. by rewrite Ecb.
Qed.

(** On a buffer stream the bytes are copied, or the write is refused whole. *)
Lemma pb_write_buffer m src bs s w :
  Forall is_byte bs -> src_holds m src bs -> stream_ok m s w ->
  o_callback s = OcbBufWrite -> bs <> [] ->
  o_bytes_written s + Z.of_nat (length bs) < 2 ^ 64 ->
  if o_max_size s <? o_bytes_written s + Z.of_nat (length bs) then
    pb_write s src (Z.of_nat (length bs)) w = Done (false, os_set_error s "stream full") w
  else exists m', write_bytes (mem w) (o_state s) bs = Some m' /\
    pb_write s src (Z.of_nat (length bs)) w =
      Done (true, advance s (Z.of_nat (length bs))) (set_mem m' w).
Proof.
  intros Hb Hsrc (Hs & He & H0 & Hcb) Ecb Hne Hn. rewrite Ecb in Hcb.
  destruct Hcb as (Hmx & Hma & Hd).
  assert (0 < Z.of_nat (length bs)) by (destruct bs; [done|cbn; lia]).
  unfold pb_write. rewrite bool_decide_true, andb_true_r by (by rewrite Ecb).
  rewrite (proj2 (Z.ltb_lt 0 _)), (wrap_small 64 (o_bytes_written s + _)) by lia.
  rewrite (proj2 (Z.ltb_ge (o_bytes_written s + Z.of_nat (length bs)) _)) by lia. cbn [orb].
  destruct (Z.ltb_spec (o_max_size s) (o_bytes_written s + Z.of_nat (length bs)));
    [done|].
  destruct (write_bytes_mapped (mem w) (o_state s) bs) as [m' Hw].
  { intros x Hx. apply Hma. lia. }
  exists m'. split; [done|].
  unfold and_then, call_callback. rewrite Ecb. unfold buf_write. rewrite Nat2Z.id.
  unfold mbind, M_bind.
  rewrite (buf_write_loop_done m src bs _ (length bs) 0%nat w m'); try done.
  - cbn. unfold advance. rewrite Ecb. unfold os_with_state, os_with_written; cbn.
    by rewrite wrap_small by lia.
  - intros x Hx. apply Hd. lia.
  - by rewrite Z.add_0_r.
Qed.

Lemma pb_write_writes m src bs :
  Forall is_byte bs -> src_holds m src bs ->
  writes m (fun s => pb_write s src (Z.of_nat (length bs))) bs.
Proof.
  intros Hb Hsrc s w Hok Hn. pose proof Hok as (Hs & He & H0 & Hcb).
  destruct s as [[] st mx wr er]; cbn in Hcb, H0, Hn; [| |done].
  - rewrite decide_True by done. exists w. split; [|done].
    apply pb_write_sizing; cbn; (done || lia).
  - destruct bs as [|b0 bs0].
    { rewrite decide_True by (unfold has_room; cbn; lia). exists w. split.
      - change (Z.of_nat (length [])) with 0 in *. rewrite advance_0.
        unfold pb_write, and_then. rewrite Z.ltb_irrefl. cbn [andb].
        rewrite bind_ret. cbn. unfold os_with_written. cbn.
        by rewrite Z.add_0_r, wrap_small by lia.
      - exists (mem w). by destruct w. }
    pose proof (pb_write_buffer m src _ _ _ Hb Hsrc Hok eq_refl ltac:(done) Hn) as Hw.
    cbn [o_max_size o_bytes_written] in Hw. destruct (Z.ltb_spec mx (wr + Z.of_nat (length (b0 :: bs0)))).
    + rewrite decide_False by (unfold has_room; cbn [o_callback o_max_size o_bytes_written]; lia).
      eexists _, w. split; [apply Hw|done].
    + rewrite decide_True by (unfold has_room; cbn [o_callback o_max_size o_bytes_written]; lia).
      destruct Hw as (m' & Hw & ->). eexists. split; [done|]. by exists m'.
Qed.

(** ** The varint loop writes the wire format *)

Lemma clear_last_cons b bs :
  bs <> [] -> clear_last_top_bit (b :: bs) = b :: clear_last_top_bit bs.
Proof. intros. destruct bs; [done|]. unfold clear_last_top_bit. cbn. by rewrite Nat.sub_0_r. Qed.

Lemma encode_varint_loop_spec n v :
  0 < v < 128 ^ Z.of_nat n ->
  exists bs, encode_varint_loop n v = Some bs /\ bs <> [] /\
    clear_last_top_bit bs = varint_fuel n v.
Proof.
  revert v. induction n as [|n IH]; intros v Hv; cbn [encode_varint_loop varint_fuel].
  { change (128 ^ Z.of_nat 0) with 1 in Hv. lia. }
  rewrite (proj2 (Z.eqb_neq v 0)) by lia.
  rewrite Nat2Z.inj_succ, Z.pow_succ_r in Hv by lia.
  rewrite Z.shiftr_div_pow2 by lia. change (2 ^ 7) with 128.
  pose proof (Z.mod_pos_bound v 128 ltac:(lia)) as Hm.
  rewrite land_127, lor_128, wrap_small by lia.
  destruct (Z.ltb_spec v 128) as [Hs|Hb].
  - rewrite Z.div_small, Z.mod_small by lia. exists [v + 128].
    split; [by destruct n|split; [done|]].
    unfold clear_last_top_bit. cbn. rewrite land_127. f_equal.
    replace (v + 128) with (v + 1 * 128) by lia. rewrite Z_mod_plus_full. apply Z.mod_small. lia.
  - destruct (IH (v / 128)) as (bs & -> & Hne & Hbs).
    { split; [apply Z.div_str_pos; lia|apply Z.div_lt_upper_bound; lia]. }
    eexists; split; [done|split; [done|]]. by rewrite clear_last_cons, Hbs.
Qed.

Lemma pb_encode_varint_writes m v :
  0 <= v < 2 ^ 64 -> writes m (fun s => pb_encode_varint s v) (varint_bytes v).
Proof.
  intros Hv. pose proof (varint_bytes_byte v Hv) as Hb. unfold pb_encode_varint.
  destruct (Z.leb_spec v 127).
  - assert (varint_bytes v = [v]) as E.
    { unfold varint_bytes. cbn [varint_fuel]. destruct (Z.ltb_spec v 128); [done|lia]. }
    rewrite E in Hb |- *. rewrite wrap_small by lia. by apply (pb_write_writes m (WLocal [v]) [v]).
  - destruct (encode_varint_loop_spec 10 v) as (bs & E & Hne & Hbs).
    { change (128 ^ Z.of_nat 10) with (2 ^ 70). lia. }
    rewrite E. change (of_option (Some bs)) with (mret (M := M) bs).
    assert (length bs = length (varint_bytes v)) as Hl.
    { unfold varint_bytes. rewrite <- Hbs. unfold clear_last_top_bit. by rewrite length_alter. }
    eapply writes_ext; [|apply (pb_write_writes m (WLocal (varint_bytes v))); done].
    intros s w _. by rewrite bind_ret, Hbs, Hl.
Qed.

Lemma pb_encode_svarint_writes m v :
  - 2 ^ 63 <= v < 2 ^ 63 ->
  writes m (fun s => pb_encode_svarint s v) (varint_bytes (zigzag v)).
Proof.
  intros Hv. pose proof (zigzag_bounds v Hv) as Hz. unfold pb_encode_svarint.
  replace (if v <? 0 then _ else _) with (zigzag v); [by apply pb_encode_varint_writes|].
  unfold zigzag in *. rewrite Z.shiftl_mul_pow2 by lia. change (2 ^ 1) with 2.
  unfold Z.lnot, wrap. change (2 ^ 64) with 18446744073709551616.
  destruct (Z.ltb_spec v 0); Z.div_mod_to_equations; lia.
Qed.

(** ** Fixed-width values, tags and strings *)

Lemma byte_of_shift v k : 0 <= k -> u8 (Z.land (Z.shiftr v k) 255) = v / 2 ^ k mod 256.
Proof.
  intros. rewrite land_255, Z.shiftr_div_pow2 by done.
  apply wrap_small. apply Z.mod_pos_bound. lia.
Qed.

Lemma pb_encode_fixed32_writes m p v :
  wf_mem m -> read_le m 4 p = Some v -> writes m (fun s => pb_encode_fixed32 s p) (le_bytes 4 v).
Proof.
  intros Hm Hr. eapply writes_ext;
    [|apply (pb_write_writes m (WLocal (le_bytes 4 v))); [apply le_bytes_is_byte|done]].
  intros s w Hs. unfold pb_encode_fixed32. rewrite (bind_done _ _ _ _ _ (load_run _ _ _ _ _ Hr Hs)).
  rewrite !byte_of_shift by lia. rewrite <- (Z.shiftr_0_r v) at 1. rewrite byte_of_shift by lia.
  cbn [le_bytes length]. rewrite !Z.div_div by lia. by rewrite Z.div_1_r.
Qed.

Lemma pb_encode_fixed64_writes m p v :
  wf_mem m -> read_le m 8 p = Some v -> writes m (fun s => pb_encode_fixed64 s p) (le_bytes 8 v).
Proof.
  intros Hm Hr. eapply writes_ext;
    [|apply (pb_write_writes m (WLocal (le_bytes 8 v))); [apply le_bytes_is_byte|done]].
  intros s w Hs. unfold pb_encode_fixed64. rewrite (bind_done _ _ _ _ _ (load_run _ _ _ _ _ Hr Hs)).
  rewrite !byte_of_shift by lia. rewrite <- (Z.shiftr_0_r v) at 1. rewrite byte_of_shift by lia.
  cbn [le_bytes length]. rewrite !Z.div_div by lia. by rewrite Z.div_1_r.
Qed.

Lemma pb_encode_tag_writes m wt t :
  0 <= wt < 8 -> 0 <= t < 2 ^ 32 ->
  writes m (fun s => pb_encode_tag s wt t) (varint_bytes (tag_key wt t)).
Proof.
  intros Hw Ht. unfold pb_encode_tag.
  replace (Z.lor _ wt) with (tag_key wt t).
  - apply pb_encode_varint_writes. by apply tag_key_bounds.
  - unfold tag_key. rewrite wrap_small by (rewrite Z.shiftl_mul_pow2; lia).
    rewrite Z.lor_comm, lor_shiftl_add; lia.
Qed.

Lemma pb_encode_string_writes m src bs :
  Forall is_byte bs -> src_holds m src bs -> Z.of_nat (length bs) < 2 ^ 64 ->
  writes m (fun s => pb_encode_string s src (Z.of_nat (length bs))) (delimited bs).
Proof.
  intros. apply writes_app; [apply pb_encode_varint_writes; lia|by apply pb_write_writes].
Qed.

End WithCode.
