(* ===== verification/PbEncodeSpec.v ===== *)
(** What the encoder promises: the bytes of a message as a function of the
    memory that holds it ([spec_message]), free of streams and sizing passes,
    and the refinement theorems that pb_encode.c writes exactly those bytes. *)
From S2P Require Import Prelude Memory PbTypes CrashlyticsProto PbWire PbEncode PbStreams.

(** ** Well-formed descriptors *)

Definition wf_field (f : pb_field_t) : Prop :=
  0 <= tag f < 2 ^ 32 /\ 0 <= data_size f < 2 ^ 32 /\ 0 <= array_size f < 2 ^ 32 /\
  PB_LTYPE (type f) <= PB_LTYPE_FIXED_LENGTH_BYTES.

#[global] Instance wf_field_dec f : Decision (wf_field f).
Proof. unfold wf_field. apply _. Defined.

Class WfDescriptors {PD : PbDescriptors} : Prop :=
  wf_fields : forall id, Forall wf_field (fields_at id).

(** The bytes an application callback emits; documented as depending on the
    message only, so that the sizing and the writing pass agree. *)
Class EncCallbackSpec {EC : EncCallbacks} := {
  user_encode_bytes : gmap Z Z -> Z -> pb_field_t -> Z -> option (list Z);
  user_ext_encode_bytes : gmap Z Z -> Z -> Z -> option (list Z);
  user_encode_writes m fn f arg bs : user_encode_bytes m fn f arg = Some bs ->
    writes m (fun s => user_encode fn s f arg) bs;
  user_ext_encode_writes m fn ext bs : user_ext_encode_bytes m fn ext = Some bs ->
    writes m (fun s => user_ext_encode fn s ext) bs
}.

Section Spec.
Context {PD : PbDescriptors} {EC : EncCallbacks} {ES : EncCallbackSpec}.

(** ** The encoding of a message *)

Definition spec_wire_type (f : pb_field_t) : option Z :=
  let lt := PB_LTYPE (type f) in
  if lt <=? PB_LTYPE_SVARINT then Some PB_WT_VARINT
  else if lt =? PB_LTYPE_FIXED32 then Some PB_WT_32BIT
  else if lt =? PB_LTYPE_FIXED64 then Some PB_WT_64BIT
  else if lt =? PB_LTYPE_EXTENSION then None
  else if lt <=? PB_LTYPE_FIXED_LENGTH_BYTES then Some PB_WT_STRING
  else None.

Definition spec_tag (f : pb_field_t) : option (list Z) :=
  wt ← spec_wire_type f; Some (varint_bytes (tag_key wt (tag f))).

(** The integer types a field can have, by [data_size]. *)
Definition int_width (f : pb_field_t) : option nat :=
  if data_size f =? 1 then Some 1%nat else if data_size f =? 2 then Some 2%nat
  else if data_size f =? 4 then Some 4%nat else if data_size f =? 8 then Some 8%nat
  else None.

(** The characters up to a NUL or to [max]. *)
Fixpoint spec_chars (fuel : nat) (m : gmap Z Z) (p max : Z) : option (list Z) :=
  match fuel with
  | O => None
  | S fuel' =>
      if max <=? 0 then Some []
      else
        c ← m !! p;
        if c =? 0 then Some []
        else cs ← spec_chars fuel' m (p + 1) (max - 1); Some (c :: cs)
  end.

Section Level.
Variable m : gmap Z Z.
Variable depth : nat.
(** The encoding of the submessages. *)
Variable submsg : field_ref -> Z -> option (list Z).

Definition spec_value (f : pb_field_t) (src : Z) : option (list Z) :=
  let lt := PB_LTYPE (type f) in
  if lt =? PB_LTYPE_BOOL then
    b ← read_le m 1 src; Some (varint_bytes (if b =? 0 then 0 else 1))
  else if lt =? PB_LTYPE_VARINT then
    n ← int_width f; v ← read_le m n src;
    Some (varint_bytes (u64 (to_signed (8 * Z.of_nat n) v)))
  else if lt =? PB_LTYPE_UVARINT then
    n ← int_width f; v ← read_le m n src; Some (varint_bytes v)
  else if lt =? PB_LTYPE_SVARINT then
    n ← int_width f; v ← read_le m n src;
    Some (varint_bytes (zigzag (to_signed (8 * Z.of_nat n) v)))
  else if lt =? PB_LTYPE_FIXED32 then read_bytes m src 4
  else if lt =? PB_LTYPE_FIXED64 then read_bytes m src 8
  else if lt =? PB_LTYPE_BYTES then
    if src =? NULL then Some (delimited [])
    else
      n ← read_le m 4 src;
      if (PB_ATYPE (type f) =? PB_ATYPE_STATIC) && (u64 (data_size f - 4) <? n) then None
      else bs ← read_bytes m (src + 4) (Z.to_nat n); Some (delimited bs)
  else if lt =? PB_LTYPE_STRING then
    if src =? NULL then Some (delimited [])
    else
      cs ← spec_chars (S (size m)) m src
             (if PB_ATYPE (type f) =? PB_ATYPE_POINTER then SIZE_MAX else data_size f);
      Some (delimited cs)
  else if lt =? PB_LTYPE_SUBMESSAGE then
    match ptr f with
    | PtrSubmsg fields =>
        bs ← submsg (fields, 0%nat) src;
        if Z.of_nat (length bs) <? 2 ^ 64 then Some (delimited bs) else None
    | _ => None
    end
  else if lt =? PB_LTYPE_FIXED_LENGTH_BYTES then
    bs ← read_bytes m src (Z.to_nat (data_size f)); Some (delimited bs)
  else None.

(** [n] values in a row, [data_size] apart. *)
Fixpoint spec_items (item : Z -> option (list Z)) (step : Z) (n : nat) (p : Z) :
    option (list Z) :=
  match n with
  | O => Some []
  | S n' => bs ← item p; bs' ← spec_items item step n' (p + step); Some (bs ++ bs')
  end.

(** An unpacked item: its tag, then its value. *)
Definition spec_unpacked_item (f : pb_field_t) (p : Z) : option (list Z) :=
  t ← spec_tag f;
  v ← (if (PB_ATYPE (type f) =? PB_ATYPE_POINTER) &&
          ((PB_LTYPE (type f) =? PB_LTYPE_STRING) || (PB_LTYPE (type f) =? PB_LTYPE_BYTES))
       then q ← read_le m 8 p; spec_value f q
       else spec_value f p);
  Some (t ++ v).

Definition spec_array (f : pb_field_t) (p count : Z) : option (list Z) :=
  if count =? 0 then Some []
  else if negb (PB_ATYPE (type f) =? PB_ATYPE_POINTER) && (array_size f <? count) then None
  else if PB_LTYPE (type f) <=? PB_LTYPE_LAST_PACKABLE then
    bs ← spec_items (spec_value f) (data_size f) (Z.to_nat count) p;
    if Z.of_nat (length bs) <? 2 ^ 64 then
      Some (varint_bytes (tag_key PB_WT_STRING (tag f)) ++ delimited bs)
    else None
  else spec_items (spec_unpacked_item f) (data_size f) (Z.to_nat count) p.

Definition spec_tagged (f : pb_field_t) (src : Z) : option (list Z) :=
  t ← spec_tag f; v ← spec_value f src; Some (t ++ v).

(** Whether an optional field is present, [src] being the address of its data. *)
Definition spec_has (f : pb_field_t) (pData src : Z) : option bool :=
  if negb (size_offset f =? 0) then
    b ← read_le m 1 (pData + size_offset f); Some (negb (b =? 0))
  else
    d ← eval (pb_check_proto3_default_value depth f pData) m;
    Some (if PB_ATYPE (type f) =? PB_ATYPE_POINTER then negb (src =? NULL) else negb d).

Definition spec_basic (f : pb_field_t) (pData : Z) : option (list Z) :=
  src ← (if PB_ATYPE (type f) =? PB_ATYPE_POINTER then read_le m 8 pData else Some pData);
  let ht := PB_HTYPE (type f) in
  if ht =? PB_HTYPE_REQUIRED then
    if src =? NULL then None else spec_tagged f src
  else if ht =? PB_HTYPE_OPTIONAL then
    has ← spec_has f pData src;
    if has : bool then spec_tagged f src else Some []
  else if ht =? PB_HTYPE_REPEATED then
    count ← (if negb (size_offset f =? 0) then read_le m 4 (pData + size_offset f)
             else Some (array_size f));
    spec_array f src count
  else
    if size_offset f =? 0 then None
    else
      which ← read_le m 4 (pData + size_offset f);
      if which =? tag f then spec_tagged f src else Some [].

Definition spec_field (f : pb_field_t) (pData : Z) : option (list Z) :=
  if PB_ATYPE (type f) =? PB_ATYPE_CALLBACK then
    fn ← read_le m 8 pData;
    if fn =? NULL then Some [] else user_encode_bytes m fn f (pData + 8)
  else if (PB_ATYPE (type f) =? PB_ATYPE_STATIC) || (PB_ATYPE (type f) =? PB_ATYPE_POINTER)
  then spec_basic f pData
  else None.

Definition spec_extension (et : pb_extension_type_t) (ext : Z) : option (list Z) :=
  if negb (ext_encode et =? NULL) then user_ext_encode_bytes m (ext_encode et) ext
  else
    f ← deref_field (ext_arg et);
    if PB_ATYPE (type f) =? PB_ATYPE_POINTER then spec_field f (ext + 8)
    else dest ← read_le m 8 (ext + 8); spec_field f dest.

Fixpoint spec_extensions (fuel : nat) (ext : Z) : option (list Z) :=
  if ext =? NULL then Some [] else
  match fuel with
  | O => None
  | S fuel' =>
      ty ← read_le m 8 ext;
      et ← extension_type_at ty;
      bs ← spec_extension et ext;
      next ← read_le m 8 (ext + 16);
      bs' ← spec_extensions fuel' next;
      Some (bs ++ bs')
  end.

Fixpoint spec_fields (fuel : nat) (iter : pb_field_iter_t) : option (list Z) :=
  match fuel with
  | O => None
  | S fuel' =>
      f ← deref_field (pos iter);
      bs ← (if PB_LTYPE (type f) =? PB_LTYPE_EXTENSION then
              ext ← read_le m 8 (pData iter); spec_extensions depth ext
            else spec_field f (pData iter));
      '(more, iter') ← pb_field_iter_next iter;
      if more : bool then bs' ← spec_fields fuel' iter'; Some (bs ++ bs')
      else Some (bs ++ [])
  end.

End Level.

Fixpoint spec_message (depth : nat) (m : gmap Z Z) (fields : field_ref) (src : Z) :
    option (list Z) :=
  match depth with
  | O => None
  | S depth' =>
      '(nonempty, iter) ← pb_field_iter_begin fields src;
      if nonempty : bool then
        spec_fields m depth (spec_message depth' m) (array_fuel fields) iter
      else Some []
  end.

End Spec.

(** ** Refinement, one level of submessages at a time *)

Lemma read_only_all_zero n p : ReadOnly (all_zero_loop n p).
Proof. revert p. induction n; intros; cbn; apply _. Qed.

Lemma read_only_check_fields `{PD : PbDescriptors} check fuel iter :
  (forall f p, ReadOnly (check f p)) -> ReadOnly (check_fields_loop check fuel iter).
Proof.
  intros Hc. revert iter. induction fuel as [|fuel IH]; intros iter; cbn; apply _.
Qed.

#[export] Instance read_only_check_proto3 `{PD : PbDescriptors} depth f p :
  ReadOnly (pb_check_proto3_default_value depth f p).
Proof.
  revert f p. induction depth as [|depth IH]; intros f p; cbn; [apply _|].
  pose proof read_only_all_zero. pose proof (fun fuel iter =>
    read_only_check_fields (pb_check_proto3_default_value depth) fuel iter IH).
  unfold safe_read_bool. destruct (ptr f); apply _.
Qed.

Lemma spec_chars_read fuel m p max cs :
  spec_chars fuel m p max = Some cs -> read_bytes m p (length cs) = Some cs.
Proof.
  revert p max cs. induction fuel as [|fuel IH]; intros p max cs; cbn; [done|].
  destruct (max <=? 0); [intros [= <-]; done|].
  intros (c & Hc & H)%bind_Some. destruct (c =? 0); [injection H as <-; done|].
  apply bind_Some in H as (cs' & H & [= <-]). cbn. rewrite Hc. cbn.
  by rewrite (IH _ _ _ H).
Qed.

(** The scanning loop counts the characters, whatever larger fuel it has. *)
Lemma strnlen_loop_done fuel m p max cs fuel' sz w :
  spec_chars fuel m p max = Some cs -> (fuel <= fuel')%nat -> m ⊆ mem w ->
  strnlen_loop fuel' p sz (sz + max) w = Done (sz + Z.of_nat (length cs)) w.
Proof.
  revert p max cs fuel' sz. induction fuel as [|fuel IH]; intros p max cs fuel' sz; cbn; [done|].
  intros H Hf Hs. destruct fuel' as [|fuel']; [lia|]. cbn [strnlen_loop].
  destruct (Z.leb_spec max 0).
  - injection H as <-. rewrite (proj2 (Z.ltb_ge _ _)) by lia. cbn. by rewrite Z.add_0_r.
  - rewrite (proj2 (Z.ltb_lt _ _)) by lia.
    apply bind_Some in H as (c & Hc & H).
    rewrite (bind_done _ _ _ _ _ (load_1_done _ _ _ (lookup_weaken _ _ _ _ Hc Hs))).
    destruct (c =? 0); [injection H as <-; cbn; by rewrite Z.add_0_r|].
    apply bind_Some in H as (cs' & H & [= <-]).
    replace (sz + max) with ((sz + 1) + (max - 1)) by lia.
    rewrite (IH _ _ _ _ (sz + 1) H) by (done || lia). cbn [length]. f_equal. lia.
Qed.

#[local] Arguments read_bytes : simpl never.

Section Refinement.
Context {PD : PbDescriptors} {EC : EncCallbacks} {ES : EncCallbackSpec}.
Variables (m : gmap Z Z) (depth : nat).
Hypothesis Hm : wf_mem m.
Variable rec : pb_ostream_t -> field_ref -> Z -> ores.
Variable submsg : field_ref -> Z -> option (list Z).
Hypothesis Hrec : forall fields src bs, submsg fields src = Some bs ->
  writes m (fun s => rec s fields src) bs.

Lemma pb_encode_submessage_writes fields src bs :
  submsg fields src = Some bs -> Z.of_nat (length bs) < 2 ^ 64 ->
  writes m (fun s => pb_encode_submessage rec s fields src) (delimited bs).
Proof.
  intros Hsub Hlen. pose proof (Hrec _ _ _ Hsub) as Hw.
  eapply writes_ext with (f := fun s => and_then (pb_encode_varint s (Z.of_nat (length bs)))
    (fun stream => _)).
  { intros s w Hs. unfold pb_encode_submessage.
    specialize (Hw PB_OSTREAM_SIZING w).
    destruct Hw as (w' & E & ->); [repeat split; (done || cbn; lia)|cbn; lia|].
    rewrite (bind_done _ _ _ _ _ E). cbn [negb].
    rewrite advance_written. cbn [o_bytes_written PB_OSTREAM_SIZING]. rewrite Z.add_0_l.
    reflexivity. }
  apply writes_app; [apply pb_encode_varint_writes; lia|].
  intros s w Hok Hn. pose proof Hok as (Hs & He & H0 & Hcb).
  destruct (o_callback s) eqn:Ecb; [| |done].
  - rewrite bool_decide_true by done.
    rewrite decide_True by (unfold has_room; by rewrite Ecb).
    exists w. split; [by apply pb_write_sizing; (done || lia)|unfold emitted; by rewrite Ecb].
  - rewrite bool_decide_false by done. rewrite (wrap_small 64 (_ + _)) by lia.
    destruct (Z.ltb_spec (o_max_size s) (o_bytes_written s + Z.of_nat (length bs))).
    + rewrite decide_False by (unfold has_room; rewrite Ecb; lia). eexists _, w. split; done.
    + rewrite decide_True by (unfold has_room; rewrite Ecb; lia).
      set (sub := PbOstream OcbBufWrite (o_state s) (Z.of_nat (length bs)) 0 None).
      destruct Hcb as (Hmx & Hma & Hd).
      specialize (Hw sub w). rewrite decide_True in Hw by (unfold has_room; cbn; lia).
      destruct Hw as (w' & E & Hw').
      { unfold stream_ok, sub. cbn. rewrite Z.sub_0_r. split; [done|].
        split; [done|split; [lia|split; [lia|split]]].
        - intros x Hx. apply Hma. lia.
        - intros x Hx. apply Hd. lia. }
      { unfold sub. cbn. lia. }
      exists w'. rewrite (bind_done _ _ _ _ _ E), advance_written.
      unfold sub, emitted in *. cbn [o_callback o_bytes_written o_state] in *.
      rewrite Ecb, Z.add_0_l, Z.eqb_refl. cbn [negb]. split; [|done].
      rewrite wrap_small by lia. unfold advance. rewrite Ecb.
      unfold os_with_state, os_with_written. cbn. by rewrite Ecb, He.
Qed.
(** *** Values *)

Lemma int_width_cases f n : int_width f = Some n ->
  data_size f = 1 /\ n = 1%nat \/ data_size f = 2 /\ n = 2%nat \/
  data_size f = 4 /\ n = 4%nat \/ data_size f = 8 /\ n = 8%nat.
Proof.
  unfold int_width. repeat case_match; try done; intros [= <-];
    match goal with H : (_ =? _) = true |- _ => apply Z.eqb_eq in H end; lia.
Qed.

Lemma read_signed_field_run f n src v w :
  int_width f = Some n -> read_le m n src = Some v -> m ⊆ mem w ->
  read_signed_field f src w = Done (Some (to_signed (8 * Z.of_nat n) v)) w.
Proof.
  intros Hn Hr Hs. unfold read_signed_field.
  destruct (int_width_cases _ _ Hn) as [[-> ->] | [[-> ->] | [[-> ->] | [-> ->]]]];
    cbn -[load to_signed mbind];
    by rewrite (bind_done _ _ _ _ _ (load_run _ _ _ _ _ Hr Hs)).
Qed.

Lemma read_unsigned_field_run f n src v w :
  int_width f = Some n -> read_le m n src = Some v -> m ⊆ mem w ->
  read_unsigned_field f src w = Done (Some v) w.
Proof.
  intros Hn Hr Hs. unfold read_unsigned_field.
  destruct (int_width_cases _ _ Hn) as [[-> ->] | [[-> ->] | [[-> ->] | [-> ->]]]];
    cbn -[load mbind];
    by rewrite (bind_done _ _ _ _ _ (load_run _ _ _ _ _ Hr Hs)).
Qed.

Lemma int_width_bound f n v src :
  int_width f = Some n -> read_le m n src = Some v ->
  0 <= v < 2 ^ 64 /\ - 2 ^ 63 <= to_signed (8 * Z.of_nat n) v < 2 ^ 63.
Proof.
  intros Hn Hr. apply (read_le_bound _ _ _ _ Hm) in Hr.
  pose proof (to_signed_bounds (8 * Z.of_nat n) v).
  destruct (int_width_cases _ _ Hn) as [[_ ->] | [[_ ->] | [[_ ->] | [_ ->]]]];
    cbn in *; lia.
Qed.

Lemma pb_enc_bool_writes f src b :
  read_le m 1 src = Some b ->
  writes m (fun s => pb_enc_bool s f src) (varint_bytes (if b =? 0 then 0 else 1)).
Proof.
  intros Hr. eapply writes_ext; [|apply (pb_encode_varint_writes m (if b =? 0 then 0 else 1));
    destruct (b =? 0); lia].
  intros s w Hs. unfold pb_enc_bool, safe_read_bool. rewrite bind_assoc.
  rewrite (bind_done _ _ _ _ _ (load_run _ _ _ _ _ Hr Hs)), bind_ret.
  by destruct (b =? 0).
Qed.

Lemma pb_enc_varint_writes f n src v :
  int_width f = Some n -> read_le m n src = Some v ->
  writes m (fun s => pb_enc_varint s f src)
    (varint_bytes (u64 (to_signed (8 * Z.of_nat n) v))).
Proof.
  intros Hn Hr. eapply writes_ext; [|apply pb_encode_varint_writes, wrap_bounds; lia].
  intros s w Hs. unfold pb_enc_varint.
  by rewrite (bind_done _ _ _ _ _ (read_signed_field_run _ _ _ _ _ Hn Hr Hs)).
Qed.

Lemma pb_enc_uvarint_writes f n src v :
  int_width f = Some n -> read_le m n src = Some v ->
  writes m (fun s => pb_enc_uvarint s f src) (varint_bytes v).
Proof.
  intros Hn Hr. destruct (int_width_bound _ _ _ _ Hn Hr).
  eapply writes_ext; [|by apply pb_encode_varint_writes].
  intros s w Hs. unfold pb_enc_uvarint.
  by rewrite (bind_done _ _ _ _ _ (read_unsigned_field_run _ _ _ _ _ Hn Hr Hs)).
Qed.

Lemma pb_enc_svarint_writes f n src v :
  int_width f = Some n -> read_le m n src = Some v ->
  writes m (fun s => pb_enc_svarint s f src)
    (varint_bytes (zigzag (to_signed (8 * Z.of_nat n) v))).
Proof.
  intros Hn Hr. destruct (int_width_bound _ _ _ _ Hn Hr).
  eapply writes_ext; [|by apply pb_encode_svarint_writes].
  intros s w Hs. unfold pb_enc_svarint.
  by rewrite (bind_done _ _ _ _ _ (read_signed_field_run _ _ _ _ _ Hn Hr Hs)).
Qed.

(** A length-delimited copy of message memory. *)
Lemma pb_encode_mem_writes p n bs :
  read_bytes m p n = Some bs -> Z.of_nat n < 2 ^ 64 ->
  writes m (fun s => pb_encode_string s (WMem p) (Z.of_nat n)) (delimited bs).
Proof.
  intros Hr Hn. pose proof (read_bytes_length _ _ _ _ Hr) as <-.
  apply pb_encode_string_writes; [by eapply read_bytes_byte|done|done].
Qed.

Lemma pb_enc_null_writes :
  writes m (fun s => pb_encode_string s (WMem NULL) 0) (delimited []).
Proof. by apply (pb_encode_mem_writes NULL 0%nat []). Qed.

Lemma pb_enc_bytes_writes f src n bs :
  src <> NULL -> read_le m 4 src = Some n ->
  (PB_ATYPE (type f) =? PB_ATYPE_STATIC) && (u64 (data_size f - 4) <? n) = false ->
  read_bytes m (src + 4) (Z.to_nat n) = Some bs ->
  writes m (fun s => pb_enc_bytes s f src) (delimited bs).
Proof.
  intros Hne Hn Hsz Hr. pose proof (read_le_bound _ _ _ _ Hm Hn) as Hb. cbn in Hb.
  eapply writes_ext; [|apply (pb_encode_mem_writes _ _ _ Hr); lia].
  intros s w Hs. unfold pb_enc_bytes. rewrite (proj2 (Z.eqb_neq _ _) Hne).
  rewrite (bind_done _ _ _ _ _ (load_run _ _ _ _ _ Hn Hs)).
  unfold pb_bytes_off. by rewrite Hsz, Z2Nat.id by lia.
Qed.

Lemma pb_enc_string_writes f src cs :
  src <> NULL -> Z.of_nat (length cs) < 2 ^ 64 ->
  spec_chars (S (size m)) m src
    (if PB_ATYPE (type f) =? PB_ATYPE_POINTER then SIZE_MAX else data_size f) = Some cs ->
  writes m (fun s => pb_enc_string s f src) (delimited cs).
Proof.
  intros Hne Hl Hc. eapply writes_ext;
    [|apply (pb_encode_mem_writes _ _ _ (spec_chars_read _ _ _ _ _ Hc)); lia].
  intros s w Hs. unfold pb_enc_string. rewrite (proj2 (Z.eqb_neq _ _) Hne).
  set (mx := if PB_ATYPE (type f) =? PB_ATYPE_POINTER then SIZE_MAX else data_size f) in *. unfold mbind, M_bind.
  pose proof (strnlen_loop_done _ _ _ _ _ (S (size (mem w))) 0 w Hc) as E.
  rewrite Z.add_0_l in E. rewrite E; [done| |done].
  apply map_subseteq_size in Hs. lia.
Qed.

Lemma pb_enc_submessage_writes f fields src bs :
  ptr f = PtrSubmsg fields -> submsg (fields, 0%nat) src = Some bs ->
  Z.of_nat (length bs) < 2 ^ 64 ->
  writes m (fun s => pb_enc_submessage rec s f src) (delimited bs).
Proof.
  intros Hp Hsub Hl. unfold pb_enc_submessage. rewrite Hp.
  by apply pb_encode_submessage_writes.
Qed.

Lemma spec_chars_length fuel p max cs :
  spec_chars fuel m p max = Some cs -> Z.of_nat (length cs) <= Z.max 0 max.
Proof.
  revert p max cs. induction fuel as [|fuel IH]; intros p max cs; cbn; [done|].
  destruct (Z.leb_spec max 0); [intros [= <-]; cbn; lia|].
  intros (c & _ & E)%bind_Some. destruct (c =? 0); [injection E as <-; cbn; lia|].
  apply bind_Some in E as (cs' & E & [= <-]). apply IH in E. cbn. lia.
Qed.

(** The dispatch through the table of encoders. *)
Lemma call_encoder_writes func f src bs :
  wf_field f ->
  PB_ENCODERS rec !! Z.to_nat (PB_LTYPE (type f)) = Some func ->
  spec_value m submsg f src = Some bs ->
  writes m (fun s => call_encoder func s f src) bs.
Proof.
  intros (_ & Hds & _) Hf Hv. unfold spec_value in Hv.
  pose proof (PB_LTYPE_range (type f)) as Hlt.
  set (lt := PB_LTYPE (type f)) in *.
  assert (lt = 0 \/ lt = 1 \/ lt = 2 \/ lt = 3 \/ lt = 4 \/ lt = 5 \/ lt = 6 \/
          lt = 7 \/ lt = 8 \/ lt = 9 \/ lt = 10 \/ 10 < lt) as Hc by lia.
  destruct Hc as [E|[E|[E|[E|[E|[E|[E|[E|[E|[E|[E|E]]]]]]]]]]].
  all: try (rewrite E in Hf, Hv; cbn -[spec_chars SIZE_MAX u64 read_bytes read_le] in Hf, Hv; injection Hf as <-;
            unfold call_encoder).
  - apply bind_Some in Hv as (b & Hb & [= <-]). by apply pb_enc_bool_writes.
  - apply bind_Some in Hv as (n & Hn & (v & Hr & [= <-])%bind_Some).
    by apply pb_enc_varint_writes.
  - apply bind_Some in Hv as (n & Hn & (v & Hr & [= <-])%bind_Some).
    by eapply pb_enc_uvarint_writes.
  - apply bind_Some in Hv as (n & Hn & (v & Hr & [= <-])%bind_Some).
    by apply pb_enc_svarint_writes.
  - pose proof (read_bytes_byte _ _ _ _ Hm Hv) as Hby.
    rewrite <- (le_bytes_le_val bs Hby), (read_bytes_length _ _ _ _ Hv).
    apply pb_encode_fixed32_writes; [done|]. unfold read_le. by rewrite Hv.
  - pose proof (read_bytes_byte _ _ _ _ Hm Hv) as Hby.
    rewrite <- (le_bytes_le_val bs Hby), (read_bytes_length _ _ _ _ Hv).
    apply pb_encode_fixed64_writes; [done|]. unfold read_le. by rewrite Hv.
  - destruct (Z.eqb_spec src NULL) as [->|Hne]; [injection Hv as <-; apply pb_enc_null_writes|].
    apply bind_Some in Hv as (n & Hn & Hv). destruct (_ && _) eqn:Hc; [done|].
    apply bind_Some in Hv as (bs' & Hr & [= <-]). by eapply pb_enc_bytes_writes.
  - destruct (Z.eqb_spec src NULL) as [->|Hne].
    { injection Hv as <-. eapply writes_ext; [|apply pb_enc_null_writes].
      intros s w _. unfold pb_enc_string. by rewrite Z.eqb_refl, bind_ret. }
    apply bind_Some in Hv as (cs & Hr & [= <-]). apply pb_enc_string_writes; [done| |done].
    apply spec_chars_length in Hr. unfold SIZE_MAX in Hr. case_match; lia.
  - destruct (ptr f) eqn:Ep; try done.
    apply bind_Some in Hv as (bs' & Hr & Hv). destruct (Z.ltb_spec (Z.of_nat (length bs')) (2 ^ 64)); [|done].
    injection Hv as <-. eapply pb_enc_submessage_writes; [done|done|lia].
  - done.
  - apply bind_Some in Hv as (bs' & Hr & [= <-]).
    eapply writes_ext; [|apply (pb_encode_mem_writes _ _ _ Hr); lia].
    intros s w Hs. unfold pb_enc_fixed_length_bytes. by rewrite Z2Nat.id by lia.
  - rewrite lookup_ge_None_2 in Hf; [done|]. cbn. lia.
Qed.

Lemma pb_encode_tag_for_field_writes f bs :
  wf_field f -> spec_tag f = Some bs ->
  writes m (fun s => pb_encode_tag_for_field s f) bs.
Proof.
  intros (Ht & _) (wt & Hw & [= <-])%bind_Some.
  assert (0 <= wt < 8) as Hwt.
  { revert Hw. unfold spec_wire_type. repeat case_match; try done;
      intros [= <-]; vm_compute; intuition discriminate. }
  eapply writes_ext; [|by apply (pb_encode_tag_writes m wt (tag f))].
  intros s w _. unfold pb_encode_tag_for_field. revert Hw. unfold spec_wire_type.
  pose proof (PB_LTYPE_range (type f)) as Hlt. set (lt := PB_LTYPE (type f)) in *.
  assert (lt = 0 \/ lt = 1 \/ lt = 2 \/ lt = 3 \/ lt = 4 \/ lt = 5 \/ lt = 6 \/
          lt = 7 \/ lt = 8 \/ lt = 9 \/ lt = 10 \/ 10 < lt) as Hc by lia.
  destruct Hc as [E|[E|[E|[E|[E|[E|[E|[E|[E|[E|[E|E]]]]]]]]]]].
  all: try (rewrite E; cbn -[pb_encode_tag]; by intros [= <-]).
  change PB_LTYPE_SVARINT with 3; change PB_LTYPE_FIXED32 with 4;
    change PB_LTYPE_FIXED64 with 5; change PB_LTYPE_EXTENSION with 9;
    change PB_LTYPE_FIXED_LENGTH_BYTES with 10.
  rewrite !(proj2 (Z.leb_gt lt _)), !(proj2 (Z.eqb_neq lt _)) by lia. done.
Qed.

Lemma spec_tagged_writes func f src bs :
  wf_field f ->
  PB_ENCODERS rec !! Z.to_nat (PB_LTYPE (type f)) = Some func ->
  spec_tagged m submsg f src = Some bs ->
  writes m (fun s => and_then (pb_encode_tag_for_field s f)
                       (fun s => call_encoder func s f src)) bs.
Proof.
  intros Hf Hfun (t & Ht & (v & Hv & [= <-])%bind_Some)%bind_Some.
  apply writes_app; [by apply pb_encode_tag_for_field_writes|by apply call_encoder_writes].
Qed.

(** *** Arrays *)

Lemma encode_items_loop_writes func f n p bs :
  wf_field f ->
  PB_ENCODERS rec !! Z.to_nat (PB_LTYPE (type f)) = Some func ->
  spec_items (spec_value m submsg f) (data_size f) n p = Some bs ->
  writes m (fun s => encode_items_loop func f n s p) bs.
Proof.
  intros Hf Hfun. revert p bs. induction n as [|n IH]; intros p bs; cbn.
  - intros [= <-]. apply writes_nil.
  - intros (b & Hb & (bs' & Hr & [= <-])%bind_Some)%bind_Some.
    apply writes_app; [by apply call_encoder_writes|by apply IH].
Qed.

Lemma encode_unpacked_loop_writes func f n p bs :
  wf_field f ->
  PB_ENCODERS rec !! Z.to_nat (PB_LTYPE (type f)) = Some func ->
  spec_items (spec_unpacked_item m submsg f) (data_size f) n p = Some bs ->
  writes m (fun s => encode_unpacked_loop func f n s p) bs.
Proof.
  intros Hf Hfun. revert p bs. induction n as [|n IH]; intros p bs; cbn [spec_items encode_unpacked_loop].
  - intros [= <-]. apply writes_nil.
  - intros (b & (t & Ht & (v & Hv & [= <-])%bind_Some)%bind_Some &
            (bs' & Hr & [= <-])%bind_Some)%bind_Some.
    rewrite <- app_assoc. apply writes_app; [by apply pb_encode_tag_for_field_writes|].
    apply writes_app; [|by apply IH].
    destruct (_ && _).
    + apply bind_Some in Hv as (q & Hq & Hv).
      eapply writes_ext; [|by eapply (call_encoder_writes func f q v)].
      intros s w Hs. by rewrite (bind_done _ _ _ _ _ (load_run _ _ _ _ _ Hq Hs)).
    + by apply call_encoder_writes.
Qed.

(** What the sizing pass over the items returns. *)
Lemma items_size_run func f count p bs w :
  wf_field f ->
  PB_ENCODERS rec !! Z.to_nat (PB_LTYPE (type f)) = Some func ->
  spec_items (spec_value m submsg f) (data_size f) (Z.to_nat count) p = Some bs ->
  Z.of_nat (length bs) < 2 ^ 64 -> m ⊆ mem w ->
  0 <= count < 2 ^ 32 -> PB_LTYPE (type f) <= PB_LTYPE_LAST_PACKABLE ->
  (if PB_LTYPE (type f) =? PB_LTYPE_FIXED32 then mret (true, u64 (4 * count))
   else if PB_LTYPE (type f) =? PB_LTYPE_FIXED64 then mret (true, u64 (8 * count))
   else
     '(ok, sizestream) ← encode_items_loop func f (Z.to_nat count) PB_OSTREAM_SIZING p;
     mret (ok : bool, o_bytes_written sizestream)) w =
  @Done (bool * Z) (true, Z.of_nat (length bs)) w.
Proof.
  intros Hf Hfun Hit Hl Hs Hc Hlt.
  assert (forall k, (forall q b, spec_value m submsg f q = Some b -> length b = k) ->
    length bs = (k * Z.to_nat count)%nat) as Hlen.
  { intros k Hk. clear Hl Hlt Hc. revert p bs Hit.
    induction (Z.to_nat count) as [|n IH]; intros p bs; cbn [spec_items].
    - intros [= <-]. cbn. lia.
    - intros (b & Hb & (bs' & Hr & [= <-])%bind_Some)%bind_Some.
      rewrite length_app, (Hk _ _ Hb), (IH _ _ Hr). lia. }
  destruct (Z.eqb_spec (PB_LTYPE (type f)) PB_LTYPE_FIXED32) as [E|_].
  { rewrite (Hlen 4%nat).
    - rewrite wrap_small by lia. unfold mret, M_ret. do 2 f_equal. lia.
    - intros q b. unfold spec_value. rewrite E. cbn. apply (read_bytes_length m q 4). }
  destruct (Z.eqb_spec (PB_LTYPE (type f)) PB_LTYPE_FIXED64) as [E|_].
  { rewrite (Hlen 8%nat).
    - rewrite wrap_small by lia. unfold mret, M_ret. do 2 f_equal. lia.
    - intros q b. unfold spec_value. rewrite E. cbn. apply (read_bytes_length m q 8). }
  pose proof (encode_items_loop_writes func f _ p bs Hf Hfun Hit) as Hw.
  destruct (Hw PB_OSTREAM_SIZING w) as (w' & E & ->); [repeat split; (done || cbn; lia)|cbn; lia|].
  rewrite (bind_done _ _ _ _ _ E), advance_written. done.
Qed.

Lemma encode_array_writes func f p count bs :
  wf_field f -> 0 <= count < 2 ^ 32 ->
  PB_ENCODERS rec !! Z.to_nat (PB_LTYPE (type f)) = Some func ->
  spec_array m submsg f p count = Some bs ->
  writes m (fun s => encode_array s f p count func) bs.
Proof.
  intros Hf Hc Hfun. unfold spec_array, encode_array.
  destruct (count =? 0); [intros [= <-]; apply writes_nil|].
  destruct (negb _ && _); [done|].
  destruct (Z.leb_spec (PB_LTYPE (type f)) PB_LTYPE_LAST_PACKABLE) as [Hlt|Hlt];
    [|by apply encode_unpacked_loop_writes].
  intros (b & Hit & H)%bind_Some.
  destruct (Z.ltb_spec (Z.of_nat (length b)) (2 ^ 64)) as [Hl|]; [|done].
  injection H as <-.
  apply writes_app; [apply pb_encode_tag_writes; [done|apply Hf]|].
  eapply writes_ext with (f := fun s => and_then (pb_encode_varint s (Z.of_nat (length b)))
    (fun stream => _)).
  { intros s w Hs.
    rewrite (bind_done _ _ _ _ _ (items_size_run _ _ _ _ _ w Hf Hfun Hit Hl Hs Hc Hlt)).
    cbn [negb]. reflexivity. }
  apply writes_app; [apply pb_encode_varint_writes; lia|].
  intros s w Hok Hn. destruct (o_callback s) eqn:Ecb.
  - rewrite bool_decide_true by done.
    rewrite decide_True by (unfold has_room; by rewrite Ecb).
    exists w. split; [|unfold emitted; by rewrite Ecb].
    apply pb_write_sizing; [done|apply Hok|lia|done].
  - rewrite bool_decide_false by done. by apply (encode_items_loop_writes func f _ p b).
  - destruct Hok as (_ & _ & _ & Hok). by rewrite Ecb in Hok.
Qed.

(** *** Fields *)

(** The address of the data: through the pointer of a pointer field. *)
Lemma field_src_run f pData (g : Z -> psize) ps src w :
  (if PB_ATYPE (type f) =? PB_ATYPE_POINTER then read_le m 8 pData else Some pData) = Some src ->
  m ⊆ mem w ->
  (if PB_ATYPE (type f) =? PB_ATYPE_POINTER then p ← load_ptr pData; mret (p, g p)
   else mret (pData, ps)) w =
  Done (src, if PB_ATYPE (type f) =? PB_ATYPE_POINTER then g src else ps) w.
Proof.
  intros Hr Hs. destruct (_ =? _); [|by injection Hr as <-].
  unfold load_ptr. by rewrite (bind_done _ _ _ _ _ (load_run _ _ _ _ _ Hr Hs)).
Qed.

(** The code up to the switch on the repetition rule. *)
Lemma encode_basic_field_run f pData src has func s w :
  (if PB_ATYPE (type f) =? PB_ATYPE_POINTER then read_le m 8 pData else Some pData) = Some src ->
  PB_ENCODERS rec !! Z.to_nat (PB_LTYPE (type f)) = Some func ->
  (PB_HTYPE (type f) = PB_HTYPE_OPTIONAL -> spec_has m depth f pData src = Some has) ->
  m ⊆ mem w ->
  exists ps,
    (size_offset f <> 0 -> ps = PSizeMem (pData + size_offset f)) /\
    (PB_HTYPE (type f) = PB_HTYPE_OPTIONAL -> psize_read_bool ps w = Done has w) /\
    encode_basic_field rec depth s f pData w =
    (let ht := PB_HTYPE (type f) in
     if ht =? PB_HTYPE_REQUIRED then
       if src =? NULL then os_return_error s "missing required field"
       else and_then (pb_encode_tag_for_field s f) (fun s => call_encoder func s f src)
     else if ht =? PB_HTYPE_OPTIONAL then
       has ← psize_read_bool ps;
       if has : bool then
         and_then (pb_encode_tag_for_field s f) (fun s => call_encoder func s f src)
       else mret (true, s)
     else if ht =? PB_HTYPE_REPEATED then
       count ← (if negb (size_offset f =? 0) then psize_read_count ps
                else mret (array_size f));
       encode_array s f src count func
     else if ht =? PB_HTYPE_ONEOF then
       which ← psize_read_count ps;
       if which =? tag f then
         and_then (pb_encode_tag_for_field s f) (fun s => call_encoder func s f src)
       else mret (true, s)
     else os_return_error s "invalid field type") w.
Proof.
  intros Hsrc Hfun Hhas Hs. unfold encode_basic_field. rewrite Hfun.
  change (of_option (Some func)) with (mret (M := M) func). rewrite bind_ret.
  destruct (Z.eqb_spec (size_offset f) 0) as [E0|E0]; cbn [negb].
  - destruct (Z.eqb_spec (PB_HTYPE (type f)) PB_HTYPE_OPTIONAL) as [Eo|Eo].
    + specialize (Hhas Eo). unfold spec_has in Hhas. rewrite E0 in Hhas. cbn [negb Z.eqb] in Hhas.
      apply bind_Some in Hhas as (d & Hd & [= <-]).
      rewrite bind_assoc, (bind_done _ _ _ _ _ (eval_run _ _ _ _ Hd Hs)), bind_ret.
      rewrite (bind_done _ _ _ _ _ (field_src_run f pData
        (fun p => PSizeLocal (negb (p =? NULL))) _ src w Hsrc Hs)).
      exists (if PB_ATYPE (type f) =? PB_ATYPE_POINTER
              then PSizeLocal (negb (src =? NULL)) else PSizeLocal (negb d)).
      split; [done|]. split; [|reflexivity]. intros _. by destruct (_ =? PB_ATYPE_POINTER).
    + rewrite bind_ret, (bind_done _ _ _ _ _ (field_src_run f pData
        (fun p => PSizeLocal (negb (p =? NULL))) _ src w Hsrc Hs)).
      exists (if PB_ATYPE (type f) =? PB_ATYPE_POINTER
              then PSizeLocal (negb (src =? NULL)) else PSizeLocal true).
      split; [done|]. split; [done|reflexivity].
  - rewrite bind_ret, (bind_done _ _ _ _ _ (field_src_run f pData
      (fun p => PSizeMem (pData + size_offset f)) _ src w Hsrc Hs)).
    exists (PSizeMem (pData + size_offset f)). split; [done|]. split.
    + intros Eo. specialize (Hhas Eo). unfold spec_has in Hhas.
      rewrite (proj2 (Z.eqb_neq _ _) E0) in Hhas. cbn [negb] in Hhas.
      apply bind_Some in Hhas as (b & Hb & [= <-]). cbn. unfold safe_read_bool.
      by rewrite (bind_done _ _ _ _ _ (load_run _ _ _ _ _ Hb Hs)).
    + by destruct (_ =? PB_ATYPE_POINTER).
Qed.

(** The bounds of a repeat count: a [pb_size_t] of the message or of the
    descriptor. *)
Lemma count_run f pData ps count w :
  wf_field f -> m ⊆ mem w ->
  (size_offset f <> 0 -> ps = PSizeMem (pData + size_offset f)) ->
  (if negb (size_offset f =? 0) then read_le m 4 (pData + size_offset f)
   else Some (array_size f)) = Some count ->
  0 <= count < 2 ^ 32 /\
  (if negb (size_offset f =? 0) then psize_read_count ps else mret (array_size f)) w =
    Done count w.
Proof.
  intros (_ & _ & Ha & _) Hs Hps Hc. destruct (Z.eqb_spec (size_offset f) 0) as [E|E]; cbn in *.
  - by injection Hc as <-.
  - rewrite (Hps E). split; [by apply (read_le_bound _ _ _ _ Hm) in Hc|].
    cbn. by rewrite (load_run _ _ _ _ _ Hc Hs).
Qed.

Lemma encode_basic_field_writes f pData bs :
  wf_field f -> spec_basic m depth submsg f pData = Some bs ->
  writes m (fun s => encode_basic_field rec depth s f pData) bs.
Proof.
  intros Hf (src & Hsrc & H)%bind_Some.
  destruct (lookup_lt_is_Some_2 (PB_ENCODERS rec) (Z.to_nat (PB_LTYPE (type f)))) as [func Hfun].
  { pose proof (PB_LTYPE_range (type f)). destruct Hf as (_ & _ & _ & Hf).
    unfold PB_LTYPE_FIXED_LENGTH_BYTES in Hf. cbn. lia. }
  destruct (PB_HTYPE_cases (type f)) as [E|[E|[E|E]]]; rewrite E in H; cbn in H.
  - destruct (src =? NULL) eqn:En; [done|].
    eapply writes_ext; [|by apply (spec_tagged_writes func f src bs)].
    intros s w Hs.
    destruct (encode_basic_field_run f pData src true func s w Hsrc Hfun) as (ps & _ & _ & ->);
      [by rewrite E|done|]. rewrite E. cbn. by rewrite En.
  - apply bind_Some in H as (has & Hhas & H).
    eapply (writes_ext m (fun s => if has : bool then and_then (pb_encode_tag_for_field s f)
      (fun s => call_encoder func s f src) else mret (M := M) (true, s))).
    + intros s w Hs.
      destruct (encode_basic_field_run f pData src has func s w Hsrc Hfun)
        as (ps & _ & Hps & ->); [done|done|]. rewrite E. cbn.
      rewrite (bind_done _ _ _ _ _ (Hps E)). done.
    + destruct has; [by apply spec_tagged_writes|injection H as <-; apply writes_nil].
  - apply bind_Some in H as (count & Hc & H).
    eapply (writes_ext m (fun s => encode_array s f src count func)).
    + intros s w Hs.
      destruct (encode_basic_field_run f pData src true func s w Hsrc Hfun)
        as (ps & Hps & _ & ->); [by rewrite E|done|]. rewrite E. cbn.
      destruct (count_run f pData ps count w Hf Hs Hps Hc) as [_ Hrun].
      by rewrite (bind_done _ _ _ _ _ Hrun).
    + apply encode_array_writes; [done| |done|done].
      revert Hc. destruct (negb _).
      * intros Hc%(read_le_bound _ _ _ _ Hm). done.
      * intros [= <-]. apply Hf.
  - destruct (size_offset f =? 0) eqn:E0; [done|].
    apply bind_Some in H as (which & Hw & H).
    eapply (writes_ext m (fun s => if which =? tag f then and_then (pb_encode_tag_for_field s f)
      (fun s => call_encoder func s f src) else mret (M := M) (true, s))).
    + intros s w Hs.
      destruct (encode_basic_field_run f pData src true func s w Hsrc Hfun)
        as (ps & Hps & _ & ->); [by rewrite E|done|]. rewrite E. cbn.
      rewrite Hps by lia. cbn. by rewrite (bind_done _ _ _ _ _ (load_run _ _ _ _ _ Hw Hs)).
    + destruct (which =? tag f); [by apply spec_tagged_writes|injection H as <-; apply writes_nil].
Qed.

(** Code that turns a failure of [f] into an error keeps what it writes. *)
Lemma writes_callback_error f msg bs :
  writes m f bs ->
  writes m (fun s => '(ok, s) ← f s;
              if ok : bool then mret (true, s) else os_return_error s msg) bs.
Proof.
  intros Hf s w Hok Hn. specialize (Hf s w Hok Hn). destruct (decide _).
  - destruct Hf as (w' & E & Hw). exists w'. by rewrite (bind_done _ _ _ _ _ E).
  - destruct Hf as (s' & w' & E & Hc). eexists _, w'. by rewrite (bind_done _ _ _ _ _ E).
Qed.

Lemma encode_field_writes f pData bs :
  wf_field f -> spec_field m depth submsg f pData = Some bs ->
  writes m (fun s => encode_field rec depth s f pData) bs.
Proof.
  intros Hf. unfold spec_field, encode_field.
  destruct (Z.eqb_spec (PB_ATYPE (type f)) PB_ATYPE_CALLBACK) as [->|Hne].
  - cbn. intros (fn & Hfn & H)%bind_Some.
    eapply writes_ext.
    { intros s w Hs. unfold encode_callback_field, load_ptr.
      rewrite (bind_done _ _ _ _ _ (load_run _ _ _ _ _ Hfn Hs)). reflexivity. }
    destruct (fn =? NULL); cbn [negb]; [injection H as <-; apply writes_nil|].
    by apply writes_callback_error, user_encode_writes.
  - destruct (_ || _); [|done]. by apply encode_basic_field_writes.
Qed.

(** *** Extensions and messages *)

Hypothesis Hwf : WfDescriptors.

Lemma deref_wf r f : deref_field r = Some f -> wf_field f.
Proof. unfold deref_field. intros H. eapply Forall_lookup_1; [apply Hwf|done]. Qed.

Lemma default_extension_encoder_writes ty et ext bs :
  read_le m 8 ext = Some ty -> extension_type_at ty = Some et -> ext_encode et = NULL ->
  spec_extension m depth submsg et ext = Some bs ->
  writes m (fun s => default_extension_encoder rec depth s ext) bs.
Proof.
  intros Hty Het He. unfold spec_extension. rewrite He. cbn.
  intros (f & Hf & H)%bind_Some.
  eapply writes_ext with (f := fun s =>
    if PB_ATYPE (type f) =? PB_ATYPE_POINTER then encode_field rec depth s f (ext + 8)
    else dest ← load_ptr (ext + 8); encode_field rec depth s f dest).
  { intros s w Hs. unfold default_extension_encoder, load_ptr, pb_extension_type_off.
    rewrite Z.add_0_r, (bind_done _ _ _ _ _ (load_run _ _ _ _ _ Hty Hs)), Het.
    change (of_option (Some et)) with (mret (M := M) et). by rewrite bind_ret, Hf. }
  destruct (_ =? _).
  - by apply encode_field_writes; [eapply deref_wf|].
  - apply bind_Some in H as (dest & Hd & H).
    eapply writes_ext; [|by apply (encode_field_writes f dest bs); [eapply deref_wf|]].
    intros s w Hs. unfold load_ptr. by rewrite (bind_done _ _ _ _ _ (load_run _ _ _ _ _ Hd Hs)).
Qed.

Lemma encode_extension_loop_writes fuel ext bs :
  spec_extensions m depth submsg fuel ext = Some bs ->
  writes m (fun s => encode_extension_loop rec fuel depth s ext) bs.
Proof.
  revert ext bs. induction fuel as [|fuel IH]; intros ext bs; cbn.
  { destruct (ext =? NULL); [|done]. intros [= <-]. apply writes_nil. }
  destruct (ext =? NULL); [intros [= <-]; apply writes_nil|].
  intros (ty & Hty & (et & Het & (b & Hb & (next & Hnx & (b' & Hr & [= <-])
    %bind_Some)%bind_Some)%bind_Some)%bind_Some)%bind_Some.
  eapply writes_ext with (f := fun s => and_then
    (if negb (ext_encode et =? NULL) then user_ext_encode (ext_encode et) s ext
     else default_extension_encoder rec depth s ext)
    (fun s => next ← load_ptr (ext + 16); encode_extension_loop rec fuel depth s next)).
  { intros s w Hs. unfold load_ptr, pb_extension_type_off.
    rewrite Z.add_0_r, (bind_done _ _ _ _ _ (load_run _ _ _ _ _ Hty Hs)), Het.
    change (of_option (Some et)) with (mret (M := M) et). by rewrite bind_ret. }
  apply writes_app.
  - destruct (negb _) eqn:He.
    + apply user_ext_encode_writes. unfold spec_extension in Hb. by rewrite He in Hb.
    + eapply default_extension_encoder_writes; try done. apply negb_false_iff in He. lia.
  - eapply writes_ext; [|by apply (IH next)].
    intros s w Hs. unfold load_ptr. by rewrite (bind_done _ _ _ _ _ (load_run _ _ _ _ _ Hnx Hs)).
Qed.

Lemma encode_fields_loop_writes fuel iter bs :
  spec_fields m depth submsg fuel iter = Some bs ->
  writes m (fun s => encode_fields_loop rec fuel depth s iter) bs.
Proof.
  revert iter bs. induction fuel as [|fuel IH]; intros iter bs; cbn; [done|].
  intros (f & Hf & (b & Hb & ([more iter'] & Hn & H)%bind_Some)%bind_Some)%bind_Some.
  rewrite Hf, Hn. cbn.
  assert (exists b', bs = b ++ b' /\
    writes m (fun s => if more then encode_fields_loop rec fuel depth s iter'
                       else mret (M := M) (true, s)) b') as (b' & -> & Hw).
  { destruct more.
    - apply bind_Some in H as (b' & Hr & [= <-]). eauto.
    - injection H as <-. exists []. split; [done|apply writes_nil]. }
  eapply writes_ext; [intros s w Hs; rewrite bind_ret; reflexivity|].
  apply writes_app; [|exact Hw].
  destruct (_ =? _).
  - apply bind_Some in Hb as (ext & He & Hb).
    eapply writes_ext; [|by apply (encode_extension_loop_writes depth ext)].
    intros s w Hs. unfold encode_extension_field, load_ptr.
    by rewrite (bind_done _ _ _ _ _ (load_run _ _ _ _ _ He Hs)).
  - by apply encode_field_writes; [eapply deref_wf|].
Qed.

End Refinement.

(** ** The message *)

Section Message.
Context {PD : PbDescriptors} {WF : WfDescriptors}.
Context {EC : EncCallbacks} {ES : EncCallbackSpec}.

Theorem pb_encode_writes depth m fields src bs :
  wf_mem m -> spec_message depth m fields src = Some bs ->
  writes m (fun s => pb_encode depth s fields src) bs.
Proof.
  intros Hm. revert fields src bs. induction depth as [|depth IH]; intros fields src bs; [done|].
  cbn [spec_message pb_encode].
  intros ([nonempty iter] & Hb & H)%bind_Some. rewrite Hb.
  cbn [of_option].
  eapply (writes_ext m (fun s => if nonempty then
    encode_fields_loop (pb_encode depth) (array_fuel fields) (S depth) s iter
    else mret (M := M) (true, s))); [by destruct nonempty|].
  destruct nonempty; [|injection H as <-; apply writes_nil].
  by apply (encode_fields_loop_writes m (S depth) Hm (pb_encode depth) (spec_message depth m)).
Qed.

(** *** Streams over a memory buffer *)

(** The message lies in [m], the buffer of [size] bytes at [buf] is allocated
    and apart from it. *)
Definition buffer_for (m : gmap Z Z) (w : world) (buf size : Z) : Prop :=
  m ⊆ mem w /\ 0 <= size < 2 ^ 64 /\ mapped (mem w) buf size /\
  forall x, buf <= x < buf + size -> m !! x = None.

Lemma stream_ok_from_buffer m w buf size :
  buffer_for m w buf size -> stream_ok m (pb_ostream_from_buffer buf size) w.
Proof.
  intros (Hs & Hz & Hma & Hd). unfold stream_ok, pb_ostream_from_buffer. cbn.
  rewrite Z.sub_0_r. repeat split; (done || lia).
Qed.

(** The buffer holds [bs] after a successful run, and nothing else changed. *)
Definition buffer_holds (w w' : world) (buf : Z) (bs : list Z) : Prop :=
  read_bytes (mem w') buf (length bs) = Some bs /\
  forall x, ~ (buf <= x < buf + Z.of_nat (length bs)) -> mem w' !! x = mem w !! x.

Lemma writes_to_buffer m (f : pb_ostream_t -> ores) bs w buf size :
  writes m f bs -> buffer_for m w buf size ->
  Z.of_nat (length bs) <= size ->
  exists s' w', f (pb_ostream_from_buffer buf size) w = Done (true, s') w' /\
    o_bytes_written s' = Z.of_nat (length bs) /\ buffer_holds w w' buf bs.
Proof.
  intros Hw Hb Hl.
  specialize (Hw _ w (stream_ok_from_buffer _ _ _ _ Hb)). cbn [o_bytes_written] in Hw.
  destruct Hb as (_ & Hz & _). specialize (Hw ltac:(cbn; lia)).
  rewrite decide_True in Hw by (unfold has_room; cbn; lia).
  destruct Hw as (w' & E & (m' & Hm' & ->)). eexists _, _. split; [exact E|].
  rewrite advance_written. split; [done|].
  by apply write_bytes_inv in Hm' as (_ & Hr & Hf).
Qed.

Lemma writes_overflows_buffer m (f : pb_ostream_t -> ores) bs w buf size :
  writes m f bs -> buffer_for m w buf size ->
  size < Z.of_nat (length bs) < 2 ^ 64 ->
  exists s' w', f (pb_ostream_from_buffer buf size) w = Done (false, s') w' /\
    forall x, ~ (buf <= x < buf + size) -> mem w' !! x = mem w !! x.
Proof.
  intros Hw Hb Hl.
  specialize (Hw _ w (stream_ok_from_buffer _ _ _ _ Hb)). specialize (Hw ltac:(cbn; lia)).
  rewrite decide_False in Hw by (unfold has_room; cbn; lia).
  destruct Hw as (s' & w' & E & Hc). exists s', w'. split; [done|].
  intros x Hx. apply Hc. cbn. by rewrite Z.sub_0_r.
Qed.

(** C1: encoding a message into a memory buffer succeeds when its encoding
    [bs] fits, stores exactly those bytes at the start of the buffer, counts
    them in [bytes_written], and changes no other byte of memory. *)
Theorem pb_encode_exact depth m fields src bs w buf size :
  wf_mem m -> spec_message depth m fields src = Some bs ->
  buffer_for m w buf size -> Z.of_nat (length bs) <= size ->
  exists s' w',
    pb_encode depth (pb_ostream_from_buffer buf size) fields src w = Done (true, s') w' /\
    o_bytes_written s' = Z.of_nat (length bs) /\ buffer_holds w w' buf bs.
Proof.
  intros Hm Hs Hb Hl.
  exact (writes_to_buffer m _ bs w buf size (pb_encode_writes _ _ _ _ _ Hm Hs) Hb Hl).
Qed.

(** C29: when the encoding does not fit the buffer, [pb_encode] returns false
    and has not changed a byte outside the buffer. *)
Theorem pb_encode_overflow depth m fields src bs w buf size :
  wf_mem m -> spec_message depth m fields src = Some bs ->
  buffer_for m w buf size -> size < Z.of_nat (length bs) < 2 ^ 64 ->
  exists s' w',
    pb_encode depth (pb_ostream_from_buffer buf size) fields src w = Done (false, s') w' /\
    forall x, ~ (buf <= x < buf + size) -> mem w' !! x = mem w !! x.
Proof.
  intros Hm Hs Hb Hl.
  exact (writes_overflows_buffer m _ bs w buf size (pb_encode_writes _ _ _ _ _ Hm Hs) Hb Hl).
Qed.

(** C28: [pb_get_encoded_size] returns the number of bytes [pb_encode] writes,
    and changes no memory. *)
Theorem pb_get_encoded_size_exact depth m fields src bs w :
  wf_mem m -> spec_message depth m fields src = Some bs -> m ⊆ mem w ->
  Z.of_nat (length bs) < 2 ^ 64 ->
  pb_get_encoded_size depth fields src w =
    Done (true, Some (Z.of_nat (length bs))) w.
Proof.
  intros Hm Hs Hsub Hl. unfold pb_get_encoded_size.
  destruct (pb_encode_writes _ _ _ _ _ Hm Hs PB_OSTREAM_SIZING w) as (w' & E & ->);
    [repeat split; (done || cbn; lia)|cbn; lia|].
  rewrite (bind_done _ _ _ _ _ E). cbn [negb]. by rewrite advance_written.
Qed.

(** C38: [pb_encode_delimited] writes the length of the message as a varint and
    then the message; its two passes over the message agree, so the error
    "submsg size changed" is never reached. *)
Theorem pb_encode_delimited_exact depth m fields src bs w buf size :
  wf_mem m -> spec_message depth m fields src = Some bs ->
  buffer_for m w buf size -> Z.of_nat (length (delimited bs)) <= size ->
  exists s' w',
    pb_encode_delimited depth (pb_ostream_from_buffer buf size) fields src w =
      Done (true, s') w' /\
    o_bytes_written s' = Z.of_nat (length (delimited bs)) /\
    buffer_holds w w' buf (delimited bs).
Proof.
  intros Hm Hs Hb Hl.
  apply (writes_to_buffer m (fun s => pb_encode_delimited depth s fields src)); [|done..].
  apply (pb_encode_submessage_writes m (pb_encode depth) (spec_message depth m)); [|done|].
  - intros. by apply pb_encode_writes.
  - unfold delimited in Hl. rewrite length_app in Hl. destruct Hb as (_ & Hz & _). lia.
Qed.

(** [pb_encode_nullterminated] writes the message and then a zero byte. *)
Theorem pb_encode_nullterminated_exact depth m fields src bs w buf size :
  wf_mem m -> spec_message depth m fields src = Some bs ->
  buffer_for m w buf size -> Z.of_nat (length (bs ++ [0])) <= size ->
  exists s' w',
    pb_encode_nullterminated depth (pb_ostream_from_buffer buf size) fields src w =
      Done (true, s') w' /\
    o_bytes_written s' = Z.of_nat (length (bs ++ [0])) /\ buffer_holds w w' buf (bs ++ [0]).
Proof.
  intros Hm Hs Hb Hl.
  apply (writes_to_buffer m (fun s => pb_encode_nullterminated depth s fields src)); [|done..].
  apply writes_app; [by apply pb_encode_writes|].
  apply (pb_write_writes m (WLocal [0]) [0]); [|done].
  constructor; [unfold is_byte; lia|constructor].
Qed.

End Message.

(** ** Witnesses: the Crashlytics report *)

(** An application without stream, field or extension callbacks. *)
#[export] Instance no_enc_callbacks : EncCallbacks := {
  user_write _ _ _ _ := fault;
  user_encode _ _ _ _ := fault;
  user_ext_encode _ _ _ := fault
}.

#[export] Instance no_enc_callback_spec : EncCallbackSpec.
Proof. refine {| user_encode_bytes _ _ _ _ := None; user_ext_encode_bytes _ _ _ := None |}; done. Defined.

#[export] Instance crashlytics_wf : WfDescriptors.
Proof.
  intros [|[|[|id]]]; [refine (bool_decide_unpack _ _); vm_compute; exact I..|constructor].
Qed.

Definition example_report_bytes : list Z :=
  [10; 5; 49; 48; 46; 49; 53; 32; 7; 82; 12; 10; 10; 10; 3; 97; 46; 98; 18; 3; 1; 2; 3].

(** The report of [example_report_mem] and an output buffer of 64 zero bytes. *)
Definition example_world : world :=
  world_of (map_region example_report_mem 16384 (replicate 64 0)) 65536 131072.

Example spec_example_report :
  spec_message 4 example_report_mem report_ref example_report_addr =
    Some example_report_bytes.
Proof. vm_compute. reflexivity. Qed.

Lemma example_wf_mem : wf_mem example_report_mem.
Proof. apply wf_mem_check. vm_compute. reflexivity. Qed.

Lemma example_buffer size :
  0 <= size <= 64 -> buffer_for example_report_mem example_world 16384 size.
Proof.
  intros Hs. split; [apply subset_check; vm_compute; reflexivity|split; [lia|split]].
  - intros x Hx. apply (mapped_check _ 16384 64); [vm_compute; reflexivity|lia].
  - intros x Hx. apply (apart_check _ 16384 64); [vm_compute; reflexivity|lia].
Qed.

Lemma pb_encode_exact_witness :
  exists s' w',
    pb_encode 4 (pb_ostream_from_buffer 16384 64) report_ref example_report_addr
      example_world = Done (true, s') w' /\
    o_bytes_written s' = Z.of_nat (length example_report_bytes) /\ buffer_holds example_world w' 16384 example_report_bytes.
Proof.
  apply (pb_encode_exact 4 example_report_mem report_ref example_report_addr
           example_report_bytes example_world 16384 64).
  - exact example_wf_mem.
  - exact spec_example_report.
  - apply example_buffer. lia.
  - vm_compute. discriminate.
Defined.

Lemma pb_encode_overflow_witness :
  exists s' w',
    pb_encode 4 (pb_ostream_from_buffer 16384 22) report_ref example_report_addr
      example_world = Done (false, s') w' /\
    forall x, ~ (16384 <= x < 16384 + 22) -> mem w' !! x = mem example_world !! x.
Proof.
  apply (pb_encode_overflow 4 example_report_mem report_ref example_report_addr
           example_report_bytes).
  - exact example_wf_mem.
  - exact spec_example_report.
  - apply example_buffer. lia.
  - repeat split; vm_compute; reflexivity.
Defined.

Lemma pb_get_encoded_size_exact_witness :
  pb_get_encoded_size 4 report_ref example_report_addr example_world =
    Done (true, Some (Z.of_nat (length example_report_bytes))) example_world.
Proof.
  apply (pb_get_encoded_size_exact 4 example_report_mem report_ref example_report_addr
           example_report_bytes).
  - exact example_wf_mem.
  - exact spec_example_report.
  - apply (example_buffer 64). lia.
  - repeat split; vm_compute; reflexivity.
Defined.

Lemma pb_encode_delimited_exact_witness :
  exists s' w',
    pb_encode_delimited 4 (pb_ostream_from_buffer 16384 64) report_ref
      example_report_addr example_world = Done (true, s') w' /\
    o_bytes_written s' = Z.of_nat (length (delimited example_report_bytes)) /\
    buffer_holds example_world w' 16384 (delimited example_report_bytes).
Proof.
  apply (pb_encode_delimited_exact 4 example_report_mem report_ref example_report_addr
           example_report_bytes example_world 16384 64).
  - exact example_wf_mem.
  - exact spec_example_report.
  - apply example_buffer. lia.
  - vm_compute. discriminate.
Defined.

Lemma pb_encode_nullterminated_exact_witness :
  exists s' w',
    pb_encode_nullterminated 4 (pb_ostream_from_buffer 16384 64) report_ref
      example_report_addr example_world = Done (true, s') w' /\
    o_bytes_written s' = Z.of_nat (length (example_report_bytes ++ [0])) /\
    buffer_holds example_world w' 16384 (example_report_bytes ++ [0]).
Proof.
  apply (pb_encode_nullterminated_exact 4 example_report_mem report_ref
           example_report_addr example_report_bytes example_world 16384 64).
  - exact example_wf_mem.
  - exact spec_example_report.
  - apply example_buffer. lia.
  - vm_compute. discriminate.
Defined.
