(* ===== verification/PbRelease.v ===== *)
(** nanopb's initialisation and release of messages (pb_decode.c):
    [pb_message_set_to_defaults] and [pb_release], with the iterator of an
    extension field. The recursion over submessages and extensions carries a
    depth; a cyclic extension list, on which the code does not terminate, is a
    [Timeout]. *)
From S2P Require Import Prelude Memory PbTypes.

Section Release.
Context {PD : PbDescriptors}.

Definition iter_field (iter : pb_field_iter_t) : M pb_field_t :=
  of_option (deref_field (pos iter)).

(** [(const pb_field_t* )iter->pos->ptr]: submessage descriptors. *)
Definition submsg_of (field : pb_field_t) : M field_ref :=
  match ptr field with PtrSubmsg fields => mret (fields, 0%nat) | _ => fault end.

Definition iter_with (iter : pb_field_iter_t) (d s : Z) : pb_field_iter_t :=
  PbFieldIter (start iter) (pos iter) (required_field_index iter) (dest_struct iter) d s.

Definition load_extension_type (extension : Z) : M pb_extension_type_t :=
  t ← load_ptr (extension + pb_extension_type_off);
  of_option (extension_type_at t).

Definition iter_from_extension (extension : Z) : M pb_field_iter_t :=
  ty ← load_extension_type extension;
  dest ← load_ptr (extension + pb_extension_dest_off);
  '(_, iter) ← of_option (pb_field_iter_begin (ext_arg ty) dest);
  field ← of_option (deref_field (ext_arg ty));
  let iter := iter_with iter dest (extension + pb_extension_found_off) in
  mret (if PB_ATYPE (type field) =? PB_ATYPE_POINTER
        then iter_with iter (extension + pb_extension_dest_off) (pSize iter) else iter).

(** [do { step(&iter); } while (pb_field_iter_next(&iter));] *)
Fixpoint fields_loop (step : pb_field_iter_t -> M unit) (fuel : nat) (iter : pb_field_iter_t) :
    M unit :=
  match fuel with
  | O => timeout
  | S fuel' =>
      step iter ;;
      '(more, iter) ← of_option (pb_field_iter_next iter);
      if more : bool then fields_loop step fuel' iter else mret tt
  end.

(** [while (ext != NULL) { ...; ext = ext->next; }]; every structure of an
    acyclic list takes up memory, whose size is the fuel. *)
Fixpoint extensions_loop (step : Z -> M unit) (fuel : nat) (ext : Z) : M unit :=
  match fuel with
  | O => timeout
  | S fuel' =>
      if ext =? NULL then mret tt
      else
        step ext ;;
        next ← load_ptr (ext + pb_extension_next_off);
        extensions_loop step fuel' next
  end.

Definition walk_extensions (step : Z -> M unit) (ext : Z) : M unit :=
  fun w => extensions_loop step (S (size (mem w))) ext w.

(** ** Default values *)

Definition pb_message_set_to_defaults_with (set_default : pb_field_iter_t -> M unit)
    (fields : field_ref) (dest_struct : Z) : M unit :=
  '(nonempty, iter) ← of_option (pb_field_iter_begin fields dest_struct);
  if negb nonempty then mret tt
  else fields_loop set_default (array_fuel fields) iter.

Fixpoint pb_field_set_to_default (depth : nat) (iter : pb_field_iter_t) : M unit :=
  match depth with
  | O => timeout
  | S depth' =>
      field ← iter_field iter;
      let ty := type field in
      if PB_LTYPE ty =? PB_LTYPE_EXTENSION then
        ext ← load_ptr (pData iter);
        walk_extensions (fun ext =>
          store 1 (ext + pb_extension_found_off) 0 ;;
          ext_iter ← iter_from_extension ext;
          pb_field_set_to_default depth' ext_iter) ext
      else if PB_ATYPE ty =? PB_ATYPE_STATIC then
        init_data ←
          (if (PB_HTYPE ty =? PB_HTYPE_OPTIONAL) && negb (pSize iter =? pData iter) then
             store 1 (pSize iter) 0 ;; mret true
           else if (PB_HTYPE ty =? PB_HTYPE_REPEATED) || (PB_HTYPE ty =? PB_HTYPE_ONEOF) then
             store 4 (pSize iter) 0 ;; mret false
           else mret true);
        if init_data : bool then
          if PB_LTYPE ty =? PB_LTYPE_SUBMESSAGE then
            fields ← submsg_of field;
            pb_message_set_to_defaults_with (pb_field_set_to_default depth') fields (pData iter)
          else
            match ptr field with
            | PtrNull => memset (pData iter) 0 (data_size field)
            | PtrDefault value =>
                if Z.of_nat (length value) <? data_size field then fault
                else store_bytes (pData iter) (take (Z.to_nat (data_size field)) value)
            | PtrSubmsg _ => fault
            end
        else mret tt
      else if PB_ATYPE ty =? PB_ATYPE_POINTER then
        store_ptr (pData iter) NULL ;;
        if (PB_HTYPE ty =? PB_HTYPE_REPEATED) || (PB_HTYPE ty =? PB_HTYPE_ONEOF) then
          store 4 (pSize iter) 0
        else mret tt
      else mret tt
  end.

Definition pb_message_set_to_defaults (depth : nat) (fields : field_ref) (dest_struct : Z) :
    M unit :=
  pb_message_set_to_defaults_with (pb_field_set_to_default depth) fields dest_struct.

(** ** Release *)

Definition pb_release_with (release_single : pb_field_iter_t -> M unit)
    (fields : field_ref) (dest_struct : Z) : M unit :=
  if dest_struct =? NULL then mret tt
  else
    '(nonempty, iter) ← of_option (pb_field_iter_begin fields dest_struct);
    if negb nonempty then mret tt
    else fields_loop release_single (array_fuel fields) iter.

(** [for (; count > 0; count--) { pb_release(ptr, pItem); pItem += data_size; }] *)
Fixpoint release_items_loop (release : Z -> M unit) (data_size : Z) (count : nat) (pItem : Z) :
    M unit :=
  match count with
  | O => mret tt
  | S count' =>
      release pItem ;; release_items_loop release data_size count' (pItem + data_size)
  end.

(** [for (; count > 0; count--) { pb_free( *pItem); *pItem++ = NULL; }] *)
Fixpoint free_items_loop (count : nat) (pItem : Z) : M unit :=
  match count with
  | O => mret tt
  | S count' =>
      p ← load_ptr pItem;
      c_free p ;;
      store_ptr pItem NULL ;;
      free_items_loop count' (pItem + 8)
  end.

(** How many submessages [pb_release_single_field] releases. *)
Definition release_count (field : pb_field_t) (iter : pb_field_iter_t) : M Z :=
  let ty := type field in
  if PB_HTYPE ty =? PB_HTYPE_REPEATED then
    count ← (if (PB_ATYPE ty =? PB_ATYPE_STATIC) && (pSize iter =? pData iter)
             then mret (array_size field)
             else load 4 (pSize iter));
    mret (if (PB_ATYPE ty =? PB_ATYPE_STATIC) && (array_size field <? count)
          then array_size field else count)
  else mret 1.

(** The release of a pointer field itself, after its contents. *)
Definition release_pointer (field : pb_field_t) (iter : pb_field_iter_t) : M unit :=
  let ty := type field in
  (if (PB_HTYPE ty =? PB_HTYPE_REPEATED) &&
      ((PB_LTYPE ty =? PB_LTYPE_STRING) || (PB_LTYPE ty =? PB_LTYPE_BYTES)) then
     pItem ← load_ptr (pData iter);
     count ← load 4 (pSize iter);
     free_items_loop (Z.to_nat count) pItem
   else mret tt) ;;
  (if PB_HTYPE ty =? PB_HTYPE_REPEATED then store 4 (pSize iter) 0 else mret tt) ;;
  p ← load_ptr (pData iter);
  c_free p ;;
  store_ptr (pData iter) NULL.

Fixpoint pb_release_single_field (depth : nat) (iter : pb_field_iter_t) : M unit :=
  match depth with
  | O => timeout
  | S depth' =>
      field ← iter_field iter;
      let ty := type field in
      stale ← (if PB_HTYPE ty =? PB_HTYPE_ONEOF then
                 which ← load 4 (pSize iter);
                 mret (negb (which =? tag field))
               else mret false);
      if stale : bool then mret tt
      else
        (if PB_LTYPE ty =? PB_LTYPE_EXTENSION then
           ext ← load_ptr (pData iter);
           walk_extensions (fun ext =>
             ext_iter ← iter_from_extension ext;
             pb_release_single_field depth' ext_iter) ext
         else if (PB_LTYPE ty =? PB_LTYPE_SUBMESSAGE) &&
                 negb (PB_ATYPE ty =? PB_ATYPE_CALLBACK) then
           pItem ← (if PB_ATYPE ty =? PB_ATYPE_POINTER then load_ptr (pData iter)
                    else mret (pData iter));
           count ← release_count field iter;
           if pItem =? NULL then mret tt
           else
             release_items_loop (fun pItem =>
               fields ← submsg_of field;
               pb_release_with (pb_release_single_field depth') fields pItem)
               (data_size field) (Z.to_nat count) pItem
         else mret tt) ;;
        (if PB_ATYPE ty =? PB_ATYPE_POINTER then release_pointer field iter else mret tt)
  end.

Definition pb_release (depth : nat) (fields : field_ref) (dest_struct : Z) : M unit :=
  pb_release_with (pb_release_single_field depth) fields dest_struct.

End Release.
