(* ===== verification/PbDecode.v ===== *)
(** nanopb's decoder (pb_decode.c), function by function, as built with
    PB_ENABLE_MALLOC and PB_FIELD_32BIT.

    An input stream is passed to and returned from every function that has a
    pointer to it. Stream callbacks, field callbacks and extension decoders of
    the application are the parameter [DecCallbacks]. *)
From S2P Require Import Prelude Memory PbTypes.

(** ** Input streams *)

Inductive istream_callback :=
  | IcbBufRead
  | IcbUser (fn : Z).

#[global] Instance istream_callback_eq_dec : EqDecision istream_callback.
Proof. solve_decision. Defined.

(** The [state] of a stream: a pointer, or what is left of a local array. *)
Inductive istream_state :=
  | IsPtr (p : Z)
  | IsLocal (bs : list Z).

Record pb_istream_t := PbIstream {
  i_callback : istream_callback;
  i_state : istream_state;
  i_bytes_left : Z;
  i_errmsg : option string
}.

(** The [pb_byte_t *buf] of a read: null, a local array, or memory. *)
Inductive rdest :=
  | RNull
  | RLocal
  | RMem (p : Z).

Definition ires : Type := M (bool * pb_istream_t).

(** A read returns the bytes it stores in a local array; [None] is false. *)
Definition rres : Type := M (option (list Z) * pb_istream_t).

Class DecCallbacks := {
  user_read : Z -> pb_istream_t -> rdest -> Z -> rres;
  user_decode : Z -> pb_istream_t -> pb_field_t -> Z -> ires;
  user_ext_decode : Z -> pb_istream_t -> Z -> Z -> Z -> ires
}.

Definition is_set_error (s : pb_istream_t) (msg : string) : pb_istream_t :=
  PbIstream (i_callback s) (i_state s) (i_bytes_left s) (PB_SET_ERROR (i_errmsg s) msg).

Definition is_return_error (s : pb_istream_t) (msg : string) : ires :=
  mret (false, is_set_error s msg).

(** The same in a function with an output parameter. *)
Definition is_return_none {A} (s : pb_istream_t) (msg : string) : M (option A * pb_istream_t) :=
  mret (None, is_set_error s msg).

Definition is_with_left (s : pb_istream_t) (n : Z) : pb_istream_t :=
  PbIstream (i_callback s) (i_state s) n (i_errmsg s).

Definition is_with_state (s : pb_istream_t) (st : istream_state) : pb_istream_t :=
  PbIstream (i_callback s) st (i_bytes_left s) (i_errmsg s).

Definition pb_istream_from_buffer (buf : istream_state) (bufsize : Z) : pb_istream_t :=
  PbIstream IcbBufRead buf bufsize None.

(** [for (i = 0; i < count; i++) buf[i] = source[i];] with [n] rounds to go. *)
Fixpoint buf_read_loop (buf : rdest) (source : istream_state) (i n : nat) : M (list Z) :=
  match n with
  | O => mret []
  | S n' =>
      b ← match source with
          | IsPtr p => load 1 (p + Z.of_nat i)
          | IsLocal bs => of_option (bs !! i)
          end;
      match buf with RMem q => store 1 (q + Z.of_nat i) b | _ => mret tt end ;;
      bs ← buf_read_loop buf source (S i) n';
      mret (b :: bs)
  end.

(** [(pb_byte_t* )stream->state + count] *)
Definition state_add (st : istream_state) (count : Z) : istream_state :=
  match st with
  | IsPtr p => IsPtr (p + count)
  | IsLocal bs => IsLocal (drop (Z.to_nat count) bs)
  end.

Definition buf_read (stream : pb_istream_t) (buf : rdest) (count : Z) : rres :=
  let source := i_state stream in
  let stream := is_with_state stream (state_add source count) in
  bs ← match buf with
       | RNull => mret []
       | _ => buf_read_loop buf source 0 (Z.to_nat count)
       end;
  mret (Some bs, stream).

Section Decoder.
Context {PD : PbDescriptors} {DC : DecCallbacks}.

Definition call_read_callback (stream : pb_istream_t) (buf : rdest) (count : Z) : rres :=
  match i_callback stream with
  | IcbBufRead => buf_read stream buf count
  | IcbUser fn => user_read fn stream buf count
  end.

(** [pb_read] past the null-buffer case, for a positive count. *)
Definition pb_read_bytes (stream : pb_istream_t) (buf : rdest) (count : Z) : rres :=
  if i_bytes_left stream <? count then is_return_none stream "end-of-stream"
  else
    '(r, s) ← call_read_callback stream buf count;
    match r with
    | None => is_return_none s "io error"
    | Some bs => mret (Some bs, is_with_left s (u64 (i_bytes_left s - count)))
    end.

(** [while (count > 16) { pb_read(stream, tmp, 16); count -= 16; }
    return pb_read(stream, tmp, count);] *)
Fixpoint pb_read_skip_loop (fuel : nat) (stream : pb_istream_t) (count : Z) : rres :=
  match fuel with
  | O => timeout
  | S fuel' =>
      if 16 <? count then
        _,, s <-! pb_read_bytes stream RLocal 16;
        pb_read_skip_loop fuel' s (count - 16)
      else pb_read_bytes stream RLocal count
  end.

Definition pb_read (stream : pb_istream_t) (buf : rdest) (count : Z) : rres :=
  if count =? 0 then mret (Some [], stream)
  else
    match buf with
    | RNull =>
        if bool_decide (i_callback stream ≠ IcbBufRead) then
          pb_read_skip_loop (S (Z.to_nat (count / 16))) stream count
        else pb_read_bytes stream RNull count
    | _ => pb_read_bytes stream buf count
    end.

(** [if (!pb_read(...)) return false; ...] where the bytes are in memory. *)
Definition pb_read_ (stream : pb_istream_t) (buf : rdest) (count : Z) : ires :=
  _,, s <-& pb_read stream buf count;
  mret (true, s).

(** The byte [buf[0]] of a one-byte read into a local. *)
Definition pb_readbyte (stream : pb_istream_t) : M (option Z * pb_istream_t) :=
  if i_bytes_left stream =? 0 then is_return_none stream "end-of-stream"
  else
    '(r, s) ← call_read_callback stream RLocal 1;
    match r with
    | None => is_return_none s "io error"
    | Some bs =>
        b ← of_option (bs !! 0%nat);
        mret (Some b, is_with_left s (u64 (i_bytes_left s - 1)))
    end.

(** ** Varints *)

(** The do-while of the multibyte case: [result], [bitpos] (8 bits) and the
    last byte. *)
Fixpoint varint32_loop (fuel : nat) (stream : pb_istream_t) (result bitpos : Z) :
    M (option (Z * Z * Z) * pb_istream_t) :=
  match fuel with
  | O => timeout
  | S fuel' =>
      byte,, s <-! pb_readbyte stream;
      let more (result : Z) :=
        let bitpos := u8 (bitpos + 7) in
        if negb (Z.land byte 128 =? 0) then varint32_loop fuel' s result bitpos
        else mret (Some (result, bitpos, byte), s) in
      if 32 <=? bitpos then
        let sign_extension := if bitpos <? 63 then 255 else 1 in
        if negb (Z.land byte 127 =? 0) &&
           ((Z.shiftr result 31 =? 0) || negb (byte =? sign_extension)) then
          is_return_none s "varint overflow"
        else more result
      else more (Z.lor result (u32 (Z.shiftl (Z.land byte 127) bitpos)))
  end.

(** Returns the [eof] flag as well; every round reads one byte. *)
Definition pb_decode_varint32_eof (stream : pb_istream_t) :
    M (option Z * bool * pb_istream_t) :=
  '(r, s) ← pb_readbyte stream;
  match r with
  | None => mret (None, i_bytes_left s =? 0, s)
  | Some byte =>
      if Z.land byte 128 =? 0 then mret (Some byte, false, s)
      else
        '(r, s) ← varint32_loop (S (Z.to_nat (i_bytes_left s))) s (Z.land byte 127) 7;
        match r with
        | None => mret (None, false, s)
        | Some (result, bitpos, byte) =>
            if (bitpos =? 35) && negb (Z.land byte 112 =? 0) then
              mret (None, false, is_set_error s "varint overflow")
            else mret (Some result, false, s)
        end
  end.

Definition pb_decode_varint32 (stream : pb_istream_t) : M (option Z * pb_istream_t) :=
  '(r, _, s) ← pb_decode_varint32_eof stream;
  mret (r, s).

(** At most ten rounds: [bitpos] reaches 70. *)
Fixpoint pb_decode_varint_loop (fuel : nat) (stream : pb_istream_t) (bitpos result : Z) :
    M (option Z * pb_istream_t) :=
  match fuel with
  | O => timeout
  | S fuel' =>
      if 64 <=? bitpos then is_return_none stream "varint overflow"
      else
        byte,, s <-! pb_readbyte stream;
        let result := Z.lor result (u64 (Z.shiftl (Z.land byte 127) bitpos)) in
        let bitpos := u8 (bitpos + 7) in
        if negb (Z.land byte 128 =? 0) then pb_decode_varint_loop fuel' s bitpos result
        else mret (Some result, s)
  end.

Definition pb_decode_varint (stream : pb_istream_t) : M (option Z * pb_istream_t) :=
  pb_decode_varint_loop 11 stream 0 0.

Definition pb_decode_svarint (stream : pb_istream_t) : M (option Z * pb_istream_t) :=
  value,, s <-! pb_decode_varint stream;
  if negb (Z.land value 1 =? 0) then
    mret (Some (s64 (u64 (Z.lnot (Z.shiftr value 1)))), s)
  else mret (Some (s64 (Z.shiftr value 1)), s).

Definition pb_decode_fixed32 (stream : pb_istream_t) (dest : Z) : ires :=
  bytes,, s <-& pb_read stream RLocal 4;
  match bytes with
  | [b0; b1; b2; b3] =>
      store 4 dest
        (Z.lor (Z.lor (Z.lor (Z.shiftl b0 0) (Z.shiftl b1 8)) (Z.shiftl b2 16))
               (Z.shiftl b3 24)) ;;
      mret (true, s)
  | _ => fault
  end.

Definition pb_decode_fixed64 (stream : pb_istream_t) (dest : Z) : ires :=
  bytes,, s <-& pb_read stream RLocal 8;
  match bytes with
  | [b0; b1; b2; b3; b4; b5; b6; b7] =>
      store 8 dest
        (Z.lor (Z.lor (Z.lor (Z.lor (Z.lor (Z.lor (Z.lor
           (Z.shiftl b0 0) (Z.shiftl b1 8)) (Z.shiftl b2 16)) (Z.shiftl b3 24))
           (Z.shiftl b4 32)) (Z.shiftl b5 40)) (Z.shiftl b6 48)) (Z.shiftl b7 56)) ;;
      mret (true, s)
  | _ => fault
  end.

(** ** Tags, skipping, substreams *)

(** [wire_type], [tag] and [eof] are set whatever the return value. *)
Record tag_out := TagOut { to_wire_type : Z; to_tag : Z; to_eof : bool }.

Definition pb_decode_tag (stream : pb_istream_t) : M (bool * tag_out * pb_istream_t) :=
  '(r, eof, s) ← pb_decode_varint32_eof stream;
  match r with
  | None => mret (false, TagOut 0 0 eof, s)
  | Some temp =>
      if temp =? 0 then mret (false, TagOut 0 0 true, s)
      else mret (true, TagOut (Z.land temp 7) (Z.shiftr temp 3) false, s)
  end.

Fixpoint pb_skip_varint_loop (fuel : nat) (stream : pb_istream_t) : ires :=
  match fuel with
  | O => timeout
  | S fuel' =>
      bs,, s <-& pb_read stream RLocal 1;
      byte ← of_option (bs !! 0%nat);
      if negb (Z.land byte 128 =? 0) then pb_skip_varint_loop fuel' s else mret (true, s)
  end.

Definition pb_skip_varint (stream : pb_istream_t) : ires :=
  pb_skip_varint_loop (S (Z.to_nat (i_bytes_left stream))) stream.

Definition pb_skip_string (stream : pb_istream_t) : ires :=
  length,, s <-& pb_decode_varint32 stream;
  pb_read_ s RNull length.

Definition pb_skip_field (stream : pb_istream_t) (wire_type : Z) : ires :=
  if wire_type =? PB_WT_VARINT then pb_skip_varint stream
  else if wire_type =? PB_WT_64BIT then pb_read_ stream RNull 8
  else if wire_type =? PB_WT_STRING then pb_skip_string stream
  else if wire_type =? PB_WT_32BIT then pb_read_ stream RNull 4
  else is_return_error stream "invalid wire_type".

(** The varint case of [read_raw_value], [n] bytes being already in [buf]. *)
Fixpoint read_raw_varint_loop (fuel : nat) (stream : pb_istream_t) (acc : list Z) (max_size : Z) :
    rres :=
  match fuel with
  | O => timeout
  | S fuel' =>
      if max_size <? Z.of_nat (length acc) + 1 then mret (None, stream)
      else
        bs,, s <-! pb_read stream RLocal 1;
        byte ← of_option (bs !! 0%nat);
        if negb (Z.land byte 128 =? 0)
        then read_raw_varint_loop fuel' s (acc ++ [byte]) max_size
        else mret (Some (acc ++ [byte]), s)
  end.

(** The bytes stored in [buf], whose number is the new [*size]. *)
Definition read_raw_value (stream : pb_istream_t) (wire_type max_size : Z) : rres :=
  if wire_type =? PB_WT_VARINT then
    read_raw_varint_loop (S (Z.to_nat max_size)) stream [] max_size
  else if wire_type =? PB_WT_64BIT then pb_read stream RLocal 8
  else if wire_type =? PB_WT_32BIT then pb_read stream RLocal 4
  else is_return_none stream "invalid wire_type".

(** Returns the substream. *)
Definition pb_make_string_substream (stream : pb_istream_t) :
    M (option pb_istream_t * pb_istream_t) :=
  size,, stream <-! pb_decode_varint32 stream;
  let substream := stream in
  if i_bytes_left substream <? size then is_return_none stream "parent stream too short"
  else
    mret (Some (is_with_left substream size),
          is_with_left stream (u64 (i_bytes_left stream - size))).

Definition pb_close_string_substream (stream substream : pb_istream_t) : ires :=
  '(ok, substream) ←
    (if negb (i_bytes_left substream =? 0) then
       pb_read_ substream RNull (i_bytes_left substream)
     else mret (true, substream));
  if negb ok then mret (false, stream)
  else
    mret (true, PbIstream (i_callback stream) (i_state substream) (i_bytes_left stream)
                  (i_errmsg substream)).

End Decoder.
