(* ===== verification/PbInput.v ===== *)
(** Input streams of nanopb: what it means for a piece of the decoder to
    parse a given byte string, and to be safe on any byte string; the stream
    helpers of pb_decode.c parse the wire format. *)
From S2P Require Import Prelude Memory PbTypes PbWire PbDecode.

(** ** The contents of a buffer stream *)

(** The bytes left in the buffer stream [s] are [bs]. *)
Definition offers (m : gmap Z Z) (s : pb_istream_t) (bs : list Z) : Prop :=
  i_callback s = IcbBufRead /\
  i_bytes_left s = Z.of_nat (length bs) /\ Z.of_nat (length bs) < 2 ^ 64 /\
  Forall is_byte bs /\
  match i_state s with
  | IsPtr p => read_bytes m p (length bs) = Some bs
  | IsLocal l => bs `prefix_of` l
  end.

(** The stream [n] bytes further on, with the message [e]. *)
Definition advanced (s : pb_istream_t) (n : nat) (e : option string) : pb_istream_t :=
  PbIstream (i_callback s) (state_add (i_state s) (Z.of_nat n))
    (i_bytes_left s - Z.of_nat n) e.

Definition consumed (s : pb_istream_t) (n : nat) : pb_istream_t :=
  advanced s n (i_errmsg s).

Lemma state_add_add st n1 n2 :
  0 <= n1 -> 0 <= n2 -> state_add (state_add st n1) n2 = state_add st (n1 + n2).
Proof.
  intros. destruct st; cbn; f_equal; [lia|]. rewrite drop_drop. f_equal. lia.
Qed.

Lemma state_add_0 st : state_add st 0 = st.
Proof. destruct st; cbn; f_equal. lia. Qed.

Lemma advanced_advanced s n1 e1 n2 e2 :
  advanced (advanced s n1 e1) n2 e2 = advanced s (n1 + n2) e2.
Proof. unfold advanced; cbn. rewrite state_add_add by lia. f_equal; [f_equal|]; lia. Qed.

Lemma consumed_consumed s n1 n2 : consumed (consumed s n1) n2 = consumed s (n1 + n2).
Proof. unfold consumed at 1 3. rewrite <- advanced_advanced with (e1 := i_errmsg s). done. Qed.

Lemma consumed_0 s : consumed s 0 = s.
Proof.
  destruct s. unfold consumed, advanced; cbn. rewrite state_add_0, Z.sub_0_r. done.
Qed.

Lemma consumed_err s n msg :
  is_set_error (consumed s n) msg = advanced s n (PB_SET_ERROR (i_errmsg s) msg).
Proof. done. Qed.

Lemma read_bytes_split m a n1 n2 bs1 bs2 :
  length bs1 = n1 -> read_bytes m a (n1 + n2) = Some (bs1 ++ bs2) ->
  read_bytes m a n1 = Some bs1 /\ read_bytes m (a + Z.of_nat n1) n2 = Some bs2.
Proof.
  intros <-. revert a. induction bs1 as [|b bs1 IH]; intros a; cbn.
  - intros H. by rewrite Z.add_0_r.
  - intros (b' & Hb & (bs' & Hr & [= -> ->])%bind_Some)%bind_Some.
    apply IH in Hr as [H1 H2]. rewrite Hb, H1. cbn. split; [done|].
    by replace (a + Z.of_nat (S (length bs1))) with (a + 1 + Z.of_nat (length bs1)) by lia.
Qed.

(** What is left after a prefix, whatever error has been recorded. *)
Lemma offers_advanced m s bs1 bs2 e :
  offers m s (bs1 ++ bs2) -> offers m (advanced s (length bs1) e) bs2.
Proof.
  intros (Hc & Hl & Hb & Hf & Hs). rewrite length_app in *.
  apply Forall_app in Hf as [_ Hf].
  repeat split; cbn; auto; [lia..|].
  destruct (i_state s) as [p|l]; cbn.
  - by apply read_bytes_split in Hs as [_ ?].
  - destruct Hs as [k ->]. exists k. rewrite Nat2Z.id, <- app_assoc. by rewrite drop_app_length.
Qed.

Lemma offers_consumed m s bs1 bs2 :
  offers m s (bs1 ++ bs2) -> offers m (consumed s (length bs1)) bs2.
Proof. apply offers_advanced. Qed.

(** The stream cut to a prefix of its contents. *)
Lemma offers_prefix m s bs1 bs2 :
  offers m s (bs1 ++ bs2) -> offers m (is_with_left s (Z.of_nat (length bs1))) bs1.
Proof.
  intros (Hc & Hl & Hb & Hf & Hs). rewrite length_app in *.
  apply Forall_app in Hf as [Hf _].
  repeat split; cbn; auto; [lia..|].
  destruct (i_state s) as [p|l]; cbn in *.
  - by apply read_bytes_split in Hs as [? _].
  - destruct Hs as [k ->]. exists (bs2 ++ k). by rewrite app_assoc.
Qed.

Lemma offers_mem m m' s bs :
  offers m s bs ->
  match i_state s with
  | IsPtr p => forall x, p <= x < p + Z.of_nat (length bs) -> m' !! x = m !! x
  | IsLocal _ => True
  end -> offers m' s bs.
Proof.
  intros (Hc & Hl & Hb & Hf & Hs) Hm. unfold offers. split_and!; auto.
  destruct (i_state s); [|done]. by rewrite (read_bytes_same m m').
Qed.

Lemma offers_left m s bs : offers m s bs -> i_bytes_left s = Z.of_nat (length bs).
Proof. by intros (_ & ? & _). Qed.

Lemma offers_byte m s bs : offers m s bs -> Forall is_byte bs.
Proof. by intros (_ & _ & _ & ? & _). Qed.

Lemma offers_bound m s bs : offers m s bs -> Z.of_nat (length bs) < 2 ^ 64.
Proof. by intros (_ & _ & ? & _). Qed.

(** A buffer of memory, as [pb_istream_from_buffer] opens it. *)
Lemma offers_from_buffer m p bs :
  read_bytes m p (length bs) = Some bs -> Forall is_byte bs -> Z.of_nat (length bs) < 2 ^ 64 ->
  offers m (pb_istream_from_buffer (IsPtr p) (Z.of_nat (length bs))) bs.
Proof. intros. unfold offers. by split_and!. Qed.

Lemma offers_from_local m bs :
  Forall is_byte bs -> Z.of_nat (length bs) < 2 ^ 64 ->
  offers m (pb_istream_from_buffer (IsLocal bs) (Z.of_nat (length bs))) bs.
Proof. intros. unfold offers. split_and!; try done. by exists []; rewrite app_nil_r. Qed.

(** ** [buf_read] *)

Lemma source_byte m s bs i b w :
  offers m s bs -> m ⊆ mem w -> bs !! i = Some b ->
  (match i_state s with
   | IsPtr p => load 1 (p + Z.of_nat i)
   | IsLocal l => of_option (l !! i)
   end) w = Done b w.
Proof.
  intros (_ & _ & _ & _ & Hs) Hm Hi. pose proof (lookup_lt_Some _ _ _ Hi) as Hlt.
  destruct (i_state s) as [p|l].
  - apply (load_run 1 _ m); [|done].
    pose proof (read_bytes_lookup _ _ _ _ i Hs Hlt) as Hb. rewrite Hi in Hb.
    unfold read_le. cbn. rewrite Hb. cbn. f_equal. lia.
  - destruct Hs as [k ->]. rewrite lookup_app_l by done. by rewrite Hi.
Qed.

Lemma buf_read_loop_local m s bs1 bs2 bs3 w :
  offers m s (bs1 ++ bs2 ++ bs3) -> m ⊆ mem w ->
  buf_read_loop RLocal (i_state s) (length bs1) (length bs2) w = Done bs2 w.
Proof.
  intros Ho Hm. revert bs1 Ho. induction bs2 as [|b bs2 IH]; intros bs1 Ho; [done|].
  cbn [length buf_read_loop].
  rewrite (bind_done _ _ _ _ _ (source_byte m s _ (length bs1) b w Ho Hm
    ltac:(by rewrite lookup_app_r, Nat.sub_diag by lia))).
  rewrite bind_ret.
  replace (S (length bs1)) with (length (bs1 ++ [b])) by (rewrite length_app; cbn; lia).
  rewrite (bind_done _ _ _ _ _ (IH (bs1 ++ [b]) ltac:(by rewrite <- app_assoc))). done.
Qed.

(** ** Reads *)

Section Reads.
Context {PD : PbDescriptors} {DC : DecCallbacks}.

Lemma u64_left m s bs n :
  offers m s bs -> (n <= length bs)%nat ->
  u64 (i_bytes_left s - Z.of_nat n) = i_bytes_left s - Z.of_nat n.
Proof.
  intros Ho Hn. rewrite (offers_left _ _ _ Ho). pose proof (offers_bound _ _ _ Ho).
  apply wrap_small. lia.
Qed.

Lemma pb_read_local s w bs rest :
  offers (mem w) s (bs ++ rest) ->
  pb_read s RLocal (Z.of_nat (length bs)) w = Done (Some bs, consumed s (length bs)) w.
Proof.
  intros Ho. unfold pb_read. destruct (Z.eqb_spec (Z.of_nat (length bs)) 0) as [E|E].
  - destruct bs; [|done]. cbn. by rewrite consumed_0.
  - unfold pb_read_bytes, call_read_callback. pose proof Ho as (Hc & Hl & _).
    rewrite length_app in Hl.
    rewrite (proj2 (Z.ltb_ge _ _)), Hc by lia.
    unfold buf_read. rewrite Nat2Z.id.
    assert (E1 := buf_read_loop_local (mem w) s [] bs rest w Ho ltac:(done)). cbn in E1.
    rewrite bind_assoc, (bind_done _ _ _ _ _ E1), bind_ret. cbn.
    rewrite (u64_left _ _ _ _ Ho) by (rewrite length_app; lia). done.
Qed.

Lemma pb_read_null s w bs rest :
  offers (mem w) s (bs ++ rest) ->
  pb_read s RNull (Z.of_nat (length bs)) w = Done (Some [], consumed s (length bs)) w.
Proof.
  intros Ho. unfold pb_read. destruct (Z.eqb_spec (Z.of_nat (length bs)) 0) as [E|E].
  - destruct bs; [|done]. cbn. by rewrite consumed_0.
  - pose proof Ho as (Hc & Hl & _). rewrite length_app in Hl.
    rewrite Hc, bool_decide_false by naive_solver.
    unfold pb_read_bytes, call_read_callback.
    rewrite (proj2 (Z.ltb_ge _ _)), Hc by lia.
    unfold buf_read. rewrite bind_assoc, !bind_ret. cbn.
    rewrite (u64_left _ _ _ _ Ho) by (rewrite length_app; lia). done.
Qed.

Lemma pb_read_skip s w bs rest :
  offers (mem w) s (bs ++ rest) ->
  pb_read_ s RNull (Z.of_nat (length bs)) w = Done (true, consumed s (length bs)) w.
Proof.
  intros Ho. unfold pb_read_. by rewrite (bind_ok_done _ _ _ _ _ _ (pb_read_null _ _ _ _ Ho)).
Qed.

Lemma pb_read_short s buf n w bs :
  offers (mem w) s bs -> Z.of_nat (length bs) < n ->
  pb_read s buf n w = Done (None, is_set_error s "end-of-stream") w.
Proof.
  intros (Hc & Hl & _) Hn. unfold pb_read.
  rewrite (proj2 (Z.eqb_neq _ _)) by lia.
  rewrite Hc, bool_decide_false by naive_solver. unfold pb_read_bytes.
  rewrite (proj2 (Z.ltb_lt _ _)) by lia. by destruct buf.
Qed.

Lemma pb_readbyte_cons s w b bs :
  offers (mem w) s (b :: bs) -> pb_readbyte s w = Done (Some b, consumed s 1) w.
Proof.
  intros Ho. pose proof Ho as (Hc & Hl & _). unfold pb_readbyte, call_read_callback.
  rewrite length_cons in Hl. rewrite (proj2 (Z.eqb_neq _ _)), Hc by lia.
  assert (E1 := buf_read_loop_local (mem w) s [] [b] bs w Ho ltac:(done)).
  unfold buf_read. change (Z.to_nat 1) with 1%nat. cbn [length] in E1.
  rewrite bind_assoc, (bind_done _ _ _ _ _ E1), bind_ret. cbn.
  rewrite bind_ret. assert (E2 := u64_left _ _ _ 1 Ho ltac:(cbn; lia)). change (Z.of_nat 1) with 1 in E2.
  rewrite E2. done.
Qed.

Lemma pb_readbyte_nil s w :
  offers (mem w) s [] -> pb_readbyte s w = Done (None, is_set_error s "end-of-stream") w.
Proof. intros (_ & Hl & _). unfold pb_readbyte. by rewrite Hl. Qed.

(** ** Parsing *)

(** [f] consumes exactly [bs] and returns [a]. *)
Definition parses {A} (f : pb_istream_t -> M (option A * pb_istream_t)) (bs : list Z) (a : A) :
    Prop :=
  forall s w rest, offers (mem w) s (bs ++ rest) ->
    f s w = Done (Some a, consumed s (length bs)) w.

Definition accepts (f : pb_istream_t -> ires) (bs : list Z) : Prop :=
  forall s w rest, offers (mem w) s (bs ++ rest) ->
    f s w = Done (true, consumed s (length bs)) w.

Lemma parses_ret {A} (a : A) : parses (fun s => mret (M := M) (Some a, s)) [] a.
Proof. intros s w rest Ho. cbn. by rewrite consumed_0. Qed.

Lemma parses_bind {A B} (f : pb_istream_t -> M (option A * pb_istream_t))
    (k : A -> pb_istream_t -> M (option B * pb_istream_t)) bs1 bs2 a b :
  parses f bs1 a -> parses (k a) bs2 b ->
  parses (fun s => bind_val (f s) k) (bs1 ++ bs2) b.
Proof.
  intros Hf Hk s w rest Ho. rewrite <- app_assoc in Ho.
  rewrite (bind_val_done _ _ _ _ _ _ (Hf s w _ Ho)).
  rewrite (Hk _ w rest) by (by apply offers_consumed).
  by rewrite consumed_consumed, length_app.
Qed.

Lemma accepts_bind {A} (f : pb_istream_t -> M (option A * pb_istream_t))
    (k : A -> pb_istream_t -> ires) bs1 bs2 a :
  parses f bs1 a -> accepts (k a) bs2 ->
  accepts (fun s => bind_ok (f s) k) (bs1 ++ bs2).
Proof.
  intros Hf Hk s w rest Ho. rewrite <- app_assoc in Ho.
  rewrite (bind_ok_done _ _ _ _ _ _ (Hf s w _ Ho)).
  rewrite (Hk _ w rest) by (by apply offers_consumed).
  by rewrite consumed_consumed, length_app.
Qed.

Lemma parses_read n bs :
  n = Z.of_nat (length bs) -> parses (fun s => pb_read s RLocal n) bs bs.
Proof. intros -> s w rest. apply pb_read_local. Qed.

Lemma accepts_skip n bs :
  n = Z.of_nat (length bs) -> accepts (fun s => pb_read_ s RNull n) bs.
Proof. intros -> s w rest. apply pb_read_skip. Qed.

(** ** Safety on any input *)

(** On any contents, [f] returns, consumes at most what is left and leaves
    memory as it is; a value satisfies [P], a failure records a message. *)
Definition safe {A} (f : pb_istream_t -> M (option A * pb_istream_t)) (P : A -> Prop) : Prop :=
  forall s w bs, offers (mem w) s bs ->
    exists r n e, f s w = Done (r, advanced s n e) w /\ (n <= length bs)%nat /\
      match r with Some a => e = i_errmsg s /\ P a | None => e <> None end.

Definition safe_ok (f : pb_istream_t -> ires) : Prop :=
  forall s w bs, offers (mem w) s bs ->
    exists r n e, f s w = Done (r, advanced s n e) w /\ (n <= length bs)%nat /\
      (if r : bool then e = i_errmsg s else e <> None).

Lemma PB_SET_ERROR_some e msg : PB_SET_ERROR e msg <> None.
Proof. by destruct e. Qed.

Lemma advanced_0 s e : advanced s 0 e = PbIstream (i_callback s) (i_state s) (i_bytes_left s) e.
Proof. unfold advanced. cbn. by rewrite state_add_0, Z.sub_0_r. Qed.

Lemma offers_take m s bs n e :
  offers m s bs -> (n <= length bs)%nat -> offers m (advanced s n e) (drop n bs).
Proof.
  intros Ho Hn. rewrite <- (take_drop n bs) in Ho.
  rewrite <- (length_take_le bs n) at 1 by done. by apply offers_advanced.
Qed.

Lemma safe_ret {A} (a : A) (P : A -> Prop) : P a -> safe (fun s => mret (M := M) (Some a, s)) P.
Proof.
  intros Ha s w bs Ho. exists (Some a), 0%nat, (i_errmsg s). split; [|split; [lia|done]].
  rewrite advanced_0. by destruct s.
Qed.

Lemma safe_ok_ret : safe_ok (fun s => mret (M := M) (true, s)).
Proof.
  intros s w bs Ho. exists true, 0%nat, (i_errmsg s). split; [|split; [lia|done]].
  rewrite advanced_0. by destruct s.
Qed.

Lemma safe_error {A} msg (P : A -> Prop) : safe (fun s => is_return_none s msg) P.
Proof.
  intros s w bs Ho. exists None, 0%nat, (PB_SET_ERROR (i_errmsg s) msg).
  split; [|split; [lia|apply PB_SET_ERROR_some]]. by rewrite advanced_0.
Qed.

Lemma safe_ok_error msg : safe_ok (fun s => is_return_error s msg).
Proof.
  intros s w bs Ho. exists false, 0%nat, (PB_SET_ERROR (i_errmsg s) msg).
  split; [|split; [lia|apply PB_SET_ERROR_some]]. by rewrite advanced_0.
Qed.

Lemma safe_bind {A B} (f : pb_istream_t -> M (option A * pb_istream_t))
    (k : A -> pb_istream_t -> M (option B * pb_istream_t)) P Q :
  safe f P -> (forall a, P a -> safe (k a) Q) -> safe (fun s => bind_val (f s) k) Q.
Proof.
  intros Hf Hk s w bs Ho. destruct (Hf s w bs Ho) as (r & n & e & E & Hn & He).
  destruct r as [a|].
  - destruct He as [He Ha]. rewrite (bind_val_done _ _ _ _ _ _ E).
    destruct (Hk a Ha _ w _ (offers_take _ _ _ n e Ho Hn)) as (r & n' & e' & E' & Hn' & He').
    rewrite E', advanced_advanced. rewrite length_drop in Hn'. cbn in He'.
    exists r, (n + n')%nat, e'. split; [done|]. split; [lia|].
    destruct r; [by destruct He' as [-> ?]|done].
  - rewrite (bind_val_none _ _ _ _ _ E). by exists None, n, e.
Qed.

Lemma safe_ok_bind {A} (f : pb_istream_t -> M (option A * pb_istream_t))
    (k : A -> pb_istream_t -> ires) P :
  safe f P -> (forall a, P a -> safe_ok (k a)) -> safe_ok (fun s => bind_ok (f s) k).
Proof.
  intros Hf Hk s w bs Ho. destruct (Hf s w bs Ho) as (r & n & e & E & Hn & He).
  destruct r as [a|].
  - destruct He as [He Ha]. rewrite (bind_ok_done _ _ _ _ _ _ E).
    destruct (Hk a Ha _ w _ (offers_take _ _ _ n e Ho Hn)) as (r & n' & e' & E' & Hn' & He').
    rewrite E', advanced_advanced. rewrite length_drop in Hn'. cbn in He'.
    exists r, (n + n')%nat, e'. split; [done|]. split; [lia|].
    destruct r; [congruence|done].
  - rewrite (bind_ok_none _ _ _ _ _ E). by exists false, n, e.
Qed.

Lemma safe_read n :
  0 <= n -> safe (fun s => pb_read s RLocal n) (fun bs => Z.of_nat (length bs) = n).
Proof.
  intros Hn s w bs Ho. destruct (Z_lt_dec (Z.of_nat (length bs)) n) as [Hlt|Hge].
  - rewrite (pb_read_short _ _ _ _ _ Ho Hlt).
    by apply (safe_error "end-of-stream" _ s w bs).
  - rewrite <- (take_drop (Z.to_nat n) bs) in Ho.
    assert (Hl : length (take (Z.to_nat n) bs) = Z.to_nat n) by (apply length_take_le; lia).
    exists (Some (take (Z.to_nat n) bs)), (Z.to_nat n), (i_errmsg s).
    split; [|split; [lia|split; [done|lia]]].
    replace n with (Z.of_nat (length (take (Z.to_nat n) bs))) at 1 by lia.
    rewrite (pb_read_local _ _ _ _ Ho). by rewrite Hl.
Qed.

Lemma safe_skip n : 0 <= n -> safe_ok (fun s => pb_read_ s RNull n).
Proof.
  intros Hn s w bs Ho. destruct (Z_lt_dec (Z.of_nat (length bs)) n) as [Hlt|Hge].
  - unfold pb_read_. rewrite (bind_ok_none _ _ _ _ _ (pb_read_short _ _ _ _ _ Ho Hlt)).
    by apply (safe_ok_error "end-of-stream" s w bs).
  - rewrite <- (take_drop (Z.to_nat n) bs) in Ho.
    assert (Hl : length (take (Z.to_nat n) bs) = Z.to_nat n) by (apply length_take_le; lia).
    exists true, (Z.to_nat n), (i_errmsg s). split; [|split; [lia|done]].
    replace n with (Z.of_nat (length (take (Z.to_nat n) bs))) at 1 by lia.
    rewrite (pb_read_skip _ _ _ _ Ho). by rewrite Hl.
Qed.

End Reads.
