(* ===== verification/PbCodec.v ===== *)
(** What nanopb's parsers of the wire format return on every input (varints, tags,
    fixed-width numbers, fields that are skipped), and the round trips with the
    encoder's writers. *)
From S2P Require Import Prelude Memory PbTypes CrashlyticsProto PbWire PbEncode PbStreams PbEncodeSpec.
From S2P Require Import PbDecode PbInput.

(** The terminated varint that [bs] starts with, of at most [n] bytes. *)
Fixpoint scan_varint (n : nat) (bs : list Z) : option (list Z) :=
  match n, bs with
  | S n', b :: bs' => if b <? 128 then Some [b] else cons b <$> scan_varint n' bs'
  | _, _ => None
  end.

Lemma continues b : is_byte b -> negb (Z.land b 128 =? 0) = negb (b <? 128).
Proof. intros Hb. rewrite land_128 by done. by destruct (b <? 128). Qed.

Lemma offers_head m s b bs : offers m s (b :: bs) -> is_byte b.
Proof. intros H%offers_byte. by inversion H. Qed.

Lemma offers_tail m s b bs : offers m s (b :: bs) -> offers m (consumed s 1) bs.
Proof. apply (offers_consumed m s [b] bs). Qed.

Lemma offers_left_cons m s b bs : offers m s (b :: bs) -> i_bytes_left s = Z.of_nat (S (length bs)).
Proof. apply offers_left. Qed.

(** A group of seven bits above [k] bits of a [w]-bit accumulator. *)
Lemma lor_group w r x k :
  0 <= k <= w -> 0 <= r < 2 ^ k -> 0 <= x ->
  Z.lor r (wrap w (Z.shiftl x k)) = wrap w (r + x * 2 ^ k).
Proof.
  intros Hk Hr Hx.
  assert (0 < 2 ^ k) by (apply Z.pow_pos_nonneg; lia).
  assert (0 < 2 ^ (w - k)) by (apply Z.pow_pos_nonneg; lia).
  assert (E : wrap w (Z.shiftl x k) = Z.shiftl (x mod 2 ^ (w - k)) k).
  { rewrite !Z.shiftl_mul_pow2 by lia. unfold wrap.
    replace w with ((w - k) + k) at 1 by lia.
    rewrite Z.pow_add_r, Z.mul_mod_distr_r by lia. done. }
  rewrite E, lor_shiftl_add by lia. unfold wrap.
  replace (2 ^ w) with (2 ^ k * 2 ^ (w - k)) by (rewrite <- Z.pow_add_r by lia; f_equal; lia).
  rewrite Z.rem_mul_r by lia.
  rewrite Z.add_mod, Z_mod_mult, Z.add_0_r, Zmod_mod, (Z.mod_small r) by lia.
  rewrite Z.div_add, (Z.div_small r), Z.add_0_l by lia. ring.
Qed.

Lemma varint_val_nonneg bs : 0 <= varint_val bs.
Proof.
  induction bs as [|b bs IH]; cbn [varint_val]; [lia|].
  pose proof (Z.mod_pos_bound b 128). lia.
Qed.

Lemma lor_bounds a b n : 0 <= n -> 0 <= a < 2 ^ n -> 0 <= b < 2 ^ n -> 0 <= Z.lor a b < 2 ^ n.
Proof.
  intros Hn Ha Hb. assert (E : Z.lor a b = Z.land (Z.lor a b) (Z.ones n)).
  { rewrite Z.land_lor_distr_l, !Z.land_ones, !Z.mod_small by lia. done. }
  rewrite E, Z.land_ones by done. apply Z.mod_pos_bound. lia.
Qed.

Section Wire.
Context {PD : PbDescriptors} {DC : DecCallbacks}.

(** ** 64-bit varints *)

Definition varint_result (s : pb_istream_t) (w : world) (n : nat) (bs : list Z)
    (value : list Z -> Z) : outcome (option Z * pb_istream_t) :=
  match scan_varint n bs with
  | Some v => Done (Some (value v), consumed s (length v)) w
  | None =>
      Done (None, advanced s (min n (length bs))
                    (PB_SET_ERROR (i_errmsg s)
                       (if (n <=? length bs)%nat then "varint overflow" else "end-of-stream"))) w
  end.

Lemma varint_result_cons s w n b bs value :
  128 <= b ->
  varint_result (consumed s 1) w n bs value =
  varint_result s w (S n) (b :: bs) (fun v => value (tail v)).
Proof.
  intros Hb. unfold varint_result. cbn [scan_varint].
  rewrite (proj2 (Z.ltb_ge _ _)) by lia. destruct (scan_varint n bs) as [v|]; cbn [fmap option_fmap option_map].
  - by rewrite consumed_consumed.
  - unfold consumed at 1. rewrite advanced_advanced. cbn [length].
    change (S n <=? S (length bs))%nat with (n <=? length bs)%nat. done.
Qed.

Lemma pb_decode_varint_loop_spec (n k : nat) s w bs r :
  offers (mem w) s bs -> (n + k = 10)%nat ->
  0 <= r < 2 ^ 64 -> ((0 < n)%nat -> r < 2 ^ (7 * Z.of_nat k)) ->
  pb_decode_varint_loop (S n) s (7 * Z.of_nat k) r w =
  varint_result s w n bs (fun v => u64 (r + 2 ^ (7 * Z.of_nat k) * varint_val v)).
Proof.
  revert k s bs r. induction n as [|n IH]; intros k s bs r Ho Hk Hr Hr'.
  { replace k with 10%nat by lia. cbn. unfold varint_result. cbn. by rewrite advanced_0. }
  remember (S n) as n' eqn:En. cbn [pb_decode_varint_loop].
  rewrite (proj2 (Z.leb_gt _ _)) by lia. subst n'.
  destruct bs as [|b bs].
  { rewrite (bind_val_none _ _ _ _ _ (pb_readbyte_nil _ _ Ho)).
    unfold varint_result. cbn. by rewrite advanced_0. }
  rewrite (bind_val_done _ _ _ _ _ _ (pb_readbyte_cons _ _ _ _ Ho)).
  pose proof (offers_head _ _ _ _ Ho) as Hb. rewrite (continues _ Hb), land_127.
  pose proof (Z.mod_pos_bound b 128 ltac:(lia)) as Hx.
  rewrite lor_group by first [lia | split; [lia|apply Hr'; lia]].
  assert (Ep : 2 ^ (7 * Z.of_nat (S k)) = 128 * 2 ^ (7 * Z.of_nat k)).
  { replace (7 * Z.of_nat (S k)) with (7 + 7 * Z.of_nat k) by lia.
    rewrite Z.pow_add_r by lia. done. }
  destruct (Z.ltb_spec b 128) as [Hlt|Hge]; cbn [negb].
  - unfold varint_result. cbn [scan_varint]. rewrite (proj2 (Z.ltb_lt _ _)) by lia.
    cbn [varint_val length mret M_ret]. unfold mret, M_ret. do 3 f_equal. f_equal. f_equal. lia.
  - assert (E7 : u8 (7 * Z.of_nat k + 7) = 7 * Z.of_nat (S k)) by (rewrite wrap_small; lia).
    rewrite E7. rewrite (IH (S k) _ bs); [| |lia| |].
    + rewrite (varint_result_cons _ _ _ b) by lia. unfold varint_result.
      cbn [scan_varint]. rewrite (proj2 (Z.ltb_ge _ _)) by lia.
      destruct (scan_varint n bs) as [v|]; cbn [fmap option_fmap option_map tail]; [|done].
      do 3 f_equal. cbn [varint_val]. rewrite Ep. unfold wrap.
      rewrite Zplus_mod_idemp_l. f_equal. lia.
    + by apply offers_tail in Ho.
    + apply wrap_bounds. lia.
    + intros Hn. rewrite Ep.
      assert (0 <= r + b mod 128 * 2 ^ (7 * Z.of_nat k) < 128 * 2 ^ (7 * Z.of_nat k)).
      { specialize (Hr' ltac:(lia)). nia. }
      rewrite wrap_small; [lia|]. split; [lia|]. eapply Z.lt_le_trans; [apply H|].
      rewrite <- Ep. apply Z.pow_le_mono_r; lia.
Qed.

(** On any input, [pb_decode_varint] returns the value modulo 2^64 of the
    varint of at most ten bytes at the head of the stream, and otherwise fails. *)
Lemma pb_decode_varint_spec s w bs :
  offers (mem w) s bs ->
  pb_decode_varint s w = varint_result s w 10 bs (fun v => u64 (varint_val v)).
Proof.
  intros Ho. unfold pb_decode_varint.
  assert (E := pb_decode_varint_loop_spec 10 0 s w bs 0 Ho ltac:(lia) ltac:(lia) ltac:(lia)).
  change (7 * Z.of_nat 0) with 0 in E. rewrite E. unfold varint_result.
  destruct (scan_varint 10 bs) as [v|]; [|done]. do 4 f_equal. lia.
Qed.

Lemma scan_varint_shape v rest n :
  varint_shape v -> (length v <= n)%nat -> scan_varint n (v ++ rest) = Some v.
Proof.
  intros Hv. revert n. induction Hv as [b Hb|b bs Hb _ IH]; intros n Hn; cbn [length] in Hn;
    destruct n as [|n]; try lia; cbn [scan_varint app].
  - by rewrite (proj2 (Z.ltb_lt _ _)) by lia.
  - rewrite (proj2 (Z.ltb_ge _ _)), IH by lia. done.
Qed.

Lemma parses_varint v : 0 <= v < 2 ^ 64 -> parses pb_decode_varint (varint_bytes v) v.
Proof.
  intros Hv s w rest Ho. rewrite (pb_decode_varint_spec _ _ _ Ho). unfold varint_result.
  rewrite scan_varint_shape by (by apply varint_bytes_shape || apply varint_bytes_length).
  rewrite varint_bytes_val, wrap_small by done. done.
Qed.

Lemma scan_varint_length n bs v : scan_varint n bs = Some v -> (length v <= min n (length bs))%nat.
Proof.
  revert bs v. induction n as [|n IH]; intros [|b bs] v; cbn [scan_varint]; try done.
  destruct (b <? 128); [intros [= <-]; cbn; lia|].
  intros (v' & Hv & ->)%fmap_Some. apply IH in Hv. cbn. lia.
Qed.

Lemma safe_varint : safe pb_decode_varint (fun v => 0 <= v < 2 ^ 64).
Proof.
  intros s w bs Ho. rewrite (pb_decode_varint_spec _ _ _ Ho). unfold varint_result.
  destruct (scan_varint 10 bs) as [v|] eqn:E.
  - apply scan_varint_length in E. eexists _, _, _. split; [done|]. split; [lia|].
    split; [done|]. apply wrap_bounds. lia.
  - eexists _, _, _. split; [done|]. split; [lia|apply PB_SET_ERROR_some].
Qed.

(** ** Signed varints *)

Lemma unzigzag v :
  - 2 ^ 63 <= v < 2 ^ 63 ->
  (if negb (Z.land (zigzag v) 1 =? 0)
   then s64 (u64 (Z.lnot (Z.shiftr (zigzag v) 1)))
   else s64 (Z.shiftr (zigzag v) 1)) = v.
Proof.
  intros Hv. change 1 with (Z.ones 1) at 1. rewrite Z.land_ones, Z.shiftr_div_pow2 by lia.
  change (2 ^ 1) with 2. unfold zigzag. destruct (Z.ltb_spec v 0).
  - replace (-2 * v - 1) with (1 + (- v - 1) * 2) by lia.
    rewrite Z_mod_plus_full, Z.div_add by lia. cbn [negb Z.eqb Z.modulo].
    change (1 mod 2 =? 0) with false. change (1 / 2) with 0. cbn [negb].
    rewrite to_signed_wrap. unfold Z.lnot. rewrite to_signed_small by lia. lia.
  - replace (2 * v) with (0 + v * 2) by lia.
    rewrite Z_mod_plus_full, Z.div_add by lia. change (0 mod 2 =? 0) with true. cbn [negb].
    change (0 / 2) with 0. rewrite to_signed_small by lia. lia.
Qed.

Lemma parses_svarint v :
  - 2 ^ 63 <= v < 2 ^ 63 -> parses pb_decode_svarint (varint_bytes (zigzag v)) v.
Proof.
  intros Hv s w rest Ho. unfold pb_decode_svarint.
  rewrite (bind_val_done _ _ _ _ _ _ (parses_varint _ (zigzag_bounds v Hv) s w rest Ho)).
  pose proof (unzigzag v Hv) as E. destruct (negb _); unfold mret, M_ret; by rewrite E.
Qed.

Lemma safe_svarint : safe pb_decode_svarint (fun v => - 2 ^ 63 <= v < 2 ^ 63).
Proof.
  apply (safe_bind pb_decode_varint _ (fun _ => True)).
  - intros s w bs Ho. destruct (safe_varint s w bs Ho) as (r & n & e & E & Hn & He).
    exists r, n, e. split; [done|]. split; [done|]. destruct r; [by split; [apply He|]|done].
  - intros v _. destruct (negb _); apply safe_ret, (to_signed_bounds 64); lia.
Qed.

(** ** 32-bit varints *)

(** A round of the loop below 32 bits. *)
Lemma varint32_loop_low fuel s w b bs r k :
  offers (mem w) s (b :: bs) -> 0 <= k < 32 -> 0 <= r < 2 ^ k ->
  varint32_loop (S fuel) s r k w =
  let r' := u32 (r + b mod 128 * 2 ^ k) in
  if b <? 128 then Done (Some (r', k + 7, b), consumed s 1) w
  else varint32_loop fuel (consumed s 1) r' (k + 7) w.
Proof.
  intros Ho Hk Hr. cbn [varint32_loop].
  rewrite (bind_val_done _ _ _ _ _ _ (pb_readbyte_cons _ _ _ _ Ho)).
  rewrite (proj2 (Z.leb_gt _ _)) by lia.
  rewrite (continues _ (offers_head _ _ _ _ Ho)), land_127.
  pose proof (Z.mod_pos_bound b 128). rewrite lor_group by lia.
  rewrite (wrap_small 8) by lia. by destruct (b <? 128).
Qed.

(** A round of sign extension, the bits above 32 of a negative number. *)
Lemma varint32_loop_sign fuel s w b bs r k :
  offers (mem w) s (b :: bs) -> 32 <= k <= 63 -> 2 ^ 31 <= r ->
  b = (if k <? 63 then 255 else 1) ->
  varint32_loop (S fuel) s r k w =
  if b <? 128 then Done (Some (r, k + 7, b), consumed s 1) w
  else varint32_loop fuel (consumed s 1) r (k + 7) w.
Proof.
  intros Ho Hk Hr Eb. cbn [varint32_loop].
  rewrite (bind_val_done _ _ _ _ _ _ (pb_readbyte_cons _ _ _ _ Ho)).
  rewrite (proj2 (Z.leb_le _ _)) by lia.
  rewrite (continues _ (offers_head _ _ _ _ Ho)), (wrap_small 8) by lia.
  rewrite Z.shiftr_div_pow2 by lia. rewrite <- Eb, Z.eqb_refl.
  rewrite (proj2 (Z.eqb_neq (r / 2 ^ 31) 0)) by (apply Z.neq_sym, Z.lt_neq, Z.div_str_pos; lia).
  rewrite andb_false_r. by destruct (b <? 128).
Qed.

(** The rest of the encoding of a value of 32 bits, after [j] groups. *)
(** The fifth byte of a 32-bit varint has four bits. *)
Lemma last_byte_bits v : 0 <= v < 16 -> Z.land v 112 = 0.
Proof.
  intros Hv. change 112 with (Z.shiftl 7 4).
  apply Z.bits_inj'; intros i Hi. rewrite Z.land_spec, Z.bits_0.
  destruct (Z_lt_dec i 4).
  - rewrite Z.shiftl_spec_low by lia. apply andb_false_r.
  - rewrite (testbit_small v 4) by lia. done.
Qed.

Lemma varint32_loop_bytes (n j : nat) fuel s w v r rest :
  (n + j = 5)%nat -> (0 < n)%nat -> (length (varint_fuel n v) <= fuel)%nat ->
  offers (mem w) s (varint_fuel n v ++ rest) ->
  0 <= v < 2 ^ (32 - 7 * Z.of_nat j) -> 0 <= r < 2 ^ (7 * Z.of_nat j) ->
  exists k b,
    varint32_loop fuel s r (7 * Z.of_nat j) w =
      Done (Some (r + v * 2 ^ (7 * Z.of_nat j), k, b), consumed s (length (varint_fuel n v))) w /\
    (k =? 35) && negb (Z.land b 112 =? 0) = false.
Proof.
  revert j fuel s v r. induction n as [|n IH]; intros j fuel s v r Hn Hn0 Hfuel Ho Hv Hr; [lia|].
  cbn [varint_fuel] in *.
  destruct fuel as [|fuel]; [destruct (v <? 128); cbn [length] in Hfuel; lia|].
  assert (Ep : 2 ^ (7 * Z.of_nat (S j)) = 128 * 2 ^ (7 * Z.of_nat j)).
  { replace (7 * Z.of_nat (S j)) with (7 + 7 * Z.of_nat j) by lia.
    rewrite Z.pow_add_r by lia. done. }
  assert (Ev : 2 ^ 32 = 2 ^ (32 - 7 * Z.of_nat j) * 2 ^ (7 * Z.of_nat j))
    by (rewrite <- Z.pow_add_r by lia; f_equal; lia).
  assert (0 < 2 ^ (7 * Z.of_nat j)) by (apply Z.pow_pos_nonneg; lia).
  destruct (Z.ltb_spec v 128) as [Hlt|Hge].
  - cbn [app] in Ho. rewrite (varint32_loop_low _ _ _ _ _ _ _ Ho) by lia. cbv zeta.
    rewrite (proj2 (Z.ltb_lt _ _)), (Z.mod_small v 128), wrap_small by nia.
    eexists _, _. split; [done|].
    destruct (Z.eqb_spec (7 * Z.of_nat j + 7) 35) as [Ej|]; [|done].
    replace j with 4%nat in * by lia. change (2 ^ (32 - 7 * Z.of_nat 4)) with 16 in Hv.
    by rewrite last_byte_bits, andb_false_r by lia.
  - cbn [app length] in *. destruct n as [|n].
    { replace j with 4%nat in * by lia. change (2 ^ (32 - 7 * Z.of_nat 4)) with 16 in Hv. lia. }
    rewrite (varint32_loop_low _ _ _ _ _ _ _ Ho) by lia. cbv zeta.
    pose proof (Z.mod_pos_bound v 128 ltac:(lia)).
    pose proof (Z.div_mod v 128 ltac:(lia)).
    rewrite (proj2 (Z.ltb_ge _ _)) by lia.
    replace ((v mod 128 + 128) mod 128) with (v mod 128)
      by (rewrite <- Z.add_mod_idemp_r, Z_mod_same_full, Z.add_0_r, Zmod_mod; lia).
    assert (0 <= v mod 128 * 2 ^ (7 * Z.of_nat j) /\
            v mod 128 * 2 ^ (7 * Z.of_nat j) <= v * 2 ^ (7 * Z.of_nat j)) by nia.
    rewrite wrap_small by nia.
    replace (7 * Z.of_nat j + 7) with (7 * Z.of_nat (S j)) by lia.
    destruct (IH (S j) fuel (consumed s 1) (v / 128)
                (r + v mod 128 * 2 ^ (7 * Z.of_nat j))) as (k & b & E & Hk); try lia.
    + by apply offers_tail in Ho.
    + split; [apply Z.div_pos; lia|]. apply Z.div_lt_upper_bound; [lia|].
      replace (32 - 7 * Z.of_nat j) with (7 + (32 - 7 * Z.of_nat (S j))) in Hv by lia.
      rewrite Z.pow_add_r in Hv by lia. lia.
    + rewrite Ep. nia.
    + exists k, b. split; [|done]. rewrite E, consumed_consumed, Ep. cbn [length].
      do 5 f_equal. nia.
Qed.

Lemma varint32_eof_small v s w rest :
  0 <= v < 2 ^ 32 -> offers (mem w) s (varint_bytes v ++ rest) ->
  pb_decode_varint32_eof s w = Done (Some v, false, consumed s (length (varint_bytes v))) w.
Proof.
  intros Hv Ho. unfold pb_decode_varint32_eof.
  assert (Ev : varint_bytes v = varint_fuel 5 v).
  { apply (varint_fuel_enough 5 5); [|lia]. change (128 ^ Z.of_nat 5) with (2 ^ 35). lia. }
  rewrite Ev in *. destruct (Z.ltb_spec v 128) as [Hlt|Hge].
  - assert (E1 : varint_fuel 5 v = [v])
      by (cbn [varint_fuel]; by rewrite (proj2 (Z.ltb_lt _ _)) by lia).
    rewrite E1 in *. cbn [app] in Ho.
    rewrite (bind_done _ _ _ _ _ (pb_readbyte_cons _ _ _ _ Ho)).
    rewrite land_128, (proj2 (Z.ltb_lt v 128)) by (unfold is_byte; lia). done.
  - rewrite varint_fuel_more in * by lia. cbn [app] in Ho.
    rewrite (bind_done _ _ _ _ _ (pb_readbyte_cons _ _ _ _ Ho)).
    pose proof (Z.mod_pos_bound v 128 ltac:(lia)) as Hm.
    rewrite land_128, (proj2 (Z.ltb_ge _ _)) by (unfold is_byte; lia).
    change (128 =? 0) with false. cbv iota. rewrite land_127.
    rewrite <- Z.add_mod_idemp_r, Z_mod_same_full, Z.add_0_r, Zmod_mod by lia.
    pose proof (offers_tail _ _ _ _ Ho) as Ho'.
    pose proof (offers_left _ _ _ Ho') as Hl. rewrite length_app in Hl.
    assert (Hd : 1 <= v / 128 < 2 ^ 25)
      by (split; [apply Z.div_le_lower_bound|apply Z.div_lt_upper_bound]; lia).
    destruct (varint32_loop_bytes 4 1 (S (Z.to_nat (i_bytes_left (consumed s 1))))
                (consumed s 1) w (v / 128) (v mod 128) rest) as (k & b & E & Hk);
      [lia|lia|lia|done|cbn; lia|cbn; lia|].
    change (7 * Z.of_nat 1) with 7 in E. rewrite (bind_done _ _ _ _ _ E), Hk, consumed_consumed.
    cbn [length]. unfold mret, M_ret. do 4 f_equal. pose proof (Z.div_mod v 128).
    change (2 ^ 7) with 128. f_equal. lia.
Qed.

(** The value of [j] groups of [v], and one more. *)
Lemma group_step v j :
  0 <= j -> v mod 2 ^ j + (v / 2 ^ j) mod 128 * 2 ^ j = v mod 2 ^ (j + 7).
Proof.
  intros Hj. assert (0 < 2 ^ j) by (apply Z.pow_pos_nonneg; lia).
  rewrite Z.pow_add_r, Z.rem_mul_r by lia. change (2 ^ 7) with 128. ring.
Qed.

Lemma byte_mod x : (x mod 128 + 128) mod 128 = x mod 128.
Proof. by rewrite <- Z.add_mod_idemp_r, Z_mod_same_full, Z.add_0_r, Zmod_mod. Qed.

(** A round of the loop on the group after [k] bits of [v]. *)
Lemma varint32_loop_group fuel s w v x bs k :
  offers (mem w) s ((x mod 128 + 128) :: bs) -> x = v / 2 ^ k -> 0 <= k < 32 ->
  varint32_loop (S fuel) s (v mod 2 ^ k) k w =
  varint32_loop fuel (consumed s 1) (u32 (v mod 2 ^ (k + 7))) (k + 7) w.
Proof.
  intros Ho -> Hk. rewrite (varint32_loop_low _ _ _ _ _ _ _ Ho) by (auto; apply Z.mod_pos_bound; lia).
  cbv zeta. pose proof (Z.mod_pos_bound (v / 2 ^ k) 128).
  rewrite (proj2 (Z.ltb_ge _ _)), byte_mod, group_step by lia. done.
Qed.

(** Compute the position of the next group. *)
Ltac next_position :=
  match goal with |- context [?k + 7] => let k' := eval compute in (k + 7) in
    change (k + 7) with k' in * end;
  cbv beta; repeat match goal with |- context [if ?a <? ?b then _ else _] =>
    let c := eval compute in (a <? b) in change (a <? b) with c; cbv iota end.

Lemma varint32_loop_negative f s w v rest :
  - 2 ^ 31 <= v < 0 ->
  offers (mem w) s (tail (varint_bytes (2 ^ 64 + v)) ++ rest) ->
  varint32_loop (9 + f) s (v mod 2 ^ 7) 7 w = Done (Some (2 ^ 32 + v, 70, 1), consumed s 9) w.
Proof.
  intros Hv Ho. rewrite varint_bytes_negative in Ho by done. cbn [app tail] in Ho. cbn [Nat.add].
  assert (Hu : forall k, 0 <= k <= 32 -> u32 (v mod 2 ^ k) = v mod 2 ^ k).
  { intros k Hk. apply wrap_small. pose proof (Z.mod_pos_bound v (2 ^ k)).
    assert (0 < 2 ^ k) by (apply Z.pow_pos_nonneg; lia).
    assert (2 ^ k <= 2 ^ 32) by (apply Z.pow_le_mono_r; lia). lia. }
  do 4 (erewrite varint32_loop_group
          by first [exact Ho | (rewrite ?Z.div_div by lia; reflexivity) | lia];
        apply offers_tail in Ho; next_position; rewrite ?Hu by lia).
  replace (u32 (v mod 2 ^ 35)) with (2 ^ 32 + v).
  2: { unfold wrap. change (2 ^ 35) with (2 ^ 32 * 8). rewrite Z.rem_mul_r by lia.
       rewrite (Z.mul_comm (2 ^ 32)), Z_mod_plus_full, Zmod_mod.
       rewrite <- (Z_mod_plus_full v 1), Z.mod_small; lia. }
  do 5 (erewrite varint32_loop_sign by (first [exact Ho|lia|reflexivity]);
        apply offers_tail in Ho; next_position).
  by rewrite !consumed_consumed.
Qed.

Lemma varint32_eof_negative v s w rest :
  - 2 ^ 31 <= v < 0 -> offers (mem w) s (varint_bytes (2 ^ 64 + v) ++ rest) ->
  pb_decode_varint32_eof s w = Done (Some (2 ^ 32 + v), false, consumed s 10) w.
Proof.
  intros Hv Ho. pose proof Ho as Ho'.
  rewrite varint_bytes_negative in Ho' by done. cbn [app] in Ho'.
  pose proof (offers_left _ _ _ (offers_tail _ _ _ _ Ho')) as Hl. cbn [length] in Hl.
  unfold pb_decode_varint32_eof.
  rewrite (bind_done _ _ _ _ _ (pb_readbyte_cons _ _ _ _ Ho')).
  pose proof (Z.mod_pos_bound v 128 ltac:(lia)) as Hm.
  rewrite land_128, (proj2 (Z.ltb_ge _ _)) by (unfold is_byte; lia).
  change (128 =? 0) with false. cbv iota. rewrite land_127, byte_mod.
  destruct (Nat.le_exists_sub 9 (S (Z.to_nat (i_bytes_left (consumed s 1)))) ltac:(lia))
    as (f & -> & _). rewrite Nat.add_comm.
  assert (Ho1 : offers (mem w) (consumed s 1) (tail (varint_bytes (2 ^ 64 + v)) ++ rest)).
  { apply offers_tail in Ho'. by rewrite varint_bytes_negative. }
  pose proof (varint32_loop_negative f _ w v rest Hv Ho1) as E.
  change (2 ^ 7) with 128 in E. rewrite (bind_done _ _ _ _ _ E), consumed_consumed. done.
Qed.

(** A 32-bit value, or a negative one sign-extended to 64 bits. *)
Lemma varint32_eof_parses v s w rest :
  - 2 ^ 31 <= v < 2 ^ 32 -> offers (mem w) s (varint_bytes (u64 v) ++ rest) ->
  pb_decode_varint32_eof s w =
  Done (Some (u32 v), false, consumed s (length (varint_bytes (u64 v)))) w.
Proof.
  intros Hv Ho. destruct (Z_lt_dec v 0).
  - replace (u64 v) with (2 ^ 64 + v) in *
      by (unfold wrap; rewrite <- (Z_mod_plus_full v 1), Z.mod_small; lia).
    rewrite (varint32_eof_negative v _ _ rest) by (lia || done).
    rewrite varint_bytes_negative by lia. cbn [length]. do 5 f_equal.
    unfold wrap; rewrite <- (Z_mod_plus_full v 1), Z.mod_small; lia.
  - rewrite !wrap_small in * by lia. apply (varint32_eof_small v s w rest); [lia|done].
Qed.

Lemma parses_varint32 v :
  - 2 ^ 31 <= v < 2 ^ 32 -> parses pb_decode_varint32 (varint_bytes (u64 v)) (u32 v).
Proof.
  intros Hv s w rest Ho. unfold pb_decode_varint32.
  by rewrite (bind_done _ _ _ _ _ (varint32_eof_parses _ _ _ _ Hv Ho)).
Qed.

Lemma parses_varint32_nonneg v :
  0 <= v < 2 ^ 32 -> parses pb_decode_varint32 (varint_bytes v) v.
Proof.
  intros Hv. pose proof (parses_varint32 v ltac:(lia)) as H. by rewrite !wrap_small in H by lia.
Qed.

(** On any input the loop returns, within the contents. *)
Lemma varint32_loop_safe bs fuel s w r k :
  offers (mem w) s bs -> (length bs < fuel)%nat -> 0 <= r < 2 ^ 32 ->
  exists o n e, varint32_loop fuel s r k w = Done (o, advanced s n e) w /\ (n <= length bs)%nat /\
    match o with Some (r, _, _) => e = i_errmsg s /\ 0 <= r < 2 ^ 32 | None => e <> None end.
Proof.
  revert fuel s r k. induction bs as [|b bs IH]; intros fuel s r k Ho Hfuel Hr;
    (destruct fuel as [|fuel]; [cbn in Hfuel; lia|]); cbn [varint32_loop].
  { rewrite (bind_val_none _ _ _ _ _ (pb_readbyte_nil _ _ Ho)). eexists None, 0%nat, _.
    split; [by rewrite advanced_0|]. split; [lia|apply PB_SET_ERROR_some]. }
  rewrite (bind_val_done _ _ _ _ _ _ (pb_readbyte_cons _ _ _ _ Ho)). cbn [length] in *.
  assert (Hmore : forall r, 0 <= r < 2 ^ 32 ->
    exists o n e, (if negb (Z.land b 128 =? 0) then varint32_loop fuel (consumed s 1) r (u8 (k + 7))
                   else mret (Some (r, u8 (k + 7), b), consumed s 1)) w
                  = Done (o, advanced s n e) w /\ (n <= S (length bs))%nat /\
    match o with Some (r, _, _) => e = i_errmsg s /\ 0 <= r < 2 ^ 32 | None => e <> None end).
  { intros r' Hr'. destruct (negb _).
    - destruct (IH fuel _ r' (u8 (k + 7)) (offers_tail _ _ _ _ Ho)) as (o & n & e & -> & Hn & He); [lia|done|].
      unfold consumed. rewrite advanced_advanced. eexists o, _, e. split; [done|]. split; [lia|done].
    - eexists (Some _), 1%nat, _. split; [done|]. split; [lia|done]. }
  destruct (32 <=? k); [|apply Hmore, lor_bounds; [lia|lia|apply wrap_bounds; lia]]. destruct (_ && _); [|by apply Hmore].
  eexists None, 1%nat, _. split; [done|]. split; [lia|apply PB_SET_ERROR_some].
Qed.

Lemma varint32_eof_safe s w bs :
  offers (mem w) s bs ->
  exists o eof n e, pb_decode_varint32_eof s w = Done (o, eof, advanced s n e) w /\
    (min 1 (length bs) <= n <= length bs)%nat /\ eof = bool_decide (bs = []) /\
    match o with
    | Some v => e = i_errmsg s /\ eof = false /\ 0 <= v < 2 ^ 32
    | None => e <> None
    end.
Proof.
  intros Ho. unfold pb_decode_varint32_eof. destruct bs as [|b bs].
  { rewrite (bind_done _ _ _ _ _ (pb_readbyte_nil _ _ Ho)). pose proof (offers_left _ _ _ Ho) as Hl.
    eexists None, _, 0%nat, _. split; [by rewrite advanced_0|]. cbn [i_bytes_left is_set_error].
    rewrite Hl. split; [cbn; lia|]. split; [done|apply PB_SET_ERROR_some]. }
  rewrite (bind_done _ _ _ _ _ (pb_readbyte_cons _ _ _ _ Ho)). rewrite bool_decide_false by done.
  pose proof (offers_head _ _ _ _ Ho) as Hb. unfold is_byte in Hb.
  cbn [length Nat.min]. destruct (Z.land b 128 =? 0).
  { eexists (Some _), _, 1%nat, _. split; [done|]. split; [lia|]. split; [done|]. split; [done|].
    split; [done|lia]. }
  pose proof (offers_tail _ _ _ _ Ho) as Ho'. pose proof (offers_left _ _ _ Ho') as Hl.
  destruct (varint32_loop_safe bs (S (Z.to_nat (i_bytes_left (consumed s 1)))) _ w
              (Z.land b 127) 7 Ho') as (o & n & e & E & Hn & He); [lia| |].
  { rewrite land_127. pose proof (Z.mod_pos_bound b 128). lia. }
  rewrite (bind_done _ _ _ _ _ E). unfold consumed. rewrite advanced_advanced.
  destruct o as [[[r k] b']|].
  - destruct (_ && _).
    + eexists None, _, (1 + n)%nat, _. split; [done|]. split; [lia|].
      split; [done|apply PB_SET_ERROR_some].
    + eexists (Some r), _, (1 + n)%nat, e. split; [done|]. split; [lia|]. destruct He. by repeat (split; [done|]).
  - eexists None, _, (1 + n)%nat, e. split; [done|]. split; [lia|]. done.
Qed.

Lemma safe_varint32 : safe pb_decode_varint32 (fun v => 0 <= v < 2 ^ 32).
Proof.
  intros s w bs Ho. destruct (varint32_eof_safe s w bs Ho) as (o & eof & n & e & E & Hn & _ & He).
  unfold pb_decode_varint32. rewrite (bind_done _ _ _ _ _ E).
  exists o, n, e. split; [done|]. split; [lia|]. destruct o; [by destruct He as (? & ? & ?)|done].
Qed.

(** ** Fixed-width integers *)

Lemma lor_byte_group (r b : Z) (k : Z) :
  0 <= k -> 0 <= r < 2 ^ k -> Z.lor r (Z.shiftl b k) = r + 2 ^ k * b.
Proof. intros. rewrite lor_shiftl_add by lia. lia. Qed.

(** [store] of a value that was put together from bytes stores these bytes. *)
Lemma store_le_val n bs a :
  Forall is_byte bs -> length bs = n -> store n a (le_val bs) = store_bytes a bs.
Proof. intros Hb <-. unfold store. by rewrite le_bytes_le_val. Qed.

Lemma store_eq {A} n dest a b (k : unit -> M A) w :
  a = b -> (store n dest a ≫= k) w = (store n dest b ≫= k) w.
Proof. by intros ->. Qed.

Lemma pb_decode_fixed32_spec s w dest bs rest :
  offers (mem w) s (bs ++ rest) -> length bs = 4%nat ->
  pb_decode_fixed32 s dest w =
  (store_bytes dest bs ;; mret (true, consumed s 4)) w.
Proof.
  intros Ho Hl. unfold pb_decode_fixed32.
  pose proof (offers_byte _ _ _ Ho) as [Hb _]%Forall_app.
  assert (E := pb_read_local s w bs rest Ho). rewrite Hl in E. change (Z.of_nat 4) with 4 in E.
  rewrite (bind_ok_done _ _ _ _ _ _ E).
  destruct bs as [|b0 [|b1 [|b2 [|b3 [|]]]]]; try done.
  rewrite <- (store_le_val 4 _ dest Hb eq_refl).
  rewrite !Forall_cons in Hb. unfold is_byte in Hb.
  rewrite (Z.shiftl_0_r b0), (lor_byte_group b0 b1 8), (lor_byte_group _ b2 16),
    (lor_byte_group _ b3 24) by lia.
  apply store_eq. cbn [le_val]. lia.
Qed.

Lemma pb_decode_fixed64_spec s w dest bs rest :
  offers (mem w) s (bs ++ rest) -> length bs = 8%nat ->
  pb_decode_fixed64 s dest w =
  (store_bytes dest bs ;; mret (true, consumed s 8)) w.
Proof.
  intros Ho Hl. unfold pb_decode_fixed64.
  pose proof (offers_byte _ _ _ Ho) as [Hb _]%Forall_app.
  assert (E := pb_read_local s w bs rest Ho). rewrite Hl in E. change (Z.of_nat 8) with 8 in E.
  rewrite (bind_ok_done _ _ _ _ _ _ E).
  destruct bs as [|b0 [|b1 [|b2 [|b3 [|b4 [|b5 [|b6 [|b7 [|]]]]]]]]]; try done.
  rewrite <- (store_le_val 8 _ dest Hb eq_refl).
  rewrite !Forall_cons in Hb. unfold is_byte in Hb.
  rewrite (Z.shiftl_0_r b0), (lor_byte_group b0 b1 8), (lor_byte_group _ b2 16),
    (lor_byte_group _ b3 24), (lor_byte_group _ b4 32), (lor_byte_group _ b5 40),
    (lor_byte_group _ b6 48), (lor_byte_group _ b7 56) by lia.
  apply store_eq. cbn [le_val]. lia.
Qed.

(** ** Tags *)

Lemma tag_key_split wt t :
  0 <= wt < 8 -> Z.land (tag_key wt t) 7 = wt /\ Z.shiftr (tag_key wt t) 3 = t.
Proof.
  intros. change 7 with (Z.ones 3). rewrite Z.land_ones, Z.shiftr_div_pow2 by lia.
  change (2 ^ 3) with 8. unfold tag_key. split.
  - rewrite Z.add_comm, Z_mod_plus_full, Z.mod_small; lia.
  - rewrite Z.div_add_l, Z.div_small; lia.
Qed.

Lemma pb_decode_tag_spec wt t s w rest :
  0 <= wt < 8 -> 0 < t < 2 ^ 29 -> offers (mem w) s (varint_bytes (tag_key wt t) ++ rest) ->
  pb_decode_tag s w =
  Done (true, TagOut wt t false, consumed s (length (varint_bytes (tag_key wt t)))) w.
Proof.
  intros Hwt Ht Ho. unfold pb_decode_tag.
  assert (Hk : 0 < tag_key wt t < 2 ^ 32) by (unfold tag_key; lia).
  rewrite (bind_done _ _ _ _ _ (varint32_eof_small (tag_key wt t) s w rest ltac:(lia) Ho)).
  rewrite (proj2 (Z.eqb_neq _ _)) by lia.
  by destruct (tag_key_split wt t Hwt) as [-> ->].
Qed.

(** On any input: a zero byte or the end of the stream is reported as [eof]. *)
Lemma pb_decode_tag_safe s w bs :
  offers (mem w) s bs ->
  exists ok out n e, pb_decode_tag s w = Done (ok, out, advanced s n e) w /\
    (min 1 (length bs) <= n <= length bs)%nat /\
    (bs = [] -> to_eof out = true) /\
    (if ok : bool then e = i_errmsg s /\ 0 <= to_wire_type out < 8 /\ 0 <= to_tag out < 2 ^ 29 else
     to_eof out = false -> e <> None).
Proof.
  intros Ho. destruct (varint32_eof_safe s w bs Ho) as (o & eof & n & e & E & Hn & Heof & He).
  unfold pb_decode_tag. rewrite (bind_done _ _ _ _ _ E). destruct o as [v|].
  - destruct (v =? 0).
    + eexists false, _, n, e. split; [done|]. split; [done|]. by split.
    + eexists true, _, n, e. split; [done|]. split; [done|]. cbn [to_eof to_wire_type].
      destruct He as (He & -> & Hv). split.
      * intros ->. by rewrite bool_decide_true in Heof.
      * split; [done|]. cbn [to_tag]. change 7 with (Z.ones 3).
        rewrite Z.land_ones, Z.shiftr_div_pow2 by lia. change (2 ^ 3) with 8.
        split; [apply Z.mod_pos_bound; lia|].
        split; [apply Z.div_pos; lia|apply Z.div_lt_upper_bound; lia].
  - eexists false, _, n, e. split; [done|]. split; [done|]. split; [|done].
    intros ->. cbn. rewrite Heof. done.
Qed.

(** ** Skipping unknown fields *)

(** The encodings of a value of the wire type [wt]. *)
Inductive wire_value : Z -> list Z -> Prop :=
  | wv_varint bs : varint_shape bs -> wire_value PB_WT_VARINT bs
  | wv_64bit bs : length bs = 8%nat -> wire_value PB_WT_64BIT bs
  | wv_string bs : Z.of_nat (length bs) < 2 ^ 32 -> wire_value PB_WT_STRING (delimited bs)
  | wv_32bit bs : length bs = 4%nat -> wire_value PB_WT_32BIT bs.

Lemma pb_read_one s w b bs :
  offers (mem w) s (b :: bs) -> pb_read s RLocal 1 w = Done (Some [b], consumed s 1) w.
Proof. apply (pb_read_local s w [b] bs). Qed.

Lemma pb_skip_varint_loop_spec fuel s w bs rest :
  varint_shape bs -> offers (mem w) s (bs ++ rest) -> (length bs <= fuel)%nat ->
  pb_skip_varint_loop fuel s w = Done (true, consumed s (length bs)) w.
Proof.
  intros Hbs. revert fuel s. induction Hbs as [b Hb|b bs Hb _ IH];
    intros fuel s Ho Hf; cbn [length app] in *; (destruct fuel as [|fuel]; [lia|]);
    cbn [pb_skip_varint_loop]; rewrite (bind_ok_done _ _ _ _ _ _ (pb_read_one _ _ _ _ Ho));
    cbn [lookup list_lookup of_option]; rewrite bind_ret, (continues _ (offers_head _ _ _ _ Ho)).
  - by rewrite (proj2 (Z.ltb_lt _ _)) by lia.
  - rewrite (proj2 (Z.ltb_ge _ _)) by lia. cbn [negb].
    rewrite IH by (lia || by apply offers_tail in Ho). by rewrite consumed_consumed.
Qed.

Lemma accepts_string bs :
  Z.of_nat (length bs) < 2 ^ 32 -> accepts pb_skip_string (delimited bs).
Proof.
  intros Hl. apply (accepts_bind pb_decode_varint32 _ _ _ (Z.of_nat (length bs))).
  - apply parses_varint32_nonneg. lia.
  - by apply accepts_skip.
Qed.

Lemma pb_skip_field_value wt bs :
  wire_value wt bs -> accepts (fun s => pb_skip_field s wt) bs.
Proof.
  intros Hwv s w rest. destruct Hwv as [bs Hb|bs Hb|bs Hb|bs Hb]; intros Ho;
    unfold pb_skip_field; cbn [Z.eqb Pos.eqb].
  - apply (pb_skip_varint_loop_spec _ _ _ _ rest); [done..|].
    rewrite (offers_left _ _ _ Ho), length_app. lia.
  - by apply (accepts_skip 8 bs ltac:(lia)) with rest.
  - by apply (accepts_string bs) with rest.
  - by apply (accepts_skip 4 bs ltac:(lia)) with rest.
Qed.

Lemma pb_skip_varint_loop_safe bs fuel s w :
  offers (mem w) s bs -> (length bs < fuel)%nat ->
  exists o n e, pb_skip_varint_loop fuel s w = Done (o, advanced s n e) w /\
    (n <= length bs)%nat /\ (if o : bool then e = i_errmsg s else e <> None).
Proof.
  revert fuel s. induction bs as [|b bs IH]; intros fuel s Ho Hf;
    (destruct fuel as [|fuel]; [cbn in Hf; lia|]); cbn [pb_skip_varint_loop].
  - rewrite (bind_ok_none _ _ _ _ _ (pb_read_short s RLocal 1 w [] Ho ltac:(done))).
    eexists false, 0%nat, _. split; [by rewrite advanced_0|]. split; [lia|apply PB_SET_ERROR_some].
  - rewrite (bind_ok_done _ _ _ _ _ _ (pb_read_one _ _ _ _ Ho)).
    cbn [lookup list_lookup of_option length] in *. rewrite bind_ret. destruct (negb _).
    + destruct (IH fuel _ (offers_tail _ _ _ _ Ho)) as (o & n & e & -> & Hn & He); [lia|].
      unfold consumed. rewrite advanced_advanced. eexists o, _, e. split; [done|]. split; [lia|done].
    + eexists true, 1%nat, _. split; [done|]. split; [lia|done].
Qed.

Lemma safe_skip_string : safe_ok pb_skip_string.
Proof.
  apply (safe_ok_bind pb_decode_varint32 _ _ safe_varint32). intros n Hn. apply (safe_skip n). lia.
Qed.

Lemma safe_skip_field wt : safe_ok (fun s => pb_skip_field s wt).
Proof.
  intros s w bs Ho. unfold pb_skip_field.
  destruct (wt =? PB_WT_VARINT).
  { apply pb_skip_varint_loop_safe; [done|]. rewrite (offers_left _ _ _ Ho). lia. }
  destruct (wt =? PB_WT_64BIT); [by apply (safe_skip 8 ltac:(lia))|].
  destruct (wt =? PB_WT_STRING); [by apply safe_skip_string|].
  destruct (wt =? PB_WT_32BIT); [by apply (safe_skip 4 ltac:(lia))|].
  by apply safe_ok_error.
Qed.

(** ** Substreams *)

(** The length of the parent after [pb_make_string_substream]; its state is
    that of the substream until it is closed. *)
Definition parent_of (p : pb_istream_t) (rest : list Z) : pb_istream_t :=
  is_with_left p (Z.of_nat (length rest)).

Definition substream_of (p : pb_istream_t) (body : list Z) : pb_istream_t :=
  is_with_left p (Z.of_nat (length body)).

Lemma make_substream_run s w n len body rest e :
  offers (mem w) s (n ++ body ++ rest) -> len = Z.of_nat (length body) ->
  pb_decode_varint32 s w = Done (Some len, advanced s (length n) e) w ->
  pb_make_string_substream s w =
  Done (Some (substream_of (advanced s (length n) e) body),
        parent_of (advanced s (length n) e) rest) w.
Proof.
  intros Ho -> E. unfold pb_make_string_substream. rewrite (bind_val_done _ _ _ _ _ _ E).
  apply (offers_advanced _ _ _ _ e) in Ho. pose proof (offers_left _ _ _ Ho) as Hl.
  rewrite length_app in Hl. rewrite (proj2 (Z.ltb_ge _ _)) by lia.
  rewrite (u64_left _ _ _ _ Ho) by (rewrite length_app; lia).
  unfold parent_of. rewrite Hl. unfold mret, M_ret. do 4 f_equal. lia.
Qed.

Lemma pb_make_string_substream_spec s w body rest :
  Z.of_nat (length body) < 2 ^ 32 -> offers (mem w) s (delimited body ++ rest) ->
  let p := consumed s (length (varint_bytes (Z.of_nat (length body)))) in
  pb_make_string_substream s w = Done (Some (substream_of p body), parent_of p rest) w /\
  offers (mem w) (substream_of p body) body.
Proof.
  intros Hl Ho p. unfold delimited in Ho. rewrite <- app_assoc in Ho.
  pose proof (parses_varint32_nonneg (Z.of_nat (length body)) ltac:(lia) s w _ Ho) as E. split.
  - by apply (make_substream_run _ _ _ _ _ _ _ Ho eq_refl E).
  - apply offers_consumed in Ho. by apply offers_prefix in Ho.
Qed.

Lemma pb_make_string_substream_short s w len rest :
  0 <= len < 2 ^ 32 -> Z.of_nat (length rest) < len ->
  offers (mem w) s (varint_bytes len ++ rest) ->
  exists s', pb_make_string_substream s w = Done (None, s') w /\ i_errmsg s' <> None.
Proof.
  intros Hl Hr Ho. unfold pb_make_string_substream.
  rewrite (bind_val_done _ _ _ _ _ _ (parses_varint32_nonneg _ Hl s w _ Ho)).
  apply offers_consumed in Ho. rewrite (offers_left _ _ _ Ho).
  rewrite (proj2 (Z.ltb_lt _ _)) by lia. eexists. split; [done|apply PB_SET_ERROR_some].
Qed.

(** Closing moves the parent past the whole substream, read or not. *)
Lemma pb_close_string_substream_spec p w body rest n e :
  offers (mem w) p (body ++ rest) -> (n <= length body)%nat ->
  pb_close_string_substream (parent_of p rest)
    (advanced (substream_of p body) n e) w =
  Done (true, advanced p (length body) e) w.
Proof.
  intros Ho Hn. unfold pb_close_string_substream.
  assert (Hb : i_bytes_left (advanced (substream_of p body) n e) =
               Z.of_nat (length (drop n body))) by (cbn; rewrite length_drop; lia).
  assert (Ho' : offers (mem w) (advanced (substream_of p body) n e) (drop n body)).
  { apply offers_prefix in Ho. by apply offers_take. }
  assert (E : (if negb (i_bytes_left (advanced (substream_of p body) n e) =? 0)
    then pb_read_ (advanced (substream_of p body) n e) RNull
           (i_bytes_left (advanced (substream_of p body) n e))
    else mret (true, advanced (substream_of p body) n e)) w =
    Done (true, advanced (substream_of p body) (length body) e) w).
  { destruct (Z.eqb_spec (i_bytes_left (advanced (substream_of p body) n e)) 0) as [E|E].
    - rewrite Hb, length_drop in E. cbn [negb]. by replace n with (length body) by lia.
    - cbn [negb]. rewrite Hb. rewrite <- (app_nil_r (drop n body)) in Ho'.
      rewrite (pb_read_skip _ _ _ _ Ho'). unfold consumed. rewrite advanced_advanced, length_drop.
      by replace (n + (length body - n))%nat with (length body) by lia. }
  rewrite (bind_done _ _ _ _ _ E). cbn [negb]. unfold mret, M_ret, advanced, parent_of, substream_of.
  cbn. do 3 f_equal. pose proof (offers_left _ _ _ Ho) as Hl. rewrite length_app in Hl. lia.
Qed.

(** On any input, a substream is made within the contents, or none. *)
Lemma pb_make_string_substream_safe s w bs :
  offers (mem w) s bs ->
  (exists n e, pb_make_string_substream s w = Done (None, advanced s n e) w /\
     (n <= length bs)%nat /\ e <> None) \/
  (exists pre body rest, bs = pre ++ body ++ rest /\
     pb_make_string_substream s w =
       Done (Some (substream_of (consumed s (length pre)) body),
             parent_of (consumed s (length pre)) rest) w).
Proof.
  intros Ho. destruct (safe_varint32 s w bs Ho) as (o & n & e & E & Hn & He).
  destruct o as [len|].
  - destruct He as [-> Hlen]. pose proof (offers_take _ _ _ n (i_errmsg s) Ho Hn) as Ho'.
    pose proof (offers_left _ _ _ Ho') as Hl.
    destruct (Z_lt_dec (Z.of_nat (length (drop n bs))) len) as [Hlt|Hge].
    + left. unfold pb_make_string_substream. rewrite (bind_val_done _ _ _ _ _ _ E).
      rewrite (proj2 (Z.ltb_lt _ _)) by lia.
      eexists n, _. split; [done|]. split; [done|apply PB_SET_ERROR_some].
    + right. exists (take n bs), (take (Z.to_nat len) (drop n bs)), (drop (Z.to_nat len) (drop n bs)).
      rewrite !take_drop. split; [done|].
      assert (Hn' : length (take n bs) = n) by (by apply length_take_le).
      rewrite <- Hn' in E.
      apply (make_substream_run s w (take n bs) len _ _ (i_errmsg s)); [by rewrite !take_drop| |done].
      rewrite length_take_le; lia.
  - left. exists n, e. split; [|done]. unfold pb_make_string_substream.
    by rewrite (bind_val_none _ _ _ _ _ E).
Qed.

End Wire.

Section Codec.
Context {PD : PbDescriptors} {EC : EncCallbacks} {DC : DecCallbacks}.

Lemma writes_parses {A} m (f : pb_ostream_t -> ores)
    (g : pb_istream_t -> M (option A * pb_istream_t)) bs a w buf size :
  writes m f bs -> Forall is_byte bs -> parses g bs a ->
  buffer_for m w buf size -> Z.of_nat (length bs) <= size ->
  exists os w' ist,
    f (pb_ostream_from_buffer buf size) w = Done (true, os) w' /\
    g (pb_istream_from_buffer (IsPtr buf) (o_bytes_written os)) w' = Done (Some a, ist) w' /\
    i_bytes_left ist = 0.
Proof.
  intros Hw Hb Hp Hbuf Hl. pose proof Hbuf as (_ & Hsize & _).
  destruct (writes_to_buffer m f bs w buf size Hw Hbuf Hl) as (os & w' & E & Hn & Hr & _).
  exists os, w', (consumed (pb_istream_from_buffer (IsPtr buf) (o_bytes_written os)) (length bs)).
  rewrite Hn. split; [done|]. split.
  - apply (Hp _ w' []). rewrite app_nil_r. apply offers_from_buffer; [done|done|lia].
  - cbn. lia.
Qed.

(** The same for a value that is decoded into memory. *)
Lemma writes_offers m (f : pb_ostream_t -> ores) bs w buf size :
  writes m f bs -> Forall is_byte bs -> buffer_for m w buf size -> Z.of_nat (length bs) <= size ->
  exists os w',
    f (pb_ostream_from_buffer buf size) w = Done (true, os) w' /\
    offers (mem w') (pb_istream_from_buffer (IsPtr buf) (o_bytes_written os)) bs /\
    (forall x, is_Some (mem w' !! x) <-> is_Some (mem w !! x)).
Proof.
  intros Hw Hb Hbuf Hl. pose proof Hbuf as (_ & Hsize & Hmap & _).
  destruct (writes_to_buffer m f bs w buf size Hw Hbuf Hl) as (os & w' & E & Hn & Hr & Hf).
  exists os, w'. split; [done|]. rewrite Hn. split; [apply offers_from_buffer; [done|done|lia]|].
  intros x. destruct (decide (buf <= x < buf + Z.of_nat (length bs))) as [Hx|Hx].
  - split; intros _; [apply Hmap; lia|].
    pose proof (read_bytes_lookup _ _ _ _ (Z.to_nat (x - buf)) Hr ltac:(lia)) as E'.
    replace (buf + Z.of_nat (Z.to_nat (x - buf))) with x in E' by lia. rewrite E'.
    apply lookup_lt_is_Some. lia.
  - by rewrite Hf.
Qed.

(** a 64-bit value that [pb_encode_varint] writes is what [pb_decode_varint]
    reads back, and the whole encoding is consumed. *)
Theorem varint_roundtrip v w buf :
  0 <= v < 2 ^ 64 -> mapped (mem w) buf 10 ->
  exists os w' ist,
    pb_encode_varint (pb_ostream_from_buffer buf 10) v w = Done (true, os) w' /\
    pb_decode_varint (pb_istream_from_buffer (IsPtr buf) (o_bytes_written os)) w' =
      Done (Some v, ist) w' /\ i_bytes_left ist = 0.
Proof.
  intros Hv Hm. pose proof (varint_bytes_length v).
  apply (writes_parses ∅ (fun s => pb_encode_varint s v) _ (varint_bytes v));
    [by apply pb_encode_varint_writes|by apply varint_bytes_byte|by apply parses_varint| |lia].
  split; [apply map_empty_subseteq|]. split; [lia|]. split; [done|]. intros x _. apply lookup_empty.
Qed.

(** a signed 64-bit value survives [pb_encode_svarint] and
    [pb_decode_svarint]: zigzag encoding loses nothing. *)
Theorem svarint_roundtrip v w buf :
  - 2 ^ 63 <= v < 2 ^ 63 -> mapped (mem w) buf 10 ->
  exists os w' ist,
    pb_encode_svarint (pb_ostream_from_buffer buf 10) v w = Done (true, os) w' /\
    pb_decode_svarint (pb_istream_from_buffer (IsPtr buf) (o_bytes_written os)) w' =
      Done (Some v, ist) w' /\ i_bytes_left ist = 0.
Proof.
  intros Hv Hm. pose proof (varint_bytes_length (zigzag v)).
  apply (writes_parses ∅ (fun s => pb_encode_svarint s v) _ (varint_bytes (zigzag v)));
    [by apply pb_encode_svarint_writes|by apply varint_bytes_byte, zigzag_bounds
    |by apply parses_svarint| |lia].
  split; [apply map_empty_subseteq|]. split; [lia|]. split; [done|]. intros x _. apply lookup_empty.
Qed.

(** [pb_decode_varint32] reads back every 32-bit value, and the low 32 bits
    of a negative one, which the encoder sign-extends to ten bytes. *)
Theorem varint32_roundtrip v w buf :
  - 2 ^ 31 <= v < 2 ^ 32 -> mapped (mem w) buf 10 ->
  exists os w' ist,
    pb_encode_varint (pb_ostream_from_buffer buf 10) (u64 v) w = Done (true, os) w' /\
    pb_decode_varint32 (pb_istream_from_buffer (IsPtr buf) (o_bytes_written os)) w' =
      Done (Some (u32 v), ist) w' /\ i_bytes_left ist = 0.
Proof.
  intros Hv Hm. pose proof (varint_bytes_length (u64 v)).
  assert (0 <= u64 v < 2 ^ 64) by (apply wrap_bounds; lia).
  apply (writes_parses ∅ (fun s => pb_encode_varint s (u64 v)) _ (varint_bytes (u64 v)));
    [by apply pb_encode_varint_writes|by apply varint_bytes_byte|by apply parses_varint32| |lia].
  split; [apply map_empty_subseteq|]. split; [lia|]. split; [done|]. intros x _. apply lookup_empty.
Qed.

(** a 64-bit value of memory that [pb_encode_fixed64] writes is stored by
    [pb_decode_fixed64] at any writable address. *)
Theorem fixed64_roundtrip m p v w buf dest :
  wf_mem m -> read_le m 8 p = Some v -> buffer_for m w buf 8 -> mapped (mem w) dest 8 ->
  exists os w1 ist w2,
    pb_encode_fixed64 (pb_ostream_from_buffer buf 8) p w = Done (true, os) w1 /\
    pb_decode_fixed64 (pb_istream_from_buffer (IsPtr buf) (o_bytes_written os)) dest w1 =
      Done (true, ist) w2 /\
    read_le (mem w2) 8 dest = Some v /\ i_bytes_left ist = 0.
Proof.
  intros Hm Hr Hb Hd. pose proof (read_le_bound _ _ _ _ Hm Hr) as Hv.
  assert (Hl : length (le_bytes 8 v) = 8%nat) by apply length_le_bytes.
  destruct (writes_offers m _ _ w buf 8 (pb_encode_fixed64_writes m p v Hm Hr)
              (le_bytes_is_byte 8 v) Hb) as (os & w1 & E & Ho & Hdom); [lia|].
  destruct (write_bytes_mapped (mem w1) dest (le_bytes 8 v)) as [m2 E2].
  { rewrite Hl. intros x Hx. apply Hdom, Hd. lia. }
  exists os, w1, (consumed (pb_istream_from_buffer (IsPtr buf) (o_bytes_written os)) 8),
    (set_mem m2 w1).
  pose proof (offers_left _ _ _ Ho) as Hleft. rewrite Hl in Hleft. split; [done|]. split; [|split].
  - rewrite <- (app_nil_r (le_bytes 8 v)) in Ho. rewrite (pb_decode_fixed64_spec _ _ _ _ _ Ho Hl).
    unfold store_bytes, mbind, M_bind. by rewrite E2.
  - apply write_bytes_inv in E2 as (_ & Hr2 & _). rewrite Hl in Hr2. by apply read_le_bytes_val.
  - cbn in *. lia.
Qed.

(** the field number and the wire type that [pb_encode_tag] writes are what
    [pb_decode_tag] returns. *)
Theorem tag_roundtrip wt t w buf :
  0 <= wt < 8 -> 0 < t < 2 ^ 29 -> mapped (mem w) buf 10 ->
  exists os w' ist,
    pb_encode_tag (pb_ostream_from_buffer buf 10) wt t w = Done (true, os) w' /\
    pb_decode_tag (pb_istream_from_buffer (IsPtr buf) (o_bytes_written os)) w' =
      Done (true, TagOut wt t false, ist) w' /\ i_bytes_left ist = 0.
Proof.
  intros Hwt Ht Hm. pose proof (varint_bytes_length (tag_key wt t)) as Hl.
  destruct (writes_offers ∅ _ _ w buf 10 (pb_encode_tag_writes ∅ wt t Hwt ltac:(lia)))
    as (os & w' & E & Ho & _).
  - apply varint_bytes_byte, tag_key_bounds; lia.
  - split; [apply map_empty_subseteq|]. split; [lia|]. split; [done|].
    intros x _. apply lookup_empty.
  - lia.
  - exists os, w'. eexists. split; [done|]. pose proof (offers_left _ _ _ Ho) as Hleft.
    rewrite <- (app_nil_r (varint_bytes (tag_key wt t))) in Ho.
    split; [by apply (pb_decode_tag_spec wt t _ _ [])|]. cbn in *. lia.
Qed.

(** on any input, [pb_decode_varint] returns the value, modulo 2^64, of the
    terminated varint of at most ten bytes at the head of the stream, and
    consumes exactly this varint; otherwise it fails with "varint overflow"
    after ten bytes or "end-of-stream" after fewer. *)
Theorem pb_decode_varint_total s w bs :
  offers (mem w) s bs ->
  pb_decode_varint s w =
    match scan_varint 10 bs with
    | Some v => Done (Some (u64 (varint_val v)), consumed s (length v)) w
    | None =>
        Done (None, advanced s (min 10 (length bs))
                      (PB_SET_ERROR (i_errmsg s)
                         (if (10 <=? length bs)%nat then "varint overflow"
                          else "end-of-stream"))) w
    end.
Proof. apply pb_decode_varint_spec. Qed.

(** [pb_skip_field] moves over exactly one value of the wire type, and
    changes no memory. *)
Theorem pb_skip_field_exact wt bs rest s w :
  wire_value wt bs -> offers (mem w) s (bs ++ rest) ->
  pb_skip_field s wt w = Done (true, consumed s (length bs)) w /\
  offers (mem w) (consumed s (length bs)) rest.
Proof.
  intros Hv Ho. split; [by apply (pb_skip_field_value wt bs Hv s w rest)|].
  by apply offers_consumed.
Qed.

(** on any input and for any wire type, [pb_skip_field] returns, reads no
    byte after the end of the stream and changes no memory. *)
Theorem pb_skip_field_safe wt s w bs :
  offers (mem w) s bs ->
  exists ok n e, pb_skip_field s wt w = Done (ok, advanced s n e) w /\
    (n <= length bs)%nat /\ (if ok : bool then e = i_errmsg s else e <> None).
Proof. apply safe_skip_field. Qed.

(** a substream made of a delimited string holds exactly its bytes; however
    much of it is read, closing it leaves the parent after the string. *)
Theorem substream_exact s w body rest n e :
  Z.of_nat (length body) < 2 ^ 32 -> offers (mem w) s (delimited body ++ rest) ->
  (n <= length body)%nat ->
  exists sub parent,
    pb_make_string_substream s w = Done (Some sub, parent) w /\
    offers (mem w) sub body /\ i_bytes_left sub = Z.of_nat (length body) /\
    pb_close_string_substream parent (advanced sub n e) w =
      Done (true, advanced s (length (delimited body)) e) w /\
    offers (mem w) (advanced s (length (delimited body)) e) rest.
Proof.
  intros Hl Ho Hn. destruct (pb_make_string_substream_spec s w body rest Hl Ho) as [E Hs].
  eexists _, _. split; [exact E|]. split; [exact Hs|]. split; [done|].
  split; [|by apply offers_advanced].
  unfold delimited in *. rewrite <- app_assoc in Ho. apply offers_consumed in Ho.
  rewrite (pb_close_string_substream_spec _ _ _ _ _ _ Ho Hn).
  unfold consumed. by rewrite advanced_advanced, length_app.
Qed.

End Codec.
