(* ===== verification/PbDecodeMsg.v ===== *)
(** nanopb's decoder (pb_decode.c): the decoders of field values, fields and
    messages.

    The count of a repeated field is in the message, or, for a fixed-count
    field, in the local variable [fixed_count_size] of [pb_decode_noinit], whose
    value every function that may store to it takes and returns. *)
From S2P Require Import Prelude Memory PbTypes PbRelease PbDecode.

Definition PB_MAX_REQUIRED_FIELDS : Z := 64.

(** [&fixed_count_size]: no object of the memory has this address. *)
Definition fixed_count_addr : Z := -1.

Section Messages.
Context {PD : PbDescriptors} {DC : DecCallbacks}.

(** A stream and the value of [fixed_count_size]. *)
Definition fres : Type := M (bool * (pb_istream_t * Z)).

Definition with_count (count : Z) (m : ires) : fres :=
  '(ok, s) ← m; mret (ok, (s, count)).

Definition f_return_error (s : pb_istream_t) (count : Z) (msg : string) : fres :=
  mret (false, (is_set_error s msg, count)).

(** Load and store through [pb_size_t *size]. *)
Definition load_size (psize count : Z) : M Z :=
  if psize =? fixed_count_addr then mret count else load 4 psize.

Definition store_size (psize count v : Z) : M Z :=
  if psize =? fixed_count_addr then mret v else store 4 psize v ;; mret count.

(** ** Allocation *)

Definition allocate_field (stream : pb_istream_t) (pData data_size array_size : Z) : ires :=
  p ← load_ptr pData;
  if (data_size =? 0) || (array_size =? 0) then is_return_error stream "invalid size"
  else
    let check_limit := u64 (Z.shiftl 1 (8 * 4)) in
    if ((check_limit <=? data_size) || (check_limit <=? array_size)) &&
       (SIZE_MAX / array_size <? data_size) then
      is_return_error stream "size too large"
    else
      p ← c_realloc p (u64 (array_size * data_size));
      if p =? NULL then is_return_error stream "realloc failed"
      else store_ptr pData p ;; mret (true, stream).

(** ** Scalar field values *)

Definition pb_decoder_t : Type := pb_istream_t -> pb_field_t -> Z -> ires.

Definition pb_dec_bool (stream : pb_istream_t) (field : pb_field_t) (dest : Z) : ires :=
  value,, s <-& pb_decode_varint32 stream;
  store 1 dest (if negb (value =? 0) then 1 else 0) ;;
  mret (true, s).

Definition pb_decode_bool (stream : pb_istream_t) (dest : Z) : ires :=
  pb_dec_bool stream PB_LAST_FIELD dest.

(** [clamped = *(intN_t* )dest = (intN_t)svalue;] and the error cases. *)
Definition store_clamped (s : pb_istream_t) (field : pb_field_t) (dest svalue : Z)
    (cast : nat -> Z -> Z) : ires :=
  if data_size field =? 8 then
    store 8 dest svalue ;;
    if negb (cast 64%nat svalue =? svalue) then is_return_error s "integer too large"
    else mret (true, s)
  else if data_size field =? 4 then
    store 4 dest svalue ;;
    if negb (cast 32%nat svalue =? svalue) then is_return_error s "integer too large"
    else mret (true, s)
  else if data_size field =? 2 then
    store 2 dest svalue ;;
    if negb (cast 16%nat svalue =? svalue) then is_return_error s "integer too large"
    else mret (true, s)
  else if data_size field =? 1 then
    store 1 dest svalue ;;
    if negb (cast 8%nat svalue =? svalue) then is_return_error s "integer too large"
    else mret (true, s)
  else is_return_error s "invalid data_size".

Definition cast_signed (w : nat) (v : Z) : Z := to_signed (Z.of_nat w) v.
Definition cast_unsigned (w : nat) (v : Z) : Z := wrap (Z.of_nat w) v.

Definition pb_dec_varint (stream : pb_istream_t) (field : pb_field_t) (dest : Z) : ires :=
  value,, s <-& pb_decode_varint stream;
  let svalue := if data_size field =? 8 then s64 value else s32 value in
  store_clamped s field dest svalue cast_signed.

Definition pb_dec_uvarint (stream : pb_istream_t) (field : pb_field_t) (dest : Z) : ires :=
  value,, s <-& pb_decode_varint stream;
  store_clamped s field dest value cast_unsigned.

Definition pb_dec_svarint (stream : pb_istream_t) (field : pb_field_t) (dest : Z) : ires :=
  value,, s <-& pb_decode_svarint stream;
  store_clamped s field dest value cast_signed.

Definition pb_dec_fixed32 (stream : pb_istream_t) (field : pb_field_t) (dest : Z) : ires :=
  pb_decode_fixed32 stream dest.

Definition pb_dec_fixed64 (stream : pb_istream_t) (field : pb_field_t) (dest : Z) : ires :=
  pb_decode_fixed64 stream dest.

(** ** Bytes and strings *)

Definition PB_BYTES_ARRAY_T_ALLOCSIZE (n : Z) : Z := u64 (n + pb_bytes_off).

Definition pb_dec_bytes (stream : pb_istream_t) (field : pb_field_t) (dest : Z) : ires :=
  size,, s <-& pb_decode_varint32 stream;
  if PB_SIZE_MAX <? size then is_return_error s "bytes overflow"
  else
    let alloc_size := PB_BYTES_ARRAY_T_ALLOCSIZE size in
    if alloc_size <? size then is_return_error s "size too large"
    else
      let fill (s : pb_istream_t) (bdest : Z) : ires :=
        store 4 bdest size ;;
        pb_read_ s (RMem (bdest + pb_bytes_off)) size in
      if PB_ATYPE (type field) =? PB_ATYPE_POINTER then
        if i_bytes_left s <? size then is_return_error s "end-of-stream"
        else
          s <-? allocate_field s dest alloc_size 1;
          bdest ← load_ptr dest;
          fill s bdest
      else if data_size field <? alloc_size then is_return_error s "bytes overflow"
      else fill s dest.

Definition pb_dec_string (stream : pb_istream_t) (field : pb_field_t) (dest : Z) : ires :=
  size,, s <-& pb_decode_varint32 stream;
  let alloc_size := u32 (size + 1) in
  if alloc_size <? size then is_return_error s "size too large"
  else
    let fill (s : pb_istream_t) (dest : Z) : ires :=
      '(status, s) ← pb_read_ s (RMem dest) size;
      store 1 (dest + size) 0 ;;
      mret (status, s) in
    if PB_ATYPE (type field) =? PB_ATYPE_POINTER then
      if i_bytes_left s <? size then is_return_error s "end-of-stream"
      else
        s <-? allocate_field s dest alloc_size 1;
        dest ← load_ptr dest;
        fill s dest
    else if data_size field <? alloc_size then is_return_error s "string overflow"
    else fill s dest.

Definition pb_dec_fixed_length_bytes (stream : pb_istream_t) (field : pb_field_t) (dest : Z) :
    ires :=
  size,, s <-& pb_decode_varint32 stream;
  if PB_SIZE_MAX <? size then is_return_error s "bytes overflow"
  else if size =? 0 then memset dest 0 (data_size field) ;; mret (true, s)
  else if negb (size =? data_size field) then
    is_return_error s "incorrect fixed length bytes size"
  else pb_read_ s (RMem dest) (data_size field).

(** ** Fields

    [rec] is [pb_decode_noinit] for the messages one level down, and [depth]
    bounds the nesting of the messages that are initialised and released. *)
Section Recursion.
Variable depth : nat.
Variable rec : pb_istream_t -> field_ref -> Z -> ires.

(** [pb_decode] on top of a [pb_decode_noinit]. *)
Definition pb_decode_with (stream : pb_istream_t) (fields : field_ref) (dest_struct : Z) : ires :=
  pb_message_set_to_defaults depth fields dest_struct ;;
  '(status, s) ← rec stream fields dest_struct;
  (if negb status then pb_release depth fields dest_struct else mret tt) ;;
  mret (status, s).

Definition pb_dec_submessage (stream : pb_istream_t) (field : pb_field_t) (dest : Z) : ires :=
  substream,, stream <-& pb_make_string_substream stream;
  match ptr field with
  | PtrNull => is_return_error stream "invalid field descriptor"
  | PtrDefault _ => fault
  | PtrSubmsg fields =>
      '(status, substream) ←
        (if PB_HTYPE (type field) =? PB_HTYPE_REPEATED
         then pb_decode_with substream (fields, 0%nat) dest
         else rec substream (fields, 0%nat) dest);
      s <-? pb_close_string_substream stream substream;
      mret (status, s)
  end.

(** The table indexed by LTYPE; [None] is the null entry of extensions. *)
Definition PB_DECODERS : list (option pb_decoder_t) :=
  [Some pb_dec_bool; Some pb_dec_varint; Some pb_dec_uvarint; Some pb_dec_svarint;
   Some pb_dec_fixed32; Some pb_dec_fixed64;
   Some pb_dec_bytes; Some pb_dec_string; Some pb_dec_submessage;
   None;
   Some pb_dec_fixed_length_bytes].

(** [PB_DECODERS[PB_LTYPE(type)](stream, field, dest)] *)
Definition call_decoder (stream : pb_istream_t) (field : pb_field_t) (dest : Z) : ires :=
  match PB_DECODERS !! Z.to_nat (PB_LTYPE (type field)) with
  | Some (Some func) => func stream field dest
  | _ => fault
  end.

(** The packed array of a static field: the loop stops at the end of the
    substream, at a full array or at an error; it returns [status]. *)
Fixpoint static_packed_loop (fuel : nat) (field : pb_field_t) (iter : pb_field_iter_t)
    (substream : pb_istream_t) (count : Z) : fres :=
  match fuel with
  | O => timeout
  | S fuel' =>
      if negb (0 <? i_bytes_left substream) then mret (true, (substream, count))
      else
        size ← load_size (pSize iter) count;
        if negb (size <? array_size field) then mret (true, (substream, count))
        else
          let pItem := pData iter + u32 (data_size field * size) in
          '(ok, substream) ← call_decoder substream field pItem;
          if negb ok then mret (false, (substream, count))
          else
            size ← load_size (pSize iter) count;
            count ← store_size (pSize iter) count (u32 (size + 1));
            static_packed_loop fuel' field iter substream count
  end.

Definition decode_static_field (stream : pb_istream_t) (wire_type : Z) (iter : pb_field_iter_t)
    (count : Z) : fres :=
  field ← iter_field iter;
  let ty := type field in
  if PB_HTYPE ty =? PB_HTYPE_REQUIRED then
    with_count count (call_decoder stream field (pData iter))
  else if PB_HTYPE ty =? PB_HTYPE_OPTIONAL then
    (if negb (pSize iter =? pData iter) then store 1 (pSize iter) 1 else mret tt) ;;
    with_count count (call_decoder stream field (pData iter))
  else if PB_HTYPE ty =? PB_HTYPE_REPEATED then
    if (wire_type =? PB_WT_STRING) && (PB_LTYPE ty <=? PB_LTYPE_LAST_PACKABLE) then
      '(substream, stream) ← pb_make_string_substream stream;
      match substream with
      | None => mret (false, (stream, count))
      | Some substream =>
          '(status, (substream, count)) ←
            static_packed_loop (S (Z.to_nat (i_bytes_left substream))) field iter substream count;
          if negb (i_bytes_left substream =? 0) then
            f_return_error stream count "array overflow"
          else
            '(closed, stream) ← pb_close_string_substream stream substream;
            mret (closed && status, (stream, count))
      end
    else
      size ← load_size (pSize iter) count;
      let pItem := pData iter + u32 (data_size field * size) in
      count ← store_size (pSize iter) count (u32 (size + 1));
      if array_size field <=? size then f_return_error stream count "array overflow"
      else with_count count (call_decoder stream field pItem)
  else
    (* PB_HTYPE_ONEOF: the mask leaves no other value *)
    which ← load 4 (pSize iter);
    (if (PB_LTYPE ty =? PB_LTYPE_SUBMESSAGE) && negb (which =? tag field) then
       memset (pData iter) 0 (data_size field) ;;
       fields ← submsg_of field;
       pb_message_set_to_defaults depth fields (pData iter)
     else mret tt) ;;
    store 4 (pSize iter) (tag field) ;;
    with_count count (call_decoder stream field (pData iter)).

(** [initialize_pointer_field] *)
Definition initialize_pointer_field (pItem : Z) (iter : pb_field_iter_t) : M unit :=
  field ← iter_field iter;
  let ty := type field in
  if (PB_LTYPE ty =? PB_LTYPE_STRING) || (PB_LTYPE ty =? PB_LTYPE_BYTES) then
    store_ptr pItem NULL
  else if PB_LTYPE ty =? PB_LTYPE_SUBMESSAGE then
    memset pItem 0 (data_size field) ;;
    fields ← submsg_of field;
    pb_message_set_to_defaults depth fields pItem
  else mret tt.

(** The packed array of a pointer field; the message of the stream is set
    directly when the array is full. *)
Fixpoint pointer_packed_loop (fuel : nat) (field : pb_field_t) (iter : pb_field_iter_t)
    (stream substream : pb_istream_t) (allocated_size count : Z) :
    M (bool * (pb_istream_t * pb_istream_t * Z)) :=
  match fuel with
  | O => timeout
  | S fuel' =>
      if i_bytes_left substream =? 0 then mret (true, (stream, substream, count))
      else
        size ← load_size (pSize iter) count;
        if size =? PB_SIZE_MAX then
          mret (false, (PbIstream (i_callback stream) (i_state stream) (i_bytes_left stream)
                          (Some "too many array entries"), substream, count))
        else
          '(ok, (substream, allocated_size)) ←
            (if allocated_size <? u64 (size + 1) then
               if data_size field =? 0 then fault
               else
                 let remain := u64 ((i_bytes_left substream - 1) / data_size field + 1) in
                 let allocated_size :=
                   if remain <? u64 (PB_SIZE_MAX - allocated_size)
                   then u64 (allocated_size + remain) else u64 (allocated_size + 1) in
                 '(ok, substream) ←
                   allocate_field substream (pData iter) (data_size field) allocated_size;
                 mret (ok, (substream, allocated_size))
             else mret (true, (substream, allocated_size)));
          if negb ok then mret (false, (stream, substream, count))
          else
            size ← load_size (pSize iter) count;
            base ← load_ptr (pData iter);
            let pItem := base + u32 (data_size field * size) in
            if pItem =? NULL then mret (false, (stream, substream, count))
            else
              initialize_pointer_field pItem iter ;;
              '(ok, substream) ← call_decoder substream field pItem;
              if negb ok then mret (false, (stream, substream, count))
              else
                size ← load_size (pSize iter) count;
                count ← store_size (pSize iter) count (u32 (size + 1));
                pointer_packed_loop fuel' field iter stream substream allocated_size count
  end.

(** The required, optional and oneof case of [decode_pointer_field]. *)
Definition decode_pointer_single (stream : pb_istream_t) (field : pb_field_t)
    (iter : pb_field_iter_t) : ires :=
  let ty := type field in
  (if PB_LTYPE ty =? PB_LTYPE_SUBMESSAGE then
     p ← load_ptr (pData iter);
     if negb (p =? NULL) then pb_release_single_field depth iter else mret tt
   else mret tt) ;;
  (if PB_HTYPE ty =? PB_HTYPE_ONEOF then store 4 (pSize iter) (tag field) else mret tt) ;;
  if (PB_LTYPE ty =? PB_LTYPE_STRING) || (PB_LTYPE ty =? PB_LTYPE_BYTES) then
    call_decoder stream field (pData iter)
  else
    s <-? allocate_field stream (pData iter) (data_size field) 1;
    p ← load_ptr (pData iter);
    initialize_pointer_field p iter ;;
    p ← load_ptr (pData iter);
    call_decoder s field p.

Definition decode_pointer_field (stream : pb_istream_t) (wire_type : Z) (iter : pb_field_iter_t)
    (count : Z) : fres :=
  field ← iter_field iter;
  let ty := type field in
  if negb (PB_HTYPE ty =? PB_HTYPE_REPEATED) then
    with_count count (decode_pointer_single stream field iter)
  else if (wire_type =? PB_WT_STRING) && (PB_LTYPE ty <=? PB_LTYPE_LAST_PACKABLE) then
    allocated_size ← load_size (pSize iter) count;
    '(substream, stream) ← pb_make_string_substream stream;
    match substream with
    | None => mret (false, (stream, count))
    | Some substream =>
        '(status, (stream, substream, count)) ←
          pointer_packed_loop (S (Z.to_nat (i_bytes_left substream))) field iter
            stream substream allocated_size count;
        '(closed, stream) ← pb_close_string_substream stream substream;
        mret (closed && status, (stream, count))
    end
  else
    size ← load_size (pSize iter) count;
    if size =? PB_SIZE_MAX then f_return_error stream count "too many array entries"
    else
      '(ok, stream) ← allocate_field stream (pData iter) (data_size field) (u32 (size + 1));
      if negb ok then mret (false, (stream, count))
      else
        base ← load_ptr (pData iter);
        size ← load_size (pSize iter) count;
        let pItem := base + u32 (data_size field * size) in
        count ← store_size (pSize iter) count (u32 (size + 1));
        initialize_pointer_field pItem iter ;;
        with_count count (call_decoder stream field pItem).

(** [do { if (!pCallback->funcs.decode(...)) return false; } while
    (substream.bytes_left);] The loop ends when every call consumes data. *)
Fixpoint callback_loop (fuel : nat) (field : pb_field_t) (pCallback : Z)
    (substream : pb_istream_t) : ires :=
  match fuel with
  | O => timeout
  | S fuel' =>
      fn ← load_ptr pCallback;
      if fn =? NULL then fault
      else
        s <-? user_decode fn substream field (pCallback + pb_callback_arg_off);
        if negb (i_bytes_left s =? 0) then callback_loop fuel' field pCallback s
        else mret (true, s)
  end.

Definition decode_callback_field (stream : pb_istream_t) (wire_type : Z)
    (iter : pb_field_iter_t) : ires :=
  field ← iter_field iter;
  let pCallback := pData iter in
  fn ← (if pCallback =? NULL then mret NULL else load_ptr pCallback);
  if fn =? NULL then pb_skip_field stream wire_type
  else if wire_type =? PB_WT_STRING then
    substream,, stream <-& pb_make_string_substream stream;
    '(ok, substream) ←
      callback_loop (S (Z.to_nat (i_bytes_left substream))) field pCallback substream;
    if negb ok then is_return_error stream "callback failed"
    else pb_close_string_substream stream substream
  else
    buffer,, stream <-& read_raw_value stream wire_type 10;
    let substream :=
      pb_istream_from_buffer (IsLocal buffer) (Z.of_nat (length buffer)) in
    '(ok, _) ← user_decode fn substream field (pCallback + pb_callback_arg_off);
    mret (ok, stream).

(** Returns the iterator, which is moved to the old field and back. *)
Definition pb_release_union_field (stream : pb_istream_t) (iter : pb_field_iter_t) :
    M (bool * (pb_istream_t * pb_field_iter_t)) :=
  field ← iter_field iter;
  old_tag ← load 4 (pSize iter);
  let new_tag := tag field in
  if old_tag =? 0 then mret (true, (stream, iter))
  else if old_tag =? new_tag then mret (true, (stream, iter))
  else
    '(found, iter) ← pb_field_iter_find iter old_tag;
    if negb found then mret (false, (is_set_error stream "invalid union tag", iter))
    else
      pb_release_single_field depth iter ;;
      '(found, iter) ← pb_field_iter_find iter new_tag;
      if negb found then mret (false, (is_set_error stream "iterator error", iter))
      else
        field ← iter_field iter;
        (if PB_ATYPE (type field) =? PB_ATYPE_POINTER then store_ptr (pData iter) NULL
         else mret tt) ;;
        mret (true, (stream, iter)).

(** Returns the stream, [fixed_count_size] and the iterator. *)
Definition decode_field (stream : pb_istream_t) (wire_type : Z) (iter : pb_field_iter_t)
    (count : Z) : M (bool * (pb_istream_t * Z * pb_field_iter_t)) :=
  field ← iter_field iter;
  '(ok, (stream, iter)) ←
    (if PB_HTYPE (type field) =? PB_HTYPE_ONEOF then pb_release_union_field stream iter
     else mret (true, (stream, iter)));
  if negb ok then mret (false, (stream, count, iter))
  else
    field ← iter_field iter;
    let at_ := PB_ATYPE (type field) in
    '(ok, (stream, count)) ←
      (if at_ =? PB_ATYPE_STATIC then decode_static_field stream wire_type iter count
       else if at_ =? PB_ATYPE_POINTER then decode_pointer_field stream wire_type iter count
       else if at_ =? PB_ATYPE_CALLBACK then
         with_count count (decode_callback_field stream wire_type iter)
       else f_return_error stream count "invalid field type");
    mret (ok, (stream, count, iter)).

(** ** Extensions *)

Definition default_extension_decoder (stream : pb_istream_t) (extension tag_ wire_type : Z) :
    ires :=
  ty ← load_extension_type extension;
  field ← of_option (deref_field (ext_arg ty));
  if negb (tag field =? tag_) then mret (true, stream)
  else
    iter ← iter_from_extension extension;
    store 1 (extension + pb_extension_found_off) 1 ;;
    '(ok, (s, _, _)) ← decode_field stream wire_type iter 0;
    mret (ok, s).

Fixpoint decode_extension_loop (fuel : nat) (stream : pb_istream_t) (tag_ wire_type : Z)
    (pos_ extension : Z) : ires :=
  match fuel with
  | O => timeout
  | S fuel' =>
      if negb (extension =? NULL) && (pos_ =? i_bytes_left stream) then
        ty ← load_extension_type extension;
        s <-? (if negb (ext_decode ty =? NULL)
               then user_ext_decode (ext_decode ty) stream extension tag_ wire_type
               else default_extension_decoder stream extension tag_ wire_type);
        next ← load_ptr (extension + pb_extension_next_off);
        decode_extension_loop fuel' s tag_ wire_type pos_ next
      else mret (true, stream)
  end.

Definition try_extensions (stream : pb_istream_t) (tag_ wire_type extension : Z) : ires :=
  fun w => decode_extension_loop (S (size (mem w))) stream tag_ wire_type
             (i_bytes_left stream) extension w.

Definition decode_extension (stream : pb_istream_t) (tag_ wire_type : Z)
    (iter : pb_field_iter_t) : ires :=
  extension ← load_ptr (pData iter);
  try_extensions stream tag_ wire_type extension.

Fixpoint find_extension_loop (fuel : nat) (st : field_ref) (iter : pb_field_iter_t) :
    option (option (bool * pb_field_iter_t)) :=
  match fuel with
  | O => Some None
  | S fuel' =>
      field ← deref_field (pos iter);
      if PB_LTYPE (type field) =? PB_LTYPE_EXTENSION then Some (Some (true, iter))
      else
        '(_, iter) ← pb_field_iter_next iter;
        if decide (pos iter = st) then Some (Some (false, iter))
        else find_extension_loop fuel' st iter
  end.

Definition find_extension_field (iter : pb_field_iter_t) : M (bool * pb_field_iter_t) :=
  of_option2 (find_extension_loop (array_fuel (pos iter)) (pos iter) iter).

(** ** Messages *)

(** The local variables of [pb_decode_noinit]. *)
Record noinit_locals := NoinitLocals {
  nl_iter : pb_field_iter_t;
  fields_seen : list Z;
  extension_range_start : Z;
  fixed_count_field : option field_ref;
  fixed_count_size : Z
}.

Definition nl_with_iter (l : noinit_locals) (iter : pb_field_iter_t) : noinit_locals :=
  NoinitLocals iter (fields_seen l) (extension_range_start l) (fixed_count_field l)
    (fixed_count_size l).

(** [fixed_count_field != NULL && fixed_count_size != fixed_count_field->array_size] *)
Definition fixed_count_wrong (l : noinit_locals) : M bool :=
  match fixed_count_field l with
  | None => mret false
  | Some r =>
      f ← of_option (deref_field r);
      mret (negb (fixed_count_size l =? array_size f))
  end.

(** No field has the tag: extensions, or skip. *)
Definition decode_unknown (stream : pb_istream_t) (tag_ wire_type : Z) (l : noinit_locals) :
    M (bool * (pb_istream_t * noinit_locals)) :=
  let skip (stream : pb_istream_t) (l : noinit_locals) :=
    '(ok, s) ← pb_skip_field stream wire_type;
    mret (ok, (s, l)) in
  if extension_range_start l <=? tag_ then
    '(found, iter) ← find_extension_field (nl_iter l);
    field ← iter_field iter;
    let range := if negb found then u32 (-1) else tag field in
    let l := NoinitLocals iter (fields_seen l) range (fixed_count_field l) (fixed_count_size l) in
    if range <=? tag_ then
      let pos_ := i_bytes_left stream in
      '(ok, s) ← decode_extension stream tag_ wire_type iter;
      if negb ok then mret (false, (s, l))
      else if negb (pos_ =? i_bytes_left s) then mret (true, (s, l))
      else skip s l
    else skip stream l
  else skip stream l.

(** [fields_seen[rfi >> 5] |= 1u << (rfi & 31)] *)
Definition mark_seen (rfi : Z) (seen : list Z) : list Z :=
  alter (fun word => Z.lor word (u32 (Z.shiftl 1 (Z.land rfi 31)))) (Z.to_nat (Z.shiftr rfi 5)) seen.

(** A field has the tag: the bookkeeping of fixed counts and required fields,
    then [decode_field]. *)
Definition decode_known (stream : pb_istream_t) (wire_type : Z) (l : noinit_locals) :
    M (bool * (pb_istream_t * noinit_locals)) :=
  field ← iter_field (nl_iter l);
  '(ok, (stream, l)) ←
    (if (PB_HTYPE (type field) =? PB_HTYPE_REPEATED) &&
        (pSize (nl_iter l) =? pData (nl_iter l)) then
       let iter := iter_with (nl_iter l) (pData (nl_iter l)) fixed_count_addr in
       if decide (fixed_count_field l = Some (pos iter)) then
         mret (true, (stream, nl_with_iter l iter))
       else
         wrong ← fixed_count_wrong l;
         if wrong : bool then
           mret (false, (is_set_error stream "wrong size for fixed count field", l))
         else
           mret (true, (stream, NoinitLocals iter (fields_seen l) (extension_range_start l)
                                  (Some (pos iter)) 0))
     else mret (true, (stream, l)));
  if negb ok then mret (false, (stream, l))
  else
    let rfi := required_field_index (nl_iter l) in
    let seen :=
      if (PB_HTYPE (type field) =? PB_HTYPE_REQUIRED) && (rfi <? PB_MAX_REQUIRED_FIELDS) then
        mark_seen rfi (fields_seen l)
      else fields_seen l in
    '(ok, (stream, count, iter)) ←
      decode_field stream wire_type (nl_iter l) (fixed_count_size l);
    mret (ok, (stream, NoinitLocals iter seen (extension_range_start l)
                         (fixed_count_field l) count)).

(** [while (stream->bytes_left) {...}]; [true] when the loop ends or breaks. *)
Fixpoint decode_fields_loop (fuel : nat) (stream : pb_istream_t) (l : noinit_locals) :
    M (bool * (pb_istream_t * noinit_locals)) :=
  match fuel with
  | O => timeout
  | S fuel' =>
      if i_bytes_left stream =? 0 then mret (true, (stream, l))
      else
        '(ok, out, stream) ← pb_decode_tag stream;
        if negb ok then mret (to_eof out, (stream, l))
        else
          '(found, iter) ← pb_field_iter_find (nl_iter l) (to_tag out);
          let l := nl_with_iter l iter in
          '(ok, (stream, l)) ←
            (if negb found then decode_unknown stream (to_tag out) (to_wire_type out) l
             else decode_known stream (to_wire_type out) l);
          if negb ok then mret (false, (stream, l))
          else decode_fields_loop fuel' stream l
  end.

(** The do-while that counts the required fields: [req_field_count],
    [last_type] and the final iterator. *)
Fixpoint required_fields_loop (fuel : nat) (iter : pb_field_iter_t) :
    option (option (Z * Z * pb_field_iter_t)) :=
  match fuel with
  | O => Some None
  | S fuel' =>
      field ← deref_field (pos iter);
      '(more, iter') ← pb_field_iter_next iter;
      if more : bool then required_fields_loop fuel' iter'
      else Some (Some (required_field_index iter, type field, iter'))
  end.

Definition u32_allbits : Z := 2 ^ 32 - 1.

(** Every whole word, then the remaining bits. *)
Definition required_fields_present (seen : list Z) (req_field_count : Z) : bool :=
  let words := Z.to_nat (Z.shiftr req_field_count 5) in
  forallb (fun word => word =? u32_allbits) (take words seen) &&
  ((Z.land req_field_count 31 =? 0) ||
   (default 0 (seen !! words) =?
    Z.shiftr u32_allbits (32 - Z.land req_field_count 31))).

Definition check_required_fields (stream : pb_istream_t) (l : noinit_locals) : ires :=
  '(req_field_count, last_type, iter) ←
    of_option2 (required_fields_loop (array_fuel (pos (nl_iter l))) (nl_iter l));
  field ← iter_field iter;
  let req_field_count :=
    if (PB_HTYPE last_type =? PB_HTYPE_REQUIRED) && negb (tag field =? 0)
    then u32 (req_field_count + 1) else req_field_count in
  let req_field_count := Z.min req_field_count PB_MAX_REQUIRED_FIELDS in
  if (0 <? req_field_count) && negb (required_fields_present (fields_seen l) req_field_count)
  then is_return_error stream "missing required field"
  else mret (true, stream).

Definition decode_noinit_body (stream : pb_istream_t) (fields : field_ref) (dest_struct : Z) :
    ires :=
  '(_, iter) ← of_option (pb_field_iter_begin fields dest_struct);
  '(ok, (stream, l)) ←
    decode_fields_loop (S (Z.to_nat (i_bytes_left stream))) stream
      (NoinitLocals iter [0; 0] 0 None 0);
  if negb ok then mret (false, stream)
  else
    wrong ← fixed_count_wrong l;
    if wrong : bool then is_return_error stream "wrong size for fixed count field"
    else check_required_fields stream l.

End Recursion.

Fixpoint pb_decode_noinit (depth : nat) (stream : pb_istream_t) (fields : field_ref)
    (dest_struct : Z) : ires :=
  match depth with
  | O => timeout
  | S depth' =>
      decode_noinit_body depth' (pb_decode_noinit depth') stream fields dest_struct
  end.

Definition pb_decode (depth : nat) (stream : pb_istream_t) (fields : field_ref)
    (dest_struct : Z) : ires :=
  pb_decode_with depth (pb_decode_noinit depth) stream fields dest_struct.

Definition pb_decode_delimited_noinit (depth : nat) (stream : pb_istream_t) (fields : field_ref)
    (dest_struct : Z) : ires :=
  substream,, stream <-& pb_make_string_substream stream;
  '(status, substream) ← pb_decode_noinit depth substream fields dest_struct;
  s <-? pb_close_string_substream stream substream;
  mret (status, s).

Definition pb_decode_delimited (depth : nat) (stream : pb_istream_t) (fields : field_ref)
    (dest_struct : Z) : ires :=
  substream,, stream <-& pb_make_string_substream stream;
  '(status, substream) ← pb_decode depth substream fields dest_struct;
  s <-? pb_close_string_substream stream substream;
  mret (status, s).

Definition pb_decode_nullterminated (depth : nat) (stream : pb_istream_t) (fields : field_ref)
    (dest_struct : Z) : ires :=
  pb_decode depth stream fields dest_struct.

End Messages.
