(* ===== verification/PbRequired.v ===== *)
(** The fields of a message that is decoded: the iterator at a field of the message,
    its count in the message or in the local variable of [pb_decode_noinit]; and the
    required fields: the bit map that records which of them have been read, and the
    verdict that the decoder takes from it. *)
From S2P Require Import Prelude Memory PbTypes PbLayout PbRelease PbDecode PbInput PbCodec PbDecodeMsg.

Section Located.
Context {PD : PbDescriptors} (id : nat) (fs : list pb_field_t) (dest : Z).
Hypothesis Harr : descriptors id fs.

Abbreviation n := (length fs).

Definition counted (it : pb_field_iter_t) : pb_field_iter_t :=
  iter_with it (pData it) fixed_count_addr.

(** The iterator at field [k]. *)
Inductive located (k : nat) : pb_field_iter_t -> Prop :=
  | located_plain it : field_iter id dest k = Some it -> located k it
  | located_counted it f :
      field_iter id dest k = Some it -> fs !! k = Some f ->
      PB_HTYPE (type f) = PB_HTYPE_REPEATED -> located k (counted it).

Lemma next_counted it f :
  deref_field (pos it) = Some f -> PB_HTYPE (type f) = PB_HTYPE_REPEATED -> tag f <> 0 ->
  pb_field_iter_next (counted it) = pb_field_iter_next it.
Proof.
  intros Ef Hf Ht. unfold pb_field_iter_next. cbn [counted iter_with pos start dest_struct pData pSize
    required_field_index]. rewrite Ef. cbn [mbind option_bind].
  rewrite (proj2 (Z.eqb_neq _ _) Ht). destruct (deref_field ((pos it).1, S (pos it).2)) as [g|]; [|done].
  cbn [mbind option_bind]. destruct (tag g =? 0); [done|]. by rewrite Hf.
Qed.

Lemma located_deref k it :
  located k it -> (k < n)%nat ->
  exists f, deref_field (pos it) = Some f /\ pos it = (id, k) /\ tag f <> 0 /\ fs !! k = Some f.
Proof.
  intros Hl Hk. destruct (deref_fields id fs Harr k Hk) as (f & E & Ef & Ht). exists f.
  destruct (field_iter_shape id fs dest Harr k Hk) as (it0 & E0 & Hp & _).
  destruct Hl as [it Eit|it g Eit _ _]; rewrite E0 in Eit; injection Eit as <-;
    cbn [counted iter_with pos]; by rewrite Hp.
Qed.

Lemma located_next k it :
  located k it -> (k < n)%nat ->
  exists it', pb_field_iter_next it = Some ((S k <? n)%nat, it') /\
    field_iter id dest (after fs k) = Some it'.
Proof.
  intros Hl Hk. destruct (located_deref k it Hl Hk) as (g & Eg & _ & Ht & Efs).
  destruct Hl as [it E|it f E Ef Hf].
  - by apply field_iter_next.
  - rewrite Ef in Efs. injection Efs as <-. cbn [counted iter_with pos] in Eg.
    rewrite (next_counted it f Eg Hf Ht). by apply field_iter_next.
Qed.

(** The count of a located iterator does not matter to a search, unless it is
    at the field that is searched. *)
Lemma located_search stop k it fuel :
  located k it -> (k < n)%nat -> (n <= fuel)%nat ->
  exists found k' it', search_loop stop fuel (id, k) it = Some (Some (found, it')) /\
    located k' it' /\ (k' < n)%nat /\
    if found : bool then stops_at stop fs k' = true else forall j, stops_at stop fs j = false.
Proof.
  intros Hl Hk Hf.
  assert (Hrun : forall it, field_iter id dest k = Some it ->
    exists found k' it', search_loop stop fuel (id, k) it = Some (Some (found, it')) /\
      located k' it' /\ (k' < n)%nat /\
      if found : bool then stops_at stop fs k' = true else forall j, stops_at stop fs j = false).
  { intros it0 E0. destruct (search_run id fs dest Harr stop k it0 fuel Hk Hf E0)
      as (found & k' & it' & E & E' & Hk' & H). exists found, k', it'.
    split_and!; [done|by apply located_plain|done|]. destruct found; [done|]. by destruct H. }
  pose proof (located_deref k it Hl Hk) as (g & Eg & _ & Ht & Efs).
  destruct Hl as [it E|it f E Ef Hrep]; [by apply Hrun|].
  rewrite Ef in Efs. injection Efs as <-. cbn [counted iter_with pos] in Eg.
  destruct fuel as [|fuel]; [pose proof (descriptors_nonempty id fs Harr); lia|].
  destruct (Hrun it E) as (found & k' & it' & Es & Hit).
  cbn [search_loop] in *. cbn [counted iter_with pos] in *. rewrite Eg in *.
  cbn [mbind option_bind] in *. destruct (stop f) eqn:Estop.
  - exists true, k, (counted it). split_and!; [done|by eapply located_counted|done|].
    unfold stops_at. by rewrite Ef.
  - change (PbFieldIter (start it) (pos it) (required_field_index it) (dest_struct it) (pData it)
      fixed_count_addr) with (counted it).
    rewrite (next_counted it f Eg Hrep Ht). by exists found, k', it'.
Qed.

Lemma located_find k it t w :
  located k it -> (k < n)%nat ->
  exists found k' it', pb_field_iter_find it t w = Done (found, it') w /\
    located k' it' /\ (k' < n)%nat /\
    if found : bool then field_matches fs t k' = true else forall j, field_matches fs t j = false.
Proof.
  intros Hl Hk. destruct (located_deref k it Hl Hk) as (_ & _ & Ep & _).
  unfold pb_field_iter_find, array_fuel. rewrite Ep, find_loop_search. cbn [fst].
  destruct (located_search (has_tag t) k it (S (length (fields_at id))) Hl Hk) as
    (found & k' & it' & -> & H); [rewrite (length_descriptors id fs Harr); lia|].
  by exists found, k', it'.
Qed.

Lemma find_extension_search fuel st it :
  find_extension_loop fuel st it =
  search_loop (fun f => PB_LTYPE (type f) =? PB_LTYPE_EXTENSION) fuel st it.
Proof.
  revert it. induction fuel as [|fuel IH]; intros it; [done|]. cbn.
  destruct (deref_field (pos it)); [|done]. cbn. destruct (_ =? _); [done|].
  destruct (pb_field_iter_next it) as [[b it']|]; [|done]. cbn. by rewrite IH.
Qed.

Lemma located_find_extension k it w :
  located k it -> (k < n)%nat ->
  exists found k' it', find_extension_field it w = Done (found, it') w /\
    located k' it' /\ (k' < n)%nat /\
    if found : bool then stops_at (fun f => PB_LTYPE (type f) =? PB_LTYPE_EXTENSION) fs k' = true
    else forall j, stops_at (fun f => PB_LTYPE (type f) =? PB_LTYPE_EXTENSION) fs j = false.
Proof.
  intros Hl Hk. destruct (located_deref k it Hl Hk) as (_ & _ & Ep & _).
  unfold find_extension_field, array_fuel. rewrite Ep, find_extension_search. cbn [fst].
  destruct (located_search (fun f => PB_LTYPE (type f) =? PB_LTYPE_EXTENSION) k it
              (S (length (fields_at id))) Hl Hk) as (found & k' & it' & -> & H);
    [rewrite (length_descriptors id fs Harr); lia|].
  by exists found, k', it'.
Qed.

(** The walk that counts the required fields ends at the last field. *)
Lemma required_fields_loop_run fuel k it :
  located k it -> (k < n)%nat -> (n - k <= fuel)%nat ->
  exists itl fl it', required_fields_loop fuel it =
      Some (Some (required_field_index itl, type fl, it')) /\
    fs !! (n - 1)%nat = Some fl /\ located (n - 1) itl /\
    field_iter id dest 0 = Some it'.
Proof.
  revert k it. induction fuel as [|fuel IH]; intros k it Hl Hk Hf; [lia|].
  cbn [required_fields_loop].
  destruct (located_deref k it Hl Hk) as (f & Edr & _ & _ & Ef).
  destruct (located_next k it Hl Hk) as (it' & E & Hit'). unfold after in Hit'.
  rewrite Edr, E. cbn [mbind option_bind]. destruct (Nat.ltb_spec (S k) n) as [Hlt|Hge].
  - apply (IH (S k)); [by apply located_plain|done|lia].
  - replace k with (n - 1)%nat in * by lia. by exists it, f, it'.
Qed.

End Located.

(** ** The bit mask *)

Definition seen_bit (seen : list Z) (i : Z) : bool :=
  Z.testbit (default 0 (seen !! Z.to_nat (Z.shiftr i 5))) (Z.land i 31).

(** Two words of 32 bits. *)
Definition seen_ok (seen : list Z) : Prop :=
  exists a b, seen = [a; b] /\ 0 <= a < 2 ^ 32 /\ 0 <= b < 2 ^ 32.

Lemma index_split i : 0 <= i -> i = 32 * Z.shiftr i 5 + Z.land i 31 /\ 0 <= Z.land i 31 < 32 /\ 0 <= Z.shiftr i 5.
Proof.
  intros Hi. change 31 with (Z.ones 5). rewrite Z.land_ones, Z.shiftr_div_pow2 by lia.
  change (2 ^ 5) with 32. pose proof (Z_div_mod_eq_full i 32). pose proof (Z.mod_pos_bound i 32).
  split; [lia|]. split; [lia|]. apply Z.div_pos; lia.
Qed.

(** An index below 64 is in the first or the second word. *)
Lemma index_word i :
  0 <= i < 64 -> (Z.shiftr i 5 = 0 /\ Z.land i 31 = i /\ i < 32) \/
    (Z.shiftr i 5 = 1 /\ Z.land i 31 = i - 32 /\ 32 <= i).
Proof. intros Hi. destruct (index_split i) as (? & ? & ?); lia. Qed.

Lemma set_bit_bounds x k : 0 <= x < 2 ^ 32 -> 0 <= k < 32 -> 0 <= Z.lor x (u32 (Z.shiftl 1 k)) < 2 ^ 32.
Proof.
  intros Hx Hk. apply lor_bounds; [lia|done|]. apply wrap_bounds. lia.
Qed.

Lemma set_bit_testbit x k i :
  0 <= k < 32 -> 0 <= i < 32 ->
  Z.testbit (Z.lor x (u32 (Z.shiftl 1 k))) i = (i =? k) || Z.testbit x i.
Proof.
  intros Hk Hi. rewrite Z.lor_spec. unfold wrap.
  rewrite Z.mod_pow2_bits_low, Z.shiftl_mul_pow2, Z.mul_1_l, Z.pow2_bits_eqb by lia.
  rewrite (Z.eqb_sym k i). apply orb_comm.
Qed.

Lemma seen_bit_words a b i :
  0 <= i < 64 -> seen_bit [a; b] i = if i <? 32 then Z.testbit a i else Z.testbit b (i - 32).
Proof.
  intros Hi. unfold seen_bit. destruct (index_word i Hi) as [(-> & -> & ?)|(-> & -> & ?)].
  - by rewrite (proj2 (Z.ltb_lt _ _)).
  - by rewrite (proj2 (Z.ltb_ge _ _)) by lia.
Qed.

Lemma mark_seen_words a b i :
  0 <= i < 64 ->
  mark_seen i [a; b] = if i <? 32 then [Z.lor a (u32 (Z.shiftl 1 i)); b]
                       else [a; Z.lor b (u32 (Z.shiftl 1 (i - 32)))].
Proof.
  intros Hi. unfold mark_seen. destruct (index_word i Hi) as [(-> & -> & ?)|(-> & -> & ?)].
  - by rewrite (proj2 (Z.ltb_lt _ _)).
  - by rewrite (proj2 (Z.ltb_ge _ _)) by lia.
Qed.

Lemma mark_seen_ok rfi seen : 0 <= rfi < 64 -> seen_ok seen -> seen_ok (mark_seen rfi seen).
Proof.
  intros Hi (a & b & -> & Ha & Hb). rewrite mark_seen_words by done.
  destruct (Z.ltb_spec rfi 32); do 2 eexists; (split; [done|]); split; try done;
    apply set_bit_bounds; lia.
Qed.

Lemma mark_seen_bit rfi seen i :
  0 <= rfi < 64 -> 0 <= i < 64 -> seen_ok seen ->
  seen_bit (mark_seen rfi seen) i = (i =? rfi) || seen_bit seen i.
Proof.
  intros Hr Hi (a & b & -> & Ha & Hb). rewrite mark_seen_words by done.
  destruct (Z.ltb_spec rfi 32); rewrite !seen_bit_words by done; destruct (Z.ltb_spec i 32).
  - apply set_bit_testbit; lia.
  - by rewrite (proj2 (Z.eqb_neq i rfi)) by lia.
  - by rewrite (proj2 (Z.eqb_neq i rfi)) by lia.
  - rewrite set_bit_testbit by lia. f_equal.
    destruct (Z.eqb_spec (i - 32) (rfi - 32)), (Z.eqb_spec i rfi); try done; lia.
Qed.

(** A word whose bits from [r] on are clear. *)
Lemma word_full x r :
  0 <= x -> 0 <= r -> (forall i, r <= i -> Z.testbit x i = false) ->
  (x =? Z.ones r) = true <-> forall i, 0 <= i < r -> Z.testbit x i = true.
Proof.
  intros Hx Hr Hhigh. rewrite Z.eqb_eq. split.
  - intros -> i Hi. by rewrite Z.ones_spec_low.
  - intros H. apply Z.bits_inj'. intros i Hi. destruct (Z_lt_dec i r).
    + rewrite H, Z.ones_spec_low by lia. done.
    + rewrite Hhigh, Z.ones_spec_high by lia. done.
Qed.

Lemma high_bits x i : 0 <= x < 2 ^ 32 -> 32 <= i -> Z.testbit x i = false.
Proof. intros Hx Hi. apply (testbit_small x 32); lia. Qed.

Lemma shift_ones r : 0 <= r <= 32 -> Z.shiftr u32_allbits (32 - r) = Z.ones r.
Proof.
  intros Hr. apply Z.bits_inj'. intros i Hi. change u32_allbits with (Z.ones 32).
  rewrite Z.shiftr_spec by lia. destruct (Z_lt_dec i r).
  - rewrite !Z.ones_spec_low by lia. done.
  - rewrite !Z.ones_spec_high by lia. done.
Qed.

(** The check of the words is the check of every bit below the count. *)
Lemma required_fields_present_spec seen count :
  seen_ok seen -> 0 < count <= 64 ->
  (forall i, count <= i < 64 -> seen_bit seen i = false) ->
  required_fields_present seen count = true <-> forall i, 0 <= i < count -> seen_bit seen i = true.
Proof.
  intros (a & b & -> & Ha & Hb) Hc Hhigh. unfold required_fields_present.
  assert (Hsa : forall i, 0 <= i < 32 -> seen_bit [a; b] i = Z.testbit a i).
  { intros i Hi. by rewrite seen_bit_words, (proj2 (Z.ltb_lt _ _)) by lia. }
  assert (Hsb : forall i, 0 <= i < 32 -> seen_bit [a; b] (i + 32) = Z.testbit b i).
  { intros i Hi. rewrite seen_bit_words, (proj2 (Z.ltb_ge _ _)) by lia. f_equal. lia. }
  assert (Hwa : forall r, 0 <= r <= 32 -> (r < 32 -> r = count) ->
    (a =? Z.ones r) = true <-> forall i, 0 <= i < r -> Z.testbit a i = true).
  { intros r Hr Hrc. apply word_full; [lia|lia|]. intros i Hi. destruct (Z_lt_dec i 32).
    - rewrite <- Hsa, Hhigh by lia. done.
    - apply high_bits; lia. }
  assert (Hwb : forall r, 0 <= r <= 32 -> (r < 32 -> r = count - 32) ->
    (b =? Z.ones r) = true <-> forall i, 0 <= i < r -> Z.testbit b i = true).
  { intros r Hr Hrc. apply word_full; [lia|lia|]. intros i Hi. destruct (Z_lt_dec i 32).
    - rewrite <- Hsb, Hhigh by lia. done.
    - apply high_bits; lia. }
  assert (Hsplit : 32 <= count ->
    (forall i, 0 <= i < count -> seen_bit [a; b] i = true) <->
    (forall i, 0 <= i < 32 -> Z.testbit a i = true) /\
    (forall i, 0 <= i < count - 32 -> Z.testbit b i = true)).
  { intros H32. split.
    - intros H. split; intros i Hi; [rewrite <- Hsa|rewrite <- Hsb]; try apply H; lia.
    - intros [H1 H2] i Hi. destruct (Z_lt_dec i 32); [rewrite Hsa; [apply H1|]; lia|].
      replace i with (i - 32 + 32) by lia. rewrite Hsb; [apply H2|]; lia. }
  change u32_allbits with (Z.ones 32) at 1.
  destruct (Z.eq_dec count 64) as [->|].
  { change (Z.to_nat (Z.shiftr 64 5)) with 2%nat. change (Z.land 64 31 =? 0) with true.
    cbn [take forallb orb]. rewrite !andb_true_r, andb_true_iff, (Hwa 32), (Hwb 32) by lia.
    rewrite Hsplit by lia. done. }
  destruct (index_word count ltac:(lia)) as [(-> & -> & ?)|(-> & -> & ?)].
  - cbn [Z.to_nat take forallb andb]. rewrite (proj2 (Z.eqb_neq count 0)) by lia.
    rewrite shift_ones by lia. cbn [orb default lookup list_lookup]. rewrite (Hwa count) by lia.
    split; intros Hbits i Hi; [rewrite Hsa by lia|rewrite <- Hsa by lia]; apply Hbits; lia.
  - change (take (Z.to_nat 1) [a; b]) with [a]. change (default 0 ([a; b] !! Z.to_nat 1)) with b.
    cbn [forallb]. rewrite andb_true_r, andb_true_iff, (Hwa 32), Hsplit, shift_ones by lia.
    destruct (Z.eqb_spec (count - 32) 0) as [->|]; cbn [orb].
    + split; [intros [Hlow _]|by intros [Hlow _]]. split; [done|]. intros i Hi. lia.
    + rewrite (Hwb (count - 32)) by lia. done.
Qed.

(** ** Indices of required fields *)

Definition is_required (f : pb_field_t) : bool := PB_HTYPE (type f) =? PB_HTYPE_REQUIRED.

Definition required_before (fs : list pb_field_t) (k : nat) : nat :=
  length (List.filter is_required (take k fs)).

Lemma required_before_S fs k f :
  fs !! k = Some f ->
  required_before fs (S k) = (required_before fs k + if is_required f then 1 else 0)%nat.
Proof.
  intros E. unfold required_before. rewrite (take_S_r _ _ _ E), List.filter_app, length_app. cbn.
  by destruct (is_required f).
Qed.

Lemma required_before_le fs k : (required_before fs k <= min k (length fs))%nat.
Proof.
  unfold required_before. etransitivity; [apply List.filter_length_le|]. rewrite length_take. lia.
Qed.

Lemma filter_lookup {A} (P : A -> bool) (l : list A) i x :
  List.filter P l !! i = Some x <->
  exists k, l !! k = Some x /\ P x = true /\ length (List.filter P (take k l)) = i.
Proof.
  revert i. induction l as [|y l IH]; intros i; cbn [List.filter].
  { split; [done|]. by intros (k & E & _). }
  split.
  - intros H. destruct (P y) eqn:Ey; [destruct i as [|i]|].
    + injection H as <-. by exists 0%nat.
    + apply IH in H as (k & E & Ex & Ei). exists (S k). cbn. rewrite Ey. cbn. by rewrite Ei.
    + apply IH in H as (k & E & Ex & Ei). exists (S k). cbn. by rewrite Ey.
  - intros ([|k] & E & Ex & Ei).
    + injection E as ->. rewrite Ex. by rewrite <- Ei.
    + cbn in E, Ei. destruct (P y); cbn in Ei; rewrite <- Ei; apply IH; by exists k.
Qed.

Section Index.
Context {PD : PbDescriptors} (id : nat) (fs : list pb_field_t) (dest : Z).
Hypothesis Harr : descriptors id fs.

Lemma iter_next_index it k f g b it' :
  pos it = k -> deref_field k = Some f -> deref_field (k.1, S k.2) = Some g ->
  tag f <> 0 -> tag g <> 0 -> pb_field_iter_next it = Some (b, it') ->
  required_field_index it' =
  if is_required f then u32 (required_field_index it + 1) else required_field_index it.
Proof.
  intros Hp Hf Hg Htf Htg. unfold pb_field_iter_next, is_required. rewrite Hp, Hf.
  cbn [mbind option_bind]. rewrite (proj2 (Z.eqb_neq _ _) Htf), Hg. cbn [mbind option_bind].
  rewrite (proj2 (Z.eqb_neq _ _) Htg).
  destruct (_ && _ && _) eqn:E; intros [= <- <-]; cbn [required_field_index]; [|done].
  apply andb_true_iff in E as [[E%Z.eqb_eq _]%andb_true_iff _]. by rewrite E.
Qed.

Lemma field_iter_index k it :
  (k < length fs)%nat -> field_iter id dest k = Some it ->
  required_field_index it = u32 (Z.of_nat (required_before fs k)).
Proof.
  revert it. induction k as [|k IH]; intros it Hk E.
  - cbn [field_iter] in E. destruct (deref_fields id fs Harr 0 Hk) as (f & Ef & _).
    unfold pb_field_iter_begin in E. rewrite Ef in E. cbn [mbind option_bind] in E.
    destruct (dest =? NULL); by injection E as <-.
  - destruct (field_iter_shape id fs dest Harr k ltac:(lia)) as (it0 & E0 & Hp & _).
    destruct (deref_fields id fs Harr k ltac:(lia)) as (f & Ef & Efs & Htf).
    destruct (deref_fields id fs Harr (S k) Hk) as (g & Eg & _ & Htg).
    destruct (field_iter_next id fs dest Harr k it0 ltac:(lia) E0) as (it1 & E1 & E1').
    unfold after in E1'. rewrite (proj2 (Nat.ltb_lt _ _) Hk), E in E1'. injection E1' as <-.
    rewrite (iter_next_index it0 _ f g _ it Hp Ef Eg Htf Htg E1), (IH it0 ltac:(lia) E0).
    rewrite (required_before_S fs k f Efs). destruct (is_required f).
    + unfold wrap. rewrite Z.add_mod_idemp_l by lia. f_equal. lia.
    + f_equal. lia.
Qed.

Lemma located_index k it :
  (k < length fs)%nat -> located id fs dest k it -> Z.of_nat (length fs) < 2 ^ 32 ->
  required_field_index it = Z.of_nat (required_before fs k).
Proof.
  intros Hk Hl Hn. pose proof (required_before_le fs k).
  destruct Hl as [it E|it f E _ _]; cbn [counted iter_with required_field_index];
    rewrite (field_iter_index k it Hk E), wrap_small by lia; done.
Qed.

End Index.

(** ** Runs of the decoding loop *)

Lemma wlp_true {A} (m : M A) w : wlp m w (fun _ _ => True).
Proof. unfold wlp. by destruct (m w). Qed.

Lemma wlp_frame {A} (m : M A) w (P : Prop) : P -> wlp m w (fun _ _ => P).
Proof. intros HP. eapply wlp_mono; [apply wlp_true|]. by intros. Qed.

Section Runs.
Context {PD : PbDescriptors} {DC : DecCallbacks}.
Context (depth : nat) (rec : pb_istream_t -> field_ref -> Z -> ires).

(** The complete runs of the loop: the tags that are read, round by round, up
    to the end of the stream or a zero tag. *)
Inductive rounds : pb_istream_t -> noinit_locals -> world -> list Z ->
    pb_istream_t -> noinit_locals -> world -> Prop :=
  | rounds_end s l w : i_bytes_left s = 0 -> rounds s l w [] s l w
  | rounds_eof s l w out s' w' :
      i_bytes_left s <> 0 -> pb_decode_tag s w = Done (false, out, s') w' -> to_eof out = true ->
      rounds s l w [] s' l w'
  | rounds_known s l w out s1 w1 it w2 s2 l2 w3 tags s' l' w' :
      i_bytes_left s <> 0 -> pb_decode_tag s w = Done (true, out, s1) w1 ->
      pb_field_iter_find (nl_iter l) (to_tag out) w1 = Done (true, it) w2 ->
      decode_known depth rec s1 (to_wire_type out) (nl_with_iter l it) w2 =
        Done (true, (s2, l2)) w3 ->
      rounds s2 l2 w3 tags s' l' w' -> rounds s l w (to_tag out :: tags) s' l' w'
  | rounds_unknown s l w out s1 w1 it w2 s2 l2 w3 tags s' l' w' :
      i_bytes_left s <> 0 -> pb_decode_tag s w = Done (true, out, s1) w1 ->
      pb_field_iter_find (nl_iter l) (to_tag out) w1 = Done (false, it) w2 ->
      decode_unknown depth rec s1 (to_tag out) (to_wire_type out) (nl_with_iter l it) w2 =
        Done (true, (s2, l2)) w3 ->
      rounds s2 l2 w3 tags s' l' w' -> rounds s l w (to_tag out :: tags) s' l' w'.

(** The loop that returns true has made such a run, and the other way round. *)
Lemma loop_rounds fuel s l w s' l' w' :
  decode_fields_loop depth rec fuel s l w = Done (true, (s', l')) w' ->
  exists tags, rounds s l w tags s' l' w'.
Proof.
  revert s l w. induction fuel as [|fuel IH]; intros s l w E; [done|]. cbn [decode_fields_loop] in E.
  destruct (Z.eqb_spec (i_bytes_left s) 0) as [E0|E0].
  { injection E as <- <- <-. exists []. by apply rounds_end. }
  apply bind_Done_inv in E as ([[ok out] s1] & w1 & Etag & E). destruct ok; cbn [negb] in E.
  2: { injection E as Eeof <- <- <-. exists []. by eapply rounds_eof. }
  apply bind_Done_inv in E as ([found it] & w2 & Efind & E). cbv zeta in E.
  apply bind_Done_inv in E as ([ok [s2 l2]] & w3 & Eround & E). destruct ok; [|done]. cbn [negb] in E.
  destruct (IH _ _ _ E) as [tags Hr]. exists (to_tag out :: tags).
  destruct found; [by eapply rounds_known|by eapply rounds_unknown].
Qed.

Lemma rounds_loop s l w tags s' l' w' fuel :
  rounds s l w tags s' l' w' -> (length tags < fuel)%nat ->
  decode_fields_loop depth rec fuel s l w = Done (true, (s', l')) w'.
Proof.
  intros Hr. revert fuel. induction Hr as [s l w E|s l w out s' w' E Et Eo|
    s l w out s1 w1 it w2 s2 l2 w3 tags s' l' w' E Et Ef Ed _ IH|
    s l w out s1 w1 it w2 s2 l2 w3 tags s' l' w' E Et Ef Ed _ IH];
    intros fuel Hf; (destruct fuel as [|fuel]; [cbn in Hf; lia|]); cbn [decode_fields_loop length] in *.
  - by rewrite E.
  - rewrite (proj2 (Z.eqb_neq _ _) E), (bind_done _ _ _ _ _ Et). cbn [negb]. by rewrite Eo.
  - rewrite (proj2 (Z.eqb_neq _ _) E), (bind_done _ _ _ _ _ Et). cbn [negb].
    rewrite (bind_done _ _ _ _ _ Ef). cbv zeta. cbn [negb]. rewrite (bind_done _ _ _ _ _ Ed). apply IH. lia.
  - rewrite (proj2 (Z.eqb_neq _ _) E), (bind_done _ _ _ _ _ Et). cbn [negb].
    rewrite (bind_done _ _ _ _ _ Ef). cbv zeta. cbn [negb]. rewrite (bind_done _ _ _ _ _ Ed). apply IH. lia.
Qed.

Context (id : nat) (fs : list pb_field_t) (dest : Z).
Hypothesis Harr : descriptors id fs.
Hypothesis Hsize : Z.of_nat (length fs) < 2 ^ 32.

Abbreviation n := (length fs).

Definition placed (it : pb_field_iter_t) : Prop :=
  exists k, (k < n)%nat /\ located id fs dest k it.

(** The iterator stays in the message, whatever the fields are. *)
Lemma release_union_placed st it w :
  placed it -> wlp (pb_release_union_field depth st it) w (fun r _ => placed r.2.2).
Proof.
  intros (k & Hk & Hl). destruct (located_deref id fs dest Harr k it Hl Hk) as (f & Ef & _).
  assert (Hp : placed it) by (by exists k).
  unfold pb_release_union_field, iter_field. rewrite Ef. apply wlp_bind, wlp_ret, wlp_bind.
  eapply wlp_mono; [apply wlp_true|]. intros old w1 _. cbv zeta.
  destruct (old =? 0); [by apply wlp_ret|]. destruct (old =? tag f); [by apply wlp_ret|].
  destruct (located_find id fs dest Harr k it old w1 Hl Hk) as (found & k1 & it1 & E1 & Hl1 & Hk1 & _).
  apply wlp_bind. unfold wlp at 1. rewrite E1. cbv beta iota.
  destruct found; cbn [negb]; [|apply wlp_ret; by exists k1].
  apply wlp_bind. eapply wlp_mono; [apply wlp_true|]. intros [] w2 _.
  destruct (located_find id fs dest Harr k1 it1 (tag f) w2 Hl1 Hk1) as (found & k2 & it2 & E2 & Hl2 & Hk2 & _).
  apply wlp_bind. unfold wlp at 1. rewrite E2. cbv beta iota.
  destruct found; cbn [negb]; [|apply wlp_ret; by exists k2].
  apply wlp_bind. eapply wlp_mono; [apply wlp_true|]. intros g w3 _. apply wlp_bind.
  eapply wlp_mono; [apply wlp_true|]. intros [] w4 _. apply wlp_ret. by exists k2.
Qed.

Lemma decode_field_placed st wt it count w :
  placed it -> wlp (decode_field depth rec st wt it count) w (fun r _ => placed r.2.2).
Proof.
  intros Hp. unfold decode_field. apply wlp_bind. eapply wlp_mono; [apply wlp_true|].
  intros f w1 _. apply wlp_bind.
  assert (H1 : wlp (if PB_HTYPE (type f) =? PB_HTYPE_ONEOF then pb_release_union_field depth st it
                    else mret (true, (st, it))) w1 (fun r _ => placed r.2.2)).
  { destruct (_ =? _); [by apply release_union_placed|by apply wlp_ret]. }
  eapply wlp_mono; [exact H1|]. intros [ok [st' it']] w2 Hp'. cbn [fst snd] in Hp'.
  destruct ok; cbn [negb]; [|by apply wlp_ret].
  apply wlp_bind. eapply wlp_mono; [apply wlp_true|]. intros g w3 _. cbv zeta. apply wlp_bind.
  eapply wlp_mono; [apply wlp_true|]. intros [ok [s2 c2]] w4 _. by apply wlp_ret.
Qed.

(** A round marks the field it decodes. *)
Definition marked (k : nat) (seen : list Z) : list Z :=
  match fs !! k with
  | Some f =>
      if is_required f && (Z.of_nat (required_before fs k) <? PB_MAX_REQUIRED_FIELDS)
      then mark_seen (Z.of_nat (required_before fs k)) seen else seen
  | None => seen
  end.

Lemma decode_known_marks s wt l k w :
  located id fs dest k (nl_iter l) -> (k < n)%nat ->
  wlp (decode_known depth rec s wt l) w (fun r _ => r.1 = true ->
    placed (nl_iter r.2.2) /\ fields_seen r.2.2 = marked k (fields_seen l)).
Proof.
  intros Hl Hk. destruct (located_deref id fs dest Harr k _ Hl Hk) as (f & Ef & _ & _ & Efs).
  unfold decode_known, iter_field. rewrite Ef. apply wlp_bind, wlp_ret, wlp_bind.
  apply (wlp_mono _ _ (fun r _ => r.1 = true -> located id fs dest k (nl_iter r.2.2) /\
    fields_seen r.2.2 = fields_seen l)).
  - destruct (_ && _) eqn:E; [|by apply wlp_ret]. cbv zeta.
    apply andb_true_iff in E as [Hrep%Z.eqb_eq Heq%Z.eqb_eq].
    assert (Hl' : located id fs dest k (iter_with (nl_iter l) (pData (nl_iter l)) fixed_count_addr)).
    { inversion Hl as [it Eit|it g Eit Eg Hg]; subst.
      - by apply (located_counted id fs dest k (nl_iter l) f).
      - by apply (located_counted id fs dest k it g). }
    destruct (decide _); [by apply wlp_ret|]. apply wlp_bind.
    eapply wlp_mono; [apply wlp_true|]. intros [] w1 _; by apply wlp_ret.
  - intros [ok [s' l']] w1 H. cbn [fst snd] in *. destruct ok; cbn [negb]; [|by apply wlp_ret].
    destruct (H eq_refl) as [Hl' Hseen]. cbv zeta. apply wlp_bind.
    eapply wlp_mono; [apply decode_field_placed; by exists k|].
    intros [ok [[s2 c2] it2]] w2 Hp. cbn [fst snd] in Hp. apply wlp_ret. intros _. split; [done|].
    cbn [snd fields_seen]. unfold marked. rewrite Efs, Hseen.
    by rewrite (located_index id fs dest Harr k _ Hk Hl' Hsize).
Qed.

Lemma decode_unknown_marks s t wt l k w :
  located id fs dest k (nl_iter l) -> (k < n)%nat ->
  wlp (decode_unknown depth rec s t wt l) w (fun r _ =>
    placed (nl_iter r.2.2) /\ fields_seen r.2.2 = fields_seen l).
Proof.
  intros Hl Hk. unfold decode_unknown. cbv zeta.
  assert (Hskip : forall s l' w, placed (nl_iter l') -> fields_seen l' = fields_seen l ->
    wlp ('(ok, s) ← pb_skip_field s wt; mret (M := M) (ok, (s, l'))) w (fun r _ =>
      placed (nl_iter r.2.2) /\ fields_seen r.2.2 = fields_seen l)).
  { intros s0 l' w0 Hp Hs. apply wlp_bind. eapply wlp_mono; [apply wlp_true|].
    intros [ok s'] w' _. by apply wlp_ret. }
  destruct (_ <=? _); [|apply Hskip; [by exists k|done]].
  destruct (located_find_extension id fs dest Harr k _ w Hl Hk) as (found & k' & it' & E & Hl' & Hk' & _).
  assert (Hp : placed it') by (by exists k').
  apply wlp_bind. unfold wlp at 1. rewrite E. apply wlp_bind. eapply wlp_mono; [apply wlp_true|].
  intros f w1 _. destruct (_ <=? t); [|by apply Hskip]. apply wlp_bind.
  eapply wlp_mono; [apply wlp_true|]. intros [ok s'] w2 _. destruct ok; cbn [negb]; [|by apply wlp_ret].
  destruct (negb _); [by apply wlp_ret|by apply Hskip].
Qed.

(** ** The mask records the tags that are read *)

(** Tags are distinct, and no required field is an extension field. *)
Definition well_tagged : Prop :=
  NoDup (tag <$> fs) /\
  Forall (fun f => is_required f = true -> PB_LTYPE (type f) <> PB_LTYPE_EXTENSION) fs.

Hypothesis Htags : well_tagged.

(** The required fields, in the order of their indices. *)
Abbreviation required_fields := (List.filter is_required fs).

Definition recorded (seen tags : list Z) : Prop :=
  seen_ok seen /\ forall i, (i < 64)%nat ->
    seen_bit seen (Z.of_nat i) = true <->
    exists f, required_fields !! i = Some f /\ tag f ∈ tags.

Lemma recorded_nil : recorded [0; 0] [].
Proof.
  split; [by do 2 eexists|]. intros i Hi. rewrite seen_bit_words by lia. split.
  - by destruct (_ <? 32); rewrite Z.bits_0.
  - by intros (f & _ & ?%not_elem_of_nil).
Qed.

Lemma required_lookup k f :
  fs !! k = Some f -> is_required f = true -> required_fields !! required_before fs k = Some f.
Proof. intros E Hf. apply filter_lookup. by exists k. Qed.

(** A required field with the tag of field [k] is field [k]. *)
Lemma required_same_tag k i f g :
  fs !! k = Some f -> required_fields !! i = Some g -> tag g = tag f ->
  g = f /\ is_required f = true /\ i = required_before fs k.
Proof.
  intros E (k' & E' & Hg & Hi)%filter_lookup Et.
  assert (k' = k) as ->.
  { apply (NoDup_lookup _ _ _ (tag f) (proj1 Htags)); rewrite list_lookup_fmap, ?E, ?E'; cbn; congruence. }
  rewrite E in E'. injection E' as <-. by split_and!.
Qed.

Lemma recorded_known k t seen tags :
  field_matches fs t k = true -> recorded seen tags -> recorded (marked k seen) (tags ++ [t]).
Proof.
  unfold field_matches, stops_at. destruct (fs !! k) as [f|] eqn:Ef; [|done].
  intros [<-%Z.eqb_eq _]%andb_true_iff [Hok Hbits]. unfold marked. rewrite Ef.
  assert (Hadd : forall i, (exists g, required_fields !! i = Some g /\ tag g ∈ tags ++ [tag f]) <->
    (is_required f = true /\ i = required_before fs k) \/
    (exists g, required_fields !! i = Some g /\ tag g ∈ tags)).
  { intros i. split.
    - intros (g & Eg & [Hin|Et%list_elem_of_singleton]%elem_of_app); [right; by exists g|].
      left. by destruct (required_same_tag k i f g Ef Eg Et) as (_ & ? & ?).
    - intros [[Hf ->]|(g & Eg & Hin)]; [exists f|exists g]; (split; [|apply elem_of_app]); auto.
      + by apply required_lookup.
      + right. by apply list_elem_of_singleton. }
  destruct (is_required f) eqn:Hreq; cbn [andb].
  - destruct (Z.ltb_spec (Z.of_nat (required_before fs k)) PB_MAX_REQUIRED_FIELDS) as [Hlt|Hge];
      unfold PB_MAX_REQUIRED_FIELDS in *.
    + split; [apply mark_seen_ok; [lia|done]|]. intros i Hi.
      rewrite mark_seen_bit, orb_true_iff, Z.eqb_eq, Hadd, (Hbits i Hi) by (done || lia).
      split; (intros [H|H]; [left|by right]); [split; [done|lia]|destruct H; lia].
    + split; [done|]. intros i Hi. rewrite Hadd, (Hbits i Hi). split; [by right|].
      intros [[_ ->]|H]; [lia|done].
  - split; [done|]. intros i Hi. rewrite Hadd, (Hbits i Hi). split; [by right|]. by intros [[? _]|H].
Qed.

Lemma recorded_unknown t seen tags :
  (forall j, field_matches fs t j = false) -> recorded seen tags -> recorded seen (tags ++ [t]).
Proof.
  intros Hno [Hok Hbits]. split; [done|]. intros i Hi. rewrite (Hbits i Hi). split.
  - intros (f & Ef & Hin). exists f. split; [done|]. apply elem_of_app. by left.
  - intros (f & Ef & [Hin|Et%list_elem_of_singleton]%elem_of_app); [by exists f|].
    pose proof Ef as (k & Ek & Hf & _)%filter_lookup. exfalso.
    pose proof (Forall_lookup_1 _ _ _ _ (proj2 Htags) Ek Hf) as Hext.
    specialize (Hno k). unfold field_matches, stops_at, has_tag in Hno. rewrite Ek in Hno.
    by rewrite (proj2 (Z.eqb_eq _ _) Et), (proj2 (Z.eqb_neq _ _) Hext) in Hno.
Qed.

Lemma rounds_recorded s l w tags s' l' w' before :
  rounds s l w tags s' l' w' -> placed (nl_iter l) -> recorded (fields_seen l) before ->
  placed (nl_iter l') /\ recorded (fields_seen l') (before ++ tags).
Proof.
  intros Hr. revert before. induction Hr as [s l w E|s l w out s' w' E Et Eo|
    s l w out s1 w1 it w2 s2 l2 w3 tags s' l' w' E Et Ef Ed _ IH|
    s l w out s1 w1 it w2 s2 l2 w3 tags s' l' w' E Et Ef Ed _ IH]; intros before Hp Hrec.
  - by rewrite app_nil_r.
  - by rewrite app_nil_r.
  - destruct Hp as (k & Hk & Hl).
    destruct (located_find id fs dest Harr k _ (to_tag out) w1 Hl Hk) as (found & k1 & it1 & E1 & Hl1 & Hk1 & Hm).
    rewrite Ef in E1. injection E1 as <- <- <-.
    pose proof (decode_known_marks s1 (to_wire_type out) (nl_with_iter l it) k1 w2 Hl1 Hk1) as Hd.
    unfold wlp in Hd. rewrite Ed in Hd. destruct (Hd eq_refl) as [Hp2 Hs2]. cbn [fst snd] in *.
    rewrite (cons_middle (to_tag out) before tags), app_assoc. apply IH; [done|].
    rewrite Hs2. by apply recorded_known.
  - destruct Hp as (k & Hk & Hl).
    destruct (located_find id fs dest Harr k _ (to_tag out) w1 Hl Hk) as (found & k1 & it1 & E1 & Hl1 & Hk1 & Hm).
    rewrite Ef in E1. injection E1 as <- <- <-.
    pose proof (decode_unknown_marks s1 (to_tag out) (to_wire_type out) (nl_with_iter l it) k1 w2 Hl1 Hk1) as Hd.
    unfold wlp in Hd. rewrite Ed in Hd. destruct Hd as [Hp2 Hs2]. cbn [fst snd] in *.
    rewrite (cons_middle (to_tag out) before tags), app_assoc. apply IH; [done|].
    rewrite Hs2. by apply recorded_unknown.
Qed.

(** ** The check at the end of the message *)

(** The tags of the first 64 required fields. *)
Definition required_tags : list Z := tag <$> take 64 required_fields.

Definition all_present (tags : list Z) : bool :=
  forallb (fun t => bool_decide (t ∈ tags)) required_tags.

Lemma all_present_spec tags :
  all_present tags = true <->
  forall i f, (i < 64)%nat -> required_fields !! i = Some f -> tag f ∈ tags.
Proof.
  unfold all_present, required_tags. rewrite forallb_forall. split.
  - intros H i f Hi Ef. apply (bool_decide_eq_true_1 _), H, list_elem_of_In, list_elem_of_fmap.
    exists f. split; [done|]. apply list_elem_of_lookup. exists i. by rewrite lookup_take_lt.
  - intros H t (f & -> & Hf)%list_elem_of_In%list_elem_of_fmap. apply bool_decide_eq_true_2.
    apply list_elem_of_lookup in Hf as [i Ei]. pose proof (lookup_lt_Some _ _ _ Ei) as Hi.
    rewrite length_take in Hi. rewrite lookup_take_lt in Ei by lia. apply (H i f); [lia|done].
Qed.

(** The number of required fields, as the walk over the fields counts it. *)
Lemma required_total it itl fl :
  fs !! (n - 1)%nat = Some fl -> located id fs dest (n - 1) itl ->
  (if (PB_HTYPE (type fl) =? PB_HTYPE_REQUIRED) && negb (it =? 0)
   then u32 (required_field_index itl + 1) else required_field_index itl) =
  (if it =? 0 then Z.of_nat (required_before fs (n - 1)) else Z.of_nat (length required_fields)).
Proof.
  intros Ef Hl. pose proof (lookup_lt_Some _ _ _ Ef) as Hn.
  rewrite (located_index id fs dest Harr _ _ Hn Hl Hsize).
  assert (Eall : length required_fields = required_before fs (S (n - 1))).
  { unfold required_before. by rewrite take_ge by lia. }
  rewrite Eall, (required_before_S _ _ _ Ef). pose proof (required_before_le fs (n - 1)) as Hle.
  change (PB_HTYPE (type fl) =? PB_HTYPE_REQUIRED) with (is_required fl).
  destruct (it =? 0), (is_required fl); cbn [andb negb]; try lia.
  rewrite wrap_small by lia. lia.
Qed.

Lemma check_required_fields_run s l tags w :
  placed (nl_iter l) -> recorded (fields_seen l) tags ->
  check_required_fields s l w =
    if all_present tags then Done (true, s) w
    else Done (false, is_set_error s "missing required field") w.
Proof.
  intros (k & Hk & Hl) [Hok Hbits].
  destruct (located_deref id fs dest Harr k _ Hl Hk) as (_ & _ & Ep & _).
  destruct (required_fields_loop_run id fs dest Harr (array_fuel (pos (nl_iter l))) k _ Hl Hk)
    as (itl & fl & it' & E & Efl & Hitl & Hit').
  { unfold array_fuel. rewrite Ep. cbn [fst]. rewrite (length_descriptors id fs Harr). lia. }
  unfold check_required_fields. rewrite E. cbn [of_option2]. rewrite bind_ret.
  pose proof (descriptors_nonempty id fs Harr) as Hn.
  destruct (located_deref id fs dest Harr 0 it' (located_plain _ _ _ _ _ Hit') Hn) as (f0 & Edr & _ & Ht & _).
  unfold iter_field. rewrite Edr. cbn [of_option]. rewrite bind_ret. cbv zeta.
  rewrite (required_total (tag f0) itl fl Efl Hitl), (proj2 (Z.eqb_neq _ _) Ht).
  set (count := Z.min _ _).
  assert (Hall : (0 <? count) && negb (required_fields_present (fields_seen l) count) =
                 negb (all_present tags)); [|rewrite Hall; by destruct (all_present tags)].
  assert (Hiff : all_present tags = true <->
                 forall i, 0 <= i < count -> seen_bit (fields_seen l) i = true).
  { rewrite all_present_spec. unfold count, PB_MAX_REQUIRED_FIELDS. split.
    - intros H i Hi. rewrite <- (Z2Nat.id i) by lia.
      destruct (lookup_lt_is_Some_2 required_fields (Z.to_nat i)) as [f Ef]; [lia|].
      apply Hbits; [lia|]. exists f. split; [done|]. apply (H (Z.to_nat i)); [lia|done].
    - intros H i f Hi Ef. pose proof (lookup_lt_Some _ _ _ Ef) as Hlt.
      specialize (H (Z.of_nat i) ltac:(lia)). apply Hbits in H as (g & Eg & Hin); [|lia].
      rewrite Ef in Eg. by injection Eg as <-. }
  destruct (Z.ltb_spec 0 count) as [Hpos|Hzero]; cbn [andb].
  - f_equal. apply eq_true_iff_eq. rewrite Hiff. apply required_fields_present_spec; [done|unfold count, PB_MAX_REQUIRED_FIELDS in *; lia|].
    intros i Hi. destruct (seen_bit (fields_seen l) i) eqn:Eb; [|done]. exfalso.
    rewrite <- (Z2Nat.id i) in Eb by lia. apply Hbits in Eb as (f & Ef & _); [|lia].
    apply lookup_lt_Some in Ef. unfold count, PB_MAX_REQUIRED_FIELDS in Hi. lia.
  - symmetry. apply negb_false_iff, Hiff. intros i Hi. lia.
Qed.

End Runs.
