(* ===== verification/PbSafety.v ===== *)
(** Memory safety of nanopb's decoder on arbitrary input: the regions a piece of the
    decoder reads and writes, and the rules that the field decoders and the message
    decoder are composed with; then whole messages of static fields: initialisation,
    release and decoding on arbitrary input return, touch no memory outside the
    struct, and decoding reads no byte outside the input. *)
From S2P Require Import Prelude Memory PbTypes PbLayout PbWire PbRelease PbDecode PbInput PbCodec.
From S2P Require Import PbDecodeMsg.

(** ** Confined effects *)

(** Only bytes of [a, a + n) change; nothing is allocated or freed. *)
Definition confined (a n : Z) (w w' : world) : Prop :=
  w' = set_mem (mem w') w /\
  (forall x, ~ (a <= x < a + n) -> mem w' !! x = mem w !! x) /\
  (forall x, is_Some (mem w' !! x) <-> is_Some (mem w !! x)) /\
  (wf_mem (mem w) -> wf_mem (mem w')).

Lemma confined_refl a n w : confined a n w w.
Proof. split_and!; try done. by destruct w. Qed.

Lemma confined_trans a n w1 w2 w3 : confined a n w1 w2 -> confined a n w2 w3 -> confined a n w1 w3.
Proof.
  intros (E1 & H1 & D1 & W1) (E2 & H2 & D2 & W2). split_and!.
  - rewrite E2, E1. done.
  - intros x Hx. rewrite H2, H1 by done. done.
  - intros x. by rewrite D2, D1.
  - auto.
Qed.

Lemma confined_sub a n a' n' w w' :
  a <= a' -> a' + n' <= a + n -> confined a' n' w w' -> confined a n w w'.
Proof.
  intros H1 H2 (E & H & D & W). split_and!; try done. intros x Hx. apply H. lia.
Qed.

(** A region that may be written. *)
Definition room (w : world) (a n : Z) : Prop := mapped (mem w) a n /\ wf_mem (mem w).

Lemma room_confined a n a' n' w w' : room w a' n' -> confined a n w w' -> room w' a' n'.
Proof.
  intros [Hm Hw] (_ & _ & D & W). split; [|auto]. intros x Hx. apply D. by apply Hm.
Qed.

Lemma room_sub w a n a' n' : room w a n -> a <= a' -> a' + n' <= a + n -> room w a' n'.
Proof. intros [Hm Hw] H1 H2. split; [|done]. intros x Hx. apply Hm. lia. Qed.

Lemma write_bytes_wf m a bs m' :
  write_bytes m a bs = Some m' -> Forall is_byte bs -> wf_mem m -> wf_mem m'.
Proof.
  revert m a. induction bs as [|b bs IH]; intros m a; cbn; [by intros [= <-]|].
  destruct (m !! a); [|done]. intros H [Hb Hbs]%Forall_cons Hm. apply (IH _ _ H Hbs).
  intros x y. rewrite lookup_insert. case_decide; [by intros [= <-]|apply Hm].
Qed.

Lemma wp_store_bytes a bs w Q :
  room w a (Z.of_nat (length bs)) -> Forall is_byte bs ->
  (forall w', confined a (Z.of_nat (length bs)) w w' -> Q tt w') ->
  wp (store_bytes a bs) w Q.
Proof.
  intros [Hm Hw] Hb HQ. unfold wp, store_bytes.
  destruct (write_bytes_mapped _ _ _ Hm) as [m' E]. rewrite E. apply HQ.
  pose proof (write_bytes_inv _ _ _ _ E) as (_ & _ & Hf).
  split_and!; [done|done|by eapply write_bytes_dom|]. intros _. by eapply write_bytes_wf.
Qed.

Lemma wp_store n a v w Q :
  room w a (Z.of_nat n) -> (forall w', confined a (Z.of_nat n) w w' -> Q tt w') ->
  wp (store n a v) w Q.
Proof.
  intros Hr HQ. apply wp_store_bytes; rewrite ?length_le_bytes; auto. apply le_bytes_is_byte.
Qed.

Lemma wp_memset a c n w Q :
  0 <= n -> room w a n -> (forall w', confined a n w w' -> Q tt w') -> wp (memset a c n) w Q.
Proof.
  intros Hn Hr HQ. unfold memset.
  assert (El : Z.of_nat (length (replicate (Z.to_nat n) (u8 c))) = n)
    by (rewrite length_replicate; lia).
  apply wp_store_bytes; rewrite ?El; try done.
  apply Forall_replicate. unfold is_byte. pose proof (wrap_bounds 8 c). lia.
Qed.

Lemma wp_load n a w (Q : Z -> world -> Prop) :
  room w a (Z.of_nat n) -> (forall v, 0 <= v < 2 ^ (8 * Z.of_nat n) -> Q v w) -> wp (load n a) w Q.
Proof.
  intros [Hm Hw] HQ. destruct (read_bytes_mapped _ _ _ Hm) as [bs Hr].
  assert (El : read_le (mem w) n a = Some (le_val bs)) by (unfold read_le; by rewrite Hr).
  unfold wp, load. rewrite El. apply HQ. by apply (read_le_bound _ _ _ _ Hw El).
Qed.

Lemma wp_of_option {A} (o : option A) a w (Q : A -> world -> Prop) :
  o = Some a -> Q a w -> wp (of_option o) w Q.
Proof. by intros ->. Qed.

Lemma wp_if {A} (b : bool) (m1 m2 : M A) w Q :
  (b = true -> wp m1 w Q) -> (b = false -> wp m2 w Q) -> wp (if b then m1 else m2) w Q.
Proof. destruct b; auto. Qed.

Lemma wp_val_bind {A T B : Type} (m : M (option A * T)) (k : A -> T -> M (option B * T)) w Q :
  wp m w (fun r w' => match r.1 with Some a => wp (k a r.2) w' Q | None => Q (None, r.2) w' end) ->
  wp (bind_val m k) w Q.
Proof.
  intros H. apply wp_bind. eapply wp_mono; [exact H|]. intros [[a|] s] w'; auto.
Qed.

Lemma wp_ok_bind {A T : Type} (m : M (option A * T)) (k : A -> T -> M (bool * T)) w Q :
  wp m w (fun r w' => match r.1 with Some a => wp (k a r.2) w' Q | None => Q (false, r.2) w' end) ->
  wp (bind_ok m k) w Q.
Proof.
  intros H. apply wp_bind. eapply wp_mono; [exact H|]. intros [[a|] s] w'; auto.
Qed.

Lemma wp_and_then {T : Type} (m : M (bool * T)) (k : T -> M (bool * T)) w Q :
  wp m w (fun r w' => if r.1 then wp (k r.2) w' Q else Q (false, r.2) w') ->
  wp (and_then m k) w Q.
Proof.
  intros H. apply wp_bind. eapply wp_mono; [exact H|]. intros [[] s] w'; auto.
Qed.

(** ** Streams apart from the region *)

Definition apart (st : istream_state) (len : nat) (a n : Z) : Prop :=
  match st with
  | IsPtr p => p + Z.of_nat len <= a \/ a + n <= p
  | IsLocal _ => True
  end.

(** The stream offers [bs] and the region is there to be written. *)
Definition ready (w : world) (s : pb_istream_t) (bs : list Z) (a n : Z) : Prop :=
  room w a n /\ offers (mem w) s bs /\ apart (i_state s) (length bs) a n.

(** A stream that has failed: it can still be closed. *)
Definition tame (s : pb_istream_t) : Prop :=
  i_callback s = IcbBufRead /\ 0 <= i_bytes_left s < 2 ^ 64.

Lemma ready_tame w s bs a n : ready w s bs a n -> tame s.
Proof.
  intros (_ & (Hc & Hl & Hb & _) & _). split; [done|]. lia.
Qed.

Lemma ready_confined w s bs a n w' : ready w s bs a n -> confined a n w w' -> ready w' s bs a n.
Proof.
  intros (Hr & Ho & Ha) Hc. split_and!; [by eapply room_confined| |done].
  eapply offers_mem; [done|]. destruct Hc as (_ & Hf & _). unfold apart in Ha.
  destruct (i_state s); [|done]. intros x Hx. apply Hf. lia.
Qed.

Lemma ready_sub w s bs a n a' n' :
  ready w s bs a n -> a <= a' -> a' + n' <= a + n -> ready w s bs a' n'.
Proof.
  intros (Hr & Ho & Ha) H1 H2. split_and!; [by eapply room_sub|done|].
  unfold apart in *. destruct (i_state s); [|done]. lia.
Qed.

Lemma ready_advanced w s bs a n k e :
  ready w s bs a n -> (k <= length bs)%nat -> ready w (advanced s k e) (drop k bs) a n.
Proof.
  intros (Hr & Ho & Ha) Hk. split_and!; [done|by apply offers_take|].
  unfold apart in *. cbn. destruct (i_state s); cbn; [|done]. rewrite length_drop. lia.
Qed.

Lemma ready_room w s bs a n : ready w s bs a n -> room w a n.
Proof. by intros [? _]. Qed.

Lemma ready_offers w s bs a n : ready w s bs a n -> offers (mem w) s bs.
Proof. by intros (_ & ? & _). Qed.

Lemma tame_error s msg : tame s -> tame (is_set_error s msg).
Proof. done. Qed.

(** The outcome of a decoder of [s] that writes into the region and consumes at
    least [m] bytes when it succeeds. *)
Definition decodes (m : nat) (s : pb_istream_t) (bs : list Z) (a n : Z) (w : world)
    (r : bool * pb_istream_t) (w' : world) : Prop :=
  confined a n w w' /\
  if r.1 then exists k e, r.2 = advanced s k e /\ (m <= k <= length bs)%nat else tame r.2.

(** The same with the region enlarged, or after other steps. *)
Lemma decodes_sub m s bs a n a' n' w r w' :
  a <= a' -> a' + n' <= a + n -> decodes m s bs a' n' w r w' -> decodes m s bs a n w r w'.
Proof. intros H1 H2 [Hc H]. split; [by eapply confined_sub|done]. Qed.

Lemma decodes_after m s bs a n w0 w r w' :
  confined a n w0 w -> decodes m s bs a n w r w' -> decodes m s bs a n w0 r w'.
Proof. intros Hc0 [Hc H]. split; [by eapply confined_trans|done]. Qed.

Lemma decodes_advanced m m' s bs a n k e w r w' :
  (k <= length bs)%nat -> (m <= m' + k)%nat ->
  decodes m' (advanced s k e) (drop k bs) a n w r w' -> decodes m s bs a n w r w'.
Proof.
  intros Hk Hm [Hc H]. split; [done|]. destruct r.1; [|done].
  destruct H as (k' & e' & E & Hk'). rewrite length_drop in Hk'. exists (k + k')%nat, e'.
  split; [by rewrite E, advanced_advanced|lia].
Qed.

Lemma decodes_error m s bs a n w s' msg :
  tame s' -> decodes m s bs a n w (false, is_set_error s' msg) w.
Proof. intros H. split; [apply confined_refl|done]. Qed.

Lemma advanced_tame s bs m k e : offers m s bs -> (k <= length bs)%nat -> tame (advanced s k e).
Proof.
  intros (Hc & Hl & Hb & _) Hk. split; [done|]. cbn. lia.
Qed.

Section Safety.
Context {PD : PbDescriptors} {DC : DecCallbacks}.

(** ** Reads *)

(** A parser that changes no memory and consumes a byte when it succeeds. *)
Definition consumes {A} (f : pb_istream_t -> M (option A * pb_istream_t)) (P : A -> Prop) : Prop :=
  forall s w bs, offers (mem w) s bs ->
    exists r k e, f s w = Done (r, advanced s k e) w /\ (k <= length bs)%nat /\
      match r with Some a => (1 <= k)%nat /\ P a | None => True end.

Lemma consumes_varint : consumes pb_decode_varint (fun v => 0 <= v < 2 ^ 64).
Proof.
  intros s w bs Ho. rewrite (pb_decode_varint_spec _ _ _ Ho). unfold varint_result.
  destruct (scan_varint 10 bs) as [v|] eqn:E.
  - pose proof (scan_varint_length _ _ _ E).
    assert (v <> []).
    { intros ->. destruct bs as [|b bs]; [done|]. cbn in E.
      repeat (case_match; try done). }
    eexists _, _, _. split; [done|]. split; [lia|].
    split; [destruct v; [done|cbn; lia]|]. apply wrap_bounds. lia.
  - eexists _, _, _. split; [done|]. split; [lia|done].
Qed.

Lemma consumes_varint32 : consumes pb_decode_varint32 (fun v => 0 <= v < 2 ^ 32).
Proof.
  intros s w bs Ho. destruct (varint32_eof_safe s w bs Ho) as (o & eof & n & e & E & Hn & Heof & He).
  unfold pb_decode_varint32. rewrite (bind_done _ _ _ _ _ E).
  exists o, n, e. split; [done|]. split; [lia|]. destruct o; [|done].
  destruct He as (_ & -> & Hv). split; [|done]. destruct bs; [done|cbn in Hn; lia].
Qed.

Lemma consumes_svarint : consumes pb_decode_svarint (fun _ => True).
Proof.
  intros s w bs Ho. destruct (consumes_varint s w bs Ho) as (r & k & e & E & Hk & H).
  unfold pb_decode_svarint. destruct r as [v|].
  - rewrite (bind_val_done _ _ _ _ _ _ E). destruct H as [H1 _].
    destruct (negb _); eexists _, k, e; by split_and!.
  - rewrite (bind_val_none _ _ _ _ _ E). by exists None, k, e.
Qed.

(** A value is read, and the rest runs on what is left. *)
Lemma wp_consume {A} (f : pb_istream_t -> M (option A * pb_istream_t)) P
    (g : A -> pb_istream_t -> ires) s bs a n w :
  consumes f P -> ready w s bs a n ->
  (forall v k e, P v -> (1 <= k <= length bs)%nat -> ready w (advanced s k e) (drop k bs) a n ->
     wp (g v (advanced s k e)) w (decodes 0 (advanced s k e) (drop k bs) a n w)) ->
  wp (bind_ok (f s) g) w (decodes 1 s bs a n w).
Proof.
  intros Hf Hr Hg. apply wp_ok_bind.
  destruct (Hf s w bs (ready_offers _ _ _ _ _ Hr)) as (r & k & e & E & Hk & H).
  unfold wp at 1. rewrite E. cbn [fst snd]. destruct r as [v|].
  - destruct H as [H1 HP]. eapply wp_mono; [apply (Hg v k e HP); [lia|by apply ready_advanced]|].
    intros r w' Hd. eapply decodes_advanced; [done| |done]. lia.
  - split; [apply confined_refl|]. cbn. eapply advanced_tame; [by eapply ready_offers|done].
Qed.

(** The bytes of the stream are copied into the region. *)
Lemma buf_read_loop_mem s bs1 bs2 bs3 q w n :
  offers (mem w) s (bs1 ++ bs2 ++ bs3) -> room w q n ->
  Z.of_nat (length bs1 + length bs2) <= n ->
  apart (i_state s) (length (bs1 ++ bs2 ++ bs3)) q n ->
  wp (buf_read_loop (RMem q) (i_state s) (length bs1) (length bs2)) w
    (fun _ w' => confined q n w w').
Proof.
  revert bs1 w. induction bs2 as [|b bs2 IH]; intros bs1 w Ho Hr Hn Ha; cbn [length buf_read_loop].
  { apply wp_ret, confined_refl. }
  apply wp_bind. unfold wp at 1.
  rewrite (source_byte (mem w) s _ (length bs1) b w Ho ltac:(done)
    ltac:(by rewrite lookup_app_r, Nat.sub_diag by lia)).
  apply wp_bind. cbn [length] in Hn. pose proof (offers_byte _ _ _ Ho) as Hb.
  apply wp_store; [eapply room_sub; [done|lia|lia]|]. intros w1 Hc1.
  assert (Hc1' : confined q n w w1) by (eapply confined_sub; [| |done]; lia).
  apply wp_bind. eapply wp_mono; [|intros bs w2 Hc2; apply wp_ret; eapply confined_trans; [done|exact Hc2]].
  replace (S (length bs1)) with (length (bs1 ++ [b])) by (rewrite length_app; cbn; lia).
  assert (E : bs1 ++ (b :: bs2) ++ bs3 = (bs1 ++ [b]) ++ bs2 ++ bs3) by (by rewrite <- app_assoc).
  rewrite E in *. apply IH.
  - eapply offers_mem; [done|]. destruct Hc1' as (_ & Hf & _). unfold apart in Ha.
    destruct (i_state s); [|done]. intros x Hx. apply Hf. lia.
  - by eapply room_confined.
  - rewrite length_app. cbn. lia.
  - done.
Qed.

Lemma wp_read_mem s bs q n count w :
  ready w s bs q n -> 0 <= count <= n ->
  wp (pb_read_ s (RMem q) count) w (decodes 0 s bs q n w).
Proof.
  intros Hr Hc. pose proof (ready_offers _ _ _ _ _ Hr) as Ho. unfold pb_read_.
  destruct (Z_lt_dec (Z.of_nat (length bs)) count) as [Hlt|Hge].
  { unfold wp. rewrite (bind_ok_none _ _ _ _ _ (pb_read_short s (RMem q) _ _ _ Ho Hlt)).
    apply decodes_error. by eapply ready_tame. }
  apply wp_ok_bind. unfold pb_read. destruct (Z.eqb_spec count 0) as [->|Hne].
  { apply wp_ret. cbn [fst snd]. apply wp_ret. split; [apply confined_refl|].
    exists 0%nat, (i_errmsg s). split; [|lia]. rewrite advanced_0. by destruct s. }
  unfold pb_read_bytes, call_read_callback, buf_read. pose proof Ho as (Hcb & Hl & Hb & _).
  rewrite (proj2 (Z.ltb_ge _ _)), Hcb by lia. apply wp_bind, wp_bind.
  pose proof Hr as (Hroom & _ & Hap).
  rewrite <- (take_drop (Z.to_nat count) bs) in Ho, Hap.
  assert (El : length (take (Z.to_nat count) bs) = Z.to_nat count) by (apply length_take_le; lia).
  pose proof (buf_read_loop_mem s [] (take (Z.to_nat count) bs) (drop (Z.to_nat count) bs) q w n
                Ho Hroom ltac:(rewrite El; cbn; lia) Hap) as Hloop.
  rewrite El in Hloop. eapply wp_mono; [exact Hloop|]. intros bs' w' Hconf.
  apply wp_ret, wp_ret. cbn [fst snd]. apply wp_ret. split; [done|].
  exists (Z.to_nat count), (i_errmsg s). split; [|lia]. unfold advanced.
  unfold is_with_left, is_with_state. cbn [i_callback i_state i_bytes_left i_errmsg snd].
  rewrite Z2Nat.id by lia. f_equal. apply wrap_small. lia.
Qed.

(** ** Scalar values *)

Lemma wp_store_ret s k a n w (v : Z) bs :
  room w a n -> Z.of_nat k <= n -> offers (mem w) s bs ->
  wp (store k a v ;; mret (M := M) (true, s)) w (decodes 0 s bs a n w).
Proof.
  intros Hr Hk Ho. apply wp_bind, wp_store; [eapply room_sub; [done|lia|lia]|]. intros w' Hc.
  apply wp_ret. split; [eapply confined_sub; [| |done]; lia|]. exists 0%nat, (i_errmsg s).
  split; [|lia]. rewrite advanced_0. by destruct s.
Qed.

Lemma dec_bool_safe s f w bs a n :
  ready w s bs a n -> 1 <= n -> wp (pb_dec_bool s f a) w (decodes 1 s bs a n w).
Proof.
  intros Hr Hn. apply (wp_consume _ _ _ _ _ _ _ _ consumes_varint32 Hr). intros v k e _ Hk Hr'.
  apply wp_store_ret; [by eapply ready_room|lia|by eapply ready_offers].
Qed.

Lemma store_clamped_safe s f w bs a n v cast :
  ready w s bs a n -> data_size f = n -> wp (store_clamped s f a v cast) w (decodes 0 s bs a n w).
Proof.
  intros Hr Hn. unfold store_clamped.
  assert (H : forall k (b : bool), Z.of_nat k = n ->
    wp (store k a v ;; if b then is_return_error s "integer too large" else mret (M := M) (true, s)) w
       (decodes 0 s bs a n w)).
  { intros k b Hk. apply wp_bind, wp_store; [rewrite Hk; by eapply ready_room|]. rewrite Hk.
    intros w' Hc. destruct b; apply wp_ret; split; try done; [by eapply ready_tame|].
    exists 0%nat, (i_errmsg s). split; [|lia]. rewrite advanced_0. by destruct s. }
  repeat match goal with
  | |- context [data_size f =? ?x] => destruct (Z.eqb_spec (data_size f) x); [apply H; lia|]
  end.
  apply wp_ret, decodes_error. by eapply ready_tame.
Qed.

Lemma dec_varint_safe s f w bs a n :
  ready w s bs a n -> data_size f = n -> wp (pb_dec_varint s f a) w (decodes 1 s bs a n w).
Proof.
  intros Hr Hn. apply (wp_consume _ _ _ _ _ _ _ _ consumes_varint Hr). intros v k e _ _ Hr'.
  by apply store_clamped_safe.
Qed.

Lemma dec_uvarint_safe s f w bs a n :
  ready w s bs a n -> data_size f = n -> wp (pb_dec_uvarint s f a) w (decodes 1 s bs a n w).
Proof.
  intros Hr Hn. apply (wp_consume _ _ _ _ _ _ _ _ consumes_varint Hr). intros v k e _ _ Hr'.
  by apply store_clamped_safe.
Qed.

Lemma dec_svarint_safe s f w bs a n :
  ready w s bs a n -> data_size f = n -> wp (pb_dec_svarint s f a) w (decodes 1 s bs a n w).
Proof.
  intros Hr Hn. apply (wp_consume _ _ _ _ _ _ _ _ consumes_svarint Hr). intros v k e _ _ Hr'.
  by apply store_clamped_safe.
Qed.

(** A fixed-width value: short input, or a store of [k] bytes. *)
Lemma fixed_safe (f : pb_istream_t -> Z -> ires) k s w bs a n :
  (forall bs rest, offers (mem w) s (bs ++ rest) -> length bs = k ->
     f s a w = (store_bytes a bs ;; mret (true, consumed s k)) w) ->
  (Z.of_nat (length bs) < Z.of_nat k -> f s a w = Done (false, is_set_error s "end-of-stream") w) ->
  ready w s bs a n -> Z.of_nat k <= n -> (0 < k)%nat ->
  wp (f s a) w (decodes 1 s bs a n w).
Proof.
  intros Hrun Hshort Hr Hn Hk. pose proof (ready_offers _ _ _ _ _ Hr) as Ho.
  destruct (Nat.lt_ge_cases (length bs) k) as [Hlt|Hge].
  - unfold wp. rewrite Hshort by lia. apply decodes_error. by eapply ready_tame.
  - rewrite <- (take_drop k bs) in Ho. unfold wp.
    assert (El : length (take k bs) = k) by (apply length_take_le; lia).
    rewrite (Hrun _ _ Ho El). change (wp (store_bytes a (take k bs) ;; mret (M := M) (true, consumed s k)) w
      (decodes 1 s bs a n w)).
    apply wp_bind, wp_store_bytes.
    + rewrite El. eapply room_sub; [by eapply ready_room|lia|lia].
    + apply Forall_take. by apply ready_offers, offers_byte in Hr.
    + intros w' Hc. rewrite El in Hc. apply wp_ret.
      split; [eapply confined_sub; [| |done]; lia|]. exists k, (i_errmsg s). split; [done|lia].
Qed.

Lemma dec_fixed32_safe s f w bs a n :
  ready w s bs a n -> 4 <= n -> wp (pb_dec_fixed32 s f a) w (decodes 1 s bs a n w).
Proof.
  intros Hr Hn. apply (fixed_safe pb_decode_fixed32 4); [|..|done|lia|lia].
  - intros bs' rest Ho Hl. by apply (pb_decode_fixed32_spec s w a bs' rest).
  - intros Hlt. unfold pb_decode_fixed32. apply bind_ok_none.
    by apply (pb_read_short s RLocal 4 w bs (ready_offers _ _ _ _ _ Hr)).
Qed.

Lemma dec_fixed64_safe s f w bs a n :
  ready w s bs a n -> 8 <= n -> wp (pb_dec_fixed64 s f a) w (decodes 1 s bs a n w).
Proof.
  intros Hr Hn. apply (fixed_safe pb_decode_fixed64 8); [|..|done|lia|lia].
  - intros bs' rest Ho Hl. by apply (pb_decode_fixed64_spec s w a bs' rest).
  - intros Hlt. unfold pb_decode_fixed64. apply bind_ok_none.
    by apply (pb_read_short s RLocal 8 w bs (ready_offers _ _ _ _ _ Hr)).
Qed.

(** ** Bytes and strings *)

(** A store into the region before a decoder. *)
Lemma wp_store_then s bs a n m k b v (f : ires) w :
  ready w s bs a n -> a <= b -> b + Z.of_nat k <= a + n ->
  (forall w', ready w' s bs a n -> wp f w' (decodes m s bs a n w')) ->
  wp (store k b v ;; f) w (decodes m s bs a n w).
Proof.
  intros Hr H1 H2 Hf. apply wp_bind, wp_store.
  { eapply room_sub; [by eapply ready_room|lia|lia]. }
  intros w' Hc. assert (Hc' : confined a n w w') by (by eapply confined_sub; [| |done]).
  eapply wp_mono; [apply Hf; by eapply ready_confined|].
  intros r w2 Hd. by eapply decodes_after.
Qed.

Lemma wp_sub s bs a n a' n' m (f : ires) w :
  a <= a' -> a' + n' <= a + n -> wp f w (decodes m s bs a' n' w) ->
  wp f w (decodes m s bs a n w).
Proof. intros H1 H2 H. eapply wp_mono; [exact H|]. intros r w' Hd. by eapply decodes_sub. Qed.

Definition is_static (f : pb_field_t) : Prop := PB_ATYPE (type f) = PB_ATYPE_STATIC.

Lemma dec_bytes_safe s f w bs a n :
  ready w s bs a n -> is_static f -> data_size f = n -> n < 2 ^ 32 ->
  wp (pb_dec_bytes s f a) w (decodes 1 s bs a n w).
Proof.
  intros Hr Hst Hn Hlt. apply (wp_consume _ _ _ _ _ _ _ _ consumes_varint32 Hr).
  intros v k e Hv _ Hr'. unfold is_static in Hst. rewrite Hst. change (PB_ATYPE_STATIC =? PB_ATYPE_POINTER) with false.
  cbv iota zeta. unfold PB_SIZE_MAX, PB_BYTES_ARRAY_T_ALLOCSIZE, pb_bytes_off.
  rewrite (proj2 (Z.ltb_ge _ v)), wrap_small, (proj2 (Z.ltb_ge _ v)) by lia.
  destruct (Z.ltb_spec (data_size f) (v + 4)).
  - apply wp_ret, decodes_error. by eapply ready_tame.
  - apply wp_store_then; [done|lia|lia|]. intros w' Hr2.
    apply (wp_sub _ _ _ _ (a + 4) (n - 4)); [lia|lia|].
    apply wp_read_mem; [eapply ready_sub; [done|lia|lia]|lia].
Qed.

Lemma dec_string_safe s f w bs a n :
  ready w s bs a n -> is_static f -> data_size f = n ->
  wp (pb_dec_string s f a) w (decodes 1 s bs a n w).
Proof.
  intros Hr Hst Hn. apply (wp_consume _ _ _ _ _ _ _ _ consumes_varint32 Hr).
  intros v k e Hv _ Hr'. unfold is_static in Hst. rewrite Hst. change (PB_ATYPE_STATIC =? PB_ATYPE_POINTER) with false.
  cbv iota zeta. destruct (Z.ltb_spec (u32 (v + 1)) v) as [Hov|Hov].
  { apply wp_ret, decodes_error. by eapply ready_tame. }
  assert (Ev : u32 (v + 1) = v + 1).
  { destruct (Z.eq_dec v (2 ^ 32 - 1)) as [->|]; [by vm_compute in Hov|]. apply wrap_small. lia. }
  rewrite Ev. destruct (Z.ltb_spec (data_size f) (v + 1)) as [|Hfit].
  { apply wp_ret, decodes_error. by eapply ready_tame. }
  apply wp_bind. eapply wp_mono; [apply wp_read_mem; [exact Hr'|lia]|].
  intros [ok s'] w1 [Hc H]. apply wp_bind, wp_store.
  { eapply room_sub; [eapply room_confined; [by eapply ready_room|done]|lia|lia]. }
  intros w2 Hc2. apply wp_ret. split; [|done].
  eapply confined_trans; [done|]. eapply confined_sub; [| |done]; lia.
Qed.

Lemma dec_fixed_length_bytes_safe s f w bs a n :
  ready w s bs a n -> data_size f = n -> 0 <= n ->
  wp (pb_dec_fixed_length_bytes s f a) w (decodes 1 s bs a n w).
Proof.
  intros Hr Hn Hn0. apply (wp_consume _ _ _ _ _ _ _ _ consumes_varint32 Hr).
  intros v k e Hv _ Hr'. unfold PB_SIZE_MAX. rewrite (proj2 (Z.ltb_ge _ v)) by lia.
  destruct (v =? 0).
  - apply wp_bind. rewrite Hn. apply wp_memset; [done|by eapply ready_room|]. intros w' Hc.
    apply wp_ret. split; [done|]. eexists 0%nat, e. split; [|lia]. by rewrite advanced_0.
  - destruct (negb _).
    + apply wp_ret, decodes_error. by eapply ready_tame.
    + rewrite Hn. apply wp_read_mem; [done|lia].
Qed.

(** ** Substreams *)

Lemma ready_substream w s bs a n pre body rest e :
  ready w s bs a n -> bs = pre ++ body ++ rest ->
  ready w (substream_of (advanced s (length pre) e) body) body a n.
Proof.
  intros Hr ->. pose proof (ready_advanced _ _ _ _ _ (length pre) e Hr
    ltac:(rewrite length_app; lia)) as (Hroom & Ho & Ha).
  rewrite drop_app_length in Ho, Ha. split_and!; [done|by apply (offers_prefix _ _ body rest)|].
  unfold apart, substream_of, is_with_left in *. cbn in *. destruct (i_state s); cbn in *; [|done].
  rewrite length_app in Ha. lia.
Qed.

Lemma parent_tame m s bs pre body rest e :
  offers m s bs -> bs = pre ++ body ++ rest -> tame (parent_of (advanced s (length pre) e) rest).
Proof.
  intros (Hc & _ & Hb & _) ->. split; [done|]. cbn. rewrite !length_app in Hb. lia.
Qed.

Lemma wp_substream s bs a n w Q :
  ready w s bs a n -> (forall s', tame s' -> Q (None, s') w) ->
  (forall pre body rest e, bs = pre ++ body ++ rest -> (1 <= length pre)%nat ->
     Q (Some (substream_of (advanced s (length pre) e) body),
        parent_of (advanced s (length pre) e) rest) w) ->
  wp (pb_make_string_substream s) w Q.
Proof.
  intros Hr Hnone Hsome. pose proof (ready_offers _ _ _ _ _ Hr) as Ho.
  destruct (consumes_varint32 s w bs Ho) as (r & k & e & E & Hk & H).
  assert (Ht : tame (advanced s k e)) by (by eapply advanced_tame).
  unfold wp, pb_make_string_substream. destruct r as [v|].
  2: { rewrite (bind_val_none _ _ _ _ _ E). by apply Hnone. }
  destruct H as [H1 Hv]. destruct (Z_lt_dec (Z.of_nat (length (drop k bs))) v) as [Hlt|Hge].
  - rewrite (bind_val_done _ _ _ _ _ _ E).
    rewrite (proj2 (Z.ltb_lt _ _)); [by apply Hnone, tame_error|].
    cbn. rewrite (offers_left _ _ _ Ho). rewrite length_drop in Hlt. lia.
  - set (body := take (Z.to_nat v) (drop k bs)). set (rest := drop (Z.to_nat v) (drop k bs)).
    assert (Ebs : bs = take k bs ++ body ++ rest) by (unfold body, rest; by rewrite !take_drop).
    assert (Epre : length (take k bs) = k) by (apply length_take_le; lia).
    assert (Ebody : Z.of_nat (length body) = v) by (unfold body; rewrite length_take_le; lia).
    change (match pb_make_string_substream s w with Done a w' => Q a w' | _ => False end).
    rewrite (make_substream_run s w (take k bs) v body rest e); [|by rewrite <- Ebs|done|by rewrite Epre].
    apply Hsome; [done|by rewrite Epre].
Qed.

(** Closing a substream that has failed. *)
Lemma close_failed parent sub w Q :
  tame parent -> tame sub -> (forall s', tame s' -> Q (true, s') w) ->
  wp (pb_close_string_substream parent sub) w Q.
Proof.
  intros Hp [Hc Hl] HQ. unfold pb_close_string_substream. apply wp_bind.
  apply (wp_mono _ _ (fun r w' => r.1 = true /\ w' = w)).
  - apply wp_if; intros E; [|by apply wp_ret]. apply negb_true_iff, Z.eqb_neq in E.
    unfold pb_read_, pb_read. rewrite (proj2 (Z.eqb_neq _ _) E).
    rewrite bool_decide_eq_false_2 by (rewrite Hc; tauto).
    apply wp_ok_bind. unfold pb_read_bytes, call_read_callback, buf_read. rewrite Z.ltb_irrefl, Hc.
    apply wp_bind, wp_bind, wp_ret, wp_ret. cbn [fst snd]. by apply wp_ret, wp_ret.
  - intros [ok sub'] w' [Hok ->]. cbn in Hok. subst ok. cbn [negb]. apply wp_ret, HQ. done.
Qed.

(** A substream is used and closed: the parent has moved past it. *)
Lemma wp_close s bs a n w w0 pre body rest e sub w1 (ok : bool) :
  offers (mem w) s bs -> bs = pre ++ body ++ rest -> (1 <= length pre)%nat ->
  ready w s bs a n -> confined a n w0 w ->
  decodes 0 (substream_of (advanced s (length pre) e) body) body a n w (ok, sub) w1 ->
  wp (pb_close_string_substream (parent_of (advanced s (length pre) e) rest) sub) w1
    (fun r w' => r.1 = true /\ decodes 1 s bs a n w0 (ok, r.2) w').
Proof.
  intros Ho Ebs Hpre Hr Hc0 [Hc H]. cbn [fst snd] in H.
  pose proof (ready_confined _ _ _ _ _ _ Hr Hc) as Hr1. destruct ok.
  - destruct H as (k & e' & -> & Hk). unfold wp at 1.
    rewrite (pb_close_string_substream_spec _ _ body rest k e'); [|..|lia].
    + cbn [fst snd]. split; [done|]. split; [by eapply confined_trans|]. cbn [fst snd].
      exists (length pre + length body)%nat, e'. rewrite advanced_advanced. split; [done|].
      rewrite Ebs, !length_app. lia.
    + pose proof (ready_offers _ _ _ _ _ Hr1) as Ho1. rewrite Ebs in Ho1.
      by apply offers_advanced.
  - apply close_failed; [by eapply parent_tame|done|]. intros s' Hs'. cbn [fst snd].
    split; [done|]. split; [by eapply confined_trans|done].
Qed.

Lemma wp_close_substream s bs a n w w0 pre body rest e sub w1 (ok : bool) :
  offers (mem w) s bs -> bs = pre ++ body ++ rest -> (1 <= length pre)%nat ->
  ready w s bs a n -> confined a n w0 w ->
  decodes 0 (substream_of (advanced s (length pre) e) body) body a n w (ok, sub) w1 ->
  wp (s <-? pb_close_string_substream (parent_of (advanced s (length pre) e) rest) sub;
      mret (M := M) (ok, s)) w1 (decodes 1 s bs a n w0).
Proof.
  intros Ho Ebs Hpre Hr Hc0 Hd. apply wp_and_then.
  eapply wp_mono; [by eapply wp_close|]. intros [b s'] w' [Hb H]. cbn [fst snd] in *. subst b.
  by apply wp_ret.
Qed.

End Safety.

Section MessageSafety.
Context {PD : PbDescriptors} {DC : DecCallbacks}.

(** ** Fields that fit *)

Record fits (depth : nat) (size : Z) (f : pb_field_t) (d s : Z) : Prop := {
  fits_static : is_static f;
  fits_type : type_fits (static_message depth) f = true;
  fits_default : default_fits f = true;
  fits_data : 0 <= data_size f < 2 ^ 32;
  fits_array : 0 <= array_size f;
  fits_product : data_size f * array_size f < 2 ^ 32;
  fits_start : 0 <= d;
  fits_end : d + field_extent f <= size;
  fits_size : size_fits size f d s = true
}.

Lemma field_fits_spec depth size fs k f d s :
  field_fits (static_message depth) size fs k = true ->
  fs !! k = Some f -> field_offsets fs k = Some (d, s) -> fits depth size f d s.
Proof.
  unfold field_fits. intros H Hf Ho. rewrite Hf, Ho in H.
  repeat match goal with H : (_ && _) = true |- _ => apply andb_true_iff in H as [? ?] end.
  split; try done; try (by apply Z.eqb_eq); blia.
Qed.

(** The message of the struct at [dest]. *)
Definition message_at (depth : nat) (size : Z) (id : nat) : Prop :=
  static_message (S depth) size id = true.

Lemma message_descriptors depth size id :
  message_at depth size id -> descriptors id (message_fields id).
Proof. intros [H _]%andb_true_iff. by apply descriptors_ok_spec. Qed.

(** The iterator at a field. *)
Lemma message_field depth size id dest k it :
  message_at depth size id -> 0 < dest -> (k < length (message_fields id))%nat ->
  field_iter id dest k = Some it ->
  exists f d s, deref_field (pos it) = Some f /\ pos it = (id, k) /\ tag f <> 0 /\
    message_fields id !! k = Some f /\
    pData it = dest + d /\ pSize it = dest + s /\ fits depth size f d s.
Proof.
  intros Hm Hdest Hk E. pose proof (message_descriptors _ _ _ Hm) as Harr.
  apply andb_true_iff in Hm as [_ Hf].
  destruct (field_iter_shape id _ dest Harr k Hk) as (it0 & E0 & Hp & _).
  rewrite E in E0. injection E0 as <-.
  destruct (deref_fields id _ Harr k Hk) as (f & Ef & Efs & Ht).
  destruct (field_iter_offsets id _ dest k it Harr ltac:(unfold NULL; lia) Hk E) as (d & s & Eo & Ed & Es).
  exists f, d, s. rewrite Hp. split_and!; try done.
  eapply field_fits_spec; [|done|done]. rewrite forallb_forall in Hf. apply Hf, in_seq. lia.
Qed.

Lemma not_extension depth size f d s :
  fits depth size f d s -> (PB_LTYPE (type f) =? PB_LTYPE_EXTENSION) = false.
Proof.
  intros H. apply fits_type in H. unfold type_fits in H. apply Z.eqb_neq. intros E.
  rewrite E in H. by cbn in H.
Qed.

Lemma submessage_field depth size f d s :
  fits depth size f d s -> (PB_LTYPE (type f) =? PB_LTYPE_SUBMESSAGE) = true ->
  exists id, ptr f = PtrSubmsg id /\ static_message depth (data_size f) id = true.
Proof.
  intros H E. apply fits_type in H. unfold type_fits in H. apply Z.eqb_eq in E. rewrite E in H.
  cbn in H. destruct (ptr f) as [|id|v]; try done. by exists id.
Qed.

(** ** Walking the fields *)

Lemma fields_loop_wp id dest step (I : world -> Prop) fuel k it w :
  descriptors id (message_fields id) -> (k < length (message_fields id))%nat ->
  (length (message_fields id) - k <= fuel)%nat -> field_iter id dest k = Some it -> I w ->
  (forall k it w, (k < length (message_fields id))%nat -> field_iter id dest k = Some it -> I w ->
     wp (step it) w (fun _ w' => I w')) ->
  wp (fields_loop step fuel it) w (fun _ w' => I w').
Proof.
  intros Harr. revert k it w. induction fuel as [|fuel IH]; intros k it w Hk Hf E Hw Hstep; [lia|].
  cbn [fields_loop]. apply wp_bind. eapply wp_mono; [by eapply Hstep|]. intros [] w' Hw'.
  destruct (field_iter_next id _ dest Harr k it Hk E) as (it' & E' & Eit'). rewrite E'.
  apply wp_bind, wp_ret. cbv beta iota. unfold after in Eit'.
  destruct (Nat.ltb_spec (S k) (length (message_fields id))) as [Hlt|Hge]; [|by apply wp_ret].
  eapply IH; [exact Hlt|lia|exact Eit'|done|done].
Qed.

Lemma walk_fields id dest step (I : world -> Prop) w :
  descriptors id (message_fields id) -> I w ->
  (forall k it w, (k < length (message_fields id))%nat -> field_iter id dest k = Some it -> I w ->
     wp (step it) w (fun _ w' => I w')) ->
  exists it, pb_field_iter_begin (id, 0%nat) dest = Some (true, it) /\
    wp (fields_loop step (array_fuel (id, 0%nat)) it) w (fun _ w' => I w').
Proof.
  intros Harr Hw Hstep. destruct (begin_run id _ dest Harr) as (it & E & _).
  exists it. split; [done|]. apply (fields_loop_wp id dest step I _ 0); try done.
  - by apply (descriptors_nonempty id).
  - unfold array_fuel. cbn [fst]. rewrite (length_descriptors id _ Harr). lia.
  - cbn [field_iter]. by rewrite E.
Qed.

(** ** Default values *)

Lemma size_member depth size f d s dest w (k : nat) :
  fits depth size f d s -> room w dest size ->
  (if PB_HTYPE (type f) =? PB_HTYPE_OPTIONAL then (s =? d) = false /\ k = 1%nat
   else PB_HTYPE (type f) <> PB_HTYPE_REQUIRED /\ k = 4%nat) ->
  dest <= dest + s /\ dest + s + Z.of_nat k <= dest + size /\ room w (dest + s) (Z.of_nat k).
Proof.
  intros H Hr Hk. pose proof (fits_size _ _ _ _ _ H) as Hs. unfold size_fits in Hs.
  destruct (PB_HTYPE (type f) =? PB_HTYPE_OPTIONAL) eqn:Eo.
  - apply Z.eqb_eq in Eo. rewrite Eo in Hs. cbn in Hs. destruct Hk as [Ek ->]. rewrite Ek in Hs.
    cbn [orb] in Hs. apply andb_true_iff in Hs as [?%Z.leb_le ?%Z.leb_le].
    split_and!; [lia|lia|]. eapply room_sub; [done|lia|lia].
  - destruct Hk as [Hne ->]. rewrite (proj2 (Z.eqb_neq _ _) Hne) in Hs.
    apply andb_true_iff in Hs as [?%Z.leb_le ?%Z.leb_le].
    split_and!; [lia|lia|]. eapply room_sub; [done|lia|lia].
Qed.

Lemma size_pointer dest d s : (dest + s =? dest + d) = (s =? d).
Proof. destruct (Z.eqb_spec s d) as [->|]; [by rewrite Z.eqb_refl|]. apply Z.eqb_neq. lia. Qed.

(** The data of a field that is not repeated. *)
Lemma data_region depth size f d s dest w :
  fits depth size f d s -> room w dest size -> PB_HTYPE (type f) <> PB_HTYPE_REPEATED ->
  dest <= dest + d /\ dest + d + data_size f <= dest + size /\ room w (dest + d) (data_size f).
Proof.
  intros H Hr Hne. pose proof (fits_start _ _ _ _ _ H). pose proof (fits_end _ _ _ _ _ H) as He.
  unfold field_extent in He. rewrite (proj2 (Z.eqb_neq _ _) Hne) in He.
  split_and!; [lia|lia|]. eapply room_sub; [done|lia|lia].
Qed.

(** A step of a function that returns nothing, after which the region is there. *)
Definition keeps (a n : Z) (m : M unit) (w : world) : Prop := wp m w (fun _ w' => confined a n w w').

Lemma keeps_ret a n w : keeps a n (mret tt) w.
Proof. apply wp_ret, confined_refl. Qed.

Lemma keeps_sub a n a' n' m w : a <= a' -> a' + n' <= a + n -> keeps a' n' m w -> keeps a n m w.
Proof. intros H1 H2 H. eapply wp_mono; [exact H|]. intros [] w' Hc. by eapply confined_sub. Qed.

Definition defaults_safe (depth : nat) : Prop :=
  forall size id dest w, static_message depth size id = true -> 0 < dest -> room w dest size ->
    keeps dest size (pb_message_set_to_defaults depth (id, 0%nat) dest) w.

(** The default value of a field that is not a submessage. *)
Lemma init_value_keeps depth size f d s a w :
  fits depth size f d s -> (PB_LTYPE (type f) =? PB_LTYPE_SUBMESSAGE) = false ->
  room w a (data_size f) ->
  keeps a (data_size f)
    (match ptr f with
     | PtrNull => memset a 0 (data_size f)
     | PtrDefault value =>
         if Z.of_nat (length value) <? data_size f then fault
         else store_bytes a (take (Z.to_nat (data_size f)) value)
     | PtrSubmsg _ => fault
     end) w.
Proof.
  intros Hfit Esub Hr. pose proof (fits_data _ _ _ _ _ Hfit) as Hd.
  pose proof (fits_default _ _ _ _ _ Hfit) as Hdef. unfold default_fits in Hdef. rewrite Esub in Hdef.
  destruct (ptr f) as [|id|v]; [by apply wp_memset; [lia|..]|done|].
  apply andb_true_iff in Hdef as [Hl%Z.leb_le Hb]. rewrite (proj2 (Z.ltb_ge _ _)) by lia.
  assert (El : length (take (Z.to_nat (data_size f)) v) = Z.to_nat (data_size f))
    by (apply length_take_le; lia).
  apply wp_store_bytes; rewrite ?El, ?Z2Nat.id by lia; try done.
  apply Forall_take, Forall_forall. intros x Hx. apply list_elem_of_In in Hx.
  rewrite forallb_forall in Hb. specialize (Hb x Hx). unfold is_byte. blia.
Qed.

(** The default value of any field. *)
Lemma init_data_safe depth size f d s dest w :
  defaults_safe depth -> fits depth size f d s -> 0 < dest -> room w dest size ->
  PB_HTYPE (type f) <> PB_HTYPE_REPEATED ->
  keeps dest size
    (if PB_LTYPE (type f) =? PB_LTYPE_SUBMESSAGE then
       fields ← submsg_of f;
       pb_message_set_to_defaults_with (pb_field_set_to_default depth) fields (dest + d)
     else
       match ptr f with
       | PtrNull => memset (dest + d) 0 (data_size f)
       | PtrDefault value =>
           if Z.of_nat (length value) <? data_size f then fault
           else store_bytes (dest + d) (take (Z.to_nat (data_size f)) value)
       | PtrSubmsg _ => fault
       end) w.
Proof.
  intros IH Hfit Hdest Hr Hne. destruct (data_region _ _ _ _ _ _ _ Hfit Hr Hne) as (H1 & H2 & Hr').
  apply (keeps_sub _ _ (dest + d) (data_size f)); [lia|lia|].
  destruct (PB_LTYPE (type f) =? PB_LTYPE_SUBMESSAGE) eqn:Esub; [|by eapply init_value_keeps].
  destruct (submessage_field _ _ _ _ _ Hfit Esub) as (id & Ep & Hm).
  unfold submsg_of. rewrite Ep. apply wp_bind, wp_ret. apply IH; [done|lia|done].
Qed.

Lemma field_set_to_default_safe depth size id dest k it w :
  defaults_safe depth -> message_at depth size id -> 0 < dest ->
  (k < length (message_fields id))%nat -> field_iter id dest k = Some it -> room w dest size ->
  keeps dest size (pb_field_set_to_default (S depth) it) w.
Proof.
  intros IH Hm Hdest Hk E Hr.
  destruct (message_field _ _ _ _ _ _ Hm Hdest Hk E) as (f & d & s & Ef & Ep & _ & _ & Ed & Es & Hfit).
  cbn [pb_field_set_to_default]. unfold iter_field. rewrite Ef. apply wp_bind, wp_ret. cbv beta zeta.
  rewrite (not_extension _ _ _ _ _ Hfit), (fits_static _ _ _ _ _ Hfit), Ed, Es, size_pointer.
  change (PB_ATYPE_STATIC =? PB_ATYPE_STATIC) with true. cbv iota. apply wp_bind.
  destruct (PB_HTYPE (type f) =? PB_HTYPE_OPTIONAL) eqn:Eo; cbn [andb].
  { apply Z.eqb_eq in Eo. destruct (s =? d) eqn:Esd; cbn [negb]; rewrite ?Eo.
    - apply wp_ret. apply (init_data_safe depth size f d s); try done. by rewrite Eo.
    - destruct (size_member _ _ _ _ _ _ _ 1 Hfit Hr) as (H1 & H2 & Hr1); [by rewrite Eo|].
      apply wp_bind, wp_store; [done|]. intros w1 Hc1. apply wp_ret.
      assert (Hc : confined dest size w w1) by (by eapply confined_sub; [| |done]).
      eapply wp_mono; [apply (init_data_safe depth size f d s); try done;
                       [by eapply room_confined|by rewrite Eo]|].
      intros [] w2 Hc2. by eapply confined_trans. }
  destruct ((PB_HTYPE (type f) =? PB_HTYPE_REPEATED) || (PB_HTYPE (type f) =? PB_HTYPE_ONEOF)) eqn:Ero.
  - destruct (size_member _ _ _ _ _ _ _ 4 Hfit Hr) as (H1 & H2 & Hr1).
    { rewrite Eo. split; [|done]. intros Ereq. by rewrite Ereq in Ero. }
    apply wp_bind, wp_store; [done|]. intros w1 Hc1. apply wp_ret, wp_ret.
    by eapply confined_sub; [| |done].
  - apply wp_ret. apply (init_data_safe depth size f d s); try done.
    intros Erep. by rewrite Erep in Ero.
Qed.

Lemma set_to_defaults_safe depth : defaults_safe depth.
Proof.
  induction depth as [|depth IH]; intros size id dest w Hm Hdest Hr; [done|].
  unfold keeps, pb_message_set_to_defaults, pb_message_set_to_defaults_with.
  destruct (walk_fields id dest (pb_field_set_to_default (S depth)) (fun w' => confined dest size w w') w)
    as (it & E & Hwalk); [by eapply message_descriptors|apply confined_refl| |].
  - intros k it w1 Hk Eit Hc1. eapply wp_mono.
    + apply (field_set_to_default_safe depth size id dest k it w1 IH Hm Hdest Hk Eit).
      by eapply room_confined.
    + intros [] w2 Hc2. by eapply confined_trans.
  - rewrite E. apply wp_bind, wp_ret. cbn [negb]. exact Hwalk.
Qed.

(** ** Release: nothing of a static message is on the heap *)

Definition only_reads (m : M unit) (w : world) : Prop := wp m w (fun _ w' => w' = w).

Definition release_safe (depth : nat) : Prop :=
  forall size id dest w, static_message depth size id = true -> 0 < dest -> room w dest size ->
    only_reads (pb_release depth (id, 0%nat) dest) w.

Lemma release_items_safe (release : Z -> M unit) size count p w :
  0 <= size ->
  (forall q, p <= q -> q + size <= p + size * Z.of_nat count -> only_reads (release q) w) ->
  only_reads (release_items_loop release size count p) w.
Proof.
  intros Hs. revert p. induction count as [|count IH]; intros p Hrel; cbn [release_items_loop].
  { by apply wp_ret. }
  apply wp_bind. eapply wp_mono; [apply Hrel; nia|]. intros [] w' ->. apply IH.
  intros q H1 H2. apply Hrel; nia.
Qed.

Lemma release_count_safe depth size f d s dest it w :
  fits depth size f d s -> room w dest size -> pData it = dest + d -> pSize it = dest + s ->
  wp (release_count f it) w (fun c w' => w' = w /\ 0 <= c /\ data_size f * c <= field_extent f).
Proof.
  intros Hfit Hr Ed Es. pose proof (fits_array _ _ _ _ _ Hfit). pose proof (fits_data _ _ _ _ _ Hfit).
  unfold release_count, field_extent.
  destruct (PB_HTYPE (type f) =? PB_HTYPE_REPEATED) eqn:Erep; [|apply wp_ret; split_and!; [done|lia|lia]].
  rewrite (fits_static _ _ _ _ _ Hfit), Ed, Es, size_pointer. cbn [andb Z.eqb PB_ATYPE_STATIC].
  apply wp_bind. apply wp_if; intros Esd.
  - apply wp_ret, wp_ret. split; [done|]. rewrite Z.ltb_irrefl. lia.
  - apply Z.eqb_eq in Erep. destruct (size_member _ _ _ _ _ _ _ 4 Hfit Hr) as (_ & _ & Hr4).
    { rewrite Erep. by split. }
    apply wp_load; [done|]. intros v Hv. apply wp_ret. split; [done|].
    destruct (Z.ltb_spec (array_size f) v); [lia|]. nia.
Qed.

Lemma release_single_field_safe depth size id dest k it w :
  release_safe depth -> message_at depth size id -> 0 < dest ->
  (k < length (message_fields id))%nat -> field_iter id dest k = Some it -> room w dest size ->
  only_reads (pb_release_single_field (S depth) it) w.
Proof.
  intros IH Hm Hdest Hk E Hr.
  destruct (message_field _ _ _ _ _ _ Hm Hdest Hk E) as (f & d & s & Ef & Ep & _ & _ & Ed & Es & Hfit).
  pose proof (fits_start _ _ _ _ _ Hfit) as Hd0. pose proof (fits_end _ _ _ _ _ Hfit) as Hend.
  pose proof (fits_data _ _ _ _ _ Hfit) as Hds.
  cbn [pb_release_single_field]. unfold iter_field. rewrite Ef. apply wp_bind, wp_ret. cbv beta zeta.
  apply wp_bind, (wp_mono _ _ (fun _ w' => w' = w)).
  { apply wp_if; intros Eone; [|by apply wp_ret]. apply Z.eqb_eq in Eone.
    destruct (size_member _ _ _ _ _ _ _ 4 Hfit Hr) as (_ & _ & Hr4).
    { rewrite Eone. by split. }
    apply wp_bind. rewrite Es. apply wp_load; [done|]. intros v _. by apply wp_ret. }
  intros [] w' ->; [by apply wp_ret|].
  rewrite (not_extension _ _ _ _ _ Hfit), (fits_static _ _ _ _ _ Hfit).
  change (PB_ATYPE_STATIC =? PB_ATYPE_CALLBACK) with false.
  change (PB_ATYPE_STATIC =? PB_ATYPE_POINTER) with false. rewrite andb_true_r. cbv iota.
  apply wp_bind, (wp_mono _ _ (fun _ w' => w' = w)); [|intros [] w' ->; by apply wp_ret].
  apply wp_if; intros Esub; [|by apply wp_ret].
  destruct (submessage_field _ _ _ _ _ Hfit Esub) as (sub & Ep' & Hsub).
  apply wp_bind, wp_ret, wp_bind.
  eapply wp_mono; [by eapply release_count_safe|]. intros count w' (-> & Hc0 & Hc). rewrite Ed.
  rewrite (proj2 (Z.eqb_neq _ _)) by (unfold NULL; lia).
  apply release_items_safe; [lia|]. intros q Hq1 Hq2.
  unfold submsg_of. rewrite Ep'. apply wp_bind, wp_ret.
  rewrite Z2Nat.id in Hq2 by lia.
  apply (IH (data_size f)); [done|lia|]. eapply room_sub; [done|lia|lia].
Qed.

Lemma pb_release_safe depth : release_safe depth.
Proof.
  induction depth as [|depth IH]; intros size id dest w Hm Hdest Hr; [done|].
  unfold only_reads, pb_release, pb_release_with. rewrite (proj2 (Z.eqb_neq _ _)) by (unfold NULL; lia).
  destruct (walk_fields id dest (pb_release_single_field (S depth)) (fun w' => w' = w) w)
    as (it & E & Hwalk); [by eapply message_descriptors|done| |].
  - intros k it w1 Hk Eit ->. by eapply release_single_field_safe.
  - rewrite E. apply wp_bind, wp_ret. cbn [negb]. exact Hwalk.
Qed.

End MessageSafety.
