(* ===== verification/PbDecodeSafety.v ===== *)
(** Memory safety of pb_decode.c on arbitrary input, for messages of static
    fields: every function of the decoder returns, writes to nothing but the
    struct it is given, and reads no byte outside the input. The theorems are
    proved for one level of messages, from the same for the level below. *)
From S2P Require Import Prelude Memory PbTypes PbWire PbLayout PbRelease PbDecode.
From S2P Require Import PbInput PbCodec PbDecodeMsg PbRequired PbSafety.

Section DecodeSafety.
Context {PD : PbDescriptors} {DC : DecCallbacks}.

(** ** Field values *)

Section Recursion.
Context (depth : nat) (rec : pb_istream_t -> field_ref -> Z -> ires).

(** The decoder of messages one level down. *)
Hypothesis Hrec : forall size id dest s bs w,
  static_message depth size id = true -> 0 < dest -> ready w s bs dest size ->
  wp (rec s (id, 0%nat) dest) w (decodes 0 s bs dest size w).

Lemma decode_with_safe size id dest s bs w :
  static_message depth size id = true -> 0 < dest -> ready w s bs dest size ->
  wp (pb_decode_with (S depth) rec s (id, 0%nat) dest) w (decodes 0 s bs dest size w).
Proof.
  intros Hm Hdest Hr. unfold pb_decode_with. apply wp_bind.
  eapply wp_mono; [by apply set_to_defaults_safe; [apply static_message_mono| |eapply ready_room]|]. intros [] w1 Hc1.
  pose proof (ready_confined _ _ _ _ _ _ Hr Hc1) as Hr1.
  apply wp_bind. eapply wp_mono; [by apply Hrec|]. intros [ok s'] w2 [Hc2 H]. cbn [fst snd] in H.
  apply wp_bind, (wp_mono _ _ (fun _ w' => w' = w2)).
  - apply wp_if; intros Hok; [|by apply wp_ret].
    apply (pb_release_safe (S depth) size id dest w2 (static_message_mono _ _ _ Hm) Hdest). eapply room_confined; [|done].
    by eapply ready_room.
  - intros [] w3 ->. apply wp_ret. split; [by eapply confined_trans|done].
Qed.

Lemma dec_submessage_safe size f d sz s bs a w :
  fits depth size f d sz -> (PB_LTYPE (type f) =? PB_LTYPE_SUBMESSAGE) = true -> 0 < a ->
  ready w s bs a (data_size f) ->
  wp (pb_dec_submessage (S depth) rec s f a) w (decodes 1 s bs a (data_size f) w).
Proof.
  intros Hfit Esub Ha Hr. destruct (submessage_field _ _ _ _ _ Hfit Esub) as (id & Ep & Hm).
  unfold pb_dec_submessage. apply wp_ok_bind. eapply wp_substream; [done|..].
  - intros s' Hs'. cbn [fst snd]. split; [apply confined_refl|done].
  - intros pre body rest e Ebs Hpre. cbn [fst snd]. rewrite Ep. apply wp_bind.
    pose proof (ready_substream _ _ _ _ _ _ _ _ e Hr Ebs) as Hsub.
    eapply (wp_mono _ _ (decodes 0 (substream_of (advanced s (length pre) e) body) body a (data_size f) w)).
    + apply wp_if; intros _; [by apply decode_with_safe|by apply Hrec].
    + intros [ok sub] w1 Hd. eapply (wp_close_substream s bs); try done;
        [by eapply ready_offers|apply confined_refl].
Qed.

(** Any decoder of the table. *)
Lemma call_decoder_safe size f d sz s bs a w :
  fits depth size f d sz -> 0 < a -> ready w s bs a (data_size f) ->
  wp (call_decoder (S depth) rec s f a) w (decodes 1 s bs a (data_size f) w).
Proof.
  intros Hfit Ha Hr. pose proof (fits_data _ _ _ _ _ Hfit) as Hds.
  pose proof (fits_static _ _ _ _ _ Hfit) as Hst. pose proof (fits_type _ _ _ _ _ Hfit) as Ht.
  unfold call_decoder. pose proof (PB_LTYPE_range (type f)) as Hlt.
  unfold type_fits in Ht. remember (PB_LTYPE (type f)) as lt eqn:Elt.
  assert (lt = 0 \/ lt = 1 \/ lt = 2 \/ lt = 3 \/ lt = 4 \/ lt = 5 \/ lt = 6 \/
          lt = 7 \/ lt = 8 \/ lt = 9 \/ lt = 10 \/ 10 < lt) as Hc by lia.
  destruct Hc as [E|[E|[E|[E|[E|[E|[E|[E|[E|[E|[E|E]]]]]]]]]]]; [subst lt; rewrite E in *; cbn in Ht..|].
  - apply dec_bool_safe; [done|blia].
  - by apply dec_varint_safe.
  - by apply dec_uvarint_safe.
  - by apply dec_svarint_safe.
  - apply dec_fixed32_safe; [done|blia].
  - apply dec_fixed64_safe; [done|blia].
  - apply dec_bytes_safe; [done|done|done|lia].
  - by apply dec_string_safe.
  - eapply dec_submessage_safe; try done. by rewrite E.
  - done.
  - apply dec_fixed_length_bytes_safe; [done|done|lia].
  - exfalso. unfold PB_LTYPE_BOOL, PB_LTYPE_FIXED32, PB_LTYPE_FIXED64, PB_LTYPE_SUBMESSAGE,
      PB_LTYPE_EXTENSION, PB_LTYPE_FIXED_LENGTH_BYTES in Ht.
    rewrite !(proj2 (Z.eqb_neq lt _)), (proj2 (Z.leb_gt lt 10)) in Ht by lia. done.
Qed.

Section Message.
Context (size : Z) (id : nat) (dest : Z).
Hypothesis Hmsg : message_at depth size id.
Hypothesis Hdest : 0 < dest.

Abbreviation fs := (message_fields id).
Abbreviation n := (length fs).

Lemma message_array : descriptors id fs.
Proof. by eapply message_descriptors. Qed.

Lemma located_field k it :
  located id fs dest k it -> (k < n)%nat ->
  exists f d s, deref_field (pos it) = Some f /\ pos it = (id, k) /\ tag f <> 0 /\
    fs !! k = Some f /\ pData it = dest + d /\ fits depth size f d s /\
    (pSize it = dest + s /\ field_iter id dest k = Some it \/
     pSize it = fixed_count_addr /\ PB_HTYPE (type f) = PB_HTYPE_REPEATED).
Proof.
  intros Hl Hk. destruct Hl as [it E|it g E Eg Hg];
    destruct (message_field _ _ _ _ _ _ Hmsg Hdest Hk E) as (f & d & s & Ef & Ep & Ht & Efs & Ed & Es & Hfit);
    exists f, d, s.
  - split_and!; auto.
  - rewrite Eg in Efs. injection Efs as <-. split_and!; auto.
Qed.

(** A message of static fields has no extension field. *)
Lemma no_extension_field k it w :
  located id fs dest k it -> (k < n)%nat ->
  exists k' it', find_extension_field it w = Done (false, it') w /\
    located id fs dest k' it' /\ (k' < n)%nat.
Proof.
  intros Hl Hk. destruct (located_find_extension id fs dest message_array k it w Hl Hk)
    as (found & k' & it' & -> & Hl' & Hk' & H).
  exists k', it'. split_and!; try done. destruct found; [|done]. exfalso.
  destruct (located_field k' it' Hl' Hk') as (f & d & s & _ & _ & _ & Efs & _ & Hfit & _).
  unfold stops_at in H. rewrite Efs in H. by rewrite (not_extension _ _ _ _ _ Hfit) in H.
Qed.

(** ** Static fields *)

(** The outcome of a function that returns [fixed_count_size] as well. *)
Definition counts (m : nat) (s : pb_istream_t) (bs : list Z) (w : world)
    (r : bool * (pb_istream_t * Z)) (w' : world) : Prop :=
  decodes m s bs dest size w (r.1, r.2.1) w' /\ 0 <= r.2.2 < 2 ^ 32.

(** The count can be read and written, and nothing but the message changes. *)
Lemma wp_load_size k it f count w (Q : Z -> world -> Prop) :
  located id fs dest k it -> (k < n)%nat -> fs !! k = Some f ->
  PB_HTYPE (type f) = PB_HTYPE_REPEATED -> room w dest size -> 0 <= count < 2 ^ 32 ->
  (forall v, 0 <= v < 2 ^ 32 -> Q v w) -> wp (load_size (pSize it) count) w Q.
Proof.
  intros Hl Hk Ef Hrep Hr Hc HQ.
  destruct (located_field k it Hl Hk) as (g & d & s & _ & _ & _ & Eg & Ed & Hfit & Hs).
  rewrite Ef in Eg. injection Eg as <-. unfold load_size. destruct Hs as [[Es _]|[-> _]].
  - destruct (size_member _ _ _ _ _ _ _ 4 Hfit Hr) as (H1 & H2 & Hr4); [by rewrite Hrep|].
    rewrite Es, (proj2 (Z.eqb_neq _ _)) by (unfold fixed_count_addr; lia).
    apply wp_load; [done|]. exact HQ.
  - rewrite Z.eqb_refl. by apply wp_ret, HQ.
Qed.

Lemma wp_store_size k it f count v w (Q : Z -> world -> Prop) :
  located id fs dest k it -> (k < n)%nat -> fs !! k = Some f ->
  PB_HTYPE (type f) = PB_HTYPE_REPEATED -> room w dest size ->
  0 <= count < 2 ^ 32 -> 0 <= v < 2 ^ 32 ->
  (forall c w', 0 <= c < 2 ^ 32 -> confined dest size w w' -> Q c w') ->
  wp (store_size (pSize it) count v) w Q.
Proof.
  intros Hl Hk Ef Hrep Hr Hc Hv HQ.
  destruct (located_field k it Hl Hk) as (g & d & s & _ & _ & _ & Eg & Ed & Hfit & Hs).
  rewrite Ef in Eg. injection Eg as <-. unfold store_size. destruct Hs as [[Es _]|[-> _]].
  - destruct (size_member _ _ _ _ _ _ _ 4 Hfit Hr) as (H1 & H2 & Hr4); [by rewrite Hrep|].
    rewrite Es, (proj2 (Z.eqb_neq _ _)) by (unfold fixed_count_addr; lia).
    apply wp_bind, wp_store; [done|]. intros w' Hw. apply wp_ret, HQ; [done|].
    by eapply confined_sub; [| |done].
  - rewrite Z.eqb_refl. apply wp_ret, HQ; [done|apply confined_refl].
Qed.

(** An item of a field that is an array. *)
Lemma item_region f d s i :
  fits depth size f d s -> PB_HTYPE (type f) = PB_HTYPE_REPEATED -> 0 <= i < array_size f ->
  u32 (data_size f * i) = data_size f * i /\ 0 < dest + d + data_size f * i /\ dest <= dest + d + data_size f * i /\
  dest + d + data_size f * i + data_size f <= dest + size.
Proof.
  intros Hfit Hrep Hi. pose proof (fits_data _ _ _ _ _ Hfit). pose proof (fits_start _ _ _ _ _ Hfit).
  pose proof (fits_product _ _ _ _ _ Hfit). pose proof (fits_end _ _ _ _ _ Hfit) as He.
  unfold field_extent in He. rewrite Hrep in He. cbn [Z.eqb PB_HTYPE_REPEATED Pos.eqb] in He.
  assert (0 <= data_size f * i) by nia.
  assert (data_size f * i + data_size f <= data_size f * array_size f) by nia.
  split_and!; [apply wrap_small; nia|lia|lia|lia].
Qed.

Lemma call_decoder_item f d s i st bs w :
  fits depth size f d s -> PB_HTYPE (type f) = PB_HTYPE_REPEATED -> 0 <= i < array_size f ->
  ready w st bs dest size ->
  wp (call_decoder (S depth) rec st f (dest + d + u32 (data_size f * i))) w
    (decodes 1 st bs dest size w).
Proof.
  intros Hfit Hrep Hi Hr. destruct (item_region _ _ _ _ Hfit Hrep Hi) as (-> & H0 & H1 & H2).
  eapply wp_sub; [exact H1|exact H2|]. eapply call_decoder_safe; [done|done|].
  by eapply ready_sub.
Qed.

Lemma call_decoder_single f d s st bs w :
  fits depth size f d s -> PB_HTYPE (type f) <> PB_HTYPE_REPEATED -> ready w st bs dest size ->
  wp (call_decoder (S depth) rec st f (dest + d)) w (decodes 1 st bs dest size w).
Proof.
  intros Hfit Hne Hr. pose proof (fits_start _ _ _ _ _ Hfit).
  destruct (data_region _ _ _ _ _ dest w Hfit (ready_room _ _ _ _ _ Hr) Hne) as (H1 & H2 & _).
  eapply wp_sub; [exact H1|exact H2|]. eapply call_decoder_safe; [done|lia|].
  by eapply ready_sub.
Qed.

Lemma with_count_safe m s bs w count (f : ires) w0 :
  0 <= count < 2 ^ 32 -> confined dest size w0 w -> wp f w (decodes m s bs dest size w) ->
  wp (with_count count f) w (counts m s bs w0).
Proof.
  intros Hc Hc0 H. apply wp_bind. eapply wp_mono; [exact H|]. intros [ok s'] w' Hd.
  apply wp_ret. split; [by eapply decodes_after|done].
Qed.

Lemma counts_ret s bs w0 w k e count :
  (k <= length bs)%nat -> 0 <= count < 2 ^ 32 -> confined dest size w0 w ->
  counts 0 s bs w0 (true, (advanced s k e, count)) w.
Proof. intros Hk Hc Hc0. split; [|done]. split; [done|]. exists k, e. split; [done|lia]. Qed.

Lemma counts_false m s bs w0 w s' count :
  tame s' -> 0 <= count < 2 ^ 32 -> confined dest size w0 w ->
  counts m s bs w0 (false, (s', count)) w.
Proof. by intros Ht Hc Hc0. Qed.

Lemma advanced_self s : advanced s 0 (i_errmsg s) = s.
Proof. rewrite advanced_0. by destruct s. Qed.

Lemma static_packed_loop_safe k it f d s fuel sub body count w :
  located id fs dest k it -> (k < n)%nat -> fs !! k = Some f -> fits depth size f d s ->
  pData it = dest + d -> PB_HTYPE (type f) = PB_HTYPE_REPEATED ->
  ready w sub body dest size -> (length body < fuel)%nat -> 0 <= count < 2 ^ 32 ->
  wp (static_packed_loop (S depth) rec fuel f it sub count) w (counts 0 sub body w).
Proof.
  intros Hl Hk Ef Hfit Ed Hrep. revert sub body count w.
  induction fuel as [|fuel IH]; intros sub body count w Hr Hlen Hc; [lia|]. cbn [static_packed_loop].
  pose proof (ready_offers _ _ _ _ _ Hr) as Ho.
  assert (Hstop : counts 0 sub body w (true, (sub, count)) w).
  { rewrite <- (advanced_self sub) at 2. apply counts_ret; [lia|done|apply confined_refl]. }
  rewrite (offers_left _ _ _ Ho). apply wp_if; intros Eleft; [by apply wp_ret|].
  apply wp_bind. eapply wp_load_size; try done; [by eapply ready_room|]. intros v Hv.
  apply wp_if; intros Ev; [by apply wp_ret|]. cbv zeta.
  apply negb_false_iff, Z.ltb_lt in Ev. rewrite Ed.
  apply wp_bind. eapply wp_mono; [apply (call_decoder_item _ _ s); [done|done|lia|exact Hr]|].
  intros [ok sub'] w1 [Hc1 Hd]. cbn [fst snd] in Hd. destruct ok; cbn [negb].
  2: { apply wp_ret. by apply counts_false. }
  destruct Hd as (j & e & -> & Hj).
  pose proof (ready_advanced _ _ _ _ _ j e (ready_confined _ _ _ _ _ _ Hr Hc1) (proj2 Hj)) as Hr1.
  apply wp_bind. eapply wp_load_size; try done; [by eapply ready_room|]. intros v1 Hv1.
  apply wp_bind. eapply wp_store_size; try done; [by eapply ready_room|apply wrap_bounds; lia|].
  intros c w2 Hcb Hc2. eapply wp_mono; [apply (IH _ (drop j body)); [|rewrite length_drop; lia|done]|].
  - by eapply ready_confined.
  - intros [ok' [s' c']] w3 [Hd Hc']. split; [|done]. cbn [fst snd] in *.
    eapply decodes_after; [by eapply confined_trans|].
    eapply decodes_advanced; [exact (proj2 Hj)| |exact Hd]. lia.
Qed.

(** [decode_static_field] for repeated fields. *)
Lemma decode_static_repeated_safe k it f d s st bs wt count w :
  located id fs dest k it -> (k < n)%nat -> fs !! k = Some f -> fits depth size f d s ->
  deref_field (pos it) = Some f ->
  pData it = dest + d -> PB_HTYPE (type f) = PB_HTYPE_REPEATED ->
  ready w st bs dest size -> 0 <= count < 2 ^ 32 ->
  wp (decode_static_field (S depth) rec st wt it count) w (counts 1 st bs w).
Proof.
  intros Hl Hk Ef Hfit Edr Ed Hrep Hr Hc. unfold decode_static_field, iter_field. rewrite Edr.
  apply wp_bind, wp_ret. cbv zeta. rewrite Hrep.
  change (PB_HTYPE_REPEATED =? PB_HTYPE_REQUIRED) with false.
  change (PB_HTYPE_REPEATED =? PB_HTYPE_OPTIONAL) with false. rewrite Z.eqb_refl. cbv iota.
  apply wp_if; intros _.
  - apply wp_bind. eapply wp_substream; [done|..].
    + intros s' Hs'. apply wp_ret. apply counts_false; [done|done|apply confined_refl].
    + intros pre body rest e Ebs Hpre.
      pose proof (ready_substream _ _ _ _ _ _ _ _ e Hr Ebs) as Hsub. apply wp_bind.
      eapply wp_mono; [eapply static_packed_loop_safe; try done|].
      { rewrite (offers_left _ _ _ (ready_offers _ _ _ _ _ Hsub)). lia. }
      intros [status [sub c]] w1 [Hd Hcb]. cbn [fst snd] in *.
      apply wp_if; intros _.
      * apply wp_ret. apply counts_false; [|done|apply Hd]. apply tame_error.
        eapply parent_tame; [by eapply ready_offers|done].
      * apply wp_bind. eapply wp_mono; [by eapply (wp_close st bs); [eapply ready_offers|..];
          try done; apply confined_refl|].
        intros [closed s'] w2 [Hcl Hd2]. cbn [fst snd] in *. subst closed. by apply wp_ret.
  - apply wp_bind. eapply wp_load_size; try done; [by eapply ready_room|]. intros v Hv.
    apply wp_bind. eapply wp_store_size; try done; [by eapply ready_room|apply wrap_bounds; lia|].
    intros c w1 Hcb Hc1. pose proof (ready_confined _ _ _ _ _ _ Hr Hc1) as Hr1.
    apply wp_if; intros Ev.
    + apply wp_ret. apply counts_false; [|done|done]. apply tame_error. by eapply ready_tame.
    + apply Z.leb_gt in Ev. rewrite Ed. apply with_count_safe; [done|done|].
      apply (call_decoder_item _ _ s); [done|done|lia|done].
Qed.

(** The message of a oneof that becomes the current one is initialised. *)
Lemma init_oneof_safe f d s st bs w (b : bool) :
  fits depth size f d s -> PB_HTYPE (type f) <> PB_HTYPE_REPEATED -> ready w st bs dest size ->
  keeps dest size
    (if (PB_LTYPE (type f) =? PB_LTYPE_SUBMESSAGE) && b then
       memset (dest + d) 0 (data_size f) ;;
       fields ← submsg_of f;
       pb_message_set_to_defaults (S depth) fields (dest + d)
     else mret tt) w.
Proof.
  intros Hfit Hne Hr. pose proof (fits_data _ _ _ _ _ Hfit) as Hds.
  pose proof (fits_start _ _ _ _ _ Hfit) as Hst.
  destruct (data_region _ _ _ _ _ dest w Hfit (ready_room _ _ _ _ _ Hr) Hne) as (H1 & H2 & Hr').
  apply (keeps_sub _ _ (dest + d) (data_size f)); [done|done|].
  apply wp_if; [|intros _; apply keeps_ret]. intros [Esub _]%andb_true_iff.
  destruct (submessage_field _ _ _ _ _ Hfit Esub) as (sub & Ep & Hm).
  apply wp_bind, wp_memset; [lia|done|]. intros w1 Hc1. unfold submsg_of. rewrite Ep.
  apply wp_bind, wp_ret. eapply wp_mono.
  - apply set_to_defaults_safe; [by apply static_message_mono|lia|by eapply room_confined].
  - intros [] w2 Hc2. by eapply confined_trans.
Qed.

Lemma decode_static_field_safe k it st bs wt count w :
  located id fs dest k it -> (k < n)%nat -> ready w st bs dest size -> 0 <= count < 2 ^ 32 ->
  wp (decode_static_field (S depth) rec st wt it count) w (counts 1 st bs w).
Proof.
  intros Hl Hk Hr Hc.
  destruct (located_field k it Hl Hk) as (f & d & s & Edr & _ & _ & Ef & Ed & Hfit & Hs).
  destruct (decide (PB_HTYPE (type f) = PB_HTYPE_REPEATED)) as [Hrep|Hne].
  { by eapply decode_static_repeated_safe. }
  destruct Hs as [[Es _]|[_ ?]]; [|done]. unfold decode_static_field, iter_field. rewrite Edr.
  apply wp_bind, wp_ret. cbv zeta. rewrite Ed, Es, (proj2 (Z.eqb_neq _ _) Hne). cbv iota.
  apply wp_if; intros Ereq.
  { apply with_count_safe; [done|apply confined_refl|]. by eapply call_decoder_single. }
  apply wp_if; intros Eopt; [rewrite size_pointer; apply wp_bind|].
  - apply (wp_mono _ _ (fun _ w' => confined dest size w w')).
    + apply wp_if; [|intros _; apply wp_ret, confined_refl]. intros Esd%negb_true_iff.
      destruct (size_member depth size f d s dest w 1 Hfit (ready_room _ _ _ _ _ Hr)) as (H1 & H2 & Hr1).
      { by rewrite Eopt. }
      apply wp_store; [done|]. intros w1 Hc1. by eapply confined_sub; [| |done].
    + intros [] w1 Hc1. pose proof (ready_confined _ _ _ _ _ _ Hr Hc1) as Hr1.
      apply with_count_safe; [done|done|]. by eapply call_decoder_single.
  - destruct (size_member depth size f d s dest w 4 Hfit (ready_room _ _ _ _ _ Hr)) as (H1 & H2 & Hr4).
    { rewrite Eopt. split; [by apply Z.eqb_neq|done]. }
    apply wp_bind, wp_load; [done|]. intros which _. apply wp_bind.
    eapply wp_mono; [by eapply init_oneof_safe|]. intros [] w1 Hc1.
    apply wp_bind, wp_store; [by eapply room_confined|]. intros w2 Hc2.
    assert (Hc02 : confined dest size w w2).
    { eapply confined_trans; [done|]. by eapply confined_sub; [| |done]. }
    apply with_count_safe; [done|done|]. eapply call_decoder_single; [done|done|].
    by eapply ready_confined.
Qed.

(** [decode_field]: the old member of a oneof is released, then the field is
    decoded; the iterator ends at some field. *)
Lemma pb_release_union_field_safe k it f st w :
  located id fs dest k it -> (k < n)%nat -> fs !! k = Some f ->
  PB_HTYPE (type f) = PB_HTYPE_ONEOF -> room w dest size -> tame st ->
  wp (pb_release_union_field (S depth) st it) w
    (fun r w' => w' = w /\ (r.1 = true -> r.2.1 = st) /\ tame r.2.1 /\
       exists k', (k' < n)%nat /\ located id fs dest k' r.2.2).
Proof.
  intros Hl Hk Ef Hone Hr Hst.
  destruct (located_field k it Hl Hk) as (g & d & s & Edr & _ & _ & Eg & Ed & Hfit & Hs).
  rewrite Ef in Eg. injection Eg as <-.
  destruct Hs as [[Es Hit]|[_ Hrep]]; [|by rewrite Hone in Hrep].
  pose proof message_array as Harr.
  unfold pb_release_union_field, iter_field. rewrite Edr. apply wp_bind, wp_ret.
  destruct (size_member depth size f d s dest w 4 Hfit Hr) as (_ & _ & Hr4); [by rewrite Hone|].
  rewrite Es. apply wp_bind, wp_load; [done|]. intros old _. cbv zeta.
  apply wp_if; intros _; [apply wp_ret; split_and!; [done|done|done|eauto]|].
  apply wp_if; intros _; [apply wp_ret; split_and!; [done|done|done|eauto]|].
  destruct (field_iter_find_run id fs dest Harr old k it w Hk Hit) as (found & k1 & it1 & E1 & Hit1 & Hk1 & _).
  apply wp_bind. unfold wp at 1. rewrite E1. apply wp_if; intros _.
  { apply wp_ret. split_and!; [done..|]. exists k1. split; [done|by apply located_plain]. }
  apply wp_bind. eapply wp_mono.
  { apply (release_single_field_safe depth size id dest k1 it1); try done. apply pb_release_safe. }
  intros [] w' ->.
  destruct (field_iter_find_run id fs dest Harr (tag f) k1 it1 w Hk1 Hit1) as (found2 & k2 & it2 & E2 & Hit2 & Hk2 & _).
  apply wp_bind. unfold wp at 1. rewrite E2.
  assert (Hl2 : located id fs dest k2 it2) by (by apply located_plain).
  apply wp_if; intros _; [apply wp_ret; split_and!; [done|done|done|eauto]|].
  destruct (located_field k2 it2 Hl2 Hk2) as (h & ? & ? & Edr2 & _ & _ & _ & _ & Hfit2 & _).
  cbv beta iota. rewrite Edr2. apply wp_bind, wp_ret. rewrite (fits_static _ _ _ _ _ Hfit2).
  change (PB_ATYPE_STATIC =? PB_ATYPE_POINTER) with false. apply wp_bind, wp_ret, wp_ret. split_and!; [done|done|done|eauto].
Qed.

Lemma decode_field_safe k it st bs wt count w :
  located id fs dest k it -> (k < n)%nat -> ready w st bs dest size -> 0 <= count < 2 ^ 32 ->
  wp (decode_field (S depth) rec st wt it count) w
    (fun r w' => counts 1 st bs w (r.1, r.2.1) w' /\
       exists k', (k' < n)%nat /\ located id fs dest k' r.2.2).
Proof.
  intros Hl Hk Hr Hc.
  destruct (located_field k it Hl Hk) as (f & d & s & Edr & _ & _ & Ef & _).
  unfold decode_field, iter_field. rewrite Edr. apply wp_bind, wp_ret, wp_bind.
  pose proof (ready_tame _ _ _ _ _ Hr) as Ht.
  eapply (wp_mono _ _ (fun r w' => w' = w /\ (r.1 = true -> r.2.1 = st) /\ tame r.2.1 /\
    exists k', (k' < n)%nat /\ located id fs dest k' r.2.2)).
  { apply wp_if; intros Eone; [|apply wp_ret; split_and!; [done|done|done|eauto]]. apply Z.eqb_eq in Eone.
    eapply pb_release_union_field_safe; try done. by eapply ready_room. }
  intros [ok [st' it']] w' (-> & Est & Ht' & k' & Hk' & Hl'). cbn [fst snd] in *.
  apply wp_if; intros Eok.
  { apply wp_ret. split; [|eauto]. apply counts_false; [done|done|apply confined_refl]. }
  apply negb_false_iff in Eok. subst ok. rewrite (Est eq_refl).
  destruct (located_field k' it' Hl' Hk') as (g & ? & ? & Edr' & _ & _ & _ & _ & Hfit & _).
  rewrite Edr'. apply wp_bind, wp_ret. rewrite (fits_static _ _ _ _ _ Hfit). cbv zeta.
  change (PB_ATYPE_STATIC =? PB_ATYPE_STATIC) with true. cbv iota. apply wp_bind.
  eapply wp_mono; [by eapply decode_static_field_safe|].
  intros [ok [s' c']] w1 Hd. apply wp_ret. split; [done|eauto].
Qed.

(** ** The loop over the fields of the input *)

Definition locals_ok (l : noinit_locals) : Prop :=
  (exists k, (k < n)%nat /\ located id fs dest k (nl_iter l)) /\
  0 <= fixed_count_size l < 2 ^ 32 /\
  forall r, fixed_count_field l = Some r -> is_Some (deref_field r).

Lemma locals_ok_intro k it seen range field c :
  located id fs dest k it -> (k < n)%nat -> 0 <= c < 2 ^ 32 ->
  (forall r, field = Some r -> is_Some (deref_field r)) ->
  locals_ok (NoinitLocals it seen range field c).
Proof. intros Hit Hk Hc Hf. split; [by exists k|by split]. Qed.

Lemma fixed_count_wrong_safe l w (Q : bool -> world -> Prop) :
  locals_ok l -> (forall b, Q b w) -> wp (fixed_count_wrong l) w Q.
Proof.
  intros (_ & _ & H) HQ. unfold fixed_count_wrong. destruct (fixed_count_field l) as [r|].
  - destruct (H r eq_refl) as [f E]. rewrite E. by apply wp_bind, wp_ret, wp_ret.
  - by apply wp_ret.
Qed.

(** The outcome of one round or of the whole loop. *)
Definition round (m : nat) (s : pb_istream_t) (bs : list Z) (w : world)
    (r : bool * (pb_istream_t * noinit_locals)) (w' : world) : Prop :=
  decodes m s bs dest size w (r.1, r.2.1) w' /\ (r.1 = true -> locals_ok r.2.2).

Lemma skip_safe s bs wt l w :
  ready w s bs dest size -> locals_ok l ->
  wp ('(ok, s) ← pb_skip_field s wt; mret (M := M) (ok, (s, l))) w (round 0 s bs w).
Proof.
  intros Hr Hl. pose proof (ready_offers _ _ _ _ _ Hr) as Ho.
  destruct (safe_skip_field wt s w bs Ho) as (ok & j & e & E & Hj & _).
  apply wp_bind. unfold wp at 1. rewrite E. apply wp_ret. split; [|done].
  split; [apply confined_refl|]. cbn [fst snd]. destruct ok.
  - exists j, e. split; [done|lia].
  - by eapply advanced_tame.
Qed.

Lemma decode_unknown_safe s bs t wt l w :
  0 <= t < 2 ^ 29 -> ready w s bs dest size -> locals_ok l ->
  wp (decode_unknown (S depth) rec s t wt l) w (round 0 s bs w).
Proof.
  intros Ht Hr Hl. unfold decode_unknown. apply wp_if; intros _; [|by apply skip_safe].
  destruct Hl as ((k & Hk & Hit) & Hc & Hf).
  destruct (no_extension_field k (nl_iter l) w Hit Hk) as (k' & it' & E & Hit' & Hk').
  apply wp_bind. unfold wp at 1. rewrite E.
  destruct (located_field k' it' Hit' Hk') as (f & ? & ? & Edr & _).
  unfold iter_field. rewrite Edr. apply wp_bind, wp_ret. cbv zeta. cbn [negb].
  change (u32 (-1)) with (2 ^ 32 - 1). rewrite (proj2 (Z.leb_gt _ _)) by lia.
  apply skip_safe; [done|]. by apply (locals_ok_intro k').
Qed.

(** The switch to the count of another fixed-count field. *)
Lemma enter_fixed_count_safe s bs l f w :
  ready w s bs dest size -> locals_ok l ->
  deref_field (pos (nl_iter l)) = Some f ->
  wp (if (PB_HTYPE (type f) =? PB_HTYPE_REPEATED) && (pSize (nl_iter l) =? pData (nl_iter l)) then
        let iter := iter_with (nl_iter l) (pData (nl_iter l)) fixed_count_addr in
        if decide (fixed_count_field l = Some (pos iter)) then
          mret (true, (s, nl_with_iter l iter))
        else
          wrong ← fixed_count_wrong l;
          if wrong : bool then mret (false, (is_set_error s "wrong size for fixed count field", l))
          else mret (true, (s, NoinitLocals iter (fields_seen l) (extension_range_start l)
                                 (Some (pos iter)) 0))
      else mret (true, (s, l))) w
    (fun r w' => w' = w /\ tame r.2.1 /\ (r.1 = true -> r.2.1 = s /\ locals_ok r.2.2)).
Proof.
  intros Hr Hl Edr. pose proof (ready_tame _ _ _ _ _ Hr) as Ht.
  apply wp_if; [|intros _; by apply wp_ret]. intros [Hrep%Z.eqb_eq Eqs%Z.eqb_eq]%andb_true_iff.
  cbv zeta. pose proof Hl as ((k & Hk & Hit) & Hc & Hf).
  destruct (located_field k _ Hit Hk) as (g & d & s' & Edr' & _ & _ & Ef & Ed & Hfit & Hs).
  rewrite Edr in Edr'. injection Edr' as <-.
  assert (Hcan : field_iter id dest k = Some (nl_iter l)).
  { destruct Hs as [[_ ?]|[Es _]]; [done|]. pose proof (fits_start _ _ _ _ _ Hfit).
    rewrite Es, Ed in Eqs. unfold fixed_count_addr in Eqs. lia. }
  assert (Hit' : located id fs dest k (counted (nl_iter l))) by (by eapply located_counted).
  change (iter_with (nl_iter l) (pData (nl_iter l)) fixed_count_addr) with (counted (nl_iter l)).
  destruct (decide _) as [Heq|_].
  - apply wp_ret. split_and!; [done|done|]. intros _. split; [done|]. by apply (locals_ok_intro k).
  - apply wp_bind, fixed_count_wrong_safe; [done|]. intros [].
    + apply wp_ret. by split_and!.
    + apply wp_ret. split_and!; [done|done|]. intros _. split; [done|].
      apply (locals_ok_intro k); [done|done|lia|]. intros r [= <-]. cbn. rewrite Edr. by eexists.
Qed.

Lemma decode_known_safe s bs wt l w :
  ready w s bs dest size -> locals_ok l ->
  wp (decode_known (S depth) rec s wt l) w (round 1 s bs w).
Proof.
  intros Hr Hl. pose proof Hl as ((k & Hk & Hit) & Hc & Hf).
  destruct (located_field k _ Hit Hk) as (f & ? & ? & Edr & _).
  unfold decode_known, iter_field. rewrite Edr. apply wp_bind, wp_ret, wp_bind.
  eapply wp_mono; [by eapply enter_fixed_count_safe|].
  intros [ok [s' l']] w' (-> & Ht & H). cbn [fst snd] in *. apply wp_if; intros Eok.
  { apply wp_ret. split; [split; [apply confined_refl|done]|done]. }
  apply negb_false_iff in Eok. subst ok. destruct (H eq_refl) as [-> ((k1 & Hk1 & Hit1) & Hc1 & Hf1)].
  cbv zeta. apply wp_bind.
  eapply wp_mono; [by apply (decode_field_safe k1)|].
  intros [ok [[s2 c2] it2]] w2 [[Hd Hc2] Hit2]. cbn [fst snd] in *. apply wp_ret.
  split; [done|]. intros _. destruct Hit2 as (k2 & Hk2 & Hit2). by apply (locals_ok_intro k2).
Qed.

Lemma decode_fields_loop_safe fuel s bs l w :
  ready w s bs dest size -> locals_ok l -> (length bs < fuel)%nat ->
  wp (decode_fields_loop (S depth) rec fuel s l) w (round 0 s bs w).
Proof.
  revert s bs l w. induction fuel as [|fuel IH]; intros s bs l w Hr Hl Hf; [lia|].
  cbn [decode_fields_loop]. pose proof (ready_offers _ _ _ _ _ Hr) as Ho.
  assert (Hhere : forall j e, (j <= length bs)%nat -> round 0 s bs w (true, (advanced s j e, l)) w).
  { intros j e Hj. split; [|done]. split; [apply confined_refl|]. exists j, e. split; [done|lia]. }
  apply wp_if; intros Eleft.
  { apply wp_ret. rewrite <- (advanced_self s) at 2. apply Hhere. lia. }
  apply Z.eqb_neq in Eleft. rewrite (offers_left _ _ _ Ho) in Eleft.
  destruct (pb_decode_tag_safe s w bs Ho) as (ok & out & j & e & E & Hj & Heof & Hok).
  apply wp_bind. unfold wp at 1. rewrite E. apply wp_if; intros Eok.
  { apply wp_ret. destruct (to_eof out); [apply Hhere; lia|].
    split; [|done]. split; [apply confined_refl|]. eapply advanced_tame; [done|lia]. }
  apply negb_false_iff in Eok. subst ok. destruct Hok as (-> & _ & Htag).
  pose proof (ready_advanced _ _ _ _ _ j (i_errmsg s) Hr ltac:(lia)) as Hr1.
  destruct Hl as ((k & Hk & Hit) & Hc & Hfc).
  destruct (located_find id fs dest message_array k (nl_iter l) (to_tag out) w Hit Hk) as (found & k1 & it1 & Ef & Hit1 & Hk1 & _).
  apply wp_bind. unfold wp at 1. rewrite Ef. cbv zeta. apply wp_bind.
  assert (Hl1 : locals_ok (nl_with_iter l it1)) by (by apply (locals_ok_intro k1)).
  eapply (wp_mono _ _ (round 0 (advanced s j (i_errmsg s)) (drop j bs) w)).
  { apply wp_if; intros _; [by apply decode_unknown_safe|].
    eapply wp_mono; [by apply decode_known_safe|]. intros r w' [[Hc1 Hd] Hlr]. split; [|done].
    split; [done|]. cbn [fst snd] in *. destruct r.1; [|done].
    destruct Hd as (j' & e' & ? & ?). exists j', e'. split; [done|lia]. }
  intros [ok [s' l']] w1 [Hd Hlr]. cbn [fst snd] in *. apply wp_if; intros Eok.
  { apply negb_true_iff in Eok. subst ok. apply wp_ret. split; [|done]. by destruct Hd. }
  apply negb_false_iff in Eok. subst ok. destruct Hd as [Hc1 Hd].
  cbn [fst snd] in Hd. destruct Hd as (j' & e' & -> & Hj').
  pose proof (ready_advanced _ _ _ _ _ j' e' (ready_confined _ _ _ _ _ _ Hr1 Hc1) (proj2 Hj')) as Hr2.
  rewrite length_drop in Hj'.
  eapply wp_mono; [apply (IH _ _ _ _ Hr2 (Hlr eq_refl)); rewrite !length_drop; lia|].
  intros [ok [s2 l2]] w2 [Hd Hl2]. split; [|done]. cbn [fst snd] in *.
  eapply decodes_after; [exact Hc1|]. rewrite advanced_advanced, drop_drop in Hd.
  eapply (decodes_advanced 0 0); [| |exact Hd]; lia.
Qed.

(** ** The whole message *)

Lemma check_required_fields_safe s l w :
  locals_ok l ->
  check_required_fields s l w = Done (true, s) w \/
  check_required_fields s l w = Done (false, is_set_error s "missing required field") w.
Proof.
  intros ((k & Hk & Hit) & _). pose proof message_array as Harr.
  destruct (located_field k _ Hit Hk) as (_ & _ & _ & _ & Ep & _).
  destruct (required_fields_loop_run id fs dest Harr (array_fuel (pos (nl_iter l))) k (nl_iter l) Hit Hk) as
    (itl & fl & it' & E & _ & _ & Hit').
  { unfold array_fuel. rewrite Ep. cbn [fst]. rewrite (length_descriptors id fs Harr). lia. }
  unfold check_required_fields. rewrite E. cbn [of_option2]. rewrite bind_ret.
  pose proof (descriptors_nonempty id fs Harr) as Hn.
  destruct (located_field 0 it' (located_plain _ _ _ _ _ Hit') Hn) as (f0 & _ & _ & Edr & _).
  unfold iter_field. rewrite Edr. cbn [of_option]. rewrite bind_ret. cbv zeta.
  destruct (_ && negb (required_fields_present _ _)); [by right|by left].
Qed.

Lemma decode_noinit_body_safe s bs w :
  ready w s bs dest size ->
  wp (decode_noinit_body (S depth) rec s (id, 0%nat) dest) w (decodes 0 s bs dest size w).
Proof.
  intros Hr. pose proof message_array as Harr. unfold decode_noinit_body.
  destruct (begin_run id fs dest Harr) as (it & E & _). rewrite E. apply wp_bind, wp_ret, wp_bind.
  assert (Hl : locals_ok (NoinitLocals it [0; 0] 0 None 0)).
  { apply (locals_ok_intro 0).
    - apply located_plain. cbn [field_iter]. by rewrite E.
    - by eapply descriptors_nonempty.
    - lia.
    - done. }
  eapply wp_mono; [apply decode_fields_loop_safe; [exact Hr|exact Hl|]|].
  { rewrite (offers_left _ _ _ (ready_offers _ _ _ _ _ Hr)). lia. }
  intros [ok [s' l']] w1 [Hd Hl']. cbn [fst snd] in *. apply wp_if; intros Eok.
  { apply negb_true_iff in Eok. subst ok. by apply wp_ret. }
  apply negb_false_iff in Eok. subst ok. destruct Hd as [Hc Hd]. cbn [fst snd] in Hd.
  assert (Ht : tame s').
  { destruct Hd as (j & e & -> & Hj). eapply advanced_tame; [by eapply ready_offers|lia]. }
  apply wp_bind, fixed_count_wrong_safe; [by apply Hl'|]. intros b. apply wp_if; intros _.
  { apply wp_ret. by split. }
  unfold wp. destruct (check_required_fields_safe s' l' w1 (Hl' eq_refl)) as [E2|E2];
    rewrite E2; by split.
Qed.

End Message.
End Recursion.

(** The safety of every level from the one below. *)
Lemma pb_decode_noinit_safe depth size id dest s bs w :
  static_message depth size id = true -> 0 < dest -> ready w s bs dest size ->
  wp (pb_decode_noinit (S depth) s (id, 0%nat) dest) w (decodes 0 s bs dest size w).
Proof.
  revert size id dest s bs w. induction depth as [|depth IH]; intros size id dest s bs w Hm Hd Hr; [done|].
  apply (decode_noinit_body_safe depth); [|done..]. exact IH.
Qed.

Lemma pb_decode_run depth size id dest s bs w :
  static_message depth size id = true -> 0 < dest -> ready w s bs dest size ->
  wp (pb_decode (S depth) s (id, 0%nat) dest) w (decodes 0 s bs dest size w).
Proof.
  intros Hm Hd Hr. apply (decode_with_safe depth); [|done..]. apply pb_decode_noinit_safe.
Qed.

End DecodeSafety.
