(* ===== verification/PbTheorems.v ===== *)
(** The properties of nanopb's message decoder: the search of a field, the
    required fields, and the safety of initialisation, decoding and release of
    static messages on arbitrary input. *)
From S2P Require Import Prelude Memory PbTypes PbLayout PbRelease PbDecode PbInput.
From S2P Require Import PbDecodeMsg PbRequired PbSafety PbDecodeSafety.

Section Theorems.
Context {PD : PbDescriptors} {DC : DecCallbacks}.

(** From the iterator at any field [k0] of a message, [pb_field_iter_find]
    returns (its search ends within one round) and either stops at a field
    that has the tag and is not an extension field, with the iterator -- data
    and size pointers included -- that [k] steps from the first field give, or
    reports that no field of the message has the tag, back at the field it
    started from. *)
Theorem iter_find_exact id fs dest t k0 it w :
  descriptors id fs -> (k0 < length fs)%nat -> field_iter id dest k0 = Some it ->
  exists found k it', pb_field_iter_find it t w = Done (found, it') w /\
    field_iter id dest k = Some it' /\ (k < length fs)%nat /\
    if found : bool
    then exists f, fs !! k = Some f /\ tag f = t /\ PB_LTYPE (type f) <> PB_LTYPE_EXTENSION
    else k = k0 /\ forall j f, fs !! j = Some f -> tag f = t -> PB_LTYPE (type f) = PB_LTYPE_EXTENSION.
Proof.
  intros Harr Hk E. destruct (field_iter_find_run id fs dest Harr t k0 it w Hk E)
    as (found & k & it' & Ef & Ei & Hk' & H).
  exists found, k, it'. split_and!; try done. unfold field_matches, stops_at, has_tag in H.
  destruct found.
  - destruct (fs !! k) as [f|]; [|done]. apply andb_true_iff in H as [?%Z.eqb_eq ?%negb_true_iff%Z.eqb_neq].
    by exists f.
  - destruct H as [-> H]. split; [done|]. intros j f Ej <-. specialize (H j). rewrite Ej, Z.eqb_refl in H.
    by apply negb_false_iff, Z.eqb_eq in H.
Qed.

(** Whatever the fields and callbacks of a message are, when the loop over
    the input has ended well and the fixed-count arrays are full, the result of
    [pb_decode_noinit] is decided by the tags the loop has read: it is true,
    with the stream unchanged, exactly when every one of the first
    PB_MAX_REQUIRED_FIELDS required fields was among them, and otherwise false
    with the error "missing required field". *)
Theorem required_fields_verdict depth id fs dest s w it s1 l1 w1 :
  descriptors id fs -> Z.of_nat (length fs) < 2 ^ 32 -> well_tagged fs ->
  pb_field_iter_begin (id, 0%nat) dest = Some (true, it) ->
  decode_fields_loop depth (pb_decode_noinit depth) (S (Z.to_nat (i_bytes_left s))) s
    (NoinitLocals it [0; 0] 0 None 0) w = Done (true, (s1, l1)) w1 ->
  fixed_count_wrong l1 w1 = Done false w1 ->
  exists tags,
    rounds depth (pb_decode_noinit depth) s (NoinitLocals it [0; 0] 0 None 0) w tags s1 l1 w1 /\
    pb_decode_noinit (S depth) s (id, 0%nat) dest w =
      if all_present fs tags then Done (true, s1) w1
      else Done (false, is_set_error s1 "missing required field") w1.
Proof.
  intros Harr Hn Ht Eb El Ew. destruct (loop_rounds _ _ _ _ _ _ _ _ _ El) as [tags Hr].
  exists tags. split; [done|].
  assert (Hp : placed id fs dest it).
  { exists 0%nat. split; [by eapply descriptors_nonempty|]. apply located_plain. cbn [field_iter]. by rewrite Eb. }
  destruct (rounds_recorded depth _ id fs dest Harr Hn Ht _ _ _ _ _ _ _ [] Hr Hp (recorded_nil fs))
    as [Hp1 Hrec].
  cbn [pb_decode_noinit]. unfold decode_noinit_body. rewrite Eb. cbn [of_option]. rewrite bind_ret.
  rewrite (bind_done _ _ _ _ _ El). cbn [negb]. rewrite (bind_done _ _ _ _ _ Ew).
  exact (check_required_fields_run id fs dest Harr Hn s1 l1 tags w1 Hp1 Hrec).
Qed.

(** C27: A message is never accepted without its required fields: when
    [pb_decode_noinit] returns true, the loop over the input has made a run
    that read the tag of every one of the first PB_MAX_REQUIRED_FIELDS required
    fields. *)
Theorem required_fields_enforced depth id fs dest s w s' w' :
  descriptors id fs -> Z.of_nat (length fs) < 2 ^ 32 -> well_tagged fs ->
  pb_decode_noinit (S depth) s (id, 0%nat) dest w = Done (true, s') w' ->
  exists it tags l', pb_field_iter_begin (id, 0%nat) dest = Some (true, it) /\
    rounds depth (pb_decode_noinit depth) s (NoinitLocals it [0; 0] 0 None 0) w tags s' l' w' /\
    forall i f, (i < 64)%nat -> List.filter is_required fs !! i = Some f -> tag f ∈ tags.
Proof.
  intros Harr Hn Ht E. destruct (begin_run id fs dest Harr) as (it & Eb & _).
  cbn [pb_decode_noinit] in E. unfold decode_noinit_body in E. rewrite Eb in E.
  cbn [of_option] in E. rewrite bind_ret in E.
  apply bind_Done_inv in E as ([ok [s1 l1]] & w1 & El & E). destruct ok; cbn [negb] in E; [|done].
  destruct (loop_rounds _ _ _ _ _ _ _ _ _ El) as [tags Hr].
  assert (Hp : placed id fs dest it).
  { exists 0%nat. split; [by eapply descriptors_nonempty|]. apply located_plain. cbn [field_iter]. by rewrite Eb. }
  destruct (rounds_recorded depth _ id fs dest Harr Hn Ht _ _ _ _ _ _ _ [] Hr Hp (recorded_nil fs))
    as [Hp1 Hrec].
  apply bind_Done_inv in E as (wrong & w2 & Ew & E). destruct wrong; [done|].
  rewrite (check_required_fields_run id fs dest Harr Hn s1 l1 tags w2 Hp1 Hrec) in E.
  assert (Hw : w2 = w1).
  { unfold fixed_count_wrong in Ew. destruct (fixed_count_field l1) as [r|]; [|by injection Ew as <-].
    destruct (deref_field r); [by injection Ew as _ <-|done]. }
  destruct (all_present fs tags) eqn:Eall; [|done]. injection E as <- <-. rewrite Hw.
  exists it, tags, l1. split_and!; try done. by apply all_present_spec.
Qed.

(** C3: Decoding any input whatsoever into the struct of a static message
    returns. It changes no byte outside the struct, allocates and frees
    nothing, and on success leaves a stream that has moved forward within the
    input. Memory outside the struct and the input may be missing altogether:
    the decoder does not touch it. *)
Theorem static_decode_safe depth size id dest p bs w :
  static_message depth size id = true -> 0 < dest -> mapped (mem w) dest size -> wf_mem (mem w) ->
  read_bytes (mem w) p (length bs) = Some bs -> Z.of_nat (length bs) < 2 ^ 64 ->
  p + Z.of_nat (length bs) <= dest \/ dest + size <= p ->
  exists ok s' w',
    pb_decode (S depth) (pb_istream_from_buffer (IsPtr p) (Z.of_nat (length bs)))
      (id, 0%nat) dest w = Done (ok, s') w' /\
    w' = set_mem (mem w') w /\
    (forall x, ~ (dest <= x < dest + size) -> mem w' !! x = mem w !! x) /\
    (forall x, is_Some (mem w' !! x) <-> is_Some (mem w !! x)) /\
    (ok = true -> 0 <= i_bytes_left s' <= Z.of_nat (length bs)).
Proof.
  intros Hm Hd Hroom Hwf Hbs Hlen Hap.
  pose proof (read_bytes_byte _ _ _ _ Hwf Hbs) as Hbytes.
  pose proof (offers_from_buffer _ _ _ Hbs Hbytes Hlen) as Ho.
  assert (Hr : ready w (pb_istream_from_buffer (IsPtr p) (Z.of_nat (length bs))) bs dest size)
    by (split_and!; [done..|exact Hap]).
  pose proof (pb_decode_run depth size id dest _ bs w Hm Hd Hr) as H. unfold wp in H.
  destruct (pb_decode _ _ _ _ w) as [[ok s'] w'| |]; try done. destruct H as [(E & Hf & Hdom & _) H].
  exists ok, s', w'. split_and!; try done. intros ->. cbn [fst snd] in H.
  destruct H as (k & e & -> & Hk). cbn [advanced i_bytes_left pb_istream_from_buffer]. lia.
Qed.

(** [pb_message_set_to_defaults] and [pb_release] on the struct of a
    static message return; the first changes no byte outside the struct, the
    second changes nothing at all: nothing of the message is on the heap. *)
Theorem static_defaults_release_safe depth size id dest w :
  static_message depth size id = true -> 0 < dest -> mapped (mem w) dest size -> wf_mem (mem w) ->
  exists w',
    pb_message_set_to_defaults depth (id, 0%nat) dest w = Done tt w' /\
    w' = set_mem (mem w') w /\
    (forall x, ~ (dest <= x < dest + size) -> mem w' !! x = mem w !! x) /\
    pb_release depth (id, 0%nat) dest w' = Done tt w'.
Proof.
  intros Hm Hd Hroom Hwf. pose proof (set_to_defaults_safe depth size id dest w Hm Hd (conj Hroom Hwf)) as H.
  unfold keeps, wp in H. destruct (pb_message_set_to_defaults _ _ _ w) as [[] w'| |]; try done.
  exists w'. pose proof H as (E & Hf & _). split_and!; try done.
  pose proof (pb_release_safe depth size id dest w' Hm Hd) as Hrel.
  unfold only_reads, wp in Hrel. destruct (pb_release _ _ _ w') as [[] w2| |] eqn:Er.
  - by rewrite Hrel by (by eapply room_confined).
  - destruct Hrel. by eapply room_confined.
  - destruct Hrel. by eapply room_confined.
Qed.

End Theorems.
