(* ===== verification/PbValue.v ===== *)
(** Messages as values: what a struct of static fields holds, and its encoding.
    The check [regular] selects the messages whose fields, apart from those of a
    union, lie apart, have their own [has_] or count member and distinct tags. *)
From S2P Require Import Prelude Memory PbTypes PbWire PbLayout.

(** ** Values *)

Inductive value :=
  | VInt (z : Z)                        (* bool, varint, uvarint, svarint *)
  | VBytes (bs : list Z)                (* fixed width, bytes, strings *)
  | VMsg (fs : list field_value)
with field_value :=
  | Absent
  | One (v : value)
  | Many (vs : list value).

(** The integer types, by [data_size]. *)
Definition value_width (f : pb_field_t) : option nat :=
  if data_size f =? 1 then Some 1%nat else if data_size f =? 2 then Some 2%nat
  else if data_size f =? 4 then Some 4%nat else if data_size f =? 8 then Some 8%nat
  else None.

(** The characters before the NUL within [n] bytes. *)
Fixpoint read_string (n : nat) (m : gmap Z Z) (a : Z) : option (list Z) :=
  match n with
  | O => None
  | S n' => c ← m !! a; if c =? 0 then Some [] else cs ← read_string n' m (a + 1); Some (c :: cs)
  end.

Section Values.
Context {PD : PbDescriptors}.

(** ** What the memory holds *)

Section Level.
Variable sub : nat -> Z -> option (list field_value).
Variable m : gmap Z Z.

Definition read_value (f : pb_field_t) (a : Z) : option value :=
  let lt := PB_LTYPE (type f) in
  if lt =? PB_LTYPE_BOOL then b ← read_le m 1 a; Some (VInt (if b =? 0 then 0 else 1))
  else if (lt =? PB_LTYPE_VARINT) || (lt =? PB_LTYPE_SVARINT) then
    n ← value_width f; v ← read_le m n a; Some (VInt (to_signed (8 * Z.of_nat n) v))
  else if lt =? PB_LTYPE_UVARINT then n ← value_width f; v ← read_le m n a; Some (VInt v)
  else if lt =? PB_LTYPE_FIXED32 then VBytes <$> read_bytes m a 4
  else if lt =? PB_LTYPE_FIXED64 then VBytes <$> read_bytes m a 8
  else if lt =? PB_LTYPE_BYTES then
    n ← read_le m 4 a;
    if data_size f - 4 <? n then None else VBytes <$> read_bytes m (a + 4) (Z.to_nat n)
  else if lt =? PB_LTYPE_STRING then VBytes <$> read_string (Z.to_nat (data_size f)) m a
  else if lt =? PB_LTYPE_SUBMESSAGE then
    match ptr f with PtrSubmsg id => VMsg <$> sub id a | _ => None end
  else if lt =? PB_LTYPE_FIXED_LENGTH_BYTES then VBytes <$> read_bytes m a (Z.to_nat (data_size f))
  else None.

(** The items of an array. *)
Definition read_items (f : pb_field_t) (a : Z) (n : nat) : option (list value) :=
  mapM (fun i => read_value f (a + data_size f * Z.of_nat i)) (seq 0 n).

(** A field with its data at [d] and its [has_], count or [which_] member at [s]. *)
Definition read_field (f : pb_field_t) (d s : Z) : option field_value :=
  let ht := PB_HTYPE (type f) in
  if ht =? PB_HTYPE_REQUIRED then One <$> read_value f d
  else if ht =? PB_HTYPE_OPTIONAL then
    b ← read_le m 1 s; if b =? 0 then Some Absent else One <$> read_value f d
  else if ht =? PB_HTYPE_REPEATED then
    n ← read_le m 4 s;
    if array_size f <? n then None else Many <$> read_items f d (Z.to_nat n)
  else which ← read_le m 4 s; if which =? tag f then One <$> read_value f d else Some Absent.

Definition read_field_at (id : nat) (a : Z) (k : nat) : option field_value :=
  f ← message_fields id !! k;
  '(d, s) ← field_offsets (message_fields id) k;
  read_field f (a + d) (a + s).

Definition read_fields (id : nat) (a : Z) : option (list field_value) :=
  mapM (read_field_at id a) (seq 0 (length (message_fields id))).

(** *** Structs that are ready to be decoded into: no field is present. *)

Variable fresh_sub : nat -> Z -> Prop.

Definition fresh_value (f : pb_field_t) (a : Z) : Prop :=
  if PB_LTYPE (type f) =? PB_LTYPE_SUBMESSAGE then
    match ptr f with PtrSubmsg id => fresh_sub id a | _ => False end
  else True.

Definition fresh_field (f : pb_field_t) (d s : Z) : Prop :=
  let ht := PB_HTYPE (type f) in
  if ht =? PB_HTYPE_REQUIRED then fresh_value f d
  else if ht =? PB_HTYPE_OPTIONAL then read_le m 1 s = Some 0 /\ fresh_value f d
  else read_le m 4 s = Some 0.

Definition fresh_field_at (id : nat) (a : Z) (k : nat) : Prop :=
  match message_fields id !! k, field_offsets (message_fields id) k with
  | Some f, Some (d, s) => fresh_field f (a + d) (a + s)
  | _, _ => False
  end.

End Level.

Fixpoint read_message (depth : nat) (m : gmap Z Z) (id : nat) (a : Z) : option (list field_value) :=
  match depth with
  | O => None
  | S depth => read_fields (read_message depth m) m id a
  end.

Fixpoint fresh_message (depth : nat) (m : gmap Z Z) (id : nat) (a : Z) : Prop :=
  match depth with
  | O => False
  | S depth => forall k, (k < length (message_fields id))%nat -> fresh_field_at m (fresh_message depth m) id a k
  end.

(** ** The encoding of a value *)

Section Encoding.
Variable sub : nat -> list field_value -> list Z.

Definition enc_value (f : pb_field_t) (v : value) : list Z :=
  let lt := PB_LTYPE (type f) in
  match v with
  | VInt z => varint_bytes (if lt =? PB_LTYPE_SVARINT then zigzag z else u64 z)
  | VBytes bs =>
      if (lt =? PB_LTYPE_FIXED32) || (lt =? PB_LTYPE_FIXED64) then bs else delimited bs
  | VMsg fs => match ptr f with PtrSubmsg id => delimited (sub id fs) | _ => [] end
  end.

Definition wire_type (f : pb_field_t) : Z :=
  let lt := PB_LTYPE (type f) in
  if lt <=? PB_LTYPE_SVARINT then PB_WT_VARINT
  else if lt =? PB_LTYPE_FIXED32 then PB_WT_32BIT
  else if lt =? PB_LTYPE_FIXED64 then PB_WT_64BIT
  else PB_WT_STRING.

Definition enc_tagged (f : pb_field_t) (v : value) : list Z :=
  varint_bytes (tag_key (wire_type f) (tag f)) ++ enc_value f v.

Definition enc_field (f : pb_field_t) (v : field_value) : list Z :=
  match v with
  | Absent | Many [] => []
  | One v => enc_tagged f v
  | Many vs =>
      if PB_LTYPE (type f) <=? PB_LTYPE_LAST_PACKABLE then
        varint_bytes (tag_key PB_WT_STRING (tag f)) ++ delimited (concat (enc_value f <$> vs))
      else concat (enc_tagged f <$> vs)
  end.

Definition enc_fields (fs : list pb_field_t) (vs : list field_value) : list Z :=
  concat (zip_with enc_field fs vs).

End Encoding.

Fixpoint enc_message (depth : nat) (id : nat) (vs : list field_value) : list Z :=
  match depth with
  | O => []
  | S depth => enc_fields (enc_message depth) (message_fields id) vs
  end.

(** ** Regular messages *)

(** Two ranges do not overlap. *)
Definition ranges_apart (a n b m : Z) : bool :=
  (n <=? 0) || (m <=? 0) || (a + n <=? b) || (b + m <=? a).

(** The size of the [has_], count or [which_] member. *)
Definition member_size (f : pb_field_t) : Z :=
  let ht := PB_HTYPE (type f) in
  if ht =? PB_HTYPE_REQUIRED then 0 else if ht =? PB_HTYPE_OPTIONAL then 1 else 4.

Definition is_oneof (f : pb_field_t) : bool := PB_HTYPE (type f) =? PB_HTYPE_ONEOF.

(** The fields at ([d], [s]) and ([d'], [s']) share no byte, or are of one union. *)
Definition fields_apart (f : pb_field_t) (d s : Z) (f' : pb_field_t) (d' s' : Z) : bool :=
  ranges_apart d (field_extent f) s' (member_size f') &&
  ranges_apart d' (field_extent f') s (member_size f) &&
  ((is_oneof f && is_oneof f' && (s =? s')) ||
   (ranges_apart d (field_extent f) d' (field_extent f') &&
    ranges_apart s (member_size f) s' (member_size f'))).

Definition regular_field (sub : nat -> bool) (f : pb_field_t) (d s : Z) : bool :=
  let lt := PB_LTYPE (type f) in
  (0 <? tag f) && (tag f <? 2 ^ 29) &&
  (if (lt =? PB_LTYPE_VARINT) || (lt =? PB_LTYPE_UVARINT) || (lt =? PB_LTYPE_SVARINT)
   then bool_decide (is_Some (value_width f)) else true) &&
  (if lt =? PB_LTYPE_BYTES then 4 <=? data_size f else true) &&
  (if lt =? PB_LTYPE_SUBMESSAGE then match ptr f with PtrSubmsg id => sub id | _ => false end else true) &&
  ((PB_HTYPE (type f) =? PB_HTYPE_REQUIRED) || (negb (size_offset f =? 0) && (s =? d + size_offset f))) &&
  ranges_apart d (field_extent f) s (member_size f).

Definition field_pair_apart (fs : list pb_field_t) (j k : nat) : bool :=
  match fs !! j, fs !! k, field_offsets fs j, field_offsets fs k with
  | Some f, Some f', Some (d, s), Some (d', s') => fields_apart f d s f' d' s'
  | _, _, _, _ => false
  end.

Fixpoint regular_message (depth : nat) (id : nat) : bool :=
  match depth with
  | O => false
  | S depth =>
      let fs := message_fields id in
      bool_decide (NoDup (tag <$> fs)) &&
      forallb (fun k => match fs !! k, field_offsets fs k with
                        | Some f, Some (d, s) => regular_field (regular_message depth) f d s
                        | _, _ => false
                        end) (seq 0 (length fs)) &&
      forallb (fun k => forallb (fun j => field_pair_apart fs j k) (seq 0 k)) (seq 0 (length fs))
  end.

(** A struct of [size] bytes for a regular message. *)
Definition regular (depth : nat) (size : Z) (id : nat) : bool :=
  static_message depth size id && regular_message depth id.

End Values.
