(* ===== verification/PbFrame.v ===== *)
(** Reading a message depends on nothing but the bytes of its fields: what a field
    takes up, when two fields share no byte, and the preservation of values and of
    fresh structs by writes elsewhere; and [pb_message_set_to_defaults] makes the
    struct of a regular message fresh: no optional field, array item or member of a
    union is present, down to the submessages. *)
From S2P Require Import Prelude Memory PbTypes PbLayout PbWire PbRelease PbDecode PbInput PbDecodeMsg.
From S2P Require Import PbSafety PbValue.

#[local] Arguments read_bytes : simpl never.
#[local] Arguments Z.mul : simpl never.

(** ** Writes to a set of addresses *)

Definition within (P : Z -> Prop) (w w' : world) : Prop :=
  w' = set_mem (mem w') w /\
  (forall x, ~ P x -> mem w' !! x = mem w !! x) /\
  (forall x, is_Some (mem w' !! x) <-> is_Some (mem w !! x)) /\
  (wf_mem (mem w) -> wf_mem (mem w')).

Lemma within_refl P w : within P w w.
Proof. split_and!; try done. by destruct w. Qed.

Lemma within_trans P w1 w2 w3 : within P w1 w2 -> within P w2 w3 -> within P w1 w3.
Proof.
  intros (E1 & H1 & D1 & W1) (E2 & H2 & D2 & W2). split_and!.
  - rewrite E2, E1. done.
  - intros x Hx. rewrite H2, H1 by done. done.
  - intros x. by rewrite D2, D1.
  - auto.
Qed.

Lemma within_weaken P Q w w' : (forall x, P x -> Q x) -> within P w w' -> within Q w w'.
Proof. intros HPQ (E & H & D & W). split_and!; auto. Qed.

Lemma confined_within a n (P : Z -> Prop) w w' :
  (forall x, a <= x < a + n -> P x) -> confined a n w w' -> within P w w'.
Proof. intros HP. by apply within_weaken. Qed.

Lemma within_confined (P : Z -> Prop) a n w w' :
  (forall x, P x -> a <= x < a + n) -> within P w w' -> confined a n w w'.
Proof. intros HP. by apply within_weaken. Qed.

(** ** Lists *)

Lemma mapM_ext_in {A B} (f g : A -> option B) (l : list A) :
  (forall x, x ∈ l -> f x = g x) -> mapM f l = mapM g l.
Proof.
  induction l as [|x l IH]; intros H; [done|]. cbn.
  rewrite (H x) by apply list_elem_of_here. rewrite IH; [done|].
  intros y Hy. apply H. by apply list_elem_of_further.
Qed.

(** A list that is read position by position. *)
Lemma mapM_seq_Some {A} (f : nat -> option A) (n : nat) (l : list A) :
  mapM f (seq 0 n) = Some l <->
  length l = n /\ forall i, (i < n)%nat -> f i = l !! i.
Proof.
  rewrite mapM_Some, Forall2_lookup. split.
  - intros H. assert (Hl : length l = n).
    { pose proof (H n) as Hn. rewrite (lookup_seq_ge 0 n n) in Hn by lia.
      destruct (decide (n <= length l)%nat) as [Hle|Hgt].
      - inversion Hn as [|Hnone]. symmetry in H0. apply lookup_ge_None in H0. lia.
      - exfalso. pose proof (H (length l)) as Hx. rewrite lookup_seq_lt in Hx by lia.
        rewrite (lookup_ge_None_2 l) in Hx by lia. inversion Hx. }
    split; [done|]. intros i Hi. specialize (H i). rewrite lookup_seq_lt in H by lia.
    inversion H as [x y Hxy Ex Ey|]. cbn in Hxy. by rewrite Hxy.
  - intros [Hl H] i. destruct (decide (i < n)%nat) as [Hi|Hi].
    + rewrite lookup_seq_lt by lia. destruct (lookup_lt_is_Some_2 l i ltac:(lia)) as [y Ey].
      rewrite Ey. constructor. cbn. by rewrite (H i Hi).
    + rewrite lookup_seq_ge, (lookup_ge_None_2 l) by lia. constructor.
Qed.

(** ** Regular fields *)

Lemma ranges_apart_spec a n b m x :
  ranges_apart a n b m = true -> a <= x < a + n -> ~ (b <= x < b + m).
Proof. unfold ranges_apart. rewrite !orb_true_iff, !Z.leb_le. lia. Qed.

(** The bytes of a field and of its member. *)
Definition footprint (f : pb_field_t) (d s x : Z) : Prop :=
  d <= x < d + field_extent f \/ s <= x < s + member_size f.

Section Frame.
Context {PD : PbDescriptors}.

(** A field of a regular message. *)
Record sound_field (depth : nat) (size : Z) (f : pb_field_t) (d s : Z) : Prop := {
  sf_fits : fits depth size f d s;
  sf_tag : 0 < tag f < 2 ^ 29;
  sf_width : PB_LTYPE (type f) = PB_LTYPE_VARINT \/ PB_LTYPE (type f) = PB_LTYPE_UVARINT \/
    PB_LTYPE (type f) = PB_LTYPE_SVARINT -> is_Some (value_width f);
  sf_bytes : PB_LTYPE (type f) = PB_LTYPE_BYTES -> 4 <= data_size f;
  sf_sub : PB_LTYPE (type f) = PB_LTYPE_SUBMESSAGE ->
    exists id, ptr f = PtrSubmsg id /\ static_message depth (data_size f) id = true /\
      regular_message depth id = true;
  sf_member : PB_HTYPE (type f) = PB_HTYPE_REQUIRED \/ (size_offset f <> 0 /\ s = d + size_offset f);
  sf_apart : forall x, d <= x < d + field_extent f -> ~ (s <= x < s + member_size f)
}.

Lemma regular_field_spec depth size f d s :
  fits depth size f d s -> regular_field (regular_message depth) f d s = true ->
  sound_field depth size f d s.
Proof.
  intros Hfit H. unfold regular_field in H.
  repeat match goal with H : (_ && _) = true |- _ => apply andb_true_iff in H as [? ?] end.
  split; try done.
  - blia.
  - intros [E|[E|E]]; rewrite E in *; by apply (bool_decide_eq_true_1 _).
  - intros E. rewrite E in *. by apply Z.leb_le.
  - intros E. destruct (submessage_field _ _ _ _ _ Hfit) as (id & Ep & Hs); [by apply Z.eqb_eq|].
    rewrite E, Ep in *. by exists id.
  - match goal with Ho : (_ || _) = true |- _ => apply orb_true_iff in Ho as [Hreq|Hmem] end.
    + left. by apply Z.eqb_eq.
    + right. by apply andb_true_iff in Hmem as [?%negb_true_iff%Z.eqb_neq ?%Z.eqb_eq].
  - intros x. by apply ranges_apart_spec.
Qed.

(** The fields of a regular message. *)
Lemma regular_fields depth size id k :
  static_message (S depth) size id = true -> regular_message (S depth) id = true ->
  (k < length (message_fields id))%nat ->
  exists f d s, message_fields id !! k = Some f /\
    field_offsets (message_fields id) k = Some (d, s) /\ sound_field depth size f d s.
Proof.
  intros [_ Hs]%andb_true_iff [[_ Hr]%andb_true_iff _]%andb_true_iff Hk.
  rewrite forallb_forall in Hs, Hr. specialize (Hs k ltac:(apply in_seq; lia)).
  specialize (Hr k ltac:(apply in_seq; lia)). cbv beta in Hr.
  destruct (message_fields id !! k) as [f|] eqn:Ef; [|done].
  destruct (field_offsets (message_fields id) k) as [[d s]|] eqn:Eo; [|done].
  exists f, d, s. split_and!; try done. apply regular_field_spec; [|done].
  by eapply field_fits_spec.
Qed.

Lemma regular_tags depth id :
  regular_message (S depth) id = true -> NoDup (tag <$> message_fields id).
Proof. intros [[H _]%andb_true_iff _]%andb_true_iff. by apply (bool_decide_eq_true_1 _). Qed.

Lemma fields_apart_spec f d s f' d' s' :
  fields_apart f d s f' d' s' = true ->
  (is_oneof f = true /\ is_oneof f' = true /\ s = s') \/
  forall x, footprint f d s x -> ~ footprint f' d' s' x.
Proof.
  intros [[Ha Hb]%andb_true_iff [Hc|[Hc Hd]%andb_true_iff]%orb_true_iff]%andb_true_iff.
  - left. by apply andb_true_iff in Hc as [[? ?]%andb_true_iff ?%Z.eqb_eq].
  - right. pose proof ranges_apart_spec as H. intros x [Hx|Hx] [Hx'|Hx'];
      [by apply (H _ _ _ _ x Hc)|by apply (H _ _ _ _ x Ha)|by apply (H _ _ _ _ x Hb)
      |by apply (H _ _ _ _ x Hd)].
Qed.

(** Two fields of a regular message. *)
Lemma regular_pair depth id j k f d s f' d' s' :
  regular_message (S depth) id = true -> j <> k ->
  message_fields id !! j = Some f -> field_offsets (message_fields id) j = Some (d, s) ->
  message_fields id !! k = Some f' -> field_offsets (message_fields id) k = Some (d', s') ->
  (is_oneof f = true /\ is_oneof f' = true /\ s = s') \/
  forall x, footprint f d s x -> ~ footprint f' d' s' x.
Proof.
  intros [_ H]%andb_true_iff. rewrite forallb_forall in H.
  assert (Hp : forall j k f d s f' d' s', (j < k)%nat ->
    message_fields id !! j = Some f -> field_offsets (message_fields id) j = Some (d, s) ->
    message_fields id !! k = Some f' -> field_offsets (message_fields id) k = Some (d', s') ->
    fields_apart f d s f' d' s' = true).
  { intros j0 k0 g e t g' e' t' Hlt Ef Eo Ef' Eo'. pose proof (lookup_lt_Some _ _ _ Ef').
    specialize (H k0 ltac:(apply in_seq; lia)). cbv beta in H. rewrite forallb_forall in H.
    specialize (H j0 ltac:(apply in_seq; lia)). unfold field_pair_apart in H.
    by rewrite Ef, Ef', Eo, Eo' in H. }
  intros Hne Ef Eo Ef' Eo'. destruct (decide (j < k)%nat) as [Hlt|Hge].
  - by apply fields_apart_spec, (Hp j k).
  - assert (Ha : fields_apart f' d' s' f d s = true) by (apply (Hp k j); [lia|done..]).
    apply fields_apart_spec in Ha as [(? & ? & ?)|Ha]; [by left|right].
    intros x Hx Hx'. by apply (Ha x).
Qed.

(** ** What is read depends on the bytes of the field only *)

Lemma read_le_same (m m' : gmap Z Z) n a :
  (forall x, a <= x < a + Z.of_nat n -> m' !! x = m !! x) -> read_le m' n a = read_le m n a.
Proof. intros H. unfold read_le. by rewrite (read_bytes_same m m'). Qed.

Lemma read_string_same (m m' : gmap Z Z) n a :
  (forall x, a <= x < a + Z.of_nat n -> m' !! x = m !! x) -> read_string n m' a = read_string n m a.
Proof.
  revert a. induction n as [|n IH]; intros a H; [done|]. cbn [read_string].
  rewrite (H a) by lia. destruct (m !! a); [|done]. cbn. rewrite IH; [done|]. intros. apply H. lia.
Qed.

Lemma value_width_size f n : value_width f = Some n -> Z.of_nat n = data_size f /\ (n = 1 \/ n = 2 \/ n = 4 \/ n = 8)%nat.
Proof.
  unfold value_width. repeat case_match; try done; intros [= <-];
    match goal with H : (data_size f =? _) = true |- _ => apply Z.eqb_eq in H end; lia.
Qed.

(** The types of a static field. *)
Lemma sound_types depth size f d s :
  sound_field depth size f d s ->
  let lt := PB_LTYPE (type f) in
  lt = PB_LTYPE_BOOL /\ 1 <= data_size f \/
  (lt = PB_LTYPE_VARINT \/ lt = PB_LTYPE_UVARINT \/ lt = PB_LTYPE_SVARINT) \/
  lt = PB_LTYPE_FIXED32 /\ 4 <= data_size f \/ lt = PB_LTYPE_FIXED64 /\ 8 <= data_size f \/
  lt = PB_LTYPE_BYTES \/ lt = PB_LTYPE_STRING \/ lt = PB_LTYPE_SUBMESSAGE \/
  lt = PB_LTYPE_FIXED_LENGTH_BYTES.
Proof.
  intros Hs. pose proof (fits_type _ _ _ _ _ (sf_fits _ _ _ _ _ Hs)) as Ht. unfold type_fits in Ht.
  pose proof (PB_LTYPE_range (type f)) as Hlt. cbv zeta.
  destruct (Z.eqb_spec (PB_LTYPE (type f)) PB_LTYPE_BOOL); [left; blia|].
  destruct (Z.eqb_spec (PB_LTYPE (type f)) PB_LTYPE_FIXED32); [do 2 right; left; blia|].
  destruct (Z.eqb_spec (PB_LTYPE (type f)) PB_LTYPE_FIXED64); [do 3 right; left; blia|].
  destruct (Z.eqb_spec (PB_LTYPE (type f)) PB_LTYPE_SUBMESSAGE); [by do 6 right; left|].
  apply andb_true_iff in Ht as [Hne%negb_true_iff%Z.eqb_neq Hle%Z.leb_le].
  unfold PB_LTYPE_BOOL, PB_LTYPE_VARINT, PB_LTYPE_UVARINT, PB_LTYPE_SVARINT, PB_LTYPE_FIXED32,
    PB_LTYPE_FIXED64, PB_LTYPE_BYTES, PB_LTYPE_STRING, PB_LTYPE_SUBMESSAGE, PB_LTYPE_EXTENSION,
    PB_LTYPE_FIXED_LENGTH_BYTES in *. lia.
Qed.

(** Nested messages are read from their own bytes. *)
Definition framed {A} (depth : nat) (m m' : gmap Z Z) (sub sub' : nat -> Z -> A) : Prop :=
  forall id size a, static_message depth size id = true -> regular_message depth id = true ->
    (forall x, a <= x < a + size -> m' !! x = m !! x) -> sub' id a = sub id a.

Lemma read_value_same depth size f d s m m' sub sub' a :
  sound_field depth size f d s -> framed depth m m' sub sub' ->
  (forall x, a <= x < a + data_size f -> m' !! x = m !! x) ->
  read_value sub' m' f a = read_value sub m f a.
Proof.
  intros Hs Hsub Hm. unfold read_value.
  pose proof (fits_data _ _ _ _ _ (sf_fits _ _ _ _ _ Hs)) as Hds.
  destruct (sound_types _ _ _ _ _ Hs) as [[E H]|[Hi|[[E H]|[[E H]|[E|[E|[E|E]]]]]]].
  - rewrite E. cbn. by rewrite (read_le_same m m') by (intros; apply Hm; lia).
  - destruct (sf_width _ _ _ _ _ Hs Hi) as [n En]. destruct (value_width_size _ _ En) as [Hn _].
    rewrite En. destruct Hi as [-> |[-> | ->]]; cbn;
      by rewrite (read_le_same m m') by (intros; apply Hm; lia).
  - rewrite E. cbn. by rewrite (read_bytes_same m m') by (intros; apply Hm; lia).
  - rewrite E. cbn. by rewrite (read_bytes_same m m') by (intros; apply Hm; lia).
  - pose proof (sf_bytes _ _ _ _ _ Hs E). rewrite E. cbn.
    rewrite (read_le_same m m') by (intros; apply Hm; lia).
    destruct (read_le m 4 a) as [n|]; [|done]. cbn.
    destruct (Z.ltb_spec (data_size f - 4) n); [done|].
    rewrite (read_bytes_same m m'); [done|]. intros x Hx. apply Hm. lia.
  - rewrite E. cbn. rewrite (read_string_same m m'); [done|]. intros x Hx. apply Hm. lia.
  - destruct (sf_sub _ _ _ _ _ Hs E) as (id & Ep & Hst & Hr). rewrite E. cbn. rewrite Ep.
    by rewrite (Hsub id (data_size f) a).
  - rewrite E. cbn. rewrite (read_bytes_same m m'); [done|]. intros x Hx. apply Hm. lia.
Qed.

(** An item of an array. *)
Lemma item_bytes depth size f d s (i : nat) :
  sound_field depth size f d s -> PB_HTYPE (type f) = PB_HTYPE_REPEATED ->
  Z.of_nat i < array_size f ->
  0 <= data_size f * Z.of_nat i /\ data_size f * Z.of_nat i + data_size f <= field_extent f /\
  data_size f * Z.of_nat i < 2 ^ 32.
Proof.
  intros Hs Hrep Hi. pose proof (sf_fits _ _ _ _ _ Hs) as Hfit.
  pose proof (fits_data _ _ _ _ _ Hfit). pose proof (fits_product _ _ _ _ _ Hfit).
  unfold field_extent. rewrite Hrep, Z.eqb_refl. split_and!; nia.
Qed.

Lemma single_extent f : PB_HTYPE (type f) <> PB_HTYPE_REPEATED -> field_extent f = data_size f.
Proof. intros H. unfold field_extent. by rewrite (proj2 (Z.eqb_neq _ _) H). Qed.

Lemma read_items_same depth size f d s m m' sub sub' a n :
  sound_field depth size f d s -> framed depth m m' sub sub' ->
  PB_HTYPE (type f) = PB_HTYPE_REPEATED -> Z.of_nat n <= array_size f ->
  (forall x, a <= x < a + field_extent f -> m' !! x = m !! x) ->
  read_items sub' m' f a n = read_items sub m f a n.
Proof.
  intros Hs Hsub Hrep Hn Hm. apply mapM_ext_in. intros i Hi%elem_of_seq.
  destruct (item_bytes _ _ _ _ _ i Hs Hrep ltac:(lia)) as (H0 & H1 & _).
  eapply read_value_same; [done|done|]. intros x Hx. apply Hm. lia.
Qed.

Lemma read_field_same depth size f d s m m' sub sub' a :
  sound_field depth size f d s -> framed depth m m' sub sub' ->
  (forall x, footprint f (a + d) (a + s) x -> m' !! x = m !! x) ->
  read_field sub' m' f (a + d) (a + s) = read_field sub m f (a + d) (a + s).
Proof.
  intros Hs Hsub Hm. unfold read_field.
  assert (Hd : forall x, a + d <= x < a + d + field_extent f -> m' !! x = m !! x)
    by (intros; apply Hm; by left).
  assert (Hmem : forall n, Z.of_nat n = member_size f -> read_le m' n (a + s) = read_le m n (a + s)).
  { intros n Hn. apply read_le_same. intros x Hx. apply Hm. right. lia. }
  unfold member_size in Hmem.
  destruct (PB_HTYPE_cases (type f)) as [E|[E|[E|E]]]; rewrite E in *; cbn in Hmem |- *.
  - rewrite single_extent in Hd by (by rewrite E). by erewrite read_value_same.
  - rewrite single_extent in Hd by (by rewrite E). rewrite (Hmem 1%nat) by done.
    by erewrite read_value_same.
  - rewrite (Hmem 4%nat) by done. destruct (read_le m 4 (a + s)) as [n|]; [|done]. cbn.
    destruct (Z.ltb_spec (array_size f) n); [done|].
    destruct (Z_lt_dec n 0); [by destruct n|].
    erewrite read_items_same; [done|done|done|done|lia|done].
  - rewrite single_extent in Hd by (by rewrite E). rewrite (Hmem 4%nat) by done.
    by erewrite read_value_same.
Qed.

(** The bytes of a field are in the struct. *)
Lemma footprint_inside depth size f d s a x :
  sound_field depth size f d s -> footprint f (a + d) (a + s) x -> a <= x < a + size.
Proof.
  intros Hs Hx. pose proof (sf_fits _ _ _ _ _ Hs) as Hfit.
  pose proof (fits_start _ _ _ _ _ Hfit). pose proof (fits_end _ _ _ _ _ Hfit).
  pose proof (fits_size _ _ _ _ _ Hfit) as Hsz. unfold size_fits in Hsz.
  destruct Hx as [Hx|Hx]; [lia|]. unfold member_size in Hx.
  destruct (sf_member _ _ _ _ _ Hs) as [E|[Hne Es]]; [rewrite E in Hx; cbn in Hx; lia|].
  destruct (PB_HTYPE_cases (type f)) as [E|[E|[E|E]]]; rewrite E in *; cbn in Hx, Hsz;
    [lia| |blia..].
  rewrite (proj2 (Z.eqb_neq s d)) in Hsz by lia. cbn in Hsz. blia.
Qed.

Lemma read_message_same depth m m' : framed depth m m' (read_message depth m) (read_message depth m').
Proof.
  induction depth as [|depth IH]; intros id size a Hst Hr Hm; [done|]. cbn [read_message].
  apply mapM_ext_in. intros k Hk%elem_of_seq.
  destruct (regular_fields _ _ _ k Hst Hr ltac:(lia)) as (f & d & s & Ef & Eo & Hs).
  unfold read_field_at. rewrite Ef, Eo. cbn.
  eapply read_field_same; [done|done|]. intros x Hx. apply Hm. by eapply footprint_inside.
Qed.

(** ** Fresh structs *)

Lemma fresh_field_same depth size f d s m m' (sub sub' : nat -> Z -> Prop) a :
  sound_field depth size f d s ->
  (forall id size a, static_message depth size id = true -> regular_message depth id = true ->
     (forall x, a <= x < a + size -> m' !! x = m !! x) -> sub id a -> sub' id a) ->
  (forall x, footprint f (a + d) (a + s) x -> m' !! x = m !! x) ->
  fresh_field m sub f (a + d) (a + s) -> fresh_field m' sub' f (a + d) (a + s).
Proof.
  intros Hs Hsub Hm. unfold fresh_field.
  assert (Hmem : forall n, Z.of_nat n = member_size f -> read_le m' n (a + s) = read_le m n (a + s)).
  { intros n Hn. apply read_le_same. intros x Hx. apply Hm. right. lia. }
  assert (Hv : PB_HTYPE (type f) <> PB_HTYPE_REPEATED -> fresh_value sub f (a + d) -> fresh_value sub' f (a + d)).
  { intros Hne. unfold fresh_value. destruct (Z.eqb_spec (PB_LTYPE (type f)) PB_LTYPE_SUBMESSAGE) as [E|]; [|done].
    destruct (sf_sub _ _ _ _ _ Hs E) as (id & -> & Hst & Hr). apply (Hsub id (data_size f)); try done.
    intros x Hx. apply Hm. left. by rewrite (single_extent f Hne). }
  unfold member_size in Hmem.
  destruct (PB_HTYPE_cases (type f)) as [E|[E|[E|E]]]; rewrite E in *; cbn in Hmem |- *.
  - by apply Hv.
  - rewrite (Hmem 1%nat) by done. intros [? ?]. split; [done|by apply Hv].
  - by rewrite (Hmem 4%nat).
  - by rewrite (Hmem 4%nat).
Qed.

Lemma fresh_message_same depth m m' id size a :
  static_message depth size id = true -> regular_message depth id = true ->
  (forall x, a <= x < a + size -> m' !! x = m !! x) ->
  fresh_message depth m id a -> fresh_message depth m' id a.
Proof.
  revert id size a. induction depth as [|depth IH]; intros id size a Hst Hr Hm; [done|].
  cbn [fresh_message]. intros H k Hk. specialize (H k Hk).
  destruct (regular_fields _ _ _ k Hst Hr Hk) as (f & d & s & Ef & Eo & Hs).
  unfold fresh_field_at in *. rewrite Ef, Eo in *. eapply fresh_field_same; [done| | |exact H].
  - intros id' size' a'. apply IH.
  - intros x Hx. apply Hm. by eapply footprint_inside.
Qed.

End Frame.

(** Compute the tests of a known repetition rule. *)
Ltac htype :=
  cbn [PB_HTYPE_REQUIRED PB_HTYPE_OPTIONAL PB_HTYPE_REPEATED PB_HTYPE_ONEOF Z.eqb Pos.eqb
    andb orb negb] in *.

(** A store is read back. *)
Lemma wp_store_bytes_read a bs w :
  room w a (Z.of_nat (length bs)) -> Forall is_byte bs ->
  wp (store_bytes a bs) w (fun _ w' => confined a (Z.of_nat (length bs)) w w' /\
    read_bytes (mem w') a (length bs) = Some bs).
Proof.
  intros Hr Hb. pose proof (wp_store_bytes a bs w (fun _ w' => confined a (Z.of_nat (length bs)) w w')
    Hr Hb ltac:(done)) as H.
  unfold wp, store_bytes in *. destruct (write_bytes _ _ _) as [m'|] eqn:E; [|done].
  split; [done|]. by apply write_bytes_inv in E as (_ & ? & _).
Qed.

Lemma wp_store_read n a v w :
  room w a (Z.of_nat n) ->
  wp (store n a v) w (fun _ w' => confined a (Z.of_nat n) w w' /\
    read_le (mem w') n a = Some (v mod 2 ^ (8 * Z.of_nat n))).
Proof.
  intros Hr. pose proof (wp_store n a v w (fun _ w' => confined a (Z.of_nat n) w w') Hr ltac:(done)) as H.
  unfold wp in *. destruct (store n a v w) as [[] w'| |] eqn:E; try done.
  split; [done|]. by apply store_load in E.
Qed.

(** Writes elsewhere do not change what is read. *)
Lemma confined_read_le a n k b w w' :
  confined a n w w' -> (forall x, b <= x < b + Z.of_nat k -> ~ (a <= x < a + n)) ->
  read_le (mem w') k b = read_le (mem w) k b.
Proof. intros (_ & H & _) Hx. apply read_le_same. intros x Hb. by apply H, Hx. Qed.

Section Fresh.
Context {PD : PbDescriptors}.

(** A walk over the fields, with an invariant that follows the position. *)
Lemma fields_loop_at id dest step (I : nat -> world -> Prop) fuel k it w :
  descriptors id (message_fields id) -> (k < length (message_fields id))%nat ->
  (length (message_fields id) - k <= fuel)%nat -> field_iter id dest k = Some it -> I k w ->
  (forall k it w, (k < length (message_fields id))%nat -> field_iter id dest k = Some it -> I k w ->
     wp (step it) w (fun _ w' => I (S k) w')) ->
  wp (fields_loop step fuel it) w (fun _ w' => I (length (message_fields id)) w').
Proof.
  intros Harr. revert k it w. induction fuel as [|fuel IH]; intros k it w Hk Hf E Hw Hstep; [lia|].
  cbn [fields_loop]. apply wp_bind. eapply wp_mono; [by eapply Hstep|]. intros [] w' Hw'.
  destruct (field_iter_next id _ dest Harr k it Hk E) as (it' & E' & Eit'). rewrite E'.
  apply wp_bind, wp_ret. cbv beta iota. unfold after in Eit'.
  destruct (Nat.ltb_spec (S k) (length (message_fields id))) as [Hlt|Hge].
  - eapply IH; [exact Hlt|lia|exact Eit'|done|done].
  - apply wp_ret. by replace (length (message_fields id)) with (S k) by lia.
Qed.

Definition makes_fresh (depth fuel : nat) : Prop :=
  forall size id dest w, static_message depth size id = true -> regular_message depth id = true ->
    0 < dest -> room w dest size ->
    wp (pb_message_set_to_defaults fuel (id, 0%nat) dest) w
      (fun _ w' => confined dest size w w' /\ fresh_message depth (mem w') id dest).

(** The default value of a field makes its messages fresh. *)
Lemma init_data_fresh depth fuel size f d s a w :
  makes_fresh depth fuel -> sound_field depth size f d s -> 0 < a -> room w a (data_size f) ->
  wp (if PB_LTYPE (type f) =? PB_LTYPE_SUBMESSAGE then
        fields ← submsg_of f;
        pb_message_set_to_defaults_with (pb_field_set_to_default fuel) fields a
      else
        match ptr f with
        | PtrNull => memset a 0 (data_size f)
        | PtrDefault value =>
            if Z.of_nat (length value) <? data_size f then fault
            else store_bytes a (take (Z.to_nat (data_size f)) value)
        | PtrSubmsg _ => fault
        end) w
    (fun _ w' => confined a (data_size f) w w' /\ fresh_value (fresh_message depth (mem w')) f a).
Proof.
  intros IH Hs Ha Hr. unfold fresh_value. destruct (PB_LTYPE (type f) =? PB_LTYPE_SUBMESSAGE) eqn:Esub.
  - destruct (sf_sub _ _ _ _ _ Hs) as (id & Ep & Hst & Hreg); [by apply Z.eqb_eq|].
    unfold submsg_of. rewrite Ep. apply wp_bind, wp_ret. by apply IH.
  - eapply wp_mono; [eapply init_value_keeps; [by eapply sf_fits|done|done]|]. by intros [] w' Hc.
Qed.

(** The region of the data and of the member. *)
Lemma sound_data_room depth size f d s dest w :
  sound_field depth size f d s -> room w dest size -> PB_HTYPE (type f) <> PB_HTYPE_REPEATED ->
  room w (dest + d) (data_size f).
Proof. intros Hs Hr Hne. by eapply data_region; [eapply sf_fits| |]. Qed.

Lemma sound_member_room depth size f d s dest w :
  sound_field depth size f d s -> room w dest size -> PB_HTYPE (type f) <> PB_HTYPE_REQUIRED ->
  room w (dest + s) (member_size f) /\ s <> d.
Proof.
  intros Hs Hr Hne. destruct (sf_member _ _ _ _ _ Hs) as [?|[Hz Es]]; [done|].
  split; [|lia]. unfold member_size. rewrite (proj2 (Z.eqb_neq _ _) Hne).
  destruct (PB_HTYPE (type f) =? PB_HTYPE_OPTIONAL) eqn:E.
  - eapply (size_member _ _ _ _ _ _ _ 1); [by eapply sf_fits|done|]. rewrite E.
    split; [|done]. apply Z.eqb_neq. lia.
  - eapply (size_member _ _ _ _ _ _ _ 4); [by eapply sf_fits|done|]. by rewrite E.
Qed.

Lemma field_set_to_default_fresh depth fuel size id dest k it w :
  makes_fresh depth fuel -> static_message (S depth) size id = true ->
  regular_message (S depth) id = true -> 0 < dest ->
  (k < length (message_fields id))%nat -> field_iter id dest k = Some it -> room w dest size ->
  exists f d s, message_fields id !! k = Some f /\ field_offsets (message_fields id) k = Some (d, s) /\
    sound_field depth size f d s /\
    wp (pb_field_set_to_default (S fuel) it) w
      (fun _ w' => within (footprint f (dest + d) (dest + s)) w w' /\
         fresh_field (mem w') (fresh_message depth (mem w')) f (dest + d) (dest + s)).
Proof.
  intros IH Hst Hreg Hdest Hk E Hr.
  destruct (message_field _ _ _ _ _ _ Hst Hdest Hk E) as (f & d0 & s0 & Edr & _ & _ & Ef & Ed & Es & Hfit).
  destruct (regular_fields _ _ _ k Hst Hreg Hk) as (f' & d & s & Ef' & Eo & Hs).
  rewrite Ef in Ef'. injection Ef' as <-.
  destruct (field_iter_offsets id _ dest k it (message_descriptors _ _ _ Hst) ltac:(unfold NULL; lia) Hk E)
    as (d1 & s1 & Eo1 & Ed1 & Es1).
  rewrite Eo in Eo1. injection Eo1 as <- <-.
  exists f, d, s. split_and!; try done.
  pose proof (fits_start _ _ _ _ _ (sf_fits _ _ _ _ _ Hs)) as Hd0.
  cbn [pb_field_set_to_default]. unfold iter_field. rewrite Edr. apply wp_bind, wp_ret. cbv beta zeta.
  rewrite (not_extension _ _ _ _ _ Hfit), (fits_static _ _ _ _ _ Hfit), Ed1, Es1, size_pointer.
  change (PB_ATYPE_STATIC =? PB_ATYPE_STATIC) with true. cbv iota. apply wp_bind.
  unfold fresh_field, footprint, member_size.
  pose proof (sf_apart _ _ _ _ _ Hs) as Hap. unfold member_size in Hap.
  destruct (PB_HTYPE_cases (type f)) as [Eh|[Eh|[Eh|Eh]]]; rewrite Eh in *; htype.
  3,4: (* repeated, oneof *)
    destruct (sound_member_room _ _ _ _ _ _ _ Hs Hr) as [Hrm _]; [by rewrite Eh|];
    unfold member_size in Hrm; rewrite Eh in Hrm; htype; apply wp_bind;
    (eapply wp_mono; [by apply wp_store_read|]); intros [] w1 [Hc1 Hb]; apply wp_ret, wp_ret;
    (split; [|done]); eapply confined_within; [|done]; intros x Hx; by right.
  - (* required *)
    apply wp_ret. cbv iota. eapply wp_mono.
    { apply (init_data_fresh depth fuel size f d s); try done; [lia|].
      eapply sound_data_room; try done. by rewrite Eh. }
    intros [] w' [Hc Hf]. split; [|done]. eapply confined_within; [|done].
    rewrite <- single_extent by (by rewrite Eh). intros x Hx. by left.
  - (* optional *)
    destruct (sound_member_room _ _ _ _ _ _ _ Hs Hr) as [Hrm Hsd]; [by rewrite Eh|].
    unfold member_size in Hrm. rewrite Eh in Hrm. htype.
    rewrite (proj2 (Z.eqb_neq _ _) Hsd). cbn [negb]. apply wp_bind.
    eapply wp_mono; [by apply wp_store_read|]. intros [] w1 [Hc1 Hb]. apply wp_ret. cbv iota.
    eapply wp_mono.
    { apply (init_data_fresh depth fuel size f d s); try done; [lia|].
      eapply room_confined; [|done]. eapply sound_data_room; try done. by rewrite Eh. }
    rewrite (single_extent f) in * by (by rewrite Eh).
    intros [] w2 [Hc2 Hf]. split; [|split; [|done]].
    + eapply within_trans; (eapply confined_within; [|done]); intros x Hx; [by right|by left].
    + rewrite (confined_read_le _ _ _ _ _ _ Hc2), Hb; [done|].
      intros x Hx Hx'. apply (Hap (x - dest)); lia.
Qed.

(** A field is fresh before and after a write to another one. *)
Lemma fresh_other depth size id dest j k f d s w w' :
  static_message (S depth) size id = true -> regular_message (S depth) id = true -> j <> k ->
  message_fields id !! k = Some f -> field_offsets (message_fields id) k = Some (d, s) ->
  within (footprint f (dest + d) (dest + s)) w w' ->
  (is_oneof f = true -> read_le (mem w') 4 (dest + s) = Some 0) ->
  fresh_field_at (mem w) (fresh_message depth (mem w)) id dest j ->
  fresh_field_at (mem w') (fresh_message depth (mem w')) id dest j.
Proof.
  intros Hst Hreg Hne Ef Eo (_ & Hw & _) Hwhich Hfr. unfold fresh_field_at in Hfr |- *.
  destruct (message_fields id !! j) as [f'|] eqn:Ef'; [|done].
  destruct (field_offsets (message_fields id) j) as [[d' s']|] eqn:Eo'; [|done].
  destruct (regular_pair _ _ _ _ _ _ _ _ _ _ Hreg Hne Ef' Eo' Ef Eo) as [(H1 & H2 & ->)|Hap].
  - unfold fresh_field. unfold is_oneof in H1. apply Z.eqb_eq in H1. rewrite H1. cbn. by apply Hwhich.
  - destruct (regular_fields _ _ _ j Hst Hreg (lookup_lt_Some _ _ _ Ef')) as (f0 & d0 & s0 & E1 & E2 & Hs').
    rewrite Ef' in E1. rewrite Eo' in E2. injection E1 as <-. injection E2 as <- <-.
    eapply fresh_field_same; [done| | |exact Hfr].
    + intros id' size' a. apply fresh_message_same.
    + intros x Hx. apply Hw. intros Hx'. apply (Hap (x - dest)); unfold footprint in *; lia.
Qed.

Lemma set_to_defaults_fresh depth fuel : (depth <= fuel)%nat -> makes_fresh depth fuel.
Proof.
  revert fuel. induction depth as [|depth IH]; intros fuel Hf size id dest w Hst Hreg Hdest Hr; [done|].
  destruct fuel as [|fuel]; [lia|]. specialize (IH fuel ltac:(lia)).
  pose proof (message_descriptors depth size id Hst) as Harr.
  unfold pb_message_set_to_defaults, pb_message_set_to_defaults_with.
  destruct (begin_run id _ dest Harr) as (it & E & _). rewrite E. apply wp_bind, wp_ret. cbn [negb].
  pose proof (fields_loop_at id dest (pb_field_set_to_default (S fuel)) (fun k w' =>
    confined dest size w w' /\
    forall j, (j < k)%nat -> fresh_field_at (mem w') (fresh_message depth (mem w')) id dest j)
    (array_fuel (id, 0%nat)) 0 it w Harr) as Hloop.
  eapply wp_mono; [apply Hloop|].
  - by apply (descriptors_nonempty id).
  - unfold array_fuel. cbn [fst]. rewrite (length_descriptors id _ Harr). lia.
  - cbn [field_iter]. by rewrite E.
  - split; [apply confined_refl|]. intros j Hj. lia.
  - intros k it1 w1 Hk Eit [Hc1 Hfr].
    destruct (field_set_to_default_fresh depth fuel size id dest k it1 w1 IH Hst Hreg Hdest Hk Eit)
      as (f & d & s & Ef & Eo & Hs & Hwp); [by eapply room_confined|].
    eapply wp_mono; [exact Hwp|]. intros [] w2 [Hw2 Hf2]. split.
    { eapply confined_trans; [exact Hc1|]. eapply within_confined; [|done].
      intros x. by eapply footprint_inside. }
    intros j Hj. destruct (decide (j = k)) as [->|Hne].
    { unfold fresh_field_at. by rewrite Ef, Eo. }
    eapply (fresh_other depth size id dest j k); try done; [|apply Hfr; lia].
    intros Hone. unfold fresh_field in Hf2. unfold is_oneof in Hone. apply Z.eqb_eq in Hone.
    by rewrite Hone in Hf2.
  - intros [] w' [Hc H]. by split.
Qed.

End Fresh.
