(* ===== verification/PbValueDecode.v ===== *)
(** The decoders of field values on the encoding of a value: they consume
    exactly the encoding, write nothing but the data of the field, and what is
    read there afterwards is the value that was encoded. *)
From S2P Require Import Prelude Memory PbTypes PbWire PbLayout PbValue.
From S2P Require Import PbRelease PbDecode PbInput PbCodec PbDecodeMsg PbSafety.
From S2P Require Import PbFrame.

#[local] Arguments Z.mul : simpl never.
#[local] Arguments Z.pow : simpl never.
#[local] Arguments read_bytes : simpl never.

(** Compute the tests of a known type. *)
Ltac ltype :=
  cbn [PB_LTYPE_BOOL PB_LTYPE_VARINT PB_LTYPE_UVARINT PB_LTYPE_SVARINT PB_LTYPE_FIXED32
    PB_LTYPE_FIXED64 PB_LTYPE_BYTES PB_LTYPE_STRING PB_LTYPE_SUBMESSAGE
    PB_LTYPE_FIXED_LENGTH_BYTES Z.eqb Pos.eqb andb orb negb] in *.

(** ** Values and their bytes *)

Lemma wrap_wrap k n x : 0 <= k <= n -> wrap k (wrap n x) = wrap k x.
Proof.
  intros H. unfold wrap. apply Z.mod_mod_divide.
  exists (2 ^ (n - k)). rewrite <- Z.pow_add_r by lia. f_equal. lia.
Qed.

Lemma to_signed_wide k n x : 0 < k <= n -> to_signed k (wrap n x) = to_signed k x.
Proof. intros H. rewrite <- (to_signed_wrap k (wrap n x)), wrap_wrap, to_signed_wrap by lia. done. Qed.

(** The characters of a string, and their NUL. *)
Lemma read_string_spec n m a cs :
  read_string n m a = Some cs <->
  (length cs < n)%nat /\ Forall (fun c => c <> 0) cs /\ read_bytes m a (length cs) = Some cs /\
  m !! (a + Z.of_nat (length cs)) = Some 0.
Proof.
  revert a cs. induction n as [|n IH]; intros a cs; cbn [read_string].
  { split; [done|]. intros (H & _). lia. }
  split.
  - intros (c & Hc & H)%bind_Some. destruct (Z.eqb_spec c 0) as [->|Hne].
    + injection H as <-. split_and!; [cbn; lia|constructor|done|]. by rewrite Z.add_0_r.
    + apply bind_Some in H as (cs' & H & [= <-]). apply IH in H as (Hl & Hf & Hr & Hz).
      split_and!; [cbn; lia|by constructor| |].
      * unfold read_bytes. cbn. rewrite Hc. cbn. unfold read_bytes in Hr. by rewrite Hr.
      * replace (a + Z.of_nat (length (c :: cs'))) with (a + 1 + Z.of_nat (length cs')) by (cbn; lia). done.
  - intros (Hl & Hf & Hr & Hz). destruct cs as [|c cs].
    + cbn in Hz. rewrite Z.add_0_r in Hz. by rewrite Hz.
    + unfold read_bytes in Hr. cbn in Hr.
      apply bind_Some in Hr as (c' & Hc & (cs' & Hr & [= -> ->])%bind_Some).
      apply Forall_cons in Hf as [Hne Hf]. rewrite Hc. cbn.
      rewrite (proj2 (Z.eqb_neq _ _) Hne). rewrite (proj2 (IH (a + 1) cs)); [done|].
      split_and!; [cbn in Hl; lia|done|done|].
      replace (a + 1 + Z.of_nat (length cs)) with (a + Z.of_nat (length (c :: cs))) by (cbn; lia). done.
Qed.

Lemma delimited_length bs : (length bs < length (delimited bs))%nat.
Proof. unfold delimited. rewrite length_app. pose proof (varint_bytes_length (Z.of_nat (length bs))). lia. Qed.

Section Values.
Context {PD : PbDescriptors} {DC : DecCallbacks}.

(** ** Reads and writes of a decoder *)

Lemma wp_parsed {A} (g : pb_istream_t -> M (option A * pb_istream_t)) bs v
    (k : A -> pb_istream_t -> ires) s rest w Q :
  parses g bs v -> offers (mem w) s (bs ++ rest) ->
  wp (k v (consumed s (length bs))) w Q -> wp (bind_ok (g s) k) w Q.
Proof. intros Hp Ho H. unfold wp. rewrite (bind_ok_done _ _ _ _ _ _ (Hp s w rest Ho)). exact H. Qed.

Lemma ready_consumed w s bs rest a n :
  ready w s (bs ++ rest) a n -> ready w (consumed s (length bs)) rest a n.
Proof.
  intros Hr. pose proof (ready_advanced _ _ _ _ _ (length bs) (i_errmsg s) Hr
    ltac:(rewrite length_app; lia)) as H. by rewrite drop_app_length in H.
Qed.

(** The bytes of the stream are copied. *)
Lemma buf_read_loop_copies s bs1 bs2 bs3 q w :
  offers (mem w) s (bs1 ++ bs2 ++ bs3) ->
  room w (q + Z.of_nat (length bs1)) (Z.of_nat (length bs2)) ->
  apart (i_state s) (length (bs1 ++ bs2 ++ bs3)) (q + Z.of_nat (length bs1)) (Z.of_nat (length bs2)) ->
  wp (buf_read_loop (RMem q) (i_state s) (length bs1) (length bs2)) w
    (fun _ w' => confined (q + Z.of_nat (length bs1)) (Z.of_nat (length bs2)) w w' /\
       read_bytes (mem w') (q + Z.of_nat (length bs1)) (length bs2) = Some bs2).
Proof.
  revert bs1 w. induction bs2 as [|b bs2 IH]; intros bs1 w Ho Hr Ha; cbn [length buf_read_loop].
  { apply wp_ret. split; [apply confined_refl|done]. }
  apply wp_bind. unfold wp at 1.
  rewrite (source_byte (mem w) s _ (length bs1) b w Ho ltac:(done)
    ltac:(by rewrite lookup_app_r, Nat.sub_diag by lia)).
  pose proof (Forall_lookup_1 _ _ (length bs1) b (offers_byte _ _ _ Ho)
    ltac:(by rewrite lookup_app_r, Nat.sub_diag by lia)) as Hb.
  apply wp_bind. cbn [length] in Hr, Ha.
  eapply wp_mono; [apply wp_store_read; eapply room_sub; [done|lia|lia]|]. intros [] w1 [Hc1 Hread].
  assert (Eb : read_bytes (mem w1) (q + Z.of_nat (length bs1)) 1 = Some [b]).
  { unfold read_le in Hread. destruct (read_bytes (mem w1) (q + Z.of_nat (length bs1)) 1) as [l|] eqn:El; [|done].
    pose proof (read_bytes_length _ _ _ _ El) as Hl. destruct l as [|x [|]]; try done.
    cbn in Hread. injection Hread as Hread. change (2 ^ 8) with 256 in Hread.
    unfold is_byte in Hb. rewrite Z.mod_small, Z.add_0_r in Hread by lia. by subst x. }
  assert (E : bs1 ++ (b :: bs2) ++ bs3 = (bs1 ++ [b]) ++ bs2 ++ bs3) by (by rewrite <- app_assoc).
  assert (El : q + Z.of_nat (length (bs1 ++ [b])) = q + Z.of_nat (length bs1) + 1)
    by (rewrite length_app; cbn; lia).
  rewrite E in *. replace (S (length bs1)) with (length (bs1 ++ [b])) by (rewrite length_app; cbn; lia).
  apply wp_bind. eapply wp_mono; [apply IH|].
  - eapply offers_mem; [done|]. destruct Hc1 as (_ & Hf & _). unfold apart in Ha.
    destruct (i_state s); [|done]. intros x Hx. apply Hf. lia.
  - rewrite El. eapply room_confined; [eapply room_sub; [done|lia|lia]|done].
  - rewrite El. unfold apart in *. destruct (i_state s); [lia|done].
  - rewrite El. intros l w2 [Hc2 Hread2]. apply wp_ret. split.
    + eapply confined_trans; (eapply confined_sub; [| |done]); lia.
    + change (S (length bs2)) with (1 + length bs2)%nat. change (b :: bs2) with ([b] ++ bs2).
      apply read_bytes_app; [|done]. rewrite <- Eb. apply read_bytes_same.
      destruct Hc2 as (_ & Hf & _). intros x Hx. apply Hf. lia.
Qed.

Lemma wp_read_copies s bs rest q w :
  ready w s (bs ++ rest) q (Z.of_nat (length bs)) ->
  wp (pb_read_ s (RMem q) (Z.of_nat (length bs))) w
    (fun r w' => r = (true, consumed s (length bs)) /\
       confined q (Z.of_nat (length bs)) w w' /\ read_bytes (mem w') q (length bs) = Some bs).
Proof.
  intros Hr. pose proof Hr as (Hroom & Ho & Hap). unfold pb_read_. apply wp_ok_bind.
  unfold pb_read. destruct (Z.eqb_spec (Z.of_nat (length bs)) 0) as [E|Hne].
  { destruct bs; [|done]. apply wp_ret. cbn [fst snd]. apply wp_ret.
    split; [by rewrite consumed_0|]. split; [apply confined_refl|done]. }
  unfold pb_read_bytes, call_read_callback, buf_read. pose proof Ho as (Hcb & Hl & Hb & _).
  rewrite length_app in Hl. rewrite (proj2 (Z.ltb_ge _ _)), Hcb by lia. apply wp_bind, wp_bind.
  pose proof (buf_read_loop_copies s [] bs rest q w Ho) as Hloop. cbn [length] in Hloop.
  rewrite Z.add_0_r in Hloop. rewrite Nat2Z.id. eapply wp_mono; [by apply Hloop|].
  intros l w' [Hc Hread]. apply wp_ret, wp_ret. cbn [fst snd]. apply wp_ret. split_and!; try done.
  f_equal. unfold consumed, advanced, is_with_left, is_with_state. cbn. f_equal.
  apply (u64_left _ _ _ _ Ho). rewrite length_app. lia.
Qed.

(** A delimited string is a substream that can be closed after it was read. *)
Lemma substream_run s body rest a n w :
  ready w s (delimited body ++ rest) a n -> Z.of_nat (length body) < 2 ^ 32 ->
  exists sub parent, pb_make_string_substream s w = Done (Some sub, parent) w /\
    ready w sub body a n /\
    forall w', confined a n w w' ->
      pb_close_string_substream parent (consumed sub (length body)) w' =
      Done (true, consumed s (length (delimited body))) w'.
Proof.
  intros Hr Hl. pose proof (ready_offers _ _ _ _ _ Hr) as Ho.
  destruct (pb_make_string_substream_spec s w body rest Hl Ho) as [E _].
  eexists _, _. split; [exact E|]. split.
  - apply (ready_substream _ _ _ _ _ (varint_bytes (Z.of_nat (length body))) body rest _ Hr).
    unfold delimited. by rewrite <- app_assoc.
  - intros w' Hc. pose proof (ready_offers _ _ _ _ _ (ready_confined _ _ _ _ _ _ Hr Hc)) as Ho'.
    unfold delimited in *. rewrite <- app_assoc in Ho'. apply offers_consumed in Ho'.
    unfold consumed in *. rewrite (pb_close_string_substream_spec _ _ _ _ _ _ Ho') by lia.
    by rewrite advanced_advanced, length_app.
Qed.

(** ** One level of messages *)

(** [rec] decodes the messages [depth] levels deep that the memory [m0] held. *)
Definition message_decoder (depth : nat) (m0 : gmap Z Z)
    (rec : pb_istream_t -> field_ref -> Z -> ires) : Prop :=
  forall size id src vs dest s w,
    static_message depth size id = true -> regular_message depth id = true ->
    read_message depth m0 id src = Some vs ->
    Z.of_nat (length (enc_message depth id vs)) < 2 ^ 32 -> 0 < dest ->
    ready w s (enc_message depth id vs) dest size -> fresh_message depth (mem w) id dest ->
    wp (rec s (id, 0%nat) dest) w (fun r w' =>
      r = (true, consumed s (length (enc_message depth id vs))) /\ confined dest size w w' /\
      read_message depth (mem w') id dest = Some vs).

Context (depth : nat) (m0 : gmap Z Z) (rec : pb_istream_t -> field_ref -> Z -> ires).
Hypothesis Hm0 : wf_mem m0.
Hypothesis Hrec : message_decoder depth m0 rec.

(** The value [v] of [f] at [a]. *)
Definition holds (m : gmap Z Z) (f : pb_field_t) (a : Z) (v : value) : Prop :=
  read_value (read_message depth m) m f a = Some v.

(** The stream has moved [n] bytes forward, and the value is at [a]. *)
Definition yields (f : pb_field_t) (a : Z) (v : value) (s : pb_istream_t) (n : nat) (w : world)
    (r : bool * pb_istream_t) (w' : world) : Prop :=
  r = (true, consumed s n) /\ confined a (data_size f) w w' /\ holds (mem w') f a v.

Abbreviation enc := (enc_value (enc_message depth)).

Lemma dec_bool_yields f a v s rest src w :
  PB_LTYPE (type f) = PB_LTYPE_BOOL -> 1 <= data_size f -> holds m0 f src v ->
  ready w s (enc f v ++ rest) a (data_size f) ->
  wp (pb_dec_bool s f a) w (yields f a v s (length (enc f v)) w).
Proof.
  intros E Hd Hv Hr. unfold holds, read_value in Hv. rewrite E in Hv. cbn in Hv.
  apply bind_Some in Hv as (b & _ & [= <-]). set (z := if b =? 0 then 0 else 1) in *.
  assert (Hz : z = 0 \/ z = 1) by (unfold z; destruct (b =? 0); auto).
  unfold enc_value in *. rewrite E in *. ltype.
  rewrite (wrap_small 64) in * by lia.
  unfold pb_dec_bool. eapply wp_parsed; [apply (parses_varint32_nonneg z); lia|by eapply ready_offers|].
  apply wp_bind. eapply wp_mono; [apply wp_store_read; eapply room_sub; [by eapply ready_room|lia|lia]|].
  intros [] w' [Hc Hread]. apply wp_ret. split; [done|]. split; [eapply confined_sub; [| |done]; lia|].
  unfold holds, read_value. rewrite E. cbn. rewrite Hread. cbn.
  change (2 ^ 8) with 256. by destruct Hz as [-> | ->].
Qed.

(** *** Integers *)

Lemma store_clamped_run f a s w z n cast :
  value_width f = Some n -> cast (8 * n)%nat z = z -> room w a (data_size f) ->
  wp (store_clamped s f a z cast) w (fun r w' => r = (true, s) /\ confined a (data_size f) w w' /\
    read_le (mem w') n a = Some (z mod 2 ^ (8 * Z.of_nat n))).
Proof.
  intros En Ez Hr. destruct (value_width_size _ _ En) as [Hn Hc]. rewrite <- Hn in *.
  assert (Hgo : wp (store n a z ;; (if negb (cast (8 * n)%nat z =? z)
      then is_return_error s "integer too large" else mret (true, s))) w
    (fun r w' => r = (true, s) /\ confined a (Z.of_nat n) w w' /\
       read_le (mem w') n a = Some (z mod 2 ^ (8 * Z.of_nat n)))).
  { apply wp_bind. eapply wp_mono; [by apply wp_store_read|]. intros [] w' [Hc' Hread].
    rewrite Ez, Z.eqb_refl. cbn [negb]. by apply wp_ret. }
  unfold store_clamped. rewrite <- Hn.
  destruct Hc as [-> |[-> |[-> | ->]]]; exact Hgo.
Qed.

Lemma signed_range f n v :
  value_width f = Some n -> - 2 ^ (8 * Z.of_nat n - 1) <= to_signed (8 * Z.of_nat n) v < 2 ^ (8 * Z.of_nat n - 1) /\
  - 2 ^ 63 <= to_signed (8 * Z.of_nat n) v < 2 ^ 63 /\
  (Z.of_nat n <> 8 -> - 2 ^ 31 <= to_signed (8 * Z.of_nat n) v < 2 ^ 31).
Proof.
  intros En. destruct (value_width_size _ _ En) as [_ Hc].
  pose proof (to_signed_bounds (8 * Z.of_nat n) v ltac:(lia)) as H.
  destruct Hc as [-> |[-> |[-> | ->]]]; cbn in H; lia.
Qed.

Lemma store_signed_yields f a v s w n z raw :
  PB_LTYPE (type f) = PB_LTYPE_VARINT \/ PB_LTYPE (type f) = PB_LTYPE_SVARINT ->
  value_width f = Some n -> z = to_signed (8 * Z.of_nat n) raw -> v = VInt z ->
  room w a (data_size f) ->
  wp (store_clamped s f a z cast_signed) w (yields f a v s 0 w).
Proof.
  intros E En Ez -> Hr. destruct (signed_range f n raw En) as (H1 & _).
  destruct (value_width_size _ _ En) as [_ Hc].
  eapply wp_mono; [apply (store_clamped_run f a s w z n); [done| |done]|].
  - unfold cast_signed. replace (Z.of_nat (8 * n)) with (8 * Z.of_nat n) by lia.
    rewrite Ez. apply to_signed_small; lia.
  - intros r w' (-> & Hcf & Hread). split; [by rewrite consumed_0|]. split; [done|].
    assert (Hback : to_signed (8 * Z.of_nat n) (z mod 2 ^ (8 * Z.of_nat n)) = z).
    { change (z mod _) with (wrap (8 * Z.of_nat n) z). rewrite to_signed_wrap. apply to_signed_small; lia. }
    unfold holds, read_value. rewrite En.
    destruct E as [-> | ->]; cbn; rewrite Hread; cbn; by rewrite Hback.
Qed.

Lemma yields_consumed f a v s k n w r w' :
  yields f a v (consumed s k) n w r w' -> yields f a v s (k + n) w r w'.
Proof. intros (-> & H). split; [by rewrite consumed_consumed|done]. Qed.

Lemma dec_varint_yields f a v s rest src w :
  PB_LTYPE (type f) = PB_LTYPE_VARINT -> is_Some (value_width f) -> holds m0 f src v ->
  ready w s (enc f v ++ rest) a (data_size f) ->
  wp (pb_dec_varint s f a) w (yields f a v s (length (enc f v)) w).
Proof.
  intros E [n En] Hv Hr. unfold holds, read_value in Hv. rewrite E, En in Hv. cbn in Hv.
  apply bind_Some in Hv as (raw & _ & [= <-]).
  destruct (signed_range f n raw En) as (H1 & H2 & H3).
  destruct (value_width_size _ _ En) as [Hn Hc].
  unfold enc_value in *. rewrite E in *. ltype.
  remember (to_signed (8 * Z.of_nat n) raw) as z eqn:Ez.
  unfold pb_dec_varint. eapply wp_parsed; [apply (parses_varint (u64 z)); apply wrap_bounds; lia
    |by eapply ready_offers|].
  assert (Es : (if data_size f =? 8 then s64 (u64 z) else s32 (u64 z)) = z).
  { destruct (Z.eqb_spec (data_size f) 8).
    - rewrite to_signed_wrap. apply to_signed_small; lia.
    - rewrite to_signed_wide by lia. apply to_signed_small; lia. }
  cbv zeta. rewrite Es. eapply wp_mono; [|intros r w' H; rewrite <- (Nat.add_0_r (length _));
    apply yields_consumed; exact H].
  eapply store_signed_yields; [by left|done|done|done|by eapply ready_room].
Qed.

Lemma dec_svarint_yields f a v s rest src w :
  PB_LTYPE (type f) = PB_LTYPE_SVARINT -> is_Some (value_width f) -> holds m0 f src v ->
  ready w s (enc f v ++ rest) a (data_size f) ->
  wp (pb_dec_svarint s f a) w (yields f a v s (length (enc f v)) w).
Proof.
  intros E [n En] Hv Hr. unfold holds, read_value in Hv. rewrite E, En in Hv. cbn in Hv.
  apply bind_Some in Hv as (raw & _ & [= <-]).
  destruct (signed_range f n raw En) as (H1 & H2 & H3).
  unfold enc_value in *. rewrite E in *. ltype.
  remember (to_signed (8 * Z.of_nat n) raw) as z eqn:Ez.
  unfold pb_dec_svarint. eapply wp_parsed; [by apply (parses_svarint z)|by eapply ready_offers|].
  eapply wp_mono; [|intros r w' H; rewrite <- (Nat.add_0_r (length _));
    apply yields_consumed; exact H].
  eapply store_signed_yields; [by right|done|done|done|by eapply ready_room].
Qed.

Lemma dec_uvarint_yields f a v s rest src w :
  PB_LTYPE (type f) = PB_LTYPE_UVARINT -> is_Some (value_width f) -> holds m0 f src v ->
  ready w s (enc f v ++ rest) a (data_size f) ->
  wp (pb_dec_uvarint s f a) w (yields f a v s (length (enc f v)) w).
Proof.
  intros E [n En] Hv Hr. unfold holds, read_value in Hv. rewrite E, En in Hv. cbn in Hv.
  apply bind_Some in Hv as (z & Hz%(read_le_bound _ _ _ _ Hm0) & [= <-]).
  destruct (value_width_size _ _ En) as [Hn Hc].
  assert (Hz64 : 0 <= z < 2 ^ 64) by (destruct Hc as [-> |[-> |[-> | ->]]]; cbn in Hz; lia).
  unfold enc_value in *. rewrite E in *. ltype.
  rewrite (wrap_small 64) in * by lia.
  unfold pb_dec_uvarint. eapply wp_parsed; [by apply (parses_varint z)|by eapply ready_offers|].
  eapply wp_mono; [apply (store_clamped_run f a _ w z n); [done| |by eapply ready_room]|].
  - unfold cast_unsigned. apply wrap_small. by replace (Z.of_nat (8 * n)) with (8 * Z.of_nat n) by lia.
  - intros r w' (-> & Hcf & Hread). split; [done|]. split; [done|].
    unfold holds, read_value. rewrite E, En. cbn. rewrite Hread. cbn. by rewrite Z.mod_small.
Qed.

(** *** Bytes *)

Lemma fixed_yields (dec : pb_istream_t -> Z -> ires) k f a bs s rest w :
  (forall s w bs rest, offers (mem w) s (bs ++ rest) -> length bs = k ->
     dec s a w = (store_bytes a bs ;; mret (true, consumed s k)) w) ->
  length bs = k -> Z.of_nat k <= data_size f -> ready w s (bs ++ rest) a (data_size f) ->
  wp (dec s a) w (fun r w' => r = (true, consumed s (length bs)) /\
    confined a (data_size f) w w' /\ read_bytes (mem w') a k = Some bs).
Proof.
  intros Hdec Hl Hk Hr. pose proof (ready_offers _ _ _ _ _ Hr) as Ho.
  unfold wp. rewrite (Hdec s w bs rest Ho Hl).
  change (wp (store_bytes a bs ;; mret (M := M) (true, consumed s k)) w (fun r w' =>
    r = (true, consumed s (length bs)) /\ confined a (data_size f) w w' /\
    read_bytes (mem w') a k = Some bs)).
  pose proof (offers_byte _ _ _ Ho) as [Hb _]%Forall_app. rewrite <- Hl in *.
  apply wp_bind. eapply wp_mono; [apply wp_store_bytes_read; [|done]|].
  - eapply room_sub; [by eapply ready_room|lia|lia].
  - intros [] w' [Hc Hread]. apply wp_ret. split_and!; [done| |done].
    eapply confined_sub; [| |done]; lia.
Qed.

Lemma dec_fixed32_yields f a v s rest src w :
  PB_LTYPE (type f) = PB_LTYPE_FIXED32 -> 4 <= data_size f -> holds m0 f src v ->
  ready w s (enc f v ++ rest) a (data_size f) ->
  wp (pb_dec_fixed32 s f a) w (yields f a v s (length (enc f v)) w).
Proof.
  intros E Hd Hv Hr. unfold holds, read_value in Hv. rewrite E in Hv. cbn in Hv.
  apply fmap_Some in Hv as (bs & Hbs & ->). pose proof (read_bytes_length _ _ _ _ Hbs) as Hl.
  unfold enc_value in *. rewrite E in *. ltype.
  eapply wp_mono; [by apply (fixed_yields pb_decode_fixed32 4 f a bs s rest w
    (fun s w bs rest => pb_decode_fixed32_spec s w a bs rest))|].
  intros r w' (-> & Hc & Hread). split; [done|]. split; [done|].
  unfold holds, read_value. rewrite E. cbn. by rewrite Hread.
Qed.

Lemma dec_fixed64_yields f a v s rest src w :
  PB_LTYPE (type f) = PB_LTYPE_FIXED64 -> 8 <= data_size f -> holds m0 f src v ->
  ready w s (enc f v ++ rest) a (data_size f) ->
  wp (pb_dec_fixed64 s f a) w (yields f a v s (length (enc f v)) w).
Proof.
  intros E Hd Hv Hr. unfold holds, read_value in Hv. rewrite E in Hv. cbn in Hv.
  apply fmap_Some in Hv as (bs & Hbs & ->). pose proof (read_bytes_length _ _ _ _ Hbs) as Hl.
  unfold enc_value in *. rewrite E in *. ltype.
  eapply wp_mono; [by apply (fixed_yields pb_decode_fixed64 8 f a bs s rest w
    (fun s w bs rest => pb_decode_fixed64_spec s w a bs rest))|].
  intros r w' (-> & Hc & Hread). split; [done|]. split; [done|].
  unfold holds, read_value. rewrite E. cbn. by rewrite Hread.
Qed.

(** The length of a delimited value is parsed, and its bytes are next. *)
Lemma wp_length bs rest s a n w (k : Z -> pb_istream_t -> ires) Q :
  ready w s (delimited bs ++ rest) a n -> Z.of_nat (length bs) < 2 ^ 32 ->
  (forall s1, ready w s1 (bs ++ rest) a n ->
     consumed s1 (length bs) = consumed s (length (delimited bs)) ->
     (bs = [] -> s1 = consumed s (length (delimited bs))) ->
     wp (k (Z.of_nat (length bs)) s1) w Q) ->
  wp (bind_ok (pb_decode_varint32 s) k) w Q.
Proof.
  intros Hr Hl Hk. unfold delimited in Hr. rewrite <- app_assoc in Hr.
  eapply wp_parsed; [apply (parses_varint32_nonneg (Z.of_nat (length bs))); lia|by eapply ready_offers|].
  apply Hk.
  - by apply ready_consumed.
  - unfold delimited. by rewrite consumed_consumed, length_app.
  - intros ->. unfold delimited. by rewrite app_nil_r.
Qed.

Lemma dec_bytes_yields f a v s rest src w :
  PB_LTYPE (type f) = PB_LTYPE_BYTES -> is_static f -> 4 <= data_size f < 2 ^ 32 -> holds m0 f src v ->
  ready w s (enc f v ++ rest) a (data_size f) ->
  wp (pb_dec_bytes s f a) w (yields f a v s (length (enc f v)) w).
Proof.
  intros E Hst Hd Hv Hr. unfold holds, read_value in Hv. rewrite E in Hv. cbn in Hv.
  apply bind_Some in Hv as (n & Hn%(read_le_bound _ _ _ _ Hm0) & Hv).
  destruct (Z.ltb_spec (data_size f - 4) n) as [|Hfit]; [done|].
  apply fmap_Some in Hv as (bs & Hbs & ->). pose proof (read_bytes_length _ _ _ _ Hbs) as Hl.
  unfold enc_value in *. rewrite E in *. ltype.
  unfold pb_dec_bytes. eapply wp_length; [done|lia|]. intros s1 Hr1 Es _. cbv zeta.
  unfold PB_BYTES_ARRAY_T_ALLOCSIZE, PB_SIZE_MAX, pb_bytes_off.
  rewrite (proj2 (Z.ltb_ge _ _)) by lia. rewrite (wrap_small 64) by lia.
  rewrite (proj2 (Z.ltb_ge _ _)) by lia. rewrite Hst.
  change (PB_ATYPE_STATIC =? PB_ATYPE_POINTER) with false. cbv iota.
  rewrite (proj2 (Z.ltb_ge _ _)) by lia.
  apply wp_bind. eapply wp_mono; [apply wp_store_read; eapply room_sub; [by eapply ready_room|lia|lia]|].
  intros [] w1 [Hc1 Hsize].
  assert (Hc1' : confined a (data_size f) w w1) by (eapply confined_sub; [| |done]; lia).
  eapply wp_mono; [eapply wp_read_copies|].
  - eapply ready_sub; [by eapply ready_confined|lia|lia].
  - intros r w2 (-> & Hc2 & Hread). split; [by rewrite Es|]. split.
    + eapply confined_trans; [done|]. eapply confined_sub; [| |done]; lia.
    + unfold holds, read_value. rewrite E. cbn.
      rewrite (confined_read_le _ _ _ _ _ _ Hc2), Hsize by (intros; lia). cbn.
      change (2 ^ (8 * Z.of_nat 4)) with (2 ^ 32). rewrite Z.mod_small by lia.
      rewrite (proj2 (Z.ltb_ge _ _)) by lia. by rewrite Nat2Z.id, Hread.
Qed.

Lemma dec_string_yields f a v s rest src w :
  PB_LTYPE (type f) = PB_LTYPE_STRING -> is_static f -> 0 <= data_size f < 2 ^ 32 -> holds m0 f src v ->
  ready w s (enc f v ++ rest) a (data_size f) ->
  wp (pb_dec_string s f a) w (yields f a v s (length (enc f v)) w).
Proof.
  intros E Hst Hd Hv Hr. unfold holds, read_value in Hv. rewrite E in Hv. cbn in Hv.
  apply fmap_Some in Hv as (cs & (Hl & Hnz & _ & _)%read_string_spec & ->).
  unfold enc_value in *. rewrite E in *. ltype.
  unfold pb_dec_string. eapply wp_length; [done|lia|]. intros s1 Hr1 Es _. cbv zeta.
  rewrite (wrap_small 32) by lia.
  rewrite (proj2 (Z.ltb_ge _ _)) by lia. rewrite Hst.
  change (PB_ATYPE_STATIC =? PB_ATYPE_POINTER) with false. cbv iota.
  rewrite (proj2 (Z.ltb_ge _ _)) by lia.
  apply wp_bind. eapply wp_mono; [eapply wp_read_copies; eapply ready_sub; [done|lia|lia]|].
  intros r w1 (-> & Hc1 & Hread).
  assert (Hc1' : confined a (data_size f) w w1) by (eapply confined_sub; [| |done]; lia).
  apply wp_bind. eapply wp_mono; [apply wp_store_read|].
  { eapply room_sub; [by eapply ready_room, ready_confined|lia|lia]. }
  intros [] w2 [Hc2 Hnul]. apply wp_ret. split; [by rewrite Es|]. split.
  { eapply confined_trans; [done|]. eapply confined_sub; [| |done]; lia. }
  unfold holds, read_value. rewrite E. cbn.
  rewrite (proj2 (read_string_spec (Z.to_nat (data_size f)) (mem w2) a cs)); [done|].
  split_and!; [lia|done| |].
  - rewrite <- Hread. apply read_bytes_same. intros x Hx. apply Hc2. lia.
  - unfold read_le in Hnul. destruct (read_bytes (mem w2) (a + Z.of_nat (length cs)) 1) as [l|] eqn:El; [|done].
    pose proof (read_bytes_lookup _ _ _ _ 0 El ltac:(lia)) as H0. rewrite Z.add_0_r in H0. rewrite H0.
    pose proof (read_bytes_length _ _ _ _ El) as Hlen. destruct l as [|x [|]]; try done.
    cbn in Hnul. injection Hnul as Hx. rewrite Z.mod_0_l in Hx by done. cbn. f_equal. lia.
Qed.

Lemma dec_fixed_length_bytes_yields f a v s rest src w :
  PB_LTYPE (type f) = PB_LTYPE_FIXED_LENGTH_BYTES -> 0 <= data_size f < 2 ^ 32 -> holds m0 f src v ->
  ready w s (enc f v ++ rest) a (data_size f) ->
  wp (pb_dec_fixed_length_bytes s f a) w (yields f a v s (length (enc f v)) w).
Proof.
  intros E Hd Hv Hr. unfold holds, read_value in Hv. rewrite E in Hv. cbn in Hv.
  apply fmap_Some in Hv as (bs & Hbs & ->). pose proof (read_bytes_length _ _ _ _ Hbs) as Hl.
  unfold enc_value in *. rewrite E in *. ltype.
  unfold pb_dec_fixed_length_bytes. eapply wp_length; [done|lia|]. intros s1 Hr1 Es Enil. cbv zeta.
  assert (Eds : data_size f = Z.of_nat (length bs)) by lia.
  unfold PB_SIZE_MAX. rewrite (proj2 (Z.ltb_ge _ _)) by lia. rewrite Eds in *.
  destruct (Z.eqb_spec (Z.of_nat (length bs)) 0) as [Ez|Ez].
  - destruct bs as [|]; [|done]. cbn [length]. apply wp_bind, wp_memset; [done|by eapply ready_room|].
    intros w' Hc. apply wp_ret. split; [by rewrite Enil|]. rewrite Eds. split; [done|].
    unfold holds, read_value. rewrite E. cbn. by rewrite Eds.
  - rewrite Z.eqb_refl. cbn [negb].
    eapply wp_mono; [by eapply wp_read_copies|].
    intros r w' (-> & Hc & Hread). split; [by rewrite Es|]. rewrite Eds. split; [done|].
    unfold holds, read_value. rewrite E. cbn. by rewrite Eds, Nat2Z.id, Hread.
Qed.

(** *** Messages *)

Lemma decode_with_yields size id src vs a s w :
  static_message depth size id = true -> regular_message depth id = true ->
  read_message depth m0 id src = Some vs ->
  Z.of_nat (length (enc_message depth id vs)) < 2 ^ 32 -> 0 < a ->
  ready w s (enc_message depth id vs) a size ->
  wp (pb_decode_with (S depth) rec s (id, 0%nat) a) w (fun r w' =>
    r = (true, consumed s (length (enc_message depth id vs))) /\ confined a size w w' /\
    read_message depth (mem w') id a = Some vs).
Proof.
  intros Hst Hreg Hsrc Hl Ha Hr. unfold pb_decode_with. apply wp_bind.
  eapply wp_mono; [apply (set_to_defaults_fresh depth (S depth) ltac:(lia) size); try done; by eapply ready_room|].
  intros [] w1 [Hc1 Hfr]. apply wp_bind.
  eapply wp_mono; [by apply (Hrec size id src vs a s w1 Hst Hreg Hsrc Hl Ha);
                   [eapply ready_confined|]|].
  intros r w2 (-> & Hc2 & Hread). cbn [negb]. apply wp_bind, wp_ret, wp_ret.
  split_and!; [done|by eapply confined_trans|done].
Qed.

Lemma dec_submessage_yields size d sz f a v s rest src w :
  sound_field depth size f d sz -> PB_LTYPE (type f) = PB_LTYPE_SUBMESSAGE -> 0 < a ->
  holds m0 f src v -> Z.of_nat (length (enc f v)) < 2 ^ 32 ->
  (PB_HTYPE (type f) <> PB_HTYPE_REPEATED -> fresh_value (fresh_message depth (mem w)) f a) ->
  ready w s (enc f v ++ rest) a (data_size f) ->
  wp (pb_dec_submessage (S depth) rec s f a) w (yields f a v s (length (enc f v)) w).
Proof.
  intros Hs E Ha Hv Hlen Hfr Hr. unfold holds, read_value in Hv. rewrite E in Hv. cbn in Hv.
  destruct (sf_sub _ _ _ _ _ Hs E) as (id & Ep & Hst & Hreg). rewrite Ep in Hv.
  apply fmap_Some in Hv as (vs & Hvs & ->).
  unfold enc_value in *. rewrite Ep in *. cbn [PB_LTYPE] in *.
  pose proof (delimited_length (enc_message depth id vs)) as Hdl.
  destruct (substream_run _ _ _ _ _ _ Hr ltac:(lia)) as (sub & parent & Emake & Hsub & Hclose).
  unfold pb_dec_submessage. unfold wp. rewrite (bind_ok_done _ _ _ _ _ _ Emake), Ep.
  match goal with |- match ?m w with _ => _ end => change (wp m w (yields f a (VMsg vs) s
    (length (delimited (enc_message depth id vs))) w)) end.
  apply wp_bind. eapply (wp_mono _ _ (fun r w' =>
    r = (true, consumed sub (length (enc_message depth id vs))) /\ confined a (data_size f) w w' /\
    read_message depth (mem w') id a = Some vs)).
  - apply wp_if; intros Eh.
    + apply (decode_with_yields (data_size f) id src); try done. lia.
    + apply (Hrec (data_size f) id src); try done; [lia|]. apply Z.eqb_neq in Eh.
      specialize (Hfr Eh). unfold fresh_value in Hfr. by rewrite E, Ep in Hfr.
  - intros r w' (-> & Hc & Hread). apply wp_and_then. unfold wp. rewrite (Hclose _ Hc). cbn [fst snd].
    split; [done|]. split; [done|]. unfold holds, read_value. rewrite E. cbn. by rewrite Ep, Hread.
Qed.

(** Any decoder of the table. *)
Lemma call_decoder_yields size d sz f a v s rest src w :
  sound_field depth size f d sz -> 0 < a -> holds m0 f src v ->
  Z.of_nat (length (enc f v)) < 2 ^ 32 ->
  (PB_HTYPE (type f) <> PB_HTYPE_REPEATED -> fresh_value (fresh_message depth (mem w)) f a) ->
  ready w s (enc f v ++ rest) a (data_size f) ->
  wp (call_decoder (S depth) rec s f a) w (yields f a v s (length (enc f v)) w).
Proof.
  intros Hs Ha Hv Hlen Hfr Hr. pose proof (sf_fits _ _ _ _ _ Hs) as Hfit.
  pose proof (fits_data _ _ _ _ _ Hfit) as Hd. pose proof (fits_static _ _ _ _ _ Hfit) as Hst.
  pose proof (sf_width _ _ _ _ _ Hs) as Hw. unfold call_decoder.
  destruct (sound_types _ _ _ _ _ Hs) as [[E H]|[[E|[E|E]]|[[E H]|[[E H]|[E|[E|[E|E]]]]]]]; rewrite E;
    cbn [PB_DECODERS lookup list_lookup Z.to_nat Pos.to_nat PB_LTYPE_BOOL].
  - by eapply dec_bool_yields.
  - eapply dec_varint_yields; try done. apply Hw. auto.
  - eapply dec_uvarint_yields; try done. apply Hw. auto.
  - eapply dec_svarint_yields; try done. apply Hw. auto.
  - by eapply dec_fixed32_yields.
  - by eapply dec_fixed64_yields.
  - eapply dec_bytes_yields; try done. pose proof (sf_bytes _ _ _ _ _ Hs E). lia.
  - by eapply dec_string_yields.
  - by eapply dec_submessage_yields.
  - by eapply dec_fixed_length_bytes_yields.
Qed.

End Values.
