(* ===== verification/PbFieldDecode.v ===== *)
(** [decode_static_field] on the encoding of a field: the data, the [has_],
    count or [which_] member and the stream afterwards. *)
From S2P Require Import Prelude Memory PbTypes PbWire PbLayout PbValue.
From S2P Require Import PbRelease PbDecode PbInput PbCodec PbDecodeMsg PbSafety.
From S2P Require Import PbFrame PbValueDecode.

#[local] Arguments read_bytes : simpl never.
#[local] Arguments Z.mul : simpl never.
#[local] Arguments Z.pow : simpl never.

Lemma wp_load_value n a v w (Q : Z -> world -> Prop) :
  read_le (mem w) n a = Some v -> Q v w -> wp (load n a) w Q.
Proof. intros E H. unfold wp, load. by rewrite E. Qed.

Lemma confined_read_bytes a n k b w w' :
  confined a n w w' -> (forall x, b <= x < b + Z.of_nat k -> ~ (a <= x < a + n)) ->
  read_bytes (mem w') b k = read_bytes (mem w) b k.
Proof. intros (_ & H & _) Hx. apply read_bytes_same. intros x Hb. by apply H, Hx. Qed.

Section Fields.
Context {PD : PbDescriptors} {DC : DecCallbacks}.
Context (depth : nat) (m0 : gmap Z Z) (rec : pb_istream_t -> field_ref -> Z -> ires).
Hypothesis Hm0 : wf_mem m0.
Hypothesis Hrec : message_decoder depth m0 rec.

(** A field of a struct of [size] bytes at [dest], and its value in [m0]. *)
Context (size dest src : Z) (f : pb_field_t) (d s : Z).
Hypothesis Hdest : 0 < dest.
Hypothesis Hs : sound_field depth size f d s.

Abbreviation enc := (enc_value (enc_message depth)).
Abbreviation field_is m a v := (read_field (read_message depth m) m f (a + d) (a + s) = Some v).

(** The stream has moved, nothing but the field has changed, and it is [v]. *)
Definition settles (v : field_value) (st : pb_istream_t) (n : nat) (count : Z) (w : world)
    (r : bool * (pb_istream_t * Z)) (w' : world) : Prop :=
  r = (true, (consumed st n, count)) /\ within (footprint f (dest + d) (dest + s)) w w' /\
  field_is (mem w') dest v.

(** The iterator at the field. *)
Context (it : pb_field_iter_t).
Hypothesis Hit : deref_field (pos it) = Some f.
Hypothesis Hdata : pData it = dest + d.
Hypothesis Hsize : pSize it = dest + s.

Lemma data_start : 0 < dest + d.
Proof. pose proof (fits_start _ _ _ _ _ (sf_fits _ _ _ _ _ Hs)). lia. Qed.

(** The member is apart from the data. *)
Lemma member_apart n x :
  Z.of_nat n <= member_size f ->
  dest + s <= x < dest + s + Z.of_nat n -> ~ (dest + d <= x < dest + d + field_extent f).
Proof. intros Hn Hx Hx'. apply (sf_apart _ _ _ _ _ Hs (x - dest)); lia. Qed.

Lemma ready_data st bs w :
  PB_HTYPE (type f) <> PB_HTYPE_REPEATED -> ready w st bs dest size ->
  ready w st bs (dest + d) (data_size f).
Proof.
  intros Hne Hr. destruct (data_region _ _ _ _ _ dest w (sf_fits _ _ _ _ _ Hs) (ready_room _ _ _ _ _ Hr) Hne)
    as (H1 & H2 & _). by eapply ready_sub.
Qed.

Lemma data_within w w' :
  PB_HTYPE (type f) <> PB_HTYPE_REPEATED -> confined (dest + d) (data_size f) w w' ->
  within (footprint f (dest + d) (dest + s)) w w'.
Proof.
  intros Hne. apply confined_within. rewrite <- (single_extent f Hne). intros x Hx. by left.
Qed.

Lemma member_within n w w' :
  Z.of_nat n <= member_size f -> confined (dest + s) (Z.of_nat n) w w' ->
  within (footprint f (dest + d) (dest + s)) w w'.
Proof. intros Hn. apply confined_within. intros x Hx. right. lia. Qed.

Lemma within_struct w w' : within (footprint f (dest + d) (dest + s)) w w' -> confined dest size w w'.
Proof. apply within_confined. intros x. by eapply footprint_inside. Qed.

(** ** Single values *)

Lemma decode_required_settles v st rest wt count w :
  PB_HTYPE (type f) = PB_HTYPE_REQUIRED -> holds depth m0 f (src + d) v ->
  Z.of_nat (length (enc f v)) < 2 ^ 32 ->
  fresh_field (mem w) (fresh_message depth (mem w)) f (dest + d) (dest + s) ->
  ready w st (enc f v ++ rest) dest size ->
  wp (decode_static_field (S depth) rec st wt it count) w
    (settles (One v) st (length (enc f v)) count w).
Proof.
  intros Eh Hv Hl Hfr Hr. unfold decode_static_field, iter_field. rewrite Hit. apply wp_bind, wp_ret.
  cbv zeta. unfold fresh_field in Hfr. rewrite Eh in *. htype. rewrite Hdata.
  pose proof data_start. assert (Hne : PB_HTYPE (type f) <> PB_HTYPE_REPEATED) by (by rewrite Eh).
  apply wp_bind. eapply wp_mono.
  { eapply (call_decoder_yields depth m0 rec Hm0 Hrec size d s f (dest + d) v st rest (src + d) w);
      try done. by apply ready_data. }
  intros r w' (-> & Hc & Hh). apply wp_ret. split; [done|]. split; [by apply data_within|].
  unfold read_field. rewrite Eh. htype. unfold holds in Hh. by rewrite Hh.
Qed.

Lemma decode_optional_settles v st rest wt count w :
  PB_HTYPE (type f) = PB_HTYPE_OPTIONAL -> holds depth m0 f (src + d) v ->
  Z.of_nat (length (enc f v)) < 2 ^ 32 ->
  fresh_field (mem w) (fresh_message depth (mem w)) f (dest + d) (dest + s) ->
  ready w st (enc f v ++ rest) dest size ->
  wp (decode_static_field (S depth) rec st wt it count) w
    (settles (One v) st (length (enc f v)) count w).
Proof.
  intros Eh Hv Hl Hfr Hr. unfold decode_static_field, iter_field. rewrite Hit. apply wp_bind, wp_ret.
  cbv zeta. assert (Hne : PB_HTYPE (type f) <> PB_HTYPE_REPEATED) by (by rewrite Eh).
  destruct (sound_member_room _ _ _ _ _ dest w Hs (ready_room _ _ _ _ _ Hr)) as [Hrm Hsd]; [by rewrite Eh|].
  assert (Emem : member_size f = 1) by (unfold member_size; by rewrite Eh).
  pose proof (single_extent f Hne) as Ext. pose proof data_start.
  unfold fresh_field in Hfr. rewrite Eh in Hfr |- *. htype. rewrite Hdata, Hsize, size_pointer.
  rewrite (proj2 (Z.eqb_neq _ _) Hsd). cbn [negb]. rewrite Emem in Hrm. destruct Hfr as [_ Hfr].
  apply wp_bind. eapply wp_mono; [apply (wp_store_read 1); exact Hrm|]. intros [] w1 [Hc1 Hhas].
  assert (Hw1 : within (footprint f (dest + d) (dest + s)) w w1) by (by apply (member_within 1); [lia|]).
  pose proof (ready_confined _ _ _ _ _ _ Hr (within_struct _ _ Hw1)) as Hr1.
  apply wp_bind. eapply wp_mono.
  { eapply (call_decoder_yields depth m0 rec Hm0 Hrec size d s f (dest + d) v st rest (src + d) w1);
      try done; [|by apply ready_data].
    intros _. unfold fresh_value in *. destruct (Z.eqb_spec (PB_LTYPE (type f)) PB_LTYPE_SUBMESSAGE) as [El|]; [|done].
    destruct (sf_sub _ _ _ _ _ Hs El) as (id & Ep & Hst & Hreg). rewrite Ep in *.
    eapply fresh_message_same; [done|done| |exact Hfr]. destruct Hc1 as (_ & Hc1 & _).
    intros x Hx. apply Hc1. intros Hx'. apply (member_apart 1 x); lia. }
  intros r w2 (-> & Hc2 & Hh). apply wp_ret. split; [done|]. split.
  { eapply within_trans; [done|]. by apply data_within. }
  unfold read_field. rewrite Eh. htype.
  rewrite (confined_read_le _ _ _ _ _ _ Hc2), Hhas.
  2: { intros x Hx. rewrite <- Ext. apply (member_apart 1 x); lia. }
  cbn [mbind option_bind]. change (1 mod 2 ^ (8 * Z.of_nat 1) =? 0) with false. cbv iota.
  unfold holds in Hh. by rewrite Hh.
Qed.

(** The message of a union is initialised when another member was the current
    one, and the current one is fresh. *)
Lemma init_union_fresh (b : bool) w :
  PB_HTYPE (type f) <> PB_HTYPE_REPEATED -> room w dest size ->
  (b = false -> fresh_value (fresh_message depth (mem w)) f (dest + d)) ->
  wp (if (PB_LTYPE (type f) =? PB_LTYPE_SUBMESSAGE) && b then
        memset (dest + d) 0 (data_size f) ;;
        fields ← submsg_of f;
        pb_message_set_to_defaults (S depth) fields (dest + d)
      else mret tt) w
    (fun _ w' => confined (dest + d) (data_size f) w w' /\
       fresh_value (fresh_message depth (mem w')) f (dest + d)).
Proof.
  intros Hne Hr Hfr. pose proof data_start. unfold fresh_value in *.
  pose proof (fits_data _ _ _ _ _ (sf_fits _ _ _ _ _ Hs)) as Hds.
  pose proof (sound_data_room _ _ _ _ _ _ _ Hs Hr Hne) as Hrd.
  destruct (Z.eqb_spec (PB_LTYPE (type f)) PB_LTYPE_SUBMESSAGE) as [El|]; cbn [andb].
  2: { apply wp_ret. split; [apply confined_refl|done]. }
  destruct b; [|apply wp_ret; split; [apply confined_refl|by apply Hfr]].
  destruct (sf_sub _ _ _ _ _ Hs El) as (id & Ep & Hst & Hreg). rewrite Ep in *.
  apply wp_bind, wp_memset; [lia|done|]. intros w1 Hc1.
  unfold submsg_of. rewrite Ep. apply wp_bind, wp_ret.
  eapply wp_mono; [apply (set_to_defaults_fresh depth (S depth) ltac:(lia) (data_size f)); try done;
                   by eapply room_confined|].
  intros [] w2 [Hc2 H2]. split; [by eapply confined_trans|done].
Qed.

Lemma decode_oneof_settles v st rest wt count w which :
  PB_HTYPE (type f) = PB_HTYPE_ONEOF -> holds depth m0 f (src + d) v ->
  Z.of_nat (length (enc f v)) < 2 ^ 32 ->
  read_le (mem w) 4 (dest + s) = Some which -> which <> tag f ->
  ready w st (enc f v ++ rest) dest size ->
  wp (decode_static_field (S depth) rec st wt it count) w
    (settles (One v) st (length (enc f v)) count w).
Proof.
  intros Eh Hv Hl Hwhich Hnew Hr. unfold decode_static_field, iter_field. rewrite Hit. apply wp_bind, wp_ret.
  cbv zeta. assert (Hne : PB_HTYPE (type f) <> PB_HTYPE_REPEATED) by (by rewrite Eh).
  destruct (sound_member_room _ _ _ _ _ dest w Hs (ready_room _ _ _ _ _ Hr)) as [Hrm Hsd]; [by rewrite Eh|].
  assert (Emem : member_size f = 4) by (unfold member_size; by rewrite Eh).
  pose proof (single_extent f Hne) as Ext. pose proof data_start. pose proof (sf_tag _ _ _ _ _ Hs) as Htag.
  rewrite Eh. htype. rewrite Hdata, Hsize. rewrite Emem in Hrm.
  apply wp_bind. eapply wp_load_value; [done|]. rewrite (proj2 (Z.eqb_neq _ _) Hnew). cbn [negb].
  apply wp_bind. eapply wp_mono; [apply (init_union_fresh true); [done|by eapply ready_room|done]|].
  intros [] w1 [Hc1 Hfr1]. pose proof (data_within _ _ Hne Hc1) as Hw1.
  pose proof (ready_confined _ _ _ _ _ _ Hr (within_struct _ _ Hw1)) as Hr1.
  apply wp_bind. eapply wp_mono; [apply (wp_store_read 4); by eapply room_confined|]. intros [] w2 [Hc2 Hset].
  assert (Hw2 : within (footprint f (dest + d) (dest + s)) w1 w2) by (by apply (member_within 4); [lia|]).
  pose proof (ready_confined _ _ _ _ _ _ Hr1 (within_struct _ _ Hw2)) as Hr2.
  apply wp_bind. eapply wp_mono.
  { eapply (call_decoder_yields depth m0 rec Hm0 Hrec size d s f (dest + d) v st rest (src + d) w2);
      try done; [|by apply ready_data].
    intros _. unfold fresh_value in *. destruct (Z.eqb_spec (PB_LTYPE (type f)) PB_LTYPE_SUBMESSAGE) as [El|]; [|done].
    destruct (sf_sub _ _ _ _ _ Hs El) as (id & Ep & Hst & Hreg). rewrite Ep in *.
    eapply fresh_message_same; [done|done| |exact Hfr1]. destruct Hc2 as (_ & Hc2 & _).
    intros x Hx. apply Hc2. intros Hx'. apply (member_apart 4 x); lia. }
  intros r w3 (-> & Hc3 & Hh). apply wp_ret. split; [done|]. split.
  { eapply within_trans; [done|]. eapply within_trans; [done|]. by apply data_within. }
  unfold read_field. rewrite Eh. htype.
  rewrite (confined_read_le _ _ _ _ _ _ Hc3), Hset.
  2: { intros x Hx. rewrite <- Ext. apply (member_apart 4 x); lia. }
  cbn [mbind option_bind]. change (2 ^ (8 * Z.of_nat 4)) with (2 ^ 32).
  rewrite Z.mod_small, Z.eqb_refl by lia. unfold holds in Hh. by rewrite Hh.
Qed.

(** ** Arrays *)

Section Array.
Context (vs : list value).
Hypothesis Hrep : PB_HTYPE (type f) = PB_HTYPE_REPEATED.
Hypothesis Hsrc : field_is m0 src (Many vs).

Definition item_addr (a : Z) (i : nat) : Z := a + d + data_size f * Z.of_nat i.

(** The first [i] items are those of [vs]. *)
Definition items (m : gmap Z Z) (i : nat) : Prop :=
  forall j, (j < i)%nat -> read_value (read_message depth m) m f (item_addr dest j) = vs !! j.

Definition counted_items (m : gmap Z Z) (i : nat) : Prop :=
  read_le m 4 (dest + s) = Some (Z.of_nat i) /\ items m i.

Lemma source_items :
  Z.of_nat (length vs) <= array_size f /\ Z.of_nat (length vs) < 2 ^ 32 /\
  forall i v, vs !! i = Some v -> holds depth m0 f (item_addr src i) v.
Proof.
  pose proof Hsrc as H. unfold read_field in H. rewrite Hrep in H. htype.
  apply bind_Some in H as (n & Hn%(read_le_bound _ _ _ _ Hm0) & H).
  destruct (Z.ltb_spec (array_size f) n) as [|Hle]; [done|].
  apply fmap_Some in H as (l & Hl & [= <-]). apply mapM_seq_Some in Hl as [Hlen Hl].
  change (2 ^ (8 * Z.of_nat 4)) with (2 ^ 32) in Hn.
  split_and!; [lia|lia|]. intros i v Hi. pose proof (lookup_lt_Some _ _ _ Hi).
  unfold holds. rewrite <- Hi. apply Hl. lia.
Qed.

Lemma member_four : member_size f = 4.
Proof. unfold member_size. by rewrite Hrep. Qed.

Lemma item_index i : (i < length vs)%nat ->
  u32 (data_size f * Z.of_nat i) = data_size f * Z.of_nat i /\ 0 < item_addr dest i /\
  dest <= item_addr dest i /\ item_addr dest i + data_size f <= dest + size /\
  dest + d <= item_addr dest i /\ item_addr dest i + data_size f <= dest + d + field_extent f.
Proof.
  intros Hi. destruct source_items as (Hle & _). pose proof data_start.
  destruct (item_bytes _ _ _ _ _ i Hs Hrep ltac:(lia)) as (H0 & H1 & H2).
  pose proof (fits_end _ _ _ _ _ (sf_fits _ _ _ _ _ Hs)).
  pose proof (fits_start _ _ _ _ _ (sf_fits _ _ _ _ _ Hs)).
  unfold item_addr. split_and!; [apply wrap_small|..]; lia.
Qed.

(** Items are not changed by writes to the member or to later items. *)
Lemma items_same m m' i :
  (i <= length vs)%nat ->
  (forall x, dest + d <= x < item_addr dest i -> m' !! x = m !! x) ->
  items m i -> items m' i.
Proof.
  intros Hi Hm H j Hj. rewrite <- (H j Hj). eapply read_value_same; [exact Hs|apply read_message_same|].
  intros x Hx. apply Hm. destruct (item_index j ltac:(lia)) as (_ & _ & _ & _ & H1 & _).
  split; [lia|]. unfold item_addr in *. pose proof (fits_data _ _ _ _ _ (sf_fits _ _ _ _ _ Hs)). nia.
Qed.

(** One item. *)
Lemma decode_item i v st rest w :
  vs !! i = Some v -> Z.of_nat (length (enc f v)) < 2 ^ 32 -> items (mem w) i ->
  ready w st (enc f v ++ rest) dest size ->
  wp (call_decoder (S depth) rec st f (dest + d + u32 (data_size f * Z.of_nat i))) w (fun r w' =>
    r = (true, consumed st (length (enc f v))) /\ within (footprint f (dest + d) (dest + s)) w w' /\
    read_le (mem w') 4 (dest + s) = read_le (mem w) 4 (dest + s) /\ items (mem w') (S i)).
Proof.
  intros Hi Hl Hit' Hr. destruct source_items as (_ & _ & Hh). pose proof (lookup_lt_Some _ _ _ Hi) as Hlt.
  destruct (item_index i Hlt) as (-> & H0 & H1 & H2 & H3 & H4).
  eapply wp_mono.
  { eapply (call_decoder_yields depth m0 rec Hm0 Hrec size d s f (item_addr dest i) v st rest
      (item_addr src i) w); try done; [by apply Hh|]. by eapply ready_sub. }
  intros r w' (-> & Hc & Hv). split; [done|]. split; [|split].
  - eapply confined_within; [|done]. intros x Hx. left. lia.
  - apply (confined_read_le _ _ _ _ _ _ Hc). intros x Hx Hx'.
    apply (member_apart 4 x); [rewrite member_four|..]; lia.
  - intros j Hj. destruct (decide (j = i)) as [->|]; [by rewrite Hi|].
    apply (items_same (mem w) (mem w') i); [lia| |done|lia].
    destruct Hc as (_ & Hc & _). intros x Hx. apply Hc. lia.
Qed.

Lemma size_addr : (dest + s =? fixed_count_addr) = false.
Proof.
  pose proof (fits_size _ _ _ _ _ (sf_fits _ _ _ _ _ Hs)) as H. unfold size_fits in H. rewrite Hrep in H.
  htype. apply Z.eqb_neq. unfold fixed_count_addr. blia.
Qed.

Lemma wp_load_count w count v Q :
  read_le (mem w) 4 (dest + s) = Some v -> Q v w -> wp (load_size (pSize it) count) w Q.
Proof. intros Hv HQ. unfold load_size. rewrite Hsize, size_addr. by eapply wp_load_value. Qed.

Lemma wp_store_count w count i Q :
  room w dest size -> (i < length vs)%nat ->
  (forall w', within (footprint f (dest + d) (dest + s)) w w' ->
     read_le (mem w') 4 (dest + s) = Some (Z.of_nat (S i)) ->
     (forall k, (k <= length vs)%nat -> items (mem w) k -> items (mem w') k) -> Q count w') ->
  wp (store_size (pSize it) count (u32 (Z.of_nat i + 1))) w Q.
Proof.
  intros Hr Hi HQ. destruct source_items as (Hle & Hlt & _).
  destruct (sound_member_room _ _ _ _ _ dest w Hs Hr) as [Hrm _]; [by rewrite Hrep|].
  rewrite member_four in Hrm. unfold store_size. rewrite Hsize, size_addr, wrap_small by lia.
  apply wp_bind. eapply wp_mono; [apply (wp_store_read 4); exact Hrm|].
  intros [] w' [Hc Hread]. apply wp_ret, HQ.
  - apply (member_within 4); [rewrite member_four; lia|done].
  - rewrite Hread. change (2 ^ (8 * Z.of_nat 4)) with (2 ^ 32). f_equal. rewrite Z.mod_small; lia.
  - intros k Hk. apply items_same; [done|]. destruct Hc as (_ & Hc & _). intros x Hx. apply Hc. intros Hx'.
    apply (member_apart 4 x); [rewrite member_four; lia|done|].
    destruct (decide (k = 0%nat)) as [->|].
    { unfold item_addr in Hx. change (Z.of_nat 0) with 0 in Hx. lia. }
    destruct (item_index (k - 1) ltac:(lia)) as (_ & _ & _ & _ & _ & H).
    unfold item_addr in *. replace (Z.of_nat (k - 1)) with (Z.of_nat k - 1) in H by lia. lia.
Qed.

(** All the items. *)
Lemma items_field m : counted_items m (length vs) -> field_is m dest (Many vs).
Proof.
  intros [Hn Hitems]. destruct source_items as (Hle & _). unfold read_field. rewrite Hrep. htype.
  rewrite Hn. cbn [mbind option_bind]. rewrite (proj2 (Z.ltb_ge _ _)), Nat2Z.id by lia.
  unfold read_items. rewrite (proj2 (mapM_seq_Some _ _ vs)); [done|]. split; [done|].
  intros i Hi. by apply Hitems.
Qed.

(** The packed array, from item [i] on. *)
Lemma static_packed_loop_run l i fuel sub count w :
  drop i vs = l -> (i <= length vs)%nat -> (length (concat (enc f <$> l)) < fuel)%nat ->
  Z.of_nat (length (concat (enc f <$> l))) < 2 ^ 32 -> (forall v, v ∈ vs -> enc f v <> []) ->
  counted_items (mem w) i -> ready w sub (concat (enc f <$> l)) dest size ->
  wp (static_packed_loop (S depth) rec fuel f it sub count) w (fun r w' =>
    r = (true, (consumed sub (length (concat (enc f <$> l))), count)) /\
    within (footprint f (dest + d) (dest + s)) w w' /\ counted_items (mem w') (length vs)).
Proof.
  revert i fuel sub w. induction l as [|v l IH]; intros i fuel sub w Hdrop Hi Hf Hl Hne [Hn Hitems] Hr;
    (destruct fuel as [|fuel]; [lia|]); cbn [static_packed_loop fmap list_fmap concat] in *.
  - pose proof (offers_left _ _ _ (ready_offers _ _ _ _ _ Hr)) as Hleft. rewrite Hleft.
    cbn [length Z.of_nat Z.ltb Z.compare negb]. apply wp_ret. rewrite consumed_0. split; [done|].
    split; [apply within_refl|]. assert (length (drop i vs) = 0%nat) as Hlen by (by rewrite Hdrop).
    rewrite length_drop in Hlen. by replace (length vs) with i by lia.
  - assert (Hv : vs !! i = Some v) by (rewrite <- (Nat.add_0_r i), <- lookup_drop, Hdrop; done).
    pose proof (lookup_lt_Some _ _ _ Hv) as Hlt. destruct source_items as (Hle & Hlt32 & _).
    pose proof (offers_left _ _ _ (ready_offers _ _ _ _ _ Hr)) as Hleft.
    assert (Hpos : (0 < length (enc f v))%nat).
    { specialize (Hne v ltac:(by eapply list_elem_of_lookup_2)). destruct (enc f v); [done|cbn; lia]. }
    rewrite length_app in *. rewrite Hleft, (proj2 (Z.ltb_lt 0 _)) by lia. cbn [negb].
    apply wp_bind. eapply wp_load_count; [done|]. rewrite (proj2 (Z.ltb_lt _ _)) by lia. cbn [negb].
    cbv zeta. rewrite Hdata. apply wp_bind. eapply wp_mono; [eapply decode_item; [done|lia|done|exact Hr]|].
    intros r w1 (-> & Hw1 & Hsame & Hitems1). cbn [negb]. rewrite Hn in Hsame.
    pose proof (ready_confined _ _ _ _ _ _ (ready_consumed _ _ _ _ _ _ Hr) (within_struct _ _ Hw1)) as Hr1.
    apply wp_bind. eapply wp_load_count; [done|]. apply wp_bind.
    eapply wp_store_count; [by eapply ready_room|done|]. intros w2 Hw2 Hn2 Hkeep.
    pose proof (ready_confined _ _ _ _ _ _ Hr1 (within_struct _ _ Hw2)) as Hr2.
    eapply wp_mono; [apply (IH (S i)); try done; [|lia|lia|split; [done|by apply Hkeep; [lia|]]]|].
    { replace (S i) with (i + 1)%nat by lia. by rewrite <- drop_drop, Hdrop. }
    intros r w3 (-> & Hw3 & Hc3). split; [by rewrite consumed_consumed|]. split; [|done].
    eapply within_trans; [done|]. by eapply within_trans.
Qed.

Lemma decode_packed_settles st rest count w :
  PB_LTYPE (type f) <= PB_LTYPE_LAST_PACKABLE -> (forall v, v ∈ vs -> enc f v <> []) ->
  Z.of_nat (length (concat (enc f <$> vs))) < 2 ^ 32 ->
  read_le (mem w) 4 (dest + s) = Some 0 ->
  ready w st (delimited (concat (enc f <$> vs)) ++ rest) dest size ->
  wp (decode_static_field (S depth) rec st PB_WT_STRING it count) w
    (settles (Many vs) st (length (delimited (concat (enc f <$> vs)))) count w).
Proof.
  intros Hlt Hne Hl Hn Hr. unfold decode_static_field, iter_field. rewrite Hit. apply wp_bind, wp_ret.
  cbv zeta. rewrite Hrep. htype. rewrite (proj2 (Z.leb_le _ _) Hlt).
  change ((PB_WT_STRING =? PB_WT_STRING) && true) with true. cbv iota.
  destruct (substream_run _ _ _ _ _ _ Hr Hl) as (sub & parent & Emake & Hsub & Hclose).
  apply wp_bind. unfold wp at 1. rewrite Emake. cbv iota.
  pose proof (offers_left _ _ _ (ready_offers _ _ _ _ _ Hsub)) as Hleft.
  apply wp_bind. eapply wp_mono.
  { apply (static_packed_loop_run vs 0); try done; [lia|lia|]. split; [done|]. intros j Hj. lia. }
  intros r w' (-> & Hw & Hc). cbv iota.
  assert (Eleft : i_bytes_left (consumed sub (length (concat (enc f <$> vs)))) = 0) by (cbn; lia).
  rewrite Eleft. cbn [Z.eqb negb]. apply wp_bind. unfold wp at 1.
  rewrite (Hclose w' (within_struct _ _ Hw)). apply wp_ret. split; [done|]. split; [done|].
  by apply items_field.
Qed.

(** One item of an unpacked array. *)
Lemma decode_unpacked_item i v st rest wt count w :
  (wt =? PB_WT_STRING) && (PB_LTYPE (type f) <=? PB_LTYPE_LAST_PACKABLE) = false ->
  vs !! i = Some v -> Z.of_nat (length (enc f v)) < 2 ^ 32 -> counted_items (mem w) i ->
  ready w st (enc f v ++ rest) dest size ->
  wp (decode_static_field (S depth) rec st wt it count) w (fun r w' =>
    r = (true, (consumed st (length (enc f v)), count)) /\
    within (footprint f (dest + d) (dest + s)) w w' /\ counted_items (mem w') (S i)).
Proof.
  intros Hwt Hv Hl [Hn Hitems] Hr. unfold decode_static_field, iter_field. rewrite Hit. apply wp_bind, wp_ret.
  cbv zeta. rewrite Hrep. htype. rewrite Hwt.
  pose proof (lookup_lt_Some _ _ _ Hv) as Hlt. destruct source_items as (Hle & Hlt32 & _).
  apply wp_bind. eapply wp_load_count; [done|]. apply wp_bind.
  eapply wp_store_count; [by eapply ready_room|done|]. intros w1 Hw1 Hn1 Hkeep.
  pose proof (ready_confined _ _ _ _ _ _ Hr (within_struct _ _ Hw1)) as Hr1.
  rewrite (proj2 (Z.leb_gt _ _)) by lia. rewrite Hdata. apply wp_bind.
  eapply wp_mono; [eapply decode_item; [done|done|by apply Hkeep; [lia|]|exact Hr1]|].
  intros r w2 (-> & Hw2 & Hsame & Hitems2). apply wp_ret. split; [done|].
  split; [by eapply within_trans|]. split; [by rewrite Hsame|done].
Qed.

End Array.
End Fields.
