(* ===== verification/PbMessageDecode.v ===== *)
(** [pb_decode_noinit] on the encoding of a regular message: field after field,
    the rounds of the loop store the values that were encoded, and all the
    required fields have been seen at the end. *)
From S2P Require Import Prelude Memory PbTypes PbWire PbLayout PbValue.
From S2P Require Import PbRelease PbDecode PbInput PbCodec PbDecodeMsg PbRequired.
From S2P Require Import PbSafety PbFrame PbValueDecode PbFieldDecode.

#[local] Arguments read_bytes : simpl never.
#[local] Arguments Z.mul : simpl never.
#[local] Arguments Z.pow : simpl never.

(** Distinct numbers of a range are not more than the range. *)
Lemma NoDup_range (l : list Z) (m : Z) :
  NoDup l -> (forall x, x ∈ l -> 0 <= x < m) -> Z.of_nat (length l) <= Z.max 0 m.
Proof.
  intros Hl Hr. assert (H : l ⊆+ seqZ 0 m).
  { apply NoDup_submseteq; [done|]. intros x Hx. apply elem_of_seqZ. specialize (Hr x Hx). lia. }
  apply submseteq_length in H. rewrite length_seqZ in H. lia.
Qed.

Section Message.
Context {PD : PbDescriptors} {DC : DecCallbacks}.
Context (depth : nat) (m0 : gmap Z Z) (rec : pb_istream_t -> field_ref -> Z -> ires).
Hypothesis Hm0 : wf_mem m0.
Hypothesis Hrec : message_decoder depth m0 rec.
Context (size : Z) (id : nat) (src dest : Z) (vs : list field_value).
Hypothesis Hst : static_message (S depth) size id = true.
Hypothesis Hreg : regular_message (S depth) id = true.
Hypothesis Hdest : 0 < dest.
Hypothesis Hsrc : read_message (S depth) m0 id src = Some vs.

Abbreviation fs := (message_fields id).
Abbreviation n := (length (message_fields id)).
Abbreviation enc := (enc_value (enc_message depth)).
Abbreviation enc_f := (enc_field (enc_message depth)).

(** ** The fields and their values *)

Lemma round_array : descriptors id fs.
Proof. exact (message_descriptors depth size id Hst). Qed.

Lemma values_length : length vs = n.
Proof. by apply mapM_seq_Some in Hsrc as [? _]. Qed.

Lemma field_value_at k :
  (k < n)%nat -> exists f d s v, fs !! k = Some f /\ field_offsets fs k = Some (d, s) /\
    sound_field depth size f d s /\ vs !! k = Some v /\
    read_field (read_message depth m0) m0 f (src + d) (src + s) = Some v.
Proof.
  intros Hk. destruct (regular_fields _ _ _ k Hst Hreg Hk) as (f & d & s & Ef & Eo & Hs).
  apply mapM_seq_Some in Hsrc as [Hl H]. specialize (H k Hk). unfold read_field_at in H.
  rewrite Ef, Eo in H. cbn [mbind option_bind] in H.
  destruct (lookup_lt_is_Some_2 vs k ltac:(lia)) as [v Ev]. rewrite Ev in H.
  exists f, d, s, v. by split_and!.
Qed.

Lemma tags_range t : t ∈ (tag <$> fs) -> 0 <= t < 2 ^ 29.
Proof.
  intros (f & -> & Hf)%list_elem_of_fmap. apply list_elem_of_lookup in Hf as [k Ek].
  destruct (regular_fields _ _ _ k Hst Hreg (lookup_lt_Some _ _ _ Ek)) as (g & d & s & Eg & _ & Hs).
  rewrite Ek in Eg. injection Eg as <-. pose proof (sf_tag _ _ _ _ _ Hs). lia.
Qed.

Lemma few_fields : Z.of_nat n < 2 ^ 32.
Proof.
  pose proof (NoDup_range (tag <$> fs) (2 ^ 29) (regular_tags _ _ Hreg) tags_range) as H.
  rewrite length_fmap in H. lia.
Qed.

Lemma message_well_tagged : well_tagged fs.
Proof.
  split; [exact (regular_tags _ _ Hreg)|]. apply Forall_lookup_2. intros k f Ek _.
  destruct (regular_fields _ _ _ k Hst Hreg (lookup_lt_Some _ _ _ Ek)) as (g & d & s & Eg & _ & Hs).
  rewrite Ek in Eg. injection Eg as <-. apply Z.eqb_neq. eapply not_extension. by eapply sf_fits.
Qed.

Lemma same_tag j k f g :
  fs !! j = Some f -> fs !! k = Some g -> tag f = tag g -> j = k.
Proof.
  intros Ej Ek Et. apply (NoDup_lookup _ _ _ (tag f) (regular_tags _ _ Hreg));
    rewrite list_lookup_fmap, ?Ej, ?Ek; cbn; congruence.
Qed.

(** ** Runs of the loop *)

(** The loop reads the tags [tags] and is at [s'], [l'], [w']. *)
Definition runs (s : pb_istream_t) (l : noinit_locals) (w : world) (tags : list Z)
    (s' : pb_istream_t) (l' : noinit_locals) (w' : world) : Prop :=
  forall more s2 l2 w2, rounds (S depth) rec s' l' w' more s2 l2 w2 ->
    rounds (S depth) rec s l w (tags ++ more) s2 l2 w2.

Lemma runs_refl s l w : runs s l w [] s l w.
Proof. by intros more s2 l2 w2. Qed.

Lemma runs_trans s1 l1 w1 t1 s2 l2 w2 t2 s3 l3 w3 :
  runs s1 l1 w1 t1 s2 l2 w2 -> runs s2 l2 w2 t2 s3 l3 w3 -> runs s1 l1 w1 (t1 ++ t2) s3 l3 w3.
Proof. intros H1 H2 more s l w Hr. rewrite <- app_assoc. by apply H1, H2. Qed.

(** The iterator is at a field, and no array with a fixed count is decoded. *)
Definition at_loop (l : noinit_locals) : Prop :=
  (exists k, (k < n)%nat /\ field_iter id dest k = Some (nl_iter l)) /\ fixed_count_field l = None.

(** The iterator at field [k]. *)
Lemma iter_at k f d s :
  fs !! k = Some f -> field_offsets fs k = Some (d, s) ->
  exists it, field_iter id dest k = Some it /\ deref_field (pos it) = Some f /\
    pData it = dest + d /\ pSize it = dest + s.
Proof.
  intros Ef Eo. pose proof (lookup_lt_Some _ _ _ Ef) as Hk.
  destruct (field_iter_shape id fs dest round_array k Hk) as (it & E & Hp & _).
  destruct (field_iter_offsets id fs dest k it round_array ltac:(unfold NULL; lia) Hk E)
    as (d' & s' & Eo' & Ed & Es).
  rewrite Eo in Eo'. injection Eo' as <- <-.
  destruct (deref_fields id fs round_array k Hk) as (g & Eg & Efs & _).
  rewrite Ef in Efs. injection Efs as <-. exists it. by rewrite Hp.
Qed.

(** The search of the tag of field [k]. *)
Lemma find_field k f d s l w :
  fs !! k = Some f -> field_offsets fs k = Some (d, s) -> sound_field depth size f d s -> at_loop l ->
  exists it, field_iter id dest k = Some it /\
    pb_field_iter_find (nl_iter l) (tag f) w = Done (true, it) w.
Proof.
  intros Ef Eo Hs ((k0 & Hk0 & E0) & _).
  destruct (field_iter_find_run id fs dest round_array (tag f) k0 (nl_iter l) w Hk0 E0)
    as (found & k1 & it & E & Eit & Hk1 & Hm).
  assert (Hmatch : field_matches fs (tag f) k = true).
  { unfold field_matches, stops_at, has_tag. rewrite Ef, Z.eqb_refl.
    by rewrite (not_extension _ _ _ _ _ (sf_fits _ _ _ _ _ Hs)). }
  destruct found.
  - unfold field_matches, stops_at, has_tag in Hm. destruct (fs !! k1) as [g|] eqn:Eg; [|done].
    apply andb_true_iff in Hm as [Et%Z.eqb_eq _].
    assert (k1 = k) as -> by (by eapply same_tag). by exists it.
  - destruct Hm as [_ Hno]. by rewrite Hno in Hmatch.
Qed.

(** No member of the union is the current one, or [f] itself is. *)
Definition union_ready (f : pb_field_t) (s : Z) (m : gmap Z Z) : Prop :=
  is_oneof f = true -> read_le m 4 (dest + s) = Some 0.

Lemma decode_field_run f d s it st wt count w Q :
  deref_field (pos it) = Some f -> pSize it = dest + s -> sound_field depth size f d s ->
  union_ready f s (mem w) ->
  wp (decode_static_field (S depth) rec st wt it count) w (fun r w' =>
    Q (r.1, (r.2.1, r.2.2, it)) w') ->
  wp (decode_field (S depth) rec st wt it count) w Q.
Proof.
  intros Eit Es Hs Hu H. unfold decode_field, iter_field. rewrite Eit. apply wp_bind, wp_ret, wp_bind.
  apply (wp_mono _ _ (fun r w' => r = (true, (st, it)) /\ w' = w)).
  - apply wp_if; intros Eone; [|by apply wp_ret]. unfold pb_release_union_field, iter_field. rewrite Eit.
    apply wp_bind, wp_ret, wp_bind. rewrite Es. eapply wp_load_value; [by apply Hu|].
    cbn [Z.eqb]. by apply wp_ret.
  - intros r w' [-> ->]. cbn [negb]. rewrite Eit. apply wp_bind, wp_ret.
    rewrite (fits_static _ _ _ _ _ (sf_fits _ _ _ _ _ Hs)). cbv zeta.
    change (PB_ATYPE_STATIC =? PB_ATYPE_STATIC) with true. cbv iota. apply wp_bind.
    eapply wp_mono; [exact H|]. intros [ok [s' c']] w' HQ. by apply wp_ret.
Qed.

(** One round: a tag, then a field. *)
Lemma round_known k f d s wt st rest l w n2 (P : world -> Prop) :
  fs !! k = Some f -> field_offsets fs k = Some (d, s) -> sound_field depth size f d s ->
  0 <= wt < 8 -> at_loop l -> union_ready f s (mem w) ->
  ready w st (varint_bytes (tag_key wt (tag f)) ++ rest) dest size ->
  (forall it count, field_iter id dest k = Some it ->
     wp (decode_static_field (S depth) rec
           (consumed st (length (varint_bytes (tag_key wt (tag f))))) wt it count) w
       (fun r w' => r = (true, (consumed st n2, count)) /\ P w')) ->
  exists l2 w2, runs st l w [tag f] (consumed st n2) l2 w2 /\ at_loop l2 /\ P w2.
Proof.
  intros Ef Eo Hs Hwt Hl Hu Hr Hdec. pose proof (sf_tag _ _ _ _ _ Hs) as Ht.
  pose proof (ready_offers _ _ _ _ _ Hr) as Ho.
  pose proof (varint_bytes_length (tag_key wt (tag f))) as Hvl.
  destruct (find_field k f d s l w Ef Eo Hs Hl) as (it & Eit & Efind).
  destruct (iter_at k f d s Ef Eo) as (it' & Eit' & Edr & Ed & Es).
  rewrite Eit in Eit'. injection Eit' as <-. destruct Hl as [_ Hfc].
  set (l1 := nl_with_iter l it).
  assert (Hk : wp (decode_known (S depth) rec
      (consumed st (length (varint_bytes (tag_key wt (tag f))))) wt l1) w
    (fun r w' => (exists l2, r = (true, (consumed st n2, l2)) /\ nl_iter l2 = it /\
       fixed_count_field l2 = None) /\ P w')).
  { unfold decode_known, iter_field. cbn [l1 nl_with_iter nl_iter]. rewrite Edr. apply wp_bind, wp_ret, wp_bind.
    apply (wp_mono _ _ (fun r w' => r = (true, (consumed st (length (varint_bytes (tag_key wt (tag f)))), l1)) /\ w' = w)).
    - apply wp_if; [|intros _; by apply wp_ret]. intros [Hrep%Z.eqb_eq Heq%Z.eqb_eq]%andb_true_iff.
      exfalso. destruct (sound_member_room _ _ _ _ _ dest w Hs (ready_room _ _ _ _ _ Hr)) as [_ Hsd];
        [by rewrite Hrep|]. lia.
    - intros r w' [-> ->]. cbn [negb]. cbv zeta. apply wp_bind.
      eapply (decode_field_run f d s it); [done|done|done|done|].
      eapply wp_mono; [apply (Hdec it _ Eit)|]. intros r w' [-> HP]. cbn [fst snd]. apply wp_ret.
      split; [|done]. eexists. split; [done|]. cbn. by split. }
  unfold wp in Hk. destruct (decode_known _ _ _ _ _ w) as [r w2| |] eqn:Ek; try done.
  destruct Hk as [(l2 & -> & Hit2 & Hfc2) HP]. exists l2, w2. split_and!; [|split; [|done]|done].
  - intros more s2 l3 w3 Hrounds.
    apply (rounds_known (S depth) rec st l w (TagOut wt (tag f) false)
      (consumed st (length (varint_bytes (tag_key wt (tag f))))) w it w (consumed st n2) l2 w2); try done.
    + rewrite (offers_left _ _ _ Ho), length_app. lia.
    + by eapply pb_decode_tag_spec.
  - exists k. rewrite Hit2. split; [by eapply lookup_lt_Some|done].
Qed.

(** ** One field *)

Lemma wire_type_range f : 0 <= wire_type f < 8.
Proof. unfold wire_type. repeat case_match; by vm_compute. Qed.

(** The bytes of a value of a packable type are not empty. *)
Lemma packable_nonempty f d s a v :
  sound_field depth size f d s -> PB_LTYPE (type f) <= PB_LTYPE_LAST_PACKABLE ->
  holds depth m0 f a v -> enc f v <> [].
Proof.
  intros Hs Hlt Hv. unfold holds, read_value in Hv.
  assert (Hvar : forall z, varint_bytes z <> []).
  { intros z E. pose proof (varint_bytes_length z) as H. rewrite E in H. cbn in H. lia. }
  unfold PB_LTYPE_LAST_PACKABLE in Hlt.
  destruct (sound_types _ _ _ _ _ Hs) as [[E H]|[[E|[E|E]]|[[E H]|[[E H]|[E|[E|[E|E]]]]]]];
    rewrite E in Hv, Hlt; ltype; try (exfalso; by apply Hlt).
  - apply bind_Some in Hv as (b & _ & [= <-]). apply Hvar.
  - apply bind_Some in Hv as (w & _ & (b & _ & [= <-])%bind_Some). apply Hvar.
  - apply bind_Some in Hv as (w & _ & (b & _ & [= <-])%bind_Some). apply Hvar.
  - apply bind_Some in Hv as (w & _ & (b & _ & [= <-])%bind_Some). apply Hvar.
  - apply fmap_Some in Hv as (bs & Hb & ->). apply read_bytes_length in Hb.
    unfold enc_value. rewrite E. ltype. by destruct bs.
  - apply fmap_Some in Hv as (bs & Hb & ->). apply read_bytes_length in Hb.
    unfold enc_value. rewrite E. ltype. by destruct bs.
Qed.

(** The state after a field has been decoded. *)
Definition field_done (f : pb_field_t) (d s : Z) (v : field_value) (st : pb_istream_t)
    (l : noinit_locals) (w : world) : Prop :=
  exists tags l2 w2,
    runs st l w tags (consumed st (length (enc_f f v))) l2 w2 /\ at_loop l2 /\
    within (footprint f (dest + d) (dest + s)) w w2 /\
    read_field (read_message depth (mem w2)) (mem w2) f (dest + d) (dest + s) = Some v /\
    (length tags <= length (enc_f f v))%nat /\ (is_required f = true -> tag f ∈ tags) /\
    (v = Absent -> w2 = w).

(** A field that takes no bytes. *)
Lemma field_done_empty f d s v st l w :
  enc_f f v = [] -> at_loop l -> is_required f = false ->
  read_field (read_message depth (mem w)) (mem w) f (dest + d) (dest + s) = Some v ->
  field_done f d s v st l w.
Proof.
  intros E Hl Hreq Hv. exists [], l, w. rewrite E. cbn [length]. rewrite consumed_0.
  split_and!; [apply runs_refl|done|apply within_refl|done|lia|by rewrite Hreq|done].
Qed.

Lemma field_absent f d s st l w :
  sound_field depth size f d s -> at_loop l ->
  read_field (read_message depth m0) m0 f (src + d) (src + s) = Some Absent ->
  fresh_field (mem w) (fresh_message depth (mem w)) f (dest + d) (dest + s) ->
  field_done f d s Absent st l w.
Proof.
  intros Hs Hl Hv Hfr. unfold read_field in Hv. unfold fresh_field in Hfr.
  apply field_done_empty; [done|done|..]; unfold is_required, read_field;
    destruct (PB_HTYPE_cases (type f)) as [E|[E|[E|E]]]; rewrite E in *; htype; try done.
  - by apply fmap_Some in Hv as (? & _ & ?).
  - by apply fmap_Some in Hv as (? & _ & ?).
  - destruct Hfr as [Hfr _]. by rewrite Hfr.
  - apply bind_Some in Hv as (c & _ & Hv). destruct (_ <? _); [done|].
    by apply fmap_Some in Hv as (? & _ & ?).
  - rewrite Hfr. cbn [mbind option_bind]. pose proof (sf_tag _ _ _ _ _ Hs).
    by rewrite (proj2 (Z.eqb_neq 0 (tag f))) by lia.
Qed.

(** A value that was read is that of a single field. *)
Lemma source_single f d s v :
  read_field (read_message depth m0) m0 f (src + d) (src + s) = Some (One v) ->
  PB_HTYPE (type f) <> PB_HTYPE_REPEATED /\ holds depth m0 f (src + d) v.
Proof.
  intros Hv. unfold read_field in Hv.
  destruct (PB_HTYPE_cases (type f)) as [E|[E|[E|E]]]; rewrite E in *; htype.
  - by apply fmap_Some in Hv as (x & Hx & [= ->]).
  - apply bind_Some in Hv as (b & _ & Hv). destruct (b =? 0); [done|].
    by apply fmap_Some in Hv as (x & Hx & [= ->]).
  - apply bind_Some in Hv as (c & _ & Hv). destruct (_ <? _); [done|].
    by apply fmap_Some in Hv as (? & _ & ?).
  - apply bind_Some in Hv as (b & _ & Hv). destruct (b =? tag f); [|done].
    by apply fmap_Some in Hv as (x & Hx & [= ->]).
Qed.

Lemma source_many f d s xs :
  read_field (read_message depth m0) m0 f (src + d) (src + s) = Some (Many xs) ->
  PB_HTYPE (type f) = PB_HTYPE_REPEATED.
Proof.
  intros Hv. unfold read_field in Hv.
  destruct (PB_HTYPE_cases (type f)) as [E|[E|[E|E]]]; rewrite E in *; htype; [..|done|].
  - by apply fmap_Some in Hv as (? & _ & ?).
  - apply bind_Some in Hv as (b & _ & Hv). destruct (b =? 0); [done|]. by apply fmap_Some in Hv as (? & _ & ?).
  - apply bind_Some in Hv as (b & _ & Hv). destruct (_ =? _); [|done]. by apply fmap_Some in Hv as (? & _ & ?).
Qed.

Lemma fresh_union f d s w :
  fresh_field (mem w) (fresh_message depth (mem w)) f (dest + d) (dest + s) -> union_ready f s (mem w).
Proof.
  intros Hfr Hone. unfold is_oneof in Hone. apply Z.eqb_eq in Hone.
  unfold fresh_field in Hfr. by rewrite Hone in Hfr.
Qed.

Lemma field_single k f d s v st rest l w :
  fs !! k = Some f -> field_offsets fs k = Some (d, s) -> sound_field depth size f d s -> at_loop l ->
  read_field (read_message depth m0) m0 f (src + d) (src + s) = Some (One v) ->
  Z.of_nat (length (enc_f f (One v))) < 2 ^ 32 ->
  fresh_field (mem w) (fresh_message depth (mem w)) f (dest + d) (dest + s) ->
  ready w st (enc_f f (One v) ++ rest) dest size ->
  field_done f d s (One v) st l w.
Proof.
  intros Ef Eo Hs Hl Hv Hlen Hfr Hr. destruct (source_single _ _ _ _ Hv) as [Hne Hh].
  cbn [enc_field] in *. unfold enc_tagged in *. rewrite <- app_assoc in Hr. rewrite length_app in Hlen.
  pose proof (varint_bytes_length (tag_key (wire_type f) (tag f))) as Hvl.
  destruct (round_known k f d s (wire_type f) st _ l w
    (length (varint_bytes (tag_key (wire_type f) (tag f)) ++ enc f v)) (fun w' =>
      within (footprint f (dest + d) (dest + s)) w w' /\
      read_field (read_message depth (mem w')) (mem w') f (dest + d) (dest + s) = Some (One v))
    Ef Eo Hs (wire_type_range f) Hl (fresh_union _ _ _ _ Hfr) Hr) as (l2 & w2 & Hruns & Hl2 & Hw2 & Hv2).
  - intros it count Eit. destruct (iter_at k f d s Ef Eo) as (it' & Eit' & Edr & Ed & Es).
    rewrite Eit in Eit'. injection Eit' as <-. pose proof (ready_consumed _ _ _ _ _ _ Hr) as Hr1.
    assert (Hwp : wp (decode_static_field (S depth) rec
        (consumed st (length (varint_bytes (tag_key (wire_type f) (tag f))))) (wire_type f) it count) w
      (settles depth dest f d s (One v) (consumed st (length (varint_bytes (tag_key (wire_type f) (tag f)))))
         (length (enc f v)) count w)).
    { pose proof Hfr as Hfr'. unfold fresh_field in Hfr'.
      destruct (PB_HTYPE_cases (type f)) as [E|[E|[E|E]]].
      - eapply decode_required_settles; try done. lia.
      - eapply decode_optional_settles; try done. lia.
      - done.
      - rewrite E in Hfr'. htype. pose proof (sf_tag _ _ _ _ _ Hs).
        eapply (decode_oneof_settles depth m0 rec Hm0 Hrec size dest src f d s Hdest Hs it Edr Ed Es
          v _ rest _ _ w 0); try done; lia. }
    eapply wp_mono; [exact Hwp|]. intros r w' (-> & Hw & Hv'). split; [|done].
    by rewrite consumed_consumed, length_app.
  - exists [tag f], l2, w2. cbn [enc_field]. unfold enc_tagged. split_and!; try done.
    + rewrite length_app. cbn [length]. lia.
    + intros _. apply list_elem_of_here.
Qed.

(** The items of an array that is not packed, from item [i] on. *)
Lemma field_unpacked k f d s xs ys i st rest l w :
  fs !! k = Some f -> field_offsets fs k = Some (d, s) -> sound_field depth size f d s -> at_loop l ->
  PB_HTYPE (type f) = PB_HTYPE_REPEATED ->
  read_field (read_message depth m0) m0 f (src + d) (src + s) = Some (Many xs) ->
  (PB_LTYPE (type f) <=? PB_LTYPE_LAST_PACKABLE) = false ->
  drop i xs = ys -> (i <= length xs)%nat ->
  Z.of_nat (length (concat (enc_tagged (enc_message depth) f <$> ys))) < 2 ^ 32 ->
  counted_items depth dest f d s xs (mem w) i ->
  ready w st (concat (enc_tagged (enc_message depth) f <$> ys) ++ rest) dest size ->
  exists tags l2 w2,
    runs st l w tags (consumed st (length (concat (enc_tagged (enc_message depth) f <$> ys)))) l2 w2 /\
    at_loop l2 /\ within (footprint f (dest + d) (dest + s)) w w2 /\
    counted_items depth dest f d s xs (mem w2) (length xs) /\
    (length tags <= length (concat (enc_tagged (enc_message depth) f <$> ys)))%nat.
Proof.
  intros Ef Eo Hs Hl Hrep Hv Hpack. revert i st l w Hl.
  induction ys as [|y ys IH]; intros i st l w Hl Hdrop Hi Hlen Hc Hr; cbn [fmap list_fmap concat] in *.
  - exists [], l, w. cbn [length]. rewrite consumed_0.
    split_and!; [apply runs_refl|done|apply within_refl| |done].
    assert (length (drop i xs) = 0%nat) as Hz by (by rewrite Hdrop).
    rewrite length_drop in Hz. by replace (length xs) with i by lia.
  - assert (Ey : xs !! i = Some y) by (rewrite <- (Nat.add_0_r i), <- lookup_drop, Hdrop; done).
    pose proof (lookup_lt_Some _ _ _ Ey) as Hlt.
    unfold enc_tagged at 1 in Hr. rewrite <- !app_assoc in Hr. rewrite length_app in Hlen.
    assert (Htl : length (enc_tagged (enc_message depth) f y) =
      (length (varint_bytes (tag_key (wire_type f) (tag f))) + length (enc f y))%nat)
      by (unfold enc_tagged; by rewrite length_app).
    pose proof (varint_bytes_length (tag_key (wire_type f) (tag f))) as Hvl.
    destruct (round_known k f d s (wire_type f) st _ l w
      (length (varint_bytes (tag_key (wire_type f) (tag f))) + length (enc f y)) (fun w' =>
        within (footprint f (dest + d) (dest + s)) w w' /\ counted_items depth dest f d s xs (mem w') (S i))
      Ef Eo Hs (wire_type_range f) Hl ltac:(intros H; unfold is_oneof in H; by rewrite Hrep in H) Hr)
      as (l1 & w1 & Hruns & Hl1 & Hw1 & Hc1).
    { intros it count Eit. destruct (iter_at k f d s Ef Eo) as (it' & Eit' & Edr & Ed & Es).
      rewrite Eit in Eit'. injection Eit' as <-. pose proof (ready_consumed _ _ _ _ _ _ Hr) as Hr1.
      eapply wp_mono; [eapply (decode_unpacked_item depth m0 rec Hm0 Hrec size dest src f d s Hdest Hs it Edr
        Ed Es xs Hrep Hv i y _ (concat (enc_tagged (enc_message depth) f <$> ys) ++ rest) (wire_type f) count w);
        try done; [by rewrite Hpack, andb_false_r|lia]|].
      intros r w' (-> & Hw & Hc'). split; [|done]. by rewrite consumed_consumed. }
    rewrite app_assoc in Hr. rewrite <- Htl in Hruns.
    assert (Hr1 : ready w1 (consumed st (length (enc_tagged (enc_message depth) f y)))
      (concat (enc_tagged (enc_message depth) f <$> ys) ++ rest) dest size).
    { eapply ready_confined; [by apply ready_consumed|].
      eapply within_confined; [|exact Hw1]. intros x. by eapply footprint_inside. }
    destruct (IH (S i) (consumed st (length (enc_tagged (enc_message depth) f y))) l1 w1 Hl1) as (tags & l2 & w2 & Hruns2 & Hl2 & Hw2 & Hc2 & Hlt2); [|lia|lia|done|done|].
    { replace (S i) with (i + 1)%nat by lia. by rewrite <- drop_drop, Hdrop. }
    exists ([tag f] ++ tags), l2, w2. split_and!; [|done|by eapply within_trans|done|].
    + rewrite length_app, <- consumed_consumed. by eapply runs_trans.
    + rewrite !length_app. cbn [length]. lia.
Qed.

Lemma field_many k f d s xs st rest l w :
  fs !! k = Some f -> field_offsets fs k = Some (d, s) -> sound_field depth size f d s -> at_loop l ->
  read_field (read_message depth m0) m0 f (src + d) (src + s) = Some (Many xs) ->
  Z.of_nat (length (enc_f f (Many xs))) < 2 ^ 32 ->
  fresh_field (mem w) (fresh_message depth (mem w)) f (dest + d) (dest + s) ->
  ready w st (enc_f f (Many xs) ++ rest) dest size ->
  field_done f d s (Many xs) st l w.
Proof.
  intros Ef Eo Hs Hl Hv Hlen Hfr Hr.
  pose proof (source_many _ _ _ _ Hv) as Hrep.
  assert (Hreq : is_required f = false) by (unfold is_required; by rewrite Hrep).
  pose proof Hfr as Hn. unfold fresh_field in Hn. rewrite Hrep in Hn. htype.
  pose proof (fun m => items_field depth m0 Hm0 dest src f d s xs Hrep Hv m) as Hall.
  assert (Hzero : counted_items depth dest f d s xs (mem w) 0) by (split; [done|intros j Hj; lia]).
  destruct (decide (xs = [])) as [->|Hne].
  { apply field_done_empty; try done. by apply Hall. }
  assert (Eenc : enc_f f (Many xs) = if PB_LTYPE (type f) <=? PB_LTYPE_LAST_PACKABLE then
      varint_bytes (tag_key PB_WT_STRING (tag f)) ++ delimited (concat (enc f <$> xs))
    else concat (enc_tagged (enc_message depth) f <$> xs)) by (by destruct xs).
  destruct (PB_LTYPE (type f) <=? PB_LTYPE_LAST_PACKABLE) eqn:Epack; unfold field_done; rewrite Eenc in *.
  - rewrite <- app_assoc in Hr. rewrite length_app in Hlen. apply Z.leb_le in Epack.
    pose proof (delimited_length (concat (enc f <$> xs))) as Hdl.
    pose proof (varint_bytes_length (tag_key PB_WT_STRING (tag f))) as Hvl.
    destruct (round_known k f d s PB_WT_STRING st _ l w
      (length (varint_bytes (tag_key PB_WT_STRING (tag f)) ++ delimited (concat (enc f <$> xs)))) (fun w' =>
        within (footprint f (dest + d) (dest + s)) w w' /\
        read_field (read_message depth (mem w')) (mem w') f (dest + d) (dest + s) = Some (Many xs))
      Ef Eo Hs ltac:(done) Hl (fresh_union _ _ _ _ Hfr) Hr) as (l2 & w2 & Hruns & Hl2 & Hw2 & Hv2).
    + intros it count Eit. destruct (iter_at k f d s Ef Eo) as (it' & Eit' & Edr & Ed & Es).
      rewrite Eit in Eit'. injection Eit' as <-. pose proof (ready_consumed _ _ _ _ _ _ Hr) as Hr1.
      eapply wp_mono; [eapply (decode_packed_settles depth m0 rec Hm0 Hrec size dest src f d s Hdest Hs it Edr
        Ed Es xs Hrep Hv _ rest count w); try done; [|lia]|].
      * intros v (i & Ei)%list_elem_of_lookup.
        destruct (source_items depth m0 Hm0 src f d s xs Hrep Hv) as (_ & _ & Hh).
        eapply packable_nonempty; [done|done|by apply Hh].
      * intros r w' (-> & Hw & Hv'). split; [|done]. by rewrite consumed_consumed, length_app.
    + exists [tag f], l2, w2. split_and!; try done; [|by rewrite Hreq]. rewrite length_app. cbn [length]. lia.
  - destruct (field_unpacked k f d s xs xs 0 st rest l w) as (tags & l2 & w2 & Hruns & Hl2 & Hw2 & Hc2 & Hlt);
      try done; [lia|].
    exists tags, l2, w2. split_and!; try done; [by apply Hall|by rewrite Hreq].
Qed.

Lemma field_run k f d s v st rest l w :
  fs !! k = Some f -> field_offsets fs k = Some (d, s) -> sound_field depth size f d s -> at_loop l ->
  read_field (read_message depth m0) m0 f (src + d) (src + s) = Some v ->
  Z.of_nat (length (enc_f f v)) < 2 ^ 32 ->
  fresh_field (mem w) (fresh_message depth (mem w)) f (dest + d) (dest + s) ->
  ready w st (enc_f f v ++ rest) dest size ->
  field_done f d s v st l w.
Proof.
  intros Ef Eo Hs Hl Hv Hlen Hfr Hr. destruct v as [|v|xs];
    [by apply field_absent|by eapply field_single|by eapply field_many].
Qed.

(** ** All the fields *)

(** Field [k] has its value; field [k] is still to be decoded. *)
Definition settled (m : gmap Z Z) (k : nat) : Prop :=
  read_field_at (read_message depth m) m id dest k = vs !! k.

Definition ahead (m : gmap Z Z) (k : nat) : Prop :=
  fresh_field_at m (fresh_message depth m) id dest k \/ (vs !! k = Some Absent /\ settled m k).

Lemma settled_at m k f d s v :
  fs !! k = Some f -> field_offsets fs k = Some (d, s) -> vs !! k = Some v ->
  settled m k <-> read_field (read_message depth m) m f (dest + d) (dest + s) = Some v.
Proof. intros Ef Eo Ev. unfold settled, read_field_at. by rewrite Ef, Eo, Ev. Qed.

Lemma fresh_at m k f d s :
  fs !! k = Some f -> field_offsets fs k = Some (d, s) ->
  fresh_field_at m (fresh_message depth m) id dest k <->
  fresh_field m (fresh_message depth m) f (dest + d) (dest + s).
Proof. intros Ef Eo. unfold fresh_field_at. by rewrite Ef, Eo. Qed.

(** The current member of a union. *)
Lemma union_member (sub : nat -> Z -> option (list field_value)) m f d s v :
  is_oneof f = true -> read_field sub m f d s = Some (One v) -> read_le m 4 s = Some (tag f).
Proof.
  intros Hone%Z.eqb_eq Hv. unfold read_field in Hv. rewrite Hone in Hv. htype.
  apply bind_Some in Hv as (x & Hx & Hv). rewrite Hx.
  destruct (Z.eqb_spec x (tag f)) as [Ex|]; [by rewrite Ex|done].
Qed.

Lemma union_other (sub : nat -> Z -> option (list field_value)) m f d s which :
  is_oneof f = true -> read_le m 4 s = Some which -> which <> tag f -> read_field sub m f d s = Some Absent.
Proof.
  intros Hone%Z.eqb_eq Hw Hne. unfold read_field. rewrite Hone. htype. rewrite Hw.
  cbn [mbind option_bind]. by rewrite (proj2 (Z.eqb_neq _ _) Hne).
Qed.

(** Decoding field [k] does not disturb field [j]. *)
Lemma other_field j k f d s v w w2 :
  j <> k -> (j < n)%nat -> fs !! k = Some f -> field_offsets fs k = Some (d, s) -> vs !! k = Some v ->
  read_field (read_message depth m0) m0 f (src + d) (src + s) = Some v ->
  within (footprint f (dest + d) (dest + s)) w w2 ->
  read_field (read_message depth (mem w2)) (mem w2) f (dest + d) (dest + s) = Some v ->
  (v = Absent -> w2 = w) ->
  (settled (mem w) j -> settled (mem w2) j) /\ (ahead (mem w) j -> ahead (mem w2) j).
Proof.
  intros Hne Hj Ef Eo Ev Hv (_ & Hw & _) Hv2 Habs.
  destruct (field_value_at j Hj) as (g & e & t & u & Eg & Ee & Hg & Eu & Hu).
  assert (Hkeep : (settled (mem w) j -> settled (mem w2) j) /\
    (fresh_field_at (mem w) (fresh_message depth (mem w)) id dest j -> ahead (mem w2) j)).
  2: { destruct Hkeep as [Hk1 Hk2]. split; [done|]. intros [Hfr|[Ha Hset]]; [by apply Hk2|].
       right. split; [done|by apply Hk1]. }
  destruct (regular_pair _ _ _ _ _ _ _ _ _ _ Hreg Hne Eg Ee Ef Eo) as [(Hog & Hof & ->)|Hap].
  - destruct v as [|v|xs].
    + rewrite (Habs eq_refl). split; [done|by left].
    + pose proof (union_member _ _ _ _ _ _ Hof Hv) as Hwhich.
      assert (Htags : tag f <> tag g) by (intros Et; apply Hne; by eapply same_tag).
      rewrite (union_other _ _ _ _ _ _ Hog Hwhich Htags) in Hu. injection Hu as <-.
      assert (Hset : settled (mem w2) j).
      { apply (settled_at _ _ _ _ _ _ Eg Ee Eu), (union_other _ _ _ _ _ (tag f)); try done.
        by eapply union_member. }
      split; [done|by right].
    + exfalso. unfold is_oneof in Hof. apply Z.eqb_eq in Hof. unfold read_field in Hv.
      rewrite Hof in Hv. htype. apply bind_Some in Hv as (which & _ & Hv).
      destruct (_ =? _); [|done]. by apply fmap_Some in Hv as (? & _ & ?).
  - assert (Hsame : forall x, footprint g (dest + e) (dest + t) x -> mem w2 !! x = mem w !! x).
    { intros x Hx. apply Hw. intros Hx'. apply (Hap (x - dest)); unfold footprint in *; lia. }
    rewrite !(settled_at _ _ _ _ _ _ Eg Ee Eu). unfold ahead. rewrite !(fresh_at _ _ _ _ _ Eg Ee). split.
    + intros <-. eapply read_field_same; [exact Hg|apply read_message_same|done].
    + intros Hfr. left. eapply fresh_field_same; [exact Hg| |exact Hsame|exact Hfr].
      intros i z a. apply fresh_message_same.
Qed.

Abbreviation encs := (zip_with (enc_field (enc_message depth)) fs vs).

Lemma fields_run r k st l w :
  (n - k = r)%nat -> (k <= n)%nat -> at_loop l -> (forall j, (j < k)%nat -> settled (mem w) j) ->
  (forall j, (k <= j < n)%nat -> ahead (mem w) j) ->
  Z.of_nat (length (concat (drop k encs))) < 2 ^ 32 -> ready w st (concat (drop k encs)) dest size ->
  exists tags l2 w2,
    runs st l w tags (consumed st (length (concat (drop k encs)))) l2 w2 /\ at_loop l2 /\
    confined dest size w w2 /\ (forall j, (j < n)%nat -> settled (mem w2) j) /\
    (length tags <= length (concat (drop k encs)))%nat /\
    (forall j f, (k <= j)%nat -> fs !! j = Some f -> is_required f = true -> tag f ∈ tags).
Proof.
  revert k st l w. induction r as [|r IH]; intros k st l w Hr Hk Hl Hdone Hahead Hlen Hready.
  - assert (k = n) as -> by lia. rewrite drop_ge in * by (rewrite length_zip_with; lia).
    exists [], l, w. cbn [concat length]. rewrite consumed_0.
    split_and!; [apply runs_refl|done|apply confined_refl|done|done|].
    intros j f Hj Ef. apply lookup_lt_Some in Ef. lia.
  - destruct (field_value_at k ltac:(lia)) as (f & d & s & v & Ef & Eo & Hs & Ev & Hv).
    assert (Ek : encs !! k = Some (enc_f f v)) by (by rewrite lookup_zip_with, Ef; cbn; rewrite Ev).
    rewrite (drop_S _ _ _ Ek) in *. cbn [concat] in *. rewrite length_app in Hlen.
    assert (Hfield : field_done f d s v st l w).
    { destruct (Hahead k ltac:(lia)) as [Hfr|[Ha Hset]].
      - eapply field_run; try done; [lia|by rewrite <- fresh_at].
      - rewrite Ev in Ha. injection Ha as ->. apply (settled_at _ _ _ _ _ _ Ef Eo Ev) in Hset.
        apply field_done_empty; [done|done| |done]. unfold is_required. unfold read_field in Hset.
        destruct (PB_HTYPE (type f) =? PB_HTYPE_REQUIRED); [|done].
        by apply fmap_Some in Hset as (? & _ & ?). }
    destruct Hfield as (tags1 & l1 & w1 & Hruns1 & Hl1 & Hw1 & Hv1 & Ht1 & Hreq1 & Habs1).
    assert (Hc1 : confined dest size w w1).
    { eapply within_confined; [|exact Hw1]. intros x. by eapply footprint_inside. }
    pose proof (fun j Hne Hj => other_field j k f d s v w w1 Hne Hj Ef Eo Ev Hv Hw1 Hv1 Habs1) as Hother.
    destruct (IH (S k) (consumed st (length (enc_f f v))) l1 w1)
      as (tags2 & l2 & w2 & Hruns2 & Hl2 & Hc2 & Hset2 & Ht2 & Hreq2); [lia|lia|done|..].
    + intros j Hj. destruct (decide (j = k)) as [->|Hne]; [by apply (settled_at _ _ _ _ _ _ Ef Eo Ev)|].
      apply Hother; [done|lia|]. apply Hdone. lia.
    + intros j Hj. apply Hother; [lia|lia|]. apply Hahead. lia.
    + lia.
    + eapply ready_confined; [by apply ready_consumed|done].
    + exists (tags1 ++ tags2), l2, w2. rewrite !length_app, <- consumed_consumed.
      split_and!; [by eapply runs_trans|done|by eapply confined_trans|done|lia|].
      intros j g Hj Eg Hreq. apply elem_of_app. destruct (decide (j = k)) as [->|Hne].
      * left. rewrite Ef in Eg. injection Eg as <-. by apply Hreq1.
      * right. apply (Hreq2 j); [lia|done|done].
Qed.

(** ** The message *)

Lemma decode_noinit_body_run st w :
  Z.of_nat (length (enc_message (S depth) id vs)) < 2 ^ 32 ->
  ready w st (enc_message (S depth) id vs) dest size -> fresh_message (S depth) (mem w) id dest ->
  wp (decode_noinit_body (S depth) rec st (id, 0%nat) dest) w (fun r w' =>
    r = (true, consumed st (length (enc_message (S depth) id vs))) /\ confined dest size w w' /\
    read_message (S depth) (mem w') id dest = Some vs).
Proof.
  cbn [enc_message]. unfold enc_fields. intros Hlen Hr Hfr. pose proof round_array as Harr.
  unfold decode_noinit_body. destruct (begin_run id fs dest Harr) as (it & E & _). rewrite E.
  apply wp_bind, wp_ret. set (l0 := NoinitLocals it [0; 0] 0 None 0).
  assert (Eit : field_iter id dest 0 = Some it) by (cbn [field_iter]; by rewrite E).
  pose proof (descriptors_nonempty id fs Harr) as Hn0.
  assert (Hl0 : at_loop l0) by (split; [by exists 0%nat|done]).
  destruct (fields_run n 0 st l0 w) as (tags & l2 & w2 & Hruns & Hl2 & Hc2 & Hset & Ht & Hreq);
    [lia|lia|done|intros j Hj; lia|intros j Hj; left; apply Hfr; lia|done|done|].
  rewrite drop_0 in *. specialize (Hruns [] (consumed st (length (concat encs))) l2 w2).
  pose proof (offers_left _ _ _ (ready_offers _ _ _ _ _ Hr)) as Hleft.
  pose proof Hruns as Hrounds. rewrite app_nil_r in Hrounds.
  specialize (Hrounds ltac:(apply rounds_end; cbn; lia)).
  assert (Hp : placed id fs dest it) by (exists 0%nat; split; [done|by apply located_plain]).
  destruct (rounds_recorded (S depth) rec id fs dest Harr few_fields message_well_tagged
    _ _ _ _ _ _ _ [] Hrounds Hp (recorded_nil fs)) as [Hp2 Hrec2].
  assert (Hall : all_present fs tags = true).
  { apply all_present_spec. intros i f Hi Ef. apply filter_lookup in Ef as (j & Ej & Hf & _).
    apply (Hreq j); [lia|done|done]. }
  apply wp_bind. unfold wp at 1. rewrite (rounds_loop _ _ _ _ _ _ _ _ _ _ Hrounds) by lia.
  cbn [negb]. destruct Hl2 as [_ Hfc]. unfold fixed_count_wrong. rewrite Hfc. apply wp_bind, wp_ret.
  cbv iota. unfold wp. rewrite (check_required_fields_run id fs dest Harr few_fields _ l2 tags w2 Hp2 Hrec2), Hall.
  split_and!; [done|done|]. cbn [read_message]. apply mapM_seq_Some. split; [apply values_length|].
  intros k Hk. by apply Hset.
Qed.

End Message.

(** Every level from the one below. *)
Lemma pb_decode_noinit_run {PD : PbDescriptors} {DC : DecCallbacks} m0 depth :
  wf_mem m0 -> message_decoder depth m0 (pb_decode_noinit (S depth)).
Proof.
  intros Hm0. induction depth as [|depth IH]; intros size id src vs dest s w Hst Hreg Hsrc Hlen Hdest Hr Hfr;
    [done|].
  by apply (decode_noinit_body_run depth m0 (pb_decode_noinit (S depth)) Hm0 IH size id src dest vs).
Qed.
