(* ===== verification/PbRoundtrip.v ===== *)
(** The encoder and the decoder of nanopb against each other, for whole
    messages: the encoder writes the encoding of the value that the struct
    holds, and decoding it gives a struct that holds the same value. *)
From S2P Require Import Prelude Memory PbTypes PbWire PbLayout PbValue.
From S2P Require Import PbEncode PbStreams PbEncodeSpec PbRelease PbDecode PbInput PbCodec PbDecodeMsg.
From S2P Require Import PbSafety PbFrame PbValueDecode PbFieldDecode PbMessageDecode.

#[local] Arguments read_bytes : simpl never.
#[local] Arguments Z.mul : simpl never.
#[local] Arguments Z.pow : simpl never.

(** ** The encoding of values *)

Lemma spec_chars_string fuel n m a cs :
  read_string n m a = Some cs -> (length cs < fuel)%nat ->
  spec_chars fuel m a (Z.of_nat n) = Some cs.
Proof.
  revert n a cs. induction fuel as [|fuel IH]; intros n a cs H Hf; [lia|].
  destruct n as [|n]; [done|]. cbn [read_string spec_chars] in *.
  rewrite (proj2 (Z.leb_gt _ _)) by lia. apply bind_Some in H as (c & Hc & H). rewrite Hc.
  cbn [mbind option_bind]. destruct (c =? 0); [done|]. apply bind_Some in H as (cs' & H & [= <-]).
  replace (Z.of_nat (S n) - 1) with (Z.of_nat n) by lia.
  rewrite (IH n (a + 1) cs'); [done|done|cbn in Hf; lia].
Qed.

(** A string that is read takes up memory. *)
Lemma read_string_size n m a cs : read_string n m a = Some cs -> (length cs < S (size m))%nat.
Proof.
  intros (_ & _ & Hr & _)%read_string_spec. pose proof (mapped_size m a (length cs)) as H.
  specialize (H (read_bytes_is_mapped _ _ _ ltac:(eauto))). lia.
Qed.

Lemma spec_items_map {A} (item : Z -> option (list Z)) step (g : A -> list Z) (xs : list A) p :
  (forall i x, xs !! i = Some x -> item (p + step * Z.of_nat i) = Some (g x)) ->
  spec_items item step (length xs) p = Some (concat (g <$> xs)).
Proof.
  revert p. induction xs as [|x xs IH]; intros p H; [done|]. cbn [length spec_items fmap list_fmap concat].
  pose proof (H 0%nat x eq_refl) as H0. rewrite Z.mul_0_r, Z.add_0_r in H0. rewrite H0.
  cbn [mbind option_bind]. rewrite IH; [done|]. intros i y Hi.
  rewrite <- (H (S i) y Hi). f_equal. lia.
Qed.

Section Encoding.
Context {PD : PbDescriptors} {EC : EncCallbacks} {ES : EncCallbackSpec}.

(** ** One level of messages *)

Section Level.
Context (depth : nat) (m : gmap Z Z).
Hypothesis Hm : wf_mem m.
Context (sub : field_ref -> Z -> option (list Z)).

(** [sub] encodes the messages one level down. *)
Hypothesis Hsub : forall size id a vs,
  static_message depth size id = true -> regular_message depth id = true -> 0 < a ->
  read_message depth m id a = Some vs ->
  Z.of_nat (length (enc_message depth id vs)) < 2 ^ 64 ->
  sub (id, 0%nat) a = Some (enc_message depth id vs).

Abbreviation enc := (enc_value (enc_message depth)).

Lemma spec_value_enc size f d s a v :
  sound_field depth size f d s -> 0 < a -> read_value (read_message depth m) m f a = Some v ->
  Z.of_nat (length (enc f v)) < 2 ^ 64 -> spec_value m sub f a = Some (enc f v).
Proof.
  intros Hs Ha Hv Hlen. pose proof (sf_fits _ _ _ _ _ Hs) as Hfit.
  pose proof (fits_static _ _ _ _ _ Hfit) as Hst. pose proof (fits_data _ _ _ _ _ Hfit) as Hd.
  unfold spec_value, read_value, enc_value in *. change int_width with value_width.
  destruct (sound_types _ _ _ _ _ Hs) as [[E H]|[[E|[E|E]]|[[E H]|[[E H]|[E|[E|[E|E]]]]]]]; rewrite E in *; ltype.
  - apply bind_Some in Hv as (b & -> & [= <-]). cbn [mbind option_bind]. by destruct (b =? 0).
  - apply bind_Some in Hv as (n & -> & (b & Hb & [= <-])%bind_Some). cbn [mbind option_bind]. by rewrite Hb.
  - apply bind_Some in Hv as (n & En & (b & Hb & [= <-])%bind_Some). rewrite En. cbn [mbind option_bind].
    rewrite Hb. cbn [mbind option_bind]. apply (read_le_bound _ _ _ _ Hm) in Hb.
    destruct (value_width_size _ _ En) as [_ Hc]. rewrite wrap_small; [done|].
    destruct Hc as [-> |[-> |[-> | ->]]]; cbn in Hb; lia.
  - apply bind_Some in Hv as (n & -> & (b & Hb & [= <-])%bind_Some). cbn [mbind option_bind]. by rewrite Hb.
  - by apply fmap_Some in Hv as (bs & -> & ->).
  - by apply fmap_Some in Hv as (bs & -> & ->).
  - pose proof (sf_bytes _ _ _ _ _ Hs E). rewrite (proj2 (Z.eqb_neq a NULL)) by (unfold NULL; lia).
    apply bind_Some in Hv as (n & -> & Hv). cbn [mbind option_bind]. rewrite Hst, wrap_small by lia.
    destruct (data_size f - 4 <? n); [done|]. change (PB_ATYPE_STATIC =? PB_ATYPE_STATIC) with true.
    cbn [andb]. by apply fmap_Some in Hv as (bs & -> & ->).
  - rewrite (proj2 (Z.eqb_neq a NULL)) by (unfold NULL; lia).
    rewrite Hst. change (PB_ATYPE_STATIC =? PB_ATYPE_POINTER) with false. cbv iota.
    apply fmap_Some in Hv as (cs & Hcs & ->).
    rewrite <- (Z2Nat.id (data_size f)) by lia.
    by rewrite (spec_chars_string _ _ _ _ _ Hcs (read_string_size _ _ _ _ Hcs)).
  - destruct (sf_sub _ _ _ _ _ Hs E) as (id & Ep & Hsm & Hsr). rewrite Ep in *.
    apply fmap_Some in Hv as (vs & Hvs & ->). cbv beta iota in Hlen |- *.
    pose proof (delimited_length (enc_message depth id vs)) as Hdl.
    rewrite (Hsub (data_size f) id a vs) by (done || lia). cbn [mbind option_bind].
    by rewrite (proj2 (Z.ltb_lt _ _)) by lia.
  - by apply fmap_Some in Hv as (bs & -> & ->).
Qed.

Lemma spec_tag_enc size f d s :
  sound_field depth size f d s -> spec_tag f = Some (varint_bytes (tag_key (wire_type f) (tag f))).
Proof.
  intros Hs. unfold spec_tag, spec_wire_type, wire_type.
  destruct (sound_types _ _ _ _ _ Hs) as [[E H]|[[E|[E|E]]|[[E H]|[[E H]|[E|[E|[E|E]]]]]]]; by rewrite E.
Qed.

Lemma spec_tagged_enc size f d s a v :
  sound_field depth size f d s -> 0 < a -> read_value (read_message depth m) m f a = Some v ->
  Z.of_nat (length (enc_tagged (enc_message depth) f v)) < 2 ^ 64 ->
  spec_tagged m sub f a = Some (enc_tagged (enc_message depth) f v).
Proof.
  intros Hs Ha Hv Hlen. unfold spec_tagged, enc_tagged in *. rewrite length_app in Hlen.
  rewrite (spec_tag_enc size f d s Hs). cbn [mbind option_bind].
  by rewrite (spec_value_enc size f d s a v) by (done || lia).
Qed.

Lemma concat_lookup_length {A} (l : list (list A)) i x :
  l !! i = Some x -> (length x <= length (concat l))%nat.
Proof.
  revert i. induction l as [|y l IH]; intros [|i] H; try done; cbn [concat]; rewrite length_app.
  - injection H as ->. lia.
  - apply IH in H. lia.
Qed.

(** The items of an array. *)
Lemma array_items size f d s a xs :
  sound_field depth size f d s -> PB_HTYPE (type f) = PB_HTYPE_REPEATED -> 0 < a ->
  read_items (read_message depth m) m f (a + d) (length xs) = Some xs ->
  forall i x, xs !! i = Some x ->
    0 < a + d + data_size f * Z.of_nat i /\
    read_value (read_message depth m) m f (a + d + data_size f * Z.of_nat i) = Some x.
Proof.
  intros Hs Hrep Ha Hx i x Hi. pose proof (sf_fits _ _ _ _ _ Hs) as Hfit.
  pose proof (fits_start _ _ _ _ _ Hfit). pose proof (fits_data _ _ _ _ _ Hfit).
  apply mapM_seq_Some in Hx as [_ Hx]. pose proof (lookup_lt_Some _ _ _ Hi).
  split; [nia|]. rewrite <- Hi. by apply Hx.
Qed.

Lemma spec_array_enc size f d s a xs :
  sound_field depth size f d s -> PB_HTYPE (type f) = PB_HTYPE_REPEATED -> 0 < a ->
  Z.of_nat (length xs) <= array_size f ->
  read_items (read_message depth m) m f (a + d) (length xs) = Some xs ->
  Z.of_nat (length (enc_field (enc_message depth) f (Many xs))) < 2 ^ 64 ->
  spec_array m sub f (a + d) (Z.of_nat (length xs)) = Some (enc_field (enc_message depth) f (Many xs)).
Proof.
  intros Hs Hrep Ha Hle Hx Hlen. pose proof (array_items _ _ _ _ _ _ Hs Hrep Ha Hx) as Hitems.
  pose proof (fits_static _ _ _ _ _ (sf_fits _ _ _ _ _ Hs)) as Hst. unfold is_static in Hst.
  unfold spec_array. rewrite Hst, (proj2 (Z.ltb_ge _ _)), andb_false_r, Nat2Z.id by lia.
  destruct (decide (xs = [])) as [->|Hne]; [done|].
  rewrite (proj2 (Z.eqb_neq _ _)) by (destruct xs; [done|cbn; lia]).
  assert (Eenc : enc_field (enc_message depth) f (Many xs) = if PB_LTYPE (type f) <=? PB_LTYPE_LAST_PACKABLE then
      varint_bytes (tag_key PB_WT_STRING (tag f)) ++ delimited (concat (enc f <$> xs))
    else concat (enc_tagged (enc_message depth) f <$> xs)) by (by destruct xs).
  rewrite Eenc in *. destruct (PB_LTYPE (type f) <=? PB_LTYPE_LAST_PACKABLE).
  - rewrite length_app in Hlen. pose proof (delimited_length (concat (enc f <$> xs))) as Hdl.
    rewrite (spec_items_map _ _ (enc f)).
    + cbn [mbind option_bind]. by rewrite (proj2 (Z.ltb_lt _ _)) by lia.
    + intros i x Hi. destruct (Hitems i x Hi) as [Hp Hv]. apply (spec_value_enc size f d s); try done.
      pose proof (concat_lookup_length (enc f <$> xs) i (enc f x)) as Hcl.
      rewrite list_lookup_fmap, Hi in Hcl. specialize (Hcl eq_refl). lia.
  - apply spec_items_map. intros i x Hi. destruct (Hitems i x Hi) as [Hp Hv].
    pose proof (concat_lookup_length (enc_tagged (enc_message depth) f <$> xs) i (enc_tagged (enc_message depth) f x)) as Hcl.
    rewrite list_lookup_fmap, Hi in Hcl. specialize (Hcl eq_refl).
    pose proof (spec_tagged_enc size f d s _ x Hs Hp Hv ltac:(lia)) as E.
    unfold spec_unpacked_item. rewrite Hst. exact E.
Qed.

Lemma spec_field_enc k size f d s a v :
  sound_field depth size f d s -> 0 < a ->
  read_field (read_message depth m) m f (a + d) (a + s) = Some v ->
  Z.of_nat (length (enc_field (enc_message depth) f v)) < 2 ^ 64 ->
  spec_field m k sub f (a + d) = Some (enc_field (enc_message depth) f v).
Proof.
  intros Hs Ha Hv Hlen. pose proof (sf_fits _ _ _ _ _ Hs) as Hfit.
  pose proof (fits_static _ _ _ _ _ Hfit) as Hst. unfold is_static in Hst.
  pose proof (fits_start _ _ _ _ _ Hfit) as Hd.
  unfold spec_field, spec_basic. rewrite Hst.
  change (PB_ATYPE_STATIC =? PB_ATYPE_CALLBACK) with false.
  change (PB_ATYPE_STATIC =? PB_ATYPE_POINTER) with false.
  change ((PB_ATYPE_STATIC =? PB_ATYPE_STATIC) || false) with true. cbv iota.
  cbn [mbind option_bind]. cbv zeta. unfold read_field in Hv.
  assert (Hoff : PB_HTYPE (type f) <> PB_HTYPE_REQUIRED ->
    (size_offset f =? 0) = false /\ a + d + size_offset f = a + s).
  { intros Hne. destruct (sf_member _ _ _ _ _ Hs) as [?|[? ->]]; [done|].
    split; [by apply Z.eqb_neq|lia]. }
  destruct (PB_HTYPE_cases (type f)) as [E|[E|[E|E]]]; rewrite E in *; htype.
  - rewrite (proj2 (Z.eqb_neq (a + d) NULL)) by (unfold NULL; lia).
    apply fmap_Some in Hv as (x & Hx & ->). apply (spec_tagged_enc size f d s); [done|lia|done|done].
  - destruct (Hoff ltac:(done)) as [E0 Es]. unfold spec_has. rewrite E0, Es. cbn [negb].
    apply bind_Some in Hv as (b & -> & Hv). cbn [mbind option_bind].
    destruct (b =? 0); cbn [negb]; [by injection Hv as <-|].
    apply fmap_Some in Hv as (x & Hx & ->). apply (spec_tagged_enc size f d s); [done|lia|done|done].
  - destruct (Hoff ltac:(done)) as [E0 Es]. rewrite E0, Es. cbn [negb].
    apply bind_Some in Hv as (n & Hn & Hv). rewrite Hn. cbn [mbind option_bind].
    apply (read_le_bound _ _ _ _ Hm) in Hn. destruct (Z.ltb_spec (array_size f) n); [done|].
    apply fmap_Some in Hv as (xs & Hxs & ->).
    assert (En : length xs = Z.to_nat n) by (by apply mapM_seq_Some in Hxs as [? _]).
    replace n with (Z.of_nat (length xs)) by lia. rewrite <- En in Hxs.
    apply (spec_array_enc size f d s); try done. lia.
  - destruct (Hoff ltac:(done)) as [E0 Es]. rewrite E0, Es.
    apply bind_Some in Hv as (which & -> & Hv). cbn [mbind option_bind].
    destruct (which =? tag f); [|by injection Hv as <-].
    apply fmap_Some in Hv as (x & Hx & ->). apply (spec_tagged_enc size f d s); [done|lia|done|done].
Qed.

(** *** Encodings are bytes *)

Lemma delimited_byte bs : Z.of_nat (length bs) < 2 ^ 64 -> Forall is_byte bs -> Forall is_byte (delimited bs).
Proof. intros Hl Hb. apply Forall_app. split; [apply varint_bytes_byte; lia|done]. Qed.

Hypothesis Hbytes : forall size id a vs,
  static_message depth size id = true -> regular_message depth id = true ->
  read_message depth m id a = Some vs ->
  Z.of_nat (length (enc_message depth id vs)) < 2 ^ 64 -> Forall is_byte (enc_message depth id vs).

Lemma enc_value_byte size f d s a v :
  sound_field depth size f d s -> read_value (read_message depth m) m f a = Some v ->
  Z.of_nat (length (enc f v)) < 2 ^ 64 -> Forall is_byte (enc f v).
Proof.
  intros Hs Hv Hlen. unfold read_value, enc_value in *.
  assert (Hvar : forall z, Forall is_byte (varint_bytes (u64 z)))
    by (intros z; apply varint_bytes_byte, wrap_bounds; lia).
  destruct (sound_types _ _ _ _ _ Hs) as [[E H]|[[E|[E|E]]|[[E H]|[[E H]|[E|[E|[E|E]]]]]]]; rewrite E in *; ltype.
  - apply bind_Some in Hv as (b & _ & [= <-]). apply Hvar.
  - apply bind_Some in Hv as (n & _ & (b & _ & [= <-])%bind_Some). apply Hvar.
  - apply bind_Some in Hv as (n & _ & (b & _ & [= <-])%bind_Some). apply Hvar.
  - apply bind_Some in Hv as (n & En & (b & _ & [= <-])%bind_Some).
    apply varint_bytes_byte, zigzag_bounds. by apply signed_range with f.
  - apply fmap_Some in Hv as (bs & Hb & ->). by eapply read_bytes_byte.
  - apply fmap_Some in Hv as (bs & Hb & ->). by eapply read_bytes_byte.
  - apply bind_Some in Hv as (n & _ & Hv). destruct (_ <? n); [done|].
    apply fmap_Some in Hv as (bs & Hb & ->). pose proof (delimited_length bs).
    apply delimited_byte; [lia|by eapply read_bytes_byte].
  - apply fmap_Some in Hv as (cs & (_ & _ & Hb & _)%read_string_spec & ->).
    pose proof (delimited_length cs). apply delimited_byte; [lia|by eapply read_bytes_byte].
  - destruct (sf_sub _ _ _ _ _ Hs E) as (id & Ep & Hsm & Hsr). rewrite Ep in *.
    apply fmap_Some in Hv as (vs & Hvs & ->). cbv beta iota in Hlen |- *.
    pose proof (delimited_length (enc_message depth id vs)) as Hdl.
    apply delimited_byte; [lia|]. apply (Hbytes (data_size f) id a); try done. lia.
  - apply fmap_Some in Hv as (bs & Hb & ->). pose proof (delimited_length bs).
    apply delimited_byte; [lia|by eapply read_bytes_byte].
Qed.

Lemma enc_tagged_byte size f d s a v :
  sound_field depth size f d s -> read_value (read_message depth m) m f a = Some v ->
  Z.of_nat (length (enc_tagged (enc_message depth) f v)) < 2 ^ 64 ->
  Forall is_byte (enc_tagged (enc_message depth) f v).
Proof.
  intros Hs Hv Hlen. unfold enc_tagged in *. rewrite length_app in Hlen. apply Forall_app. split.
  - pose proof (sf_tag _ _ _ _ _ Hs). apply varint_bytes_byte, tag_key_bounds; [lia|apply wire_type_range].
  - eapply enc_value_byte; [done|done|lia].
Qed.

Lemma concat_byte {A} (g : A -> list Z) (xs : list A) :
  Z.of_nat (length (concat (g <$> xs))) < 2 ^ 64 ->
  (forall i x, xs !! i = Some x -> Z.of_nat (length (g x)) < 2 ^ 64 -> Forall is_byte (g x)) ->
  Forall is_byte (concat (g <$> xs)).
Proof.
  induction xs as [|x xs IH]; cbn [fmap list_fmap concat]; intros Hl H; [constructor|].
  rewrite length_app in Hl. apply Forall_app. split; [apply (H 0%nat); [done|lia]|].
  apply IH; [lia|]. intros i y Hi. by apply (H (S i)).
Qed.

Lemma enc_field_byte size f d s a v :
  sound_field depth size f d s ->
  read_field (read_message depth m) m f (a + d) (a + s) = Some v ->
  Z.of_nat (length (enc_field (enc_message depth) f v)) < 2 ^ 64 ->
  Forall is_byte (enc_field (enc_message depth) f v).
Proof.
  intros Hs Hv Hlen. destruct v as [|v|xs]; [constructor|..].
  - destruct (source_single depth m a f d s v Hv) as [_ Hh]. by eapply enc_tagged_byte.
  - destruct (decide (xs = [])) as [->|Hne]; [constructor|].
    assert (Hrep : PB_HTYPE (type f) = PB_HTYPE_REPEATED) by (by eapply source_many).
    destruct (source_items depth m Hm a f d s xs Hrep Hv) as (_ & _ & Hh).
    assert (Eenc : enc_field (enc_message depth) f (Many xs) = if PB_LTYPE (type f) <=? PB_LTYPE_LAST_PACKABLE then
        varint_bytes (tag_key PB_WT_STRING (tag f)) ++ delimited (concat (enc f <$> xs))
      else concat (enc_tagged (enc_message depth) f <$> xs)) by (by destruct xs).
    rewrite Eenc in *. destruct (PB_LTYPE (type f) <=? PB_LTYPE_LAST_PACKABLE).
    + rewrite length_app in Hlen. pose proof (delimited_length (concat (enc f <$> xs))).
      pose proof (sf_tag _ _ _ _ _ Hs). apply Forall_app. split.
      * apply varint_bytes_byte, tag_key_bounds; [lia|done].
      * apply delimited_byte; [lia|]. apply concat_byte; [lia|]. intros i x Hi Hx.
        eapply enc_value_byte; [done|by apply Hh|done].
    + apply concat_byte; [done|]. intros i x Hi Hx. eapply enc_tagged_byte; [done|by apply Hh|done].
Qed.

(** The fields from field [k] on. *)
Lemma spec_fields_enc size id a vs i fuel k it :
  static_message (S depth) size id = true -> regular_message (S depth) id = true -> 0 < a ->
  read_message (S depth) m id a = Some vs ->
  Z.of_nat (length (enc_message (S depth) id vs)) < 2 ^ 64 ->
  (k < length (message_fields id))%nat -> (length (message_fields id) - k <= fuel)%nat ->
  field_iter id a k = Some it ->
  spec_fields m i sub fuel it =
    Some (concat (drop k (zip_with (enc_field (enc_message depth)) (message_fields id) vs))).
Proof.
  intros Hst Hreg Ha Hsrc Hlen. pose proof (message_descriptors _ _ _ Hst) as Harr.
  revert k it. induction fuel as [|fuel IH]; intros k it Hk Hf Eit; [lia|].
  destruct (field_value_at depth m size id a vs Hst Hreg Hsrc k Hk) as (f & d & s & v & Ef & Eo & Hs & Ev & Hv).
  destruct (iter_at depth size id a Hst Ha k f d s Ef Eo) as (it' & Eit' & Edr & Ed & _).
  rewrite Eit in Eit'. injection Eit' as <-.
  set (encs := zip_with _ _ _) in *.
  assert (Ek : encs !! k = Some (enc_field (enc_message depth) f v))
    by (unfold encs; by rewrite lookup_zip_with, Ef; cbn; rewrite Ev).
  cbn [spec_fields]. rewrite Edr. cbn [mbind option_bind].
  rewrite (not_extension _ _ _ _ _ (sf_fits _ _ _ _ _ Hs)), Ed.
  rewrite (spec_field_enc i size f d s a v); try done.
  2: { pose proof (concat_lookup_length encs k _ Ek). cbn [enc_message] in Hlen.
       unfold enc_fields in Hlen. fold encs in Hlen. lia. }
  cbn [mbind option_bind]. destruct (field_iter_next id _ a Harr k it Hk Eit) as (it1 & En & Eit1).
  rewrite En. cbn [mbind option_bind]. rewrite (drop_S _ _ _ Ek). cbn [concat]. unfold after in Eit1.
  destruct (Nat.ltb_spec (S k) (length (message_fields id))) as [Hlt|Hge].
  - by rewrite (IH (S k) it1 Hlt ltac:(lia) Eit1).
  - rewrite drop_ge; [done|]. unfold encs. rewrite length_zip_with. lia.
Qed.

End Level.

(** The encoder writes the encoding of the value that the struct holds. *)
Lemma spec_message_enc depth m size id a vs :
  wf_mem m -> static_message depth size id = true -> regular_message depth id = true -> 0 < a ->
  read_message depth m id a = Some vs -> Z.of_nat (length (enc_message depth id vs)) < 2 ^ 64 ->
  spec_message depth m (id, 0%nat) a = Some (enc_message depth id vs).
Proof.
  intros Hm. revert size id a vs. induction depth as [|depth IH]; intros size id a vs Hst Hreg Ha Hsrc Hlen; [done|].
  pose proof (message_descriptors _ _ _ Hst) as Harr. cbn [spec_message].
  destruct (begin_run id _ a Harr) as (it & E & _). rewrite E. cbn [mbind option_bind].
  rewrite (spec_fields_enc depth m Hm (spec_message depth m) IH size id a vs (S depth) _ 0); try done.
  - by apply (descriptors_nonempty id).
  - unfold array_fuel. cbn [fst]. rewrite (length_descriptors id _ Harr). lia.
  - cbn [field_iter]. by rewrite E.
Qed.

Lemma enc_message_byte depth m size id a vs :
  wf_mem m -> static_message depth size id = true -> regular_message depth id = true ->
  read_message depth m id a = Some vs -> Z.of_nat (length (enc_message depth id vs)) < 2 ^ 64 ->
  Forall is_byte (enc_message depth id vs).
Proof.
  intros Hm. revert size id a vs. induction depth as [|depth IH]; intros size id a vs Hst Hreg Hsrc Hlen; [done|].
  cbn [enc_message] in *. unfold enc_fields in *. apply Forall_concat, Forall_lookup_2. intros k bs Ek.
  pose proof (concat_lookup_length _ _ _ Ek) as Hle. rewrite lookup_zip_with in Ek.
  apply bind_Some in Ek as (f & Ef & (v & Ev & [= <-])%bind_Some).
  destruct (field_value_at depth m size id a vs Hst Hreg Hsrc k (lookup_lt_Some _ _ _ Ef))
    as (f' & d & s & v' & Ef' & Eo & Hs & Ev' & Hv).
  rewrite Ef in Ef'. rewrite Ev in Ev'. injection Ef' as <-. injection Ev' as <-.
  eapply enc_field_byte; try done. lia.
Qed.

End Encoding.

(** ** The round trip *)

Section Roundtrip.
Context {PD : PbDescriptors} {WF : WfDescriptors}.
Context {EC : EncCallbacks} {ES : EncCallbackSpec} {DC : DecCallbacks}.

(** [pb_decode] on the encoding of a value. *)
Lemma pb_decode_value depth m0 size id src vs dest s w :
  wf_mem m0 -> static_message depth size id = true -> regular_message depth id = true ->
  read_message depth m0 id src = Some vs ->
  Z.of_nat (length (enc_message depth id vs)) < 2 ^ 32 -> 0 < dest ->
  ready w s (enc_message depth id vs) dest size ->
  wp (pb_decode (S depth) s (id, 0%nat) dest) w (fun r w' =>
    r = (true, consumed s (length (enc_message depth id vs))) /\ confined dest size w w' /\
    read_message depth (mem w') id dest = Some vs).
Proof.
  intros Hm0 Hst Hreg Hsrc Hlen Hdest Hr.
  by apply (decode_with_yields depth m0 (pb_decode_noinit (S depth)) (pb_decode_noinit_run m0 depth Hm0) size id src).
Qed.

(** A buffer that holds bytes. *)
Lemma buffer_wf w w' buf bs :
  wf_mem (mem w) -> Forall is_byte bs -> read_bytes (mem w') buf (length bs) = Some bs ->
  (forall x, ~ (buf <= x < buf + Z.of_nat (length bs)) -> mem w' !! x = mem w !! x) -> wf_mem (mem w').
Proof.
  intros Hwf Hb Hr Hsame x b Hx. destruct (decide (buf <= x < buf + Z.of_nat (length bs))) as [Hin|Hout].
  - pose proof (read_bytes_lookup _ _ _ _ (Z.to_nat (x - buf)) Hr ltac:(lia)) as E.
    replace (buf + Z.of_nat (Z.to_nat (x - buf))) with x in E by lia. rewrite Hx in E. symmetry in E.
    by eapply Forall_lookup_1.
  - rewrite Hsame in Hx by done. by eapply Hwf.
Qed.

(** C2: A message survives its encoding: for the struct of a regular message at
    [src] that holds the fields [vs], submessages, arrays, strings and unions
    included, [pb_encode] into a buffer and [pb_decode] of what it wrote into a
    struct at [dest] both succeed, the whole encoding is consumed, the encoder
    changes no byte but those of the buffer that it counts, the decoder none but
    those of the struct at [dest], and the struct holds [vs]. *)
Theorem message_roundtrip depth m size id src vs w buf bufsize dest :
  regular depth size id = true ->
  wf_mem m -> 0 < src -> read_message depth m id src = Some vs ->
  buffer_for m w buf bufsize -> Z.of_nat (length (enc_message depth id vs)) <= bufsize < 2 ^ 32 ->
  wf_mem (mem w) -> 0 < dest -> mapped (mem w) dest size ->
  buf + bufsize <= dest \/ dest + size <= buf ->
  exists os w1 st w2,
    pb_encode depth (pb_ostream_from_buffer buf bufsize) (id, 0%nat) src w = Done (true, os) w1 /\
    pb_decode (S depth) (pb_istream_from_buffer (IsPtr buf) (o_bytes_written os)) (id, 0%nat) dest w1 =
      Done (true, st) w2 /\
    i_bytes_left st = 0 /\
    (forall x, ~ (buf <= x < buf + o_bytes_written os) -> mem w1 !! x = mem w !! x) /\
    (forall x, ~ (dest <= x < dest + size) -> mem w2 !! x = mem w1 !! x) /\
    read_message depth (mem w2) id dest = Some vs.
Proof.
  intros [Hst Hreg]%andb_prop Hm Hsrc0 Hsrc Hbuf Hlen Hwf Hdest Hroom Hap.
  pose proof (spec_message_enc depth m size id src vs Hm Hst Hreg Hsrc0 Hsrc ltac:(lia)) as Hspec.
  destruct (writes_to_buffer m _ _ w buf bufsize (pb_encode_writes _ _ _ _ _ Hm Hspec) Hbuf ltac:(lia))
    as (os & w1 & E1 & Hn & Hread & Hsame).
  pose proof (enc_message_byte depth m size id src vs Hm Hst Hreg Hsrc ltac:(lia)) as Hby.
  pose proof (pb_decode_value depth m size id src vs dest
    (pb_istream_from_buffer (IsPtr buf) (o_bytes_written os)) w1 Hm Hst Hreg Hsrc ltac:(lia) Hdest) as Hdec.
  destruct Hbuf as (_ & Hsize & Hmap & _).
  assert (Hready : ready w1 (pb_istream_from_buffer (IsPtr buf) (o_bytes_written os))
    (enc_message depth id vs) dest size).
  { rewrite Hn. split_and!; [split|by apply offers_from_buffer; [| |lia]|].
    - intros x Hx. rewrite Hsame by lia. by apply Hroom.
    - by eapply buffer_wf.
    - cbn. lia. }
  specialize (Hdec Hready). unfold wp in Hdec.
  destruct (pb_decode _ _ _ _ w1) as [r w2| |] eqn:E2; try done. destruct Hdec as (-> & Hc & Hvs).
  eexists os, w1, _, w2. split_and!; [done|exact E2| | |by apply Hc|done].
  - cbn. lia.
  - intros x Hx. apply Hsame. rewrite Hn in Hx. lia.
Qed.

End Roundtrip.
