(* ===== verification/PbExamples.v ===== *)
(** nanopb at concrete inputs: the properties of its primitives, and inputs on which
    the 32-bit varint decoder departs from the wire format; the decoder on a static
    message with every kind of static field (required, repeated with a count,
    submessage, oneof, fixed-count array); the round trip of a regular message with
    every type of field. One of Google data transport's messages is the submessage
    of both. *)
From S2P Require Import Prelude Memory PbTypes CrashlyticsProto PbLayout PbWire PbEncode PbStreams.
From S2P Require Import PbEncodeSpec PbRelease PbDecode PbInput PbCodec PbDecodeMsg PbRequired.
From S2P Require Import PbSafety PbTheorems PbValue PbRoundtrip.

(** Crashlytics registers no callbacks for decoding. *)
#[export] Instance no_dec_callbacks : DecCallbacks := {
  user_read _ _ _ _ := fault;
  user_decode _ _ _ _ := fault;
  user_ext_decode _ _ _ _ _ := fault
}.

Lemma buffer_mapped : mapped (mem example_world) 16384 10.
Proof. by apply mapped_check. Qed.

Lemma varint_roundtrip_witness :
  exists os w' ist,
    pb_encode_varint (pb_ostream_from_buffer 16384 10) 300 example_world = Done (true, os) w' /\
    pb_decode_varint (pb_istream_from_buffer (IsPtr 16384) (o_bytes_written os)) w' =
      Done (Some 300, ist) w' /\ i_bytes_left ist = 0.
Proof. apply (varint_roundtrip 300 example_world 16384); [lia|exact buffer_mapped]. Defined.

Lemma svarint_roundtrip_witness :
  exists os w' ist,
    pb_encode_svarint (pb_ostream_from_buffer 16384 10) (-70000) example_world = Done (true, os) w' /\
    pb_decode_svarint (pb_istream_from_buffer (IsPtr 16384) (o_bytes_written os)) w' =
      Done (Some (-70000), ist) w' /\ i_bytes_left ist = 0.
Proof. apply (svarint_roundtrip (-70000) example_world 16384); [lia|exact buffer_mapped]. Defined.

Lemma varint32_roundtrip_witness :
  exists os w' ist,
    pb_encode_varint (pb_ostream_from_buffer 16384 10) (u64 (-5)) example_world = Done (true, os) w' /\
    pb_decode_varint32 (pb_istream_from_buffer (IsPtr 16384) (o_bytes_written os)) w' =
      Done (Some (u32 (-5)), ist) w' /\ i_bytes_left ist = 0.
Proof. apply (varint32_roundtrip (-5) example_world 16384); [lia|exact buffer_mapped]. Defined.

Lemma fixed64_roundtrip_witness :
  exists os w1 ist w2,
    pb_encode_fixed64 (pb_ostream_from_buffer 16384 8) 4096 example_world = Done (true, os) w1 /\
    pb_decode_fixed64 (pb_istream_from_buffer (IsPtr 16384) (o_bytes_written os)) 16400 w1 =
      Done (true, ist) w2 /\
    read_le (mem w2) 8 16400 = Some 8192 /\ i_bytes_left ist = 0.
Proof.
  apply (fixed64_roundtrip example_report_mem 4096 8192 example_world 16384 16400).
  - exact example_wf_mem.
  - by vm_compute.
  - apply example_buffer. lia.
  - by apply mapped_check.
Defined.

Lemma tag_roundtrip_witness :
  exists os w' ist,
    pb_encode_tag (pb_ostream_from_buffer 16384 10) 2 16 example_world = Done (true, os) w' /\
    pb_decode_tag (pb_istream_from_buffer (IsPtr 16384) (o_bytes_written os)) w' =
      Done (true, TagOut 2 16 false, ist) w' /\ i_bytes_left ist = 0.
Proof. apply (tag_roundtrip 2 16 example_world 16384); [lia|lia|exact buffer_mapped]. Defined.

(** A stream of bytes that belong to no memory. *)
Definition bytes_stream (bs : list Z) : pb_istream_t :=
  pb_istream_from_buffer (IsLocal bs) (Z.of_nat (length bs)).

Lemma bytes_stream_offers m bs :
  Forall is_byte bs -> Z.of_nat (length bs) < 2 ^ 64 -> offers m (bytes_stream bs) bs.
Proof. apply offers_from_local. Qed.

Ltac byte_list := repeat constructor; unfold is_byte; lia.

Lemma pb_decode_varint_total_witness :
  pb_decode_varint (bytes_stream [172; 2; 7]) example_world =
    Done (Some 300, consumed (bytes_stream [172; 2; 7]) 2) example_world.
Proof.
  rewrite (pb_decode_varint_total _ _ [172; 2; 7]); [reflexivity|].
  apply bytes_stream_offers; [byte_list|done].
Defined.

Lemma pb_skip_field_exact_witness :
  let s := bytes_stream [3; 65; 66; 67; 8] in
  pb_skip_field s PB_WT_STRING example_world = Done (true, consumed s 4) example_world.
Proof.
  intros s. apply (pb_skip_field_exact PB_WT_STRING (delimited [65; 66; 67]) [8]).
  - by constructor.
  - apply bytes_stream_offers; [byte_list|done].
Defined.

Lemma pb_skip_field_safe_witness :
  let s := bytes_stream [255; 255; 1] in
  exists ok n e, pb_skip_field s PB_WT_STRING example_world = Done (ok, advanced s n e) example_world /\
    (n <= 3)%nat.
Proof.
  intros s. destruct (pb_skip_field_safe PB_WT_STRING s example_world [255; 255; 1]) as (ok & n & e & E & Hn & _).
  - apply bytes_stream_offers; [byte_list|done].
  - exists ok, n, e. by split.
Defined.

Lemma substream_exact_witness :
  let s := bytes_stream [3; 65; 66; 67; 8] in
  exists sub parent,
    pb_make_string_substream s example_world = Done (Some sub, parent) example_world /\
    i_bytes_left sub = 3.
Proof.
  intros s. destruct (substream_exact s example_world [65; 66; 67] [8] 1 None) as (sub & parent & E & _ & Hl & _).
  - done.
  - apply bytes_stream_offers; [byte_list|done].
  - cbn. lia.
  - exists sub, parent. by split.
Defined.

(** ** Over-long varints

    The 8-bit shift count of [pb_decode_varint32_eof] wraps, so an encoding of 38
    bytes is accepted and its last group lands in the low bits; the overflow
    check covers only a fifth byte that is the last. *)
Lemma varint32_wraps :
  (pb_decode_varint32 (bytes_stream (replicate 37 128 ++ [1])) example_world =
   Done (Some 8, consumed (bytes_stream (replicate 37 128 ++ [1])) 38) example_world) /\
  (pb_decode_varint32 (bytes_stream [255; 255; 255; 255; 255; 0]) example_world =
   Done (Some (2 ^ 32 - 1), consumed (bytes_stream [255; 255; 255; 255; 255; 0]) 6) example_world).
Proof. split; by vm_compute. Qed.

Definition sample_id : nat := 0.
Definition network_id : nat := 1.

(** Offsets: id 0, items_count 4, items 8, has_network 20, network 24,
    which_choice 40, choice 44, checksum 52; 60 bytes. *)
Definition sample_fields : list pb_field_t :=
  [PbField 1 (PB_ATYPE_STATIC + PB_HTYPE_REQUIRED + PB_LTYPE_UVARINT) 0 0 4 0 PtrNull;
   PbField 2 (PB_ATYPE_STATIC + PB_HTYPE_REPEATED + PB_LTYPE_VARINT) 4 (-4) 4 3 PtrNull;
   PbField 3 (PB_ATYPE_STATIC + PB_HTYPE_OPTIONAL + PB_LTYPE_SUBMESSAGE) 4 (-4) 16 0 (PtrSubmsg network_id);
   PbField 4 (PB_ATYPE_STATIC + PB_HTYPE_ONEOF + PB_LTYPE_BOOL) 4 (-4) 1 0 PtrNull;
   PbField 5 (PB_ATYPE_STATIC + PB_HTYPE_ONEOF + PB_LTYPE_STRING) PB_SIZE_MAX (-4) 8 0 PtrNull;
   PbField 6 (PB_ATYPE_STATIC + PB_HTYPE_REPEATED + PB_LTYPE_FIXED32) 0 0 4 2 PtrNull;
   PB_LAST_FIELD].

(** gdt_cct_NetworkConnectionInfo (cct.nanopb.c): two optional enumerations
    with default values. *)
Definition gdt_cct_NetworkConnectionInfo_fields : list pb_field_t :=
  [PbField 1 (PB_ATYPE_STATIC + PB_HTYPE_OPTIONAL + PB_LTYPE_VARINT) 4 (-4) 4 0
     (PtrDefault [255; 255; 255; 255]);
   PbField 2 (PB_ATYPE_STATIC + PB_HTYPE_OPTIONAL + PB_LTYPE_UVARINT) 4 (-4) 4 0
     (PtrDefault [0; 0; 0; 0]);
   PB_LAST_FIELD].

#[local] Instance sample_descriptors : PbDescriptors := {
  fields_at id :=
    match id with
    | 0 => sample_fields
    | 1 => gdt_cct_NetworkConnectionInfo_fields
    | _ => []
    end%nat;
  extension_type_at _ := None
}.

(** id = 300, items = 1, 2, network type 5, choice "hi", checksums 7 and 9. *)
Definition sample_bytes : list Z :=
  [8; 172; 2; 18; 2; 1; 2; 26; 2; 8; 5; 42; 2; 104; 105;
   50; 8; 7; 0; 0; 0; 9; 0; 0; 0].

Definition sample_mem : gmap Z Z :=
  mem_of [(4096, replicate 60 170); (8192, sample_bytes)].

Definition sample_world : world := world_of sample_mem 65536 131072.

Definition sample_stream : pb_istream_t := pb_istream_from_buffer (IsPtr 8192) 25.

Lemma sample_static : static_message 2 60 sample_id = true.
Proof. by vm_compute. Qed.

(** The decoded struct. *)
Lemma sample_decoded :
  match pb_decode 3 sample_stream (sample_id, 0%nat) 4096 sample_world with
  | Done (ok, s) w => ok = true /\ i_bytes_left s = 0 /\
      read_bytes (mem w) 4096 60 = Some
        ([44; 1; 0; 0] ++ [2; 0; 0; 0] ++ [1; 0; 0; 0; 2; 0; 0; 0; 170; 170; 170; 170] ++
         [1; 170; 170; 170] ++ [1; 170; 170; 170; 5; 0; 0; 0] ++ [0; 170; 170; 170; 0; 0; 0; 0] ++
         [5; 0; 0; 0] ++ [104; 105; 0; 170; 170; 170; 170; 170] ++ [7; 0; 0; 0; 9; 0; 0; 0])
  | _ => False
  end.
Proof. vm_compute. by split_and!. Qed.

Lemma sample_descriptors_ok : descriptors sample_id (removelast sample_fields).
Proof.
  split; [done|]. exists PB_LAST_FIELD. split; [done|]. split; [|done]. by repeat constructor.
Qed.

(** The iterator at the first member of the oneof. *)
Definition sample_iter : pb_field_iter_t :=
  PbFieldIter (sample_id, 0%nat) (sample_id, 3%nat) 1 4096 4140 4136.

Lemma iter_find_exact_witness :
  exists found k it', pb_field_iter_find sample_iter 2 sample_world = Done (found, it') sample_world /\
    field_iter sample_id 4096 k = Some it' /\ (k < length (removelast sample_fields))%nat /\
    if found : bool
    then exists f, removelast sample_fields !! k = Some f /\ tag f = 2 /\
      PB_LTYPE (type f) <> PB_LTYPE_EXTENSION
    else k = 3%nat /\ forall j f, removelast sample_fields !! j = Some f -> tag f = 2 ->
      PB_LTYPE (type f) = PB_LTYPE_EXTENSION.
Proof.
  apply (iter_find_exact sample_id (removelast sample_fields) 4096 2 3 sample_iter sample_world).
  - exact sample_descriptors_ok.
  - cbn. lia.
  - by vm_compute.
Defined.

Lemma sample_well_tagged : well_tagged (removelast sample_fields).
Proof.
  split; [by apply (bool_decide_eq_true_1 _)|]. by repeat constructor.
Qed.

(** A struct of zeros, for [pb_decode_noinit]. *)
Definition zero_world : world :=
  world_of (mem_of [(4096, replicate 60 0); (8192, sample_bytes)]) 65536 131072.

(** The sample, and the sample without its required field. *)
Definition short_stream : pb_istream_t := pb_istream_from_buffer (IsPtr 8195) 22.

Definition locals_of (m : M (bool * (pb_istream_t * noinit_locals))) (w : world) :
    pb_istream_t * noinit_locals * world :=
  match m w with
  | Done (_, (s, l)) w' => (s, l, w')
  | _ => (sample_stream, NoinitLocals sample_iter [] 0 None 0, w)
  end.

Definition sample_begin : pb_field_iter_t :=
  PbFieldIter (sample_id, 0%nat) (sample_id, 0%nat) 0 4096 4096 4096.

Definition short_end : pb_istream_t * noinit_locals * world :=
  Eval vm_compute in
  locals_of (decode_fields_loop 2 (pb_decode_noinit 2) 23 short_stream
    (NoinitLocals sample_begin [0; 0] 0 None 0)) zero_world.

Lemma required_fields_verdict_witness :
  exists tags,
    rounds 2 (pb_decode_noinit 2) short_stream (NoinitLocals sample_begin [0; 0] 0 None 0)
      zero_world tags short_end.1.1 short_end.1.2 short_end.2 /\
    pb_decode_noinit 3 short_stream (sample_id, 0%nat) 4096 zero_world =
      if all_present (removelast sample_fields) tags then Done (true, short_end.1.1) short_end.2
      else Done (false, is_set_error short_end.1.1 "missing required field") short_end.2.
Proof.
  apply (required_fields_verdict 2 sample_id (removelast sample_fields) 4096 short_stream
           zero_world sample_begin short_end.1.1 short_end.1.2 short_end.2).
  - exact sample_descriptors_ok.
  - done.
  - exact sample_well_tagged.
  - by vm_compute.
  - by vm_compute.
  - by vm_compute.
Defined.

Definition sample_end : pb_istream_t * world :=
  Eval vm_compute in
  match pb_decode_noinit 3 sample_stream (sample_id, 0%nat) 4096 zero_world with
  | Done (_, s) w => (s, w)
  | _ => (sample_stream, zero_world)
  end.

Lemma required_fields_enforced_witness :
  exists it tags l', pb_field_iter_begin (sample_id, 0%nat) 4096 = Some (true, it) /\
    rounds 2 (pb_decode_noinit 2) sample_stream (NoinitLocals it [0; 0] 0 None 0) zero_world
      tags sample_end.1 l' sample_end.2 /\
    forall i f, (i < 64)%nat ->
      List.filter is_required (removelast sample_fields) !! i = Some f -> tag f ∈ tags.
Proof.
  apply (required_fields_enforced 2 sample_id (removelast sample_fields) 4096 sample_stream
           zero_world sample_end.1 sample_end.2).
  - exact sample_descriptors_ok.
  - done.
  - exact sample_well_tagged.
  - by vm_compute.
Defined.

(** An input that no encoder wrote: the decoder stops with an error. *)
Lemma static_decode_safe_witness :
  exists ok s' w',
    pb_decode 3 (pb_istream_from_buffer (IsPtr 8194) (Z.of_nat (length (drop 2 sample_bytes))))
      (sample_id, 0%nat) 4096 sample_world = Done (ok, s') w' /\
    w' = set_mem (mem w') sample_world /\
    (forall x, ~ (4096 <= x < 4096 + 60) -> mem w' !! x = mem sample_world !! x) /\
    (forall x, is_Some (mem w' !! x) <-> is_Some (mem sample_world !! x)) /\
    (ok = true -> 0 <= i_bytes_left s' <= Z.of_nat (length (drop 2 sample_bytes))).
Proof.
  apply (static_decode_safe 2 60 sample_id 4096 8194 (drop 2 sample_bytes) sample_world).
  - exact sample_static.
  - lia.
  - by apply mapped_check.
  - by apply wf_mem_check.
  - by vm_compute.
  - done.
  - right. lia.
Defined.

Lemma static_defaults_release_safe_witness :
  exists w',
    pb_message_set_to_defaults 2 (sample_id, 0%nat) 4096 sample_world = Done tt w' /\
    w' = set_mem (mem w') sample_world /\
    (forall x, ~ (4096 <= x < 4096 + 60) -> mem w' !! x = mem sample_world !! x) /\
    pb_release 2 (sample_id, 0%nat) 4096 w' = Done tt w'.
Proof.
  apply (static_defaults_release_safe 2 60 sample_id 4096 sample_world).
  - exact sample_static.
  - lia.
  - by apply mapped_check.
  - by apply wf_mem_check.
Defined.

(** Offsets: id 0, items_count 4, items 8, has_network 20, network 24,
    which_choice 40, choice 44, has_data 52, data 56, links_count 64, links 68,
    has_delta 100, delta 104, has_stamp 112, stamp 120, has_key 128, key 129;
    136 bytes. *)
Definition letter_fields : list pb_field_t :=
  [PbField 1 (PB_ATYPE_STATIC + PB_HTYPE_REQUIRED + PB_LTYPE_UVARINT) 0 0 4 0 PtrNull;
   PbField 2 (PB_ATYPE_STATIC + PB_HTYPE_REPEATED + PB_LTYPE_VARINT) 4 (-4) 4 3 PtrNull;
   PbField 3 (PB_ATYPE_STATIC + PB_HTYPE_OPTIONAL + PB_LTYPE_SUBMESSAGE) 4 (-4) 16 0 (PtrSubmsg 1%nat);
   PbField 4 (PB_ATYPE_STATIC + PB_HTYPE_ONEOF + PB_LTYPE_BOOL) 4 (-4) 1 0 PtrNull;
   PbField 5 (PB_ATYPE_STATIC + PB_HTYPE_ONEOF + PB_LTYPE_STRING) PB_SIZE_MAX (-4) 8 0 PtrNull;
   PbField 6 (PB_ATYPE_STATIC + PB_HTYPE_OPTIONAL + PB_LTYPE_BYTES) 4 (-4) 8 0 PtrNull;
   PbField 7 (PB_ATYPE_STATIC + PB_HTYPE_REPEATED + PB_LTYPE_SUBMESSAGE) 4 (-4) 16 2 (PtrSubmsg 1%nat);
   PbField 8 (PB_ATYPE_STATIC + PB_HTYPE_OPTIONAL + PB_LTYPE_SVARINT) 4 (-4) 8 0 PtrNull;
   PbField 9 (PB_ATYPE_STATIC + PB_HTYPE_OPTIONAL + PB_LTYPE_FIXED64) 8 (-8) 8 0 PtrNull;
   PbField 10 (PB_ATYPE_STATIC + PB_HTYPE_OPTIONAL + PB_LTYPE_FIXED_LENGTH_BYTES) 1 (-1) 3 0 PtrNull;
   PB_LAST_FIELD].

#[local] Instance letter_descriptors : PbDescriptors := {
  fields_at id :=
    match id with
    | 0 => letter_fields
    | 1 => gdt_cct_NetworkConnectionInfo_fields
    | _ => []
    end%nat;
  extension_type_at _ := None
}.

#[local] Instance letter_wf : WfDescriptors.
Proof. intros [|[|id]]; [refine (bool_decide_unpack _ _); vm_compute; exact I..|constructor]. Qed.

Lemma letter_regular : regular 2 136 0 = true.
Proof. by vm_compute. Qed.

(** The letter: id 300, items 1 and -2, network type 5, choice "hi", two bytes of
    data, two links of which the first is empty, delta -1, stamp 1, no key. *)
Definition letter_struct : list Z :=
  [44; 1; 0; 0] ++ [2; 0; 0; 0] ++ [1; 0; 0; 0; 254; 255; 255; 255; 9; 9; 9; 9] ++
  [1; 0; 0; 0] ++ [0; 0; 0; 0; 0; 0; 0; 0; 1; 0; 0; 0; 5; 0; 0; 0] ++
  [5; 0; 0; 0] ++ [104; 105; 0; 9; 9; 9; 9; 9] ++ [1; 0; 0; 0] ++ [2; 0; 0; 0; 200; 100; 9; 9] ++
  [2; 0; 0; 0] ++ replicate 16 0 ++ [1; 0; 0; 0; 255; 255; 255; 255; 0; 0; 0; 0; 0; 0; 0; 0] ++
  [1; 0; 0; 0] ++ replicate 8 255 ++ [1; 0; 0; 0; 0; 0; 0; 0] ++ [1; 0; 0; 0; 0; 0; 0; 0] ++
  [0; 0; 0; 0] ++ [0; 0; 0; 0].

Definition letter_value : list field_value :=
  [One (VInt 300); Many [VInt 1; VInt (-2)]; One (VMsg [Absent; One (VInt 5)]);
   Absent; One (VBytes [104; 105]); One (VBytes [200; 100]);
   Many [VMsg [Absent; Absent]; VMsg [One (VInt (-1)); Absent]]; One (VInt (-1));
   One (VBytes [1; 0; 0; 0; 0; 0; 0; 0]); Absent].

Definition letter_mem : gmap Z Z := mem_of [(4096, letter_struct)].

(** A buffer of 128 bytes at 16384, and the struct to decode into at 32768. *)
Definition letter_world : world :=
  world_of (mem_of [(4096, letter_struct); (16384, replicate 128 0); (32768, replicate 136 170)])
    65536 131072.

Lemma letter_read : read_message 2 letter_mem 0 4096 = Some letter_value.
Proof. by vm_compute. Qed.

Lemma message_roundtrip_witness :
  exists os w1 st w2,
    pb_encode 2 (pb_ostream_from_buffer 16384 128) (0%nat, 0%nat) 4096 letter_world = Done (true, os) w1 /\
    pb_decode 3 (pb_istream_from_buffer (IsPtr 16384) (o_bytes_written os)) (0%nat, 0%nat) 32768 w1 =
      Done (true, st) w2 /\
    i_bytes_left st = 0 /\
    (forall x, ~ (16384 <= x < 16384 + o_bytes_written os) -> mem w1 !! x = mem letter_world !! x) /\
    (forall x, ~ (32768 <= x < 32768 + 136) -> mem w2 !! x = mem w1 !! x) /\
    read_message 2 (mem w2) 0 32768 = Some letter_value.
Proof.
  apply (message_roundtrip 2 letter_mem 136 0 4096 letter_value letter_world 16384 128 32768).
  - exact letter_regular.
  - apply wf_mem_check. by vm_compute.
  - lia.
  - exact letter_read.
  - split; [apply subset_check; by vm_compute|split; [lia|split]].
    + by apply mapped_check.
    + apply apart_check. by vm_compute.
  - split; [by vm_compute|lia].
  - apply wf_mem_check. by vm_compute.
  - lia.
  - by apply mapped_check.
  - left. lia.
Defined.
