(* ===== verification/DwarfData.v ===== *)
(** Crashlytics' parsing of DWARF data (FIRCLSDataParsing.c) on ARM64.

    A [const void** cursor] is always the address of a variable of the caller:
    every function takes the value of the cursor and returns it advanced.
    Arithmetic that C leaves undefined, a left shift out of the range of [int]
    or an overflow of [intptr_t], is a [Fault]. *)
From S2P Require Import Prelude Memory PbWire.

(** ** Constants of dwarf.h *)

Definition DWARF_EXTENDED_LENGTH_FLAG : Z := 0xffffffff.
Definition DWARF_CIE_ID_CIE_FLAG : Z := 0.

Definition DW_EH_PE_VALUE_MASK : Z := 0x0F.
Definition DW_EH_PE_RELATIVE_OFFSET_MASK : Z := 0x70.

Definition DW_EH_PE_ptr : Z := 0x00.
Definition DW_EH_PE_uleb128 : Z := 0x01.
Definition DW_EH_PE_udata2 : Z := 0x02.
Definition DW_EH_PE_udata4 : Z := 0x03.
Definition DW_EH_PE_udata8 : Z := 0x04.
Definition DW_EH_PE_sleb128 : Z := 0x09.
Definition DW_EH_PE_sdata2 : Z := 0x0A.
Definition DW_EH_PE_sdata4 : Z := 0x0B.
Definition DW_EH_PE_sdata8 : Z := 0x0C.
Definition DW_EH_PE_absptr : Z := 0x00.
Definition DW_EH_PE_pcrel : Z := 0x10.
Definition DW_EH_PE_indirect : Z := 0x80.
Definition DW_EH_PE_omit : Z := 0xFF.

Definition CLS_INVALID_ADDRESS : Z := 0xffffffffffffffff.

(** [FIRCLSIsValidPointer(x)] of FIRCLSUtility.h. *)
Definition FIRCLSIsValidPointer (x : Z) : bool := 4096 <=? x.

#[global] Arguments FIRCLSIsValidPointer : simpl never.

(** ** C arithmetic *)

(** [a << n] of [int], defined when the result is. *)
Definition int_shl (a n : Z) : M Z :=
  if (n <? 32) && (Z.shiftl a n <? 2 ^ 31) then mret (Z.shiftl a n) else fault.

(** A value computed in [intptr_t] or [int64_t]. *)
Definition int64_result (v : Z) : M Z :=
  if (- 2 ^ 63 <=? v) && (v <? 2 ^ 63) then mret v else fault.

(** ** Fixed-width integers *)

Definition FIRCLSParseUint8AndAdvance (cursor : Z) : M (Z * Z) :=
  tmp ← load 1 cursor; mret (tmp, cursor + 1).

Definition FIRCLSParseUint16AndAdvance (cursor : Z) : M (Z * Z) :=
  tmp ← load 2 cursor; mret (tmp, cursor + 2).

Definition FIRCLSParseInt16AndAdvance (cursor : Z) : M (Z * Z) :=
  tmp ← load 2 cursor; mret (s16 tmp, cursor + 2).

Definition FIRCLSParseUint32AndAdvance (cursor : Z) : M (Z * Z) :=
  tmp ← load 4 cursor; mret (tmp, cursor + 4).

Definition FIRCLSParseInt32AndAdvance (cursor : Z) : M (Z * Z) :=
  tmp ← load 4 cursor; mret (s32 tmp, cursor + 4).

Definition FIRCLSParseUint64AndAdvance (cursor : Z) : M (Z * Z) :=
  tmp ← load 8 cursor; mret (tmp, cursor + 8).

Definition FIRCLSParseInt64AndAdvance (cursor : Z) : M (Z * Z) :=
  tmp ← load 8 cursor; mret (s64 tmp, cursor + 8).

Definition FIRCLSParsePointerAndAdvance (cursor : Z) : M (Z * Z) :=
  tmp ← load 8 cursor; mret (tmp, cursor + 8).

(** ** LEB128 *)

(** The loop of at most [sizeof(uint64_t)] rounds, [n] of them to go. *)
Fixpoint uleb128_loop (n : nat) (cursor result shift : Z) : M (Z * Z) :=
  match n with
  | O => mret (result, cursor)
  | S n' =>
      byte ← load 1 cursor;
      v ← int_shl (Z.land 127 byte) shift;
      let result := Z.lor result (u64 v) in
      if Z.land 128 byte =? 0 then mret (result, cursor + 1)
      else uleb128_loop n' (cursor + 1) result (shift + 7)
  end.

Definition FIRCLSParseULEB128AndAdvance (cursor : Z) : M (Z * Z) := uleb128_loop 8 cursor 0 0.

(** The loop, returning [result], [shift], the last [byte] and the cursor. *)
Fixpoint leb128_loop (n : nat) (cursor result shift byte : Z) : M (Z * Z * Z * Z) :=
  match n with
  | O => mret (result, shift, byte, cursor)
  | S n' =>
      byte ← load 1 cursor;
      v ← int_shl (Z.land 127 byte) shift;
      let result := Z.lor result (u64 v) in
      if Z.land 128 byte =? 0 then mret (result, shift + 7, byte, cursor + 1)
      else leb128_loop n' (cursor + 1) result (shift + 7) byte
  end.

Definition FIRCLSParseLEB128AndAdvance (cursor : Z) : M (Z * Z) :=
  '(result, shift, byte, cursor) ← leb128_loop 8 cursor 0 0 0;
  if (shift <? 64) && negb (Z.land 64 byte =? 0) then
    one ← int_shl 1 shift;
    mret (s64 (Z.lor result (u64 (- one))), cursor)
  else mret (s64 result, cursor).

(** ** Strings, record lengths *)

(** [strlen]; every round reads another allocated byte, whose number bounds the
    rounds. *)
Fixpoint strlen_loop (fuel : nat) (p n : Z) : M Z :=
  match fuel with
  | O => timeout
  | S fuel' =>
      c ← load 1 (p + n);
      if c =? 0 then mret n else strlen_loop fuel' p (n + 1)
  end.

Definition strlen (p : Z) : M Z := fun w => strlen_loop (S (size (mem w))) p 0 w.

(** Returns the address of the string. *)
Definition FIRCLSParseStringAndAdvance (cursor : Z) : M (Z * Z) :=
  n ← strlen cursor;
  mret (cursor, cursor + (n + 1)).

Definition FIRCLSParseRecordLengthAndAdvance (cursor : Z) : M (Z * Z) :=
  '(length, cursor) ← FIRCLSParseUint32AndAdvance cursor;
  if length =? DWARF_EXTENDED_LENGTH_FLAG then FIRCLSParseUint64AndAdvance cursor
  else mret (length, cursor).

(** ** Encoded addresses *)

(** The first switch: the value by the low bits of the encoding, as an
    [intptr_t]; [None] for an unhandled one. *)
Definition parse_encoded_value (cursor encoding : Z) : M (option Z * Z) :=
  let some (m : M (Z * Z)) (cast : Z -> Z) : M (option Z * Z) :=
    '(v, cursor) ← m; mret (Some (cast v), cursor) in
  let format := Z.land encoding DW_EH_PE_VALUE_MASK in
  if format =? DW_EH_PE_ptr then some (FIRCLSParsePointerAndAdvance cursor) s64
  else if format =? DW_EH_PE_uleb128 then some (FIRCLSParseULEB128AndAdvance cursor) s64
  else if format =? DW_EH_PE_udata2 then some (FIRCLSParseUint16AndAdvance cursor) s64
  else if format =? DW_EH_PE_udata4 then some (FIRCLSParseUint32AndAdvance cursor) s64
  else if format =? DW_EH_PE_udata8 then some (FIRCLSParseUint64AndAdvance cursor) s64
  else if format =? DW_EH_PE_sleb128 then some (FIRCLSParseLEB128AndAdvance cursor) s64
  else if format =? DW_EH_PE_sdata2 then some (FIRCLSParseInt16AndAdvance cursor) s64
  else if format =? DW_EH_PE_sdata4 then some (FIRCLSParseInt32AndAdvance cursor) s64
  else if format =? DW_EH_PE_sdata8 then some (FIRCLSParseInt64AndAdvance cursor) s64
  else mret (None, cursor).

Definition FIRCLSParseAddressWithEncodingAndAdvance (cursor encoding : Z) : M (Z * Z) :=
  if encoding =? DW_EH_PE_omit then mret (0, cursor)
  else if cursor =? 0 then mret (CLS_INVALID_ADDRESS, cursor)
  else
    let inputAddr := s64 cursor in
    '(addr, cursor) ← parse_encoded_value cursor encoding;
    match addr with
    | None => mret (CLS_INVALID_ADDRESS, cursor)
    | Some addr =>
        let relative := Z.land encoding DW_EH_PE_RELATIVE_OFFSET_MASK in
        if negb ((relative =? DW_EH_PE_absptr) || (relative =? DW_EH_PE_pcrel)) then
          mret (CLS_INVALID_ADDRESS, cursor)
        else
          addr ← (if relative =? DW_EH_PE_pcrel then int64_result (addr + inputAddr)
                  else mret addr);
          if negb (Z.land encoding DW_EH_PE_indirect =? 0) then
            if addr =? 0 then mret (CLS_INVALID_ADDRESS, cursor)
            else
              addr ← load 8 (u64 addr);
              mret (u64 (s64 addr), cursor)
          else mret (u64 addr, cursor)
    end.
