(* ===== verification/ThreadState.v ===== *)
(** The registers of a thread, as the unwinder sees them: the interface that
    FIRCLSThreadState.h, FIRCLSDwarfUnwindRegisters.h and FIRCLSUnwind_arch.h
    declare and that every architecture implements (Arm64State.v, X86State.v),
    with the laws that the unwinder relies on; and the guarded read of memory.

    A [FIRCLSThreadContext*] is an [option]: [None] is a null or otherwise
    invalid pointer. The setters return the context they changed. *)
From S2P Require Import Prelude Memory DwarfData.

Class ThreadState := {
  thread_context : Type;
  ThreadContextGetPC : option thread_context -> Z;
  ThreadContextGetStackPointer : option thread_context -> Z;
  ThreadContextGetFramePointer : option thread_context -> Z;
  ThreadContextSetPC : option thread_context -> Z -> bool * option thread_context;
  DwarfUnwindGetRegisterValue : option thread_context -> Z -> M Z;
  DwarfUnwindSetRegisterValue : option thread_context -> Z -> Z -> M (bool * option thread_context);
  DWARF_MAX_REGISTER_NUM : Z;
  DWARF_REG_RETURN : Z;
  DWARF_REG_SP : Z
}.

Definition ctx_res {TS : ThreadState} : Type := bool * option thread_context.

Definition CLS_DWARF_INVALID_REGISTER_NUM {TS : ThreadState} : Z := DWARF_MAX_REGISTER_NUM + 1.

(** What reading a register gives. *)
Definition reg_value {TS : ThreadState} (r : option thread_context) (n : Z) : option Z :=
  eval (DwarfUnwindGetRegisterValue r n) ∅.

(** The register numbers fit the operand of an instruction, and the numbers of
    the [DW_OP_breg] operations. Reading a register does not depend on memory;
    setting one keeps a valid pointer. *)
Class ThreadStateLaws {TS : ThreadState} : Prop := {
  max_register_bounds : 0 <= DWARF_MAX_REGISTER_NUM < 32;
  get_register_run r n w : DwarfUnwindGetRegisterValue r n w = of_option (reg_value r n) w;
  set_register_returns r n v w :
    exists ok r', DwarfUnwindSetRegisterValue (Some r) n v w = Done (ok, Some r') w;
  set_pc_returns r v : exists r', ThreadContextSetPC (Some r) v = (true, Some r')
}.

(** A context as a file of registers: the values that are stored in it, one for
    each DWARF number, and the program counter, which is set with the return
    address. *)
Class RegisterFile {TS : ThreadState} := {
  wf_context : thread_context -> Prop;
  reg_field : thread_context -> Z -> option Z;
  pc_field : thread_context -> Z;
  sp_number : 0 <= DWARF_REG_SP <= DWARF_MAX_REGISTER_NUM;
  return_number : 0 <= DWARF_REG_RETURN <= DWARF_MAX_REGISTER_NUM;
  sp_not_return : DWARF_REG_SP <> DWARF_REG_RETURN;
  get_register_defined r n :
    0 <= n <= DWARF_MAX_REGISTER_NUM -> wf_context r -> is_Some (reg_value (Some r) n);
  set_register_value_run r n v w :
    0 <= n <= DWARF_MAX_REGISTER_NUM -> wf_context r ->
    exists r', DwarfUnwindSetRegisterValue (Some r) n v w = Done (true, Some r') w /\
      wf_context r' /\ reg_field r' n = Some v /\
      (forall n', 0 <= n' <= DWARF_MAX_REGISTER_NUM -> n' <> n -> reg_field r' n' = reg_field r n') /\
      pc_field r' = if n =? DWARF_REG_RETURN then v else pc_field r
}.

(** ** Reading the memory of the process

    [vm_read_overwrite] is a service of the kernel: [None] when it fails. *)
Class VmRead := { vm_read_overwrite : Z -> nat -> M (option (list Z)) }.

(** [FIRCLSReadMemory(src, dest, len)] of FIRCLSUtility.m: the bytes read. *)
Definition FIRCLSReadMemory {VM : VmRead} (src : Z) (len : nat) : M (option (list Z)) :=
  if negb (FIRCLSIsValidPointer src) then mret None else vm_read_overwrite src len.
