(* ===== verification/Arm64State.v ===== *)
(** The register state of a thread on ARM64: Crashlytics' accessors
    (FIRCLSThreadState.c), the DWARF numbering of registers, and unwinding by
    the link register and the frame pointer (FIRCLSUnwind_arm.c); the ARM64
    implementation of [ThreadState]. The thread
    state macros of the system read and write the fields of the state. *)
From S2P Require Import Prelude Memory DwarfData ThreadState.

(** [__ss] of the context: [__x[29]], [__fp], [__lr], [__sp], [__pc], [__cpsr]. *)
Record FIRCLSThreadContext := ThreadContext {
  ss_x : list Z;
  ss_fp : Z;
  ss_lr : Z;
  ss_sp : Z;
  ss_pc : Z;
  ss_cpsr : Z
}.

#[global] Instance thread_context_eq_dec : EqDecision FIRCLSThreadContext.
Proof. solve_decision. Defined.

Definition with_x (r : FIRCLSThreadContext) (n : nat) (v : Z) : FIRCLSThreadContext :=
  ThreadContext (<[n := v]> (ss_x r)) (ss_fp r) (ss_lr r) (ss_sp r) (ss_pc r) (ss_cpsr r).
Definition with_fp (r : FIRCLSThreadContext) (v : Z) : FIRCLSThreadContext :=
  ThreadContext (ss_x r) v (ss_lr r) (ss_sp r) (ss_pc r) (ss_cpsr r).
Definition with_lr (r : FIRCLSThreadContext) (v : Z) : FIRCLSThreadContext :=
  ThreadContext (ss_x r) (ss_fp r) v (ss_sp r) (ss_pc r) (ss_cpsr r).
Definition with_sp (r : FIRCLSThreadContext) (v : Z) : FIRCLSThreadContext :=
  ThreadContext (ss_x r) (ss_fp r) (ss_lr r) v (ss_pc r) (ss_cpsr r).
Definition with_pc (r : FIRCLSThreadContext) (v : Z) : FIRCLSThreadContext :=
  ThreadContext (ss_x r) (ss_fp r) (ss_lr r) (ss_sp r) v (ss_cpsr r).

(** ** Accessors *)

Definition CLS_PTRAUTH_STRIP (pointer : Z) : Z := Z.land pointer 0x0000000FFFFFFFFF.

Definition FIRCLSThreadContextGetPC (registers : option FIRCLSThreadContext) : Z :=
  match registers with None => 0 | Some r => CLS_PTRAUTH_STRIP (ss_pc r) end.

Definition FIRCLSThreadContextGetStackPointer (registers : option FIRCLSThreadContext) : Z :=
  match registers with None => 0 | Some r => CLS_PTRAUTH_STRIP (ss_sp r) end.

Definition FIRCLSThreadContextGetLinkRegister (registers : option FIRCLSThreadContext) : Z :=
  match registers with None => 0 | Some r => CLS_PTRAUTH_STRIP (ss_lr r) end.

Definition FIRCLSThreadContextGetFramePointer (registers : option FIRCLSThreadContext) : Z :=
  match registers with None => 0 | Some r => CLS_PTRAUTH_STRIP (ss_fp r) end.

(** What the setters return. *)
Definition arm64_res : Type := bool * option FIRCLSThreadContext.

Definition FIRCLSThreadContextSetStackPointer (registers : option FIRCLSThreadContext)
    (value : Z) : arm64_res :=
  match registers with None => (false, None) | Some r => (true, Some (with_sp r value)) end.

Definition FIRCLSThreadContextSetLinkRegister (registers : option FIRCLSThreadContext)
    (value : Z) : arm64_res :=
  match registers with None => (false, None) | Some r => (true, Some (with_lr r value)) end.

Definition FIRCLSThreadContextSetPC (registers : option FIRCLSThreadContext)
    (value : Z) : arm64_res :=
  match registers with None => (false, None) | Some r => (true, Some (with_pc r value)) end.

Definition FIRCLSThreadContextSetFramePointer (registers : option FIRCLSThreadContext)
    (value : Z) : arm64_res :=
  match registers with None => (false, None) | Some r => (true, Some (with_fp r value)) end.

(** ** DWARF register numbers *)

Definition CLS_DWARF_ARM64_FP : Z := 29.
Definition CLS_DWARF_ARM64_LR : Z := 30.
Definition CLS_DWARF_ARM64_SP : Z := 31.
Definition CLS_DWARF_MAX_REGISTER_NUM : Z := CLS_DWARF_ARM64_SP.
Definition CLS_DWARF_REG_RETURN : Z := CLS_DWARF_ARM64_LR.
Definition CLS_DWARF_REG_SP : Z := CLS_DWARF_ARM64_SP.

(** The cases [CLS_DWARF_ARM64_X0] to [CLS_DWARF_ARM64_X28]. *)
Definition is_x_register (num : Z) : bool := (0 <=? num) && (num <=? 28).

(** [registers->__ss.__x[num]]; the context is dereferenced unchecked. *)
Definition FIRCLSDwarfUnwindGetRegisterValue (registers : option FIRCLSThreadContext) (num : Z) :
    M Z :=
  if is_x_register num then
    r ← of_option registers;
    of_option (ss_x r !! Z.to_nat num)
  else if num =? CLS_DWARF_ARM64_FP then mret (FIRCLSThreadContextGetFramePointer registers)
  else if num =? CLS_DWARF_ARM64_LR then mret (FIRCLSThreadContextGetLinkRegister registers)
  else if num =? CLS_DWARF_ARM64_SP then mret (FIRCLSThreadContextGetStackPointer registers)
  else mret 0.

Definition FIRCLSDwarfUnwindSetRegisterValue (registers : option FIRCLSThreadContext)
    (num value : Z) : M arm64_res :=
  if is_x_register num then
    r ← of_option registers;
    mret (true, Some (with_x r (Z.to_nat num) value))
  else if num =? CLS_DWARF_ARM64_FP then
    mret (true, (FIRCLSThreadContextSetFramePointer registers value).2)
  else if num =? CLS_DWARF_ARM64_SP then
    mret (true, (FIRCLSThreadContextSetStackPointer registers value).2)
  else if num =? CLS_DWARF_ARM64_LR then
    let registers := (FIRCLSThreadContextSetLinkRegister registers value).2 in
    mret (true, (FIRCLSThreadContextSetPC registers value).2)
  else mret (false, registers).

(** ** The interface *)

Definition arm64 : ThreadState := {|
  thread_context := FIRCLSThreadContext;
  ThreadContextGetPC := FIRCLSThreadContextGetPC;
  ThreadContextGetStackPointer := FIRCLSThreadContextGetStackPointer;
  ThreadContextGetFramePointer := FIRCLSThreadContextGetFramePointer;
  ThreadContextSetPC := FIRCLSThreadContextSetPC;
  DwarfUnwindGetRegisterValue := FIRCLSDwarfUnwindGetRegisterValue;
  DwarfUnwindSetRegisterValue := FIRCLSDwarfUnwindSetRegisterValue;
  DWARF_MAX_REGISTER_NUM := CLS_DWARF_MAX_REGISTER_NUM;
  DWARF_REG_RETURN := CLS_DWARF_REG_RETURN;
  DWARF_REG_SP := CLS_DWARF_REG_SP
|}.

(** ** The laws *)

(** The stored value of a register. *)
Definition arm64_field (r : FIRCLSThreadContext) (n : Z) : option Z :=
  if is_x_register n then ss_x r !! Z.to_nat n
  else if n =? CLS_DWARF_ARM64_FP then Some (ss_fp r)
  else if n =? CLS_DWARF_ARM64_LR then Some (ss_lr r)
  else if n =? CLS_DWARF_ARM64_SP then Some (ss_sp r)
  else None.

Lemma arm64_set_register_run r n v w :
  0 <= n < 32 -> length (ss_x r) = 29%nat ->
  exists r', FIRCLSDwarfUnwindSetRegisterValue (Some r) n v w = Done (true, Some r') w /\
    length (ss_x r') = 29%nat /\ arm64_field r' n = Some v /\
    (forall n', 0 <= n' < 32 -> n' <> n -> arm64_field r' n' = arm64_field r n') /\
    ss_pc r' = if n =? CLS_DWARF_ARM64_LR then v else ss_pc r.
Proof.
  intros Hn Hl. unfold FIRCLSDwarfUnwindSetRegisterValue, arm64_field.
  destruct (is_x_register n) eqn:Ex.
  - cbn [of_option]. rewrite bind_ret. eexists. split; [done|]. cbn [with_x ss_x ss_fp ss_lr ss_sp ss_pc].
    unfold is_x_register in Ex. apply andb_true_iff in Ex as [?%Z.leb_le ?%Z.leb_le].
    split; [by rewrite length_insert|]. split; [by rewrite list_lookup_insert_eq by lia|].
    split; [|by rewrite (proj2 (Z.eqb_neq _ _)) by (unfold CLS_DWARF_ARM64_LR; lia)].
    intros n' Hn' Hne. destruct (is_x_register n') eqn:Ex'; [|done].
    unfold is_x_register in Ex'. apply andb_true_iff in Ex' as [?%Z.leb_le ?%Z.leb_le].
    by rewrite list_lookup_insert_ne by lia.
  - unfold is_x_register in Ex. assert (Hn' : n = 29 \/ n = 30 \/ n = 31).
    { apply andb_false_iff in Ex as [?%Z.leb_gt|?%Z.leb_gt]; lia. }
    destruct Hn' as [->|[->| ->]]; eexists; (split; [done|]);
      cbn [FIRCLSThreadContextSetFramePointer FIRCLSThreadContextSetLinkRegister
           FIRCLSThreadContextSetStackPointer FIRCLSThreadContextSetPC fst snd
           with_fp with_lr with_sp with_pc ss_x ss_fp ss_lr ss_sp ss_pc];
      (split; [done|]); (split; [done|]); (split; [|done]);
      intros n' Hn' Hne; unfold CLS_DWARF_ARM64_FP, CLS_DWARF_ARM64_LR, CLS_DWARF_ARM64_SP;
      repeat match goal with |- context [n' =? ?x] => destruct (Z.eqb_spec n' x); [lia|] end; try done;
      by destruct (is_x_register n').
Qed.

(** What is read of the stack pointer and of the return address. *)
Lemma arm64_sp_value r : @reg_value arm64 (Some r) CLS_DWARF_REG_SP = Some (CLS_PTRAUTH_STRIP (ss_sp r)).
Proof. reflexivity. Qed.

Lemma arm64_return_value r :
  @reg_value arm64 (Some r) CLS_DWARF_REG_RETURN = Some (CLS_PTRAUTH_STRIP (ss_lr r)).
Proof. reflexivity. Qed.

#[global] Instance arm64_laws : @ThreadStateLaws arm64.
Proof.
  split; cbn.
  - done.
  - intros r n w. unfold reg_value, FIRCLSDwarfUnwindGetRegisterValue, eval. cbn.
    unfold FIRCLSDwarfUnwindGetRegisterValue. destruct (is_x_register n).
    + destruct r as [r|]; [|done]. cbn [of_option]. rewrite !bind_ret. by destruct (ss_x r !! _).
    + by repeat match goal with |- context [if ?b then _ else _] => destruct b end.
  - intros r n v w. unfold FIRCLSDwarfUnwindSetRegisterValue. cbn [of_option].
    destruct (is_x_register n); [rewrite bind_ret; by do 2 eexists|].
    repeat match goal with |- context [if ?b then _ else _] => destruct b end; by do 2 eexists.
  - intros r v. by eexists.
Qed.

#[global] Instance arm64_file : @RegisterFile arm64.
Proof.
  refine {| wf_context (r : @thread_context arm64) := length (ss_x r) = 29%nat;
    reg_field := arm64_field : @thread_context arm64 -> _; pc_field := ss_pc : @thread_context arm64 -> _ |}.
  1-3: done.
  { change DWARF_MAX_REGISTER_NUM with 31. intros r n Hn Hr. unfold reg_value, eval.
    cbn [DwarfUnwindGetRegisterValue arm64]. unfold FIRCLSDwarfUnwindGetRegisterValue.
    destruct (is_x_register n) eqn:Ex.
    - unfold is_x_register in Ex. apply andb_true_iff in Ex as [?%Z.leb_le ?%Z.leb_le]. cbn [of_option].
      rewrite bind_ret. destruct (lookup_lt_is_Some_2 (ss_x r) (Z.to_nat n)) as [x ->]; [lia|]. by eexists.
    - by repeat match goal with |- context [if ?b then _ else _] => destruct b; [by eexists|] end. }
  change DWARF_MAX_REGISTER_NUM with 31. intros r n v w Hn Hr.
  destruct (arm64_set_register_run r n v w ltac:(lia) Hr) as (r' & E & Hl & Hv & Hf & Hp).
  exists r'. split_and!; [done..| |done]. intros n' Hn'. apply Hf. lia.
Defined.

Section Unwind.
Context {VM : VmRead}.

(** ** Unwinding without tables *)

Definition FIRCLSUnwindWithLRRegister (registers : option FIRCLSThreadContext) : arm64_res :=
  match registers with
  | None => (false, None)
  | Some _ =>
      let value := FIRCLSThreadContextGetLinkRegister registers in
      if negb (FIRCLSIsValidPointer value) then (false, registers)
      else FIRCLSThreadContextSetPC registers value
  end.

Definition FIRCLSUnwindStackPointerFromFramePointer (framePtr : Z) : Z := u64 (framePtr + 2 * 8).

Definition FIRCLSUnwindWithFramePointer (registers : option FIRCLSThreadContext)
    (allowScanning : bool) : M arm64_res :=
  let '(ok, registers) :=
    if allowScanning then FIRCLSUnwindWithLRRegister registers else (false, registers) in
  if ok : bool then mret (true, registers)
  else
    let framePointer := FIRCLSThreadContextGetFramePointer registers in
    stack ← FIRCLSReadMemory framePointer 16;
    match stack with
    | None => mret (false, registers)
    | Some bs =>
        let stack0 := le_val (take 8 bs) in
        let stack1 := le_val (drop 8 bs) in
        let '(ok, registers) := FIRCLSThreadContextSetPC registers stack1 in
        if negb ok then mret (false, registers)
        else
          let '(ok, registers) := FIRCLSThreadContextSetFramePointer registers stack0 in
          if negb ok then mret (false, registers)
          else
            let '(ok, registers) :=
              FIRCLSThreadContextSetStackPointer registers
                (FIRCLSUnwindStackPointerFromFramePointer framePointer) in
            mret (ok, registers)
    end.

End Unwind.
