(* ===== verification/X86State.v ===== *)
(** The register state of a thread on x86_64: Crashlytics' accessors
    (FIRCLSThreadState.c) and the DWARF numbering of registers
    (FIRCLSUnwind_x86.c). The functions that have another version on ARM64 end
    in [_x86_64]. *)
From S2P Require Import Prelude Memory DwarfData ThreadState.

(** [__ss] of the context: the registers in the order of the DWARF numbers, the
    flags and the segments. *)
Record X86ThreadContext := X86Context {
  ss_rax : Z;
  ss_rdx : Z;
  ss_rcx : Z;
  ss_rbx : Z;
  ss_rsi : Z;
  ss_rdi : Z;
  ss_rbp : Z;
  ss_rsp : Z;
  ss_r8 : Z;
  ss_r9 : Z;
  ss_r10 : Z;
  ss_r11 : Z;
  ss_r12 : Z;
  ss_r13 : Z;
  ss_r14 : Z;
  ss_r15 : Z;
  ss_rip : Z;
  ss_rflags : Z;
  ss_cs : Z;
  ss_fs : Z;
  ss_gs : Z
}.

#[global] Instance x86_context_eq_dec : EqDecision X86ThreadContext.
Proof. solve_decision. Defined.

Definition with_rax (r : X86ThreadContext) (v : Z) : X86ThreadContext :=
  X86Context v (ss_rdx r) (ss_rcx r) (ss_rbx r) (ss_rsi r) (ss_rdi r) (ss_rbp r) (ss_rsp r)
    (ss_r8 r) (ss_r9 r) (ss_r10 r) (ss_r11 r) (ss_r12 r) (ss_r13 r) (ss_r14 r) (ss_r15 r) (ss_rip r)
    (ss_rflags r) (ss_cs r) (ss_fs r) (ss_gs r).
Definition with_rdx (r : X86ThreadContext) (v : Z) : X86ThreadContext :=
  X86Context (ss_rax r) v (ss_rcx r) (ss_rbx r) (ss_rsi r) (ss_rdi r) (ss_rbp r) (ss_rsp r)
    (ss_r8 r) (ss_r9 r) (ss_r10 r) (ss_r11 r) (ss_r12 r) (ss_r13 r) (ss_r14 r) (ss_r15 r) (ss_rip r)
    (ss_rflags r) (ss_cs r) (ss_fs r) (ss_gs r).
Definition with_rcx (r : X86ThreadContext) (v : Z) : X86ThreadContext :=
  X86Context (ss_rax r) (ss_rdx r) v (ss_rbx r) (ss_rsi r) (ss_rdi r) (ss_rbp r) (ss_rsp r)
    (ss_r8 r) (ss_r9 r) (ss_r10 r) (ss_r11 r) (ss_r12 r) (ss_r13 r) (ss_r14 r) (ss_r15 r) (ss_rip r)
    (ss_rflags r) (ss_cs r) (ss_fs r) (ss_gs r).
Definition with_rbx (r : X86ThreadContext) (v : Z) : X86ThreadContext :=
  X86Context (ss_rax r) (ss_rdx r) (ss_rcx r) v (ss_rsi r) (ss_rdi r) (ss_rbp r) (ss_rsp r)
    (ss_r8 r) (ss_r9 r) (ss_r10 r) (ss_r11 r) (ss_r12 r) (ss_r13 r) (ss_r14 r) (ss_r15 r) (ss_rip r)
    (ss_rflags r) (ss_cs r) (ss_fs r) (ss_gs r).
Definition with_rsi (r : X86ThreadContext) (v : Z) : X86ThreadContext :=
  X86Context (ss_rax r) (ss_rdx r) (ss_rcx r) (ss_rbx r) v (ss_rdi r) (ss_rbp r) (ss_rsp r)
    (ss_r8 r) (ss_r9 r) (ss_r10 r) (ss_r11 r) (ss_r12 r) (ss_r13 r) (ss_r14 r) (ss_r15 r) (ss_rip r)
    (ss_rflags r) (ss_cs r) (ss_fs r) (ss_gs r).
Definition with_rdi (r : X86ThreadContext) (v : Z) : X86ThreadContext :=
  X86Context (ss_rax r) (ss_rdx r) (ss_rcx r) (ss_rbx r) (ss_rsi r) v (ss_rbp r) (ss_rsp r)
    (ss_r8 r) (ss_r9 r) (ss_r10 r) (ss_r11 r) (ss_r12 r) (ss_r13 r) (ss_r14 r) (ss_r15 r) (ss_rip r)
    (ss_rflags r) (ss_cs r) (ss_fs r) (ss_gs r).
Definition with_rbp (r : X86ThreadContext) (v : Z) : X86ThreadContext :=
  X86Context (ss_rax r) (ss_rdx r) (ss_rcx r) (ss_rbx r) (ss_rsi r) (ss_rdi r) v (ss_rsp r)
    (ss_r8 r) (ss_r9 r) (ss_r10 r) (ss_r11 r) (ss_r12 r) (ss_r13 r) (ss_r14 r) (ss_r15 r) (ss_rip r)
    (ss_rflags r) (ss_cs r) (ss_fs r) (ss_gs r).
Definition with_rsp (r : X86ThreadContext) (v : Z) : X86ThreadContext :=
  X86Context (ss_rax r) (ss_rdx r) (ss_rcx r) (ss_rbx r) (ss_rsi r) (ss_rdi r) (ss_rbp r) v
    (ss_r8 r) (ss_r9 r) (ss_r10 r) (ss_r11 r) (ss_r12 r) (ss_r13 r) (ss_r14 r) (ss_r15 r) (ss_rip r)
    (ss_rflags r) (ss_cs r) (ss_fs r) (ss_gs r).
Definition with_r8 (r : X86ThreadContext) (v : Z) : X86ThreadContext :=
  X86Context (ss_rax r) (ss_rdx r) (ss_rcx r) (ss_rbx r) (ss_rsi r) (ss_rdi r) (ss_rbp r) (ss_rsp r)
    v (ss_r9 r) (ss_r10 r) (ss_r11 r) (ss_r12 r) (ss_r13 r) (ss_r14 r) (ss_r15 r) (ss_rip r)
    (ss_rflags r) (ss_cs r) (ss_fs r) (ss_gs r).
Definition with_r9 (r : X86ThreadContext) (v : Z) : X86ThreadContext :=
  X86Context (ss_rax r) (ss_rdx r) (ss_rcx r) (ss_rbx r) (ss_rsi r) (ss_rdi r) (ss_rbp r) (ss_rsp r)
    (ss_r8 r) v (ss_r10 r) (ss_r11 r) (ss_r12 r) (ss_r13 r) (ss_r14 r) (ss_r15 r) (ss_rip r)
    (ss_rflags r) (ss_cs r) (ss_fs r) (ss_gs r).
Definition with_r10 (r : X86ThreadContext) (v : Z) : X86ThreadContext :=
  X86Context (ss_rax r) (ss_rdx r) (ss_rcx r) (ss_rbx r) (ss_rsi r) (ss_rdi r) (ss_rbp r) (ss_rsp r)
    (ss_r8 r) (ss_r9 r) v (ss_r11 r) (ss_r12 r) (ss_r13 r) (ss_r14 r) (ss_r15 r) (ss_rip r)
    (ss_rflags r) (ss_cs r) (ss_fs r) (ss_gs r).
Definition with_r11 (r : X86ThreadContext) (v : Z) : X86ThreadContext :=
  X86Context (ss_rax r) (ss_rdx r) (ss_rcx r) (ss_rbx r) (ss_rsi r) (ss_rdi r) (ss_rbp r) (ss_rsp r)
    (ss_r8 r) (ss_r9 r) (ss_r10 r) v (ss_r12 r) (ss_r13 r) (ss_r14 r) (ss_r15 r) (ss_rip r)
    (ss_rflags r) (ss_cs r) (ss_fs r) (ss_gs r).
Definition with_r12 (r : X86ThreadContext) (v : Z) : X86ThreadContext :=
  X86Context (ss_rax r) (ss_rdx r) (ss_rcx r) (ss_rbx r) (ss_rsi r) (ss_rdi r) (ss_rbp r) (ss_rsp r)
    (ss_r8 r) (ss_r9 r) (ss_r10 r) (ss_r11 r) v (ss_r13 r) (ss_r14 r) (ss_r15 r) (ss_rip r)
    (ss_rflags r) (ss_cs r) (ss_fs r) (ss_gs r).
Definition with_r13 (r : X86ThreadContext) (v : Z) : X86ThreadContext :=
  X86Context (ss_rax r) (ss_rdx r) (ss_rcx r) (ss_rbx r) (ss_rsi r) (ss_rdi r) (ss_rbp r) (ss_rsp r)
    (ss_r8 r) (ss_r9 r) (ss_r10 r) (ss_r11 r) (ss_r12 r) v (ss_r14 r) (ss_r15 r) (ss_rip r)
    (ss_rflags r) (ss_cs r) (ss_fs r) (ss_gs r).
Definition with_r14 (r : X86ThreadContext) (v : Z) : X86ThreadContext :=
  X86Context (ss_rax r) (ss_rdx r) (ss_rcx r) (ss_rbx r) (ss_rsi r) (ss_rdi r) (ss_rbp r) (ss_rsp r)
    (ss_r8 r) (ss_r9 r) (ss_r10 r) (ss_r11 r) (ss_r12 r) (ss_r13 r) v (ss_r15 r) (ss_rip r)
    (ss_rflags r) (ss_cs r) (ss_fs r) (ss_gs r).
Definition with_r15 (r : X86ThreadContext) (v : Z) : X86ThreadContext :=
  X86Context (ss_rax r) (ss_rdx r) (ss_rcx r) (ss_rbx r) (ss_rsi r) (ss_rdi r) (ss_rbp r) (ss_rsp r)
    (ss_r8 r) (ss_r9 r) (ss_r10 r) (ss_r11 r) (ss_r12 r) (ss_r13 r) (ss_r14 r) v (ss_rip r)
    (ss_rflags r) (ss_cs r) (ss_fs r) (ss_gs r).
Definition with_rip (r : X86ThreadContext) (v : Z) : X86ThreadContext :=
  X86Context (ss_rax r) (ss_rdx r) (ss_rcx r) (ss_rbx r) (ss_rsi r) (ss_rdi r) (ss_rbp r) (ss_rsp r)
    (ss_r8 r) (ss_r9 r) (ss_r10 r) (ss_r11 r) (ss_r12 r) (ss_r13 r) (ss_r14 r) (ss_r15 r) v
    (ss_rflags r) (ss_cs r) (ss_fs r) (ss_gs r).

(** ** Accessors *)

Definition FIRCLSThreadContextGetPC_x86_64 (registers : option X86ThreadContext) : Z :=
  match registers with None => 0 | Some r => ss_rip r end.

Definition FIRCLSThreadContextGetStackPointer_x86_64 (registers : option X86ThreadContext) : Z :=
  match registers with None => 0 | Some r => ss_rsp r end.

Definition FIRCLSThreadContextGetFramePointer_x86_64 (registers : option X86ThreadContext) : Z :=
  match registers with None => 0 | Some r => ss_rbp r end.

(** What the setters return. *)
Definition x86_res : Type := bool * option X86ThreadContext.

Definition FIRCLSThreadContextSetStackPointer_x86_64 (registers : option X86ThreadContext)
    (value : Z) : x86_res :=
  match registers with None => (false, None) | Some r => (true, Some (with_rsp r value)) end.

Definition FIRCLSThreadContextSetPC_x86_64 (registers : option X86ThreadContext)
    (value : Z) : x86_res :=
  match registers with None => (false, None) | Some r => (true, Some (with_rip r value)) end.

Definition FIRCLSThreadContextSetFramePointer_x86_64 (registers : option X86ThreadContext)
    (value : Z) : x86_res :=
  match registers with None => (false, None) | Some r => (true, Some (with_rbp r value)) end.

(** ** DWARF register numbers *)

Definition CLS_DWARF_X86_64_RAX : Z := 0.
Definition CLS_DWARF_X86_64_RDX : Z := 1.
Definition CLS_DWARF_X86_64_RCX : Z := 2.
Definition CLS_DWARF_X86_64_RBX : Z := 3.
Definition CLS_DWARF_X86_64_RSI : Z := 4.
Definition CLS_DWARF_X86_64_RDI : Z := 5.
Definition CLS_DWARF_X86_64_RBP : Z := 6.
Definition CLS_DWARF_X86_64_RSP : Z := 7.
Definition CLS_DWARF_X86_64_R8 : Z := 8.
Definition CLS_DWARF_X86_64_R9 : Z := 9.
Definition CLS_DWARF_X86_64_R10 : Z := 10.
Definition CLS_DWARF_X86_64_R11 : Z := 11.
Definition CLS_DWARF_X86_64_R12 : Z := 12.
Definition CLS_DWARF_X86_64_R13 : Z := 13.
Definition CLS_DWARF_X86_64_R14 : Z := 14.
Definition CLS_DWARF_X86_64_R15 : Z := 15.
Definition CLS_DWARF_X86_64_RET_ADDR : Z := 16.

(** [registers->__ss.__rax] and the like dereference the context unchecked. *)
Definition FIRCLSDwarfUnwindGetRegisterValue_x86_64 (registers : option X86ThreadContext) (num : Z) :
    M Z :=
  let field (f : X86ThreadContext -> Z) : M Z := f <$> of_option registers in
  if num =? CLS_DWARF_X86_64_RAX then field ss_rax else
  if num =? CLS_DWARF_X86_64_RDX then field ss_rdx else
  if num =? CLS_DWARF_X86_64_RCX then field ss_rcx else
  if num =? CLS_DWARF_X86_64_RBX then field ss_rbx else
  if num =? CLS_DWARF_X86_64_RSI then field ss_rsi else
  if num =? CLS_DWARF_X86_64_RDI then field ss_rdi else
  if num =? CLS_DWARF_X86_64_RBP then field ss_rbp else
  if num =? CLS_DWARF_X86_64_RSP then field ss_rsp else
  if num =? CLS_DWARF_X86_64_R8 then field ss_r8 else
  if num =? CLS_DWARF_X86_64_R9 then field ss_r9 else
  if num =? CLS_DWARF_X86_64_R10 then field ss_r10 else
  if num =? CLS_DWARF_X86_64_R11 then field ss_r11 else
  if num =? CLS_DWARF_X86_64_R12 then field ss_r12 else
  if num =? CLS_DWARF_X86_64_R13 then field ss_r13 else
  if num =? CLS_DWARF_X86_64_R14 then field ss_r14 else
  if num =? CLS_DWARF_X86_64_R15 then field ss_r15 else
  if num =? CLS_DWARF_X86_64_RET_ADDR then field ss_rip else
  mret 0.

Definition FIRCLSDwarfUnwindSetRegisterValue_x86_64 (registers : option X86ThreadContext)
    (num value : Z) : M x86_res :=
  let field (f : X86ThreadContext -> Z -> X86ThreadContext) : M x86_res :=
    r ← of_option registers; mret (true, Some (f r value)) in
  if num =? CLS_DWARF_X86_64_RAX then field with_rax else
  if num =? CLS_DWARF_X86_64_RDX then field with_rdx else
  if num =? CLS_DWARF_X86_64_RCX then field with_rcx else
  if num =? CLS_DWARF_X86_64_RBX then field with_rbx else
  if num =? CLS_DWARF_X86_64_RSI then field with_rsi else
  if num =? CLS_DWARF_X86_64_RDI then field with_rdi else
  if num =? CLS_DWARF_X86_64_RBP then field with_rbp else
  if num =? CLS_DWARF_X86_64_RSP then field with_rsp else
  if num =? CLS_DWARF_X86_64_R8 then field with_r8 else
  if num =? CLS_DWARF_X86_64_R9 then field with_r9 else
  if num =? CLS_DWARF_X86_64_R10 then field with_r10 else
  if num =? CLS_DWARF_X86_64_R11 then field with_r11 else
  if num =? CLS_DWARF_X86_64_R12 then field with_r12 else
  if num =? CLS_DWARF_X86_64_R13 then field with_r13 else
  if num =? CLS_DWARF_X86_64_R14 then field with_r14 else
  if num =? CLS_DWARF_X86_64_R15 then field with_r15 else
  if num =? CLS_DWARF_X86_64_RET_ADDR then field with_rip else
  mret (false, registers).

(** ** The interface *)

Definition x86_64 : ThreadState := {|
  thread_context := X86ThreadContext;
  ThreadContextGetPC := FIRCLSThreadContextGetPC_x86_64;
  ThreadContextGetStackPointer := FIRCLSThreadContextGetStackPointer_x86_64;
  ThreadContextGetFramePointer := FIRCLSThreadContextGetFramePointer_x86_64;
  ThreadContextSetPC := FIRCLSThreadContextSetPC_x86_64;
  DwarfUnwindGetRegisterValue := FIRCLSDwarfUnwindGetRegisterValue_x86_64;
  DwarfUnwindSetRegisterValue := FIRCLSDwarfUnwindSetRegisterValue_x86_64;
  DWARF_MAX_REGISTER_NUM := CLS_DWARF_X86_64_RET_ADDR;
  DWARF_REG_RETURN := CLS_DWARF_X86_64_RET_ADDR;
  DWARF_REG_SP := CLS_DWARF_X86_64_RSP
|}.

(** ** The laws *)

Definition x86_fields (r : X86ThreadContext) : list Z :=
  [ss_rax r; ss_rdx r; ss_rcx r; ss_rbx r; ss_rsi r; ss_rdi r; ss_rbp r; ss_rsp r; ss_r8 r;
   ss_r9 r; ss_r10 r; ss_r11 r; ss_r12 r; ss_r13 r; ss_r14 r; ss_r15 r; ss_rip r].

(** The stored value of a register. *)
Definition x86_field (r : X86ThreadContext) (n : Z) : option Z := x86_fields r !! Z.to_nat n.

(** The numbers of the registers, one by one. *)
Lemma x86_number n : 0 <= n <= 16 -> n ∈ seqZ 0 17.
Proof. intros H. apply elem_of_seqZ. lia. Qed.

Ltac each_register H :=
  apply x86_number in H; cbn in H;
  repeat (apply elem_of_cons in H as [->|H]); [..|by apply not_elem_of_nil in H].

Lemma x86_set_register_run r n v w :
  0 <= n <= 16 ->
  exists r', FIRCLSDwarfUnwindSetRegisterValue_x86_64 (Some r) n v w = Done (true, Some r') w /\
    x86_fields r' = <[Z.to_nat n := v]> (x86_fields r).
Proof. intros Hn. each_register Hn; by eexists. Qed.

#[global] Instance x86_64_laws : @ThreadStateLaws x86_64.
Proof.
  split; cbn [DwarfUnwindGetRegisterValue DwarfUnwindSetRegisterValue ThreadContextSetPC x86_64].
  - done.
  - intros r n w. unfold reg_value, eval. cbn [DwarfUnwindGetRegisterValue x86_64].
    unfold FIRCLSDwarfUnwindGetRegisterValue_x86_64. cbv zeta. destruct r as [r|];
      by repeat match goal with |- context [if ?b then _ else _] => destruct b; [done|] end.
  - intros r n v w. unfold FIRCLSDwarfUnwindSetRegisterValue_x86_64. cbv zeta.
    repeat match goal with |- context [if ?b then _ else _] => destruct b; [by do 2 eexists|] end.
    by do 2 eexists.
  - intros r v. by eexists.
Qed.

#[global] Instance x86_64_file : @RegisterFile x86_64.
Proof.
  refine {| wf_context (_ : @thread_context x86_64) := True;
    reg_field := x86_field : @thread_context x86_64 -> _; pc_field := ss_rip : @thread_context x86_64 -> _ |}.
  1-3: done.
  - change DWARF_MAX_REGISTER_NUM with 16. intros r n Hn _. each_register Hn; by eexists.
  - change DWARF_MAX_REGISTER_NUM with 16. intros r n v w Hn _.
    destruct (x86_set_register_run r n v w Hn) as (r' & E & Ef). exists r'. split; [exact E|].
    split; [done|]. unfold x86_field. rewrite Ef. split; [apply list_lookup_insert_eq; cbn; lia|]. split.
    + intros n' Hn' Hne. apply list_lookup_insert_ne. lia.
    + apply (f_equal (fun l => l !! 16%nat)) in Ef. change (x86_fields r' !! 16%nat) with (Some (ss_rip r')) in Ef.
      change DWARF_REG_RETURN with 16. destruct (Z.eqb_spec n 16) as [->|Hne].
      * rewrite list_lookup_insert_eq in Ef by (cbn; lia). by injection Ef.
      * rewrite list_lookup_insert_ne in Ef by lia. by injection Ef.
Defined.
