(* ===== verification/DwarfDataSpec.v ===== *)
(** The DWARF data formats, and that FIRCLSDataParsing.c reads them: LEB128
    numbers and encoded addresses. *)
From S2P Require Import Prelude Memory PbWire DwarfData.

(** The function a term applies. *)
Ltac head_of t := match t with ?f _ => head_of f | _ => t end.

(** ** Bytes in memory *)

(** [bs] is at [a]. *)
Definition holds (m : gmap Z Z) (a : Z) (bs : list Z) : Prop :=
  read_bytes m a (length bs) = Some bs.

Lemma holds_cons m a b bs : holds m a (b :: bs) <-> m !! a = Some b /\ holds m (a + 1) bs.
Proof.
  unfold holds. cbn. split.
  - intros (b' & Hb & (bs' & Hr & [= -> ->])%bind_Some)%bind_Some. done.
  - intros [Hb Hr]. by rewrite Hb; cbn; rewrite Hr.
Qed.

Lemma holds_app m a bs1 bs2 :
  holds m a (bs1 ++ bs2) <-> holds m a bs1 /\ holds m (a + Z.of_nat (length bs1)) bs2.
Proof.
  revert a. induction bs1 as [|b bs1 IH]; intros a; cbn [app length].
  - rewrite Z.add_0_r. split; [by split|by intros [_ ?]].
  - rewrite !holds_cons, IH. replace (a + Z.of_nat (S (length bs1))) with
      (a + 1 + Z.of_nat (length bs1)) by lia. tauto.
Qed.

Lemma load_byte w a b bs : holds (mem w) a (b :: bs) -> load 1 a w = Done b w.
Proof.
  intros [Hb _]%holds_cons. unfold load, read_le. cbn. rewrite Hb. cbn. f_equal. lia.
Qed.

Lemma holds_tail m a b bs : holds m a (b :: bs) -> holds m (a + 1) bs.
Proof. by intros [_ ?]%holds_cons. Qed.

Lemma load_holds w a n v :
  holds (mem w) a (le_bytes n v) -> 0 <= v < 2 ^ (8 * Z.of_nat n) -> load n a w = Done v w.
Proof.
  intros H Hv. unfold load. unfold holds in H. rewrite length_le_bytes in H.
  by rewrite (read_le_bytes_val _ _ _ _ Hv H).
Qed.

(** ** Unsigned LEB128 *)

Lemma int_shl_done a n w :
  0 <= a -> 0 <= n < 32 -> a * 2 ^ n < 2 ^ 31 -> int_shl a n w = Done (a * 2 ^ n) w.
Proof.
  intros. unfold int_shl. rewrite Z.shiftl_mul_pow2 by lia.
  by rewrite (proj2 (Z.ltb_lt _ _)), (proj2 (Z.ltb_lt _ _)) by lia.
Qed.

Lemma int_shl_fault a n w :
  0 <= n -> 32 <= n \/ 2 ^ 31 <= a * 2 ^ n -> int_shl a n w = Fault.
Proof.
  intros Hn H. unfold int_shl. rewrite Z.shiftl_mul_pow2 by lia.
  destruct (Z.ltb_spec n 32); [|done]. by rewrite (proj2 (Z.ltb_ge _ _)) by lia.
Qed.

(** The continuation bit and the group of a byte. *)
Lemma leb_more v : 0 <= v < 128 -> (Z.land 128 (v + 128) =? 0) = false.
Proof.
  intros. rewrite Z.land_comm, land_128, (proj2 (Z.ltb_ge _ _)) by (unfold is_byte; lia). done.
Qed.

Lemma leb_last v : 0 <= v < 128 -> (Z.land 128 v =? 0) = true.
Proof.
  intros. rewrite Z.land_comm, land_128, (proj2 (Z.ltb_lt _ _)) by (unfold is_byte; lia). done.
Qed.

Lemma leb_group v : 0 <= v < 128 -> Z.land 127 (v + 128) = v.
Proof.
  intros. rewrite Z.land_comm, land_127, <- Z.add_mod_idemp_r, Z_mod_same_full, Z.add_0_r by lia.
  by apply Z.mod_small.
Qed.

Lemma leb_group_last v : 0 <= v < 128 -> Z.land 127 v = v.
Proof. intros. rewrite Z.land_comm, land_127. by apply Z.mod_small. Qed.

(** A group below 31 bits is added to the result. *)
Lemma leb_accumulate r x k :
  0 <= k -> 0 <= r < 2 ^ k -> 0 <= x -> x * 2 ^ k < 2 ^ 31 ->
  Z.lor r (u64 (x * 2 ^ k)) = r + x * 2 ^ k.
Proof.
  intros Hk Hr Hx Hlt. assert (0 < 2 ^ k) by (apply Z.pow_pos_nonneg; lia).
  rewrite wrap_small by nia. rewrite <- (Z.shiftl_mul_pow2 x k) by lia.
  rewrite lor_shiftl_add by lia. by rewrite Z.shiftl_mul_pow2 by lia.
Qed.

Lemma pow7_S (k : nat) : 2 ^ (7 * Z.of_nat (S k)) = 128 * 2 ^ (7 * Z.of_nat k).
Proof.
  replace (7 * Z.of_nat (S k)) with (7 + 7 * Z.of_nat k) by lia. by rewrite Z.pow_add_r by lia.
Qed.

Lemma uleb128_loop_small (n k : nat) c r v w :
  (n + k = 8)%nat -> (0 < n)%nat -> (k = 0%nat \/ 1 <= v) ->
  0 <= v -> v * 2 ^ (7 * Z.of_nat k) < 2 ^ 31 -> 0 <= r < 2 ^ (7 * Z.of_nat k) ->
  holds (mem w) c (varint_fuel n v) ->
  uleb128_loop n c r (7 * Z.of_nat k) w =
  Done (r + v * 2 ^ (7 * Z.of_nat k), c + Z.of_nat (length (varint_fuel n v))) w.
Proof.
  revert k c r v. induction n as [|n IH]; intros k c r v Hn Hn0 Hv1 Hv0 Hv Hr Hc; [lia|].
  assert (Hk : 7 * Z.of_nat k < 32).
  { destruct (Nat.le_gt_cases k 4); [lia|]. exfalso. destruct Hv1 as [->|Hv1]; [lia|].
    assert (2 ^ 35 <= 2 ^ (7 * Z.of_nat k)) by (apply Z.pow_le_mono_r; lia). nia. }
  assert (Hp : 0 < 2 ^ (7 * Z.of_nat k)) by (apply Z.pow_pos_nonneg; lia).
  cbn [varint_fuel uleb128_loop] in *. destruct (Z.ltb_spec v 128) as [Hlt|Hge].
  - rewrite (bind_done _ _ _ _ _ (load_byte _ _ _ _ Hc)), leb_group_last by lia.
    rewrite (bind_done _ _ _ _ _ (int_shl_done v (7 * Z.of_nat k) w Hv0 ltac:(lia) Hv)), leb_last by lia.
    by rewrite leb_accumulate by lia.
  - pose proof (Z.mod_pos_bound v 128 ltac:(lia)) as Hm.
    pose proof (Z.div_mod v 128 ltac:(lia)) as Hd.
    assert (Hx : v mod 128 * 2 ^ (7 * Z.of_nat k) < 2 ^ 31) by nia.
    rewrite (bind_done _ _ _ _ _ (load_byte _ _ _ _ Hc)), leb_group by lia.
    rewrite (bind_done _ _ _ _ _ (int_shl_done (v mod 128) (7 * Z.of_nat k) w ltac:(lia) ltac:(lia) Hx)), leb_more by lia.
    rewrite leb_accumulate by lia.
    replace (7 * Z.of_nat k + 7) with (7 * Z.of_nat (S k)) by lia.
    pose proof (pow7_S k) as Ep.
    assert (1 <= v / 128) by (apply Z.div_le_lower_bound; lia).
    destruct n as [|n]; [exfalso; replace k with 7%nat in * by lia; lia|].
    rewrite (IH (S k) (c + 1) _ (v / 128)); [|lia|lia|by right|lia|rewrite Ep; nia|rewrite Ep; nia|by apply holds_tail in Hc].
    rewrite Ep. cbn [length]. f_equal. f_equal; [nia|lia].
Qed.

Lemma uleb128_loop_overflow (n k : nat) c r v w :
  (n + k = 8)%nat -> (k <= 5)%nat -> 1 <= v ->
  (k = 5%nat \/ 2 ^ 31 <= v * 2 ^ (7 * Z.of_nat k)) ->
  (exists m rest, v < 128 ^ Z.of_nat m /\ holds (mem w) c (varint_fuel m v ++ rest)) ->
  uleb128_loop n c r (7 * Z.of_nat k) w = Fault.
Proof.
  revert k c r v. induction n as [|n IH]; intros k c r v Hn Hk Hv1 Hv (m & rest & Hm0 & Hc); [lia|].
  destruct m as [|m]; [change (128 ^ Z.of_nat 0) with 1 in Hm0; lia|].
  cbn [varint_fuel uleb128_loop] in *.
  assert (Hp : 0 < 2 ^ (7 * Z.of_nat k)) by (apply Z.pow_pos_nonneg; lia).
  destruct (Z.ltb_spec v 128) as [Hlt|Hge]; cbn [app] in Hc;
    rewrite (bind_done _ _ _ _ _ (load_byte _ _ _ _ Hc)).
  - rewrite leb_group_last by lia. unfold mbind at 1, M_bind at 1.
    rewrite int_shl_fault by (destruct Hv as [->|Hv]; [lia|lia]). done.
  - pose proof (Z.mod_pos_bound v 128 ltac:(lia)) as Hm.
    pose proof (Z.div_mod v 128 ltac:(lia)) as Hd.
    rewrite leb_group by lia. destruct (decide (k = 5%nat)) as [->|Hk5].
    { unfold mbind at 1, M_bind at 1. by rewrite int_shl_fault by lia. }
    destruct (Z_lt_dec (v mod 128 * 2 ^ (7 * Z.of_nat k)) (2 ^ 31)) as [Hx|Hx].
    2: { unfold mbind at 1, M_bind at 1. by rewrite int_shl_fault by lia. }
    rewrite (bind_done _ _ _ _ _ (int_shl_done (v mod 128) (7 * Z.of_nat k) w ltac:(lia) ltac:(lia) Hx)), leb_more by lia.
    replace (7 * Z.of_nat k + 7) with (7 * Z.of_nat (S k)) by lia.
    assert (1 <= v / 128) by (apply Z.div_le_lower_bound; lia).
    apply (IH (S k) _ _ (v / 128)); [lia|lia|lia| |].
    + destruct (decide (k = 4%nat)) as [->|Hk4]; [by left|right].
      destruct Hv as [->|Hv]; [lia|]. rewrite pow7_S.
      assert (Ek : 2 ^ 31 = 2 ^ (24 - 7 * Z.of_nat k) * 128 * 2 ^ (7 * Z.of_nat k)).
      { change 128 with (2 ^ 7). rewrite <- !Z.pow_add_r by lia. f_equal. lia. }
      assert (2 ^ (24 - 7 * Z.of_nat k) * 128 <= v) by nia.
      assert (2 ^ (24 - 7 * Z.of_nat k) <= v / 128) by (apply Z.div_le_lower_bound; lia). nia.
    + exists m, rest. split; [|by apply holds_tail in Hc].
      rewrite Nat2Z.inj_succ, Z.pow_succ_r in Hm0 by lia. apply Z.div_lt_upper_bound; lia.
Qed.

(** A canonical encoding of a 64-bit value: below 2^31 the value is read,
    beyond it a shift of [int] is undefined. *)
Lemma FIRCLSParseULEB128_spec v c w :
  0 <= v < 2 ^ 64 -> holds (mem w) c (varint_bytes v) ->
  FIRCLSParseULEB128AndAdvance c w =
  if v <? 2 ^ 31 then Done (v, c + Z.of_nat (length (varint_bytes v))) w else Fault.
Proof.
  intros Hv Hc. unfold FIRCLSParseULEB128AndAdvance. destruct (Z.ltb_spec v (2 ^ 31)) as [Hlt|Hge].
  - assert (Ev : varint_bytes v = varint_fuel 8 v).
    { apply (varint_fuel_enough 8 2); [|lia]. change (128 ^ Z.of_nat 8) with (2 ^ 56). lia. }
    rewrite Ev in *.
    assert (E := uleb128_loop_small 8 0 c 0 v w ltac:(lia) ltac:(lia) ltac:(by left)
                   ltac:(lia) ltac:(cbn; lia) ltac:(cbn; lia) Hc).
    change (7 * Z.of_nat 0) with 0 in E. rewrite E. f_equal. f_equal. lia.
  - apply (uleb128_loop_overflow 8 0 c 0 v w); [lia|lia|lia|right; cbn; lia|].
    exists 10%nat, []. rewrite app_nil_r. split; [|done].
    change (128 ^ Z.of_nat 10) with (2 ^ 70). lia.
Qed.

(** ** Signed LEB128 *)

(** The canonical encoding of a signed value: the last group has the sign in
    its top bit. *)
Fixpoint sleb_fuel (n : nat) (v : Z) : list Z :=
  match n with
  | O => []
  | S n' =>
      if (-64 <=? v) && (v <? 64) then [v mod 128] else (v mod 128 + 128) :: sleb_fuel n' (v / 128)
  end.

Definition sleb_bytes (v : Z) : list Z := sleb_fuel 10 v.

(** The sign bit of the last group. *)
Lemma sleb_sign v :
  -64 <= v < 64 -> negb (Z.land 64 (v mod 128) =? 0) = (v <? 0).
Proof.
  intros Hv. assert (E : Z.land 64 (v mod 128) = if v <? 0 then 64 else 0).
  { apply Z.bits_inj'; intros i Hi. rewrite Z.land_spec. change 64 with (2 ^ 6) at 1.
    rewrite Z.pow2_bits_eqb by lia. destruct (Z.eqb_spec 6 i) as [<-|Hne].
    - destruct (Z.ltb_spec v 0).
      + replace (v mod 128) with ((v + 64) + 1 * 2 ^ 6)
          by (rewrite <- (Z_mod_plus_full v 1), Z.mod_small; lia).
        rewrite <- lor_shiftl_add, Z.lor_spec, Z.shiftl_spec by lia.
        change (6 - 6) with 0. change (Z.testbit 1 0) with true. by rewrite orb_true_r.
      + rewrite Z.mod_small, Z.bits_0 by lia. by rewrite (testbit_small v 6) by lia.
    - rewrite andb_false_l. destruct (v <? 0); [|by rewrite Z.bits_0].
      change 64 with (2 ^ 6). rewrite Z.pow2_bits_eqb by lia. by destruct (Z.eqb_spec 6 i). }
  rewrite E. by destruct (v <? 0).
Qed.

Lemma done4 (a a' b b' c c' d d' : Z) w :
  a = a' -> b = b' -> c = c' -> d = d' -> Done (a, b, c, d) w = Done (a', b', c', d') w.
Proof. by intros -> -> -> ->. Qed.

(** Four groups hold 28 bits: the loop ends with the value modulo its bits. *)
Lemma leb128_loop_spec (n k : nat) c r v b0 w m :
  (n + k = 4)%nat -> (n <= m)%nat -> 0 <= r < 2 ^ (7 * Z.of_nat k) ->
  - 2 ^ (27 - 7 * Z.of_nat k) <= v < 2 ^ (27 - 7 * Z.of_nat k) -> (0 < n)%nat ->
  holds (mem w) c (sleb_fuel n v) ->
  exists j last x,
    leb128_loop m c r (7 * Z.of_nat k) b0 w =
    Done (r + x * 2 ^ (7 * Z.of_nat k), 7 * (Z.of_nat k + Z.of_nat j), last mod 128,
          c + Z.of_nat (length (sleb_fuel n v))) w /\
    (1 <= j /\ j + k <= 4)%nat /\ -64 <= last < 64 /\ 0 <= x < 2 ^ (7 * Z.of_nat j) /\
    v = x - (if last <? 0 then 2 ^ (7 * Z.of_nat j) else 0).
Proof.
  revert k c r v b0 m. induction n as [|n IH]; intros k c r v b0 m Hn Hm Hr Hv Hn0 Hc; [lia|].
  destruct m as [|m]; [lia|].
  assert (Hp : 0 < 2 ^ (7 * Z.of_nat k)) by (apply Z.pow_pos_nonneg; lia).
  assert (Hp4 : 2 ^ (7 * Z.of_nat k) <= 2 ^ 21) by (apply Z.pow_le_mono_r; lia).
  pose proof (Z.mod_pos_bound v 128 ltac:(lia)) as Hmod.
  pose proof (Z.div_mod v 128 ltac:(lia)) as Hd.
  assert (Hx : v mod 128 * 2 ^ (7 * Z.of_nat k) < 2 ^ 31) by nia.
  cbn [sleb_fuel leb128_loop] in *.
  destruct ((-64 <=? v) && (v <? 64)) eqn:Esmall.
  - apply andb_true_iff in Esmall as [?%Z.leb_le ?%Z.ltb_lt].
    rewrite (bind_done _ _ _ _ _ (load_byte _ _ _ _ Hc)), leb_group_last by lia.
    rewrite (bind_done _ _ _ _ _ (int_shl_done (v mod 128) (7 * Z.of_nat k) w
               ltac:(lia) ltac:(lia) Hx)), leb_last by lia.
    rewrite leb_accumulate by lia. exists 1%nat, v, (v mod 128).
    split; [apply done4; cbn [length]; lia|].
    split; [lia|]. split; [lia|]. split; [cbn; lia|].
    change (2 ^ (7 * Z.of_nat 1)) with 128. destruct (Z.ltb_spec v 0).
    + rewrite <- (Z_mod_plus_full v 1), Z.mod_small; lia.
    + rewrite Z.mod_small; lia.
  - assert (Hbig : v < -64 \/ 64 <= v).
    { apply andb_false_iff in Esmall as [?%Z.leb_gt|?%Z.ltb_ge]; lia. }
    rewrite (bind_done _ _ _ _ _ (load_byte _ _ _ _ Hc)), leb_group by lia.
    rewrite (bind_done _ _ _ _ _ (int_shl_done (v mod 128) (7 * Z.of_nat k) w
               ltac:(lia) ltac:(lia) Hx)), leb_more by lia.
    rewrite leb_accumulate by lia.
    replace (7 * Z.of_nat k + 7) with (7 * Z.of_nat (S k)) by lia.
    destruct n as [|n].
    { exfalso. replace k with 3%nat in * by lia. cbn in Hv. lia. }
    assert (Ev : 2 ^ (27 - 7 * Z.of_nat k) = 128 * 2 ^ (27 - 7 * Z.of_nat (S k))).
    { replace (27 - 7 * Z.of_nat k) with (7 + (27 - 7 * Z.of_nat (S k))) by lia.
      by rewrite Z.pow_add_r by lia. }
    destruct (IH (S k) (c + 1) (r + v mod 128 * 2 ^ (7 * Z.of_nat k)) (v / 128)
                (v mod 128 + 128) m) as (j & last & x & E & Hj & Hlast & Hxb & Hvx);
      [lia|lia|rewrite pow7_S; nia| |lia|by apply holds_tail in Hc|].
    { rewrite Ev in Hv. split; [apply Z.div_le_lower_bound|apply Z.div_lt_upper_bound]; lia. }
    exists (S j), last, (v mod 128 + 128 * x). rewrite E. split; [|split; [lia|split; [lia|]]].
    + apply done4; rewrite ?pow7_S; cbn [length]; first [done | lia | ring].
    + rewrite pow7_S. split; [lia|]. rewrite Hvx in Hd at 1. destruct (last <? 0); lia.
Qed.

(** A signed value of 28 bits is read exactly. *)
Lemma FIRCLSParseLEB128_spec v c w :
  - 2 ^ 27 <= v < 2 ^ 27 -> holds (mem w) c (sleb_fuel 4 v) ->
  FIRCLSParseLEB128AndAdvance c w =
  Done (v, c + Z.of_nat (length (sleb_fuel 4 v))) w.
Proof.
  intros Hv Hc. unfold FIRCLSParseLEB128AndAdvance.
  destruct (leb128_loop_spec 4 0 c 0 v 0 w 8) as (j & last & x & E & Hj & Hlast & Hx & Hvx);
    [lia|lia|cbn; lia|cbn; lia|lia|done|].
  change (7 * Z.of_nat 0) with 0 in E. rewrite (bind_done _ _ _ _ _ E).
  replace (7 * (Z.of_nat 0 + Z.of_nat j)) with (7 * Z.of_nat j) by lia.
  rewrite (proj2 (Z.ltb_lt (7 * Z.of_nat j) 64)), sleb_sign by lia. cbn [andb].
  assert (Hp : 0 < 2 ^ (7 * Z.of_nat j) <= 2 ^ 28)
    by (split; [apply Z.pow_pos_nonneg|apply Z.pow_le_mono_r]; lia).
  replace (0 + x * 2 ^ 0) with x by lia.
  destruct (Z.ltb_spec last 0) as [Hneg|Hpos].
  - rewrite (bind_done _ _ _ _ _ (int_shl_done 1 (7 * Z.of_nat j) w ltac:(lia) ltac:(lia) ltac:(lia))).
    replace (u64 (- (1 * 2 ^ (7 * Z.of_nat j)))) with
      (Z.shiftl (2 ^ (64 - 7 * Z.of_nat j) - 1) (7 * Z.of_nat j)).
    2: { rewrite Z.shiftl_mul_pow2, Z.mul_sub_distr_r, <- Z.pow_add_r by lia.
         replace (64 - 7 * Z.of_nat j + 7 * Z.of_nat j) with 64 by lia.
         unfold wrap. rewrite <- (Z_mod_plus_full _ 1), Z.mod_small; lia. }
    rewrite lor_shiftl_add by lia.
    rewrite Z.mul_sub_distr_r, <- Z.pow_add_r by lia.
    replace (64 - 7 * Z.of_nat j + 7 * Z.of_nat j) with 64 by lia.
    unfold mret, M_ret. f_equal. f_equal.
    rewrite <- to_signed_wrap. replace (u64 _) with (u64 v); [|].
    + rewrite to_signed_wrap. apply to_signed_small; lia.
    + unfold wrap. rewrite <- (Z_mod_plus_full v 1). f_equal. lia.
  - unfold mret, M_ret. f_equal. f_equal. rewrite to_signed_small; lia.
Qed.

(** ** Fixed-width values and encoded addresses *)

(** Size and signedness of the fixed-width formats. *)
Definition fixed_format (format : Z) : option (nat * bool) :=
  if format =? DW_EH_PE_ptr then Some (8%nat, false)
  else if format =? DW_EH_PE_udata2 then Some (2%nat, false)
  else if format =? DW_EH_PE_udata4 then Some (4%nat, false)
  else if format =? DW_EH_PE_udata8 then Some (8%nat, false)
  else if format =? DW_EH_PE_sdata2 then Some (2%nat, true)
  else if format =? DW_EH_PE_sdata4 then Some (4%nat, true)
  else if format =? DW_EH_PE_sdata8 then Some (8%nat, true)
  else None.

Definition fixed_value (n : nat) (sg : bool) (v : Z) : Z :=
  if sg then to_signed (8 * Z.of_nat n) v else v.

Lemma load_read w n a v : read_le (mem w) n a = Some v -> load n a w = Done v w.
Proof. intros H. unfold load. by rewrite H. Qed.

Lemma parse_uint8 w c b bs :
  holds (mem w) c (b :: bs) -> FIRCLSParseUint8AndAdvance c w = Done (b, c + 1) w.
Proof.
  intros H. unfold FIRCLSParseUint8AndAdvance. by rewrite (bind_done _ _ _ _ _ (load_byte _ _ _ _ H)).
Qed.

Lemma parse_encoded_fixed format n sg v c w :
  fixed_format format = Some (n, sg) -> 0 <= format < 16 ->
  read_le (mem w) n c = Some v -> 0 <= v < 2 ^ (8 * Z.of_nat n) ->
  parse_encoded_value c format w = Done (Some (s64 (fixed_value n sg v)), c + Z.of_nat n) w.
Proof.
  intros Hf Hr Hl Hv. unfold parse_encoded_value.
  replace (Z.land format DW_EH_PE_VALUE_MASK) with format
    by (unfold DW_EH_PE_VALUE_MASK; rewrite (Z.land_ones _ 4), Z.mod_small by lia; done).
  unfold fixed_format in Hf.
  repeat match type of Hf with
  | (if ?b then _ else _) = _ =>
      let E := fresh "E" in
      destruct b eqn:E; [apply Z.eqb_eq in E; subst format; injection Hf as <- <-|]
  | None = _ => discriminate
  end;
  repeat match goal with
  | |- context [if ?a =? ?b then _ else _] =>
      let c := eval compute in (a =? b) in change (a =? b) with c; cbv iota
  end;
  match goal with |- (?m ≫= _) _ = _ => let h := head_of m in unfold h end;
  rewrite bind_assoc, (bind_done _ _ _ _ _ (load_read _ _ _ _ Hl)), bind_ret; done.
Qed.

Lemma relative_offset format :
  0 <= format < 16 ->
  Z.land (format + DW_EH_PE_pcrel) DW_EH_PE_RELATIVE_OFFSET_MASK = DW_EH_PE_pcrel /\
  Z.land (format + DW_EH_PE_pcrel) DW_EH_PE_VALUE_MASK = Z.land format DW_EH_PE_VALUE_MASK /\
  Z.land (format + DW_EH_PE_pcrel) DW_EH_PE_indirect = 0 /\
  Z.land format DW_EH_PE_RELATIVE_OFFSET_MASK = DW_EH_PE_absptr /\
  Z.land format DW_EH_PE_indirect = 0.
Proof.
  intros H. assert (Hin : exists n : nat, (n < 16)%nat /\ format = Z.of_nat n)
    by (exists (Z.to_nat format); lia).
  destruct Hin as (n & Hn & ->).
  do 16 (destruct n as [|n]; [by vm_compute|]). lia.
Qed.

(** An address in a fixed-width format, absolute or relative to the cursor. *)
Lemma parse_address_fixed format n sg v c w (pcrel : bool) :
  fixed_format format = Some (n, sg) -> 0 <= format < 16 -> 0 < c < 2 ^ 63 ->
  read_le (mem w) n c = Some v -> 0 <= v < 2 ^ (8 * Z.of_nat n) ->
  let addr := s64 (fixed_value n sg v) + (if pcrel then c else 0) in
  - 2 ^ 63 <= addr < 2 ^ 63 ->
  FIRCLSParseAddressWithEncodingAndAdvance c (format + if pcrel then DW_EH_PE_pcrel else 0) w =
  Done (u64 addr, c + Z.of_nat n) w.
Proof.
  intros Hf Hr Hc Hl Hv addr Ha. unfold FIRCLSParseAddressWithEncodingAndAdvance.
  destruct (relative_offset format Hr) as (E1 & E2 & E3 & E4 & E5).
  rewrite (proj2 (Z.eqb_neq _ _)) by (unfold DW_EH_PE_omit, DW_EH_PE_pcrel; destruct pcrel; lia).
  rewrite (proj2 (Z.eqb_neq c 0)) by lia.
  assert (E : parse_encoded_value c (format + if pcrel then DW_EH_PE_pcrel else 0) w =
              Done (Some (s64 (fixed_value n sg v)), c + Z.of_nat n) w).
  { rewrite <- (parse_encoded_fixed format n sg v c w) by done. unfold parse_encoded_value.
    destruct pcrel; [by rewrite E2|by rewrite Z.add_0_r]. }
  rewrite (bind_done _ _ _ _ _ E). destruct pcrel.
  - rewrite E1, E3. change (negb _) with false. cbv iota.
    change (DW_EH_PE_pcrel =? DW_EH_PE_pcrel) with true. cbv iota.
    rewrite (to_signed_small 64 c) by lia. unfold int64_result.
    rewrite (proj2 (Z.leb_le _ _)), (proj2 (Z.ltb_lt _ _)) by (unfold addr in Ha; lia). done.
  - rewrite Z.add_0_r, E4, E5. unfold addr. rewrite Z.add_0_r. done.
Qed.

Lemma valid_bound p : FIRCLSIsValidPointer p = true -> 4096 <= p.
Proof. apply Z.leb_le. Qed.
