(* ===== verification/DwarfExpression.v ===== *)
(** Crashlytics' DWARF expression machine (FIRCLSDwarfExpressionMachine.c): a
    stack of 100 words, the expression it reads and the opcodes it implements,
    and the evaluation of a whole expression (FIRCLSDwarfUnwind.c).

    A pointer to a stack or to a machine is an [option], [None] being a null or
    otherwise invalid pointer; log messages are left out. *)
From S2P Require Import Prelude Memory DwarfData ThreadState.

Definition CLS_DWARF_EXPRESSION_STACK_SIZE : Z := 100.

(** ** The stack *)

(** [stack->pointer] is null after an overflow or an underflow, otherwise
    [buffer] plus an index. *)
Record FIRCLSDwarfExpressionStack := ExpressionStack {
  buffer : list Z;
  pointer : option Z
}.

Definition stack_ptr : Type := option FIRCLSDwarfExpressionStack.

Definition FIRCLSDwarfExpressionStackInit (stack : stack_ptr) : stack_ptr :=
  match stack with
  | None => None
  | Some _ => Some (ExpressionStack (replicate 100 0) (Some 0))
  end.

(** A null [pointer] is below [buffer]. *)
Definition FIRCLSDwarfExpressionStackIsValid (stack : stack_ptr) : bool :=
  match stack with
  | None => false
  | Some s =>
      match pointer s with
      | None => false
      | Some i => negb (i <? 0) && negb (CLS_DWARF_EXPRESSION_STACK_SIZE <? i)
      end
  end.

(** The index of a stack that is valid. *)
Definition stack_index (s : FIRCLSDwarfExpressionStack) : Z :=
  match pointer s with Some i => i | None => 0 end.

Definition with_pointer (s : FIRCLSDwarfExpressionStack) (p : option Z) :
    FIRCLSDwarfExpressionStack :=
  ExpressionStack (buffer s) p.

(** A store at an index outside the buffer is a [Fault]. *)
Definition FIRCLSDwarfExpressionStackPush (stack : stack_ptr) (value : Z) : M (bool * stack_ptr) :=
  if negb (FIRCLSDwarfExpressionStackIsValid stack) then mret (false, stack)
  else
    s ← of_option stack;
    if stack_index s =? CLS_DWARF_EXPRESSION_STACK_SIZE then
      mret (false, Some (with_pointer s None))
    else
      _ ← of_option (buffer s !! Z.to_nat (stack_index s));
      mret (true, Some (ExpressionStack (<[Z.to_nat (stack_index s) := value]> (buffer s))
                          (Some (stack_index s + 1)))).

Definition FIRCLSDwarfExpressionStackPeek (stack : stack_ptr) : M (Z * stack_ptr) :=
  if negb (FIRCLSDwarfExpressionStackIsValid stack) then mret (0, stack)
  else
    s ← of_option stack;
    if stack_index s =? 0 then mret (0, Some (with_pointer s None))
    else
      v ← of_option (buffer s !! Z.to_nat (stack_index s - 1));
      mret (v, stack).

Definition FIRCLSDwarfExpressionStackPop (stack : stack_ptr) : M (Z * stack_ptr) :=
  if negb (FIRCLSDwarfExpressionStackIsValid stack) then mret (0, stack)
  else
    s ← of_option stack;
    if stack_index s =? 0 then mret (0, Some (with_pointer s None))
    else
      let s := with_pointer s (Some (stack_index s - 1)) in
      v ← of_option (buffer s !! Z.to_nat (stack_index s));
      mret (v, Some s).

(** ** The machine *)

Section Machine.
Context {TS : ThreadState}.

Record FIRCLSDwarfExpressionMachine := ExpressionMachine {
  stack : FIRCLSDwarfExpressionStack;
  dataCursor : Z;
  endAddress : Z;
  registers : option thread_context
}.

Definition with_stack (m : FIRCLSDwarfExpressionMachine) (s : FIRCLSDwarfExpressionStack) :
    FIRCLSDwarfExpressionMachine :=
  ExpressionMachine s (dataCursor m) (endAddress m) (registers m).

Definition with_cursor (m : FIRCLSDwarfExpressionMachine) (c : Z) : FIRCLSDwarfExpressionMachine :=
  ExpressionMachine (stack m) c (endAddress m) (registers m).

(** A machine of zero bytes, after [memset]. *)
Definition zero_machine : FIRCLSDwarfExpressionMachine :=
  ExpressionMachine (ExpressionStack (replicate 100 0) None) 0 0 None.

Definition machine_ptr : Type := option FIRCLSDwarfExpressionMachine.
Definition mres : Type := M (bool * FIRCLSDwarfExpressionMachine).

(** The functions of the stack on the stack of a machine. *)
Definition FIRCLSDwarfExpressionMachineStackPop (m : FIRCLSDwarfExpressionMachine) :
    M (Z * FIRCLSDwarfExpressionMachine) :=
  '(v, s) ← FIRCLSDwarfExpressionStackPop (Some (stack m));
  s ← of_option s;
  mret (v, with_stack m s).

Definition FIRCLSDwarfExpressionMachineStackPush (m : FIRCLSDwarfExpressionMachine) (value : Z) :
    mres :=
  '(ok, s) ← FIRCLSDwarfExpressionStackPush (Some (stack m)) value;
  s ← of_option s;
  mret (ok, with_stack m s).

Definition machine_stack_peek (m : FIRCLSDwarfExpressionMachine) :
    M (Z * FIRCLSDwarfExpressionMachine) :=
  '(v, s) ← FIRCLSDwarfExpressionStackPeek (Some (stack m));
  s ← of_option s;
  mret (v, with_stack m s).

Definition FIRCLSDwarfExpressionMachineInit (machine : machine_ptr) (cursor : Z)
    (registers : option thread_context) (stackValue : Z) : M (bool * machine_ptr) :=
  match machine with
  | None => mret (false, None)
  | Some _ =>
      if negb (FIRCLSIsValidPointer cursor) then mret (false, Some zero_machine)
      else
        s ← of_option (FIRCLSDwarfExpressionStackInit (Some (stack zero_machine)));
        '(ok, m) ← FIRCLSDwarfExpressionMachineStackPush
                     (ExpressionMachine s cursor 0 registers) stackValue;
        mret (ok, Some m)
  end.

Definition FIRCLSDwarfExpressionMachinePrepareForExecution (machine : machine_ptr) :
    M (bool * machine_ptr) :=
  match machine with
  | None => mret (false, None)
  | Some m =>
      '(expressionLength, cursor) ← FIRCLSParseULEB128AndAdvance (dataCursor m);
      let m := with_cursor m cursor in
      if expressionLength =? 0 then mret (false, Some m)
      else
        mret (true, Some (ExpressionMachine (stack m) (dataCursor m)
                            (u64 (dataCursor m + expressionLength)) (registers m)))
  end.

Definition FIRCLSDwarfExpressionMachineIsFinished (machine : machine_ptr) : bool :=
  match machine with
  | None => true
  | Some m =>
      if negb (FIRCLSIsValidPointer (endAddress m)) || negb (FIRCLSIsValidPointer (dataCursor m))
      then true
      else if negb (FIRCLSDwarfExpressionStackIsValid (Some (stack m))) then true
      else endAddress m <=? dataCursor m
  end.

(** The value stored through [result] when it returns true. The [bool] says
    that [result] is a valid pointer. *)
Definition FIRCLSDwarfExpressionMachineGetResult (machine : machine_ptr) (result : bool) :
    M (bool * Z * machine_ptr) :=
  match machine with
  | None => mret (false, 0, None)
  | Some m =>
      if negb result then mret (false, 0, machine)
      else if negb (dataCursor m =? endAddress m) then mret (false, 0, machine)
      else
        '(v, m) ← machine_stack_peek m;
        mret (FIRCLSDwarfExpressionStackIsValid (Some (stack m)), v, Some m)
  end.

(** ** Opcodes *)

Definition DW_OP_deref : Z := 0x06.
Definition DW_OP_dup : Z := 0x12.
Definition DW_OP_swap : Z := 0x16.
Definition DW_OP_and : Z := 0x1A.
Definition DW_OP_plus : Z := 0x22.
Definition DW_OP_plus_uconst : Z := 0x23.
Definition DW_OP_ne : Z := 0x2E.
Definition DW_OP_lit0 : Z := 0x30.
Definition DW_OP_lit31 : Z := 0x4F.
Definition DW_OP_breg0 : Z := 0x70.
Definition DW_OP_breg31 : Z := 0x8F.
Definition DW_OP_deref_size : Z := 0x94.

Context {VM : VmRead}.

Abbreviation machine := FIRCLSDwarfExpressionMachine.

Definition FIRCLSDwarfExpressionMachineExecute_bregN (m : machine) (opcode : Z) : mres :=
  let regNum := u8 (opcode - DW_OP_breg0) in
  if DWARF_MAX_REGISTER_NUM <? regNum then mret (false, m)
  else
    '(offset, cursor) ← FIRCLSParseLEB128AndAdvance (dataCursor m);
    let m := with_cursor m cursor in
    reg ← DwarfUnwindGetRegisterValue (registers m) regNum;
    FIRCLSDwarfExpressionMachineStackPush m (s64 (reg + offset)).

Definition FIRCLSDwarfExpressionMachineExecute_deref (m : machine) : mres :=
  '(value, m) ← FIRCLSDwarfExpressionMachineStackPop m;
  bs ← FIRCLSReadMemory (u64 value) 8;
  match bs with
  | None => mret (false, m)
  | Some bs => FIRCLSDwarfExpressionMachineStackPush m (s64 (le_val bs))
  end.

(** The addition is in [uint64_t]. *)
Definition FIRCLSDwarfExpressionMachineExecute_plus_uconst (m : machine) : mres :=
  '(value, m) ← FIRCLSDwarfExpressionMachineStackPop m;
  '(const, cursor) ← FIRCLSParseULEB128AndAdvance (dataCursor m);
  FIRCLSDwarfExpressionMachineStackPush (with_cursor m cursor) (s64 (value + const)).

Definition FIRCLSDwarfExpressionMachineExecute_and (m : machine) : mres :=
  '(value, m) ← FIRCLSDwarfExpressionMachineStackPop m;
  '(value2, m) ← FIRCLSDwarfExpressionMachineStackPop m;
  FIRCLSDwarfExpressionMachineStackPush m (Z.land value value2).

Definition FIRCLSDwarfExpressionMachineExecute_plus (m : machine) : mres :=
  '(value, m) ← FIRCLSDwarfExpressionMachineStackPop m;
  '(value2, m) ← FIRCLSDwarfExpressionMachineStackPop m;
  sum ← int64_result (value + value2);
  FIRCLSDwarfExpressionMachineStackPush m sum.

Definition FIRCLSDwarfExpressionMachineExecute_dup (m : machine) : mres :=
  '(value, m) ← machine_stack_peek m;
  FIRCLSDwarfExpressionMachineStackPush m value.

Definition FIRCLSDwarfExpressionMachineExecute_swap (m : machine) : mres :=
  '(valueA, m) ← FIRCLSDwarfExpressionMachineStackPop m;
  '(valueB, m) ← FIRCLSDwarfExpressionMachineStackPop m;
  '(ok, m) ← FIRCLSDwarfExpressionMachineStackPush m valueA;
  if negb ok then mret (false, m) else FIRCLSDwarfExpressionMachineStackPush m valueB.

(** Reads its operand directly, not with [FIRCLSReadMemory]. *)
Definition FIRCLSDwarfExpressionMachineExecute_deref_size (m : machine) : mres :=
  '(address, m) ← FIRCLSDwarfExpressionMachineStackPop m;
  '(readSize, cursor) ← FIRCLSParseUint8AndAdvance (dataCursor m);
  let m := with_cursor m cursor in
  let address := u64 address in
  if readSize =? 1 then
    '(v, _) ← FIRCLSParseUint8AndAdvance address; FIRCLSDwarfExpressionMachineStackPush m v
  else if readSize =? 2 then
    '(v, _) ← FIRCLSParseUint16AndAdvance address; FIRCLSDwarfExpressionMachineStackPush m v
  else if readSize =? 4 then
    '(v, _) ← FIRCLSParseUint32AndAdvance address; FIRCLSDwarfExpressionMachineStackPush m v
  else if readSize =? 8 then
    '(v, _) ← FIRCLSParseUint64AndAdvance address;
    FIRCLSDwarfExpressionMachineStackPush m (s64 v)
  else mret (false, m).

Definition FIRCLSDwarfExpressionMachineExecute_ne (m : machine) : mres :=
  '(value, m) ← FIRCLSDwarfExpressionMachineStackPop m;
  '(value2, m) ← FIRCLSDwarfExpressionMachineStackPop m;
  FIRCLSDwarfExpressionMachineStackPush m (if negb (value =? value2) then 1 else 0).

Definition FIRCLSDwarfExpressionMachineExecute_litN (m : machine) (opcode : Z) : mres :=
  FIRCLSDwarfExpressionMachineStackPush m (u8 (opcode - DW_OP_lit0)).

(** The switch over the opcode that has been read. *)
Definition execute_opcode (m : machine) (opcode : Z) : mres :=
  if opcode =? DW_OP_deref then FIRCLSDwarfExpressionMachineExecute_deref m
  else if opcode =? DW_OP_dup then FIRCLSDwarfExpressionMachineExecute_dup m
  else if opcode =? DW_OP_and then FIRCLSDwarfExpressionMachineExecute_and m
  else if opcode =? DW_OP_plus then FIRCLSDwarfExpressionMachineExecute_plus m
  else if opcode =? DW_OP_swap then FIRCLSDwarfExpressionMachineExecute_swap m
  else if opcode =? DW_OP_plus_uconst then FIRCLSDwarfExpressionMachineExecute_plus_uconst m
  else if opcode =? DW_OP_ne then FIRCLSDwarfExpressionMachineExecute_ne m
  else if (DW_OP_lit0 <=? opcode) && (opcode <=? DW_OP_lit31) then
    FIRCLSDwarfExpressionMachineExecute_litN m opcode
  else if (DW_OP_breg0 <=? opcode) && (opcode <=? DW_OP_breg31) then
    FIRCLSDwarfExpressionMachineExecute_bregN m opcode
  else if opcode =? DW_OP_deref_size then FIRCLSDwarfExpressionMachineExecute_deref_size m
  else mret (false, m).

Definition FIRCLSDwarfExpressionMachineExecuteNextOpcode (machine : machine_ptr) :
    M (bool * machine_ptr) :=
  match machine with
  | None => mret (false, None)
  | Some m =>
      '(opcode, cursor) ← FIRCLSParseUint8AndAdvance (dataCursor m);
      '(ok, m) ← execute_opcode (with_cursor m cursor) opcode;
      mret (ok, Some m)
  end.

(** ** Evaluation *)

(** [while (!IsFinished(&machine)) { if (!ExecuteNextOpcode(&machine)) return
    false; }]; every round reads at least one byte of the expression. *)
Fixpoint evaluate_loop (fuel : nat) (m : machine) : mres :=
  match fuel with
  | O => timeout
  | S fuel' =>
      if FIRCLSDwarfExpressionMachineIsFinished (Some m) then mret (true, m)
      else
        '(ok, m) ← FIRCLSDwarfExpressionMachineExecuteNextOpcode (Some m);
        m ← of_option m;
        if negb ok then mret (false, m) else evaluate_loop fuel' m
  end.

(** The fuel is the length of the expression. *)
Definition evaluate_machine (m : machine) : mres :=
  evaluate_loop (S (Z.to_nat (endAddress m - dataCursor m))) m.

(** The [result] is the address of a variable of the caller; the machine is a
    local variable. *)
Definition FIRCLSDwarfEvalulateExpression (cursor : Z) (registers : option thread_context)
    (stackValue : Z) : M (option Z) :=
  if negb (FIRCLSIsValidPointer cursor) then mret None
  else
    '(ok, m) ← FIRCLSDwarfExpressionMachineInit (Some zero_machine) cursor registers stackValue;
    if negb ok then mret None
    else
      '(ok, m) ← FIRCLSDwarfExpressionMachinePrepareForExecution m;
      if negb ok then mret None
      else
        m ← of_option m;
        '(ok, m) ← evaluate_machine m;
        if negb ok then mret None
        else
          '(ok, v, _) ← FIRCLSDwarfExpressionMachineGetResult (Some m) true;
          mret (if ok : bool then Some v else None).

End Machine.
