(* ===== verification/DwarfExpressionSpec.v ===== *)
(** DWARF expressions as lists of operations, their meaning on a list of
    values, and that Crashlytics' machine (DwarfExpression.v) computes it; the
    safety of the machine on any expression. *)
From S2P Require Import Prelude Memory PbWire DwarfData ThreadState DwarfDataSpec.
From S2P Require Import DwarfExpression.

(** [vm_read_overwrite] copies the bytes of mapped memory, fails on other
    addresses, and changes nothing. *)
Class VmReadSpec {VM : VmRead} : Prop := {
  vm_read_mapped a n bs w :
    read_bytes (mem w) a n = Some bs -> vm_read_overwrite a n w = Done (Some bs) w;
  vm_read_total a n w : exists r, vm_read_overwrite a n w = Done r w
}.

(** ** The stack *)

(** The words of the stack, the top first. *)
Definition stack_holds (s : FIRCLSDwarfExpressionStack) (st : list Z) : Prop :=
  pointer s = Some (Z.of_nat (length st)) /\ length (buffer s) = 100%nat /\
  (length st <= 100)%nat /\ take (length st) (buffer s) = rev st.

Lemma stack_holds_valid s st :
  stack_holds s st -> FIRCLSDwarfExpressionStackIsValid (Some s) = true.
Proof.
  intros (Hp & _ & Hl & _). unfold FIRCLSDwarfExpressionStackIsValid. rewrite Hp.
  unfold CLS_DWARF_EXPRESSION_STACK_SIZE.
  rewrite (proj2 (Z.ltb_ge _ _)), (proj2 (Z.ltb_ge _ _)) by lia. done.
Qed.

Lemma stack_index_holds s st : stack_holds s st -> stack_index s = Z.of_nat (length st).
Proof. intros (Hp & _). unfold stack_index. by rewrite Hp. Qed.

Lemma push_run s st v w :
  stack_holds s st -> (length st < 100)%nat ->
  exists s', FIRCLSDwarfExpressionStackPush (Some s) v w = Done (true, Some s') w /\
    stack_holds s' (v :: st).
Proof.
  intros H Hl. unfold FIRCLSDwarfExpressionStackPush. rewrite (stack_holds_valid _ _ H).
  cbn [negb of_option]. rewrite bind_ret, (stack_index_holds _ _ H).
  unfold CLS_DWARF_EXPRESSION_STACK_SIZE. rewrite (proj2 (Z.eqb_neq _ _)), Nat2Z.id by lia.
  destruct H as (Hp & Hb & _ & Ht).
  destruct (lookup_lt_is_Some_2 (buffer s) (length st)) as [x Hx]; [lia|].
  rewrite Hx. cbn [of_option]. rewrite bind_ret. eexists. split; [done|].
  repeat split; cbn [pointer buffer length].
  - f_equal. lia.
  - by rewrite length_insert.
  - lia.
  - rewrite (take_S_r _ _ v) by (apply list_lookup_insert_eq; lia).
    rewrite take_insert_ge by lia. by rewrite Ht.
Qed.

Lemma pop_run s st v w :
  stack_holds s (v :: st) ->
  exists s', FIRCLSDwarfExpressionStackPop (Some s) w = Done (v, Some s') w /\ stack_holds s' st.
Proof.
  intros H. unfold FIRCLSDwarfExpressionStackPop. rewrite (stack_holds_valid _ _ H).
  cbn [negb of_option]. rewrite bind_ret, (stack_index_holds _ _ H).
  cbn [length stack_index with_pointer pointer] in *.
  rewrite (proj2 (Z.eqb_neq _ _)) by lia.
  destruct H as (Hp & Hb & Hl & Ht). cbn [length rev] in *.
  replace (Z.to_nat (Z.of_nat (S (length st)) - 1)) with (length st) by lia.
  assert (Hlook : buffer s !! length st = Some v).
  { rewrite <- (lookup_take_lt _ (S (length st))), Ht by lia.
    rewrite lookup_app_r, length_rev, Nat.sub_diag by (rewrite length_rev; lia). done. }
  cbn [buffer with_pointer]. rewrite Hlook. cbn [of_option]. rewrite bind_ret. eexists. split; [done|].
  unfold stack_holds; cbn [pointer buffer with_pointer]; split_and!; [f_equal; lia|done|lia|].
  apply (f_equal (take (length st))) in Ht.
  rewrite take_take, Nat.min_l in Ht by lia. rewrite Ht.
  rewrite take_app_le, take_ge by (rewrite length_rev; lia). done.
Qed.

Lemma peek_run s st v w :
  stack_holds s (v :: st) ->
  FIRCLSDwarfExpressionStackPeek (Some s) w = Done (v, Some s) w.
Proof.
  intros H. unfold FIRCLSDwarfExpressionStackPeek. rewrite (stack_holds_valid _ _ H).
  cbn [negb of_option]. rewrite bind_ret, (stack_index_holds _ _ H). cbn [length].
  rewrite (proj2 (Z.eqb_neq _ _)) by lia.
  destruct H as (Hp & Hb & Hl & Ht). cbn [length rev] in *.
  replace (Z.to_nat (Z.of_nat (S (length st)) - 1)) with (length st) by lia.
  rewrite <- (lookup_take_lt _ (S (length st))), Ht by lia.
  rewrite lookup_app_r, length_rev, Nat.sub_diag by (rewrite length_rev; lia). done.
Qed.

Section Machines.
Context {TS : ThreadState} {TL : ThreadStateLaws}.

(** The same for the stack of a machine. *)
Definition machine_like (m m' : FIRCLSDwarfExpressionMachine) : Prop :=
  dataCursor m' = dataCursor m /\ endAddress m' = endAddress m /\ registers m' = registers m.

Lemma machine_push_run m st v w :
  stack_holds (stack m) st -> (length st < 100)%nat ->
  exists m', FIRCLSDwarfExpressionMachineStackPush m v w = Done (true, m') w /\
    stack_holds (stack m') (v :: st) /\ machine_like m m'.
Proof.
  intros H Hl. destruct (push_run _ _ v w H Hl) as (s' & E & Hs').
  unfold FIRCLSDwarfExpressionMachineStackPush. rewrite (bind_done _ _ _ _ _ E).
  eexists. split; [done|]. by split.
Qed.

Lemma machine_pop_run m st v w :
  stack_holds (stack m) (v :: st) ->
  exists m', FIRCLSDwarfExpressionMachineStackPop m w = Done (v, m') w /\
    stack_holds (stack m') st /\ machine_like m m'.
Proof.
  intros H. destruct (pop_run _ _ _ w H) as (s' & E & Hs').
  unfold FIRCLSDwarfExpressionMachineStackPop. rewrite (bind_done _ _ _ _ _ E).
  eexists. split; [done|]. by split.
Qed.

Lemma machine_peek_run m st v w :
  stack_holds (stack m) (v :: st) -> machine_stack_peek m w = Done (v, m) w.
Proof.
  intros H. unfold machine_stack_peek. rewrite (bind_done _ _ _ _ _ (peek_run _ _ _ w H)).
  by destruct m.
Qed.

(** ** Operations *)

Inductive dwarf_op :=
  | OpLit (n : Z)
  | OpBreg (r offset : Z)
  | OpPlusUconst (c : Z)
  | OpPlus
  | OpAnd
  | OpDup
  | OpSwap
  | OpNe
  | OpDeref
  | OpDerefSize (n : nat).

Definition encode_op (op : dwarf_op) : list Z :=
  match op with
  | OpLit n => [DW_OP_lit0 + n]
  | OpBreg r offset => (DW_OP_breg0 + r) :: sleb_fuel 4 offset
  | OpPlusUconst c => DW_OP_plus_uconst :: varint_bytes c
  | OpPlus => [DW_OP_plus]
  | OpAnd => [DW_OP_and]
  | OpDup => [DW_OP_dup]
  | OpSwap => [DW_OP_swap]
  | OpNe => [DW_OP_ne]
  | OpDeref => [DW_OP_deref]
  | OpDerefSize n => [DW_OP_deref_size; Z.of_nat n]
  end.

Definition encode_ops (ops : list dwarf_op) : list Z := concat (encode_op <$> ops).

(** Operands in the range the encoding has. *)
Definition op_in_range (op : dwarf_op) : bool :=
  match op with
  | OpLit n => (0 <=? n) && (n <? 32)
  | OpBreg r offset => (0 <=? r) && (r <? 32) && (- 2 ^ 27 <=? offset) && (offset <? 2 ^ 27)
  | OpPlusUconst c => (0 <=? c) && (c <? 2 ^ 31)
  | OpDerefSize n => bool_decide (n ∈ [1; 2; 4; 8]%nat)
  | _ => true
  end.

(** The values after an operation, the top first; [m] is the memory. *)
Definition run_op (regs : option thread_context) (m : gmap Z Z) (op : dwarf_op)
    (st : list Z) : option (list Z) :=
  match op, st with
  | OpLit n, _ => Some (n :: st)
  | OpBreg r offset, _ =>
      if r <=? DWARF_MAX_REGISTER_NUM then v ← reg_value regs r; Some (s64 (v + offset) :: st)
      else None
  | OpPlusUconst c, v :: st => Some (s64 (v + c) :: st)
  | OpPlus, a :: b :: st =>
      if (- 2 ^ 63 <=? a + b) && (a + b <? 2 ^ 63) then Some (a + b :: st) else None
  | OpAnd, a :: b :: st => Some (Z.land a b :: st)
  | OpDup, v :: st => Some (v :: v :: st)
  | OpSwap, a :: b :: st => Some (b :: a :: st)
  | OpNe, a :: b :: st => Some ((if a =? b then 0 else 1) :: st)
  | OpDeref, a :: st =>
      if FIRCLSIsValidPointer (u64 a) then v ← read_le m 8 (u64 a); Some (s64 v :: st) else None
  | OpDerefSize n, a :: st =>
      v ← read_le m n (u64 a); Some ((if (n =? 8)%nat then s64 v else v) :: st)
  | _, _ => None
  end.

Fixpoint run_ops (regs : option thread_context) (m : gmap Z Z) (ops : list dwarf_op)
    (st : list Z) : option (list Z) :=
  match ops with
  | [] => Some st
  | op :: ops =>
      if op_in_range op then
        st ← run_op regs m op st;
        if (length st <=? 100)%nat then run_ops regs m ops st else None
      else None
  end.

Lemma reg_value_run regs num v w :
  reg_value regs num = Some v -> DwarfUnwindGetRegisterValue regs num w = Done v w.
Proof.
  intros H. by rewrite get_register_run, H.
Qed.

Section Refinement.
Context {VM : VmRead} {VMS : VmReadSpec}.

Notation next m w := (FIRCLSDwarfExpressionMachineExecuteNextOpcode (Some m) w).

(** The outcome of one operation on a machine. *)
Definition op_done (m m' : FIRCLSDwarfExpressionMachine) (op : dwarf_op) (st : list Z) : Prop :=
  stack_holds (stack m') st /\
  dataCursor m' = dataCursor m + Z.of_nat (length (encode_op op)) /\
  endAddress m' = endAddress m /\ registers m' = registers m.

Lemma next_opcode m w b bs :
  holds (mem w) (dataCursor m) (b :: bs) ->
  next m w = ('(ok, m) ← execute_opcode (with_cursor m (dataCursor m + 1)) b;
              mret (ok, Some m)) w.
Proof.
  intros H. unfold FIRCLSDwarfExpressionMachineExecuteNextOpcode, FIRCLSParseUint8AndAdvance.
  by rewrite bind_assoc, (bind_done _ _ _ _ _ (load_byte _ _ _ _ H)), bind_ret.
Qed.

(** An opcode that ends in a push. *)
Lemma push_done m m0 op st v w :
  stack_holds (stack m0) st -> (length st < 100)%nat ->
  dataCursor m0 = dataCursor m + Z.of_nat (length (encode_op op)) ->
  endAddress m0 = endAddress m -> registers m0 = registers m ->
  exists m', FIRCLSDwarfExpressionMachineStackPush m0 v w = Done (true, m') w /\
    op_done m m' op (v :: st).
Proof.
  intros H Hl H1 H2 H3. destruct (machine_push_run m0 st v w H Hl) as (m' & E & Hs & G1 & G2 & G3).
  exists m'. split; [done|]. unfold op_done. by rewrite G1, G2, G3, H1, H2, H3.
Qed.

(** Run the pops of an opcode. *)
Ltac run_pop :=
  match goal with
  | w : world, Hs : stack_holds (stack ?m0) (?v :: ?st) |- context [FIRCLSDwarfExpressionMachineStackPop ?m0] =>
      let m1 := fresh "m" in let E := fresh "E" in let Hs' := fresh "Hs" in
      let G1 := fresh "G" in let G2 := fresh "G" in let G3 := fresh "G" in
      destruct (machine_pop_run m0 st v w Hs) as (m1 & E & Hs' & G1 & G2 & G3);
      rewrite (bind_done _ _ _ _ _ E); cbn [dataCursor endAddress registers with_cursor] in *
  end.

(** Finish an opcode whose last step is a push. *)
Ltac finish_push :=
  match goal with
  | |- exists m', FIRCLSDwarfExpressionMachineStackPush ?m0 ?v _ = _ /\ op_done ?m m' ?op ?st =>
      apply push_done;
        [done | cbn [length] in *; lia
        | cbn [encode_op length dataCursor with_cursor] in *; lia
        | first [done | congruence] | first [done | congruence]]
  end.

Lemma leb_range op : 1 <= Z.of_nat (length (encode_op op)).
Proof. destruct op; cbn; lia. Qed.

(** Select the branch of the switch for a constant opcode. *)
Ltac select_opcode :=
  unfold execute_opcode;
  repeat match goal with
  | |- context [if ?a =? ?b then _ else _] =>
      let c := eval compute in (a =? b) in
      match c with true => idtac | false => idtac end;
      change (a =? b) with c; cbv iota
  | |- context [if (?a <=? ?b) && (?c <=? ?d) then _ else _] =>
      let e := eval compute in ((a <=? b) && (c <=? d)) in
      match e with true => idtac | false => idtac end;
      change ((a <=? b) && (c <=? d)) with e; cbv iota
  end.

Lemma opcode_lit n w m :
  0 <= n < 32 ->
  execute_opcode m (DW_OP_lit0 + n) w = FIRCLSDwarfExpressionMachineStackPush m n w.
Proof.
  intros Hn. unfold execute_opcode, DW_OP_deref, DW_OP_dup, DW_OP_and, DW_OP_plus, DW_OP_swap,
    DW_OP_plus_uconst, DW_OP_ne, DW_OP_lit0, DW_OP_lit31.
  rewrite !(proj2 (Z.eqb_neq _ _)), (proj2 (Z.leb_le _ _)), (proj2 (Z.leb_le _ _)) by lia.
  cbn [andb]. unfold FIRCLSDwarfExpressionMachineExecute_litN, DW_OP_lit0.
  by replace (u8 (48 + n - 48)) with n by (rewrite wrap_small; lia).
Qed.

Lemma opcode_breg r w m :
  0 <= r < 32 ->
  execute_opcode m (DW_OP_breg0 + r) w = FIRCLSDwarfExpressionMachineExecute_bregN m (DW_OP_breg0 + r) w.
Proof.
  intros Hn. unfold execute_opcode, DW_OP_deref, DW_OP_dup, DW_OP_and, DW_OP_plus, DW_OP_swap,
    DW_OP_plus_uconst, DW_OP_ne, DW_OP_lit0, DW_OP_lit31, DW_OP_breg0, DW_OP_breg31.
  rewrite !(proj2 (Z.eqb_neq _ _)), (proj2 (Z.leb_le 112 _)), (proj2 (Z.leb_gt (112 + r) 79)),
    (proj2 (Z.leb_le _ 143)), andb_false_r by lia. done.
Qed.

Lemma read_memory_run a n bs w :
  FIRCLSIsValidPointer a = true -> read_bytes (mem w) a n = Some bs ->
  FIRCLSReadMemory a n w = Done (Some bs) w.
Proof. intros Ha Hr. unfold FIRCLSReadMemory. rewrite Ha. by apply vm_read_mapped. Qed.

(** What running an operation does to a machine whose cursor is at it. *)
Definition op_runs (op : dwarf_op) : Prop := forall m st st' w,
  op_in_range op = true -> run_op (registers m) (mem w) op st = Some st' ->
  (length st' <= 100)%nat -> stack_holds (stack m) st ->
  holds (mem w) (dataCursor m) (encode_op op) ->
  exists m', execute_opcode (with_cursor m (dataCursor m + 1))
      (match encode_op op with b :: _ => b | [] => 0 end) w = Done (true, m') w /\
    op_done m m' op st'.

Ltac start_op :=
  intros m st st' w Hrange Hrun Hl Hs Hc;
  assert (Hs' : stack_holds (stack (with_cursor m (dataCursor m + 1))) st) by done;
  cbn [encode_op op_in_range run_op] in *.

Lemma breg_runs r offset : op_runs (OpBreg r offset).
Proof.
  start_op. apply andb_true_iff in Hrange as [[[?%Z.leb_le ?%Z.ltb_lt]%andb_true_iff
    ?%Z.leb_le]%andb_true_iff ?%Z.ltb_lt].
  destruct (Z.leb_spec r DWARF_MAX_REGISTER_NUM); [|done].
  apply bind_Some in Hrun as (v & Hv & [= <-]).
  rewrite opcode_breg by lia. unfold FIRCLSDwarfExpressionMachineExecute_bregN.
  replace (u8 (DW_OP_breg0 + r - DW_OP_breg0)) with r by (rewrite wrap_small; lia).
  rewrite (proj2 (Z.ltb_ge _ _)) by lia.
  cbn [dataCursor with_cursor registers].
  rewrite (bind_done _ _ _ _ _ (FIRCLSParseLEB128_spec offset _ w ltac:(lia) (holds_tail _ _ _ _ Hc))).
  rewrite (bind_done _ _ _ _ _ (reg_value_run _ _ _ w Hv)). finish_push.
Qed.

Lemma plus_uconst_runs c : op_runs (OpPlusUconst c).
Proof.
  start_op. destruct st as [|v st]; [done|].
  apply andb_true_iff in Hrange as [?%Z.leb_le ?%Z.ltb_lt]. injection Hrun as <-.
  select_opcode. unfold FIRCLSDwarfExpressionMachineExecute_plus_uconst. run_pop.
  assert (Hu := FIRCLSParseULEB128_spec c _ w ltac:(lia) (holds_tail _ _ _ _ Hc)).
  rewrite (proj2 (Z.ltb_lt _ _)) in Hu by lia. rewrite G.
  rewrite (bind_done _ _ _ _ _ Hu). finish_push.
Qed.

Lemma deref_size_runs n : op_runs (OpDerefSize n).
Proof.
  start_op. destruct st as [|a st]; try done. apply bind_Some in Hrun as (v & Hr & [= <-]). select_opcode.
  unfold FIRCLSDwarfExpressionMachineExecute_deref_size. run_pop.
  rewrite G, (bind_done _ _ _ _ _ (parse_uint8 _ _ _ _ (holds_tail _ _ _ _ Hc))).
  apply bool_decide_eq_true in Hrange.
  repeat (apply elem_of_cons in Hrange as [->|Hrange]; [select_opcode;
    match goal with |- context [?f (u64 a)] => unfold f end;
    rewrite bind_assoc, (bind_done _ _ _ _ _ (load_read _ _ _ _ Hr)), bind_ret;
    cbn [Nat.eqb]; finish_push|]).
  by apply elem_of_nil in Hrange.
Qed.

Lemma execute_opcode_run op : op_runs op.
Proof.
  destruct op; try by auto using breg_runs, plus_uconst_runs, deref_size_runs.
  all: start_op.
  - apply andb_true_iff in Hrange as [?%Z.leb_le ?%Z.ltb_lt]. injection Hrun as <-.
    rewrite opcode_lit by lia. finish_push.
  - destruct st as [|a [|b st]]; try done.
    destruct (_ && _) eqn:Er; [|done]. injection Hrun as <-. select_opcode.
    unfold FIRCLSDwarfExpressionMachineExecute_plus. do 2 run_pop.
    unfold int64_result. rewrite Er, bind_ret. finish_push.
  - destruct st as [|a [|b st]]; try done. injection Hrun as <-. select_opcode.
    unfold FIRCLSDwarfExpressionMachineExecute_and. do 2 run_pop. finish_push.
  - destruct st as [|v st]; try done. injection Hrun as <-. select_opcode.
    unfold FIRCLSDwarfExpressionMachineExecute_dup.
    rewrite (bind_done _ _ _ _ _ (machine_peek_run _ _ _ w Hs')). finish_push.
  - destruct st as [|a [|b st]]; try done. injection Hrun as <-. select_opcode.
    unfold FIRCLSDwarfExpressionMachineExecute_swap. do 2 run_pop.
    destruct (machine_push_run _ _ a w Hs1) as (m3 & E3 & Hs3 & G7 & G8 & G9); [cbn in Hl; lia|].
    rewrite (bind_done _ _ _ _ _ E3). cbn [negb]. finish_push.
  - destruct st as [|a [|b st]]; try done. injection Hrun as <-. select_opcode.
    unfold FIRCLSDwarfExpressionMachineExecute_ne. do 2 run_pop.
    replace (if negb (a =? b) then 1 else 0) with (if a =? b then 0 else 1)
      by (by destruct (a =? b)). finish_push.
  - destruct st as [|a st]; try done. destruct (FIRCLSIsValidPointer _) eqn:Ea; [|done].
    apply bind_Some in Hrun as (v & (bs & Hr & ->)%fmap_Some & [= <-]). select_opcode.
    unfold FIRCLSDwarfExpressionMachineExecute_deref. run_pop.
    rewrite (bind_done _ _ _ _ _ (read_memory_run _ _ _ _ Ea Hr)). finish_push.
Qed.

Lemma is_finished m st :
  stack_holds (stack m) st -> 4096 <= dataCursor m -> 4096 <= endAddress m ->
  FIRCLSDwarfExpressionMachineIsFinished (Some m) = (endAddress m <=? dataCursor m).
Proof.
  intros Hs H1 H2. unfold FIRCLSDwarfExpressionMachineIsFinished, FIRCLSIsValidPointer.
  rewrite !(proj2 (Z.leb_le 4096 _)), (stack_holds_valid _ _ Hs) by lia. done.
Qed.

Lemma next_opcode_run m op st st' w :
  op_in_range op = true -> run_op (registers m) (mem w) op st = Some st' ->
  (length st' <= 100)%nat -> stack_holds (stack m) st ->
  holds (mem w) (dataCursor m) (encode_op op) ->
  exists m', next m w = Done (true, Some m') w /\ op_done m m' op st'.
Proof.
  intros Hr Hrun Hl Hs Hc.
  destruct (execute_opcode_run op m st st' w Hr Hrun Hl Hs Hc) as (m' & E & Hd).
  exists m'. split; [|done]. destruct (encode_op op) as [|b bs] eqn:Eop.
  { pose proof (leb_range op) as H. rewrite Eop in H. cbn in H. lia. }
  rewrite (next_opcode m w b bs Hc). by rewrite (bind_done _ _ _ _ _ E).
Qed.

Lemma evaluate_loop_run ops fuel m st st' w :
  run_ops (registers m) (mem w) ops st = Some st' -> stack_holds (stack m) st ->
  holds (mem w) (dataCursor m) (encode_ops ops) -> 4096 <= dataCursor m ->
  endAddress m = dataCursor m + Z.of_nat (length (encode_ops ops)) ->
  (length (encode_ops ops) < fuel)%nat ->
  exists m', evaluate_loop fuel m w = Done (true, m') w /\ stack_holds (stack m') st' /\
    dataCursor m' = endAddress m'.
Proof.
  revert fuel m st. induction ops as [|op ops IH]; intros fuel m st Hrun Hs Hc Hcur Hend Hf;
    (destruct fuel as [|fuel]; [lia|]); cbn [evaluate_loop run_ops] in *;
    rewrite (is_finished m st) by (done || lia).
  - injection Hrun as <-. cbn in Hend. rewrite (proj2 (Z.leb_le _ _)) by lia.
    exists m. split; [done|]. split; [done|lia].
  - destruct (op_in_range op) eqn:Er; [|done].
    apply bind_Some in Hrun as (st1 & H1 & Hrun).
    destruct (Nat.leb_spec (length st1) 100); [|done].
    change (encode_ops (op :: ops)) with (encode_op op ++ encode_ops ops) in *.
    apply holds_app in Hc as [Hc1 Hc2]. rewrite length_app in *.
    pose proof (leb_range op). rewrite (proj2 (Z.leb_gt _ _)) by lia.
    destruct (next_opcode_run m op st st1 w Er H1 ltac:(lia) Hs Hc1)
      as (m1 & E1 & Hs1 & D1 & D2 & D3).
    rewrite (bind_done _ _ _ _ _ E1). cbn [of_option negb]. rewrite bind_ret.
    apply (IH fuel m1 st1); [by rewrite D3|done|by rewrite D1|lia|lia|lia].
Qed.

(** The whole expression: its length, then its operations. *)
Lemma evaluate_expression_run ops regs cursor init v st w :
  let code := encode_ops ops in
  4096 <= cursor -> cursor + Z.of_nat (length (delimited code)) < 2 ^ 64 ->
  0 < Z.of_nat (length code) < 2 ^ 31 ->
  holds (mem w) cursor (delimited code) ->
  run_ops regs (mem w) ops [init] = Some (v :: st) ->
  FIRCLSDwarfEvalulateExpression cursor regs init w = Done (Some v) w.
Proof.
  intros code Hcur Hsz Hlen Hc Hrun. unfold FIRCLSDwarfEvalulateExpression.
  assert (Hvalid : FIRCLSIsValidPointer cursor = true) by (apply Z.leb_le; lia).
  rewrite Hvalid. cbn [negb]. unfold FIRCLSDwarfExpressionMachineInit. rewrite Hvalid.
  cbn [negb FIRCLSDwarfExpressionStackInit of_option]. rewrite bind_assoc, bind_ret, bind_assoc.
  destruct (machine_push_run (ExpressionMachine (ExpressionStack (replicate 100 0) (Some 0))
              cursor 0 regs) [] init w) as (m0 & E0 & Hs0 & G1 & G2 & G3);
    [unfold stack_holds; cbn [stack pointer buffer length]; split_and!; [done|done|lia|done]
    |cbn; lia|].
  rewrite (bind_done _ _ _ _ _ E0), bind_ret. cbn [negb dataCursor endAddress registers] in *.
  unfold FIRCLSDwarfExpressionMachinePrepareForExecution.
  unfold delimited in *. rewrite length_app in Hsz. apply holds_app in Hc as [Hc1 Hc2].
  assert (Hu := FIRCLSParseULEB128_spec (Z.of_nat (length code)) cursor w ltac:(lia) Hc1).
  rewrite (proj2 (Z.ltb_lt _ _)) in Hu by lia.
  rewrite bind_assoc, G1, (bind_done _ _ _ _ _ Hu), (proj2 (Z.eqb_neq _ _)), bind_ret by lia.
  cbn [negb of_option dataCursor with_cursor stack registers]. rewrite bind_ret.
  rewrite wrap_small by lia.
  match goal with |- (evaluate_machine ?m1 ≫= _) _ = _ =>
    destruct (evaluate_loop_run ops (S (Z.to_nat (endAddress m1 - dataCursor m1))) m1
                [init] (v :: st) w) as (m2 & E2 & Hs2 & Hd2)
  end; cbn [registers stack dataCursor endAddress].
  - by rewrite G3.
  - done.
  - done.
  - lia.
  - done.
  - unfold code. lia.
  - unfold evaluate_machine. rewrite (bind_done _ _ _ _ _ E2). cbn [negb].
    unfold FIRCLSDwarfExpressionMachineGetResult. cbn [negb].
    rewrite (proj2 (Z.eqb_eq _ _) Hd2). cbn [negb].
    rewrite bind_assoc, (bind_done _ _ _ _ _ (machine_peek_run _ _ _ w Hs2)), bind_ret.
    by rewrite (stack_holds_valid _ _ Hs2).
Qed.

End Refinement.

(** ** Safety of the machine on any expression *)

(** The stack pointer is null or within the buffer. *)
Definition wf_stack (s : FIRCLSDwarfExpressionStack) : Prop :=
  length (buffer s) = 100%nat /\
  match pointer s with None => True | Some i => 0 <= i <= 100 end.

(** [m'] has run on from [m]. *)
Definition runs_on (m m' : FIRCLSDwarfExpressionMachine) : Prop :=
  wf_stack (stack m') /\ dataCursor m <= dataCursor m' /\
  endAddress m' = endAddress m /\ registers m' = registers m.

Lemma runs_on_refl m : wf_stack (stack m) -> runs_on m m.
Proof. intros. by split_and!. Qed.

Lemma runs_on_trans m1 m2 m3 : runs_on m1 m2 -> runs_on m2 m3 -> runs_on m1 m3.
Proof.
  intros (H1 & H2 & H3 & H4) (K1 & K2 & K3 & K4). split_and!; [done|lia|congruence|congruence].
Qed.

Lemma wf_stack_valid s :
  wf_stack s ->
  FIRCLSDwarfExpressionStackIsValid (Some s) = match pointer s with None => false | Some _ => true end.
Proof.
  intros [_ H]. unfold FIRCLSDwarfExpressionStackIsValid. destruct (pointer s); [|done].
  unfold CLS_DWARF_EXPRESSION_STACK_SIZE.
  by rewrite (proj2 (Z.ltb_ge _ _)), (proj2 (Z.ltb_ge _ _)) by lia.
Qed.

(** On a well-formed stack no operation touches memory outside the buffer:
    the operations return, and leave a well-formed stack. *)
Lemma push_safe s v w :
  wf_stack s ->
  exists ok s', FIRCLSDwarfExpressionStackPush (Some s) v w = Done (ok, Some s') w /\ wf_stack s'.
Proof.
  intros H. unfold FIRCLSDwarfExpressionStackPush. rewrite (wf_stack_valid _ H).
  destruct H as [Hb Hp]. destruct (pointer s) as [i|] eqn:Ep; cbn [negb].
  2: { eexists _, _. split; [done|]. split; [done|by rewrite Ep]. }
  cbn [of_option]. rewrite bind_ret. unfold stack_index. rewrite Ep.
  unfold CLS_DWARF_EXPRESSION_STACK_SIZE. destruct (Z.eqb_spec i 100) as [->|Hne].
  { eexists _, _. split; [done|]. by split. }
  destruct (lookup_lt_is_Some_2 (buffer s) (Z.to_nat i)) as [x Hx]; [lia|].
  rewrite Hx. cbn [of_option]. rewrite bind_ret. eexists _, _. split; [done|].
  split; cbn [buffer pointer]; [by rewrite length_insert|lia].
Qed.

Lemma pop_safe s w :
  wf_stack s ->
  exists v s', FIRCLSDwarfExpressionStackPop (Some s) w = Done (v, Some s') w /\ wf_stack s'.
Proof.
  intros H. unfold FIRCLSDwarfExpressionStackPop. rewrite (wf_stack_valid _ H).
  destruct H as [Hb Hp]. destruct (pointer s) as [i|] eqn:Ep; cbn [negb].
  2: { eexists _, _. split; [done|]. split; [done|by rewrite Ep]. }
  cbn [of_option]. rewrite bind_ret. unfold stack_index. rewrite Ep.
  destruct (Z.eqb_spec i 0) as [->|Hne].
  { eexists _, _. split; [done|]. by split. }
  cbn [with_pointer pointer buffer].
  destruct (lookup_lt_is_Some_2 (buffer s) (Z.to_nat (i - 1))) as [x Hx]; [lia|].
  rewrite Hx. cbn [of_option]. rewrite bind_ret. eexists _, _. split; [done|].
  split; cbn [buffer pointer with_pointer]; [done|lia].
Qed.

Lemma peek_safe s w :
  wf_stack s ->
  exists v s', FIRCLSDwarfExpressionStackPeek (Some s) w = Done (v, Some s') w /\ wf_stack s'.
Proof.
  intros H. pose proof H as H'. unfold FIRCLSDwarfExpressionStackPeek. rewrite (wf_stack_valid _ H).
  destruct H as [Hb Hp]. destruct (pointer s) as [i|] eqn:Ep; cbn [negb].
  2: { by eexists _, _. }
  cbn [of_option]. rewrite bind_ret. unfold stack_index. rewrite Ep.
  destruct (Z.eqb_spec i 0) as [->|Hne].
  { eexists _, _. split; [done|]. by split. }
  destruct (lookup_lt_is_Some_2 (buffer s) (Z.to_nat (i - 1))) as [x Hx]; [lia|].
  rewrite Hx. cbn [of_option]. rewrite bind_ret. by eexists _, _.
Qed.

(** The parsers end, move the cursor on and change no memory. *)
Definition parser_ends (m : M (Z * Z)) (c : Z) : Prop :=
  forall w, ends m w (fun r w' => c < r.2 /\ w' = w).

Lemma uint8_ends c : parser_ends (FIRCLSParseUint8AndAdvance c) c.
Proof. intros w. apply ends_bind, ends_load. intros v. apply ends_ret. split; [cbn; lia|done]. Qed.

Lemma int_shl_ends a n w : ends (int_shl a n) w (fun _ w' => w' = w).
Proof. unfold int_shl. by destruct (_ && _). Qed.

Lemma uleb128_loop_ends n c r k w :
  ends (uleb128_loop n c r k) w (fun r w' => ((0 < n)%nat -> c < r.2) /\ c <= r.2 /\ w' = w).
Proof.
  revert c r k. induction n as [|n IH]; intros c r k; cbn [uleb128_loop].
  { apply ends_ret. cbn. split_and!; [lia|lia|done]. }
  apply ends_bind, ends_load. intros b. apply ends_bind. eapply ends_mono; [apply int_shl_ends|].
  intros v w' ->. cbv beta. destruct (_ =? 0).
  - apply ends_ret. cbn. split_and!; [lia|lia|done].
  - eapply ends_mono; [apply IH|]. intros [r' c'] w' (_ & H & ->). cbn in *. split_and!; [lia|lia|done].
Qed.

Lemma uleb128_ends c : parser_ends (FIRCLSParseULEB128AndAdvance c) c.
Proof.
  intros w. eapply ends_mono; [apply uleb128_loop_ends|]. intros r w' (H & _ & ->).
  split; [apply H; lia|done].
Qed.

Lemma leb128_loop_ends n c r k b w :
  ends (leb128_loop n c r k b) w
    (fun r w' => ((0 < n)%nat -> c < r.2) /\ c <= r.2 /\ w' = w).
Proof.
  revert c r k b. induction n as [|n IH]; intros c r k b; cbn [leb128_loop].
  { apply ends_ret. cbn. split_and!; [lia|lia|done]. }
  apply ends_bind, ends_load. intros b'. apply ends_bind. eapply ends_mono; [apply int_shl_ends|].
  intros v w' ->. cbv beta. destruct (_ =? 0).
  - apply ends_ret. cbn. split_and!; [lia|lia|done].
  - eapply ends_mono; [apply IH|]. intros r' w' (_ & H & ->). split_and!; [lia|lia|done].
Qed.

Lemma leb128_ends c : parser_ends (FIRCLSParseLEB128AndAdvance c) c.
Proof.
  intros w. apply ends_bind. eapply ends_mono; [apply leb128_loop_ends|].
  intros [[[r k] b] c'] w' (H & _ & ->). specialize (H ltac:(lia)). cbn in H. cbv beta.
  destruct (_ && _).
  - apply ends_bind. eapply ends_mono; [apply int_shl_ends|]. intros one w' ->. by apply ends_ret.
  - by apply ends_ret.
Qed.

Lemma uint_ends n c (w : world) :
  (0 < n)%nat ->
  ends (tmp ← load n c; mret (M := M) (tmp, c + Z.of_nat n)) w (fun r w' => c < r.2 /\ w' = w).
Proof. intros. apply ends_bind, ends_load. intros v. apply ends_ret. split; [cbn; lia|done]. Qed.

Section Safety.
Context {VM : VmRead} {VMS : VmReadSpec}.

(** A step of a machine ends, on a well-formed stack. *)
Definition step_ends (m : FIRCLSDwarfExpressionMachine) (f : mres) : Prop :=
  forall w, ends f w (fun r w' => runs_on m r.2 /\ w' = w).

Lemma machine_push_ends m v : wf_stack (stack m) -> step_ends m (FIRCLSDwarfExpressionMachineStackPush m v).
Proof.
  intros H w. destruct (push_safe _ v w H) as (ok & s & E & Hs).
  unfold FIRCLSDwarfExpressionMachineStackPush, ends. rewrite (bind_done _ _ _ _ _ E).
  cbn. split; [|done]. split_and!; [done|cbn; lia|done|done].
Qed.

Lemma machine_pop_ends m w :
  wf_stack (stack m) ->
  ends (FIRCLSDwarfExpressionMachineStackPop m) w (fun r w' => runs_on m r.2 /\ w' = w).
Proof.
  intros H. destruct (pop_safe _ w H) as (ok & s & E & Hs).
  unfold FIRCLSDwarfExpressionMachineStackPop, ends. rewrite (bind_done _ _ _ _ _ E).
  cbn. split; [|done]. split_and!; [done|cbn; lia|done|done].
Qed.

Lemma machine_peek_ends m w :
  wf_stack (stack m) ->
  ends (machine_stack_peek m) w (fun r w' => runs_on m r.2 /\ w' = w).
Proof.
  intros H. destruct (peek_safe _ w H) as (ok & s & E & Hs).
  unfold machine_stack_peek, ends. rewrite (bind_done _ _ _ _ _ E).
  cbn. split; [|done]. split_and!; [done|cbn; lia|done|done].
Qed.

Lemma runs_on_cursor m m' c : runs_on m m' -> dataCursor m' < c -> runs_on m (with_cursor m' c).
Proof. intros (H1 & H2 & H3 & H4) Hc. split_and!; [done|cbn; lia|done|done]. Qed.

Lemma runs_on_wf m m' : runs_on m m' -> wf_stack (stack m').
Proof. by intros [? _]. Qed.

Lemma read_memory_ends a n w : ends (FIRCLSReadMemory a n) w (fun _ w' => w' = w).
Proof.
  unfold FIRCLSReadMemory. destruct (negb _); [done|]. unfold ends.
  by destruct (vm_read_total a n w) as [r ->].
Qed.

Lemma read_only_ends {A} (f : M A) w : ReadOnly f -> f w <> Timeout -> ends f w (fun _ w' => w' = w).
Proof. intros Hr Ht. unfold ends. destruct (f w) eqn:E; [|done|done]. by apply Hr in E as [-> _]. Qed.

Lemma get_register_ends regs num w :
  ends (DwarfUnwindGetRegisterValue regs num) w (fun _ w' => w' = w).
Proof.
  unfold ends. rewrite get_register_run. by destruct (reg_value regs num).
Qed.

(** Peel a bind of an opcode. *)
Ltac step_pop :=
  apply ends_bind;
  eapply ends_mono; [apply machine_pop_ends; first [eassumption | eapply runs_on_wf; eassumption]|];
  let v := fresh "v" in let m1 := fresh "m" in let w1 := fresh "w" in let H := fresh "R" in
  intros [v m1] w1 [H ->]; cbn [fst snd] in *.

Ltac step_push :=
  eapply ends_mono;
  [apply machine_push_ends; first [eassumption | eapply runs_on_wf; eassumption]|];
  let r := fresh "r" in let w1 := fresh "w" in let H := fresh "R" in
  intros r w1 [H ->]; split; [eauto using runs_on_trans|done].

Lemma breg_ends m opcode :
  wf_stack (stack m) -> step_ends m (FIRCLSDwarfExpressionMachineExecute_bregN m opcode).
Proof.
  intros H w. unfold FIRCLSDwarfExpressionMachineExecute_bregN. pose proof (runs_on_refl m H) as R0.
  destruct (_ <? _); [by apply ends_ret|].
  apply ends_bind. eapply ends_mono; [apply leb128_ends|]. intros [c cur] w' [Hc ->].
  cbn [fst snd] in *. pose proof (runs_on_cursor _ _ _ R0 Hc) as R'.
  apply ends_bind. eapply ends_mono; [apply get_register_ends|]. intros v w' ->. step_push.
Qed.

Lemma deref_size_ends m :
  wf_stack (stack m) -> step_ends m (FIRCLSDwarfExpressionMachineExecute_deref_size m).
Proof.
  intros H w. unfold FIRCLSDwarfExpressionMachineExecute_deref_size. step_pop. apply ends_bind.
  eapply ends_mono; [apply uint8_ends|]. intros [c cur] w' [Hc ->]. cbn [fst snd] in *.
  pose proof (runs_on_cursor _ _ _ R Hc) as R'.
  unfold FIRCLSParseUint8AndAdvance, FIRCLSParseUint16AndAdvance, FIRCLSParseUint32AndAdvance,
    FIRCLSParseUint64AndAdvance.
  repeat (destruct (c =? _); [apply ends_bind, ends_bind, ends_load; intros; apply ends_ret; step_push|]).
  apply ends_ret. by split.
Qed.

Lemma execute_opcode_ends m opcode :
  wf_stack (stack m) -> step_ends m (execute_opcode m opcode).
Proof.
  intros H w. unfold execute_opcode.
  destruct (opcode =? DW_OP_deref).
  { unfold FIRCLSDwarfExpressionMachineExecute_deref. step_pop.
    apply ends_bind. eapply ends_mono; [apply read_memory_ends|]. intros [bs|] w' ->.
    - step_push.
    - by apply ends_ret. }
  destruct (opcode =? DW_OP_dup).
  { unfold FIRCLSDwarfExpressionMachineExecute_dup. apply ends_bind.
    eapply ends_mono; [by apply machine_peek_ends|]. intros [v m1] w' [R ->]. cbn [fst snd] in *.
    step_push. }
  destruct (opcode =? DW_OP_and).
  { unfold FIRCLSDwarfExpressionMachineExecute_and. do 2 step_pop. step_push. }
  destruct (opcode =? DW_OP_plus).
  { unfold FIRCLSDwarfExpressionMachineExecute_plus. do 2 step_pop. apply ends_bind.
    unfold int64_result. destruct (_ && _); [|done]. apply ends_ret. step_push. }
  destruct (opcode =? DW_OP_swap).
  { unfold FIRCLSDwarfExpressionMachineExecute_swap. do 2 step_pop. apply ends_bind.
    eapply ends_mono; [apply machine_push_ends; by eapply runs_on_wf|].
    intros [ok m2] w' [R2 ->]. cbn [fst snd] in *. destruct ok; cbn [negb].
    - step_push.
    - apply ends_ret. split; [eauto using runs_on_trans|done]. }
  destruct (opcode =? DW_OP_plus_uconst).
  { unfold FIRCLSDwarfExpressionMachineExecute_plus_uconst. step_pop. apply ends_bind.
    eapply ends_mono; [apply uleb128_ends|]. intros [c cur] w' [Hc ->]. cbn [fst snd] in *.
    pose proof (runs_on_cursor _ _ _ R Hc) as R'. step_push. }
  destruct (opcode =? DW_OP_ne).
  { unfold FIRCLSDwarfExpressionMachineExecute_ne. do 2 step_pop. step_push. }
  destruct (_ && _); [by apply machine_push_ends|].
  destruct (_ && _); [by apply breg_ends|].
  destruct (opcode =? DW_OP_deref_size); [by apply deref_size_ends|].
  apply ends_ret. split; [by apply runs_on_refl|done].
Qed.

Lemma evaluate_loop_ends fuel m w :
  wf_stack (stack m) -> (Z.to_nat (endAddress m - dataCursor m) < fuel)%nat ->
  ends (evaluate_loop fuel m) w (fun r w' => runs_on m r.2 /\ w' = w).
Proof.
  revert m. induction fuel as [|fuel IH]; intros m H Hf; [lia|]. cbn [evaluate_loop].
  destruct (FIRCLSDwarfExpressionMachineIsFinished _) eqn:Efin.
  { apply ends_ret. split; [by apply runs_on_refl|done]. }
  assert (Hlt : dataCursor m < endAddress m).
  { unfold FIRCLSDwarfExpressionMachineIsFinished in Efin.
    do 2 (destruct (_ || _) in Efin || destruct (negb _) in Efin; [done|]).
    by apply Z.leb_gt in Efin. }
  unfold FIRCLSDwarfExpressionMachineExecuteNextOpcode. apply ends_bind, ends_bind.
  eapply ends_mono; [apply uint8_ends|]. intros [op cur] w' [Hc ->]. cbn [fst snd] in *.
  apply ends_bind. eapply ends_mono; [apply (execute_opcode_ends (with_cursor m cur)); done|].
  intros [ok m1] w' [R ->]. cbn [fst snd] in *. apply ends_ret. cbv beta iota.
  apply ends_bind, ends_of_option. intros m2 [= <-].
  pose proof (runs_on_trans _ _ _ (runs_on_cursor m m cur (runs_on_refl m H) Hc) R) as R'.
  destruct ok; cbn [negb].
  - eapply ends_mono; [apply IH; [by eapply runs_on_wf|]|].
    + destruct R as (_ & R1 & R2 & _). cbn in R1, R2. rewrite R2. lia.
    + intros r w' [R2 ->]. split; [eauto using runs_on_trans|done].
  - by apply ends_ret.
Qed.

Lemma evaluate_expression_ends cursor regs init w :
  ends (FIRCLSDwarfEvalulateExpression cursor regs init) w (fun _ w' => w' = w).
Proof.
  unfold FIRCLSDwarfEvalulateExpression. destruct (negb _); [done|].
  unfold FIRCLSDwarfExpressionMachineInit. cbn [stack zero_machine FIRCLSDwarfExpressionStackInit].
  destruct (negb _); [done|]. apply ends_bind, ends_bind, ends_ret, ends_bind.
  eapply ends_mono; [apply machine_push_ends; by split|]. intros [ok m] w' [R ->].
  apply ends_ret. cbv beta iota. destruct (negb ok); [done|]. cbn [fst snd] in *.
  unfold FIRCLSDwarfExpressionMachinePrepareForExecution. apply ends_bind, ends_bind.
  eapply ends_mono; [apply uleb128_ends|]. intros [len cur] w' [_ ->]. cbv beta iota zeta.
  destruct (len =? 0); apply ends_ret; cbv beta iota; [done|]. cbn [negb].
  apply ends_bind, ends_of_option. intros m1 [= <-]. apply ends_bind.
  eapply ends_mono; [apply evaluate_loop_ends; [apply R|lia]|]. intros [ok2 m2] w' [R2 ->].
  destruct (negb ok2); [done|]. cbn [fst snd] in *.
  unfold FIRCLSDwarfExpressionMachineGetResult. cbn [negb]. apply ends_bind.
  destruct (negb _); [done|]. apply ends_bind.
  eapply ends_mono; [apply machine_peek_ends; by eapply runs_on_wf|]. intros [v m3] w' [_ ->].
  apply ends_ret. by destruct (FIRCLSDwarfExpressionStackIsValid _).
Qed.

End Safety.

End Machines.
