(* ===== verification/DwarfUnwind.v ===== *)
(** Crashlytics' DWARF call frame information (FIRCLSDwarfUnwind.c) on ARM64:
    the parsing of CIE and FDE records, the interpreter of call frame
    instructions, and the computation of the registers of the calling frame.

    A pointer to a record is an [option], [None] being null; a function that
    fills a record returns it. Log messages and the debug printers are left
    out. *)
From S2P Require Import Prelude Memory DwarfData ThreadState DwarfExpression.

(** ** Records *)

Record DWARFInstructions := Instructions { instr_length : Z; instr_data : Z }.

Record DWARFCIERecord := CIERecord {
  cie_length : Z;
  cie_version : Z;
  cie_ehData : Z;
  cie_augmentation : Z;
  cie_pointerEncoding : Z;
  cie_lsdaEncoding : Z;
  cie_personalityEncoding : Z;
  cie_personalityFunction : Z;
  cie_codeAlignFactor : Z;
  cie_dataAlignFactor : Z;
  cie_returnAddressRegister : Z;
  cie_signalFrame : bool;
  cie_instructions : DWARFInstructions
}.

Record DWARFFDERecord := FDERecord {
  fde_length : Z;
  fde_cieOffset : Z;
  fde_startAddress : Z;
  fde_rangeSize : Z;
  fde_instructions : DWARFInstructions
}.

Record FIRCLSDwarfCFIRecord := CFIRecord { cfi_cie : DWARFCIERecord; cfi_fde : DWARFFDERecord }.

(** [memset(cie, 0, sizeof(DWARFCIERecord))] *)
Definition zero_cie : DWARFCIERecord :=
  CIERecord 0 0 0 0 0 0 0 0 0 0 0 false (Instructions 0 0).

Definition zero_fde : DWARFFDERecord := FDERecord 0 0 0 0 (Instructions 0 0).

Definition cie_with_length (c : DWARFCIERecord) (length : Z) : DWARFCIERecord :=
  CIERecord length (cie_version c) (cie_ehData c) (cie_augmentation c) (cie_pointerEncoding c)
    (cie_lsdaEncoding c) (cie_personalityEncoding c) (cie_personalityFunction c)
    (cie_codeAlignFactor c) (cie_dataAlignFactor c) (cie_returnAddressRegister c)
    (cie_signalFrame c) (cie_instructions c).

Definition cie_with_header (c : DWARFCIERecord) (version augmentation code data : Z) :
    DWARFCIERecord :=
  CIERecord (cie_length c) version (cie_ehData c) augmentation DW_EH_PE_absptr DW_EH_PE_absptr
    (cie_personalityEncoding c) (cie_personalityFunction c) code data
    (cie_returnAddressRegister c) (cie_signalFrame c) (cie_instructions c).

Definition cie_with_return (c : DWARFCIERecord) (r : Z) : DWARFCIERecord :=
  CIERecord (cie_length c) (cie_version c) (cie_ehData c) (cie_augmentation c)
    (cie_pointerEncoding c) (cie_lsdaEncoding c) (cie_personalityEncoding c)
    (cie_personalityFunction c) (cie_codeAlignFactor c) (cie_dataAlignFactor c) r
    (cie_signalFrame c) (cie_instructions c).

Definition cie_with_lsda (c : DWARFCIERecord) (e : Z) : DWARFCIERecord :=
  CIERecord (cie_length c) (cie_version c) (cie_ehData c) (cie_augmentation c)
    (cie_pointerEncoding c) e (cie_personalityEncoding c) (cie_personalityFunction c)
    (cie_codeAlignFactor c) (cie_dataAlignFactor c) (cie_returnAddressRegister c)
    (cie_signalFrame c) (cie_instructions c).

Definition cie_with_pointer (c : DWARFCIERecord) (e : Z) : DWARFCIERecord :=
  CIERecord (cie_length c) (cie_version c) (cie_ehData c) (cie_augmentation c) e
    (cie_lsdaEncoding c) (cie_personalityEncoding c) (cie_personalityFunction c)
    (cie_codeAlignFactor c) (cie_dataAlignFactor c) (cie_returnAddressRegister c)
    (cie_signalFrame c) (cie_instructions c).

Definition cie_with_personality (c : DWARFCIERecord) (e f : Z) : DWARFCIERecord :=
  CIERecord (cie_length c) (cie_version c) (cie_ehData c) (cie_augmentation c)
    (cie_pointerEncoding c) (cie_lsdaEncoding c) e f (cie_codeAlignFactor c)
    (cie_dataAlignFactor c) (cie_returnAddressRegister c) (cie_signalFrame c)
    (cie_instructions c).

Definition cie_with_signal (c : DWARFCIERecord) : DWARFCIERecord :=
  CIERecord (cie_length c) (cie_version c) (cie_ehData c) (cie_augmentation c)
    (cie_pointerEncoding c) (cie_lsdaEncoding c) (cie_personalityEncoding c)
    (cie_personalityFunction c) (cie_codeAlignFactor c) (cie_dataAlignFactor c)
    (cie_returnAddressRegister c) true (cie_instructions c).

Definition cie_with_instructions (c : DWARFCIERecord) (i : DWARFInstructions) : DWARFCIERecord :=
  CIERecord (cie_length c) (cie_version c) (cie_ehData c) (cie_augmentation c)
    (cie_pointerEncoding c) (cie_lsdaEncoding c) (cie_personalityEncoding c)
    (cie_personalityFunction c) (cie_codeAlignFactor c) (cie_dataAlignFactor c)
    (cie_returnAddressRegister c) (cie_signalFrame c) i.

Definition cie_ptr : Type := option DWARFCIERecord.
Definition fde_ptr : Type := option DWARFFDERecord.

(** ** Augmentation *)

(** One character of the augmentation string; [None] when it is rejected. *)
Definition augmentation_entry (record : DWARFCIERecord) (ptr c : Z) :
    M (bool * DWARFCIERecord * Z) :=
  if c =? 76 (* 'L' *) then
    '(e, ptr) ← FIRCLSParseUint8AndAdvance ptr;
    mret (true, cie_with_lsda record e, ptr)
  else if c =? 82 (* 'R' *) then
    '(e, ptr) ← FIRCLSParseUint8AndAdvance ptr;
    mret (true, cie_with_pointer record e, ptr)
  else if c =? 80 (* 'P' *) then
    '(e, ptr) ← FIRCLSParseUint8AndAdvance ptr;
    '(f, ptr) ← FIRCLSParseAddressWithEncodingAndAdvance ptr e;
    mret (negb (f =? CLS_INVALID_ADDRESS), cie_with_personality record e f, ptr)
  else if c =? 83 (* 'S' *) then mret (true, cie_with_signal record, ptr)
  else mret (false, record, ptr).

(** [for (i = 1; i < stringLength; ++i) {...}] with [n] rounds to go. *)
Fixpoint augmentation_loop (n : nat) (i : Z) (record : DWARFCIERecord) (ptr ending : Z) :
    M (bool * DWARFCIERecord * Z) :=
  match n with
  | O => mret (true, record, ptr)
  | S n' =>
      c ← load 1 (cie_augmentation record + i);
      '(ok, record, ptr) ← augmentation_entry record ptr c;
      if negb ok then mret (false, record, ptr)
      else if ending <? ptr then mret (false, record, ptr)
      else augmentation_loop n' (i + 1) record ptr ending
  end.

(** [ptr] is the address of a variable; returns its new value. *)
Definition FIRCLSDwarfParseAndProcessAugmentation (record : cie_ptr) (ptr : Z) :
    M (bool * cie_ptr * Z) :=
  match record with
  | None => mret (false, None, ptr)
  | Some r =>
      if cie_augmentation r =? 0 then mret (false, record, ptr)
      else
        c ← load 1 (cie_augmentation r);
        if c =? 0 then mret (true, record, ptr)
        else if negb (c =? 122 (* 'z' *)) then mret (false, record, ptr)
        else
          stringLength ← strlen (cie_augmentation r);
          '(dataLength, ptr) ← FIRCLSParseULEB128AndAdvance ptr;
          '(ok, r, ptr) ←
            augmentation_loop (Z.to_nat (stringLength - 1)) 1 r ptr (u64 (ptr + dataLength));
          mret (ok, Some r, ptr)
  end.

(** ** CIE and FDE records *)

Definition FIRCLSDwarfParseCIERecord (cie : cie_ptr) (ptr : Z) : M (bool * cie_ptr) :=
  match cie with
  | None => mret (false, None)
  | Some _ =>
      if ptr =? 0 then mret (false, cie)
      else
        '(length, ptr) ← FIRCLSParseRecordLengthAndAdvance ptr;
        let c := cie_with_length zero_cie length in
        if length =? 0 then mret (false, Some c)
        else
          let endAddress := u64 (ptr + length) in
          (* a wrong CIE flag is logged only *)
          '(_, ptr) ← FIRCLSParseUint32AndAdvance ptr;
          '(version, ptr) ← FIRCLSParseUint8AndAdvance ptr;
          '(augmentation, ptr) ← FIRCLSParseStringAndAdvance ptr;
          '(code, ptr) ← FIRCLSParseULEB128AndAdvance ptr;
          '(data, ptr) ← FIRCLSParseLEB128AndAdvance ptr;
          let c := cie_with_header c version augmentation code data in
          if negb (version =? 1) && negb (version =? 3) then mret (false, Some c)
          else
            '(r, ptr) ← (if version =? 1 then FIRCLSParseUint8AndAdvance ptr
                         else FIRCLSParseULEB128AndAdvance ptr);
            '(ok, c, ptr) ← FIRCLSDwarfParseAndProcessAugmentation (Some (cie_with_return c r)) ptr;
            c ← of_option c;
            if negb ok then mret (false, Some c)
            else
              mret (true, Some (cie_with_instructions c
                                  (Instructions (u32 (endAddress - ptr)) ptr)))
  end.

Definition FIRCLSDwarfCIEIsValid (cie : cie_ptr) : bool :=
  match cie with
  | None => false
  | Some c =>
      if cie_length c =? 0 then false
      else if negb (cie_version c =? 1) && negb (cie_version c =? 3) then false
      else true
  end.

Definition FIRCLSDwarfCIEHasAugmentationData (cie : cie_ptr) : M bool :=
  match cie with
  | None => mret false
  | Some c =>
      if cie_augmentation c =? 0 then mret false
      else
        ch ← load 1 (cie_augmentation c);
        mret (ch =? 122 (* 'z' *))
  end.

(** After the CIE: the addresses, the augmentation data and the instructions. *)
Definition parse_fde_body (fde : DWARFFDERecord) (cie : cie_ptr) (ptr endAddress : Z) :
    M (bool * DWARFFDERecord) :=
  if negb (FIRCLSDwarfCIEIsValid cie) then mret (false, fde)
  else
    c ← of_option cie;
    '(start, ptr) ← FIRCLSParseAddressWithEncodingAndAdvance ptr (cie_pointerEncoding c);
    let fde := FDERecord (fde_length fde) (fde_cieOffset fde) start (fde_rangeSize fde)
                 (fde_instructions fde) in
    if start =? CLS_INVALID_ADDRESS then mret (false, fde)
    else
      '(range, ptr) ← FIRCLSParseAddressWithEncodingAndAdvance ptr
                        (Z.land (cie_pointerEncoding c) DW_EH_PE_VALUE_MASK);
      let fde := FDERecord (fde_length fde) (fde_cieOffset fde) start range
                   (fde_instructions fde) in
      if range =? CLS_INVALID_ADDRESS then mret (false, fde)
      else
        augmented ← FIRCLSDwarfCIEHasAugmentationData cie;
        ptr ← (if augmented : bool then
                 '(augmentationLength, ptr) ← FIRCLSParseULEB128AndAdvance ptr;
                 mret (u64 (ptr + augmentationLength))
               else mret ptr);
        mret (true, FDERecord (fde_length fde) (fde_cieOffset fde) start range
                      (Instructions (u32 (endAddress - ptr)) ptr)).

Definition FIRCLSDwarfParseFDERecord (fdeRecord : fde_ptr) (parseCIE : bool)
    (cieRecord : cie_ptr) (ptr : Z) : M (bool * fde_ptr * cie_ptr) :=
  match fdeRecord, cieRecord with
  | Some fde, Some _ =>
      if ptr =? 0 then mret (false, fdeRecord, cieRecord)
      else
        '(length, ptr) ← FIRCLSParseRecordLengthAndAdvance ptr;
        let fde := FDERecord length (fde_cieOffset fde) (fde_startAddress fde)
                     (fde_rangeSize fde) (fde_instructions fde) in
        if length =? 0 then mret (false, Some fde, cieRecord)
        else
          let endAddress := u64 (ptr + length) in
          '(cieOffset, ptr) ← FIRCLSParseUint32AndAdvance ptr;
          let fde := FDERecord length cieOffset (fde_startAddress fde)
                       (fde_rangeSize fde) (fde_instructions fde) in
          if cieOffset =? 0 then mret (false, Some fde, cieRecord)
          else
            '(ok, cieRecord) ←
              (if parseCIE
               then FIRCLSDwarfParseCIERecord cieRecord (u64 (ptr - cieOffset - 4))
               else mret (true, cieRecord));
            if negb ok then mret (false, Some fde, cieRecord)
            else
              '(ok, fde) ← parse_fde_body fde cieRecord ptr endAddress;
              mret (ok, Some fde, cieRecord)
  | _, _ => mret (false, fdeRecord, cieRecord)
  end.

Definition cfi_ptr : Type := option FIRCLSDwarfCFIRecord.

Definition FIRCLSDwarfParseCFIFromFDERecord (record : cfi_ptr) (ptr : Z) : M (bool * cfi_ptr) :=
  match record with
  | None => mret (false, None)
  | Some r =>
      if ptr =? 0 then mret (false, record)
      else
        '(ok, fde, cie) ← FIRCLSDwarfParseFDERecord (Some (cfi_fde r)) true (Some (cfi_cie r)) ptr;
        fde ← of_option fde;
        cie ← of_option cie;
        mret (ok, Some (CFIRecord cie fde))
  end.

Definition FIRCLSDwarfParseCFIFromFDERecordOffset (record : cfi_ptr) (ehFrame fdeOffset : Z) :
    M (bool * cfi_ptr) :=
  match record with
  | None => mret (false, None)
  | Some _ =>
      if (ehFrame =? 0) || (fdeOffset =? 0) then mret (false, record)
      else FIRCLSDwarfParseCFIFromFDERecord record (u64 (ehFrame + fdeOffset))
  end.

(** ** The state of the call frame instructions *)

Inductive FIRCLSDwarfRegisterLocation :=
  | FIRCLSDwarfRegisterUnused
  | FIRCLSDwarfRegisterInCFA
  | FIRCLSDwarfRegisterOffsetFromCFA
  | FIRCLSDwarfRegisterInRegister
  | FIRCLSDwarfRegisterAtExpression
  | FIRCLSDwarfRegisterIsExpression.

#[global] Instance register_location_eq_dec : EqDecision FIRCLSDwarfRegisterLocation.
Proof. solve_decision. Defined.

Record FIRCLSDwarfRegister := DwarfRegister {
  location : FIRCLSDwarfRegisterLocation;
  value : Z
}.

Record FIRCLSDwarfState := DwarfState {
  cfaRegister : Z;
  cfaRegisterOffset : Z;
  cfaExpression : Z;
  state_registers : list FIRCLSDwarfRegister
}.

Section Unwinding.
Context {TS : ThreadState}.

(** [memset(&state, 0, sizeof(FIRCLSDwarfState))]: [spArgSize] is never used. *)
Definition zero_state : FIRCLSDwarfState :=
  DwarfState 0 0 0 (replicate (Z.to_nat (DWARF_MAX_REGISTER_NUM + 1))
                      (DwarfRegister FIRCLSDwarfRegisterUnused 0)).

(** [state->registers[regNum] = ...], out of bounds a [Fault]. *)
Definition set_register (s : FIRCLSDwarfState) (regNum : Z) (r : FIRCLSDwarfRegister) :
    M FIRCLSDwarfState :=
  _ ← of_option (state_registers s !! Z.to_nat regNum);
  mret (DwarfState (cfaRegister s) (cfaRegisterOffset s) (cfaExpression s)
          (<[Z.to_nat regNum := r]> (state_registers s))).

(** [state->registers[regNum].location = ...], keeping the value. *)
Definition set_register_location (s : FIRCLSDwarfState) (regNum : Z)
    (l : FIRCLSDwarfRegisterLocation) : M FIRCLSDwarfState :=
  r ← of_option (state_registers s !! Z.to_nat regNum);
  set_register s regNum (DwarfRegister l (value r)).

(** ** Call frame instructions

    An instruction returns whether it succeeded, the cursor, the state and
    [codeOffset]. *)
Definition cfa_res : Type := M (bool * Z * FIRCLSDwarfState * Z).

Definition DW_CFA_nop : Z := 0x0.
Definition DW_CFA_set_loc : Z := 0x1.
Definition DW_CFA_advance_loc1 : Z := 0x2.
Definition DW_CFA_advance_loc2 : Z := 0x3.
Definition DW_CFA_advance_loc4 : Z := 0x4.
Definition DW_CFA_same_value : Z := 0x8.
Definition DW_CFA_register : Z := 0x9.
Definition DW_CFA_def_cfa : Z := 0xC.
Definition DW_CFA_def_cfa_register : Z := 0xD.
Definition DW_CFA_def_cfa_offset : Z := 0xE.
Definition DW_CFA_def_cfa_expression : Z := 0xF.
Definition DW_CFA_expression : Z := 0x10.
Definition DW_CFA_val_expression : Z := 0x16.
Definition DW_CFA_advance_loc : Z := 0x40.
Definition DW_CFA_offset : Z := 0x80.
Definition DW_CFA_OPCODE_MASK : Z := 0xC0.
Definition DW_CFA_OPERAND_MASK : Z := 0x3F.

(** The instructions that the interpreter names but does not implement. *)
Definition DW_CFA_unimplemented : list Z :=
  [0x5; 0x6; 0x7; 0xA; 0xB; 0x11; 0x12; 0x13; 0x14; 0x15; 0x2D; 0x2E; 0x2F].

Section Instructions.
Context (cieRecord : DWARFCIERecord).

Definition FIRCLSDwarfParseAndExecute_set_loc (cursor : Z) (s : FIRCLSDwarfState)
    (codeOffset : Z) : cfa_res :=
  '(operand, cursor) ←
    FIRCLSParseAddressWithEncodingAndAdvance cursor (cie_pointerEncoding cieRecord);
  mret (true, cursor, s, s64 operand).

(** [*codeOffset += offset] with an operand of [n] bytes; the product is in
    [uint64_t]. *)
Definition advance_loc_n (n : nat) (cursor : Z) (s : FIRCLSDwarfState) (codeOffset : Z) :
    cfa_res :=
  delta ← load n cursor;
  let offset := s64 (u64 (delta * cie_codeAlignFactor cieRecord)) in
  codeOffset ← int64_result (codeOffset + offset);
  mret (true, cursor + Z.of_nat n, s, codeOffset).

Definition FIRCLSDwarfParseAndExecute_advance_loc1 := advance_loc_n 1.
Definition FIRCLSDwarfParseAndExecute_advance_loc2 := advance_loc_n 2.
Definition FIRCLSDwarfParseAndExecute_advance_loc4 := advance_loc_n 4.

Definition FIRCLSDwarfParseAndExecute_def_cfa (cursor : Z) (s : FIRCLSDwarfState)
    (codeOffset : Z) : cfa_res :=
  '(regNum, cursor) ← FIRCLSParseULEB128AndAdvance cursor;
  if DWARF_MAX_REGISTER_NUM <? regNum then mret (false, cursor, s, codeOffset)
  else
    '(offset, cursor) ← FIRCLSParseULEB128AndAdvance cursor;
    mret (true, cursor,
          DwarfState regNum (s64 offset) (cfaExpression s) (state_registers s), codeOffset).

Definition FIRCLSDwarfParseAndExecute_def_cfa_register (cursor : Z) (s : FIRCLSDwarfState)
    (codeOffset : Z) : cfa_res :=
  '(regNum, cursor) ← FIRCLSParseULEB128AndAdvance cursor;
  if DWARF_MAX_REGISTER_NUM <? regNum then mret (false, cursor, s, codeOffset)
  else
    mret (true, cursor,
          DwarfState regNum (cfaRegisterOffset s) (cfaExpression s) (state_registers s),
          codeOffset).

Definition FIRCLSDwarfParseAndExecute_def_cfa_offset (cursor : Z) (s : FIRCLSDwarfState)
    (codeOffset : Z) : cfa_res :=
  '(offset, cursor) ← FIRCLSParseULEB128AndAdvance cursor;
  mret (true, cursor,
        DwarfState (cfaRegister s) (s64 offset) (cfaExpression s) (state_registers s),
        codeOffset).

Definition FIRCLSDwarfParseAndExecute_same_value (cursor : Z) (s : FIRCLSDwarfState)
    (codeOffset : Z) : cfa_res :=
  '(regNum, cursor) ← FIRCLSParseULEB128AndAdvance cursor;
  if DWARF_MAX_REGISTER_NUM <? regNum then mret (false, cursor, s, codeOffset)
  else
    s ← set_register_location s regNum FIRCLSDwarfRegisterUnused;
    mret (true, cursor, s, codeOffset).

Definition FIRCLSDwarfParseAndExecute_register (cursor : Z) (s : FIRCLSDwarfState)
    (codeOffset : Z) : cfa_res :=
  '(regNum, cursor) ← FIRCLSParseULEB128AndAdvance cursor;
  if DWARF_MAX_REGISTER_NUM <? regNum then mret (false, cursor, s, codeOffset)
  else
    '(regValue, cursor) ← FIRCLSParseULEB128AndAdvance cursor;
    if DWARF_MAX_REGISTER_NUM <? regValue then mret (false, cursor, s, codeOffset)
    else
      s ← set_register s regNum (DwarfRegister FIRCLSDwarfRegisterInRegister regValue);
      mret (true, cursor, s, codeOffset).

(** The two expression rules: the value is the address of the expression. *)
Definition expression_rule (l : FIRCLSDwarfRegisterLocation) (cursor : Z)
    (s : FIRCLSDwarfState) (codeOffset : Z) : cfa_res :=
  '(regNum, cursor) ← FIRCLSParseULEB128AndAdvance cursor;
  if DWARF_MAX_REGISTER_NUM <? regNum then mret (false, cursor, s, codeOffset)
  else
    s ← set_register s regNum (DwarfRegister l cursor);
    '(length, cursor) ← FIRCLSParseULEB128AndAdvance cursor;
    mret (true, u64 (cursor + length), s, codeOffset).

Definition FIRCLSDwarfParseAndExecute_expression :=
  expression_rule FIRCLSDwarfRegisterAtExpression.
Definition FIRCLSDwarfParseAndExecute_val_expression :=
  expression_rule FIRCLSDwarfRegisterIsExpression.

Definition FIRCLSDwarfParseAndExecute_def_cfa_expression (cursor : Z) (s : FIRCLSDwarfState)
    (codeOffset : Z) : cfa_res :=
  let s := DwarfState CLS_DWARF_INVALID_REGISTER_NUM (cfaRegisterOffset s) cursor
             (state_registers s) in
  '(length, cursor) ← FIRCLSParseULEB128AndAdvance cursor;
  mret (true, u64 (cursor + length), s, codeOffset).

Definition FIRCLSDwarfParseAndExecute_offset (cursor : Z) (s : FIRCLSDwarfState)
    (regNum codeOffset : Z) : cfa_res :=
  if DWARF_MAX_REGISTER_NUM <? regNum then mret (false, cursor, s, codeOffset)
  else
    '(v, cursor) ← FIRCLSParseULEB128AndAdvance cursor;
    let offset := s64 (u64 (v * cie_dataAlignFactor cieRecord)) in
    s ← set_register s regNum (DwarfRegister FIRCLSDwarfRegisterInCFA (u64 offset));
    mret (true, cursor, s, codeOffset).

(** Both pointers it checks are addresses of the caller's variables. *)
Definition FIRCLSDwarfParseAndExecute_advance_loc (cursor : Z) (s : FIRCLSDwarfState)
    (delta codeOffset : Z) : cfa_res :=
  codeOffset ← int64_result (delta * s64 (cie_codeAlignFactor cieRecord));
  mret (true, cursor, s, codeOffset).

Definition FIRCLSDwarfParseAndExecuteInstructionWithOperand (cursor instruction : Z)
    (s : FIRCLSDwarfState) (codeOffset : Z) : cfa_res :=
  let operand := Z.land instruction DW_CFA_OPERAND_MASK in
  let opcode := Z.land instruction DW_CFA_OPCODE_MASK in
  if opcode =? DW_CFA_offset then
    FIRCLSDwarfParseAndExecute_offset cursor s operand codeOffset
  else if opcode =? DW_CFA_advance_loc then
    FIRCLSDwarfParseAndExecute_advance_loc cursor s operand codeOffset
  else mret (false, cursor, s, codeOffset).

(** The switch over an instruction that is not [DW_CFA_nop]. *)
Definition execute_instruction (instruction cursor : Z) (s : FIRCLSDwarfState)
    (codeOffset : Z) : cfa_res :=
  if instruction =? DW_CFA_set_loc then FIRCLSDwarfParseAndExecute_set_loc cursor s codeOffset
  else if instruction =? DW_CFA_advance_loc1 then
    FIRCLSDwarfParseAndExecute_advance_loc1 cursor s codeOffset
  else if instruction =? DW_CFA_advance_loc2 then
    FIRCLSDwarfParseAndExecute_advance_loc2 cursor s codeOffset
  else if instruction =? DW_CFA_advance_loc4 then
    FIRCLSDwarfParseAndExecute_advance_loc4 cursor s codeOffset
  else if instruction =? DW_CFA_def_cfa then
    FIRCLSDwarfParseAndExecute_def_cfa cursor s codeOffset
  else if instruction =? DW_CFA_def_cfa_register then
    FIRCLSDwarfParseAndExecute_def_cfa_register cursor s codeOffset
  else if instruction =? DW_CFA_def_cfa_offset then
    FIRCLSDwarfParseAndExecute_def_cfa_offset cursor s codeOffset
  else if instruction =? DW_CFA_same_value then
    FIRCLSDwarfParseAndExecute_same_value cursor s codeOffset
  else if instruction =? DW_CFA_register then
    FIRCLSDwarfParseAndExecute_register cursor s codeOffset
  else if instruction =? DW_CFA_def_cfa_expression then
    FIRCLSDwarfParseAndExecute_def_cfa_expression cursor s codeOffset
  else if instruction =? DW_CFA_expression then
    FIRCLSDwarfParseAndExecute_expression cursor s codeOffset
  else if instruction =? DW_CFA_val_expression then
    FIRCLSDwarfParseAndExecute_val_expression cursor s codeOffset
  else if bool_decide (instruction ∈ DW_CFA_unimplemented) then
    mret (false, cursor, s, codeOffset)
  else FIRCLSDwarfParseAndExecuteInstructionWithOperand cursor instruction s codeOffset.

(** [while ((cursor < endAddress) && (codeOffset < pcOffset))]: every round
    reads at least one byte. *)
Fixpoint enumerate_loop (fuel : nat) (cursor endAddress : Z) (s : FIRCLSDwarfState)
    (codeOffset pcOffset : Z) : M (bool * FIRCLSDwarfState) :=
  match fuel with
  | O => timeout
  | S fuel' =>
      if negb ((cursor <? endAddress) && (codeOffset <? pcOffset)) then mret (true, s)
      else
        '(instruction, cursor) ← FIRCLSParseUint8AndAdvance cursor;
        if instruction =? DW_CFA_nop then
          enumerate_loop fuel' cursor endAddress s codeOffset pcOffset
        else
          '(success, cursor, s, codeOffset) ←
            execute_instruction instruction cursor s codeOffset;
          if negb success then mret (false, s)
          else enumerate_loop fuel' cursor endAddress s codeOffset pcOffset
  end.

End Instructions.

(** The fuel is the number of bytes of the instructions. *)
Definition FIRCLSDwarfInstructionsEnumerate (instructions : option DWARFInstructions)
    (cieRecord : cie_ptr) (state : option FIRCLSDwarfState) (pcOffset : Z) :
    M (bool * option FIRCLSDwarfState) :=
  match instructions, cieRecord, state with
  | Some instrs, Some cie, Some s =>
      let cursor := instr_data instrs in
      let endAddress := u64 (cursor + instr_length instrs) in
      '(ok, s) ← enumerate_loop cie (S (Z.to_nat (instr_length instrs))) cursor endAddress
                   s 0 pcOffset;
      mret (ok, Some s)
  | _, _, _ => mret (false, state)
  end.

(** ** Registers *)

Definition FIRCLSDwarfCompareRegisters (a b : option thread_context) (registerNum : Z) :
    M bool :=
  va ← DwarfUnwindGetRegisterValue a registerNum;
  vb ← DwarfUnwindGetRegisterValue b registerNum;
  mret (va =? vb).

Section Registers.
Context {VM : VmRead}.

(** The value stored in [*cfa]; the pointer is the address of a variable. *)
Definition FIRCLSDwarfGetCFA (state : option FIRCLSDwarfState)
    (registers : option thread_context) : M (option Z) :=
  match state, registers with
  | Some s, Some _ =>
      if negb (cfaExpression s =? 0) then
        r ← FIRCLSDwarfEvalulateExpression (cfaExpression s) registers 0;
        mret (u64 <$> r)
      else
        reg ← DwarfUnwindGetRegisterValue registers (cfaRegister s);
        mret (Some (u64 (reg + cfaRegisterOffset s)))
  | _, _ => mret None
  end.

(** An [intptr_t] result is returned as [uintptr_t]. *)
Definition FIRCLSDwarfGetSavedRegister (registers : option thread_context)
    (cfaRegister : Z) (dRegister : FIRCLSDwarfRegister) : M Z :=
  match location dRegister with
  | FIRCLSDwarfRegisterInCFA =>
      bs ← FIRCLSReadMemory (u64 (cfaRegister + value dRegister)) 8;
      mret (from_option le_val 0 bs)
  | FIRCLSDwarfRegisterInRegister =>
      DwarfUnwindGetRegisterValue registers (value dRegister)
  | FIRCLSDwarfRegisterAtExpression =>
      r ← FIRCLSDwarfEvalulateExpression (value dRegister) registers (s64 cfaRegister);
      match r with
      | None => mret 0
      | Some result =>
          bs ← FIRCLSReadMemory (u64 result) 8;
          mret (from_option le_val 0 bs)
      end
  | FIRCLSDwarfRegisterIsExpression =>
      r ← FIRCLSDwarfEvalulateExpression (value dRegister) registers (s64 cfaRegister);
      mret (from_option u64 0 r)
  | FIRCLSDwarfRegisterOffsetFromCFA | FIRCLSDwarfRegisterUnused => mret 0
  end.

(** [for (i = 0; i <= DWARF_MAX_REGISTER_NUM; ++i)] with [n] rounds to go. *)
Fixpoint assign_registers_loop (n : nat) (i : Z) (s : FIRCLSDwarfState)
    (registers : option thread_context) (cfaRegister : Z)
    (newThreadState : option thread_context) : M ctx_res :=
  match n with
  | O => mret (true, newThreadState)
  | S n' =>
      r ← of_option (state_registers s !! Z.to_nat i);
      if decide (location r = FIRCLSDwarfRegisterUnused) then
        assign_registers_loop n' (i + 1) s registers cfaRegister newThreadState
      else
        v ← FIRCLSDwarfGetSavedRegister registers cfaRegister r;
        '(ok, newThreadState) ← DwarfUnwindSetRegisterValue newThreadState i v;
        if negb ok then mret (false, newThreadState)
        else assign_registers_loop n' (i + 1) s registers cfaRegister newThreadState
  end.

(** The new context, stored through [outputRegisters] when it returns true. *)
Definition FIRCLSDwarfUnwindAssignRegisters (state : option FIRCLSDwarfState)
    (registers : option thread_context) (cfaRegister : Z) : M (option thread_context) :=
  match state, registers with
  | Some s, Some r =>
      '(ok, new) ← assign_registers_loop (Z.to_nat (DWARF_MAX_REGISTER_NUM + 1)) 0 s
                     registers cfaRegister (Some r);
      if negb ok then mret None
      else
        '(ok, new) ← DwarfUnwindSetRegisterValue new DWARF_REG_SP cfaRegister;
        if negb ok then mret None
        else
          same_sp ← FIRCLSDwarfCompareRegisters registers new DWARF_REG_SP;
          if same_sp : bool then mret None
          else
            same_pc ← FIRCLSDwarfCompareRegisters registers new DWARF_REG_RETURN;
            if same_pc : bool then mret None else mret new
  | _, _ => mret None
  end.

Definition INTPTR_MAX : Z := 2 ^ 63 - 1.

(** Returns the registers, changed when it succeeds. *)
Definition FIRCLSDwarfUnwindComputeRegisters (record : cfi_ptr)
    (registers : option thread_context) : M ctx_res :=
  match record, registers with
  | Some rec, Some _ =>
      let cie := cfi_cie rec in
      '(ok, state) ← FIRCLSDwarfInstructionsEnumerate (Some (cie_instructions cie)) (Some cie)
                       (Some zero_state) INTPTR_MAX;
      if negb ok then mret (false, registers)
      else
        let pcOffset :=
          s64 (ThreadContextGetPC registers - fde_startAddress (cfi_fde rec)) in
        if pcOffset <? 0 then mret (false, registers)
        else
          '(ok, state) ←
            FIRCLSDwarfInstructionsEnumerate (Some (fde_instructions (cfi_fde rec))) (Some cie)
              state pcOffset;
          if negb ok then mret (false, registers)
          else
            cfa ← FIRCLSDwarfGetCFA state registers;
            match cfa with
            | None => mret (false, registers)
            | Some cfaRegister =>
                new ← FIRCLSDwarfUnwindAssignRegisters state registers cfaRegister;
                match new with
                | None => mret (false, registers)
                | Some _ => mret (true, new)
                end
            end
  | _, _ => mret (false, registers)
  end.

End Registers.

End Unwinding.
