(* ===== verification/DwarfCfiSpec.v ===== *)
(** Call frame instructions as the DWARF standard has them, their meaning on
    rows of an unwind table, and that for the programs that are [supported]
    Crashlytics' interpreter (DwarfUnwind.v) computes the row of the address before
    a program counter; the safety and termination of the interpreter on any
    instructions. *)
From S2P Require Import Prelude Memory PbWire DwarfData ThreadState DwarfDataSpec.
From S2P Require Import DwarfExpression DwarfExpressionSpec DwarfUnwind.

(** ** Rows *)

Inductive cfa_rule :=
  | CfaRegister (r offset : Z)
  | CfaExpression (a : Z).

(** Where the caller's value of a register is. *)
Inductive reg_rule :=
  | SameValue
  | AtCfaOffset (offset : Z)
  | InRegister (r : Z)
  | AtExpression (a : Z)
  | IsExpression (a : Z).

Record row := Row { row_cfa : cfa_rule; row_regs : gmap Z reg_rule }.

Definition rule_of (r : row) (n : Z) : reg_rule := default SameValue (row_regs r !! n).

Definition with_cfa (r : row) (c : cfa_rule) : row := Row c (row_regs r).
Definition with_rule (r : row) (n : Z) (x : reg_rule) : row := Row (row_cfa r) (<[n := x]> (row_regs r)).

(** The row before any instruction. *)
Definition initial_row : row := Row (CfaRegister 0 0) ∅.

(** ** Instructions *)

Inductive cfi :=
  | CfiNop
  | CfiAdvanceLoc (delta : Z)
  | CfiAdvance (n : nat) (delta : Z)
  | CfiDefCfa (r offset : Z)
  | CfiDefCfaRegister (r : Z)
  | CfiDefCfaOffset (offset : Z)
  | CfiDefCfaExpression (code : list Z)
  | CfiSameValue (r : Z)
  | CfiRegister (r r' : Z)
  | CfiOffset (r n : Z)
  | CfiExpression (r : Z) (code : list Z)
  | CfiValExpression (r : Z) (code : list Z).

#[global] Instance cfi_eq_dec : EqDecision cfi.
Proof. solve_decision. Defined.

(** The opcode of an advance by an operand of [n] bytes. *)
Definition advance_opcode (n : nat) : Z :=
  match n with 1%nat => DW_CFA_advance_loc1 | 2%nat => DW_CFA_advance_loc2 | _ => DW_CFA_advance_loc4 end.

Definition encode_cfi (i : cfi) : list Z :=
  match i with
  | CfiNop => [DW_CFA_nop]
  | CfiAdvanceLoc delta => [DW_CFA_advance_loc + delta]
  | CfiAdvance n delta => advance_opcode n :: le_bytes n delta
  | CfiDefCfa r offset => DW_CFA_def_cfa :: varint_bytes r ++ varint_bytes offset
  | CfiDefCfaRegister r => DW_CFA_def_cfa_register :: varint_bytes r
  | CfiDefCfaOffset offset => DW_CFA_def_cfa_offset :: varint_bytes offset
  | CfiDefCfaExpression code => DW_CFA_def_cfa_expression :: delimited code
  | CfiSameValue r => DW_CFA_same_value :: varint_bytes r
  | CfiRegister r r' => DW_CFA_register :: varint_bytes r ++ varint_bytes r'
  | CfiOffset r n => (DW_CFA_offset + r) :: varint_bytes n
  | CfiExpression r code => DW_CFA_expression :: varint_bytes r ++ delimited code
  | CfiValExpression r code => DW_CFA_val_expression :: varint_bytes r ++ delimited code
  end.

Definition encode_cfis (prog : list cfi) : list Z := concat (encode_cfi <$> prog).

Section Cfi.
Context {TS : ThreadState} {TL : ThreadStateLaws}.

Definition is_reg (r : Z) : bool := (0 <=? r) && (r <=? DWARF_MAX_REGISTER_NUM).
Definition is_uleb (v : Z) : bool := (0 <=? v) && (v <? 2 ^ 31).
Definition is_code (a : Z) (code : list Z) : bool :=
  is_uleb (Z.of_nat (length code)) && (0 <? a) && (a + Z.of_nat (length code) + 16 <? 2 ^ 64).

(** The meaning that the DWARF standard gives an instruction at the address [a], for a
    CIE with the alignment factors [ca] and [da]: the location and the row after it.
    [None] for operands out of range and for what the standard does not allow. *)
Definition cfi_meaning (ca da a : Z) (i : cfi) (loc : Z) (r : row) : option (Z * row) :=
  match i with
  | CfiNop => Some (loc, r)
  | CfiAdvanceLoc delta =>
      if (0 <=? delta) && (delta <? 64) && (loc + delta * ca <? 2 ^ 63) then Some (loc + delta * ca, r) else None
  | CfiAdvance n delta =>
      if bool_decide (n ∈ [1; 2; 4]%nat) && (0 <=? delta) && (delta <? 2 ^ (8 * Z.of_nat n)) &&
         (loc + delta * ca <? 2 ^ 63)
      then Some (loc + delta * ca, r) else None
  | CfiDefCfa rn offset =>
      if is_reg rn && is_uleb offset then Some (loc, with_cfa r (CfaRegister rn offset)) else None
  | CfiDefCfaRegister rn =>
      match row_cfa r with
      | CfaRegister _ offset =>
          if is_reg rn then Some (loc, with_cfa r (CfaRegister rn offset)) else None
      | CfaExpression _ => None
      end
  | CfiDefCfaOffset offset =>
      match row_cfa r with
      | CfaRegister rn _ =>
          if is_uleb offset then Some (loc, with_cfa r (CfaRegister rn offset)) else None
      | CfaExpression _ => None
      end
  | CfiDefCfaExpression code =>
      if is_code (a + 1) code then Some (loc, with_cfa r (CfaExpression (a + 1))) else None
  | CfiSameValue rn => if is_reg rn then Some (loc, with_rule r rn SameValue) else None
  | CfiRegister rn rn' =>
      if is_reg rn && is_reg rn' then Some (loc, with_rule r rn (InRegister rn')) else None
  | CfiOffset rn n =>
      if is_reg rn && is_uleb n then Some (loc, with_rule r rn (AtCfaOffset (n * da))) else None
  | CfiExpression rn code =>
      if is_reg rn && is_code (a + 2) code then Some (loc, with_rule r rn (AtExpression (a + 2)))
      else None
  | CfiValExpression rn code =>
      if is_reg rn && is_code (a + 2) code then Some (loc, with_rule r rn (IsExpression (a + 2)))
      else None
  end.

(** The row of the offset [pc], as the standard looks it up (section 6.4.3): the
    instructions are processed up to the first advance beyond [pc]. *)
Fixpoint table_row (ca da a : Z) (prog : list cfi) (loc pc : Z) (r : row) : option row :=
  match prog with
  | [] => Some r
  | i :: prog =>
      '(loc, r) ← cfi_meaning ca da a i loc r;
      if pc <? loc then Some r else table_row ca da (a + Z.of_nat (length (encode_cfi i))) prog loc pc r
  end.

Definition is_expression (c : cfa_rule) : bool := match c with CfaExpression _ => true | _ => false end.

(** The programs that the interpreter is right about: a [DW_CFA_advance_loc] is only the
    first advance, since it replaces the location instead of moving it, and no
    [DW_CFA_def_cfa] comes while the CFA is an expression, since it would not remove it.
    [advanced] and [expr]: whether there was an advance, and the CFA is an expression. *)
Fixpoint supported (advanced expr : bool) (prog : list cfi) : bool :=
  match prog with
  | [] => true
  | CfiAdvanceLoc _ :: prog => negb advanced && supported true expr prog
  | CfiAdvance _ _ :: prog => supported true expr prog
  | CfiDefCfa _ _ :: prog => negb expr && supported advanced expr prog
  | CfiDefCfaExpression _ :: prog => supported advanced true prog
  | _ :: prog => supported advanced expr prog
  end.

(** What the interpreter does: the location and the row after an instruction, [None]
    where it departs from the standard; it stops at the first location that is not
    below the program counter. *)
Definition run_cfi (ca da a : Z) (i : cfi) (loc : Z) (r : row) : option (Z * row) :=
  match i with
  | CfiNop => Some (loc, r)
  | CfiAdvanceLoc delta =>
      if (0 <=? delta) && (delta <? 64) && (loc =? 0) then Some (delta * ca, r) else None
  | CfiAdvance n delta =>
      if bool_decide (n ∈ [1; 2; 4]%nat) && (0 <=? delta) && (delta <? 2 ^ (8 * Z.of_nat n)) &&
         (loc + delta * ca <? 2 ^ 63)
      then Some (loc + delta * ca, r) else None
  | CfiDefCfa rn offset =>
      if is_reg rn && is_uleb offset then
        match row_cfa r with
        | CfaRegister _ _ => Some (loc, with_cfa r (CfaRegister rn offset))
        | CfaExpression _ => None
        end
      else None
  | CfiDefCfaRegister rn =>
      match row_cfa r with
      | CfaRegister _ offset =>
          if is_reg rn then Some (loc, with_cfa r (CfaRegister rn offset)) else None
      | CfaExpression _ => None
      end
  | CfiDefCfaOffset offset =>
      match row_cfa r with
      | CfaRegister rn _ =>
          if is_uleb offset then Some (loc, with_cfa r (CfaRegister rn offset)) else None
      | CfaExpression _ => None
      end
  | CfiDefCfaExpression code =>
      if is_code (a + 1) code then Some (loc, with_cfa r (CfaExpression (a + 1))) else None
  | CfiSameValue rn => if is_reg rn then Some (loc, with_rule r rn SameValue) else None
  | CfiRegister rn rn' =>
      if is_reg rn && is_reg rn' then Some (loc, with_rule r rn (InRegister rn')) else None
  | CfiOffset rn n =>
      if is_reg rn && is_uleb n then Some (loc, with_rule r rn (AtCfaOffset (n * da))) else None
  | CfiExpression rn code =>
      if is_reg rn && is_code (a + 2) code then Some (loc, with_rule r rn (AtExpression (a + 2)))
      else None
  | CfiValExpression rn code =>
      if is_reg rn && is_code (a + 2) code then Some (loc, with_rule r rn (IsExpression (a + 2)))
      else None
  end.

Fixpoint run_cfis (ca da a : Z) (prog : list cfi) (loc pc : Z) (r : row) : option row :=
  if pc <=? loc then Some r
  else
    match prog with
    | [] => Some r
    | i :: prog =>
        match run_cfi ca da a i loc r with
        | Some (loc, r) => run_cfis ca da (a + Z.of_nat (length (encode_cfi i))) prog loc pc r
        | None => None
        end
    end.

Lemma meaning_run ca da a i loc r :
  (forall d, i = CfiAdvanceLoc d -> loc = 0) -> (forall rn o, i = CfiDefCfa rn o -> is_expression (row_cfa r) = false) ->
  forall x, cfi_meaning ca da a i loc r = Some x -> run_cfi ca da a i loc r = Some x.
Proof.
  intros Hadv Hdef x. destruct i; try done; cbn [cfi_meaning run_cfi].
  - rewrite (Hadv _ eq_refl), Z.eqb_refl, andb_true_r, Z.add_0_l. by destruct (_ && _ && _) eqn:E; [apply andb_true_iff in E as [-> _]|].
  - specialize (Hdef _ _ eq_refl). destruct (_ && _); [|done]. by destruct (row_cfa r).
Qed.

Lemma supported_step advanced ca da a i prog loc r loc' r' :
  supported advanced (is_expression (row_cfa r)) (i :: prog) = true -> (advanced = false -> loc = 0) ->
  cfi_meaning ca da a i loc r = Some (loc', r') ->
  exists advanced', supported advanced' (is_expression (row_cfa r')) prog = true /\ (advanced' = false -> loc' = 0).
Proof.
  intros Hs Hloc E. destruct i; cbn [supported cfi_meaning] in *; repeat case_match; simplify_eq/=;
    rewrite ?andb_true_iff in Hs; try (exists advanced; by split; [try apply Hs|]); try (exists true; by split; [try apply Hs|]).
  destruct Hs as [He%negb_true_iff Hs]. exists advanced. by rewrite He in Hs.
Qed.

(** For the programs that are supported the interpreter computes the row of the address
    before the program counter. *)
Lemma table_row_run ca da prog : forall a advanced loc pc r r',
  supported advanced (is_expression (row_cfa r)) prog = true -> (advanced = false -> loc = 0) -> loc < pc ->
  table_row ca da a prog loc (pc - 1) r = Some r' -> run_cfis ca da a prog loc pc r = Some r'.
Proof.
  induction prog as [|i prog IH]; intros a advanced loc pc r r' Hs Hloc Hlt Hrow; cbn [run_cfis]; rewrite (proj2 (Z.leb_gt _ _)) by done;
    [done|]. cbn [table_row] in Hrow. apply bind_Some in Hrow as ([loc1 r1] & E & Hrow).
  assert (Hadv : forall d, i = CfiAdvanceLoc d -> loc = 0).
  { intros d ->. cbn in Hs. apply andb_true_iff in Hs as [?%negb_true_iff _]. by apply Hloc. }
  assert (Hdef : forall rn o, i = CfiDefCfa rn o -> is_expression (row_cfa r) = false).
  { intros rn o ->. cbn in Hs. by apply andb_true_iff in Hs as [?%negb_true_iff _]. }
  rewrite (meaning_run _ _ _ _ _ _ Hadv Hdef _ E).
  destruct (Z.ltb_spec (pc - 1) loc1) as [Hstop|Hgo].
  { injection Hrow as <-. destruct prog; cbn [run_cfis]; by rewrite (proj2 (Z.leb_le pc loc1)) by lia. }
  destruct (supported_step _ _ _ _ _ _ _ _ _ _ Hs Hloc E) as (advanced' & Hs' & Hloc'). eapply IH; [exact Hs'|exact Hloc'|lia|exact Hrow].
Qed.

(** ** States that represent a row *)

Definition represents_rule (x : reg_rule) (d : FIRCLSDwarfRegister) : Prop :=
  match x with
  | SameValue => location d = FIRCLSDwarfRegisterUnused
  | AtCfaOffset offset => d = DwarfRegister FIRCLSDwarfRegisterInCFA (u64 offset)
  | InRegister r => d = DwarfRegister FIRCLSDwarfRegisterInRegister r
  | AtExpression a => d = DwarfRegister FIRCLSDwarfRegisterAtExpression a
  | IsExpression a => d = DwarfRegister FIRCLSDwarfRegisterIsExpression a
  end.

Definition represents_cfa (c : cfa_rule) (s : FIRCLSDwarfState) : Prop :=
  match c with
  | CfaRegister r offset => cfaExpression s = 0 /\ cfaRegister s = r /\ cfaRegisterOffset s = offset
  | CfaExpression a => cfaExpression s = a /\ a <> 0
  end.

Definition represents (r : row) (s : FIRCLSDwarfState) : Prop :=
  represents_cfa (row_cfa r) s /\ Z.of_nat (length (state_registers s)) = DWARF_MAX_REGISTER_NUM + 1 /\
  forall n d, 0 <= n <= DWARF_MAX_REGISTER_NUM -> state_registers s !! Z.to_nat n = Some d -> represents_rule (rule_of r n) d.

Lemma represents_initial : represents initial_row zero_state.
Proof.
  pose proof max_register_bounds. split; [done|].
  split; [cbn; rewrite length_replicate; lia|]. intros n d Hn Hd.
  apply lookup_replicate in Hd as [-> _]. done.
Qed.

Lemma represents_with_cfa r s c s' :
  represents r s -> represents_cfa c s' -> state_registers s' = state_registers s ->
  represents (with_cfa r c) s'.
Proof. intros (_ & Hl & Hr) Hc E. split; [done|]. rewrite E. split; [done|]. exact Hr. Qed.

Lemma set_register_run r s n x d w :
  represents r s -> 0 <= n <= DWARF_MAX_REGISTER_NUM -> represents_rule x d ->
  exists s', set_register s n d w = Done s' w /\ represents (with_rule r n x) s'.
Proof.
  intros (Hc & Hl & Hr) Hn Hx. unfold set_register.
  destruct (lookup_lt_is_Some_2 (state_registers s) (Z.to_nat n)) as [d0 Hd0]; [lia|].
  rewrite Hd0. cbn [of_option]. rewrite bind_ret. eexists. split; [done|].
  split; [|split; cbn [state_registers]].
  - by destruct r as [[] ?].
  - by rewrite length_insert.
  - intros n' d' Hn' Hd'. unfold rule_of. cbn [row_regs with_rule].
    destruct (decide (n' = n)) as [->|Hne].
    + rewrite list_lookup_insert_eq in Hd' by lia. injection Hd' as <-. by rewrite lookup_insert_eq.
    + rewrite list_lookup_insert_ne in Hd' by lia. rewrite lookup_insert_ne by done. by apply Hr.
Qed.

(** ** Operands *)

Lemma is_uleb_bounds v : is_uleb v = true -> 0 <= v < 2 ^ 31.
Proof. unfold is_uleb. intros [?%Z.leb_le ?%Z.ltb_lt]%andb_true_iff. done. Qed.

Lemma is_reg_bounds r : is_reg r = true -> 0 <= r <= DWARF_MAX_REGISTER_NUM.
Proof. unfold is_reg. by intros [?%Z.leb_le ?%Z.leb_le]%andb_true_iff. Qed.

Lemma is_reg_small r : is_reg r = true -> 0 <= r < 32.
Proof. intros H%is_reg_bounds. pose proof max_register_bounds. lia. Qed.

Lemma is_code_bounds a code :
  is_code a code = true ->
  is_uleb (Z.of_nat (length code)) = true /\ 0 < a /\ a + Z.of_nat (length code) + 16 < 2 ^ 64.
Proof. unfold is_code. by intros [[? ?%Z.ltb_lt]%andb_true_iff ?%Z.ltb_lt]%andb_true_iff. Qed.

Lemma uleb_run v c rest w :
  is_uleb v = true -> holds (mem w) c (varint_bytes v ++ rest) ->
  FIRCLSParseULEB128AndAdvance c w = Done (v, c + Z.of_nat (length (varint_bytes v))) w /\
  holds (mem w) (c + Z.of_nat (length (varint_bytes v))) rest.
Proof.
  intros Hv%is_uleb_bounds [H1 H2]%holds_app. split; [|done].
  rewrite (FIRCLSParseULEB128_spec v) by (done || lia). by rewrite (proj2 (Z.ltb_lt _ _)) by lia.
Qed.

Lemma uleb_last v c w :
  is_uleb v = true -> holds (mem w) c (varint_bytes v) ->
  FIRCLSParseULEB128AndAdvance c w = Done (v, c + Z.of_nat (length (varint_bytes v))) w.
Proof. intros Hv H. apply (uleb_run v c [] w Hv). by rewrite app_nil_r. Qed.

Lemma reg_bytes r : is_reg r = true -> varint_bytes r = [r].
Proof.
  intros H%is_reg_small. unfold varint_bytes. cbn [varint_fuel].
  by rewrite (proj2 (Z.ltb_lt _ _)) by lia.
Qed.

(** A register operand, and the check of its number. *)
Lemma reg_run r c rest w :
  is_reg r = true -> holds (mem w) c (varint_bytes r ++ rest) ->
  FIRCLSParseULEB128AndAdvance c w = Done (r, c + 1) w /\
  (DWARF_MAX_REGISTER_NUM <? r) = false /\ holds (mem w) (c + 1) rest.
Proof.
  intros Hr H. pose proof (is_reg_bounds r Hr). pose proof (is_reg_small r Hr).
  assert (Hu : is_uleb r = true)
    by (unfold is_uleb; apply andb_true_iff; split; [apply Z.leb_le|apply Z.ltb_lt]; lia).
  destruct (uleb_run r c rest w Hu H) as [E Hrest].
  rewrite (reg_bytes r Hr) in *. split; [done|]. split; [|done].
  apply Z.ltb_ge. lia.
Qed.

(** An expression is skipped by its length. *)
Lemma code_skip a c code w :
  is_code a code = true -> a = c -> holds (mem w) c (delimited code) ->
  exists v c', FIRCLSParseULEB128AndAdvance c w = Done (v, c') w /\
    u64 (c' + v) = c + Z.of_nat (length (delimited code)).
Proof.
  intros (Hl & Ha & Hs)%is_code_bounds -> Hc. unfold delimited in Hc.
  destruct (uleb_run _ _ _ _ Hl Hc) as [E _]. do 2 eexists. split; [exact E|].
  unfold delimited. rewrite length_app.
  pose proof (varint_bytes_length (Z.of_nat (length code))). rewrite wrap_small by lia. lia.
Qed.

(** ** Instructions that carry an operand in their low bits *)

Lemma operand_masks d :
  0 <= d < 64 ->
  Z.land (0x40 + d) DW_CFA_OPERAND_MASK = d /\ Z.land (0x40 + d) DW_CFA_OPCODE_MASK = 0x40 /\
  Z.land (0x80 + d) DW_CFA_OPERAND_MASK = d /\ Z.land (0x80 + d) DW_CFA_OPCODE_MASK = 0x80.
Proof.
  intros H. unfold DW_CFA_OPERAND_MASK, DW_CFA_OPCODE_MASK.
  assert (Hm : forall k, Z.land (k * 64 + d) 63 = d).
  { intros k. rewrite (Z.land_ones _ 6), Z.add_comm, Z_mod_plus_full, Z.mod_small by lia. done. }
  assert (Ho : forall k, 0 <= k < 4 -> Z.land (k * 64 + d) 192 = k * 64).
  { intros k Hk. replace (k * 64 + d) with (Z.lor d (Z.shiftl k 6)) by (rewrite lor_shiftl_add; lia).
    rewrite Z.land_lor_distr_l.
    change 192 with (Z.shiftl 3 6). rewrite <- Z.shiftl_land.
    assert (Ek : Z.land k 3 = k) by (change 3 with (Z.ones 2); rewrite Z.land_ones, Z.mod_small; lia). rewrite Ek.
    replace (Z.land d (Z.shiftl 3 6)) with 0; [by rewrite Z.lor_0_l, Z.shiftl_mul_pow2 by lia|].
    symmetry. apply Z.bits_inj'; intros i Hi. rewrite Z.land_spec, Z.bits_0.
    destruct (Z_lt_dec i 6); [by rewrite Z.shiftl_spec_low, andb_false_r by lia|].
    by rewrite (testbit_small d 6) by lia. }
  split_and!; [apply (Hm 1)|apply (Ho 1); lia|apply (Hm 2)|apply (Ho 2); lia].
Qed.

Lemma operand_instruction cie b c s off :
  0x40 <= b ->
  execute_instruction cie b c s off =
  FIRCLSDwarfParseAndExecuteInstructionWithOperand cie c b s off.
Proof.
  intros Hb. unfold execute_instruction, DW_CFA_set_loc, DW_CFA_advance_loc1, DW_CFA_advance_loc2,
    DW_CFA_advance_loc4, DW_CFA_def_cfa, DW_CFA_def_cfa_register, DW_CFA_def_cfa_offset,
    DW_CFA_same_value, DW_CFA_register, DW_CFA_def_cfa_expression, DW_CFA_expression,
    DW_CFA_val_expression.
  rewrite !(proj2 (Z.eqb_neq _ _)) by lia. rewrite bool_decide_eq_false_2; [done|].
  unfold DW_CFA_unimplemented. rewrite !elem_of_cons, elem_of_nil. lia.
Qed.

Lemma advance_loc_instruction cie d c s off :
  0 <= d < 64 ->
  execute_instruction cie (DW_CFA_advance_loc + d) c s off =
  FIRCLSDwarfParseAndExecute_advance_loc cie c s d off.
Proof.
  intros Hd. rewrite operand_instruction by (unfold DW_CFA_advance_loc; lia).
  unfold FIRCLSDwarfParseAndExecuteInstructionWithOperand, DW_CFA_advance_loc.
  destruct (operand_masks d Hd) as (-> & -> & _). done.
Qed.

Lemma offset_instruction cie d c s off :
  0 <= d < 64 ->
  execute_instruction cie (DW_CFA_offset + d) c s off =
  FIRCLSDwarfParseAndExecute_offset cie c s d off.
Proof.
  intros Hd. rewrite operand_instruction by (unfold DW_CFA_offset; lia).
  unfold FIRCLSDwarfParseAndExecuteInstructionWithOperand, DW_CFA_offset.
  destruct (operand_masks d Hd) as (_ & _ & -> & ->). done.
Qed.

(** ** Refinement *)

(** Select the branch of the switch for a constant instruction. *)
Ltac select_instruction :=
  unfold execute_instruction;
  repeat match goal with
  | |- context [if ?a =? ?b then _ else _] =>
      let c := eval compute in (a =? b) in
      match c with true => idtac | false => idtac end;
      change (a =? b) with c; cbv iota
  end.

(** Split the range check of an instruction whose meaning is defined. *)
Ltac split_range H :=
  repeat match type of H with
  | match ?c with _ => _ end = Some _ =>
      let E := fresh "Er" in
      destruct c eqn:E; try discriminate H; repeat match type of E with
      | (_ && _) = true => apply andb_true_iff in E as [E ?]
      end
  end.

Section Refinement.
Context (cie : DWARFCIERecord) (Hca : 0 <= cie_codeAlignFactor cie < 2 ^ 31).

Abbreviation ca := (cie_codeAlignFactor cie).
Abbreviation da := (cie_dataAlignFactor cie).

(** What an instruction does to the interpreter. *)
Definition cfi_done (i : cfi) (c loc' : Z) (r' : row)
    (w : world) (f : cfa_res) : Prop :=
  exists s', f w = Done (true, c + Z.of_nat (length (encode_cfi i)), s', loc') w /\
    represents r' s'.

Lemma cfi_done_intro i c r' w f c' s' loc' :
  f w = Done (true, c', s', loc') w -> c' = c + Z.of_nat (length (encode_cfi i)) ->
  represents r' s' -> cfi_done i c loc' r' w f.
Proof. intros E -> H. by exists s'. Qed.

Lemma load_operand n c delta w :
  0 <= delta < 2 ^ (8 * Z.of_nat n) -> holds (mem w) c (le_bytes n delta) ->
  load n c w = Done delta w.
Proof. intros H Hc. by apply load_holds. Qed.

Lemma advance_run n delta c s loc r w :
  In n [1; 2; 4]%nat -> 0 <= delta < 2 ^ (8 * Z.of_nat n) -> 0 <= loc ->
  loc + delta * ca < 2 ^ 63 -> holds (mem w) (c + 1) (le_bytes n delta) -> represents r s ->
  cfi_done (CfiAdvance n delta) c (loc + delta * ca) r w
    (execute_instruction cie (advance_opcode n) (c + 1) s loc).
Proof.
  intros Hn Hd Hloc Hlt Hc Hr.
  assert (E : advance_loc_n cie n (c + 1) s loc w =
              Done (true, c + 1 + Z.of_nat n, s, loc + delta * ca) w).
  { unfold advance_loc_n. rewrite (bind_done _ _ _ _ _ (load_operand _ _ _ _ Hd Hc)).
    assert (0 <= delta * ca < 2 ^ 63) by nia.
    rewrite (wrap_small 64), to_signed_small by lia. unfold int64_result.
    rewrite (proj2 (Z.leb_le _ _)), (proj2 (Z.ltb_lt _ _)) by lia. done. }
  assert (El : c + 1 + Z.of_nat n = c + Z.of_nat (length (encode_cfi (CfiAdvance n delta))))
    by (cbn [encode_cfi length]; rewrite length_le_bytes; lia).
  repeat (destruct Hn as [<-|Hn]; [select_instruction; by eapply cfi_done_intro|]). done.
Qed.

Lemma expression_rule_run op l rn code c s loc r w x :
  is_reg rn = true -> is_code (c + 2) code = true ->
  holds (mem w) (c + 1) (varint_bytes rn ++ delimited code) -> represents r s ->
  represents_rule x (DwarfRegister l (c + 2)) ->
  length (encode_cfi op) = (2 + length (delimited code))%nat ->
  cfi_done op c loc (with_rule r rn x) w (expression_rule l (c + 1) s loc).
Proof.
  intros Hrn Hcode Hc Hr Hx Hlen. unfold cfi_done, expression_rule.
  destruct (reg_run rn _ _ _ Hrn Hc) as (E1 & E2 & Hc2).
  rewrite (bind_done _ _ _ _ _ E1), E2.
  replace (c + 1 + 1) with (c + 2) in * by lia.
  destruct (set_register_run r s rn x _ w Hr (is_reg_bounds _ Hrn) Hx) as (s' & E3 & Hs').
  rewrite (bind_done _ _ _ _ _ E3).
  destruct (code_skip _ _ _ _ Hcode eq_refl Hc2) as (v & c' & E4 & Ev).
  rewrite (bind_done _ _ _ _ _ E4), Ev.
  eapply cfi_done_intro; [done|lia|done].
Qed.

(** The instructions that change the rule of the CFA. *)
Lemma def_cfa_run rn offset c s loc r w :
  is_reg rn = true -> is_uleb offset = true -> cfaExpression s = 0 ->
  holds (mem w) (c + 1) (varint_bytes rn ++ varint_bytes offset) -> represents r s ->
  cfi_done (CfiDefCfa rn offset) c loc (with_cfa r (CfaRegister rn offset)) w
    (FIRCLSDwarfParseAndExecute_def_cfa (c + 1) s loc).
Proof.
  intros Hrn Hu He Hc Hr. unfold cfi_done, FIRCLSDwarfParseAndExecute_def_cfa.
  destruct (reg_run rn _ _ _ Hrn Hc) as (E1 & E2 & Hc2). rewrite (bind_done _ _ _ _ _ E1), E2.
  rewrite (bind_done _ _ _ _ _ (uleb_last _ _ _ Hu Hc2)).
  pose proof (is_uleb_bounds _ Hu).
  eapply cfi_done_intro; [done|cbn [encode_cfi length]; rewrite (reg_bytes _ Hrn), length_app; cbn [length]; lia|].
  apply (represents_with_cfa r s); [done| |done]. cbn. rewrite to_signed_small by lia. done.
Qed.

Lemma def_cfa_register_run rn c s loc r w :
  is_reg rn = true -> cfaExpression s = 0 ->
  holds (mem w) (c + 1) (varint_bytes rn) -> represents r s ->
  cfi_done (CfiDefCfaRegister rn) c loc (with_cfa r (CfaRegister rn (cfaRegisterOffset s))) w
    (FIRCLSDwarfParseAndExecute_def_cfa_register (c + 1) s loc).
Proof.
  intros Hrn He Hc Hr. unfold cfi_done, FIRCLSDwarfParseAndExecute_def_cfa_register.
  rewrite <- (app_nil_r (varint_bytes rn)) in Hc.
  destruct (reg_run rn _ _ _ Hrn Hc) as (E1 & E2 & _). rewrite (bind_done _ _ _ _ _ E1), E2.
  eapply cfi_done_intro; [done|cbn [encode_cfi length]; rewrite (reg_bytes _ Hrn); cbn [length]; lia|].
  apply (represents_with_cfa r s); done.
Qed.

Lemma def_cfa_offset_run offset c s loc r w :
  is_uleb offset = true -> cfaExpression s = 0 ->
  holds (mem w) (c + 1) (varint_bytes offset) -> represents r s ->
  cfi_done (CfiDefCfaOffset offset) c loc (with_cfa r (CfaRegister (cfaRegister s) offset)) w
    (FIRCLSDwarfParseAndExecute_def_cfa_offset (c + 1) s loc).
Proof.
  intros Hu He Hc Hr. unfold cfi_done, FIRCLSDwarfParseAndExecute_def_cfa_offset.
  pose proof (is_uleb_bounds _ Hu). rewrite (bind_done _ _ _ _ _ (uleb_last _ _ _ Hu Hc)).
  eapply cfi_done_intro; [done|cbn [encode_cfi length]; lia|].
  apply (represents_with_cfa r s); [done| |done]. cbn. rewrite to_signed_small by lia. done.
Qed.

Lemma def_cfa_expression_run code c s loc r w :
  is_code (c + 1) code = true -> holds (mem w) (c + 1) (delimited code) -> represents r s ->
  cfi_done (CfiDefCfaExpression code) c loc (with_cfa r (CfaExpression (c + 1))) w
    (FIRCLSDwarfParseAndExecute_def_cfa_expression (c + 1) s loc).
Proof.
  intros Hcode Hc Hr. unfold cfi_done, FIRCLSDwarfParseAndExecute_def_cfa_expression.
  destruct (code_skip _ _ _ _ Hcode eq_refl Hc) as (v & c' & E & Ev).
  rewrite (bind_done _ _ _ _ _ E), Ev. apply is_code_bounds in Hcode as (_ & Ha & _).
  eapply cfi_done_intro; [done|cbn [encode_cfi length]; lia|].
  apply (represents_with_cfa r s); [done|split; cbn; [done|lia]|done].
Qed.

(** The instructions that change the rule of a register. *)
Lemma same_value_run rn c s loc r w :
  is_reg rn = true -> holds (mem w) (c + 1) (varint_bytes rn) -> represents r s ->
  cfi_done (CfiSameValue rn) c loc (with_rule r rn SameValue) w
    (FIRCLSDwarfParseAndExecute_same_value (c + 1) s loc).
Proof.
  intros Hrn Hc Hr. unfold cfi_done, FIRCLSDwarfParseAndExecute_same_value.
  rewrite <- (app_nil_r (varint_bytes rn)) in Hc. pose proof (is_reg_bounds _ Hrn) as Hb.
  destruct (reg_run rn _ _ _ Hrn Hc) as (E1 & E2 & _). rewrite (bind_done _ _ _ _ _ E1), E2.
  unfold set_register_location.
  destruct (lookup_lt_is_Some_2 (state_registers s) (Z.to_nat rn)) as [d Hd];
    [destruct Hr as (_ & Hl & _); lia|].
  rewrite Hd. cbn [of_option]. rewrite bind_assoc, bind_ret.
  destruct (set_register_run r s rn SameValue (DwarfRegister FIRCLSDwarfRegisterUnused (value d))
              w Hr Hb eq_refl) as (s' & E3 & Hs').
  rewrite (bind_done _ _ _ _ _ E3).
  eapply cfi_done_intro; [done|cbn [encode_cfi length]; rewrite (reg_bytes _ Hrn); cbn [length]; lia|done].
Qed.

Lemma register_run rn rn' c s loc r w :
  is_reg rn = true -> is_reg rn' = true ->
  holds (mem w) (c + 1) (varint_bytes rn ++ varint_bytes rn') -> represents r s ->
  cfi_done (CfiRegister rn rn') c loc (with_rule r rn (InRegister rn')) w
    (FIRCLSDwarfParseAndExecute_register (c + 1) s loc).
Proof.
  intros Hrn Hrn' Hc Hr. unfold cfi_done, FIRCLSDwarfParseAndExecute_register.
  destruct (reg_run rn _ _ _ Hrn Hc) as (E1 & E2 & Hc2). rewrite (bind_done _ _ _ _ _ E1), E2.
  rewrite <- (app_nil_r (varint_bytes rn')) in Hc2.
  destruct (reg_run rn' _ _ _ Hrn' Hc2) as (E3 & E4 & _). rewrite (bind_done _ _ _ _ _ E3), E4.
  destruct (set_register_run r s rn (InRegister rn') _ w Hr (is_reg_bounds _ Hrn) eq_refl)
    as (s' & E5 & Hs').
  rewrite (bind_done _ _ _ _ _ E5).
  eapply cfi_done_intro; [done| |done].
  cbn [encode_cfi length]. rewrite (reg_bytes _ Hrn), (reg_bytes _ Hrn'). cbn. lia.
Qed.

Lemma offset_run rn n c s loc r w :
  is_reg rn = true -> is_uleb n = true -> holds (mem w) (c + 1) (varint_bytes n) ->
  represents r s ->
  cfi_done (CfiOffset rn n) c loc (with_rule r rn (AtCfaOffset (n * da))) w
    (FIRCLSDwarfParseAndExecute_offset cie (c + 1) s rn loc).
Proof.
  intros Hrn Hu Hc Hr. unfold cfi_done, FIRCLSDwarfParseAndExecute_offset.
  pose proof (is_reg_bounds _ Hrn) as Hb.
  rewrite (proj2 (Z.ltb_ge _ _)) by lia.
  rewrite (bind_done _ _ _ _ _ (uleb_last _ _ _ Hu Hc)), to_signed_wrap, wrap_to_signed by lia.
  destruct (set_register_run r s rn (AtCfaOffset (n * da)) _ w Hr Hb eq_refl) as (s' & E & Hs').
  rewrite (bind_done _ _ _ _ _ E).
  eapply cfi_done_intro; [done|cbn [encode_cfi length]; lia|done].
Qed.

Lemma run_cfi_location a i loc r loc' r' :
  run_cfi ca da a i loc r = Some (loc', r') -> 0 <= loc -> 0 <= loc'.
Proof.
  intros H Hloc. destruct i; cbn in H; split_range H; injection H as <- <-; try done.
  - apply Z.leb_le in Er. nia.
  - match goal with H : (0 <=? _) = true |- _ => apply Z.leb_le in H end. nia.
Qed.

(** One instruction. *)
Lemma execute_instruction_run i c loc r loc' r' s w :
  run_cfi ca da c i loc r = Some (loc', r') -> i <> CfiNop -> 0 <= loc ->
  holds (mem w) c (encode_cfi i) -> represents r s ->
  cfi_done i c loc' r' w
    (execute_instruction cie (hd 0 (encode_cfi i)) (c + 1) s loc).
Proof.
  intros Hrun Hnop Hloc Hc Hr. pose proof Hr as (Hcfa & _).
  assert (Hc1 : holds (mem w) (c + 1) (tl (encode_cfi i)))
    by (destruct i; cbn [encode_cfi tl] in *; by eapply holds_tail).
  destruct i; cbn [run_cfi encode_cfi hd tl] in *; [done|..]; split_range Hrun; injection Hrun as <- <-.
  - apply Z.leb_le in Er. apply Z.eqb_eq in H as ->. apply Z.ltb_lt in H0.
    rewrite advance_loc_instruction by lia. eapply (cfi_done_intro _ _ _ _ _ (c + 1)); [|cbn; lia|done].
    unfold FIRCLSDwarfParseAndExecute_advance_loc. rewrite to_signed_small by lia.
    unfold int64_result. rewrite (proj2 (Z.leb_le _ _)), (proj2 (Z.ltb_lt _ _)) by nia. done.
  - apply bool_decide_eq_true in Er. apply list_elem_of_In in Er.
    apply advance_run; [done|blia..|done|done].
  - destruct Hcfa as (? & _). select_instruction. by apply def_cfa_run.
  - destruct Hcfa as (? & _ & <-). select_instruction.
    by apply def_cfa_register_run.
  - destruct Hcfa as (? & <- & _). select_instruction.
    by apply def_cfa_offset_run.
  - select_instruction. by apply def_cfa_expression_run.
  - select_instruction. by apply same_value_run.
  - select_instruction. by apply register_run.
  - pose proof (is_reg_small _ Er). rewrite offset_instruction by lia. by apply offset_run.
  - select_instruction. apply (expression_rule_run _ _ _ code); try done.
    cbn [encode_cfi length]. by rewrite length_app, (reg_bytes _ Er).
  - select_instruction. apply (expression_rule_run _ _ _ code); try done.
    cbn [encode_cfi length]. by rewrite length_app, (reg_bytes _ Er).
Qed.

Lemma encode_cfi_cons i : encode_cfi i = hd 0 (encode_cfi i) :: tl (encode_cfi i).
Proof. by destruct i. Qed.

Lemma instruction_not_nop i loc r loc' r' c :
  run_cfi ca da c i loc r = Some (loc', r') ->
  (hd 0 (encode_cfi i) =? DW_CFA_nop) = bool_decide (i = CfiNop).
Proof.
  intros H. destruct (decide (i = CfiNop)) as [->|Hne]; [done|].
  rewrite bool_decide_eq_false_2 by done. apply Z.eqb_neq.
  destruct i; cbn [run_cfi encode_cfi hd] in *; try done.
  - split_range H. apply Z.leb_le in Er. unfold DW_CFA_advance_loc, DW_CFA_nop. lia.
  - destruct n as [|[|[|n]]]; done.
  - split_range H. apply is_reg_small in Er. unfold DW_CFA_offset, DW_CFA_nop. lia.
Qed.

(** The instructions up to the row of the program counter. *)
Lemma enumerate_loop_run prog fuel c loc pc r r' s w :
  run_cfis ca da c prog loc pc r = Some r' -> 0 <= loc ->
  holds (mem w) c (encode_cfis prog) -> represents r s ->
  (length (encode_cfis prog) < fuel)%nat ->
  exists s', enumerate_loop cie fuel c (c + Z.of_nat (length (encode_cfis prog))) s loc pc w =
      Done (true, s') w /\ represents r' s'.
Proof.
  revert fuel c loc r s. induction prog as [|i prog IH]; intros fuel c loc r s Hrun Hloc Hc Hr Hf;
    (destruct fuel as [|fuel]; [lia|]); cbn [run_cfis enumerate_loop] in *.
  - change (Z.of_nat (length (encode_cfis []))) with 0.
    rewrite Z.add_0_r, Z.ltb_irrefl. cbn [andb negb]. destruct (Z.leb_spec pc loc); injection Hrun as <-; eauto.
  - destruct (Z.leb_spec pc loc) as [|Hlt].
    { injection Hrun as <-. rewrite (proj2 (Z.ltb_ge loc pc)), andb_false_r by lia. cbn [negb]. eauto. }
    destruct (run_cfi ca da c i loc r) as [[loc1 r1]|] eqn:E1; [|done].
    change (encode_cfis (i :: prog)) with (encode_cfi i ++ encode_cfis prog) in *.
    apply holds_app in Hc as [Hc1 Hc2]. rewrite length_app in *.
    pose proof (run_cfi_location _ _ _ _ _ _ E1 Hloc) as Hloc1.
    pose proof Hc1 as Hc0. rewrite encode_cfi_cons in Hc0.
    assert (0 < length (encode_cfi i))%nat by (rewrite encode_cfi_cons; cbn; lia).
    rewrite (proj2 (Z.ltb_lt c _)), (proj2 (Z.ltb_lt loc pc)) by lia. cbn [andb negb].
    rewrite (bind_done _ _ _ _ _ (parse_uint8 _ _ _ _ Hc0)), (instruction_not_nop _ _ _ _ _ _ E1).
    replace (c + Z.of_nat (length (encode_cfi i) + length (encode_cfis prog)))
      with (c + Z.of_nat (length (encode_cfi i)) + Z.of_nat (length (encode_cfis prog))) by lia.
    case_bool_decide as Hnop.
    + subst i. cbn in E1. injection E1 as <- <-. apply (IH fuel _ loc r s); try done. lia.
    + destruct (execute_instruction_run _ _ _ _ _ _ s w E1 Hnop Hloc Hc1 Hr) as (s1 & E2 & Hr1).
      rewrite (bind_done _ _ _ _ _ E2). cbn [negb]. apply (IH fuel _ loc1 r1 s1); try done. lia.
Qed.

(** [FIRCLSDwarfInstructionsEnumerate] computes the row. *)
Lemma enumerate_run prog c pc r r' s w :
  let len := Z.of_nat (length (encode_cfis prog)) in
  run_cfis ca da c prog 0 pc r = Some r' -> 0 <= c -> c + len < 2 ^ 64 ->
  holds (mem w) c (encode_cfis prog) -> represents r s ->
  exists s', FIRCLSDwarfInstructionsEnumerate (Some (Instructions len c)) (Some cie) (Some s) pc w =
      Done (true, Some s') w /\ represents r' s'.
Proof.
  intros len Hrun Hc0 Hsz Hc Hr. unfold FIRCLSDwarfInstructionsEnumerate, len.
  cbn [instr_data instr_length]. rewrite wrap_small by lia.
  destruct (enumerate_loop_run prog (S (Z.to_nat (Z.of_nat (length (encode_cfis prog))))) c 0 pc r r' s w
              Hrun ltac:(done) Hc Hr ltac:(lia)) as (s' & E & Hs').
  exists s'. by rewrite (bind_done _ _ _ _ _ E).
Qed.

End Refinement.

End Cfi.
