(* ===== verification/DwarfUnwindSpec.v ===== *)
(** What a step of unwinding with DWARF data computes: the registers of the caller
    from the row of the unwind table, and that row and the records it comes from
    from the bytes of the records in memory. *)
From S2P Require Import Prelude Memory PbWire DwarfData ThreadState DwarfDataSpec DwarfExpression.
From S2P Require Import DwarfExpressionSpec DwarfUnwind DwarfCfiSpec.

(** ** Values of rules *)

(** The expression [ops], with its length, is at [a]. *)
Definition expression_at (m : gmap Z Z) (a : Z) (ops : list dwarf_op) : Prop :=
  4096 <= a /\ a + Z.of_nat (length (delimited (encode_ops ops))) < 2 ^ 64 /\
  0 < Z.of_nat (length (encode_ops ops)) < 2 ^ 31 /\ holds m a (delimited (encode_ops ops)).

Section Step.
Context {TS : ThreadState} {TL : ThreadStateLaws}.

(** A word of readable memory. *)
Definition word_at (m : gmap Z Z) (a v : Z) : Prop :=
  FIRCLSIsValidPointer a = true /\ read_le m 8 a = Some v.

Inductive cfa_value (regs : option thread_context) (m : gmap Z Z) : cfa_rule -> Z -> Prop :=
  | cfa_of_register r offset v :
      reg_value regs r = Some v -> cfa_value regs m (CfaRegister r offset) (u64 (v + offset))
  | cfa_of_expression a ops v st :
      expression_at m a ops -> run_ops regs m ops [0] = Some (v :: st) ->
      cfa_value regs m (CfaExpression a) (u64 v).

Inductive saved_value (regs : option thread_context) (m : gmap Z Z) (cfa : Z) :
    reg_rule -> Z -> Prop :=
  | saved_at_cfa offset v :
      word_at m (u64 (cfa + offset)) v -> saved_value regs m cfa (AtCfaOffset offset) v
  | saved_in_register r v : reg_value regs r = Some v -> saved_value regs m cfa (InRegister r) v
  | saved_at_expression a ops v st u :
      expression_at m a ops -> run_ops regs m ops [s64 cfa] = Some (v :: st) ->
      word_at m (u64 v) u -> saved_value regs m cfa (AtExpression a) u
  | saved_is_expression a ops v st :
      expression_at m a ops -> run_ops regs m ops [s64 cfa] = Some (v :: st) ->
      saved_value regs m cfa (IsExpression a) (u64 v).

#[global] Instance reg_rule_eq_dec : EqDecision reg_rule.
Proof. solve_decision. Defined.

Context {RF : RegisterFile}.

(** The registers by the first [k] rules, the program counter following the
    return address. *)
Definition restored (k : Z) (regs : thread_context) (m : gmap Z Z) (cfa : Z) (r : row)
    (new : thread_context) : Prop :=
  wf_context new /\
  (forall n, 0 <= n <= DWARF_MAX_REGISTER_NUM ->
     if (n <? k) && bool_decide (rule_of r n <> SameValue)
     then exists v, saved_value (Some regs) m cfa (rule_of r n) v /\ reg_field new n = Some v
     else reg_field new n = reg_field regs n) /\
  (if (DWARF_REG_RETURN <? k) && bool_decide (rule_of r DWARF_REG_RETURN <> SameValue)
   then reg_field new DWARF_REG_RETURN = Some (pc_field new) else pc_field new = pc_field regs).

Section Refinement.
Context {VM : VmRead} {VMS : VmReadSpec}.

Lemma word_run a v w :
  word_at (mem w) a v ->
  exists bs, FIRCLSReadMemory a 8 w = Done (Some bs) w /\ le_val bs = v.
Proof.
  intros [Ha (bs & Hr & ->)%fmap_Some]. exists bs. split; [by apply read_memory_run|done].
Qed.

Lemma expression_run a ops regs init v st w :
  expression_at (mem w) a ops -> run_ops regs (mem w) ops [init] = Some (v :: st) ->
  FIRCLSDwarfEvalulateExpression a regs init w = Done (Some v) w.
Proof. intros (H1 & H2 & H3 & H4) Hrun. by eapply evaluate_expression_run. Qed.

(** The CFA. *)
Lemma get_cfa_run r s regs cfa w :
  represents_cfa (row_cfa r) s -> cfa_value (Some regs) (mem w) (row_cfa r) cfa ->
  FIRCLSDwarfGetCFA (Some s) (Some regs) w = Done (Some cfa) w.
Proof.
  intros Hs Hv. unfold FIRCLSDwarfGetCFA. destruct Hv as [rn offset v Hv|a ops v st Ha Hrun].
  - destruct Hs as (-> & -> & ->). cbn [negb Z.eqb].
    by rewrite (bind_done _ _ _ _ _ (reg_value_run _ _ _ w Hv)).
  - destruct Hs as (-> & Hne). rewrite (proj2 (Z.eqb_neq _ _)) by done. cbn [negb].
    by rewrite (bind_done _ _ _ _ _ (expression_run _ _ _ _ _ _ _ Ha Hrun)).
Qed.

(** The value of one register. *)
Lemma get_saved_run regs cfa x d v w :
  represents_rule x d -> saved_value regs (mem w) cfa x v ->
  FIRCLSDwarfGetSavedRegister regs cfa d w = Done v w.
Proof.
  intros Hd Hv. unfold FIRCLSDwarfGetSavedRegister.
  destruct Hv as [offset v Hw|r v Hv|a ops v st u Ha Hrun Hw|a ops v st Ha Hrun];
    cbn [represents_rule] in Hd; subst d; cbn [location value].
  - replace (u64 (cfa + u64 offset)) with (u64 (cfa + offset))
      by (unfold wrap; by rewrite Zplus_mod_idemp_r).
    destruct (word_run _ _ _ Hw) as (bs & E & <-). by rewrite (bind_done _ _ _ _ _ E).
  - by apply reg_value_run.
  - rewrite (bind_done _ _ _ _ _ (expression_run _ _ _ _ _ _ _ Ha Hrun)).
    destruct (word_run _ _ _ Hw) as (bs & E & <-). by rewrite (bind_done _ _ _ _ _ E).
  - by rewrite (bind_done _ _ _ _ _ (expression_run _ _ _ _ _ _ _ Ha Hrun)).
Qed.

Lemma represents_unused x d :
  represents_rule x d -> (location d = FIRCLSDwarfRegisterUnused <-> x = SameValue).
Proof. destruct x; cbn; intros H; try subst d; cbn; split; done. Qed.

(** A register outside the rules so far. *)
Lemma restored_field k regs m cfa r new n :
  restored k regs m cfa r new -> 0 <= k -> k <= n <= DWARF_MAX_REGISTER_NUM -> reg_field new n = reg_field regs n.
Proof.
  intros (_ & H & _) Hk Hn. specialize (H n ltac:(lia)). by rewrite (proj2 (Z.ltb_ge n k)) in H by lia.
Qed.

(** One more rule. *)
Lemma restored_step k regs m cfa r new new' :
  0 <= k <= DWARF_MAX_REGISTER_NUM -> restored k regs m cfa r new -> wf_context new' ->
  (forall n, 0 <= n <= DWARF_MAX_REGISTER_NUM -> n <> k -> reg_field new' n = reg_field new n) ->
  (if bool_decide (rule_of r k <> SameValue)
   then exists v, saved_value (Some regs) m cfa (rule_of r k) v /\ reg_field new' k = Some v /\
          pc_field new' = (if k =? DWARF_REG_RETURN then v else pc_field new)
   else new' = new) ->
  restored (k + 1) regs m cfa r new'.
Proof.
  intros Hk Hr Hl Hf Hnew. pose proof Hr as (Hl0 & Hr0 & Hpc). split; [done|]. split.
  - intros n Hn. destruct (decide (n = k)) as [->|Hne].
    + rewrite (proj2 (Z.ltb_lt _ _)) by lia. cbn [andb]. destruct (bool_decide (rule_of r k <> SameValue)).
      * destruct Hnew as (v & ? & ? & _). eauto.
      * subst new'. eapply restored_field; [done|lia|lia].
    + rewrite (Hf n Hn Hne). specialize (Hr0 n Hn).
      replace (n <? k + 1) with (n <? k); [done|].
      destruct (Z.ltb_spec n k), (Z.ltb_spec n (k + 1)); try done; lia.
  - pose proof return_number. destruct (Z.eqb_spec k DWARF_REG_RETURN) as [->|Hne].
    + rewrite (proj2 (Z.ltb_lt _ _)) by lia. cbn [andb].
      rewrite (proj2 (Z.ltb_ge _ _)) in Hpc by lia. cbn [andb] in Hpc.
      destruct (bool_decide (rule_of r DWARF_REG_RETURN <> SameValue)); [|by subst new'].
      by destruct Hnew as (v & _ & -> & ->).
    + replace (DWARF_REG_RETURN <? k + 1) with (DWARF_REG_RETURN <? k)
        by (destruct (Z.ltb_spec DWARF_REG_RETURN k), (Z.ltb_spec DWARF_REG_RETURN (k + 1)); try done; lia).
      rewrite (Hf DWARF_REG_RETURN) by done.
      destruct (bool_decide (rule_of r k <> SameValue)); [|by subst new'].
      by destruct Hnew as (v & _ & _ & ->).
Qed.

(** Every rule of the row has a value. *)
Definition rules_defined (regs : thread_context) (m : gmap Z Z) (cfa : Z) (r : row) : Prop :=
  forall n, 0 <= n <= DWARF_MAX_REGISTER_NUM -> rule_of r n <> SameValue ->
    exists v, saved_value (Some regs) m cfa (rule_of r n) v.

Lemma assign_registers_loop_run n k regs cfa r s new w :
  represents r s -> rules_defined regs (mem w) cfa r ->
  k + Z.of_nat n = DWARF_MAX_REGISTER_NUM + 1 -> 0 <= k -> restored k regs (mem w) cfa r new ->
  exists new', assign_registers_loop n k s (Some regs) cfa (Some new) w = Done (true, Some new') w /\
    restored (DWARF_MAX_REGISTER_NUM + 1) regs (mem w) cfa r new'.
Proof.
  intros (Hc & Hl & Hs) Hdef. revert k new. induction n as [|n IH]; intros k new Hk Hk0 Hr;
    cbn [assign_registers_loop].
  { replace k with (DWARF_MAX_REGISTER_NUM + 1) in Hr by lia. eauto. }
  destruct (lookup_lt_is_Some_2 (state_registers s) (Z.to_nat k)) as [d Hd]; [lia|].
  rewrite Hd. cbn [of_option]. rewrite bind_ret. specialize (Hs k d ltac:(lia) Hd).
  pose proof (represents_unused _ _ Hs) as Hu.
  pose proof (proj1 Hr) as Hxn.
  destruct (decide (location d = FIRCLSDwarfRegisterUnused)) as [E|E].
  - apply IH; [lia|lia|]. apply (restored_step k regs _ _ _ new new); [lia|done|done|done|].
    by rewrite bool_decide_eq_false_2 by (rewrite <- Hu; tauto).
  - assert (Hne : rule_of r k <> SameValue) by tauto.
    destruct (Hdef k ltac:(lia) Hne) as [v Hv].
    rewrite (bind_done _ _ _ _ _ (get_saved_run _ _ _ _ _ _ Hs Hv)).
    destruct (set_register_value_run new k v w ltac:(lia) Hxn) as (new1 & E1 & Hl1 & Hv1 & Hf1 & Hp1).
    rewrite (bind_done _ _ _ _ _ E1). cbn [negb]. apply IH; [lia|lia|].
    apply (restored_step k regs _ _ _ new new1); [lia|done..|].
    rewrite bool_decide_eq_true_2 by done. eauto.
Qed.

(** The registers of the caller. *)
Definition caller (regs : thread_context) (m : gmap Z Z) (cfa : Z) (r : row)
    (new : thread_context) : Prop :=
  wf_context new /\ reg_field new DWARF_REG_SP = Some cfa /\
  (forall n, 0 <= n <= DWARF_MAX_REGISTER_NUM -> n <> DWARF_REG_SP ->
     if decide (rule_of r n = SameValue) then reg_field new n = reg_field regs n
     else exists v, saved_value (Some regs) m cfa (rule_of r n) v /\ reg_field new n = Some v) /\
  if decide (rule_of r DWARF_REG_RETURN = SameValue) then pc_field new = pc_field regs
  else reg_field new DWARF_REG_RETURN = Some (pc_field new).

Lemma restored_caller regs m cfa r new new' :
  restored (DWARF_MAX_REGISTER_NUM + 1) regs m cfa r new -> wf_context new' ->
  reg_field new' DWARF_REG_SP = Some cfa ->
  (forall n, 0 <= n <= DWARF_MAX_REGISTER_NUM -> n <> DWARF_REG_SP -> reg_field new' n = reg_field new n) ->
  pc_field new' = pc_field new -> caller regs m cfa r new'.
Proof.
  intros (Hl & Hf & Hp) Hx' Hsp Hf' Hp'. unfold caller. split_and!; [done|done| |].
  - intros n Hn Hne. specialize (Hf n Hn). rewrite (proj2 (Z.ltb_lt n _)) in Hf by lia. cbn [andb] in Hf.
    rewrite Hf' by done. destruct (decide (rule_of r n = SameValue)).
    + by rewrite bool_decide_eq_false_2 in Hf by tauto.
    + by rewrite bool_decide_eq_true_2 in Hf by done.
  - pose proof return_number. pose proof sp_not_return. rewrite Hp', (Hf' DWARF_REG_RETURN) by done.
    rewrite (proj2 (Z.ltb_lt DWARF_REG_RETURN _)) in Hp by lia. cbn [andb] in Hp.
    destruct (decide (rule_of r DWARF_REG_RETURN = SameValue)).
    + by rewrite bool_decide_eq_false_2 in Hp by tauto.
    + by rewrite bool_decide_eq_true_2 in Hp by done.
Qed.

Lemma restored_start regs m cfa r : wf_context regs -> restored 0 regs m cfa r regs.
Proof.
  intros Hx. pose proof return_number. split; [done|]. split.
  - intros n Hn. by rewrite (proj2 (Z.ltb_ge n 0)) by lia.
  - by rewrite (proj2 (Z.ltb_ge _ 0)) by lia.
Qed.

(** Whether a step has moved: its stack pointer and its return address. *)
Definition same_register (a b : thread_context) (n : Z) : bool :=
  bool_decide (reg_value (Some a) n = reg_value (Some b) n).

Definition moved (regs new : thread_context) : bool :=
  negb (same_register regs new DWARF_REG_SP) && negb (same_register regs new DWARF_REG_RETURN).

Lemma compare_ends a b n w :
  ends (FIRCLSDwarfCompareRegisters (Some a) (Some b) n) w (fun x w' => x = same_register a b n /\ w' = w).
Proof.
  unfold ends, FIRCLSDwarfCompareRegisters, same_register, mbind, M_bind. rewrite get_register_run.
  destruct (reg_value (Some a) n) as [u|]; [|done]. cbn. rewrite get_register_run.
  destruct (reg_value (Some b) n) as [v|]; [|done]. cbn. split; [|done].
  destruct (Z.eqb_spec u v) as [->|Hne]; [by rewrite bool_decide_eq_true_2|].
  by rewrite bool_decide_eq_false_2 by congruence.
Qed.

Lemma compare_run a b n w :
  0 <= n <= DWARF_MAX_REGISTER_NUM -> wf_context a -> wf_context b ->
  FIRCLSDwarfCompareRegisters (Some a) (Some b) n w = Done (same_register a b n) w.
Proof.
  intros Hn Ha Hb. pose proof (compare_ends a b n w) as H.
  destruct (get_register_defined a n Hn Ha) as [u Eu], (get_register_defined b n Hn Hb) as [v Ev].
  unfold ends, FIRCLSDwarfCompareRegisters, mbind, M_bind in *.
  rewrite get_register_run, Eu in *. cbn in *. rewrite get_register_run, Ev in *. cbn in *.
  by destruct H as [-> _].
Qed.

Lemma assign_registers_run r s regs cfa w :
  represents r s -> wf_context regs -> rules_defined regs (mem w) cfa r ->
  exists new, caller regs (mem w) cfa r new /\
    FIRCLSDwarfUnwindAssignRegisters (Some s) (Some regs) cfa w =
    Done (if moved regs new then Some new else None) w.
Proof.
  intros Hr Hx Hdef. pose proof max_register_bounds. pose proof sp_number. pose proof return_number.
  unfold FIRCLSDwarfUnwindAssignRegisters.
  destruct (assign_registers_loop_run (Z.to_nat (DWARF_MAX_REGISTER_NUM + 1)) 0 regs cfa r s regs w
              Hr Hdef ltac:(lia) ltac:(done) (restored_start _ _ _ _ Hx)) as (mid & E1 & Hmid).
  rewrite (bind_done _ _ _ _ _ E1). cbn [negb].
  destruct (set_register_value_run mid DWARF_REG_SP cfa w ltac:(done) (proj1 Hmid)) as
    (new & E2 & Hl & Hsp & Hf & Hpc).
  rewrite (bind_done _ _ _ _ _ E2). cbn [negb].
  exists new. split.
  { apply (restored_caller _ _ _ _ mid); try done. rewrite Hpc. pose proof sp_not_return.
    by rewrite (proj2 (Z.eqb_neq _ _)). }
  unfold moved. rewrite (bind_done _ _ _ _ _ (compare_run regs new _ w sp_number Hx Hl)).
  destruct (same_register _ _ DWARF_REG_SP); [done|]. cbn [negb andb].
  rewrite (bind_done _ _ _ _ _ (compare_run regs new _ w return_number Hx Hl)).
  by destruct (same_register _ _ _).
Qed.

(** One step with the instructions of a CIE and of an FDE. *)
Lemma compute_registers_run cie fde prog1 prog2 c1 c2 regs r1 r2 cfa w :
  let pc := s64 (ThreadContextGetPC (Some regs) - fde_startAddress fde) in
  let run := run_cfis (cie_codeAlignFactor cie) (cie_dataAlignFactor cie) in
  0 <= cie_codeAlignFactor cie < 2 ^ 31 ->
  cie_instructions cie = Instructions (Z.of_nat (length (encode_cfis prog1))) c1 ->
  fde_instructions fde = Instructions (Z.of_nat (length (encode_cfis prog2))) c2 ->
  holds (mem w) c1 (encode_cfis prog1) -> holds (mem w) c2 (encode_cfis prog2) ->
  0 <= c1 -> c1 + Z.of_nat (length (encode_cfis prog1)) < 2 ^ 64 ->
  0 <= c2 -> c2 + Z.of_nat (length (encode_cfis prog2)) < 2 ^ 64 ->
  run c1 prog1 0 INTPTR_MAX initial_row = Some r1 ->
  0 <= pc -> run c2 prog2 0 pc r1 = Some r2 ->
  wf_context regs ->
  cfa_value (Some regs) (mem w) (row_cfa r2) cfa -> rules_defined regs (mem w) cfa r2 ->
  exists new, caller regs (mem w) cfa r2 new /\
    FIRCLSDwarfUnwindComputeRegisters (Some (CFIRecord cie fde)) (Some regs) w =
    Done (if moved regs new then (true, Some new) else (false, Some regs)) w.
Proof.
  intros pc run Hca Ei1 Ei2 Hh1 Hh2 Hc1 Hs1 Hc2 Hs2 Hr1 Hpc Hr2 Hx Hcfa Hdef.
  unfold FIRCLSDwarfUnwindComputeRegisters. cbn [cfi_cie cfi_fde].
  destruct (enumerate_run cie Hca prog1 c1 INTPTR_MAX initial_row r1 zero_state w Hr1 Hc1 Hs1 Hh1
              represents_initial) as (s1 & E1 & Rs1).
  rewrite Ei1, (bind_done _ _ _ _ _ E1). cbn [negb].
  fold pc. rewrite (proj2 (Z.ltb_ge _ _)) by lia.
  destruct (enumerate_run cie Hca prog2 c2 pc r1 r2 s1 w Hr2 Hc2 Hs2 Hh2 Rs1) as (s2 & E2 & Rs2).
  rewrite Ei2, (bind_done _ _ _ _ _ E2). cbn [negb].
  rewrite (bind_done _ _ _ _ _ (get_cfa_run r2 s2 regs cfa w (proj1 Rs2) Hcfa)).
  destruct (assign_registers_run r2 s2 regs cfa w Rs2 Hx Hdef) as (new & Hnew & E3).
  exists new. split; [done|]. rewrite (bind_done _ _ _ _ _ E3). by destruct (moved regs new).
Qed.

End Refinement.

End Step.

(** ** Strings *)

(** Allocated bytes are counted by the size of the memory. *)
Lemma read_bytes_size m a n bs : read_bytes m a n = Some bs -> (n <= size m)%nat.
Proof.
  intros H. transitivity (size (list_to_set (seqZ a (Z.of_nat n)) : gset Z)).
  - rewrite size_list_to_set by apply NoDup_seqZ. rewrite length_seqZ. lia.
  - rewrite <- (size_dom (D := gset Z) m). apply subseteq_size. intros x Hx.
    apply elem_of_list_to_set, elem_of_seqZ in Hx. apply elem_of_dom.
    pose proof (read_bytes_lookup _ _ _ _ (Z.to_nat (x - a)) H ltac:(lia)) as E.
    replace (a + Z.of_nat (Z.to_nat (x - a))) with x in E by lia. rewrite E.
    apply lookup_lt_is_Some. rewrite (read_bytes_length _ _ _ _ H). lia.
Qed.

Lemma strlen_loop_run fuel p n s w :
  Forall (fun c => c <> 0) s -> holds (mem w) (p + n) (c_string s) -> (length s < fuel)%nat ->
  strlen_loop fuel p n w = Done (n + Z.of_nat (length s)) w.
Proof.
  revert n fuel. induction s as [|c s IH]; intros n fuel Hs Hh Hf; (destruct fuel as [|fuel]; [lia|]);
    cbn [strlen_loop].
  - rewrite (bind_done _ _ _ _ _ (load_byte _ _ _ _ Hh)). unfold mret, M_ret. cbn. f_equal. lia.
  - apply Forall_cons in Hs as [Hc Hs]. change (c_string (c :: s)) with (c :: c_string s) in Hh.
    rewrite (bind_done _ _ _ _ _ (load_byte _ _ _ _ Hh)), (proj2 (Z.eqb_neq _ _)) by done.
    rewrite IH; [cbn [length]; f_equal; lia|done| |cbn [length] in Hf; lia].
    rewrite Z.add_assoc. by apply holds_tail in Hh.
Qed.

Lemma strlen_run p s w :
  Forall (fun c => c <> 0) s -> holds (mem w) p (c_string s) ->
  strlen p w = Done (Z.of_nat (length s)) w.
Proof.
  intros Hs Hh. pose proof (read_bytes_size _ _ _ _ Hh) as Hl.
  unfold c_string in Hl. rewrite length_app in Hl. cbn in Hl.
  unfold strlen. rewrite (strlen_loop_run _ _ _ s); [done|done|by rewrite Z.add_0_r|lia].
Qed.

(** ** Augmentations *)

(** An entry of the augmentation string with its data: the encoding of the
    LSDA, the encoding of addresses, a personality function in a fixed-width
    format, a signal frame. *)
Inductive aug :=
  | AugL (e : Z)
  | AugR (e : Z)
  | AugP (format : Z) (pcrel : bool) (n : nat) (v : Z)
  | AugS.

Definition aug_char (x : aug) : Z :=
  match x with AugL _ => 76 | AugR _ => 82 | AugP _ _ _ _ => 80 | AugS => 83 end.

Definition pcrel_flag (pcrel : bool) : Z := if pcrel then DW_EH_PE_pcrel else 0.

Definition aug_data (x : aug) : list Z :=
  match x with
  | AugL e | AugR e => [e]
  | AugP format pcrel n v => (format + pcrel_flag pcrel) :: le_bytes n v
  | AugS => []
  end.

(** The address a fixed-width value at [c] encodes. *)
Definition encoded_address (format : Z) (pcrel : bool) (v c : Z) : option Z :=
  match fixed_format format with
  | Some (n, sg) =>
      let addr := s64 (fixed_value n sg v) + (if pcrel then c else 0) in
      if (0 <=? format) && (format <? 16) && (0 <? c) && (c <? 2 ^ 63) &&
         (0 <=? v) && (v <? 2 ^ (8 * Z.of_nat n)) &&
         (- 2 ^ 63 <=? addr) && (addr <? 2 ^ 63) && negb (u64 addr =? CLS_INVALID_ADDRESS)
      then Some (u64 addr) else None
  | None => None
  end.

(** The record after an entry whose data is at [c]. *)
Definition apply_aug (r : DWARFCIERecord) (x : aug) (c : Z) : option DWARFCIERecord :=
  match x with
  | AugL e => Some (cie_with_lsda r e)
  | AugR e => Some (cie_with_pointer r e)
  | AugP format pcrel n v =>
      if bool_decide (fst <$> fixed_format format = Some n) then
        f ← encoded_address format pcrel v (c + 1);
        Some (cie_with_personality r (format + pcrel_flag pcrel) f)
      else None
  | AugS => Some (cie_with_signal r)
  end.

Fixpoint apply_augs (r : DWARFCIERecord) (xs : list aug) (c : Z) : option DWARFCIERecord :=
  match xs with
  | [] => Some r
  | x :: xs =>
      r ← apply_aug r x c;
      apply_augs r xs (c + Z.of_nat (length (aug_data x)))
  end.

Definition augs_data (xs : list aug) : list Z := concat (aug_data <$> xs).

(** ** Encoded addresses *)

Lemma encoded_address_run format pcrel v c n a rest w :
  encoded_address format pcrel v c = Some a -> fst <$> fixed_format format = Some n ->
  holds (mem w) c (le_bytes n v ++ rest) ->
  FIRCLSParseAddressWithEncodingAndAdvance c (format + pcrel_flag pcrel) w =
    Done (a, c + Z.of_nat n) w /\ a <> CLS_INVALID_ADDRESS /\
  holds (mem w) (c + Z.of_nat n) rest.
Proof.
  unfold encoded_address. destruct (fixed_format format) as [[n' sg]|] eqn:Ef; [|done].
  intros H [= ->] [Hc Hrest]%holds_app. rewrite length_le_bytes in Hrest.
  destruct (_ && _) eqn:E in H; [|done]. injection H as <-.
  repeat match type of E with
  | (_ && _) = true => apply andb_true_iff in E as [E ?]
  end.
  split; [|split; [by apply Z.eqb_neq, negb_true_iff|done]].
  unfold holds in Hc. rewrite length_le_bytes in Hc.
  apply (parse_address_fixed format n sg v c w pcrel); [done|blia|blia| |blia|blia].
  apply read_le_bytes_val; [blia|done].
Qed.

(** ** The augmentation of a CIE *)

Lemma augmentation_entry_run r x c r' rest w :
  apply_aug r x c = Some r' -> holds (mem w) c (aug_data x ++ rest) ->
  augmentation_entry r c (aug_char x) w =
    Done (true, r', c + Z.of_nat (length (aug_data x))) w /\
  holds (mem w) (c + Z.of_nat (length (aug_data x))) rest.
Proof.
  intros H Hh. split; [|by apply holds_app in Hh as [_ ?]].
  unfold augmentation_entry. destruct x as [e|e|format pcrel n v|]; cbn [aug_char aug_data app Z.eqb Pos.eqb] in *.
  - injection H as <-. by rewrite (bind_done _ _ _ _ _ (parse_uint8 _ _ _ _ Hh)).
  - injection H as <-. by rewrite (bind_done _ _ _ _ _ (parse_uint8 _ _ _ _ Hh)).
  - cbn in H. case_bool_decide as Hn; [|done]. apply bind_Some in H as (f & Hf & [= <-]).
    rewrite (bind_done _ _ _ _ _ (parse_uint8 _ _ _ _ Hh)).
    destruct (encoded_address_run _ _ _ _ _ _ _ w Hf Hn (holds_tail _ _ _ _ Hh)) as (E & Hne & _).
    rewrite (bind_done _ _ _ _ _ E), (proj2 (Z.eqb_neq _ _) Hne).
    cbn [length]. rewrite length_le_bytes. unfold mret, M_ret. f_equal. f_equal. lia.
  - injection H as <-. unfold mret, M_ret. f_equal. f_equal. cbn. lia.
Qed.

Lemma cie_augmentation_kept r x c r' : apply_aug r x c = Some r' -> cie_augmentation r' = cie_augmentation r.
Proof.
  destruct x; cbn; intros H; try (by injection H as <-).
  case_bool_decide; [|done]. by apply bind_Some in H as (f & _ & [= <-]).
Qed.

Lemma augmentation_loop_run xs i r r' c rest stop w :
  apply_augs r xs c = Some r' -> holds (mem w) c (augs_data xs ++ rest) ->
  holds (mem w) (cie_augmentation r + i) (aug_char <$> xs) ->
  c + Z.of_nat (length (augs_data xs)) <= stop ->
  augmentation_loop (length xs) i r c stop w =
    Done (true, r', c + Z.of_nat (length (augs_data xs))) w.
Proof.
  revert i r c. induction xs as [|x xs IH]; intros i r c H Hh Hs Hstop.
  - injection H as <-. cbn. unfold mret, M_ret. f_equal. f_equal. lia.
  - apply bind_Some in H as (r1 & H1 & H). cbn [length augmentation_loop].
    change (augs_data (x :: xs)) with (aug_data x ++ augs_data xs) in *.
    rewrite <- app_assoc in Hh. rewrite length_app in *.
    destruct (augmentation_entry_run _ _ _ _ _ w H1 Hh) as [E1 Hh1].
    rewrite (bind_done _ _ _ _ _ (load_byte _ _ _ _ Hs)), (bind_done _ _ _ _ _ E1).
    cbn [negb]. rewrite (proj2 (Z.ltb_ge _ _)) by lia.
    rewrite (IH (i + 1) r1); [f_equal; f_equal; lia|done|done| |lia].
    rewrite (cie_augmentation_kept _ _ _ _ H1), Z.add_assoc. by apply holds_tail in Hs.
Qed.

(** ** CIE records *)

Record cie_desc := CieDesc {
  d_version : Z;
  d_augs : option (list aug);
  d_code : Z;
  d_data : Z;
  d_return : Z;
  d_program : list cfi
}.

Definition aug_string (xs : option (list aug)) : list Z :=
  match xs with None => [] | Some xs => 122 :: (aug_char <$> xs) end.

Definition aug_section (xs : option (list aug)) : list Z :=
  match xs with None => [] | Some xs => delimited (augs_data xs) end.

Definition encode_return (d : cie_desc) : list Z :=
  if d_version d =? 1 then [d_return d] else varint_bytes (d_return d).

(** What follows the version. *)
Definition cie_tail (d : cie_desc) : list Z :=
  c_string (aug_string (d_augs d)) ++ varint_bytes (d_code d) ++ sleb_fuel 4 (d_data d) ++
  encode_return d ++ aug_section (d_augs d) ++ encode_cfis (d_program d).

Definition cie_size (d : cie_desc) : Z := 5 + Z.of_nat (length (cie_tail d)).

Definition encode_cie (d : cie_desc) : list Z :=
  le_bytes 4 (cie_size d) ++ le_bytes 4 DWARF_CIE_ID_CIE_FLAG ++ [d_version d] ++ cie_tail d.

(** Fields in the range the encoding has. *)
Definition cie_in_range (d : cie_desc) : bool :=
  ((d_version d =? 1) || (d_version d =? 3)) && is_uleb (d_code d) &&
  (- 2 ^ 27 <=? d_data d) && (d_data d <? 2 ^ 27) && is_uleb (d_return d) &&
  (cie_size d <? DWARF_EXTENDED_LENGTH_FLAG) &&
  match d_augs d with None => true | Some xs => is_uleb (Z.of_nat (length (augs_data xs))) end.

(** The addresses of the augmentation data, of the instructions and of the end
    of the record at [p]. *)
Definition aug_address (d : cie_desc) (p : Z) : Z :=
  p + 9 + Z.of_nat (length (c_string (aug_string (d_augs d)) ++ varint_bytes (d_code d) ++
                            sleb_fuel 4 (d_data d) ++ encode_return d)).
Definition program_address (d : cie_desc) (p : Z) : Z :=
  aug_address d p + Z.of_nat (length (aug_section (d_augs d))).

(** The record that describes the CIE at [p]. *)
Definition cie_of (d : cie_desc) (p : Z) : option DWARFCIERecord :=
  let c := cie_with_return
             (cie_with_header (cie_with_length zero_cie (cie_size d)) (d_version d) (p + 9)
                (d_code d) (d_data d)) (d_return d) in
  c ← match d_augs d with
      | None => Some c
      | Some xs =>
          apply_augs c xs
            (aug_address d p + Z.of_nat (length (varint_bytes (Z.of_nat (length (augs_data xs))))))
      end;
  Some (cie_with_instructions c
          (Instructions (Z.of_nat (length (encode_cfis (d_program d)))) (program_address d p))).

Lemma aug_char_nonzero xs : Forall (fun c => c <> 0) (aug_string xs).
Proof.
  destruct xs as [xs|]; cbn; [|constructor]. constructor; [done|].
  apply Forall_fmap, Forall_true. by intros [].
Qed.

Lemma process_augmentation_run r xs r' c rest w :
  match xs with
  | None => Some r
  | Some xs => apply_augs r xs (c + Z.of_nat (length (varint_bytes (Z.of_nat (length (augs_data xs))))))
  end = Some r' ->
  match xs with None => true | Some xs => is_uleb (Z.of_nat (length (augs_data xs))) end = true ->
  cie_augmentation r <> 0 -> holds (mem w) (cie_augmentation r) (c_string (aug_string xs)) ->
  0 <= c -> c + Z.of_nat (length (aug_section xs)) < 2 ^ 64 ->
  holds (mem w) c (aug_section xs ++ rest) ->
  FIRCLSDwarfParseAndProcessAugmentation (Some r) c w =
    Done (true, Some r', c + Z.of_nat (length (aug_section xs))) w.
Proof.
  intros H Hu Hne Hs Hc Hsz Hh. unfold FIRCLSDwarfParseAndProcessAugmentation.
  rewrite (proj2 (Z.eqb_neq _ _)) by done. destruct xs as [xs|]; cbn [aug_section aug_string] in *.
  - pose proof (strlen_run _ (122 :: (aug_char <$> xs)) w (aug_char_nonzero (Some xs)) Hs) as El.
    change (c_string (122 :: (aug_char <$> xs))) with (122 :: c_string (aug_char <$> xs)) in Hs.
    rewrite (bind_done _ _ _ _ _ (load_byte _ _ _ _ Hs)). cbn [Z.eqb Pos.eqb negb].
    rewrite (bind_done _ _ _ _ _ El). unfold delimited in *. rewrite <- app_assoc in Hh.
    destruct (uleb_run _ _ _ _ Hu Hh) as [E Hh2]. rewrite (bind_done _ _ _ _ _ E).
    rewrite length_app in *. pose proof (is_uleb_bounds _ Hu). rewrite wrap_small by lia.
    replace (Z.to_nat (Z.of_nat (length (122 :: (aug_char <$> xs))) - 1)) with (length xs)
      by (cbn [length]; rewrite length_fmap; lia).
    apply holds_tail, holds_app in Hs as [Hs _].
    match goal with |- context [augmentation_loop _ _ _ ?c1 ?stop] =>
      rewrite (bind_done _ _ _ _ _ (augmentation_loop_run xs 1 r r' c1 rest stop w H Hh2 Hs
                 ltac:(lia)))
    end.
    unfold mret, M_ret. f_equal. f_equal. lia.
  - injection H as <-. rewrite (bind_done _ _ _ _ _ (load_byte _ _ _ _ Hs)). cbn.
    unfold mret, M_ret. f_equal. f_equal. lia.
Qed.

(** Split the next part of a record. *)
Ltac next_part H H1 :=
  let H2 := fresh "Hh" in
  apply holds_app in H as [H1 H2]; rewrite ?length_le_bytes in H2; rename H2 into H.

Lemma uint32_run v c w :
  0 <= v < 2 ^ 32 -> holds (mem w) c (le_bytes 4 v) ->
  FIRCLSParseUint32AndAdvance c w = Done (v, c + 4) w.
Proof.
  intros Hv Hh. unfold FIRCLSParseUint32AndAdvance.
  by rewrite (bind_done _ _ _ _ _ (load_holds _ _ _ _ Hh Hv)).
Qed.

Lemma record_length_run len c w :
  0 <= len < DWARF_EXTENDED_LENGTH_FLAG -> holds (mem w) c (le_bytes 4 len) ->
  FIRCLSParseRecordLengthAndAdvance c w = Done (len, c + 4) w.
Proof.
  unfold DWARF_EXTENDED_LENGTH_FLAG. intros Hv Hh. unfold FIRCLSParseRecordLengthAndAdvance.
  rewrite (bind_done _ _ _ _ _ (uint32_run len c w ltac:(lia) Hh)).
  by rewrite (proj2 (Z.eqb_neq _ _)) by (unfold DWARF_EXTENDED_LENGTH_FLAG; lia).
Qed.

Lemma string_run s c w :
  Forall (fun x => x <> 0) s -> holds (mem w) c (c_string s) ->
  FIRCLSParseStringAndAdvance c w = Done (c, c + Z.of_nat (length (c_string s))) w.
Proof.
  intros Hs Hh. unfold FIRCLSParseStringAndAdvance.
  rewrite (bind_done _ _ _ _ _ (strlen_run _ _ _ Hs Hh)).
  unfold mret, M_ret, c_string. rewrite length_app. cbn [length]. f_equal. f_equal. lia.
Qed.

Lemma cie_in_range_spec d :
  cie_in_range d = true ->
  (d_version d = 1 \/ d_version d = 3) /\ is_uleb (d_code d) = true /\
  - 2 ^ 27 <= d_data d < 2 ^ 27 /\ is_uleb (d_return d) = true /\
  cie_size d < DWARF_EXTENDED_LENGTH_FLAG /\
  match d_augs d with None => true | Some xs => is_uleb (Z.of_nat (length (augs_data xs))) end = true.
Proof.
  unfold cie_in_range. intros H.
  repeat match type of H with (_ && _) = true => apply andb_true_iff in H as [H ?] end.
  apply orb_true_iff in H as [H|H]; apply Z.eqb_eq in H; split_and!; first [done | lia].
Qed.

(** The return address register: a byte in version 1. *)
Lemma return_run d c w :
  d_version d = 1 \/ d_version d = 3 -> is_uleb (d_return d) = true ->
  holds (mem w) c (encode_return d) ->
  (if d_version d =? 1 then FIRCLSParseUint8AndAdvance c else FIRCLSParseULEB128AndAdvance c) w =
  Done (d_return d, c + Z.of_nat (length (encode_return d))) w.
Proof.
  intros Hv Hr Hh. unfold encode_return in *. destruct (d_version d =? 1).
  - by rewrite (parse_uint8 _ _ _ _ Hh).
  - by apply uleb_last.
Qed.

(** The whole CIE record. *)
Lemma parse_cie_run d p c0 c w :
  cie_in_range d = true -> cie_of d p = Some c -> 0 < p -> p + 4 + cie_size d < 2 ^ 64 ->
  holds (mem w) p (encode_cie d) ->
  FIRCLSDwarfParseCIERecord (Some c0) p w = Done (true, Some c) w.
Proof.
  intros (Hv & Hcode & Hdata & Hret & Hsize & Haug)%cie_in_range_spec Hc Hp Hend Hh.
  assert (Hsz5 : 5 <= cie_size d) by (unfold cie_size; lia).
  apply bind_Some in Hc as (c1 & Hc1 & [= <-]).
  assert (Eend : 4 + cie_size d = 9 + Z.of_nat (length (cie_tail d))) by (unfold cie_size; lia).
  assert (Etail : length (cie_tail d) = (length (c_string (aug_string (d_augs d)) ++ varint_bytes (d_code d) ++
      sleb_fuel 4 (d_data d) ++ encode_return d) + length (aug_section (d_augs d)) +
      length (encode_cfis (d_program d)))%nat)
    by (unfold cie_tail; rewrite !length_app; lia).
  unfold program_address. set (a := aug_address d p) in *. unfold aug_address in a.
  unfold FIRCLSDwarfParseCIERecord. rewrite (proj2 (Z.eqb_neq p 0)) by lia.
  unfold encode_cie, cie_tail in Hh.
  next_part Hh H1.
  rewrite (bind_done _ _ _ _ _ (record_length_run (cie_size d) p w ltac:(lia) H1)), (proj2 (Z.eqb_neq _ 0)) by lia.
  next_part Hh H2.
  rewrite (bind_done _ _ _ _ _ (uint32_run DWARF_CIE_ID_CIE_FLAG _ w ltac:(done) H2)).
  next_part Hh H3. cbn [length] in Hh. change (Z.of_nat 4) with 4 in *. change (Z.of_nat 1) with 1 in *.
  rewrite (bind_done _ _ _ _ _ (parse_uint8 w _ _ [] H3)).
  next_part Hh H4. replace (p + 4 + 4 + 1) with (p + 9) in * by lia.
  rewrite (bind_done _ _ _ _ _ (string_run _ _ w (aug_char_nonzero _) H4)).
  destruct (uleb_run _ _ _ w Hcode Hh) as [E5 Hh5]. rewrite (bind_done _ _ _ _ _ E5). clear Hh.
  next_part Hh5 H6.
  rewrite (bind_done _ _ _ _ _ (FIRCLSParseLEB128_spec _ _ w Hdata H6)).
  assert (Ev : negb (d_version d =? 1) && negb (d_version d =? 3) = false)
    by (destruct Hv as [-> | ->]; done).
  rewrite Ev. next_part Hh5 H7. rewrite (bind_done _ _ _ _ _ (return_run d _ w Hv Hret H7)).
  match goal with |- context [FIRCLSDwarfParseAndProcessAugmentation _ ?x] => replace x with a in *
    by (unfold a; rewrite !length_app, !Nat2Z.inj_add; lia) end.
  match goal with |- context [FIRCLSDwarfParseAndProcessAugmentation (Some ?r) a] =>
    rewrite (bind_done _ _ _ _ _ (process_augmentation_run r (d_augs d) c1 a
               (encode_cfis (d_program d)) w Hc1 Haug ltac:(cbn; lia) H4 ltac:(lia) ltac:(lia) Hh5))
  end.
  cbn [of_option negb]. rewrite bind_ret. unfold DWARF_EXTENDED_LENGTH_FLAG in Hsize.
  rewrite (wrap_small 64), (wrap_small 32) by lia.
  unfold mret, M_ret. do 5 f_equal. lia.
Qed.

(** What a CIE record keeps of its description. *)
Lemma apply_aug_kept r x c r' :
  apply_aug r x c = Some r' ->
  cie_length r' = cie_length r /\ cie_version r' = cie_version r /\
  cie_augmentation r' = cie_augmentation r /\
  cie_codeAlignFactor r' = cie_codeAlignFactor r /\ cie_dataAlignFactor r' = cie_dataAlignFactor r.
Proof.
  destruct x; cbn; intros H; try (by injection H as <-).
  case_bool_decide; [|done]. by apply bind_Some in H as (f & _ & [= <-]).
Qed.

Lemma apply_augs_kept r xs c r' :
  apply_augs r xs c = Some r' ->
  cie_length r' = cie_length r /\ cie_version r' = cie_version r /\
  cie_augmentation r' = cie_augmentation r /\
  cie_codeAlignFactor r' = cie_codeAlignFactor r /\ cie_dataAlignFactor r' = cie_dataAlignFactor r.
Proof.
  revert r c. induction xs as [|x xs IH]; intros r c; cbn; [by intros [= <-]|].
  intros (r1 & H1 & H)%bind_Some. apply apply_aug_kept in H1 as (<- & <- & <- & <- & <-). by eapply IH.
Qed.

Lemma cie_of_kept d p c :
  cie_of d p = Some c ->
  cie_length c = cie_size d /\ cie_version c = d_version d /\ cie_augmentation c = p + 9 /\
  cie_codeAlignFactor c = d_code d /\ cie_dataAlignFactor c = d_data d /\
  cie_instructions c =
    Instructions (Z.of_nat (length (encode_cfis (d_program d)))) (program_address d p).
Proof.
  unfold cie_of. intros (c1 & H & [= <-])%bind_Some.
  destruct (d_augs d) as [xs|]; [apply apply_augs_kept in H as (E1 & E2 & E3 & E4 & E5)|injection H as <-];
    cbn in *; by split_and!.
Qed.

(** ** FDE records *)

Record fde_desc := FdeDesc {
  f_cie_offset : Z;
  f_start : Z;
  f_range : Z;
  f_aug : list Z;
  f_program : list cfi
}.

Definition fde_augs (d : cie_desc) (f : fde_desc) : list Z :=
  match d_augs d with None => [] | Some _ => delimited (f_aug f) end.

(** The record, with addresses of [n] bytes, for a CIE [d]. *)
Definition fde_tail (d : cie_desc) (n : nat) (f : fde_desc) : list Z :=
  le_bytes n (f_start f) ++ le_bytes n (f_range f) ++ fde_augs d f ++ encode_cfis (f_program f).

Definition fde_size (d : cie_desc) (n : nat) (f : fde_desc) : Z :=
  4 + Z.of_nat (length (fde_tail d n f)).

Definition encode_fde (d : cie_desc) (n : nat) (f : fde_desc) : list Z :=
  le_bytes 4 (fde_size d n f) ++ le_bytes 4 (f_cie_offset f) ++ fde_tail d n f.

Definition fde_program_address (d : cie_desc) (n : nat) (f : fde_desc) (p : Z) : Z :=
  p + 8 + 2 * Z.of_nat n + Z.of_nat (length (fde_augs d f)).

(** The record that describes the FDE at [p]. *)
Definition fde_of (d : cie_desc) (format : Z) (pcrel : bool) (n : nat) (f : fde_desc) (p : Z) :
    option DWARFFDERecord :=
  start ← encoded_address format pcrel (f_start f) (p + 8);
  range ← encoded_address format false (f_range f) (p + 8 + Z.of_nat n);
  Some (FDERecord (fde_size d n f) (f_cie_offset f) start range
          (Instructions (Z.of_nat (length (encode_cfis (f_program f)))) (fde_program_address d n f p))).

Lemma fixed_format_range format n : fst <$> fixed_format format = Some n -> 0 <= format < 16.
Proof.
  unfold fixed_format. intros H.
  repeat match type of H with
  | context [if ?b then _ else _] =>
      let E := fresh "E" in destruct b eqn:E; [apply Z.eqb_eq in E; subst format; done|]
  end. done.
Qed.

(** The encoding of the range: the format of the start, never relative. *)
Lemma range_encoding format pcrel :
  0 <= format < 16 ->
  Z.land (format + pcrel_flag pcrel) DW_EH_PE_VALUE_MASK = format + pcrel_flag false.
Proof.
  intros H. cbn [pcrel_flag]. rewrite Z.add_0_r.
  assert (E : Z.land format DW_EH_PE_VALUE_MASK = format)
    by (unfold DW_EH_PE_VALUE_MASK; change 15 with (Z.ones 4); rewrite Z.land_ones, Z.mod_small; lia).
  destruct pcrel; cbn [pcrel_flag]; [|by rewrite Z.add_0_r].
  destruct (relative_offset format H) as (_ & -> & _). done.
Qed.

(** The augmentation data is skipped. *)
Lemma skip_augmentation d f c rest w cie :
  cie_in_range d = true -> is_uleb (Z.of_nat (length (f_aug f))) = true ->
  cie_augmentation cie <> 0 ->
  holds (mem w) (cie_augmentation cie) (c_string (aug_string (d_augs d))) ->
  0 <= c -> c + Z.of_nat (length (fde_augs d f)) < 2 ^ 64 ->
  holds (mem w) c (fde_augs d f ++ rest) ->
  (augmented ← FIRCLSDwarfCIEHasAugmentationData (Some cie);
   (if augmented : bool then
      '(augmentationLength, ptr) ← FIRCLSParseULEB128AndAdvance c;
      mret (u64 (ptr + augmentationLength))
    else mret c)) w = Done (c + Z.of_nat (length (fde_augs d f))) w.
Proof.
  intros Hd Hu Hne Hs Hc Hsz Hh. unfold FIRCLSDwarfCIEHasAugmentationData, fde_augs in *.
  rewrite (proj2 (Z.eqb_neq _ _)) by done. rewrite bind_assoc.
  destruct (d_augs d) as [xs|]; cbn [aug_string] in Hs.
  - change (c_string (122 :: (aug_char <$> xs))) with (122 :: c_string (aug_char <$> xs)) in Hs.
    rewrite (bind_done _ _ _ _ _ (load_byte _ _ _ _ Hs)), bind_ret. cbn [Z.eqb Pos.eqb].
    unfold delimited in *. rewrite <- app_assoc in Hh.
    destruct (uleb_run _ _ _ _ Hu Hh) as [E _]. rewrite (bind_done _ _ _ _ _ E).
    rewrite length_app in *. rewrite wrap_small by lia. unfold mret, M_ret. f_equal. lia.
  - rewrite (bind_done _ _ _ _ _ (load_byte _ _ _ _ Hs)), bind_ret. cbn.
    unfold mret, M_ret. f_equal. lia.
Qed.

Lemma cie_valid d p cie :
  cie_in_range d = true -> cie_of d p = Some cie -> FIRCLSDwarfCIEIsValid (Some cie) = true.
Proof.
  intros (Hv & _)%cie_in_range_spec (El & Ever & _)%cie_of_kept.
  unfold FIRCLSDwarfCIEIsValid. rewrite El, Ever.
  rewrite (proj2 (Z.eqb_neq _ _)) by (unfold cie_size; lia). by destruct Hv as [-> | ->].
Qed.

(** The FDE after its CIE. *)
Lemma parse_fde_body_run d f p q n format pcrel cie fde fde0 w :
  cie_in_range d = true -> cie_of d q = Some cie -> 0 < q ->
  holds (mem w) (q + 9) (c_string (aug_string (d_augs d))) ->
  is_uleb (Z.of_nat (length (f_aug f))) = true -> fst <$> fixed_format format = Some n ->
  cie_pointerEncoding cie = format + pcrel_flag pcrel ->
  fde_of d format pcrel n f p = Some fde ->
  fde_length fde0 = fde_size d n f -> fde_cieOffset fde0 = f_cie_offset f ->
  fde_size d n f < DWARF_EXTENDED_LENGTH_FLAG -> 0 < p -> p + 4 + fde_size d n f < 2 ^ 64 ->
  holds (mem w) (p + 8) (fde_tail d n f) ->
  parse_fde_body fde0 (Some cie) (p + 8) (p + 4 + fde_size d n f) w = Done (true, fde) w.
Proof.
  intros Hd Hcie Hq Hs Hu Hn Henc Hfde Hl Ho Hsize Hp Hend Hh.
  pose proof (cie_of_kept _ _ _ Hcie) as (_ & _ & Eaug & _). rewrite <- Eaug in Hs.
  apply bind_Some in Hfde as (start & Hstart & (range & Hrange & [= <-])%bind_Some).
  assert (Esize : fde_size d n f = 4 + 2 * Z.of_nat n + Z.of_nat (length (fde_augs d f)) +
      Z.of_nat (length (encode_cfis (f_program f))))
    by (unfold fde_size, fde_tail; rewrite !length_app, !length_le_bytes; lia).
  unfold parse_fde_body. rewrite (cie_valid _ _ _ Hd Hcie). cbn [negb of_option].
  rewrite bind_ret, Henc. unfold fde_tail in Hh.
  destruct (encoded_address_run _ _ _ _ _ _ _ w Hstart Hn Hh) as (E1 & Hne1 & Hh1).
  rewrite (bind_done _ _ _ _ _ E1), (proj2 (Z.eqb_neq _ _) Hne1).
  destruct (encoded_address_run _ _ _ _ _ _ _ w Hrange Hn Hh1) as (E2 & Hne2 & Hh2).
  rewrite (range_encoding _ _ (fixed_format_range _ _ Hn)).
  rewrite (bind_done _ _ _ _ _ E2), (proj2 (Z.eqb_neq _ _) Hne2).
  etrans; [symmetry; apply bind_assoc|].
  rewrite (bind_done _ _ _ _ _ (skip_augmentation d f (p + 8 + Z.of_nat n + Z.of_nat n)
             (encode_cfis (f_program f)) w cie Hd Hu ltac:(lia) Hs
             ltac:(lia) ltac:(lia) Hh2)).
  unfold DWARF_EXTENDED_LENGTH_FLAG in Hsize. rewrite Hl, Ho, wrap_small by lia.
  unfold mret, M_ret, fde_program_address. do 4 f_equal; lia.
Qed.

(** The whole FDE record and the CIE it points back to. *)
Lemma parse_fde_run d f p n format pcrel cie fde fde0 cie0 w :
  let q := p + 4 - f_cie_offset f in
  cie_in_range d = true -> cie_of d q = Some cie -> 0 < q -> q + 4 + cie_size d < 2 ^ 64 ->
  holds (mem w) q (encode_cie d) ->
  is_uleb (Z.of_nat (length (f_aug f))) = true -> fst <$> fixed_format format = Some n ->
  cie_pointerEncoding cie = format + pcrel_flag pcrel ->
  fde_of d format pcrel n f p = Some fde ->
  0 < f_cie_offset f < 2 ^ 32 ->
  fde_size d n f < DWARF_EXTENDED_LENGTH_FLAG -> 0 < p -> p + 4 + fde_size d n f < 2 ^ 64 ->
  holds (mem w) p (encode_fde d n f) ->
  FIRCLSDwarfParseFDERecord (Some fde0) true (Some cie0) p w = Done (true, Some fde, Some cie) w.
Proof.
  intros q Hd Hcie Hq Hqend Hhq Hu Hn Henc Hfde Hoff Hsize Hp Hend Hh.
  assert (Hsz4 : 4 <= fde_size d n f) by (unfold fde_size; lia).
  unfold FIRCLSDwarfParseFDERecord. rewrite (proj2 (Z.eqb_neq p 0)) by lia.
  unfold encode_fde in Hh. next_part Hh H1.
  rewrite (bind_done _ _ _ _ _ (record_length_run (fde_size d n f) p w ltac:(lia) H1)).
  rewrite (proj2 (Z.eqb_neq _ 0)) by lia. next_part Hh H2. change (Z.of_nat 4) with 4 in *.
  rewrite (bind_done _ _ _ _ _ (uint32_run (f_cie_offset f) (p + 4) w ltac:(lia) H2)).
  rewrite (proj2 (Z.eqb_neq _ 0)) by lia. rewrite (wrap_small 64 (p + 4 + _)) by lia.
  replace (p + 4 + 4 - f_cie_offset f - 4) with q by lia. rewrite (wrap_small 64 q) by lia.
  rewrite (bind_done _ _ _ _ _ (parse_cie_run d q cie0 cie w Hd Hcie Hq Hqend Hhq)). cbn [negb].
  assert (Hs : holds (mem w) (q + 9) (c_string (aug_string (d_augs d)))).
  { unfold encode_cie, cie_tail in Hhq. do 3 (next_part Hhq H3; clear H3). next_part Hhq H4.
    cbn [length] in H4. by replace (q + 9) with (q + Z.of_nat 4 + Z.of_nat 4 + Z.of_nat 1) by lia. }
  replace (p + 4 + 4) with (p + 8) in * by lia.
  match goal with |- context [parse_fde_body ?fde1 _ _ _] =>
    rewrite (bind_done _ _ _ _ _ (parse_fde_body_run d f p q n format pcrel cie fde fde1 w Hd Hcie Hq
               Hs Hu Hn Henc Hfde eq_refl eq_refl Hsize Hp Hend Hh))
  end. done.
Qed.

(** ** The instructions within the records *)

Lemma cie_program_at d q w :
  holds (mem w) q (encode_cie d) ->
  holds (mem w) (program_address d q) (encode_cfis (d_program d)) /\
  q <= program_address d q /\
  program_address d q + Z.of_nat (length (encode_cfis (d_program d))) = q + 4 + cie_size d.
Proof.
  intros Hh. unfold encode_cie, cie_tail in Hh. split; [|split].
  - do 3 (next_part Hh H1; clear H1). rewrite !app_assoc in Hh. next_part Hh H1.
    unfold program_address, aug_address. rewrite <- !app_assoc in Hh. rewrite !app_assoc in Hh.
    rewrite !length_app, !Nat2Z.inj_add in *. cbn [length] in Hh.
    match goal with H : holds _ ?x _ |- holds _ ?y _ => replace y with x by lia end. done.
  - unfold program_address, aug_address. lia.
  - unfold program_address, aug_address, cie_size, cie_tail. rewrite !length_app. lia.
Qed.

Lemma fde_program_at d n f p w :
  holds (mem w) p (encode_fde d n f) ->
  holds (mem w) (fde_program_address d n f p) (encode_cfis (f_program f)) /\
  p <= fde_program_address d n f p /\
  fde_program_address d n f p + Z.of_nat (length (encode_cfis (f_program f))) =
    p + 4 + fde_size d n f.
Proof.
  intros Hh. unfold encode_fde, fde_tail in Hh. unfold fde_program_address. split; [|split].
  - do 5 (next_part Hh H1; clear H1).
    match goal with H : holds _ ?x _ |- holds _ ?y _ => replace y with x by lia end. done.
  - lia.
  - unfold fde_size, fde_tail. rewrite !length_app, !length_le_bytes. lia.
Qed.
