(* ===== verification/DwarfSafety.v ===== *)
(** The safety of unwinding with DWARF data on arbitrary records: the interpreter of
    call frame instructions ends whatever bytes it is given, no memory is written,
    the table of rules keeps its size, and a step of unwinding either fails and
    leaves the registers as they are or moves to another frame. Parsing records
    (FIRCLSDwarfUnwind.c, FIRCLSDataParsing.c) ends on any memory, writes nothing,
    and yields instructions that end far below the end of the address space, as the
    interpreter requires. *)
From S2P Require Import Prelude Memory PbWire DwarfData ThreadState DwarfDataSpec DwarfExpression.
From S2P Require Import DwarfExpressionSpec DwarfUnwind DwarfCfiSpec DwarfUnwindSpec.

(** ** Parsers *)

Lemma lor_bound a b n : 0 <= n -> 0 <= a < 2 ^ n -> 0 <= b < 2 ^ n -> 0 <= Z.lor a b < 2 ^ n.
Proof.
  intros Hn Ha Hb. assert (H0 : 0 <= Z.lor a b) by (apply Z.lor_nonneg; lia). split; [done|].
  destruct (decide (Z.lor a b = 0)) as [->|Hne]; [lia|].
  apply Z.log2_lt_pow2; [lia|]. rewrite Z.log2_lor by lia.
  destruct (decide (n = 0)) as [->|].
  { change (2 ^ 0) with 1 in *. replace a with 0 in * by lia. replace b with 0 in * by lia. done. }
  apply Z.max_lub_lt.
  - destruct (decide (a = 0)) as [->|]; [cbn; lia|]. apply Z.log2_lt_pow2; lia.
  - destruct (decide (b = 0)) as [->|]; [cbn; lia|]. apply Z.log2_lt_pow2; lia.
Qed.

Lemma int_shl_bounds a n w :
  0 <= a -> 0 <= n -> ends (int_shl a n) w (fun v w' => 0 <= v < 2 ^ 31 /\ w' = w).
Proof.
  intros Ha Hn. unfold int_shl. destruct (_ && _) eqn:E; [|done].
  apply andb_true_iff in E as [_ ?%Z.ltb_lt]. apply ends_ret.
  split; [|done]. split; [by apply Z.shiftl_nonneg|done].
Qed.

(** An unsigned number: below 2^31, of at most eight bytes. *)
Lemma uleb128_loop_bounds n c r k w :
  0 <= r < 2 ^ 31 -> 0 <= k ->
  ends (uleb128_loop n c r k) w
    (fun x w' => 0 <= x.1 < 2 ^ 31 /\ c <= x.2 <= c + Z.of_nat n /\ w' = w).
Proof.
  revert c r k. induction n as [|n IH]; intros c r k Hr Hk; cbn [uleb128_loop].
  { apply ends_ret. cbn. split_and!; lia || done. }
  apply ends_bind, ends_load. intros b. apply ends_bind.
  assert (0 <= Z.land 127 b) by (apply Z.land_nonneg; lia).
  eapply ends_mono; [by apply int_shl_bounds|]. intros v w' [Hv ->]. cbv beta zeta.
  assert (Hl : 0 <= Z.lor r (u64 v) < 2 ^ 31) by (rewrite wrap_small by lia; apply lor_bound; lia).
  destruct (_ =? 0).
  - apply ends_ret. cbn [fst snd]. split_and!; lia || done.
  - eapply ends_mono; [apply IH; [done|lia]|]. intros x w' (H1 & H2 & ->).
    split_and!; lia || done.
Qed.

Lemma uleb128_bounds c w :
  ends (FIRCLSParseULEB128AndAdvance c) w
    (fun x w' => 0 <= x.1 < 2 ^ 31 /\ c <= x.2 <= c + 8 /\ w' = w).
Proof. by apply uleb128_loop_bounds. Qed.

Lemma leb128_total c w : ends (FIRCLSParseLEB128AndAdvance c) w (fun x w' => c <= x.2 /\ w' = w).
Proof. eapply ends_mono; [apply leb128_ends|]. cbv beta. intros ? ? [? ->]. split; [lia|done]. Qed.

Lemma encoded_value_ends c e w :
  ends (parse_encoded_value c e) w (fun x w' => c <= x.2 /\ w' = w).
Proof.
  assert (Hu : forall (m : M (Z * Z)) (f : Z -> Z),
    ends m w (fun x w' => c <= x.2 /\ w' = w) ->
    ends ('(v, cursor) ← m; mret (M := M) (Some (f v), cursor)) w (fun x w' => c <= x.2 /\ w' = w)).
  { intros m f H. apply ends_bind. eapply ends_mono; [exact H|]. by intros [v cur] w' [? ->]. }
  assert (Hn : forall n (f : Z -> Z),
    ends (tmp ← load n c; mret (M := M) (f tmp, c + Z.of_nat n)) w (fun x w' => c <= x.2 /\ w' = w)).
  { intros n f. apply ends_bind, ends_load. intros v. apply ends_ret. cbn. split; [lia|done]. }
  unfold parse_encoded_value. cbv zeta.
  repeat match goal with
  | |- ends (if ?b then _ else _) _ _ =>
      destruct b; [first [apply Hu, leb128_total | apply Hu; eapply ends_mono;
        [apply uleb128_bounds|]; cbv beta; intros ? ? (_ & ? & ->); split; [lia|done]
        | apply Hu; exact (Hn 2%nat id) | apply Hu; exact (Hn 4%nat id)
        | apply Hu; exact (Hn 8%nat id) | apply Hu; exact (Hn 2%nat s16)
        | apply Hu; exact (Hn 4%nat s32) | apply Hu; exact (Hn 8%nat s64)]|]
  end.
  apply ends_ret. cbn. split; [lia|done].
Qed.

Lemma int64_result_ends v w : ends (int64_result v) w (fun x w' => w' = w).
Proof. unfold int64_result. by destruct (_ && _). Qed.

Lemma encoded_address_ends c e w :
  ends (FIRCLSParseAddressWithEncodingAndAdvance c e) w (fun x w' => c <= x.2 /\ w' = w).
Proof.
  unfold FIRCLSParseAddressWithEncodingAndAdvance.
  destruct (e =? _); [apply ends_ret; split; [cbn; lia|done]|].
  destruct (c =? 0); [apply ends_ret; split; [cbn; lia|done]|].
  apply ends_bind. eapply ends_mono; [apply encoded_value_ends|]. intros [[v|] cur] w' [Hc ->];
    cbn [fst snd] in *; [|by apply ends_ret].
  destruct (negb _); [by apply ends_ret|]. apply ends_bind.
  eapply (ends_mono _ _ (fun _ w' => w' = w)); [destruct (_ =? _); [apply int64_result_ends|by apply ends_ret]|].
  intros v' w' ->. destruct (negb _); [|by apply ends_ret].
  destruct (_ =? 0); [by apply ends_ret|]. apply ends_bind, ends_load. intros. by apply ends_ret.
Qed.

(** ** The interpreter of call frame instructions *)

Section Unwinding.
Context {TS : ThreadState} {TL : ThreadStateLaws}.

(** The table has an entry for each register. *)
Definition wf_state (s : FIRCLSDwarfState) : Prop :=
  Z.of_nat (length (state_registers s)) = DWARF_MAX_REGISTER_NUM + 1.

Lemma wf_zero_state : wf_state zero_state.
Proof. pose proof max_register_bounds. unfold wf_state, zero_state. cbn. rewrite length_replicate. lia. Qed.

(** The outcome of an instruction at [c]. *)
Definition cfa_ok (c : Z) (w : world) (x : bool * Z * FIRCLSDwarfState * Z) (w' : world) : Prop :=
  c <= x.1.1.2 /\ wf_state x.1.2 /\ w' = w.

Lemma set_register_ends s n d w :
  wf_state s -> ends (set_register s n d) w (fun s' w' => wf_state s' /\ w' = w).
Proof.
  intros H. unfold set_register. apply ends_bind, ends_of_option. intros d0 _. apply ends_ret.
  split; [|done]. unfold wf_state. cbn. by rewrite length_insert.
Qed.

Lemma set_register_location_ends s n l w :
  wf_state s -> ends (set_register_location s n l) w (fun s' w' => wf_state s' /\ w' = w).
Proof.
  intros H. unfold set_register_location. apply ends_bind, ends_of_option. intros d0 _.
  by apply set_register_ends.
Qed.

(** Run the next operand. *)
Ltac operand :=
  apply ends_bind; eapply ends_mono; [apply uleb128_bounds|];
  let v := fresh "v" in let cur := fresh "cur" in let w1 := fresh "w" in
  let Hv := fresh "Hv" in let Hc := fresh "Hc" in
  intros [v cur] w1 (Hv & Hc & ->); cbn [fst snd] in *.

Ltac cfa_return := apply ends_ret; split_and!; cbn; first [lia | done].

Ltac register_check := match goal with |- context [if ?b then _ else _] => destruct b; [cfa_return|] end.

Lemma uint8_next c w :
  ends (FIRCLSParseUint8AndAdvance c) w (fun x w' => x.2 = c + 1 /\ w' = w).
Proof. apply ends_bind, ends_load. intros v. by apply ends_ret. Qed.

Section Interpreter.
Context (cie : DWARFCIERecord) (stop : Z) (Hstop : stop + 2 ^ 32 <= 2 ^ 64).

Lemma expression_rule_ends l c s off w :
  0 <= c <= stop -> wf_state s -> ends (expression_rule l c s off) w (cfa_ok c w).
Proof.
  intros Hc Hs. unfold expression_rule. operand. register_check.
  apply ends_bind. eapply ends_mono; [by apply set_register_ends|]. intros s' w' [Hs' ->].
  operand. rewrite wrap_small by lia. cfa_return.
Qed.

Lemma advance_loc_n_ends n c s off w :
  wf_state s -> ends (advance_loc_n cie n c s off) w (cfa_ok c w).
Proof.
  intros Hs. unfold advance_loc_n. apply ends_bind, ends_load. intros v. apply ends_bind.
  eapply ends_mono; [apply int64_result_ends|]. intros off' w' ->. cfa_return.
Qed.

Lemma operand_instruction_ends b c s off w :
  wf_state s -> ends (FIRCLSDwarfParseAndExecuteInstructionWithOperand cie c b s off) w (cfa_ok c w).
Proof.
  intros Hs. unfold FIRCLSDwarfParseAndExecuteInstructionWithOperand.
  destruct (_ =? DW_CFA_offset).
  { unfold FIRCLSDwarfParseAndExecute_offset. register_check. operand. apply ends_bind.
    eapply ends_mono; [by apply set_register_ends|]. intros s' w' [Hs' ->]. cfa_return. }
  destruct (_ =? DW_CFA_advance_loc); [|cfa_return].
  unfold FIRCLSDwarfParseAndExecute_advance_loc. apply ends_bind.
  eapply ends_mono; [apply int64_result_ends|]. intros off' w' ->. cfa_return.
Qed.

(** No instruction, known or not, makes the interpreter loop, moves the cursor
    back or changes the size of the table. *)
Lemma execute_instruction_ends b c s off w :
  0 <= c <= stop -> wf_state s -> ends (execute_instruction cie b c s off) w (cfa_ok c w).
Proof.
  intros Hc Hs. unfold execute_instruction.
  destruct (b =? DW_CFA_set_loc).
  { apply ends_bind. eapply ends_mono; [apply encoded_address_ends|].
    intros [v cur] w' [Hcur ->]. cbn [fst snd] in *. cfa_return. }
  do 3 (match goal with |- context [if ?b then _ else _] => destruct b end;
    [by apply advance_loc_n_ends|]).
  destruct (b =? DW_CFA_def_cfa).
  { unfold FIRCLSDwarfParseAndExecute_def_cfa. operand. register_check. operand. cfa_return. }
  destruct (b =? DW_CFA_def_cfa_register).
  { unfold FIRCLSDwarfParseAndExecute_def_cfa_register. operand. register_check. cfa_return. }
  destruct (b =? DW_CFA_def_cfa_offset).
  { unfold FIRCLSDwarfParseAndExecute_def_cfa_offset. operand. cfa_return. }
  destruct (b =? DW_CFA_same_value).
  { unfold FIRCLSDwarfParseAndExecute_same_value. operand. register_check. apply ends_bind.
    eapply ends_mono; [by apply set_register_location_ends|]. intros s' w' [Hs' ->]. cfa_return. }
  destruct (b =? DW_CFA_register).
  { unfold FIRCLSDwarfParseAndExecute_register. operand. register_check. operand. register_check.
    apply ends_bind. eapply ends_mono; [by apply set_register_ends|]. intros s' w' [Hs' ->]. cfa_return. }
  destruct (b =? DW_CFA_def_cfa_expression).
  { unfold FIRCLSDwarfParseAndExecute_def_cfa_expression. operand. rewrite wrap_small by lia. cfa_return. }
  do 2 (match goal with |- context [if ?b then _ else _] => destruct b end;
    [by apply expression_rule_ends|]).
  destruct (bool_decide _); [cfa_return|]. by apply operand_instruction_ends.
Qed.

Lemma enumerate_loop_ends fuel c s off pc w :
  0 <= c -> wf_state s -> (Z.to_nat (stop - c) < fuel)%nat ->
  ends (enumerate_loop cie fuel c stop s off pc) w (fun x w' => wf_state x.2 /\ w' = w).
Proof.
  revert c s off. induction fuel as [|fuel IH]; intros c s off Hc Hs Hf; [lia|].
  cbn [enumerate_loop]. destruct (negb _) eqn:E; [by apply ends_ret|].
  apply negb_false_iff, andb_true_iff in E as [Hlt%Z.ltb_lt _].
  apply ends_bind. eapply ends_mono; [apply uint8_next|].
  intros [b cur] w' [Hcur ->]. cbn [snd] in Hcur. subst cur. cbv beta iota.
  destruct (b =? DW_CFA_nop); [apply IH; [lia|done|lia]|].
  apply ends_bind. eapply ends_mono; [apply execute_instruction_ends; [lia|done]|].
  intros [[[ok cur] s1] off1] w' (Hcur & Hs1 & ->). cbn [fst snd] in *.
  destruct (negb ok); [by apply ends_ret|]. apply IH; [lia|done|lia].
Qed.

End Interpreter.

(** [FIRCLSDwarfInstructionsEnumerate] on any instructions that end 2^32 bytes
    before the end of the address space. *)
Lemma enumerate_ends instrs cie s pc w :
  0 <= instr_data instrs -> 0 <= instr_length instrs ->
  instr_data instrs + instr_length instrs + 2 ^ 32 <= 2 ^ 64 -> wf_state s ->
  ends (FIRCLSDwarfInstructionsEnumerate (Some instrs) (Some cie) (Some s) pc) w
    (fun x w' => (exists s', x.2 = Some s' /\ wf_state s') /\ w' = w).
Proof.
  intros H1 H2 H3 Hs. unfold FIRCLSDwarfInstructionsEnumerate. rewrite wrap_small by lia.
  apply ends_bind. eapply ends_mono; [apply enumerate_loop_ends; [lia|lia|done|lia]|].
  intros [ok s'] w' [Hs' ->]. apply ends_ret. split; [by exists s'|done].
Qed.

(** ** A step of unwinding *)

Lemma set_register_value_ends r n v w :
  ends (DwarfUnwindSetRegisterValue (Some r) n v) w
    (fun x w' => (exists r', x.2 = Some r') /\ w' = w).
Proof.
  destruct (set_register_returns r n v w) as (ok & r' & E). unfold ends. rewrite E. cbn. eauto.
Qed.

Section Step.
Context {VM : VmRead} {VMS : VmReadSpec}.

Lemma get_cfa_ends s r w : ends (FIRCLSDwarfGetCFA s r) w (fun _ w' => w' = w).
Proof.
  unfold FIRCLSDwarfGetCFA. destruct s as [s|], r as [r|]; try done. destruct (negb _).
  - apply ends_bind. eapply ends_mono; [apply evaluate_expression_ends|]. by intros v w' ->.
  - apply ends_bind. eapply ends_mono; [apply get_register_ends|]. by intros v w' ->.
Qed.

Lemma get_saved_ends r cfa d w : ends (FIRCLSDwarfGetSavedRegister r cfa d) w (fun _ w' => w' = w).
Proof.
  unfold FIRCLSDwarfGetSavedRegister. destruct (location d); try by apply ends_ret.
  - apply ends_bind. eapply ends_mono; [apply read_memory_ends|]. by intros v w' ->.
  - apply get_register_ends.
  - apply ends_bind. eapply ends_mono; [apply evaluate_expression_ends|]. intros [v|] w' ->; [|done].
    apply ends_bind. eapply ends_mono; [apply read_memory_ends|]. by intros bs w' ->.
  - apply ends_bind. eapply ends_mono; [apply evaluate_expression_ends|]. by intros v w' ->.
Qed.

Lemma assign_registers_loop_ends n i s regs cfa new w :
  ends (assign_registers_loop n i s regs cfa (Some new)) w
    (fun x w' => (exists r', x.2 = Some r') /\ w' = w).
Proof.
  revert i new. induction n as [|n IH]; intros i new; cbn [assign_registers_loop].
  { apply ends_ret. cbn. eauto. }
  apply ends_bind, ends_of_option. intros d _. destruct (decide _); [apply IH|].
  apply ends_bind. eapply ends_mono; [apply get_saved_ends|]. intros v w' ->.
  apply ends_bind. eapply ends_mono; [apply set_register_value_ends|].
  intros [ok new1] w' [[r' E] ->]. cbn in E. subst new1. destruct (negb ok); [|apply IH].
  apply ends_ret. cbn. eauto.
Qed.

Lemma assign_registers_ends s regs cfa w :
  ends (FIRCLSDwarfUnwindAssignRegisters s (Some regs) cfa) w
    (fun x w' => match x with Some new => moved regs new = true | None => True end /\ w' = w).
Proof.
  unfold FIRCLSDwarfUnwindAssignRegisters. destruct s as [s|]; [|by apply ends_ret].
  apply ends_bind. eapply ends_mono; [apply assign_registers_loop_ends|].
  intros [ok mid] w' [[r' E] ->]. cbn in E. subst mid. destruct (negb ok); [by apply ends_ret|].
  apply ends_bind. eapply ends_mono; [apply set_register_value_ends|].
  intros [ok2 new] w' [[r2 E] ->]. cbn in E. subst new. destruct (negb ok2); [by apply ends_ret|].
  apply ends_bind. eapply ends_mono; [apply compare_ends|]. intros b w' [-> ->].
  destruct (same_register _ _ _) eqn:E1; [by apply ends_ret|].
  apply ends_bind. eapply ends_mono; [apply compare_ends|]. intros b w' [-> ->].
  destruct (same_register _ _ DWARF_REG_RETURN) eqn:E2; apply ends_ret; [done|].
  unfold moved. by rewrite E1, E2.
Qed.

(** Instructions that end 2^32 bytes before the end of the address space. *)
Definition instructions_below (i : DWARFInstructions) : Prop :=
  0 <= instr_data i /\ 0 <= instr_length i /\ instr_data i + instr_length i + 2 ^ 32 <= 2 ^ 64.

Lemma compute_registers_ends rec regs w :
  instructions_below (cie_instructions (cfi_cie rec)) ->
  instructions_below (fde_instructions (cfi_fde rec)) ->
  ends (FIRCLSDwarfUnwindComputeRegisters (Some rec) (Some regs)) w (fun x w' =>
    w' = w /\
    if x.1 then exists new, x.2 = Some new /\ moved regs new = true else x.2 = Some regs).
Proof.
  intros (H1 & H2 & H3) (G1 & G2 & G3). unfold FIRCLSDwarfUnwindComputeRegisters.
  apply ends_bind. eapply ends_mono; [by apply enumerate_ends; [..|apply wf_zero_state]|].
  intros [ok s1] w' [(s1' & E & Hs1) ->]. cbn in E. subst s1. destruct (negb ok); [by apply ends_ret|].
  cbv zeta. destruct (_ <? 0); [by apply ends_ret|].
  apply ends_bind. eapply ends_mono; [by apply enumerate_ends|].
  intros [ok2 s2] w' [(s2' & E & Hs2) ->]. cbn in E. subst s2. destruct (negb ok2); [by apply ends_ret|].
  apply ends_bind. eapply ends_mono; [apply get_cfa_ends|]. intros [cfa|] w' ->; [|by apply ends_ret].
  apply ends_bind. eapply ends_mono; [apply assign_registers_ends|].
  intros [new|] w' [Hm ->]; apply ends_ret; cbn; eauto.
Qed.

End Step.

End Unwinding.

(** Memory of a process: every mapped address has 47 bits. *)
Definition low_mem (m : gmap Z Z) : Prop := forall a, is_Some (m !! a) -> 0 <= a < 2 ^ 47.

(** A cursor next to mapped memory. *)
Definition low (c : Z) : Prop := 0 <= c <= 2 ^ 47 + 8.

(** A parser that leaves the world, and its cursor next to mapped memory. *)
Definition scans {A} (w : world) (m : M (A * Z)) : Prop :=
  ends m w (fun x w' => low x.2 /\ w' = w).

Section Low.
Context (w : world) (Hlow : low_mem (mem w)).

Lemma load_low n a : (0 < n <= 8)%nat ->
  ends (load n a) w (fun v w' => w' = w /\ 0 <= a /\ low (a + Z.of_nat n)).
Proof.
  intros Hn. unfold ends, load, read_le. destruct (read_bytes (mem w) a n) as [bs|] eqn:E; cbn; [|done].
  split; [done|]. assert (Hm : mapped (mem w) a (Z.of_nat n)) by (apply read_bytes_is_mapped; eauto).
  pose proof (Hlow a (Hm a ltac:(lia))). unfold low. lia.
Qed.

(** A load and a function of the value. *)
Lemma scans_load {A} n (f : Z -> A) c : (0 < n <= 8)%nat ->
  scans w (tmp ← load n c; mret (M := M) (f tmp, c + Z.of_nat n)).
Proof.
  intros Hn. apply ends_bind. eapply ends_mono; [by apply load_low|]. intros v w' (-> & _ & Hl).
  by apply ends_ret.
Qed.

Lemma scans_bind {A B} (m : M (A * Z)) (k : A * Z -> M (B * Z)) :
  scans w m -> (forall a c, low c -> scans w (k (a, c))) -> scans w (x ← m; k x).
Proof.
  intros Hm Hk. apply ends_bind. eapply ends_mono; [exact Hm|]. intros [a c] w' [Hc ->]. by apply Hk.
Qed.

Lemma scans_ret {A} (a : A) c : low c -> scans w (mret (a, c)).
Proof. intros Hc. by apply ends_ret. Qed.

Lemma scans_fmap {A B} (m : M (A * Z)) (f : A -> B) :
  scans w m -> scans w ('(v, c) ← m; mret (f v, c)).
Proof. intros Hm. apply scans_bind; [exact Hm|]. intros a c Hc. by apply scans_ret. Qed.

Lemma uleb_loop_scans n c r k : (0 < n)%nat -> 0 <= r < 2 ^ 31 -> 0 <= k -> scans w (uleb128_loop n c r k).
Proof.
  revert c r k. induction n as [|n IH]; intros c r k Hn Hr Hk; [lia|]. cbn [uleb128_loop].
  apply ends_bind. eapply ends_mono; [apply load_low; lia|]. intros b w' (-> & _ & Hc).
  apply ends_bind. assert (0 <= Z.land 127 b) by (apply Z.land_nonneg; lia).
  eapply ends_mono; [by apply int_shl_bounds|]. intros v w' [Hv ->]. cbv beta zeta.
  assert (Hl : 0 <= Z.lor r (u64 v) < 2 ^ 31) by (rewrite wrap_small by lia; apply lor_bound; lia).
  destruct (_ =? 0); [by apply scans_ret|]. destruct n as [|n]; [by apply scans_ret|].
  apply IH; lia.
Qed.

Lemma uleb_scans c : scans w (FIRCLSParseULEB128AndAdvance c).
Proof. apply uleb_loop_scans; lia. Qed.

Lemma leb_loop_scans n c r k b : (0 < n)%nat ->
  ends (leb128_loop n c r k b) w (fun x w' => low x.2 /\ w' = w).
Proof.
  revert c r k b. induction n as [|n IH]; intros c r k b Hn; [lia|]. cbn [leb128_loop].
  apply ends_bind. eapply ends_mono; [apply load_low; lia|]. intros b' w' (-> & _ & Hc).
  apply ends_bind. apply (ends_mono _ _ (fun _ w' => w' = w)).
  { unfold int_shl. by destruct (_ && _). }
  intros v w' ->. cbv zeta. destruct (_ =? 0); [by apply ends_ret|].
  destruct n as [|n]; [by apply ends_ret|]. apply IH. lia.
Qed.

Lemma leb_scans c : scans w (FIRCLSParseLEB128AndAdvance c).
Proof.
  apply ends_bind. eapply ends_mono; [apply leb_loop_scans; lia|].
  intros [[[r k] b] c'] w' [Hc ->]. cbn [snd] in Hc. destruct (_ && _); [|by apply ends_ret].
  apply ends_bind. apply (ends_mono _ _ (fun _ w' => w' = w)).
  { unfold int_shl. by destruct (_ && _). }
  intros v w' ->. by apply ends_ret.
Qed.

(** ** Strings *)

Lemma strlen_loop_ends fuel p n :
  0 <= n -> mapped (mem w) p n -> (size (mem w) < fuel + Z.to_nat n)%nat ->
  ends (strlen_loop fuel p n) w (fun v w' => n <= v /\ low (p + (v + 1)) /\ w' = w).
Proof.
  revert n. induction fuel as [|fuel IH]; intros n Hn Hm Hf.
  - pose proof (mapped_size (mem w) p (Z.to_nat n)) as Hs. rewrite Z2Nat.id in Hs by lia.
    specialize (Hs Hm). lia.
  - cbn [strlen_loop]. unfold ends, mbind, M_bind, load, read_le.
    destruct (read_bytes (mem w) (p + n) 1) as [bs|] eqn:E; cbn [fmap option_fmap option_map]; [|done].
    assert (Hb : mapped (mem w) (p + n) 1) by (apply (read_bytes_is_mapped _ _ 1); eauto).
    pose proof (Hlow (p + n) (Hb (p + n) ltac:(lia))).
    destruct (_ =? 0).
    + cbn. unfold low. split_and!; lia || done.
    + eapply ends_mono; [apply (IH (n + 1)); [lia| |lia]|].
      * intros x Hx. destruct (decide (x = p + n)) as [->|]; [apply Hb; lia|apply Hm; lia].
      * cbv beta. intros v w' (? & ? & ->). split_and!; lia || done.
Qed.

Lemma strlen_ends p : ends (strlen p) w (fun v w' => 0 <= v /\ low (p + (v + 1)) /\ w' = w).
Proof. apply strlen_loop_ends; [lia|intros x Hx; lia|lia]. Qed.

Lemma string_scans c : scans w (FIRCLSParseStringAndAdvance c).
Proof.
  apply ends_bind. eapply ends_mono; [apply strlen_ends|]. intros v w' (_ & Hl & ->). by apply ends_ret.
Qed.

(** ** Record lengths and addresses *)

Lemma record_length_scans c : scans w (FIRCLSParseRecordLengthAndAdvance c).
Proof.
  apply scans_bind; [by apply (scans_load 4 id); lia|]. intros a c' Hc.
  destruct (_ =? _); [by apply (scans_load 8 id); lia|by apply scans_ret].
Qed.

Lemma encoded_value_scans c e : low c -> scans w (parse_encoded_value c e).
Proof.
  intros Hc. unfold parse_encoded_value. cbv zeta.
  repeat match goal with
  | |- scans _ (if ?b then _ else _) =>
      destruct b; [first [apply scans_fmap, leb_scans | apply scans_fmap, uleb_scans
        | apply scans_fmap, (scans_load 2 id); lia | apply scans_fmap, (scans_load 4 id); lia
        | apply scans_fmap, (scans_load 8 id); lia | apply scans_fmap, (scans_load 2 s16); lia
        | apply scans_fmap, (scans_load 4 s32); lia | apply scans_fmap, (scans_load 8 s64); lia]|]
  end.
  by apply scans_ret.
Qed.

Lemma encoded_address_scans c e : low c -> scans w (FIRCLSParseAddressWithEncodingAndAdvance c e).
Proof.
  intros Hc. unfold FIRCLSParseAddressWithEncodingAndAdvance.
  destruct (e =? _); [by apply scans_ret|]. destruct (c =? 0); [by apply scans_ret|]. cbv zeta.
  apply scans_bind; [by apply encoded_value_scans|]. intros [v|] c' Hc'; [|by apply scans_ret].
  destruct (negb _); [by apply scans_ret|]. apply ends_bind.
  eapply (ends_mono _ _ (fun _ w' => w' = w)); [destruct (_ =? _); [apply int64_result_ends|by apply ends_ret]|].
  intros v' w' ->. destruct (negb _); [|by apply scans_ret].
  destruct (_ =? 0); [by apply scans_ret|]. apply ends_bind, ends_load. intros. by apply scans_ret.
Qed.

(** ** CIE records *)

Lemma augmentation_entry_scans r p c : low p -> scans w (augmentation_entry r p c).
Proof.
  intros Hp. unfold augmentation_entry.
  destruct (c =? 76); [apply scans_bind; [by apply (scans_load 1 id); lia|]; intros; by apply scans_ret|].
  destruct (c =? 82); [apply scans_bind; [by apply (scans_load 1 id); lia|]; intros; by apply scans_ret|].
  destruct (c =? 80).
  { apply scans_bind; [by apply (scans_load 1 id); lia|]. intros e p' Hp'.
    apply scans_bind; [by apply encoded_address_scans|]. intros f p'' Hp''. by apply scans_ret. }
  destruct (c =? 83); by apply scans_ret.
Qed.

Lemma augmentation_loop_scans n i r p ending : low p -> scans w (augmentation_loop n i r p ending).
Proof.
  revert i r p. induction n as [|n IH]; intros i r p Hp; cbn [augmentation_loop]; [by apply scans_ret|].
  apply ends_bind, ends_load. intros c.
  apply scans_bind; [by apply augmentation_entry_scans|]. intros [ok r'] p' Hp'.
  destruct (negb ok); [by apply scans_ret|]. destruct (_ <? _); [by apply scans_ret|]. by apply IH.
Qed.

(** The record is there afterwards. *)
Lemma augmentation_scans r p : low p ->
  ends (FIRCLSDwarfParseAndProcessAugmentation (Some r) p) w
    (fun x w' => low x.2 /\ w' = w /\ is_Some x.1.2).
Proof.
  intros Hp. unfold FIRCLSDwarfParseAndProcessAugmentation.
  destruct (_ =? 0); [by apply ends_ret; eauto|]. apply ends_bind, ends_load. intros c.
  destruct (c =? 0); [by apply ends_ret; eauto|]. destruct (negb _); [by apply ends_ret; eauto|].
  apply ends_bind. eapply ends_mono; [apply strlen_ends|]. intros n w' (_ & _ & ->).
  apply ends_bind. eapply ends_mono; [apply uleb_scans|]. intros [len p'] w' [Hp' ->].
  apply ends_bind. eapply ends_mono; [by apply augmentation_loop_scans|].
  intros [[ok r'] p''] w' [Hp'' ->]. apply ends_ret. cbn in *. split_and!; eauto.
Qed.

(** Instructions right after mapped memory, whose length has 32 bits. *)
Lemma instructions_below_low l c d : low c -> 0 <= d < 2 ^ 31 ->
  instructions_below (Instructions (u32 l) (c + d)).
Proof.
  intros [H1 H2] Hd. pose proof (wrap_bounds 32 l). unfold instructions_below. cbn. lia.
Qed.

Lemma cie_ends c0 p :
  ends (FIRCLSDwarfParseCIERecord (Some c0) p) w
    (fun x w' => w' = w /\ exists c, x.2 = Some c /\
       (x.1 = true -> instructions_below (cie_instructions c))).
Proof.
  assert (Hfail : forall c, ends (mret (M := M) (false, Some c)) w
    (fun x w' => w' = w /\ exists c : DWARFCIERecord, x.2 = Some c /\
       (x.1 = true -> instructions_below (cie_instructions c)))).
  { intros c. apply ends_ret. split; [done|]. by exists c. }
  unfold FIRCLSDwarfParseCIERecord. destruct (p =? 0); [apply Hfail|].
  apply ends_bind. eapply ends_mono; [apply record_length_scans|]. intros [len p1] w' [Hp1 ->].
  cbv zeta. destruct (len =? 0); [apply Hfail|].
  apply ends_bind. eapply ends_mono; [apply (scans_load 4 id); lia|]. intros [flag p2] w' [Hp2 ->].
  apply ends_bind. eapply ends_mono; [apply (scans_load 1 id); lia|]. intros [ver p3] w' [Hp3 ->].
  apply ends_bind. eapply ends_mono; [apply string_scans|]. intros [aug p4] w' [Hp4 ->].
  apply ends_bind. eapply ends_mono; [apply uleb_scans|]. intros [code p5] w' [Hp5 ->].
  apply ends_bind. eapply ends_mono; [apply leb_scans|]. intros [data p6] w' [Hp6 ->].
  destruct (_ && _); [apply Hfail|]. apply ends_bind.
  apply (ends_mono _ _ (fun x w' => low x.2 /\ w' = w)).
  { destruct (ver =? 1); [apply (scans_load 1 id); lia|apply uleb_scans]. }
  intros [r p7] w' [Hp7 ->]. apply ends_bind.
  eapply ends_mono; [by apply augmentation_scans|].
  intros [[ok c] p8] w' (Hp8 & -> & c' & E). cbn in E, Hp8. subst c. cbn [of_option].
  apply ends_bind, ends_ret. destruct (negb ok); [apply Hfail|]. apply ends_ret. split; [done|].
  eexists. split; [done|]. intros _. cbn [cie_with_instructions cie_instructions].
  rewrite <- (Z.add_0_r p8) at 2. apply instructions_below_low; [done|lia].
Qed.

(** ** FDE records *)

Lemma has_augmentation_ends c :
  ends (FIRCLSDwarfCIEHasAugmentationData c) w (fun _ w' => w' = w).
Proof.
  unfold FIRCLSDwarfCIEHasAugmentationData. destruct c as [c|]; [|by apply ends_ret].
  destruct (_ =? 0); [by apply ends_ret|]. apply ends_bind, ends_load. intros. by apply ends_ret.
Qed.

Lemma fde_body_ends fde cie p e : low p ->
  ends (parse_fde_body fde cie p e) w
    (fun x w' => w' = w /\ (x.1 = true -> instructions_below (fde_instructions x.2))).
Proof.
  intros Hp. unfold parse_fde_body. destruct (negb _); [by apply ends_ret|].
  apply ends_bind. destruct cie as [c|]; [|done]. apply ends_ret.
  apply ends_bind. eapply ends_mono; [by apply encoded_address_scans|]. intros [st p1] w' [Hp1 ->].
  cbv zeta. destruct (_ =? _); [by apply ends_ret|].
  apply ends_bind. eapply ends_mono; [by apply encoded_address_scans|]. intros [rg p2] w' [Hp2 ->].
  destruct (_ =? _); [by apply ends_ret|].
  apply ends_bind. eapply ends_mono; [apply has_augmentation_ends|]. intros a w' ->.
  apply ends_bind. apply (ends_mono _ _ (fun x w' => w' = w /\ exists c d, x = c + d /\ low c /\ 0 <= d < 2 ^ 31)).
  - destruct a.
    + apply ends_bind. unfold ends.
      pose proof (uleb_scans p2) as Hs. pose proof (uleb128_bounds p2 w) as Hb. unfold scans, ends in Hs, Hb.
      destruct (FIRCLSParseULEB128AndAdvance p2 w) as [[d p3] w'| |]; [|done|done].
      destruct Hs as [Hp3 ->], Hb as (Hd & _ & _). cbn [fst snd] in *. cbn. split; [done|].
      exists p3, d. split_and!; try done; try lia. apply wrap_small. unfold low in Hp3. lia.
    + apply ends_ret. split; [done|]. exists p2, 0. split_and!; try done; lia.
  - intros p3 w' (-> & c' & d & -> & Hc' & Hd). apply ends_ret. split; [done|]. intros _.
    cbn [snd fde_instructions]. by apply instructions_below_low.
Qed.

Lemma fde_ends fde cie p :
  ends (FIRCLSDwarfParseFDERecord (Some fde) true (Some cie) p) w
    (fun x w' => w' = w /\ exists f c, x.1.2 = Some f /\ x.2 = Some c /\
       (x.1.1 = true -> instructions_below (fde_instructions f) /\
                        instructions_below (cie_instructions c))).
Proof.
  assert (Hfail : forall f c, ends (mret (M := M) (false, Some f, Some c)) w
    (fun x w' => w' = w /\ exists (f : DWARFFDERecord) (c : DWARFCIERecord), x.1.2 = Some f /\ x.2 = Some c /\
       (x.1.1 = true -> instructions_below (fde_instructions f) /\
                        instructions_below (cie_instructions c)))).
  { intros f c. apply ends_ret. split; [done|]. by exists f, c. }
  unfold FIRCLSDwarfParseFDERecord. destruct (p =? 0); [apply Hfail|].
  apply ends_bind. eapply ends_mono; [apply record_length_scans|]. intros [len p1] w' [Hp1 ->].
  cbv zeta. destruct (len =? 0); [apply Hfail|].
  apply ends_bind. eapply ends_mono; [apply (scans_load 4 id); lia|]. intros [off p2] w' [Hp2 ->].
  destruct (off =? 0); [apply Hfail|].
  apply ends_bind. eapply ends_mono; [apply cie_ends|]. intros [ok c'] w' (-> & c & E & Hc).
  cbn [fst snd] in *. subst c'. destruct ok; cbn [negb]; [|apply Hfail].
  apply ends_bind. eapply ends_mono; [by apply fde_body_ends|]. intros [ok f] w' [-> Hf].
  apply ends_ret. split; [done|]. exists f, c. split_and!; try done. intros Hok. split; [by apply Hf|by apply Hc].
Qed.

Lemma cfi_record_ends rec0 ehFrame off :
  ends (FIRCLSDwarfParseCFIFromFDERecordOffset (Some rec0) ehFrame off) w
    (fun x w' => w' = w /\ exists rec, x.2 = Some rec /\
       (x.1 = true -> instructions_below (cie_instructions (cfi_cie rec)) /\
                      instructions_below (fde_instructions (cfi_fde rec)))).
Proof.
  unfold FIRCLSDwarfParseCFIFromFDERecordOffset, FIRCLSDwarfParseCFIFromFDERecord.
  destruct (_ || _); [apply ends_ret; split; [done|by exists rec0]|].
  destruct (_ =? 0); [apply ends_ret; split; [done|by exists rec0]|].
  apply ends_bind. eapply ends_mono; [apply fde_ends|].
  intros [[ok f'] c'] w' (-> & f & c & E1 & E2 & H). cbn [fst snd] in *. subst f' c'.
  cbn [of_option]. apply ends_bind, ends_ret, ends_bind, ends_ret, ends_ret. split; [done|].
  exists (CFIRecord c f). split; [done|]. intros Hok. by destruct (H Hok).
Qed.

End Low.
