(* ===== verification/DwarfTheorems.v ===== *)
(** The properties of the unwinder: the data formats, the expression machine,
    the interpreter of call frame instructions, and a step of unwinding from
    the bytes of the unwind tables to the registers of the caller; and the unwinder at
    concrete inputs: a function with a frame record, its CIE and FDE, and the stack of a
    thread stopped in it. *)
From S2P Require Import Prelude Memory PbWire DwarfData ThreadState Arm64State DwarfDataSpec DwarfExpression.
From S2P Require Import DwarfExpressionSpec DwarfUnwind DwarfCfiSpec DwarfUnwindSpec DwarfSafety.

(** ** Data formats *)

(** [FIRCLSParseULEB128AndAdvance] reads the canonical encoding of a value
    below 2^31 exactly and moves the cursor over it; from 2^31 on it shifts an
    [int] out of its range, which C leaves undefined. *)
Theorem uleb128_exact v c w :
  0 <= v < 2 ^ 64 -> holds (mem w) c (varint_bytes v) ->
  FIRCLSParseULEB128AndAdvance c w =
  if v <? 2 ^ 31 then Done (v, c + Z.of_nat (length (varint_bytes v))) w else Fault.
Proof. apply FIRCLSParseULEB128_spec. Qed.

(** [FIRCLSParseLEB128AndAdvance] reads every signed value of 28 bits from
    its canonical encoding of at most four bytes. *)
Theorem leb128_exact v c w :
  - 2 ^ 27 <= v < 2 ^ 27 -> holds (mem w) c (sleb_fuel 4 v) ->
  FIRCLSParseLEB128AndAdvance c w = Done (v, c + Z.of_nat (length (sleb_fuel 4 v))) w.
Proof. apply FIRCLSParseLEB128_spec. Qed.

(** an address in a fixed-width format, absolute or relative to its own
    position, is decoded by [FIRCLSParseAddressWithEncodingAndAdvance] to the
    address it encodes, and the cursor moves over its bytes. *)
Theorem encoded_address_exact format pcrel n v c a w :
  encoded_address format pcrel v c = Some a -> fst <$> fixed_format format = Some n ->
  holds (mem w) c (le_bytes n v) ->
  FIRCLSParseAddressWithEncodingAndAdvance c (format + pcrel_flag pcrel) w =
  Done (a, c + Z.of_nat n) w.
Proof.
  intros Ha Hn Hh. apply (encoded_address_run _ _ _ _ _ _ [] w Ha Hn). by rewrite app_nil_r.
Qed.

(** ** The stack of the expression machine *)

(** the stack of the expression machine is a stack of 100 words: a push
    below the limit is undone by a pop, the 101st push fails, a pop of the empty
    stack returns 0, and both leave the stack invalid for good. *)
Theorem expression_stack_lifo s st v w :
  stack_holds s st ->
  (exists ok s1, FIRCLSDwarfExpressionStackPush (Some s) v w = Done (ok, Some s1) w /\
     if (length st <? 100)%nat
     then ok = true /\ exists s2, FIRCLSDwarfExpressionStackPop (Some s1) w = Done (v, Some s2) w /\
                         stack_holds s2 st
     else ok = false /\ FIRCLSDwarfExpressionStackIsValid (Some s1) = false /\
          forall u, FIRCLSDwarfExpressionStackPush (Some s1) u w = Done (false, Some s1) w) /\
  (st = [] -> exists s1, FIRCLSDwarfExpressionStackPop (Some s) w = Done (0, Some s1) w /\
     FIRCLSDwarfExpressionStackIsValid (Some s1) = false).
Proof.
  intros H. split.
  - destruct (Nat.ltb_spec (length st) 100) as [Hlt|Hge].
    + destruct (push_run s st v w H Hlt) as (s1 & E1 & H1). exists true, s1. split; [done|].
      split; [done|]. by apply pop_run.
    + exists false, (with_pointer s None). split; [|done].
      unfold FIRCLSDwarfExpressionStackPush. rewrite (stack_holds_valid _ _ H). cbn [negb of_option].
      rewrite bind_ret, (stack_index_holds _ _ H). pose proof H as (_ & _ & Hl & _).
      by rewrite (proj2 (Z.eqb_eq _ _)) by (unfold CLS_DWARF_EXPRESSION_STACK_SIZE; lia).
  - intros ->. exists (with_pointer s None). split; [|done].
    unfold FIRCLSDwarfExpressionStackPop. rewrite (stack_holds_valid _ _ H). cbn [negb of_option].
    by rewrite bind_ret, (stack_index_holds _ _ H).
Qed.

Section Unwinding.
Context {TS : ThreadState} {TL : ThreadStateLaws} {RF : RegisterFile}.
Context {VM : VmRead} {VMS : VmReadSpec}.

(** ** Expressions *)

(** C32: [FIRCLSDwarfEvalulateExpression] computes what the operations of the
    expression mean: the value on top of the stack that they leave when they
    start from the initial value. *)
Theorem expression_refinement a ops regs init v st w :
  expression_at (mem w) a ops -> run_ops regs (mem w) ops [init] = Some (v :: st) ->
  FIRCLSDwarfEvalulateExpression a regs init w = Done (Some v) w.
Proof. apply expression_run. Qed.

(** on any bytes, the evaluation of an expression ends and changes no
    memory: every round of its loop consumes a byte of the expression, and no
    opcode leaves the buffer of the stack. *)
Theorem expression_ends a regs init w :
  FIRCLSDwarfEvalulateExpression a regs init w <> Timeout /\
  forall r w', FIRCLSDwarfEvalulateExpression a regs init w = Done r w' -> w' = w.
Proof.
  pose proof (evaluate_expression_ends a regs init w) as H. split.
  - by eapply ends_not_timeout.
  - intros r w' E. unfold ends in H. by rewrite E in H.
Qed.

(** ** Call frame instructions *)


(** on any instructions that end 2^32 bytes before the end of the address
    space, the interpreter ends, writes no memory, and keeps the size of the
    table of register rules it stores into. *)
Theorem cfi_ends instrs cie s pc w :
  0 <= instr_data instrs -> 0 <= instr_length instrs ->
  instr_data instrs + instr_length instrs + 2 ^ 32 <= 2 ^ 64 -> wf_state s ->
  FIRCLSDwarfInstructionsEnumerate (Some instrs) (Some cie) (Some s) pc w <> Timeout /\
  forall ok s' w', FIRCLSDwarfInstructionsEnumerate (Some instrs) (Some cie) (Some s) pc w =
    Done (ok, s') w' -> w' = w /\ exists s1, s' = Some s1 /\ wf_state s1.
Proof.
  intros H1 H2 H3 Hs. pose proof (enumerate_ends instrs cie s pc w H1 H2 H3 Hs) as H. split.
  - by eapply ends_not_timeout.
  - intros ok s' w' E. unfold ends in H. rewrite E in H. by destruct H as [H ->].
Qed.

(** ** A step of unwinding *)


(** C39: whatever the record, a step of unwinding ends and changes no memory;
    when it fails the registers are as they were, and when it succeeds both the
    stack pointer and the return address have changed, so that unwinding never
    stays in a frame. *)
Theorem unwind_step_safe rec regs w :
  instructions_below (cie_instructions (cfi_cie rec)) ->
  instructions_below (fde_instructions (cfi_fde rec)) ->
  FIRCLSDwarfUnwindComputeRegisters (Some rec) (Some regs) w <> Timeout /\
  forall ok new w', FIRCLSDwarfUnwindComputeRegisters (Some rec) (Some regs) w = Done (ok, new) w' ->
    w' = w /\ if ok : bool then exists r, new = Some r /\ moved regs r = true else new = Some regs.
Proof.
  intros H1 H2. pose proof (compute_registers_ends rec regs w H1 H2) as H. split.
  - by eapply ends_not_timeout.
  - intros ok new w' E. unfold ends in H. by rewrite E in H.
Qed.

End Unwinding.

#[local] Existing Instance arm64.

(** The kernel's copy of mapped memory. *)
#[global] Instance mapped_vm : VmRead :=
  {| vm_read_overwrite a n := fun w => Done (read_bytes (mem w) a n) w |}.

#[global] Instance mapped_vm_spec : VmReadSpec.
Proof. split; cbn; [intros a n bs w ->; done|eauto]. Qed.

(** ** The example *)

Definition ex_cie : cie_desc :=
  CieDesc 1 (Some [AugR 0x1B]) 1 (-8) 30 [CfiDefCfa 31 0].

(** The function is at 0x12000; after its first instruction the frame is set up. *)
Definition ex_fde : fde_desc :=
  FdeDesc 0x104 0x1EF8 0x40 []
    [CfiAdvanceLoc 4; CfiDefCfaOffset 16; CfiOffset 30 1; CfiOffset 29 2; CfiAdvance 1 0x20;
     CfiDefCfaOffset 0].

Definition ex_expression : list dwarf_op := [OpBreg 31 16; OpLit 2; OpSwap; OpPlus; OpDup; OpNe].

Definition ex_fp : Z := 0x21000.
Definition ex_lr : Z := 0x15044.

Definition ex_mem : gmap Z Z :=
  mem_of [(0x10000, encode_cie ex_cie); (0x10100, encode_fde ex_cie 4 ex_fde);
          (0x20000, le_bytes 8 ex_fp ++ le_bytes 8 ex_lr);
          (0x30000, delimited (encode_ops ex_expression))].

Definition ex_world : world := world_of ex_mem 0x40000 0x50000.

Definition ex_regs : thread_context :=
  ThreadContext (Z.of_nat <$> seq 0 29) 0x20000 0x12010 0x20000 0x12010 0.

Definition ex_cie_record : DWARFCIERecord := default zero_cie (cie_of ex_cie 0x10000).
Definition ex_fde_record : DWARFFDERecord :=
  default zero_fde (fde_of ex_cie DW_EH_PE_sdata4 true 4 ex_fde 0x10100).


(** ** Data formats and registers *)

Lemma uleb128_exact_witness :
  FIRCLSParseULEB128AndAdvance 0 (world_of (mem_of [(0, varint_bytes 624485)]) 64 64) =
    Done (624485, 3) (world_of (mem_of [(0, varint_bytes 624485)]) 64 64) /\
  FIRCLSParseULEB128AndAdvance 0 (world_of (mem_of [(0, varint_bytes (2 ^ 31))]) 64 64) = Fault.
Proof.
  split.
  - rewrite (uleb128_exact 624485); [reflexivity|lia|by vm_compute].
  - rewrite (uleb128_exact (2 ^ 31)); [reflexivity|lia|by vm_compute].
Defined.

Lemma leb128_exact_witness :
  let w := world_of (mem_of [(0, sleb_fuel 4 (-123456))]) 64 64 in
  FIRCLSParseLEB128AndAdvance 0 w = Done (-123456, 3) w.
Proof. intros w. rewrite (leb128_exact (-123456) 0 w); [reflexivity|lia|by vm_compute]. Defined.

Lemma encoded_address_exact_witness :
  FIRCLSParseAddressWithEncodingAndAdvance 0x10108 (DW_EH_PE_sdata4 + DW_EH_PE_pcrel) ex_world =
  Done (0x12000, 0x1010C) ex_world.
Proof.
  apply (encoded_address_exact DW_EH_PE_sdata4 true 4 0x1EF8 0x10108 0x12000 ex_world);
    [by vm_compute|done|by vm_compute].
Defined.

(** ** Expressions *)

Definition ex_stack : FIRCLSDwarfExpressionStack := ExpressionStack (5 :: replicate 99 0) (Some 1).

Lemma expression_stack_lifo_witness :
  stack_holds ex_stack [5] /\
  exists s1 s2, FIRCLSDwarfExpressionStackPush (Some ex_stack) 9 ex_world = Done (true, Some s1) ex_world /\
    FIRCLSDwarfExpressionStackPop (Some s1) ex_world = Done (9, Some s2) ex_world.
Proof.
  assert (H : stack_holds ex_stack [5]).
  { unfold stack_holds. cbn. split; [reflexivity|]. split; [reflexivity|]. split; [lia|reflexivity]. }
  split; [exact H|].
  destruct (expression_stack_lifo ex_stack [5] 9 ex_world H) as [(ok & s1 & E & -> & s2 & E2 & _) _].
  exists s1, s2. by split.
Defined.

Lemma ex_expression_at : expression_at (mem ex_world) 0x30000 ex_expression.
Proof. unfold expression_at. split; [lia|]. split; [by vm_compute|]. by vm_compute. Qed.

Lemma expression_refinement_witness :
  FIRCLSDwarfEvalulateExpression 0x30000 (Some ex_regs) 0 ex_world = Done (Some 0) ex_world.
Proof.
  apply (expression_refinement 0x30000 ex_expression (Some ex_regs) 0 0 [0] ex_world);
    [exact ex_expression_at|by vm_compute].
Defined.

Lemma expression_ends_witness :
  FIRCLSDwarfEvalulateExpression 0x10000 None 0 ex_world <> Timeout.
Proof. apply (expression_ends 0x10000 None 0 ex_world). Defined.

(** ** Call frame instructions *)



Lemma cfi_ends_witness :
  FIRCLSDwarfInstructionsEnumerate (Some (Instructions 0x10000 64)) (Some ex_cie_record)
    (Some zero_state) 16 ex_world <> Timeout.
Proof. apply (cfi_ends (Instructions 0x10000 64)); [done|done|done|reflexivity]. Defined.

(** ** Steps *)



Lemma unwind_step_safe_witness :
  FIRCLSDwarfUnwindComputeRegisters (Some (CFIRecord ex_cie_record ex_fde_record)) (Some ex_regs) ex_world
    <> Timeout.
Proof.
  apply (unwind_step_safe (CFIRecord ex_cie_record ex_fde_record) ex_regs ex_world);
    (split; [by vm_compute|split; by vm_compute]).
Defined.

(** ** Departures from the standard *)

(** [DW_CFA_advance_loc] replaces the location, where the standard and the
    other advances add to it. *)
Lemma advance_loc_replaces cie c s delta off w :
  0 <= delta < 64 -> 0 <= cie_codeAlignFactor cie < 2 ^ 31 ->
  FIRCLSDwarfParseAndExecute_advance_loc cie c s delta off w =
  Done (true, c, s, delta * cie_codeAlignFactor cie) w.
Proof.
  intros Hd Hc. unfold FIRCLSDwarfParseAndExecute_advance_loc.
  rewrite to_signed_small by lia. unfold int64_result.
  rewrite (proj2 (Z.leb_le _ _)), (proj2 (Z.ltb_lt _ _)) by nia. done.
Qed.

(** After a [DW_CFA_def_cfa_expression], a [DW_CFA_def_cfa] has no effect on the
    CFA: the expression stays in place. *)
Definition ex_stale : list cfi := [CfiDefCfaExpression [0x30]; CfiDefCfa 31 16].

Lemma def_cfa_keeps_expression :
  let w := world_of (mem_of [(0x10000, encode_cfis ex_stale)]) 0x40000 0x50000 in
  exists s, FIRCLSDwarfInstructionsEnumerate (Some (Instructions 6 0x10000)) (Some ex_cie_record)
    (Some zero_state) 16 w = Done (true, Some s) w /\ cfaExpression s = 0x10001 /\
    cfaRegister s = 31.
Proof. eexists. split; [by vm_compute|]. by split. Qed.

(** The row of the program counter itself is not looked at: of an instruction that
    follows the push of a frame pointer, the CFA is still computed as before the push. *)
Definition ex_push : list cfi := [CfiAdvanceLoc 1; CfiDefCfaOffset 16].

Lemma row_before_pc :
  let w := world_of (mem_of [(0x10000, encode_cfis ex_push)]) 0x40000 0x50000 in
  let row pc := table_row (cie_codeAlignFactor ex_cie_record) (cie_dataAlignFactor ex_cie_record) 0x10000 ex_push 0 pc initial_row in
  row 1 = Some (with_cfa initial_row (CfaRegister 0 16)) /\ row 0 = Some initial_row /\
  exists s, FIRCLSDwarfInstructionsEnumerate (Some (Instructions 3 0x10000)) (Some ex_cie_record)
    (Some zero_state) 1 w = Done (true, Some s) w /\ cfaRegisterOffset s = 0.
Proof. split; [by vm_compute|]. split; [by vm_compute|]. eexists. split; [by vm_compute|done]. Qed.
