(* ===== verification/CompactUnwind.v ===== *)
(** Crashlytics' reader of compact unwind tables (FIRCLSCompactUnwind.c). What an
    encoding means is up to the architecture: the interface [UnwindArch].

    The layout of the tables and the accessors of their words come from the
    system header mach-o/compact_unwind_encoding.h, the parameter
    [CompactEncoding]. A context and a result are passed to and returned from
    the functions that have a pointer to them, [None] being the null pointer.
    What is not modelled is the logging. *)
From S2P Require Import Prelude Memory DwarfData ThreadState DwarfExpression DwarfUnwind.

Definition compact_unwind_encoding_t : Type := Z.

(** ** mach-o/compact_unwind_encoding.h *)

Class CompactEncoding := {
  UNWIND_SECTION_VERSION : Z;
  UNWIND_SECOND_LEVEL_REGULAR : Z;
  UNWIND_SECOND_LEVEL_COMPRESSED : Z;
  UNWIND_INFO_COMPRESSED_ENTRY_FUNC_OFFSET : Z -> Z;
  UNWIND_INFO_COMPRESSED_ENTRY_ENCODING_INDEX : Z -> Z;
  (* struct unwind_info_section_header: the size, and the offsets of its words *)
  section_header_size : nat;
  version_off : nat;
  commonEncodingsArraySectionOffset_off : nat;
  commonEncodingsArrayCount_off : nat;
  indexSectionOffset_off : nat;
  indexCount_off : nat;
  (* struct unwind_info_section_header_index_entry *)
  index_entry_size : Z;
  functionOffset_off : Z;
  secondLevelPagesSectionOffset_off : Z;
  (* struct unwind_info_compressed_second_level_page_header: 16-bit members *)
  entryPageOffset_off : Z;
  entryCount_off : Z;
  encodingsPageOffset_off : Z
}.

Record unwind_info_section_header := SectionHeader {
  version : Z;
  commonEncodingsArraySectionOffset : Z;
  commonEncodingsArrayCount : Z;
  indexSectionOffset : Z;
  indexCount : Z
}.

Record unwind_info_section_header_index_entry := IndexEntry {
  functionOffset : Z;
  secondLevelPagesSectionOffset : Z
}.

Record FIRCLSCompactUnwindContext := CompactContext {
  unwindInfo : Z;
  ctx_ehFrame : Z;
  loadAddress : Z;
  unwindHeader : unwind_info_section_header;
  indexHeader : unwind_info_section_header_index_entry;
  firstLevelNextFunctionOffset : Z
}.

Record FIRCLSCompactUnwindResult := CompactResult {
  encoding : compact_unwind_encoding_t;
  functionStart : Z;
  functionEnd : Z;
  lsda : Z;
  personality : Z
}.

(** [memset(context, 0, sizeof(...))], and the same of a result. *)
Definition zero_context : FIRCLSCompactUnwindContext :=
  CompactContext 0 0 0 (SectionHeader 0 0 0 0 0) (IndexEntry 0 0) 0.
Definition zero_result : FIRCLSCompactUnwindResult := CompactResult 0 0 0 0 0.

Definition context_with_header (c : FIRCLSCompactUnwindContext) (h : unwind_info_section_header) :
    FIRCLSCompactUnwindContext :=
  CompactContext (unwindInfo c) (ctx_ehFrame c) (loadAddress c) h (indexHeader c)
    (firstLevelNextFunctionOffset c).

Definition context_with_index (c : FIRCLSCompactUnwindContext)
    (e : unwind_info_section_header_index_entry) (next : Z) : FIRCLSCompactUnwindContext :=
  CompactContext (unwindInfo c) (ctx_ehFrame c) (loadAddress c) (unwindHeader c) e next.

(** FIRCLSUnwind_arch.h, and the function of FIRCLSCompactUnwind_Private.h that
    computes the registers of the caller from an encoding. *)
Class UnwindArch {TS : ThreadState} := {
  UnwindWithFramePointer : option thread_context -> bool -> M ctx_res;
  CompactUnwindComputeRegisters :
    option FIRCLSCompactUnwindContext -> option FIRCLSCompactUnwindResult ->
    option thread_context -> M ctx_res
}.

Section Compact.
Context {CE : CompactEncoding} {VM : VmRead} {TS : ThreadState}.

(** ** Initialisation *)

Definition header_word (bs : list Z) (off : nat) : Z := le_val (take 4 (drop off bs)).

Definition header_of_bytes (bs : list Z) : unwind_info_section_header :=
  SectionHeader (header_word bs version_off) (header_word bs commonEncodingsArraySectionOffset_off)
    (header_word bs commonEncodingsArrayCount_off) (header_word bs indexSectionOffset_off)
    (header_word bs indexCount_off).

(** The context is at a valid address: [Some]. *)
Definition FIRCLSCompactUnwindInit (context : option FIRCLSCompactUnwindContext)
    (unwindInfo ehFrame loadAddress : Z) : M (bool * option FIRCLSCompactUnwindContext) :=
  match context with
  | None => mret (false, None)
  | Some _ =>
      if negb (FIRCLSIsValidPointer unwindInfo) then mret (false, context)
      else if negb (FIRCLSIsValidPointer loadAddress) then mret (false, context)
      else
        bytes ← FIRCLSReadMemory unwindInfo section_header_size;
        match bytes with
        | None => mret (false, Some zero_context)
        | Some bs =>
            let context := context_with_header zero_context (header_of_bytes bs) in
            if negb (version (unwindHeader context) =? UNWIND_SECTION_VERSION) then
              mret (false, Some context)
            else
              mret (true, Some (CompactContext unwindInfo ehFrame loadAddress
                                  (unwindHeader context) (indexHeader context)
                                  (firstLevelNextFunctionOffset context)))
        end
  end.

(** ** Addresses of the parts of the table *)

Definition FIRCLSCompactUnwindGetIndexData (context : FIRCLSCompactUnwindContext) : Z :=
  u64 (unwindInfo context + indexSectionOffset (unwindHeader context)).

Definition FIRCLSCompactUnwindGetCommonEncodings (context : FIRCLSCompactUnwindContext) : Z :=
  u64 (unwindInfo context + commonEncodingsArraySectionOffset (unwindHeader context)).

Definition FIRCLSCompactUnwindGetSecondLevelData (context : FIRCLSCompactUnwindContext) : Z :=
  u64 (unwindInfo context + secondLevelPagesSectionOffset (indexHeader context)).

Definition FIRCLSCompactUnwindGetIndexFunctionOffset (context : FIRCLSCompactUnwindContext) : Z :=
  u64 (loadAddress context + functionOffset (indexHeader context)).

Definition FIRCLSCompactUnwindGetTargetAddress (context : FIRCLSCompactUnwindContext) (pc : Z) : Z :=
  let offset := FIRCLSCompactUnwindGetIndexFunctionOffset context in
  if pc <=? offset then 0 else u64 (pc - offset).

(** ** The first level *)

(** [indexEntries[index]] *)
Definition load_index_entry (indexEntries index : Z) : M unwind_info_section_header_index_entry :=
  f ← load 4 (indexEntries + index * index_entry_size + functionOffset_off);
  p ← load 4 (indexEntries + index * index_entry_size + secondLevelPagesSectionOffset_off);
  mret (IndexEntry f p).

Definition load_function_offset (indexEntries index : Z) : M Z :=
  load 4 (indexEntries + index * index_entry_size + functionOffset_off).

(** [for (index = 0; index < indexCount - 1; ++index)] with [n] rounds to go;
    the entry that holds the address and the next function offset. *)
Fixpoint first_level_loop (n : nat) (index indexEntries address : Z) :
    M (option (unwind_info_section_header_index_entry * Z)) :=
  match n with
  | O => mret None
  | S n' =>
      value ← load_function_offset indexEntries index;
      nextValue ← load_function_offset indexEntries (index + 1);
      if (value <=? address) && (address <? nextValue) then
        e ← load_index_entry indexEntries index;
        mret (Some (e, nextValue))
      else first_level_loop n' (index + 1) indexEntries address
  end.

Definition FIRCLSCompactUnwindLookupFirstLevel (context : option FIRCLSCompactUnwindContext)
    (address : Z) : M (bool * option FIRCLSCompactUnwindContext) :=
  match context with
  | None => mret (false, None)
  | Some c =>
      let indexCount := indexCount (unwindHeader c) in
      if indexCount <? 2 then mret (false, context)
      else if address <? loadAddress c then mret (false, context)
      else
        let indexEntries := FIRCLSCompactUnwindGetIndexData c in
        if indexEntries =? 0 then mret (false, context)
        else
          found ← first_level_loop (Z.to_nat (indexCount - 1)) 0 indexEntries
                    (u64 (address - loadAddress c));
          match found with
          | None => mret (false, context)
          | Some (e, nextValue) => mret (true, Some (context_with_index c e nextValue))
          end
  end.

(** ** The second level *)

Definition FIRCLSCompactUnwindGetSecondLevelPageKind (context : option FIRCLSCompactUnwindContext) :
    M Z :=
  match context with
  | None => mret 0
  | Some c => load 4 (FIRCLSCompactUnwindGetSecondLevelData c)
  end.

Definition FIRCLSCompactUnwindLookupSecondLevelRegular (context : option FIRCLSCompactUnwindContext)
    (pc : Z) (result : option FIRCLSCompactUnwindResult) :
    M (bool * option FIRCLSCompactUnwindResult) :=
  mret (false, result).

Definition load_entry (entryArray index : Z) : M Z := load 4 (entryArray + index * 4).

(** [while ( *index < highIndex)]: the interval shrinks every round, so that
    its length is the fuel. [None] is [return false] inside the loop. *)
Fixpoint binary_search_loop (fuel : nat) (address entryCount entryArray index highIndex : Z) :
    M (option Z * Z) :=
  match fuel with
  | O => timeout
  | S fuel' =>
      if negb (index <? highIndex) then mret (Some index, index)
      else
        let midIndex := u32 (index + highIndex) / 2 in
        entry ← load_entry entryArray midIndex;
        let value := UNWIND_INFO_COMPRESSED_ENTRY_FUNC_OFFSET entry in
        if address <? value then
          if highIndex =? midIndex then mret (None, index)
          else binary_search_loop fuel' address entryCount entryArray index midIndex
        else if midIndex =? entryCount - 1 then mret (None, midIndex)
        else
          next ← load_entry entryArray (midIndex + 1);
          let nextValue := UNWIND_INFO_COMPRESSED_ENTRY_FUNC_OFFSET next in
          if address <? nextValue then mret (Some midIndex, midIndex)
          else binary_search_loop fuel' address entryCount entryArray (midIndex + 1) highIndex
  end.

(** Returns the value of [*index] as well; the pointers are not null. *)
Definition FIRCLSCompactUnwindBinarySearchSecondLevel (address index entryCount entryArray : Z) :
    M (bool * Z) :=
  if entryArray =? 0 then mret (false, index)
  else if entryCount =? 0 then mret (false, index)
  else if address =? 0 then mret (false, index)
  else
    '(found, index) ← binary_search_loop (S (Z.to_nat entryCount)) address entryCount entryArray
                        0 entryCount;
    match found with
    | None => mret (false, index)
    | Some index => mret (index <? entryCount, index)
    end.

(** The page's entries past the search: the function's range and encoding. *)
Definition compressed_entry (c : FIRCLSCompactUnwindContext) (pc ptr_ entryArray entryCount index : Z) :
    M (bool * FIRCLSCompactUnwindResult) :=
  entry ← load_entry entryArray index;
  let start := u64 (UNWIND_INFO_COMPRESSED_ENTRY_FUNC_OFFSET entry +
                    FIRCLSCompactUnwindGetIndexFunctionOffset c) in
  endAddress ←
    (if index <? u32 (entryCount - 1) then
       next ← load_entry entryArray (index + 1);
       mret (u64 (loadAddress c +
                  u32 (UNWIND_INFO_COMPRESSED_ENTRY_FUNC_OFFSET next +
                       functionOffset (indexHeader c))))
     else mret (u64 (loadAddress c + firstLevelNextFunctionOffset c)));
  if (pc <? start) || (endAddress <=? pc) then mret (false, CompactResult 0 start endAddress 0 0)
  else
    let encodingIndex := UNWIND_INFO_COMPRESSED_ENTRY_ENCODING_INDEX entry in
    enc ←
      (if encodingIndex <? commonEncodingsArrayCount (unwindHeader c) then
         load 4 (FIRCLSCompactUnwindGetCommonEncodings c + encodingIndex * 4)
       else
         let encodingIndex := u32 (encodingIndex - commonEncodingsArrayCount (unwindHeader c)) in
         encodingsPageOffset ← load 2 (ptr_ + encodingsPageOffset_off);
         load 4 (ptr_ + encodingsPageOffset + encodingIndex * 4));
    mret (negb (enc =? 0), CompactResult enc start endAddress 0 0).

Definition FIRCLSCompactUnwindLookupSecondLevelCompressed
    (context : option FIRCLSCompactUnwindContext) (pc : Z)
    (result : option FIRCLSCompactUnwindResult) : M (bool * option FIRCLSCompactUnwindResult) :=
  match context, result with
  | Some c, Some _ =>
      let ptr_ := FIRCLSCompactUnwindGetSecondLevelData c in
      if ptr_ =? 0 then mret (false, result)
      else
        let targetAddress := FIRCLSCompactUnwindGetTargetAddress c pc in
        entryPageOffset ← load 2 (ptr_ + entryPageOffset_off);
        let entryArray := ptr_ + entryPageOffset in
        entryCount ← load 2 (ptr_ + entryCount_off);
        '(found, index) ←
          FIRCLSCompactUnwindBinarySearchSecondLevel targetAddress 0 entryCount entryArray;
        if negb found then mret (false, Some zero_result)
        else
          '(ok, r) ← compressed_entry c pc ptr_ entryArray entryCount index;
          mret (ok, Some r)
  | _, _ => mret (false, result)
  end.

Definition FIRCLSCompactUnwindLookupSecondLevel (context : option FIRCLSCompactUnwindContext)
    (pc : Z) (result : option FIRCLSCompactUnwindResult) :
    M (bool * option FIRCLSCompactUnwindResult) :=
  kind ← FIRCLSCompactUnwindGetSecondLevelPageKind context;
  if kind =? UNWIND_SECOND_LEVEL_REGULAR then
    FIRCLSCompactUnwindLookupSecondLevelRegular context pc result
  else if kind =? UNWIND_SECOND_LEVEL_COMPRESSED then
    FIRCLSCompactUnwindLookupSecondLevelCompressed context pc result
  else mret (false, result).

(** Returns the context and the result. *)
Definition FIRCLSCompactUnwindLookup (context : option FIRCLSCompactUnwindContext) (pc : Z)
    (result : option FIRCLSCompactUnwindResult) :
    M (bool * option FIRCLSCompactUnwindContext * option FIRCLSCompactUnwindResult) :=
  match context, result with
  | Some _, Some _ =>
      '(ok, context) ← FIRCLSCompactUnwindLookupFirstLevel context pc;
      if negb ok then mret (false, context, result)
      else
        '(ok, result) ← FIRCLSCompactUnwindLookupSecondLevel context pc result;
        mret (ok, context, result)
  | _, _ => mret (false, context, result)
  end.

(** ** Unwinding *)

(** [uninit] is what the local variable [record] holds before it is parsed. *)
Context (uninit : FIRCLSDwarfCFIRecord).

Definition FIRCLSCompactUnwindDwarfFrame (context : option FIRCLSCompactUnwindContext)
    (dwarfOffset : Z) (registers : option thread_context) : M ctx_res :=
  match context, registers with
  | Some c, Some _ =>
      '(ok, record) ← FIRCLSDwarfParseCFIFromFDERecordOffset (Some uninit) (ctx_ehFrame c) dwarfOffset;
      if negb ok then mret (false, registers)
      else FIRCLSDwarfUnwindComputeRegisters record registers
  | _, _ => mret (false, registers)
  end.

Context {UA : UnwindArch}.

(** Returns the context and the registers. *)
Definition FIRCLSCompactUnwindLookupAndCompute (context : option FIRCLSCompactUnwindContext)
    (registers : option thread_context) :
    M (bool * option FIRCLSCompactUnwindContext * option thread_context) :=
  match context, registers with
  | Some c, Some _ =>
      let pc := ThreadContextGetPC registers in
      if pc <? loadAddress c then mret (false, context, registers)
      else
        '(ok, context, result) ← FIRCLSCompactUnwindLookup context pc (Some zero_result);
        if negb ok then mret (false, context, registers)
        else
          '(ok, registers) ← CompactUnwindComputeRegisters context result registers;
          mret (ok, context, registers)
  | _, _ => mret (false, context, registers)
  end.

End Compact.
