(* ===== verification/Arm64Unwind.v ===== *)
(** What a compact unwind encoding means on ARM64 (FIRCLSUnwind_arm.c), with the
    modes of mach-o/compact_unwind_encoding.h as the parameter [Arm64Encoding];
    the ARM64 implementation of [UnwindArch]. *)
From S2P Require Import Prelude Memory DwarfData ThreadState Arm64State DwarfExpression DwarfUnwind.
From S2P Require Import CompactUnwind.

#[local] Existing Instance arm64.

Class Arm64Encoding := {
  UNWIND_ARM64_MODE_MASK : Z;
  UNWIND_ARM64_MODE_FRAMELESS : Z;
  UNWIND_ARM64_MODE_DWARF : Z;
  UNWIND_ARM64_MODE_FRAME : Z;
  UNWIND_ARM64_DWARF_SECTION_OFFSET : Z
}.

Section Arm64.
Context {AE : Arm64Encoding} {VM : VmRead}.

(** What the local variable [record] of [FIRCLSCompactUnwindDwarfFrame] holds
    before it is parsed. *)
Context (uninit : FIRCLSDwarfCFIRecord).

(** The ARM64 modes; the first case that matches is taken. *)
Definition FIRCLSCompactUnwindComputeRegisters (context : option FIRCLSCompactUnwindContext)
    (result : option FIRCLSCompactUnwindResult) (registers : option FIRCLSThreadContext) : M arm64_res :=
  match context, result, registers with
  | Some _, Some r, Some _ =>
      let mode := Z.land (encoding r) UNWIND_ARM64_MODE_MASK in
      if mode =? UNWIND_ARM64_MODE_FRAMELESS then mret (FIRCLSUnwindWithLRRegister registers)
      else if mode =? UNWIND_ARM64_MODE_DWARF then
        FIRCLSCompactUnwindDwarfFrame uninit context
          (Z.land (encoding r) UNWIND_ARM64_DWARF_SECTION_OFFSET) registers
      else if mode =? UNWIND_ARM64_MODE_FRAME then FIRCLSUnwindWithFramePointer registers false
      else mret (false, registers)
  | _, _, _ => mret (false, registers)
  end.

Definition arm64_unwind : UnwindArch := {|
  UnwindWithFramePointer := FIRCLSUnwindWithFramePointer;
  CompactUnwindComputeRegisters := FIRCLSCompactUnwindComputeRegisters
|}.

End Arm64.
