(* ===== verification/CompactSpec.v ===== *)
(** What Crashlytics' compact unwind lookup computes: the binary search of a
    second-level page, the scan of the first level, and the lookup of a program
    counter in a table in memory, against the table as a list of functions. *)
From S2P Require Import Prelude Memory DwarfData ThreadState DwarfDataSpec DwarfExpression DwarfExpressionSpec.
From S2P Require Import DwarfUnwind DwarfSafety CompactUnwind.

(** The 32-bit words [ws] are in memory from [a] on. *)
Definition words_at (m : gmap Z Z) (a : Z) (ws : list Z) : Prop :=
  forall i v, ws !! i = Some v -> read_le m 4 (a + Z.of_nat i * 4) = Some v.

(** No later element is smaller. *)
Definition ordered (l : list Z) : Prop :=
  forall i j a b, l !! i = Some a -> l !! j = Some b -> (i <= j)%nat -> a <= b.

Section Search.
Context {CE : CompactEncoding}.

Abbreviation offset := UNWIND_INFO_COMPRESSED_ENTRY_FUNC_OFFSET.

(** ** The binary search *)

Section Page.
Context (w : world) (array : Z) (ws : list Z) (address : Z).
Hypothesis Hws : words_at (mem w) array ws.
Hypothesis Hsorted : ordered (offset <$> ws).
Hypothesis Hcount : (0 < length ws)%nat /\ Z.of_nat (length ws) < 2 ^ 16.

Abbreviation n := (length ws).

Lemma load_entry_run i v : ws !! i = Some v -> load_entry array (Z.of_nat i) w = Done v w.
Proof. intros E. unfold load_entry. apply load_read, Hws, E. Qed.

(** The entries before the interval are not beyond the address, those after it are. *)
Definition bracketed (i h : nat) : Prop :=
  (i <= h <= n)%nat /\
  (i = 0%nat \/ exists v, ws !! i = Some v /\ offset v <= address) /\
  (h = n \/ exists v, ws !! h = Some v /\ address < offset v).

(** The entry whose function holds the address. *)
Definition encloses (i : nat) : Prop :=
  exists v v', ws !! i = Some v /\ ws !! S i = Some v' /\ offset v <= address < offset v'.

Lemma binary_search_loop_run fuel i h :
  bracketed i h -> (h - i < fuel)%nat ->
  (exists k, binary_search_loop fuel address (Z.of_nat n) array (Z.of_nat i) (Z.of_nat h) w =
     Done (Some (Z.of_nat k), Z.of_nat k) w /\ encloses k) \/
  (binary_search_loop fuel address (Z.of_nat n) array (Z.of_nat i) (Z.of_nat h) w =
     Done (Some 0, 0) w /\ exists v, ws !! 0%nat = Some v /\ address < offset v) \/
  (binary_search_loop fuel address (Z.of_nat n) array (Z.of_nat i) (Z.of_nat h) w =
     Done (None, Z.of_nat n - 1) w /\ exists v, ws !! (n - 1)%nat = Some v /\ offset v <= address).
Proof.
  destruct Hcount as [Hn0 Hn]. revert i h. induction fuel as [|fuel IH]; intros i h Hb Hf; [lia|].
  pose proof Hb as (Hih & Hlow & Hhigh). cbn [binary_search_loop].
  destruct (Z.ltb_spec (Z.of_nat i) (Z.of_nat h)) as [Hlt|Hge]; cbn [negb].
  2: { (* the interval is empty: the first entry is beyond the address *)
    assert (h = i) as -> by lia. right. left. destruct Hlow as [->|(v & Ev & Hv)].
    - split; [done|]. destruct Hhigh as [Hh|H]; [lia|done].
    - exfalso. destruct Hhigh as [->|(v' & Ev' & Hv')].
      + by rewrite lookup_ge_None_2 in Ev by lia.
      + rewrite Ev in Ev'. injection Ev' as <-. lia. }
  set (mid := ((i + h) / 2)%nat).
  assert (Hmid : u32 (Z.of_nat i + Z.of_nat h) / 2 = Z.of_nat mid).
  { rewrite wrap_small by lia. unfold mid. rewrite Nat2Z.inj_div, Nat2Z.inj_add. done. }
  assert (Hm : (i <= mid < h)%nat).
  { unfold mid. pose proof (Nat.div_mod_eq (i + h) 2). pose proof (Nat.mod_upper_bound (i + h) 2). lia. }
  rewrite Hmid. destruct (lookup_lt_is_Some_2 ws mid ltac:(lia)) as [v Ev].
  rewrite (bind_done _ _ _ _ _ (load_entry_run mid v Ev)). cbv zeta.
  destruct (Z.ltb_spec address (offset v)) as [Hbeyond|Hwithin].
  - rewrite (proj2 (Z.eqb_neq _ _)) by lia. apply IH; [|lia].
    split_and!; [lia|lia|done|]. right. by exists v.
  - destruct (Z.eqb_spec (Z.of_nat mid) (Z.of_nat n - 1)) as [Elast|Hne].
    { right. right. rewrite Elast. split; [done|]. exists v. by replace (n - 1)%nat with mid by lia. }
    destruct (lookup_lt_is_Some_2 ws (S mid) ltac:(lia)) as [v' Ev'].
    replace (Z.of_nat mid + 1) with (Z.of_nat (S mid)) by lia.
    rewrite (bind_done _ _ _ _ _ (load_entry_run (S mid) v' Ev')).
    destruct (Z.ltb_spec address (offset v')) as [Hfound|Hafter].
    + left. exists mid. split; [done|]. by exists v, v'.
    + apply IH; [|lia]. split_and!; [lia|lia|right; by exists v'|done].
Qed.

(** The outcome by the offsets: the enclosing entry, the first entry when the
    address is before all of them, failure from the last entry on. *)
Lemma binary_search_run first last :
  0 < array -> address <> 0 -> ws !! 0%nat = Some first -> ws !! (n - 1)%nat = Some last ->
  exists found k,
    FIRCLSCompactUnwindBinarySearchSecondLevel address 0 (Z.of_nat n) array w =
      Done (found, Z.of_nat k) w /\
    if address <? offset first then found = true /\ k = 0%nat
    else if address <? offset last then found = true /\ encloses k
    else found = false /\ k = (n - 1)%nat.
Proof.
  intros Harr Haddr Efirst Elast. destruct Hcount as [Hn0 Hn].
  assert (Hle : forall i j v v', ws !! i = Some v -> ws !! j = Some v' -> (i <= j)%nat -> offset v <= offset v').
  { intros i j v v' Ei Ej. apply Hsorted; by rewrite list_lookup_fmap, ?Ei, ?Ej. }
  unfold FIRCLSCompactUnwindBinarySearchSecondLevel.
  rewrite !(proj2 (Z.eqb_neq _ _)) by lia. rewrite Nat2Z.id.
  destruct (binary_search_loop_run (S n) 0 n) as [(k & E & Hk)|[(E & v & Ev & Hv)|(E & v & Ev & Hv)]];
    [split_and!; [lia|lia|by left|by left]|lia|..]; change (Z.of_nat 0) with 0 in E;
    rewrite (bind_done _ _ _ _ _ E); cbv beta iota.
  - destruct Hk as (v & v' & Ev & Ev' & Hv). pose proof (lookup_lt_Some _ _ _ Ev').
    pose proof (Hle 0%nat k _ _ Efirst Ev ltac:(lia)). pose proof (Hle (S k) (n - 1)%nat _ _ Ev' Elast ltac:(lia)).
    rewrite (proj2 (Z.ltb_ge address (offset first))), (proj2 (Z.ltb_lt address (offset last))) by lia.
    exists true, k. rewrite (proj2 (Z.ltb_lt (Z.of_nat k) _)) by lia. split_and!; [done..|]. by exists v, v'.
  - rewrite Efirst in Ev. injection Ev as <-. rewrite (proj2 (Z.ltb_lt address _)) by done.
    exists true, 0%nat. by rewrite (proj2 (Z.ltb_lt 0 _)) by lia.
  - rewrite Elast in Ev. injection Ev as <-. pose proof (Hle 0%nat (n - 1)%nat _ _ Efirst Elast ltac:(lia)).
    rewrite !(proj2 (Z.ltb_ge address _)) by lia. exists false, (n - 1)%nat.
    by replace (Z.of_nat (n - 1)) with (Z.of_nat n - 1) by lia.
Qed.

(** The enclosing entry is unique. *)
Lemma encloses_unique i j : encloses i -> encloses j -> i = j.
Proof.
  intros (v1 & v1' & E1 & E1' & H1) (v2 & v2' & E2 & E2' & H2).
  assert (Hle : forall i j v v', ws !! i = Some v -> ws !! j = Some v' -> (i <= j)%nat -> offset v <= offset v').
  { intros i' j' v v' Ei Ej. apply Hsorted; by rewrite list_lookup_fmap, ?Ei, ?Ej. }
  destruct (Nat.lt_trichotomy i j) as [Hlt|[->|Hgt]]; [|done|].
  - pose proof (Hle (S i) j _ _ E1' E2 Hlt). lia.
  - pose proof (Hle (S j) i _ _ E2' E1 Hgt). lia.
Qed.

End Page.

(** ** The first level *)

(** The entries of the first-level index in memory. *)
Definition index_at (m : gmap Z Z) (a : Z) (es : list unwind_info_section_header_index_entry) : Prop :=
  forall i e, es !! i = Some e ->
    read_le m 4 (a + Z.of_nat i * index_entry_size + functionOffset_off) = Some (functionOffset e) /\
    read_le m 4 (a + Z.of_nat i * index_entry_size + secondLevelPagesSectionOffset_off) =
      Some (secondLevelPagesSectionOffset e).

(** The first entry whose range holds the address, as a function. *)
Fixpoint find_index (es : list unwind_info_section_header_index_entry) (address : Z) :
    option (unwind_info_section_header_index_entry * Z) :=
  match es with
  | e :: ((e' :: _) as es') =>
      if (functionOffset e <=? address) && (address <? functionOffset e')
      then Some (e, functionOffset e') else find_index es' address
  | _ => None
  end.

Lemma first_level_loop_run es k a address w :
  index_at (mem w) a es -> (k < length es)%nat ->
  first_level_loop (length es - k - 1) (Z.of_nat k) a address w = Done (find_index (drop k es) address) w.
Proof.
  intros Hes. remember (length es - k - 1)%nat as d eqn:Ed. revert k Ed.
  induction d as [|d IH]; intros k Ed Hk.
  - destruct (lookup_lt_is_Some_2 es k Hk) as [e E]. rewrite (drop_S _ _ _ E).
    rewrite (drop_ge es (S k)) by lia. done.
  - destruct (lookup_lt_is_Some_2 es k Hk) as [e E].
    destruct (lookup_lt_is_Some_2 es (S k) ltac:(lia)) as [e' E'].
    destruct (Hes k e E) as [R1 R2]. destruct (Hes (S k) e' E') as [R1' _].
    cbn [first_level_loop]. unfold load_function_offset, load_index_entry.
    rewrite (bind_done _ _ _ _ _ (load_read _ _ _ _ R1)).
    replace (Z.of_nat k + 1) with (Z.of_nat (S k)) by lia.
    rewrite (bind_done _ _ _ _ _ (load_read _ _ _ _ R1')).
    rewrite (drop_S _ _ _ E), (drop_S _ _ _ E'). cbn [find_index]. destruct (_ && _).
    + rewrite bind_assoc, (bind_done _ _ _ _ _ (load_read _ _ _ _ R1)).
      rewrite bind_assoc, (bind_done _ _ _ _ _ (load_read _ _ _ _ R2)). by destruct e.
    + rewrite IH by lia. by rewrite (drop_S _ _ _ E').
Qed.

(** In an ordered index, the entry found is the one whose range holds the address. *)
Lemma find_index_ordered es k e e' address :
  ordered (functionOffset <$> es) -> es !! k = Some e -> es !! S k = Some e' ->
  functionOffset e <= address < functionOffset e' ->
  find_index es address = Some (e, functionOffset e').
Proof.
  revert k. induction es as [|x es IH]; intros k Hs E E' Ha; [done|]. destruct k as [|k].
  - injection E as ->. destruct es as [|y es]; [done|]. injection E' as ->. cbn [find_index].
    by rewrite (proj2 (Z.leb_le _ _)), (proj2 (Z.ltb_lt _ _)) by lia.
  - destruct es as [|y es]; [done|]. cbn [find_index].
    assert (Hy : functionOffset y <= functionOffset e).
    { apply (Hs 1%nat (S k)); [done|by rewrite list_lookup_fmap, E|lia]. }
    rewrite (proj2 (Z.ltb_ge address _)), andb_false_r by lia. apply (IH k); try done.
    intros i j a b Ei Ej Hij. apply (Hs (S i) (S j)); [done|done|lia].
Qed.

(** ** The lookup of a program counter *)

(** The table in memory that a context describes: the first-level index. *)
Record indexed (m : gmap Z Z) (c : FIRCLSCompactUnwindContext)
    (es : list unwind_info_section_header_index_entry) : Prop := {
  indexed_count : indexCount (unwindHeader c) = Z.of_nat (length es);
  indexed_address : 0 < unwindInfo c + indexSectionOffset (unwindHeader c) < 2 ^ 64;
  indexed_at : index_at m (unwindInfo c + indexSectionOffset (unwindHeader c)) es;
  indexed_ordered : ordered (functionOffset <$> es)
}.

(** A compressed page at [ptr] with the entries [ws]. *)
Record page_at (m : gmap Z Z) (ptr : Z) (ws : list Z) : Prop := {
  page_kind : read_le m 4 ptr = Some UNWIND_SECOND_LEVEL_COMPRESSED;
  page_count : read_le m 2 (ptr + entryCount_off) = Some (Z.of_nat (length ws));
  page_entries : exists off, read_le m 2 (ptr + entryPageOffset_off) = Some off /\
    0 < ptr + off /\ words_at m (ptr + off) ws;
  page_ordered : ordered (offset <$> ws);
  page_size : Z.of_nat (length ws) < 2 ^ 16
}.

(** The encoding of an entry: from the common ones, or from the page's. *)
Definition encoding_at (m : gmap Z Z) (c : FIRCLSCompactUnwindContext) (ptr w enc : Z) : Prop :=
  let i := UNWIND_INFO_COMPRESSED_ENTRY_ENCODING_INDEX w in
  let common := commonEncodingsArrayCount (unwindHeader c) in
  if i <? common then
    let a := unwindInfo c + commonEncodingsArraySectionOffset (unwindHeader c) in
    0 <= a < 2 ^ 64 /\ read_le m 4 (a + i * 4) = Some enc
  else
    0 <= i - common < 2 ^ 32 /\
    exists off, read_le m 2 (ptr + encodingsPageOffset_off) = Some off /\
      read_le m 4 (ptr + off + (i - common) * 4) = Some enc.

(** The first level finds the entry of the range of the program counter. *)
Lemma first_level_run c es i e e' pc w :
  indexed (mem w) c es -> es !! i = Some e -> es !! S i = Some e' ->
  loadAddress c + functionOffset e <= pc < loadAddress c + functionOffset e' ->
  0 <= loadAddress c -> 0 <= functionOffset e -> pc < 2 ^ 64 ->
  FIRCLSCompactUnwindLookupFirstLevel (Some c) pc w =
    Done (true, Some (context_with_index c e (functionOffset e'))) w.
Proof.
  intros [Hc Ha Hat Hord] E E' Hpc Hl Hf H64. pose proof (lookup_lt_Some _ _ _ E') as Hi.
  unfold FIRCLSCompactUnwindLookupFirstLevel, FIRCLSCompactUnwindGetIndexData.
  rewrite Hc, (proj2 (Z.ltb_ge _ _)), (proj2 (Z.ltb_ge pc _)) by lia. cbv zeta.
  rewrite (wrap_small 64 (unwindInfo c + _)), (proj2 (Z.eqb_neq _ 0)), wrap_small by lia.
  pose proof (first_level_loop_run es 0 _ (pc - loadAddress c) w Hat ltac:(lia)) as Hrun.
  replace (Z.to_nat (Z.of_nat (length es) - 1)) with (length es - 0 - 1)%nat by lia.
  rewrite (bind_done _ _ _ _ _ Hrun), drop_0.
  rewrite (find_index_ordered es i e e') by (done || lia). done.
Qed.

(** The parts of the second level past the search. *)
Lemma compressed_entry_run c ptr array ws j v v' enc pc w :
  words_at (mem w) array ws -> Z.of_nat (length ws) < 2 ^ 16 ->
  ws !! j = Some v -> ws !! S j = Some v' -> encoding_at (mem w) c ptr v enc ->
  0 <= loadAddress c -> 0 <= functionOffset (indexHeader c) -> 0 <= offset v -> 0 <= offset v' ->
  functionOffset (indexHeader c) + offset v' < 2 ^ 32 ->
  loadAddress c + functionOffset (indexHeader c) + offset v < 2 ^ 64 ->
  loadAddress c + functionOffset (indexHeader c) + offset v' < 2 ^ 64 ->
  loadAddress c + functionOffset (indexHeader c) + offset v <= pc <
    loadAddress c + functionOffset (indexHeader c) + offset v' ->
  compressed_entry c pc ptr array (Z.of_nat (length ws)) (Z.of_nat j) w =
    Done (negb (enc =? 0),
          CompactResult enc (loadAddress c + functionOffset (indexHeader c) + offset v)
            (loadAddress c + functionOffset (indexHeader c) + offset v') 0 0) w.
Proof.
  intros Hws Hn E E' Henc H1 H2 H3 H4 H5 H6 H7 Hpc. pose proof (lookup_lt_Some _ _ _ E') as Hj.
  unfold compressed_entry, FIRCLSCompactUnwindGetIndexFunctionOffset.
  rewrite (bind_done _ _ _ _ _ (load_entry_run w array ws Hws j v E)). cbv zeta.
  rewrite (wrap_small 32 (_ - 1)), (proj2 (Z.ltb_lt (Z.of_nat j) _)) by lia.
  replace (Z.of_nat j + 1) with (Z.of_nat (S j)) by lia.
  rewrite bind_assoc, (bind_done _ _ _ _ _ (load_entry_run w array ws Hws (S j) v' E')), bind_ret.
  rewrite (wrap_small 32 (offset v' + _)), (wrap_small 64 (loadAddress c + (_ + _))) by lia.
  rewrite (wrap_small 64 (loadAddress c + functionOffset _)), wrap_small by lia.
  rewrite (proj2 (Z.ltb_ge pc _)), (proj2 (Z.leb_gt _ pc)) by lia. cbn [orb].
  assert (Hload : (if UNWIND_INFO_COMPRESSED_ENTRY_ENCODING_INDEX v <?
                      commonEncodingsArrayCount (unwindHeader c)
     then load 4 (FIRCLSCompactUnwindGetCommonEncodings c + UNWIND_INFO_COMPRESSED_ENTRY_ENCODING_INDEX v * 4)
     else
       encodingsPageOffset ← load 2 (ptr + encodingsPageOffset_off);
       load 4 (ptr + encodingsPageOffset +
               u32 (UNWIND_INFO_COMPRESSED_ENTRY_ENCODING_INDEX v - commonEncodingsArrayCount (unwindHeader c)) * 4)) w
    = Done enc w).
  { unfold encoding_at in Henc. cbv zeta in Henc. destruct (_ <? _).
    - destruct Henc as [Ha Hr]. unfold FIRCLSCompactUnwindGetCommonEncodings. rewrite wrap_small by lia.
      by apply load_read.
    - destruct Henc as [Hi (off & Ho & Hr)]. rewrite (bind_done _ _ _ _ _ (load_read _ _ _ _ Ho)).
      rewrite wrap_small by lia. by apply load_read. }
  rewrite (bind_done _ _ _ _ _ Hload).
  by replace (offset v + (loadAddress c + functionOffset (indexHeader c)))
    with (loadAddress c + functionOffset (indexHeader c) + offset v) by lia;
  replace (loadAddress c + (offset v' + functionOffset (indexHeader c)))
    with (loadAddress c + functionOffset (indexHeader c) + offset v') by lia.
Qed.

(** A page of the second level, for a context that the first level has set. *)
Section SecondLevel.
Context (c : FIRCLSCompactUnwindContext) (ws : list Z) (pc : Z) (w : world).
Abbreviation ptr := (unwindInfo c + secondLevelPagesSectionOffset (indexHeader c)).
Abbreviation start_ := (loadAddress c + functionOffset (indexHeader c)).
Hypothesis Hptr : 0 < ptr < 2 ^ 64.
Hypothesis Hpage : page_at (mem w) ptr ws.
Hypothesis Hstart : 0 <= start_ < pc /\ pc < 2 ^ 64.
Hypothesis Hregular : UNWIND_SECOND_LEVEL_REGULAR <> UNWIND_SECOND_LEVEL_COMPRESSED.

(** The search, whose outcome decides the lookup. *)
Lemma second_level_run result :
  exists array,
  0 < array /\ words_at (mem w) array ws /\
  FIRCLSCompactUnwindLookupSecondLevel (Some c) pc (Some result) w =
    ('(found, index) ← FIRCLSCompactUnwindBinarySearchSecondLevel (pc - start_) 0
                         (Z.of_nat (length ws)) array;
     if negb found then mret (false, Some zero_result)
     else
       '(ok, r) ← compressed_entry c pc ptr array (Z.of_nat (length ws)) index;
       mret (ok, Some r)) w.
Proof.
  destruct Hpage as [Hk Hc (off & Ho & Hoff & Hws) _ Hn]. exists (ptr + off). split_and!; [done|done|].
  unfold FIRCLSCompactUnwindLookupSecondLevel, FIRCLSCompactUnwindGetSecondLevelPageKind,
    FIRCLSCompactUnwindGetSecondLevelData.
  rewrite (wrap_small 64 ptr) by lia. rewrite (bind_done _ _ _ _ _ (load_read _ _ _ _ Hk)).
  rewrite (proj2 (Z.eqb_neq UNWIND_SECOND_LEVEL_COMPRESSED _)), Z.eqb_refl by congruence.
  unfold FIRCLSCompactUnwindLookupSecondLevelCompressed, FIRCLSCompactUnwindGetSecondLevelData.
  rewrite (wrap_small 64 ptr), (proj2 (Z.eqb_neq _ 0)) by lia. cbv zeta.
  rewrite (bind_done _ _ _ _ _ (load_read _ _ _ _ Ho)), (bind_done _ _ _ _ _ (load_read _ _ _ _ Hc)).
  unfold FIRCLSCompactUnwindGetTargetAddress, FIRCLSCompactUnwindGetIndexFunctionOffset.
  rewrite (wrap_small 64 start_), (proj2 (Z.leb_gt pc _)), wrap_small by lia. done.
Qed.

(** A function that is not the last of its page is found. *)
Lemma second_level_found result j v v' enc :
  ws !! j = Some v -> ws !! S j = Some v' -> encoding_at (mem w) c ptr v enc ->
  0 <= loadAddress c -> 0 <= functionOffset (indexHeader c) -> 0 <= offset v ->
  functionOffset (indexHeader c) + offset v' < 2 ^ 32 -> start_ + offset v' < 2 ^ 64 ->
  start_ + offset v <= pc < start_ + offset v' ->
  FIRCLSCompactUnwindLookupSecondLevel (Some c) pc (Some result) w =
    Done (negb (enc =? 0), Some (CompactResult enc (start_ + offset v) (start_ + offset v') 0 0)) w.
Proof.
  intros E E' Henc H1 H2 H3 H4 H5 Hpc. destruct (second_level_run result) as (array & Harr & Hws & ->).
  destruct Hpage as [_ _ _ Hord Hn]. pose proof (lookup_lt_Some _ _ _ E') as Hj.
  destruct (lookup_lt_is_Some_2 ws 0 ltac:(lia)) as [first Efirst].
  destruct (lookup_lt_is_Some_2 ws (length ws - 1) ltac:(lia)) as [last Elast].
  assert (Hle : forall i j v v', ws !! i = Some v -> ws !! j = Some v' -> (i <= j)%nat -> offset v <= offset v').
  { intros i' j' u u' Ei Ej. apply Hord; by rewrite list_lookup_fmap, ?Ei, ?Ej. }
  pose proof (Hle 0%nat j _ _ Efirst E ltac:(lia)). pose proof (Hle (S j) (length ws - 1)%nat _ _ E' Elast ltac:(lia)).
  destruct (binary_search_run w array ws (pc - start_) Hws Hord ltac:(lia) first last Harr ltac:(lia) Efirst Elast)
    as (found & k & Es & Hk).
  rewrite (proj2 (Z.ltb_ge _ (offset first))), (proj2 (Z.ltb_lt _ (offset last))) in Hk by lia.
  destruct Hk as [-> Hk]. assert (k = j) as ->.
  { apply (encloses_unique ws (pc - start_) Hord); [lia|done|]. exists v, v'. split_and!; try done; lia. }
  rewrite (bind_done _ _ _ _ _ Es). cbn [negb].
  by rewrite (bind_done _ _ _ _ _ (compressed_entry_run c ptr array ws j v v' enc pc w Hws ltac:(lia) E E' Henc
    H1 H2 H3 ltac:(lia) H4 ltac:(lia) H5 Hpc)).
Qed.

(** The last function of a page is not. *)
Lemma second_level_last result last :
  ws !! (length ws - 1)%nat = Some last -> start_ + offset last <= pc ->
  FIRCLSCompactUnwindLookupSecondLevel (Some c) pc (Some result) w = Done (false, Some zero_result) w.
Proof.
  intros Elast Hpc. destruct (second_level_run result) as (array & Harr & Hws & ->).
  destruct Hpage as [_ _ _ Hord Hn]. pose proof (lookup_lt_Some _ _ _ Elast) as Hj.
  destruct (lookup_lt_is_Some_2 ws 0 ltac:(lia)) as [first Efirst].
  assert (offset first <= offset last).
  { apply (Hord 0%nat (length ws - 1)%nat); [by rewrite list_lookup_fmap, Efirst|by rewrite list_lookup_fmap, Elast|lia]. }
  destruct (binary_search_run w array ws (pc - start_) Hws Hord ltac:(lia) first last Harr ltac:(lia) Efirst Elast)
    as (found & k & Es & Hk).
  rewrite !(proj2 (Z.ltb_ge (pc - start_) _)) in Hk by lia. destruct Hk as [-> _].
  by rewrite (bind_done _ _ _ _ _ Es).
Qed.

End SecondLevel.
End Search.
