(* ===== verification/Unwind.v ===== *)
(** Crashlytics' stack unwinder (FIRCLSUnwind.c), the search of the
    image of an address (FIRCLSBinaryImage.m), and the stack trace of a thread
    as the report records it (FIRCLSProcess.c).

    The table of images is state of the process that the unwinder reads; the
    report file is the list of the entries written to it. The logs are not
    modelled, but the memory that their arguments read is. *)
From S2P Require Import Prelude Memory DwarfData ThreadState DwarfExpression DwarfUnwind.
From S2P Require Import CompactUnwind.

(** ** The images of the process *)

(** [baseAddress], [size], [ehFrame], [unwindInfo], [crashInfo]. *)
Record FIRCLSBinaryImageRuntimeNode := ImageNode {
  baseAddress : Z;
  node_size : Z;
  node_ehFrame : Z;
  node_unwindInfo : Z;
  node_crashInfo : Z
}.

Definition CLS_BINARY_IMAGE_RUNTIME_NODE_COUNT : Z := 1024.
Definition runtime_node_size : Z := 40.

(** [FIRCLSContextIsInitialized()], and the address and the contents of
    [_firclsContext.writable->binaryImage.nodes]. *)
Record image_table := ImageTable {
  context_initialized : bool;
  nodes_addr : Z;
  nodes : list FIRCLSBinaryImageRuntimeNode
}.

(** [for (i = 0; i < CLS_BINARY_IMAGE_RUNTIME_NODE_COUNT; ++i)] *)
Fixpoint find_image_loop (nodes : list FIRCLSBinaryImageRuntimeNode) (node_addr address : Z) :
    option FIRCLSBinaryImageRuntimeNode :=
  match nodes with
  | [] => None
  | node :: nodes' =>
      if negb (FIRCLSIsValidPointer node_addr) then
        find_image_loop nodes' (node_addr + runtime_node_size) address
      else if (baseAddress node <=? address) &&
              (address <? u64 (baseAddress node + node_size node)) then Some node
      else find_image_loop nodes' (node_addr + runtime_node_size) address
  end.

(** The image that is copied out. *)
Definition FIRCLSBinaryImageSafeFindImageForAddress (t : image_table) (address : Z) :
    option FIRCLSBinaryImageRuntimeNode :=
  if negb (context_initialized t) then None
  else if address =? 0 then None
  else if nodes_addr t =? 0 then None
  else find_image_loop (nodes t) (nodes_addr t) address.

Definition FIRCLSBinaryImageSafeHasUnwindInfo (image : FIRCLSBinaryImageRuntimeNode) : bool :=
  FIRCLSIsValidPointer (node_unwindInfo image).

(** ** The unwind context *)

Section Unwinder.
Context {TS : ThreadState}.

(** TARGET_OS_EMBEDDED *)
Definition FIRCLSUnwindMaxFrames : Z := 100000.
Definition FIRCLSUnwindInfiniteRecursionCountThreshold : Z := 10.

Record FIRCLSUnwindContext := UnwindContext {
  registers : option thread_context;
  frameCount : Z;
  compactUnwindState : option FIRCLSCompactUnwindContext;
  lastFramePC : Z;
  repeatCount : Z
}.

Definition with_registers (c : FIRCLSUnwindContext) (r : option thread_context) :
    FIRCLSUnwindContext :=
  UnwindContext r (frameCount c) (compactUnwindState c) (lastFramePC c) (repeatCount c).

Definition with_compact (c : FIRCLSUnwindContext) (s : option FIRCLSCompactUnwindContext) :
    FIRCLSUnwindContext :=
  UnwindContext (registers c) (frameCount c) s (lastFramePC c) (repeatCount c).

(** The members of a context are at valid addresses: they are [Some]. *)
Definition FIRCLSUnwindInit (threadContext : thread_context) : FIRCLSUnwindContext :=
  UnwindContext (Some threadContext) 0 (Some zero_context) 0 0.

Definition FIRCLSUnwindGetPC (c : FIRCLSUnwindContext) : Z := ThreadContextGetPC (registers c).

Definition FIRCLSUnwindGetStackPointer (c : FIRCLSUnwindContext) : Z :=
  ThreadContextGetStackPointer (registers c).

Definition FIRCLSUnwindGetFramePointer (c : FIRCLSUnwindContext) : Z :=
  ThreadContextGetFramePointer (registers c).

Definition FIRCLSUnwindGetFrameRepeatCount (c : FIRCLSUnwindContext) : Z := repeatCount c.

Definition FIRCLSUnwindContextHasValidPCAndSP (c : FIRCLSUnwindContext) : bool :=
  FIRCLSIsValidPointer (FIRCLSUnwindGetPC c) && FIRCLSIsValidPointer (FIRCLSUnwindGetStackPointer c).

Context {CE : CompactEncoding} {VM : VmRead} {UA : UnwindArch}.
Context (images : image_table).

(** ** Strategies *)

(** The local [image] is at a valid address. *)
Definition FIRCLSUnwindWithCompactUnwindInfo (c : FIRCLSUnwindContext) :
    M (bool * FIRCLSUnwindContext) :=
  let pc := FIRCLSUnwindGetPC c in
  match FIRCLSBinaryImageSafeFindImageForAddress images pc with
  | None => mret (false, c)
  | Some image =>
      if negb (FIRCLSBinaryImageSafeHasUnwindInfo image) then mret (false, c)
      else
        '(ok, compact) ← FIRCLSCompactUnwindInit (compactUnwindState c) (node_unwindInfo image)
                           (node_ehFrame image) (baseAddress image);
        let c := with_compact c compact in
        if negb ok then mret (false, c)
        else
          '(ok, compact, regs) ←
            FIRCLSCompactUnwindLookupAndCompute (compactUnwindState c) (registers c);
          mret (ok, with_registers (with_compact c compact) regs)
  end.

Definition FIRCLSUnwindNextFrameUsingAllStrategies (c : FIRCLSUnwindContext) :
    M (bool * FIRCLSUnwindContext) :=
  if FIRCLSUnwindMaxFrames <=? frameCount c then mret (false, c)
  else
    let pc := FIRCLSUnwindGetPC c in
    let '(ok, pc, c) :=
      if 0 <? frameCount c then
        let pc := u64 (pc - 1) in
        let '(ok, regs) := ThreadContextSetPC (registers c) pc in
        (ok, pc, with_registers c regs)
      else (true, pc, c) in
    if negb ok then mret (false, c)
    else if negb (FIRCLSIsValidPointer pc) then mret (false, c)
    else if frameCount c =? 0 then mret (true, c)
    else
      '(ok, c) ← FIRCLSUnwindWithCompactUnwindInfo c;
      if ok : bool then mret (true, c)
      else if FIRCLSUnwindGetFramePointer c =? 0 then
        let '(ok, regs) := ThreadContextSetPC (registers c) 0 in
        mret (ok, with_registers c regs)
      else
        '(ok, regs) ← UnwindWithFramePointer (registers c) (frameCount c =? 1);
        mret (ok, with_registers c regs).

(** The counts are 32-bit integers. *)
Definition FIRCLSUnwindNextFrame (c : FIRCLSUnwindContext) : M (bool * FIRCLSUnwindContext) :=
  if negb (FIRCLSUnwindContextHasValidPCAndSP c) then mret (false, c)
  else
    '(ok, c) ← FIRCLSUnwindNextFrameUsingAllStrategies c;
    if negb ok then mret (false, c)
    else
      let pc := FIRCLSUnwindGetPC c in
      let sp := FIRCLSUnwindGetStackPointer c in
      if negb (FIRCLSIsValidPointer pc) then mret (false, c)
      else if negb (FIRCLSIsValidPointer sp) then mret (false, c)
      else
        let repeat := if lastFramePC c =? pc then u32 (repeatCount c + 1) else 0 in
        mret (true, UnwindContext (registers c) (u32 (frameCount c + 1)) (compactUnwindState c) pc repeat).

(** ** Stack scanning *)

Definition FIRCLSUnwindIsAddressExecutable (address : Z) : bool :=
  match FIRCLSBinaryImageSafeFindImageForAddress images address with Some _ => true | None => false end.

(** [do {...} while (start < end)], eight bytes at a time. The word at [start] is
    an argument of the debug log: it is read before [start] is checked. *)
Fixpoint first_executable_loop (fuel : nat) (start end_ : Z) : M (option Z) :=
  match fuel with
  | O => timeout
  | S fuel' =>
      _ ← load 8 start;
      let next := u64 (start + 8) in
      let again : M (option Z) := if next <? end_ then first_executable_loop fuel' next end_ else mret None in
      if FIRCLSIsValidPointer start then
        bytes ← FIRCLSReadMemory start 8;
        match bytes with
        | None => mret None
        | Some bs =>
            let address := le_val bs in
            if FIRCLSUnwindIsAddressExecutable address then mret (Some address) else again
        end
      else again
  end.

(** The address found; [None] is false with a found address of zero. *)
Definition FIRCLSUnwindFirstExecutableAddress (start end_ : Z) : M (option Z) :=
  first_executable_loop (S (Z.to_nat ((end_ - start) / 8 + 1))) start end_.

(** ** The stack trace of a thread *)

(** The local variables of [FIRCLSProcessRecordThread], and the entries of the
    array "stacktrace" that are in the file. *)
Record trace_state := TraceState {
  unwind_context : FIRCLSUnwindContext;
  repeatedPC : Z;
  repeatedPCCount : Z;
  entries : list Z
}.

(** One round of the loop, past the call of [FIRCLSUnwindNextFrame]. *)
Definition record_frame (s : trace_state) : trace_state :=
  let pc := FIRCLSUnwindGetPC (unwind_context s) in
  let frameCount := FIRCLSUnwindGetFrameRepeatCount (unwind_context s) in
  if (repeatedPC s =? pc) && negb (repeatedPC s =? 0) then
    TraceState (unwind_context s) (repeatedPC s) frameCount (entries s)
  else if (FIRCLSUnwindInfiniteRecursionCountThreshold <=? frameCount) && (repeatedPC s =? 0) then
    TraceState (unwind_context s) pc (repeatedPCCount s) (entries s)
  else
    TraceState (unwind_context s) (repeatedPC s) (repeatedPCCount s) (entries s ++ [pc]).

(** [while (FIRCLSUnwindNextFrame(&unwindContext)) {...}] *)
Fixpoint record_frames_loop (fuel : nat) (s : trace_state) : M trace_state :=
  match fuel with
  | O => timeout
  | S fuel' =>
      '(ok, c) ← FIRCLSUnwindNextFrame (unwind_context s);
      let s := TraceState c (repeatedPC s) (repeatedPCCount s) (entries s) in
      if negb ok then mret s
      else record_frames_loop fuel' (record_frame s)
  end.

(** The stack trace of a thread with the registers [context]: the entries, and
    the repeated address and its count when there is one. *)
Definition record_stacktrace (context : thread_context) : M (list Z * option (Z * Z)) :=
  s ← record_frames_loop (S (Z.to_nat FIRCLSUnwindMaxFrames))
        (TraceState (FIRCLSUnwindInit context) 0 0 []);
  mret (entries s, if negb (repeatedPC s =? 0) then Some (repeatedPC s, repeatedPCCount s) else None).

End Unwinder.
