(* ===== verification/X86Unwind.v ===== *)
(** What a compact unwind encoding means on x86_64, and unwinding without
    tables (FIRCLSUnwind_x86.c), with the encoding of
    mach-o/compact_unwind_encoding.h as the parameter [X86Encoding]; the x86_64
    implementation of [UnwindArch]. *)
From S2P Require Import Prelude Memory DwarfData ThreadState X86State DwarfExpression DwarfUnwind.
From S2P Require Import CompactUnwind Unwind.

#[local] Existing Instance x86_64.

Class X86Encoding := {
  UNWIND_X86_64_MODE_MASK : Z;
  UNWIND_X86_64_MODE_RBP_FRAME : Z;
  UNWIND_X86_64_MODE_STACK_IMMD : Z;
  UNWIND_X86_64_MODE_STACK_IND : Z;
  UNWIND_X86_64_MODE_DWARF : Z;
  UNWIND_X86_64_FRAMELESS_STACK_SIZE : Z;
  UNWIND_X86_64_FRAMELESS_STACK_ADJUST : Z;
  UNWIND_X86_64_FRAMELESS_STACK_REG_COUNT : Z;
  UNWIND_X86_64_FRAMELESS_STACK_REG_PERMUTATION : Z;
  UNWIND_X86_64_DWARF_SECTION_OFFSET : Z;
  UNWIND_X86_64_REG_RBP : Z
}.

(** [__builtin_ctz] of a positive number. *)
Definition ctz (x : Z) : Z := Z.log2 (Z.land x (- x)).

Definition GET_BITS_WITH_MASK (value mask : Z) : Z :=
  Z.shiftr (Z.land value mask) (if mask =? 0 then 0 else ctz mask).

(** The names of FIRCLSUnwind_x86.h. *)
Abbreviation CLS_X86_MODE_MASK := UNWIND_X86_64_MODE_MASK.
Abbreviation CLS_X86_MODE_BP_FRAME := UNWIND_X86_64_MODE_RBP_FRAME.
Abbreviation CLS_X86_MODE_STACK_IMMD := UNWIND_X86_64_MODE_STACK_IMMD.
Abbreviation CLS_X86_MODE_STACK_IND := UNWIND_X86_64_MODE_STACK_IND.
Abbreviation CLS_X86_MODE_DWARF := UNWIND_X86_64_MODE_DWARF.
Abbreviation CLS_X86_FRAMELESS_STACK_SIZE := UNWIND_X86_64_FRAMELESS_STACK_SIZE.
Abbreviation CLS_X86_FRAMELESS_STACK_ADJUST := UNWIND_X86_64_FRAMELESS_STACK_ADJUST.
Abbreviation CLS_X86_FRAMELESS_STACK_REG_COUNT := UNWIND_X86_64_FRAMELESS_STACK_REG_COUNT.
Abbreviation CLS_X86_FRAMELESS_STACK_REG_PERMUTATION := UNWIND_X86_64_FRAMELESS_STACK_REG_PERMUTATION.
Abbreviation CLS_X86_DWARF_SECTION_OFFSET := UNWIND_X86_64_DWARF_SECTION_OFFSET.
Abbreviation CLS_X86_REG_RBP := UNWIND_X86_64_REG_RBP.

(** ** Registers of a frameless function

    The arrays have six entries. The assignments of a case of the switch are a
    division each; what it does not assign keeps its value. *)

(** [permutatedRegisters[i] = permutation / d; permutation -= ...] for each
    divisor [d], and the rest of the permutation at the end. *)
Fixpoint divide_permutation (permutation : Z) (divisors : list Z) : list Z :=
  match divisors with
  | [] => [permutation]
  | d :: divisors => permutation / d :: divide_permutation (u32 (permutation - permutation / d * d)) divisors
  end.

Section X86.
Context {XE : X86Encoding} {VM : VmRead}.

Definition FIRCLSCompactUnwindDecompressPermutation (encoding : Z) (permutatedRegisters : list Z) :
    bool * list Z :=
  let regCount := GET_BITS_WITH_MASK encoding CLS_X86_FRAMELESS_STACK_REG_COUNT in
  let permutation := GET_BITS_WITH_MASK encoding CLS_X86_FRAMELESS_STACK_REG_PERMUTATION in
  if regCount =? 6 then (true, divide_permutation permutation [120; 24; 6; 2] ++ [0])
  else if regCount =? 5 then
    (true, divide_permutation permutation [120; 24; 6; 2] ++ drop 5 permutatedRegisters)
  else if regCount =? 4 then
    (true, divide_permutation permutation [60; 12; 3] ++ drop 4 permutatedRegisters)
  else if regCount =? 3 then
    (true, divide_permutation permutation [20; 4] ++ drop 3 permutatedRegisters)
  else if regCount =? 2 then
    (true, divide_permutation permutation [5] ++ drop 2 permutatedRegisters)
  else if regCount =? 1 then (true, divide_permutation permutation [] ++ drop 1 permutatedRegisters)
  else if regCount =? 0 then (true, permutatedRegisters)
  else (false, permutatedRegisters).

(** [for (int u = 1; u < 7; ++u)] with the numbers [us] to go: the number that
    is taken. *)
Fixpoint renumber_loop (us : list Z) (used : list bool) (renum target : Z) : option Z :=
  match us with
  | [] => None
  | u :: us =>
      if default false (used !! Z.to_nat u) then renumber_loop us used renum target
      else if renum =? target then Some u
      else renumber_loop us used (renum + 1) target
  end.

(** [for (uint32_t i = 0; i < regCount; ++i)] with [n] rounds to go. *)
Fixpoint remap_loop (n : nat) (i : nat) (permutatedRegisters savedRegisters : list Z) (used : list bool) :
    M (list Z) :=
  match n with
  | O => mret savedRegisters
  | S n' =>
      target ← of_option (permutatedRegisters !! i);
      match renumber_loop (seqZ 1 6) used 0 target with
      | None => remap_loop n' (S i) permutatedRegisters savedRegisters used
      | Some u =>
          remap_loop n' (S i) permutatedRegisters (<[i := u]> savedRegisters) (<[Z.to_nat u := true]> used)
      end
  end.

Definition FIRCLSCompactUnwindRemapRegisters (encoding : Z)
    (permutatedRegisters savedRegisters : list Z) : M (bool * list Z) :=
  let regCount := GET_BITS_WITH_MASK encoding CLS_X86_FRAMELESS_STACK_REG_COUNT in
  if 6 <? regCount then mret (false, savedRegisters)
  else
    savedRegisters ← remap_loop (Z.to_nat regCount) 0 permutatedRegisters savedRegisters (replicate 7 false);
    mret (true, savedRegisters).

(** ** The stack of a frameless function *)

(** The value stored in [*stackSize] when it returns true; the pointer is the
    address of a variable of the caller. *)
Definition FIRCLSCompactUnwindComputeStackSize (encoding functionStart : Z) (indirect : bool) :
    M (option Z) :=
  let stackSizeEncoded := GET_BITS_WITH_MASK encoding CLS_X86_FRAMELESS_STACK_SIZE in
  if negb indirect then mret (Some (u32 (stackSizeEncoded * 8)))
  else
    let sublAddress := u64 (functionStart + stackSizeEncoded) in
    bs ← FIRCLSReadMemory sublAddress 4;
    match bs with
    | None => mret None
    | Some bs =>
        let sublValue := le_val bs in
        let stackAdjust := GET_BITS_WITH_MASK encoding CLS_X86_FRAMELESS_STACK_ADJUST in
        mret (Some (u32 (sublValue + stackAdjust * 8)))
    end.

(** [for (uint32_t i = 0; i < regCount; ++i)] with [n] rounds to go. *)
Fixpoint restore_loop (n : nat) (i : nat) (savedRegisters : list Z) (registers : option X86ThreadContext)
    (address : Z) : M (bool * option X86ThreadContext * Z) :=
  match n with
  | O => mret (true, registers, address)
  | S n' =>
      saved ← of_option (savedRegisters !! i);
      if saved =? CLS_X86_REG_RBP then
        bs ← FIRCLSReadMemory address 8;
        match bs with
        | None => mret (false, registers, address)
        | Some bs =>
            let '(ok, registers) := FIRCLSThreadContextSetFramePointer_x86_64 registers (le_val bs) in
            if negb ok then mret (false, registers, address)
            else restore_loop n' (S i) savedRegisters registers (u64 (address + 8))
        end
      else restore_loop n' (S i) savedRegisters registers (u64 (address + 8))
  end.

(** Returns the registers and [*address]. *)
Definition FIRCLSCompactUnwindRestoreRegisters (encoding : Z) (registers : option X86ThreadContext)
    (stackSize : Z) (savedRegisters : list Z) : M (bool * option X86ThreadContext * Z) :=
  match registers with
  | None => mret (false, None, 0)
  | Some _ =>
      let regCount := GET_BITS_WITH_MASK encoding CLS_X86_FRAMELESS_STACK_REG_COUNT in
      let address :=
        u64 (FIRCLSThreadContextGetStackPointer_x86_64 registers + stackSize - 8 - 8 * regCount) in
      restore_loop (Z.to_nat regCount) 0 savedRegisters registers address
  end.

Definition FIRCLSCompactUnwindFrameless (encoding : Z) (registers : option X86ThreadContext)
    (functionStart : Z) (indirect : bool) : M x86_res :=
  stackSize ← FIRCLSCompactUnwindComputeStackSize encoding functionStart indirect;
  match stackSize with
  | None => mret (false, registers)
  | Some stackSize =>
      let '(ok, permutatedRegisters) :=
        FIRCLSCompactUnwindDecompressPermutation encoding (replicate 6 0) in
      if negb ok then mret (false, registers)
      else
        '(ok, savedRegisters) ←
          FIRCLSCompactUnwindRemapRegisters encoding permutatedRegisters (replicate 6 0);
        if negb ok then mret (false, registers)
        else
          '(ok, registers, address) ←
            FIRCLSCompactUnwindRestoreRegisters encoding registers stackSize savedRegisters;
          if negb ok then mret (false, registers)
          else
            bs ← FIRCLSReadMemory address 8;
            match bs with
            | None => mret (false, registers)
            | Some bs =>
                let value := le_val bs in
                if negb (FIRCLSIsValidPointer value) then mret (false, registers)
                else
                  let '(ok, registers) := FIRCLSThreadContextSetPC_x86_64 registers value in
                  if negb ok then mret (false, registers)
                  else mret (FIRCLSThreadContextSetStackPointer_x86_64 registers (u64 (address + 8)))
            end
  end.

(** ** Frame pointers *)

Definition FIRCLSUnwindStackPointerFromFramePointer_x86_64 (framePtr : Z) : Z := u64 (framePtr + 2 * 8).

(** The encoding is not used. *)
Definition FIRCLSCompactUnwindBPFrame (encoding : Z) (registers : option X86ThreadContext) : M x86_res :=
  let framePointer := FIRCLSThreadContextGetFramePointer_x86_64 registers in
  stack ← FIRCLSReadMemory framePointer 16;
  match stack with
  | None => mret (false, registers)
  | Some bs =>
      let stack0 := le_val (take 8 bs) in
      let stack1 := le_val (drop 8 bs) in
      let '(ok, registers) := FIRCLSThreadContextSetPC_x86_64 registers stack1 in
      if negb ok then mret (false, registers)
      else
        let '(ok, registers) := FIRCLSThreadContextSetFramePointer_x86_64 registers stack0 in
        if negb ok then mret (false, registers)
        else
          let '(ok, registers) :=
            FIRCLSThreadContextSetStackPointer_x86_64 registers
              (FIRCLSUnwindStackPointerFromFramePointer_x86_64 framePointer) in
          mret (ok, registers)
  end.

(** [images] is the table that the addresses of code are looked up in. *)
Context (images : image_table).

Definition FIRCLSUnwindWithStackScanning (registers : option X86ThreadContext) : M x86_res :=
  let start := FIRCLSThreadContextGetStackPointer_x86_64 registers in
  let end_ := FIRCLSThreadContextGetFramePointer_x86_64 registers in
  newPC ← FIRCLSUnwindFirstExecutableAddress images start end_;
  match newPC with
  | None => mret (false, registers)
  | Some newPC => mret (FIRCLSThreadContextSetPC_x86_64 registers newPC)
  end.

Definition FIRCLSUnwindWithFramePointer_x86_64 (registers : option X86ThreadContext)
    (allowScanning : bool) : M x86_res :=
  '(ok, registers) ←
    (if allowScanning then FIRCLSUnwindWithStackScanning registers else mret (false, registers));
  if ok : bool then mret (true, registers)
  else FIRCLSCompactUnwindBPFrame CLS_X86_MODE_BP_FRAME registers.

(** ** The interface *)

(** What the local variable [record] of [FIRCLSCompactUnwindDwarfFrame] holds
    before it is parsed. *)
Context (uninit : FIRCLSDwarfCFIRecord).

Definition FIRCLSCompactUnwindComputeRegisters_x86_64 (context : option FIRCLSCompactUnwindContext)
    (result : option FIRCLSCompactUnwindResult) (registers : option X86ThreadContext) : M x86_res :=
  match context, result, registers with
  | Some _, Some r, Some _ =>
      let mode := Z.land (encoding r) CLS_X86_MODE_MASK in
      if mode =? CLS_X86_MODE_BP_FRAME then FIRCLSCompactUnwindBPFrame (encoding r) registers
      else if mode =? CLS_X86_MODE_STACK_IMMD then
        FIRCLSCompactUnwindFrameless (encoding r) registers (functionStart r) false
      else if mode =? CLS_X86_MODE_STACK_IND then
        FIRCLSCompactUnwindFrameless (encoding r) registers (functionStart r) true
      else if mode =? CLS_X86_MODE_DWARF then
        FIRCLSCompactUnwindDwarfFrame uninit context
          (Z.land (encoding r) CLS_X86_DWARF_SECTION_OFFSET) registers
      else mret (false, registers)
  | _, _, _ => mret (false, registers)
  end.

Definition x86_64_unwind : UnwindArch := {|
  UnwindWithFramePointer := FIRCLSUnwindWithFramePointer_x86_64;
  CompactUnwindComputeRegisters := FIRCLSCompactUnwindComputeRegisters_x86_64
|}.

End X86.
