(* ===== verification/UnwindSafety.v ===== *)
(** The unwinder of Crashlytics ends on any memory: every step looks up tables,
    interprets DWARF data and reads the stack without writing memory, and the
    number of frames of a stack trace is bounded. *)
From S2P Require Import Prelude Memory DwarfData ThreadState DwarfDataSpec.
From S2P Require Import DwarfExpression DwarfExpressionSpec DwarfUnwind DwarfUnwindSpec.
From S2P Require Import DwarfSafety CompactUnwind Unwind.

#[local] Arguments Z.leb : simpl never.
#[local] Arguments Z.eqb : simpl never.
#[local] Arguments Z.add : simpl never.

(** A result with some registers. *)
Ltac returns := apply ends_ret; split; [done|cbn; eauto].

Section Safety.
Context {CE : CompactEncoding} {VM : VmRead} {VMS : VmReadSpec}.
Context {TS : ThreadState} {TL : ThreadStateLaws}.
Context (w : world) (Hlow : low_mem (mem w)) (Hwf : wf_mem (mem w)).

(** A piece that ends and leaves the world. *)
Definition quiet {A} (m : M A) : Prop := ends m w (fun _ w' => w' = w).

Lemma quiet_ret {A} (a : A) : quiet (mret a).
Proof. by apply ends_ret. Qed.

Lemma quiet_bind {A B} (m : M A) (k : A -> M B) : quiet m -> (forall a, quiet (k a)) -> quiet (m ≫= k).
Proof. intros Hm Hk. apply ends_bind. eapply ends_mono; [exact Hm|]. intros a w' ->. apply Hk. Qed.

Lemma quiet_load n a : quiet (load n a).
Proof. by apply ends_load. Qed.

(** A load of [n] bytes, with the bounds of its value. *)
Lemma ends_load_bound n a : ends (load n a) w (fun v w' => w' = w /\ 0 <= v < 2 ^ (8 * Z.of_nat n)).
Proof.
  unfold ends, load. destruct (read_le (mem w) n a) as [v|] eqn:E; [|done]. split; [done|].
  by apply (read_le_bound (mem w) n a v).
Qed.

Lemma quiet_read a n : quiet (FIRCLSReadMemory a n).
Proof.
  unfold FIRCLSReadMemory. destruct (negb _); [apply quiet_ret|].
  destruct (vm_read_total a n w) as [r E]. unfold quiet, ends. by rewrite E.
Qed.

(** ** Compact unwind tables *)

Lemma quiet_init c u e l : quiet (FIRCLSCompactUnwindInit c u e l).
Proof.
  unfold FIRCLSCompactUnwindInit. destruct c; [|apply quiet_ret]. destruct (negb _); [apply quiet_ret|].
  destruct (negb _); [apply quiet_ret|]. apply quiet_bind; [apply quiet_read|].
  intros [bs|]; [|apply quiet_ret]. cbv zeta. destruct (negb _); apply quiet_ret.
Qed.

Lemma quiet_first_level_loop n i a x : quiet (first_level_loop n i a x).
Proof.
  revert i. induction n as [|n IH]; intros i; cbn [first_level_loop]; [apply quiet_ret|].
  apply quiet_bind; [apply quiet_load|]. intros v. apply quiet_bind; [apply quiet_load|]. intros v'.
  destruct (_ && _); [|apply IH]. apply quiet_bind; [|intros; apply quiet_ret].
  apply quiet_bind; [apply quiet_load|]. intros. apply quiet_bind; [apply quiet_load|]. intros. apply quiet_ret.
Qed.

Lemma quiet_first_level c x : quiet (FIRCLSCompactUnwindLookupFirstLevel c x).
Proof.
  unfold FIRCLSCompactUnwindLookupFirstLevel. destruct c; [|apply quiet_ret]. cbv zeta.
  destruct (_ <? 2); [apply quiet_ret|]. destruct (_ <? _); [apply quiet_ret|].
  destruct (_ =? 0); [apply quiet_ret|]. apply quiet_bind; [apply quiet_first_level_loop|].
  intros [[e v]|]; apply quiet_ret.
Qed.

(** The interval of the binary search shrinks. *)
Lemma quiet_search_loop fuel x n a i h :
  0 <= i -> 0 <= h < 2 ^ 31 -> Z.max 0 (h - i) < Z.of_nat fuel ->
  quiet (binary_search_loop fuel x n a i h).
Proof.
  revert i h. induction fuel as [|fuel IH]; intros i h Hi Hh Hf.
  - cbn [binary_search_loop]. exfalso. lia.
  - cbn [binary_search_loop]. destruct (Z.ltb_spec i h); cbn [negb]; [|apply quiet_ret]. cbv zeta.
    rewrite (wrap_small 32 (i + h)) by lia.
    assert (i <= (i + h) / 2 < h).
    { split; [apply Z.div_le_lower_bound|apply Z.div_lt_upper_bound]; lia. }
    apply quiet_bind; [apply quiet_load|]. intros e. destruct (_ <? _).
    + destruct (_ =? _); [apply quiet_ret|]. apply IH; lia.
    + destruct (_ =? _); [apply quiet_ret|]. apply quiet_bind; [apply quiet_load|]. intros e'.
      destruct (_ <? _); [apply quiet_ret|]. apply IH; lia.
Qed.

Lemma quiet_search x i n a : 0 <= n < 2 ^ 16 -> quiet (FIRCLSCompactUnwindBinarySearchSecondLevel x i n a).
Proof.
  intros Hn. unfold FIRCLSCompactUnwindBinarySearchSecondLevel.
  destruct (a =? 0); [apply quiet_ret|]. destruct (n =? 0); [apply quiet_ret|].
  destruct (x =? 0); [apply quiet_ret|]. apply quiet_bind; [apply quiet_search_loop; lia|].
  intros [[k|] j]; apply quiet_ret.
Qed.

Lemma quiet_compressed_entry c pc p a n i : quiet (compressed_entry c pc p a n i).
Proof.
  unfold compressed_entry. apply quiet_bind; [apply quiet_load|]. intros e. cbv zeta.
  apply quiet_bind.
  { destruct (_ <? _); [|apply quiet_ret]. apply quiet_bind; [apply quiet_load|]. intros. apply quiet_ret. }
  intros f. destruct (_ || _); [apply quiet_ret|]. apply quiet_bind; [|intros; apply quiet_ret].
  destruct (_ <? _); [apply quiet_load|]. apply quiet_bind; [apply quiet_load|]. intros. apply quiet_load.
Qed.

Lemma quiet_second_level c pc r : quiet (FIRCLSCompactUnwindLookupSecondLevel c pc r).
Proof.
  unfold FIRCLSCompactUnwindLookupSecondLevel. apply quiet_bind.
  { destruct c; [apply quiet_load|apply quiet_ret]. }
  intros k. destruct (_ =? _); [apply quiet_ret|]. destruct (_ =? _); [|apply quiet_ret].
  unfold FIRCLSCompactUnwindLookupSecondLevelCompressed. destruct c, r; try apply quiet_ret. cbv zeta.
  destruct (_ =? 0); [apply quiet_ret|]. apply quiet_bind; [apply quiet_load|]. intros off.
  apply ends_bind. eapply ends_mono; [apply ends_load_bound|]. intros n w' [-> Hn].
  apply quiet_bind; [apply quiet_search; exact Hn|]. intros [found i].
  destruct (negb _); [apply quiet_ret|]. apply quiet_bind; [apply quiet_compressed_entry|].
  intros [ok r']. apply quiet_ret.
Qed.

Lemma quiet_lookup c pc r : quiet (FIRCLSCompactUnwindLookup c pc r).
Proof.
  unfold FIRCLSCompactUnwindLookup. destruct c, r; try apply quiet_ret.
  apply quiet_bind; [apply quiet_first_level|]. intros [ok c']. destruct (negb _); [apply quiet_ret|].
  apply quiet_bind; [apply quiet_second_level|]. intros [ok' r']. apply quiet_ret.
Qed.

(** ** Computing the registers *)

(** A step that ends, leaves the world and returns some registers. *)
Definition steps (m : M ctx_res) : Prop := ends m w (fun x w' => w' = w /\ is_Some x.2).

Lemma steps_ret ok r : is_Some r -> steps (mret (ok, r)).
Proof. intros Hr. apply ends_ret. by split. Qed.

Lemma dwarf_frame_steps uninit c off regs :
  steps (FIRCLSCompactUnwindDwarfFrame uninit (Some c) off (Some regs)).
Proof.
  unfold FIRCLSCompactUnwindDwarfFrame. apply ends_bind.
  eapply ends_mono; [by apply cfi_record_ends|]. intros [ok rec'] w' (-> & rec & E & H).
  cbn [fst snd] in *. subst rec'. destruct ok; cbn [negb]; [|apply steps_ret; eauto].
  destruct (H eq_refl) as [H1 H2]. eapply ends_mono; [by apply compute_registers_ends|].
  intros [ok r] w' [-> Hr]. split; [done|]. cbn in *. destruct ok; [destruct Hr as (? & -> & _)|rewrite Hr]; eauto.
Qed.

End Safety.

(** What the unwinder relies on of an architecture: on memory of user space its
    steps end, write nothing, and keep the registers. *)
Class UnwindArchLaws {TS : ThreadState} {UA : UnwindArch} : Prop := {
  frame_pointer_returns w regs scan :
    low_mem (mem w) -> wf_mem (mem w) -> steps w (UnwindWithFramePointer (Some regs) scan);
  compute_registers_returns w c r regs :
    low_mem (mem w) -> wf_mem (mem w) -> steps w (CompactUnwindComputeRegisters c r (Some regs))
}.

Section Traces.
Context {CE : CompactEncoding} {VM : VmRead} {VMS : VmReadSpec}.
Context {TS : ThreadState} {TL : ThreadStateLaws} {UA : UnwindArch} {UL : UnwindArchLaws}.
Context (w : world) (Hlow : low_mem (mem w)) (Hwf : wf_mem (mem w)).

Lemma lookup_and_compute_steps c regs :
  ends (FIRCLSCompactUnwindLookupAndCompute c (Some regs)) w
    (fun x w' => w' = w /\ is_Some x.2).
Proof.
  unfold FIRCLSCompactUnwindLookupAndCompute. destruct c as [c|]; [|apply ends_ret; eauto].
  cbv zeta. destruct (_ <? _); [apply ends_ret; eauto|].
  apply ends_bind. eapply ends_mono; [by apply quiet_lookup|]. intros [[ok c'] r] w' ->.
  destruct (negb ok); [apply ends_ret; eauto|]. apply ends_bind.
  eapply ends_mono; [by apply compute_registers_returns|].
  intros [ok' regs'] w' [-> Hs]. by apply ends_ret.
Qed.

(** ** A step to the next frame *)

Context (images : image_table).

Lemma compact_steps c :
  is_Some (registers c) ->
  ends (FIRCLSUnwindWithCompactUnwindInfo images c) w (fun x w' =>
    w' = w /\ is_Some (registers x.2) /\ frameCount x.2 = frameCount c /\
    lastFramePC x.2 = lastFramePC c /\ repeatCount x.2 = repeatCount c).
Proof.
  destruct c as [reg fc cu last rep]. cbn [registers]. intros [regs ->].
  unfold FIRCLSUnwindWithCompactUnwindInfo. cbv zeta.
  destruct (FIRCLSBinaryImageSafeFindImageForAddress _ _) as [image|]; [|apply ends_ret; cbn; eauto].
  destruct (negb _); [apply ends_ret; cbn; eauto|]. apply ends_bind.
  eapply ends_mono; [by apply quiet_init|]. intros [ok s] w' ->. cbv zeta.
  cbn [with_compact registers compactUnwindState frameCount lastFramePC repeatCount].
  destruct (negb ok); [apply ends_ret; split_and!; cbn; eauto|]. apply ends_bind.
  eapply ends_mono; [by apply lookup_and_compute_steps|]. intros [[ok' s'] regs'] w' [-> Hs].
  apply ends_ret. by split_and!.
Qed.

Lemma strategies_step c :
  is_Some (registers c) -> 0 <= frameCount c ->
  ends (FIRCLSUnwindNextFrameUsingAllStrategies images c) w (fun x w' =>
    w' = w /\ is_Some (registers x.2) /\ frameCount x.2 = frameCount c /\
    lastFramePC x.2 = lastFramePC c /\ repeatCount x.2 = repeatCount c /\
    (x.1 = true -> frameCount c < FIRCLSUnwindMaxFrames)).
Proof.
  intros Hs Hc. unfold FIRCLSUnwindNextFrameUsingAllStrategies.
  destruct (Z.leb_spec FIRCLSUnwindMaxFrames (frameCount c)); [by apply ends_ret|]. cbv zeta.
  assert (Hmain : forall pc c', is_Some (registers c') -> frameCount c' = frameCount c ->
    lastFramePC c' = lastFramePC c -> repeatCount c' = repeatCount c ->
    ends (if negb (FIRCLSIsValidPointer pc) then mret (false, c')
          else if frameCount c' =? 0 then mret (true, c')
          else
            '(ok, c') ← FIRCLSUnwindWithCompactUnwindInfo images c';
            if ok : bool then mret (true, c')
            else if FIRCLSUnwindGetFramePointer c' =? 0 then
              let '(ok, regs) := ThreadContextSetPC (registers c') 0 in
              mret (ok, with_registers c' regs)
            else
              '(ok, regs) ← UnwindWithFramePointer (registers c') (frameCount c' =? 1);
              mret (ok, with_registers c' regs)) w (fun x w' =>
    w' = w /\ is_Some (registers x.2) /\ frameCount x.2 = frameCount c /\
    lastFramePC x.2 = lastFramePC c /\ repeatCount x.2 = repeatCount c /\
    (x.1 = true -> frameCount c < FIRCLSUnwindMaxFrames))).
  { intros pc c' Hs' E1 E2 E3. destruct (negb _); [by apply ends_ret|].
    destruct (_ =? 0); [by apply ends_ret|]. apply ends_bind. eapply ends_mono; [by apply compact_steps|].
    intros [ok c2] w' (-> & [regs Er] & F1 & F2 & F3). cbn [snd] in *. rewrite E1 in F1. rewrite E2 in F2. rewrite E3 in F3.
    destruct ok; [apply ends_ret; cbn; rewrite Er; split_and!; eauto|].
    rewrite Er. destruct (_ =? 0); [destruct (set_pc_returns regs 0) as [r' ->]; apply ends_ret; cbn; split_and!; eauto|].
    apply ends_bind. eapply ends_mono; [by apply frame_pointer_returns|]. intros [ok regs'] w' [-> Hr].
    apply ends_ret. by split_and!. }
  destruct Hs as [regs Er]. destruct (0 <? frameCount c).
  - rewrite Er. destruct (set_pc_returns regs (u64 (FIRCLSUnwindGetPC c - 1))) as [r' ->].
    cbn [negb]. by apply Hmain.
  - cbn [negb]. by apply Hmain.
Qed.

(** What a step does to the counts; the addresses it stops at are valid. *)
Definition next_frame_post (c : FIRCLSUnwindContext) (x : bool * FIRCLSUnwindContext) : Prop :=
  is_Some (registers x.2) /\
  (x.1 = true ->
    frameCount c < FIRCLSUnwindMaxFrames /\ frameCount x.2 = frameCount c + 1 /\
    lastFramePC x.2 = FIRCLSUnwindGetPC x.2 /\
    repeatCount x.2 = (if lastFramePC c =? FIRCLSUnwindGetPC x.2 then u32 (repeatCount c + 1) else 0) /\
    FIRCLSIsValidPointer (FIRCLSUnwindGetPC x.2) = true /\
    FIRCLSIsValidPointer (FIRCLSUnwindGetStackPointer x.2) = true).

Lemma next_frame_step c :
  is_Some (registers c) -> 0 <= frameCount c <= FIRCLSUnwindMaxFrames ->
  ends (FIRCLSUnwindNextFrame images c) w (fun x w' => w' = w /\ next_frame_post c x).
Proof.
  intros Hs Hc. unfold FIRCLSUnwindNextFrame. destruct (negb _); [by apply ends_ret|].
  apply ends_bind. eapply ends_mono; [apply strategies_step; [done|lia]|].
  intros [ok c'] w' (-> & Hs' & E1 & E2 & E3 & Hlt). cbn [fst snd] in *.
  destruct ok; cbn [negb]; [|by apply ends_ret]. cbv zeta.
  destruct (FIRCLSIsValidPointer (FIRCLSUnwindGetPC c')) eqn:Epc; cbn [negb]; [|by apply ends_ret].
  destruct (FIRCLSIsValidPointer (FIRCLSUnwindGetStackPointer c')) eqn:Esp; cbn [negb]; [|by apply ends_ret].
  specialize (Hlt eq_refl). apply ends_ret. split; [done|]. split; [done|]. intros _.
  cbn [snd frameCount lastFramePC repeatCount]. unfold FIRCLSUnwindGetPC, FIRCLSUnwindGetStackPointer in *.
  cbn [registers]. unfold FIRCLSUnwindMaxFrames in *. rewrite E1, E2, E3, wrap_small by lia.
  by split_and!.
Qed.

(** ** The stack trace *)

(** The addresses of the frames from a context on, until the unwinder stops. *)
Inductive frames : FIRCLSUnwindContext -> list Z -> FIRCLSUnwindContext -> Prop :=
  | frames_stop c c' : FIRCLSUnwindNextFrame images c w = Done (false, c') w -> frames c [] c'
  | frames_step c c1 pcs c' :
      FIRCLSUnwindNextFrame images c w = Done (true, c1) w -> frames c1 pcs c' ->
      frames c (FIRCLSUnwindGetPC c1 :: pcs) c'.

(** The frames from a context are determined. *)
Lemma frames_unique c pcs c' pcs2 c2 : frames c pcs c' -> frames c pcs2 c2 -> pcs = pcs2 /\ c' = c2.
Proof.
  intros H. revert pcs2 c2. induction H as [c c' E|c c1 pcs c' E _ IH]; intros pcs2 c2 H2;
    inversion H2 as [? ? E2|? c3 ? ? E2 H3]; subst; try congruence.
  - split; congruence.
  - rewrite E in E2. injection E2 as <-. by destruct (IH _ _ H3) as [-> ->].
Qed.

(** How often the last address has been repeated, frame by frame. *)
Fixpoint repeats (last rep : Z) (pcs : list Z) : list Z :=
  match pcs with
  | [] => []
  | pc :: pcs' => let rep := if last =? pc then rep + 1 else 0 in rep :: repeats pc rep pcs'
  end.

(** The repeated address, its count and the entries, from the addresses. *)
Fixpoint summary (last rep rpc rcount : Z) (es pcs : list Z) : Z * Z * list Z :=
  match pcs with
  | [] => (rpc, rcount, es)
  | pc :: pcs' =>
      let rep := if last =? pc then rep + 1 else 0 in
      if (rpc =? pc) && negb (rpc =? 0) then summary pc rep rpc rep es pcs'
      else if (FIRCLSUnwindInfiniteRecursionCountThreshold <=? rep) && (rpc =? 0)
      then summary pc rep pc rcount es pcs'
      else summary pc rep rpc rcount (es ++ [pc]) pcs'
  end.

Lemma record_frames_loop_run fuel s :
  is_Some (registers (unwind_context s)) ->
  0 <= repeatCount (unwind_context s) <= frameCount (unwind_context s) ->
  frameCount (unwind_context s) <= FIRCLSUnwindMaxFrames ->
  FIRCLSUnwindMaxFrames - frameCount (unwind_context s) < Z.of_nat fuel ->
  ends (record_frames_loop images fuel s) w (fun s' w' => w' = w /\
    exists pcs, frames (unwind_context s) pcs (unwind_context s') /\
      Z.of_nat (length pcs) <= FIRCLSUnwindMaxFrames - frameCount (unwind_context s) /\
      Forall (fun pc => FIRCLSIsValidPointer pc = true) pcs /\
      (repeatedPC s', repeatedPCCount s', entries s') =
        summary (lastFramePC (unwind_context s)) (repeatCount (unwind_context s))
          (repeatedPC s) (repeatedPCCount s) (entries s) pcs).
Proof.
  revert s. induction fuel as [|fuel IH]; intros s Hs Hr Hm Hf; [lia|]. cbn [record_frames_loop].
  pose proof (next_frame_step (unwind_context s) Hs ltac:(lia)) as Hstep. apply ends_bind. unfold ends in Hstep |- *.
  destruct (FIRCLSUnwindNextFrame images (unwind_context s) w) as [[ok c1] w'| |] eqn:E; try done.
  destruct Hstep as [-> [Hs1 Hpost]]. cbn [fst snd] in *. cbv zeta.
  destruct ok; cbn [negb].
  2: { split; [done|]. exists []. split_and!; [by apply frames_stop|cbn; lia|done|done]. }
  destruct (Hpost eq_refl) as (Hlt & F1 & F2 & F3 & Hpc & _).
  assert (Hrep : repeatCount c1 =
    if lastFramePC (unwind_context s) =? FIRCLSUnwindGetPC c1 then repeatCount (unwind_context s) + 1 else 0).
  { rewrite F3. destruct (_ =? _); [|done]. apply wrap_small. unfold FIRCLSUnwindMaxFrames in *. lia. }
  set (s1 := record_frame _). assert (Ec : unwind_context s1 = c1).
  { unfold s1, record_frame. cbn. destruct (_ && _); [done|]. by destruct (_ && _). }
  pose proof (IH s1) as IHs. rewrite Ec in IHs. specialize (IHs Hs1). unfold ends in IHs.
  assert (Hr1 : 0 <= repeatCount c1 <= frameCount c1) by (rewrite Hrep, F1; destruct (_ =? _); lia).
  specialize (IHs Hr1 ltac:(lia) ltac:(lia)).
  destruct (record_frames_loop images fuel s1 w) as [s' w'| |]; try done.
  destruct IHs as [-> (pcs & Hfr & Hlen & Hval & Hsum)]. split; [done|].
  exists (FIRCLSUnwindGetPC c1 :: pcs). split_and!.
  - by eapply frames_step.
  - cbn [length]. lia.
  - by constructor.
  - rewrite Hsum. cbn [summary]. rewrite F2, Hrep. unfold s1, record_frame, FIRCLSUnwindGetFrameRepeatCount.
    cbn [unwind_context repeatedPC repeatedPCCount entries]. rewrite Hrep.
    destruct ((repeatedPC s =? _) && _); [done|]. by destruct (_ && _).
Qed.

End Traces.

(** ** Summaries *)

(** Without an address repeated ten times in a row, every address is recorded. *)
Lemma summary_plain last rep es pcs :
  Forall (fun r => r < FIRCLSUnwindInfiniteRecursionCountThreshold) (repeats last rep pcs) ->
  summary last rep 0 0 es pcs = (0, 0, es ++ pcs).
Proof.
  revert last rep es. induction pcs as [|pc pcs IH]; intros last rep es Hr; cbn [summary repeats] in *.
  { by rewrite app_nil_r. }
  apply Forall_cons in Hr as [H1 H2]. rewrite andb_false_r.
  rewrite (proj2 (Z.leb_gt _ _)) by done. cbn [andb]. rewrite IH by done. by rewrite <- app_assoc.
Qed.

(** An address other than the repeated one is recorded. *)
Lemma summary_after last rep p rc es pcs :
  p <> 0 -> p ∉ pcs -> summary last rep p rc es pcs = (p, rc, es ++ pcs).
Proof.
  intros Hp. revert last rep es. induction pcs as [|pc pcs IH]; intros last rep es Hin; cbn [summary].
  { by rewrite app_nil_r. }
  apply not_elem_of_cons in Hin as [Hne Hin]. rewrite (proj2 (Z.eqb_neq p pc)) by done. cbn [andb].
  rewrite (proj2 (Z.eqb_neq p 0)), andb_false_r by done. rewrite IH by done. by rewrite <- app_assoc.
Qed.

(** A recursion: its first ten frames are recorded, the rest is counted. *)
Lemma summary_repeated last rep p rc es k post :
  p <> 0 -> last = p -> 0 <= rep ->
  summary last rep p rc es (replicate k p ++ post) =
  summary p (rep + Z.of_nat k) p (if decide (k = 0%nat) then rc else rep + Z.of_nat k) es post.
Proof.
  intros Hp. revert last rep rc. induction k as [|k IH]; intros last rep rc -> Hr.
  { cbn [replicate app]. by rewrite decide_True, Z.add_0_r by done. }
  cbn [replicate app summary]. rewrite !Z.eqb_refl, (proj2 (Z.eqb_neq p 0)) by done. cbn [andb negb].
  rewrite (IH p (rep + 1) _ eq_refl) by lia. rewrite (decide_False (P := S k = 0%nat)) by done.
  replace (rep + 1 + Z.of_nat k) with (rep + Z.of_nat (S k)) by lia.
  destruct (decide (k = 0%nat)) as [->|]; [|done]. by replace (rep + Z.of_nat 1) with (rep + 1) by lia.
Qed.

Lemma summary_first last rep p es k rest :
  p <> 0 -> last = p -> 0 <= rep -> rep + Z.of_nat k < FIRCLSUnwindInfiniteRecursionCountThreshold ->
  summary last rep 0 0 es (replicate k p ++ rest) = summary p (rep + Z.of_nat k) 0 0 (es ++ replicate k p) rest.
Proof.
  intros Hp. revert last rep es. induction k as [|k IH]; intros last rep es -> Hr Hk.
  { cbn [replicate app]. by rewrite app_nil_r, Z.add_0_r. }
  cbn [replicate app summary]. rewrite !Z.eqb_refl, (proj2 (Z.eqb_neq 0 p)) by done. cbn [andb].
  rewrite (proj2 (Z.leb_gt _ (rep + 1))) by lia. cbn [andb]. rewrite IH by lia.
  rewrite <- app_assoc. cbn [app]. by replace (rep + 1 + Z.of_nat k) with (rep + Z.of_nat (S k)) by lia.
Qed.

Lemma summary_prefix l r es p pcs :
  Forall (fun r => r < FIRCLSUnwindInfiniteRecursionCountThreshold) (repeats l r pcs) ->
  (p <> default l (last pcs)) ->
  forall rest, exists l' r', l' <> p /\ summary l r 0 0 es (pcs ++ rest) = summary l' r' 0 0 (es ++ pcs) rest.
Proof.
  revert l r es. induction pcs as [|pc pcs IH]; intros l r es Hr Hl rest; cbn [app summary repeats] in *.
  { exists l, r. rewrite app_nil_r. split; [|done]. by intros ->. }
  apply Forall_cons in Hr as [H1 H2]. rewrite andb_false_r, (proj2 (Z.leb_gt _ _)) by done. cbn [andb].
  destruct (IH pc _ (es ++ [pc]) H2) with (rest := rest) as (l' & r' & Hne & E).
  { rewrite last_cons in Hl. by destruct (last pcs). }
  exists l', r'. split; [done|]. by rewrite E, <- app_assoc.
Qed.

Lemma summary_recursion pre p k post :
  p <> 0 -> Forall (fun r => r < FIRCLSUnwindInfiniteRecursionCountThreshold) (repeats 0 0 pre) ->
  last pre <> Some p -> (12 <= k)%nat -> p ∉ post ->
  summary 0 0 0 0 [] (pre ++ replicate k p ++ post) =
    (p, Z.of_nat k - 1, pre ++ replicate 10 p ++ post).
Proof.
  intros Hp Hpre Hlast Hk Hpost.
  destruct (summary_prefix 0 0 [] p pre Hpre) with (rest := replicate k p ++ post) as (l & r & Hne & ->).
  { destruct (last pre); cbn; congruence. }
  cbn [app]. destruct k as [|k]; [lia|]. cbn [replicate app summary].
  rewrite (proj2 (Z.eqb_neq 0 p)), (proj2 (Z.eqb_neq l p)) by done. cbn [andb Z.leb].
  change (FIRCLSUnwindInfiniteRecursionCountThreshold <=? 0) with false. cbn [andb].
  replace (replicate k p) with (replicate 9 p ++ replicate (k - 9) p) by (rewrite <- replicate_add; f_equal; lia).
  rewrite <- app_assoc, (summary_first p 0 p) by (done || (unfold FIRCLSUnwindInfiniteRecursionCountThreshold; lia)).
  destruct (k - 9)%nat as [|j] eqn:Ej; [lia|]. cbn [replicate app summary].
  rewrite !Z.eqb_refl, (proj2 (Z.eqb_neq 0 p)) by done. cbn [andb].
  change (FIRCLSUnwindInfiniteRecursionCountThreshold <=? 0 + Z.of_nat 9 + 1) with true. cbn [andb].
  rewrite (summary_repeated p _ p 0) by (done || lia). rewrite decide_False by lia.
  rewrite summary_after by done. f_equal; [f_equal; lia|]. by rewrite <- !app_assoc.
Qed.
