(* ===== verification/FrameChain.v ===== *)
(** What the unwinder computes for code that has no unwind table. The scan of a stack
    for return addresses (FIRCLSUnwindFirstExecutableAddress): what it finds, and
    that it ends on any memory. Then, on any architecture whose functions keep a
    chain of frame records: the first frame is where the thread stopped, the second
    is the architecture's guess of a return address when it has one, and the others
    are the return addresses of the chain at the frame pointer. *)
From S2P Require Import Prelude Memory DwarfData ThreadState DwarfDataSpec DwarfExpressionSpec DwarfSafety.
From S2P Require Import CompactUnwind Unwind UnwindSafety.

Section Scan.
Context {VM : VmRead} {VMS : VmReadSpec}.
Context (w : world) (images : image_table).

(** The 64-bit words [ws] from [a] on. *)
Definition stack_at (m : gmap Z Z) (a : Z) (ws : list Z) : Prop :=
  forall i v, ws !! i = Some v -> read_le m 8 (a + 8 * Z.of_nat i) = Some v.

Lemma stack_at_cons m a v ws : stack_at m a (v :: ws) -> read_le m 8 a = Some v /\ stack_at m (a + 8) ws.
Proof.
  intros H. split; [rewrite <- (H 0%nat v eq_refl); by f_equal; lia|].
  intros i u E. rewrite <- (H (S i) u E). f_equal. lia.
Qed.

Lemma first_executable_run fuel a v ws :
  stack_at (mem w) a (v :: ws) -> FIRCLSIsValidPointer a = true ->
  a + 8 * Z.of_nat (length (v :: ws)) < 2 ^ 64 -> (length ws < fuel)%nat ->
  first_executable_loop images fuel a (a + 8 * Z.of_nat (length (v :: ws))) w =
    Done (List.find (FIRCLSUnwindIsAddressExecutable images) (v :: ws)) w.
Proof.
  revert a v ws. induction fuel as [|fuel IH]; intros a v ws Hs Ha Hb Hf; [lia|]. cbn [length] in Hb.
  apply stack_at_cons in Hs as [Hv Hs]. assert (Hr := Hv). apply fmap_Some in Hr as (bs & Hr & Ev).
  assert (Hva := valid_bound _ Ha). cbn [first_executable_loop List.find].
  rewrite (bind_done _ _ _ _ _ (load_read _ _ _ _ Hv)). cbv zeta. rewrite Ha.
  rewrite (bind_done _ _ _ _ _ (read_memory_run _ _ _ _ Ha Hr)). rewrite <- Ev.
  destruct (FIRCLSUnwindIsAddressExecutable images v); [done|]. rewrite wrap_small by lia.
  destruct ws as [|v' ws]; cbn [length] in *.
  - by rewrite (proj2 (Z.ltb_ge _ _)) by lia.
  - rewrite (proj2 (Z.ltb_lt _ _)) by lia.
    replace (a + 8 * Z.of_nat (S (S (length ws)))) with (a + 8 + 8 * Z.of_nat (length (v' :: ws))) by (cbn [length]; lia).
    apply IH; [done|apply Z.leb_le; lia|cbn [length]; lia|lia].
Qed.

(** On memory of user space the scan goes up through it, and stops. *)
Lemma first_executable_loop_ends fuel a e :
  low_mem (mem w) -> (Z.to_nat ((e - a) / 8 + 1) < fuel)%nat ->
  quiet w (first_executable_loop images fuel a e).
Proof.
  intros Hlow. revert a. induction fuel as [|fuel IH]; intros a Hf; [lia|]. cbn [first_executable_loop].
  apply ends_bind. eapply ends_mono; [apply load_low; [exact Hlow|lia]|]. intros v w' (-> & Ha & Hn).
  unfold low in Hn. rewrite wrap_small by lia. cbv zeta.
  assert (Hnext : quiet w (if a + 8 <? e then first_executable_loop images fuel (a + 8) e else mret None)).
  { destruct (Z.ltb_spec (a + 8) e); [|apply quiet_ret]. apply IH.
    replace ((e - a) / 8) with (1 + (e - (a + 8)) / 8) in Hf
      by (rewrite <- Z.div_add_l by lia; f_equal; lia).
    assert (0 <= (e - (a + 8)) / 8) by (apply Z.div_pos; lia). lia. }
  destruct (FIRCLSIsValidPointer a); [|exact Hnext]. apply quiet_bind; [apply quiet_read|].
  intros [bs|]; [|apply quiet_ret]. destruct (FIRCLSUnwindIsAddressExecutable _ _); [apply quiet_ret|exact Hnext].
Qed.

Lemma first_executable_ends a e :
  low_mem (mem w) -> quiet w (FIRCLSUnwindFirstExecutableAddress images a e).
Proof. intros Hlow. apply first_executable_loop_ends; [done|lia]. Qed.

End Scan.

(** ** The interface *)

Section Registers.
Context {TS : ThreadState}.

Definition get_pc (r : thread_context) : Z := ThreadContextGetPC (Some r).
Definition get_sp (r : thread_context) : Z := ThreadContextGetStackPointer (Some r).
Definition get_fp (r : thread_context) : Z := ThreadContextGetFramePointer (Some r).

End Registers.

(** How an architecture follows frame records in the world [w]: [strip] is what it
    keeps of an address, [address_limit] bounds addresses, and [guess] is the
    return address it finds in a function without a frame ([None] when looking
    for it goes wrong). *)
Class FrameRecords {TS : ThreadState} {UA : UnwindArch} (w : world) := {
  strip : Z -> Z;
  address_limit : Z;
  guess : thread_context -> option (option Z);
  limit_bound : 4096 < address_limit <= 2 ^ 64;
  strip_address v : 0 <= v < 2 ^ 64 -> 0 <= strip v < address_limit;
  set_pc_run r v :
    0 <= v < address_limit ->
    exists r', ThreadContextSetPC (Some r) v = (true, Some r') /\
      get_pc r' = v /\ get_sp r' = get_sp r /\ get_fp r' = get_fp r /\ guess r' = guess r;
  guess_run r v :
    guess r = Some (Some v) ->
    exists r', UnwindWithFramePointer (Some r) true w = Done (true, Some r') w /\
      get_pc r' = v /\ get_sp r' = get_sp r /\ get_fp r' = get_fp r;
  record_run r (scan : bool) saved ret :
    (scan = true -> guess r = Some None) ->
    FIRCLSIsValidPointer (get_fp r) = true -> get_fp r + 16 < address_limit ->
    read_le (mem w) 8 (get_fp r) = Some saved -> read_le (mem w) 8 (get_fp r + 8) = Some ret ->
    exists r', UnwindWithFramePointer (Some r) scan w = Done (true, Some r') w /\
      get_pc r' = strip ret /\ get_sp r' = get_fp r + 16 /\ get_fp r' = strip saved
}.

#[global] Arguments strip {_ _} w {_}.
#[global] Arguments address_limit {_ _} w {_}.
#[global] Arguments guess {_ _} w {_}.

(** ** Chains of frame records *)

(** The images are searched for the address before a program counter: it is in
    none, or in one without unwind information. *)
Definition unknown_code (images : image_table) (pc : Z) : Prop :=
  FIRCLSIsValidPointer (pc - 1) = true /\
  match FIRCLSBinaryImageSafeFindImageForAddress images (pc - 1) with
  | Some image => FIRCLSBinaryImageSafeHasUnwindInfo image = false
  | None => True
  end.

Section Chain.
Context {CE : CompactEncoding} {VM : VmRead} {TS : ThreadState} {UA : UnwindArch}.
Context (w : world) {FR : FrameRecords w} (Hwf : wf_mem (mem w)) (images : image_table).

(** The return addresses of the frame records from a frame pointer on. *)
Inductive frame_chain : Z -> list Z -> Prop :=
  | chain_end : frame_chain 0 []
  | chain_frame fp saved ret pcs :
      FIRCLSIsValidPointer fp = true -> fp + 16 < address_limit w ->
      read_le (mem w) 8 fp = Some saved -> read_le (mem w) 8 (fp + 8) = Some ret ->
      frame_chain (strip w saved) pcs -> frame_chain fp (strip w ret :: pcs).

(** The same with the addresses that are kept. *)
Lemma chain_frame_at fp saved ret fp' pc pcs :
  FIRCLSIsValidPointer fp = true -> fp + 16 < address_limit w ->
  read_le (mem w) 8 fp = Some saved -> read_le (mem w) 8 (fp + 8) = Some ret ->
  strip w saved = fp' -> strip w ret = pc -> frame_chain fp' pcs -> frame_chain fp (pc :: pcs).
Proof. intros Hv Hl E1 E2 <- <- Hc. by eapply chain_frame. Qed.

(** A context at a frame. *)
Definition at_frame (c : FIRCLSUnwindContext) (n : Z) (r : thread_context) : Prop :=
  registers c = Some r /\ frameCount c = n /\ FIRCLSIsValidPointer (get_pc r) = true /\
  get_pc r < address_limit w /\ FIRCLSIsValidPointer (get_sp r) = true.

(** In unknown code, what remains is the frame pointer. *)
Lemma unknown_step c n r :
  at_frame c n r -> 0 < n < FIRCLSUnwindMaxFrames -> unknown_code images (get_pc r) ->
  exists r1, get_pc r1 = get_pc r - 1 /\ get_sp r1 = get_sp r /\ get_fp r1 = get_fp r /\
    guess w r1 = guess w r /\
    FIRCLSUnwindNextFrameUsingAllStrategies images c w =
      (if get_fp r =? 0 then
         let '(ok, regs) := ThreadContextSetPC (Some r1) 0 in mret (ok, with_registers c regs)
       else
         '(ok, regs) ← UnwindWithFramePointer (Some r1) (n =? 1); mret (ok, with_registers c regs)) w.
Proof.
  destruct c as [regs fc cu last rep]. intros (Er & Efc & Hpc & Hlim & _) Hn [Hv Hno].
  cbn in Er, Efc. subst fc regs. apply valid_bound in Hpc. pose proof (limit_bound (w := w)).
  destruct (set_pc_run (w := w) r (get_pc r - 1)) as (r1 & E1 & Epc & Esp & Efp & Eg); [lia|].
  exists r1. split_and!; [done..|]. unfold FIRCLSUnwindNextFrameUsingAllStrategies. cbn [frameCount].
  rewrite (proj2 (Z.leb_gt _ _)), (proj2 (Z.ltb_lt 0 n)) by lia. cbv zeta.
  unfold FIRCLSUnwindGetPC. cbn [registers]. fold (get_pc r). rewrite wrap_small, E1, Hv by lia.
  cbn [negb with_registers frameCount]. rewrite (proj2 (Z.eqb_neq n 0)) by lia.
  assert (E : FIRCLSUnwindWithCompactUnwindInfo images (UnwindContext (Some r1) n cu last rep) w =
    Done (false, UnwindContext (Some r1) n cu last rep) w).
  { unfold FIRCLSUnwindWithCompactUnwindInfo, FIRCLSUnwindGetPC. cbn [registers]. fold (get_pc r1).
    rewrite Epc. cbv zeta. destruct (FIRCLSBinaryImageSafeFindImageForAddress _ _); [|done].
    by rewrite Hno. }
  cbn [registers compactUnwindState lastFramePC repeatCount] in *. rewrite (bind_done _ _ _ _ _ E).
  unfold FIRCLSUnwindGetFramePointer. cbn [registers frameCount]. fold (get_fp r1). by rewrite Efp.
Qed.

(** The rest of [FIRCLSUnwindNextFrame]. *)
Lemma next_frame_done c n r c' r' :
  at_frame c n r -> 0 <= n < FIRCLSUnwindMaxFrames ->
  FIRCLSUnwindNextFrameUsingAllStrategies images c w = Done (true, c') w -> at_frame c' n r' ->
  exists c2, FIRCLSUnwindNextFrame images c w = Done (true, c2) w /\ at_frame c2 (n + 1) r'.
Proof.
  intros (Er & _ & Hpc & _ & Hsp) Hn E (Er' & Efc & Hpc' & Hlim' & Hsp'). unfold FIRCLSUnwindMaxFrames in Hn.
  unfold FIRCLSUnwindNextFrame, FIRCLSUnwindContextHasValidPCAndSP, FIRCLSUnwindGetPC, FIRCLSUnwindGetStackPointer.
  rewrite Er. fold (get_pc r) (get_sp r). rewrite Hpc, Hsp.
  cbn [negb andb]. rewrite (bind_done _ _ _ _ _ E). cbn [negb]. cbv zeta.
  rewrite Er'. fold (get_pc r') (get_sp r'). rewrite Hpc', Hsp'. cbn [negb].
  eexists. split; [done|]. rewrite Efc, wrap_small by lia. by split_and!.
Qed.

(** Without a frame pointer the unwinder stops, and at the frame limit. *)
Lemma frames_end c n r :
  at_frame c n r -> 0 < n -> unknown_code images (get_pc r) ->
  get_fp r = 0 \/ FIRCLSUnwindMaxFrames <= n -> exists c', frames w images c [] c'.
Proof.
  intros Hc Hn Hu Hend. assert (Hc' := Hc). destruct Hc' as (Er & Efc & Hpc & _ & Hsp).
  assert (exists c', FIRCLSUnwindNextFrame images c w = Done (false, c') w) as [c' E].
  { unfold FIRCLSUnwindNextFrame, FIRCLSUnwindContextHasValidPCAndSP, FIRCLSUnwindGetPC, FIRCLSUnwindGetStackPointer.
    rewrite Er. fold (get_pc r) (get_sp r). rewrite Hpc, Hsp. cbn [negb andb].
    destruct (Z.leb_spec FIRCLSUnwindMaxFrames n) as [Hm|Hm].
    - unfold FIRCLSUnwindNextFrameUsingAllStrategies. rewrite Efc, (proj2 (Z.leb_le _ n)) by done. by eexists.
    - destruct (unknown_step c n r Hc ltac:(lia) Hu) as (r1 & _ & _ & _ & _ & E).
      rewrite (proj2 (Z.eqb_eq (get_fp r) 0)) in E by lia. pose proof (limit_bound (w := w)).
      destruct (set_pc_run (w := w) r1 0) as (r2 & E2 & Epc & _); [lia|]. rewrite E2 in E.
      rewrite (bind_done _ _ _ _ _ E). cbn [negb with_registers registers]. fold (get_pc r2). rewrite Epc.
      by eexists. }
  exists c'. by apply frames_stop.
Qed.

Lemma at_frame_pc c n r : at_frame c n r -> FIRCLSUnwindGetPC c = get_pc r.
Proof. intros [E _]. unfold FIRCLSUnwindGetPC. by rewrite E. Qed.

Lemma frames_step_at c c1 n r pc pcs c' :
  FIRCLSUnwindNextFrame images c w = Done (true, c1) w -> at_frame c1 n r ->
  get_pc r = pc -> frames w images c1 pcs c' -> frames w images c (pc :: pcs) c'.
Proof. intros E Hc <-. rewrite <- (at_frame_pc _ _ _ Hc). by apply frames_step. Qed.

(** One frame record. *)
Lemma record_step c n r saved ret :
  at_frame c n r -> 0 < n < FIRCLSUnwindMaxFrames -> unknown_code images (get_pc r) ->
  (n = 1 -> guess w r = Some None) ->
  FIRCLSIsValidPointer (get_fp r) = true -> get_fp r + 16 < address_limit w ->
  read_le (mem w) 8 (get_fp r) = Some saved -> read_le (mem w) 8 (get_fp r + 8) = Some ret ->
  FIRCLSIsValidPointer (strip w ret - 1) = true ->
  exists c2 r2, FIRCLSUnwindNextFrame images c w = Done (true, c2) w /\ at_frame c2 (n + 1) r2 /\
    get_pc r2 = strip w ret /\ get_fp r2 = strip w saved.
Proof.
  intros Hc Hn Hu Hg Hv Hhigh E1 E2 Hret. assert (Hvf := valid_bound _ Hv). apply valid_bound in Hret.
  destruct (unknown_step c n r Hc ltac:(lia) Hu) as (r1 & _ & _ & Efp & Eg & E).
  rewrite (proj2 (Z.eqb_neq _ 0)) in E by lia. rewrite <- Efp in Hv, Hhigh, E1, E2.
  destruct (record_run (w := w) r1 (n =? 1) saved ret) as (r2 & E3 & Hpc & Hsp & Hfp); [|done..|].
  { intros Hn1%Z.eqb_eq. rewrite Eg. auto. }
  rewrite (bind_done _ _ _ _ _ E3) in E.
  destruct (next_frame_done c n r (with_registers c (Some r2)) r2 Hc ltac:(lia) E) as (c2 & E4 & Hc2).
  - assert (Hb := strip_address (w := w) ret (read_le_bound _ 8 _ _ Hwf E2)). unfold at_frame.
    rewrite Hpc, Hsp. cbn [with_registers registers frameCount].
    split_and!; [done|apply Hc|apply Z.leb_le; lia|lia|apply Z.leb_le; lia].
  - by exists c2, r2.
Qed.

(** The frame of the guess. *)
Lemma guess_step c r v :
  at_frame c 1 r -> unknown_code images (get_pc r) -> get_fp r <> 0 -> guess w r = Some (Some v) ->
  FIRCLSIsValidPointer v = true -> v < address_limit w ->
  exists c2 r2, FIRCLSUnwindNextFrame images c w = Done (true, c2) w /\ at_frame c2 2 r2 /\
    get_pc r2 = v /\ get_fp r2 = get_fp r.
Proof.
  intros Hc Hu Hfp Hg Hv Hlim.
  destruct (unknown_step c 1 r Hc ltac:(unfold FIRCLSUnwindMaxFrames; lia) Hu) as (r1 & _ & Esp & Efp & Eg & E).
  rewrite (proj2 (Z.eqb_neq _ 0)) in E by done. rewrite Hg in Eg.
  destruct (guess_run (w := w) r1 v Eg) as (r2 & E2 & Hpc2 & Hsp2 & Hfp2).
  change (1 =? 1) with true in E. rewrite (bind_done _ _ _ _ _ E2) in E.
  destruct (next_frame_done c 1 r (with_registers c (Some r2)) r2 Hc ltac:(unfold FIRCLSUnwindMaxFrames; lia) E)
    as (c2 & E4 & Hc2).
  - unfold at_frame. rewrite Hpc2, Hsp2, Esp. cbn [with_registers registers frameCount]. by split_and!; try apply Hc.
  - exists c2, r2. split_and!; [done|done|done|congruence].
Qed.

(** From the third frame on, the unwinder follows the chain. *)
Lemma frames_chain c n r pcs :
  at_frame c n r -> 0 < n -> (n = 1 -> guess w r = Some None) ->
  frame_chain (get_fp r) pcs -> n + Z.of_nat (length pcs) <= FIRCLSUnwindMaxFrames ->
  Forall (unknown_code images) (get_pc r :: pcs) -> exists c', frames w images c pcs c'.
Proof.
  revert c n r. induction pcs as [|pc pcs IH]; intros c n r Hc Hn Hg Hchain Hlen Hu;
    inversion Hchain as [E|fp saved ret rets Hv Hhigh E1 E2 Hrest]; subst; apply Forall_cons in Hu as [Hu Hus].
  { eapply frames_end; eauto. }
  cbn [length] in Hlen. assert (Hup := Hus). apply Forall_cons in Hup as [[Hupc _] _].
  destruct (record_step c n r saved ret Hc ltac:(lia) Hu Hg Hv Hhigh E1 E2 Hupc) as (c2 & r2 & E' & Hc2 & Hpc & Hfp).
  destruct (IH c2 (n + 1) r2 Hc2 ltac:(lia) ltac:(lia)) as [c' Hf]; [by rewrite Hfp|lia|by rewrite Hpc|].
  exists c'. by eapply frames_step_at.
Qed.

(** The whole trace of a thread: the program counter, the guess where there is
    one, and the chain from the start. *)
Definition trace_of (r : thread_context) (g : option Z) (pcs : list Z) : list Z :=
  get_pc r :: option_list g ++ pcs.

Lemma first_frame r :
  FIRCLSIsValidPointer (get_pc r) = true -> get_pc r < address_limit w -> FIRCLSIsValidPointer (get_sp r) = true ->
  exists c, FIRCLSUnwindNextFrame images (FIRCLSUnwindInit r) w = Done (true, c) w /\ at_frame c 1 r.
Proof.
  intros Hpc Hlim Hsp.
  apply (next_frame_done (FIRCLSUnwindInit r) 0 r (FIRCLSUnwindInit r) r); [done| |..| done].
  - unfold FIRCLSUnwindMaxFrames. lia.
  - unfold FIRCLSUnwindNextFrameUsingAllStrategies. cbn. change (FIRCLSUnwindGetPC (FIRCLSUnwindInit r)) with (get_pc r). by rewrite Hpc.
Qed.

Lemma frames_of_chain r g pcs :
  FIRCLSIsValidPointer (get_pc r) = true -> get_pc r < address_limit w -> FIRCLSIsValidPointer (get_sp r) = true ->
  guess w r = Some g -> Forall (fun v => v < address_limit w) (option_list g) ->
  frame_chain (get_fp r) pcs -> pcs <> [] -> Z.of_nat (length pcs) <= FIRCLSUnwindMaxFrames - 2 ->
  Forall (unknown_code images) (trace_of r g pcs) ->
  exists c', frames w images (FIRCLSUnwindInit r) (trace_of r g pcs) c'.
Proof.
  intros Hpc Hlim Hsp Hg Hgl Hchain Hne Hlen Hu. destruct (first_frame r Hpc Hlim Hsp) as (c1 & E1 & Hc1).
  unfold trace_of in *. destruct g as [v|]; cbn [option_list app] in *.
  - apply Forall_cons in Hu as [Hu1 Hu], Hgl as [Hgl _]. assert (Hu2 := Hu). apply Forall_cons in Hu2 as [[Hv _] _].
    apply valid_bound in Hv.
    destruct (guess_step c1 r v Hc1 Hu1) as (c2 & r2 & E2 & Hc2 & Hpc2 & Hfp2); [|done|apply Z.leb_le; lia|done|].
    { inversion Hchain as [|fp saved ret rets Hvf]; subst; [done|]. apply valid_bound in Hvf. lia. }
    destruct (frames_chain c2 2 r2 pcs Hc2 ltac:(lia) ltac:(lia)) as [c' Hf]; [by rewrite Hfp2|lia|by rewrite Hpc2|].
    exists c'. eapply frames_step_at; [exact E1|exact Hc1|done|].
    by eapply frames_step_at.
  - destruct (frames_chain c1 1 r pcs Hc1 ltac:(lia) ltac:(done) Hchain ltac:(lia) Hu) as [c' Hf].
    exists c'. by eapply frames_step_at.
Qed.

End Chain.
