(* ===== verification/Arm64Theorems.v ===== *)
(** ARM64 implements the interface of an architecture: its steps end and keep the
    registers, and it follows frame records, with the link register as the return
    address of a function without one; what its registers and a step by the frame
    pointer are. *)
From S2P Require Import Prelude Memory DwarfData ThreadState Arm64State DwarfDataSpec DwarfExpression.
From S2P Require Import DwarfExpressionSpec DwarfUnwind DwarfUnwindSpec DwarfSafety CompactUnwind Arm64Unwind.
From S2P Require Import Unwind UnwindSafety FrameChain.

#[local] Arguments CLS_PTRAUTH_STRIP : simpl never.

#[local] Existing Instance arm64.

(** ** Frame pointers *)

Section FramePointer.
Context {VM : VmRead} {VMS : VmReadSpec}.

Lemma strip_bound p : 0 <= CLS_PTRAUTH_STRIP p < 2 ^ 36.
Proof.
  unfold CLS_PTRAUTH_STRIP. change 0xFFFFFFFFF with (Z.ones 36).
  rewrite Z.land_ones by lia. apply Z.mod_pos_bound. lia.
Qed.

Lemma strip_small p : 0 <= p < 2 ^ 36 -> CLS_PTRAUTH_STRIP p = p.
Proof.
  intros Hp. unfold CLS_PTRAUTH_STRIP. change 0xFFFFFFFFF with (Z.ones 36).
  rewrite Z.land_ones by lia. by apply Z.mod_small.
Qed.

Lemma frame_pointer_run regs (scan : bool) fp ret w :
  let frame := CLS_PTRAUTH_STRIP (ss_fp regs) in
  FIRCLSIsValidPointer frame = true ->
  read_le (mem w) 8 frame = Some fp -> read_le (mem w) 8 (frame + 8) = Some ret ->
  FIRCLSUnwindWithFramePointer (Some regs) scan w =
  Done (true, Some
    (if scan && FIRCLSIsValidPointer (CLS_PTRAUTH_STRIP (ss_lr regs))
     then with_pc regs (CLS_PTRAUTH_STRIP (ss_lr regs))
     else with_sp (with_fp (with_pc regs ret) fp) (frame + 16))) w.
Proof.
  intros frame Hv H1 H2. unfold FIRCLSUnwindWithFramePointer.
  apply fmap_Some in H1 as (b1 & H1 & ->). apply fmap_Some in H2 as (b2 & H2 & ->).
  pose proof (read_bytes_length _ _ _ _ H1) as Hl1.
  assert (Hr : FIRCLSReadMemory frame 16 w = Done (Some (b1 ++ b2)) w)
    by (apply read_memory_run; [done|by apply (read_bytes_app _ _ 8 8)]).
  assert (Hf : 0 <= frame < 2 ^ 36) by apply strip_bound.
  destruct scan; cbn [FIRCLSUnwindWithLRRegister FIRCLSThreadContextGetLinkRegister andb];
    [destruct (FIRCLSIsValidPointer (CLS_PTRAUTH_STRIP (ss_lr regs))); cbn [negb]; [done|]|];
    cbn [FIRCLSThreadContextGetFramePointer]; rewrite (bind_done _ _ _ _ _ Hr);
    rewrite <- Hl1, take_app_length, drop_app_length;
    unfold FIRCLSUnwindStackPointerFromFramePointer; by rewrite wrap_small by lia.
Qed.

(** ** The laws *)

Lemma link_register_steps w regs : steps w (mret (FIRCLSUnwindWithLRRegister (Some regs)) : M arm64_res).
Proof.
  apply ends_ret. split; [done|]. cbn. destruct (negb _); cbn; eauto.
Qed.

Lemma frame_pointer_steps w regs b : steps w (FIRCLSUnwindWithFramePointer (Some regs) b).
Proof.
  unfold FIRCLSUnwindWithFramePointer.
  assert (Hr : forall r, steps w (stack ← FIRCLSReadMemory (FIRCLSThreadContextGetFramePointer (Some r)) 16;
    match stack with
    | None => mret (false, Some r)
    | Some bs =>
        mret (true, Some (with_sp (with_fp (with_pc r (le_val (drop 8 bs))) (le_val (take 8 bs)))
          (FIRCLSUnwindStackPointerFromFramePointer (FIRCLSThreadContextGetFramePointer (Some r)))))
    end)).
  { intros r. apply ends_bind. eapply ends_mono; [apply quiet_read|].
    intros [bs|] w' ->; returns. }
  destruct b; [|apply Hr]. cbn [FIRCLSUnwindWithLRRegister].
  destruct (FIRCLSIsValidPointer _); cbn [negb]; [returns|apply Hr].
Qed.

#[export] Instance arm64_unwind_laws {AE : Arm64Encoding} uninit :
  UnwindArchLaws (UA := arm64_unwind uninit).
Proof.
  split; cbn [UnwindWithFramePointer CompactUnwindComputeRegisters arm64_unwind].
  - intros. apply frame_pointer_steps.
  - intros w c r regs Hlow Hwf. unfold FIRCLSCompactUnwindComputeRegisters.
    destruct c as [c|], r as [r|]; try (by returns). cbv zeta.
    destruct (_ =? _); [apply link_register_steps|].
    destruct (_ =? _); [by apply dwarf_frame_steps|]. destruct (_ =? _); [apply frame_pointer_steps|].
    returns.
Qed.

End FramePointer.

(** ** Frame records *)

(** The return address of a function without a frame is the link register. *)
Definition link_guess (r : FIRCLSThreadContext) : option Z :=
  let lr := CLS_PTRAUTH_STRIP (ss_lr r) in if FIRCLSIsValidPointer lr then Some lr else None.

Section FrameRecords.
Context {AE : Arm64Encoding} {VM : VmRead} {VMS : VmReadSpec}.
Context (uninit : FIRCLSDwarfCFIRecord) (w : world).

#[export] Instance arm64_frames : FrameRecords (UA := arm64_unwind uninit) w.
Proof.
  refine {| strip := CLS_PTRAUTH_STRIP; address_limit := 2 ^ 36;
            guess (r : @thread_context arm64) := Some (link_guess r) |}.
  - done.
  - intros v _. apply strip_bound.
  - intros r v Hv. eexists. split; [done|]. split; [by apply strip_small|done].
  - intros r v [= Hg]. unfold link_guess in Hg.
    cbn [UnwindWithFramePointer arm64_unwind]. unfold FIRCLSUnwindWithFramePointer.
    cbn [FIRCLSUnwindWithLRRegister FIRCLSThreadContextGetLinkRegister].
    destruct (FIRCLSIsValidPointer (CLS_PTRAUTH_STRIP (ss_lr r))); [|done]. injection Hg as <-.
    eexists. split; [done|]. split; [apply strip_small, strip_bound|done].
  - intros r scan saved ret Hg Hv Hlim E1 E2.
    assert (Hf : 0 <= get_fp (r : @thread_context arm64) < 2 ^ 36) by apply strip_bound.
    eexists. split; [exact (frame_pointer_run r scan saved ret w Hv E1 E2)|].
    replace (scan && FIRCLSIsValidPointer (CLS_PTRAUTH_STRIP (ss_lr r))) with false.
    + split; [done|]. split; [|done]. apply strip_small. fold (get_fp (r : @thread_context arm64)). lia.
    + destruct scan; [|done]. specialize (Hg eq_refl). injection Hg as Hg. unfold link_guess in Hg.
      cbn [andb]. by destruct (FIRCLSIsValidPointer _).
Defined.

End FrameRecords.

#[local] Existing Instance arm64.

(** ** Registers *)

(** setting a register by its DWARF number changes that register only,
    and the program counter with the link register; a number above 31 is
    refused and changes nothing. *)
Theorem register_get_set r n v w :
  0 <= n -> length (ss_x r) = 29%nat ->
  if n <? 32 then
    exists r', FIRCLSDwarfUnwindSetRegisterValue (Some r) n v w = Done (true, Some r') w /\
      length (ss_x r') = 29%nat /\
      (forall n', 0 <= n' < 32 ->
         arm64_field r' n' = if n' =? n then Some v else arm64_field r n') /\
      ss_pc r' = (if n =? CLS_DWARF_ARM64_LR then v else ss_pc r)
  else FIRCLSDwarfUnwindSetRegisterValue (Some r) n v w = Done (false, Some r) w.
Proof.
  intros Hn Hl. destruct (Z.ltb_spec n 32) as [Hlt|Hge].
  - destruct (arm64_set_register_run r n v w ltac:(lia) Hl) as (r' & E & Hl' & Hv & Hf & Hp).
    exists r'. split_and!; try done. intros n' Hn'. destruct (Z.eqb_spec n' n) as [->|Hne]; [done|].
    by apply Hf.
  - unfold FIRCLSDwarfUnwindSetRegisterValue, is_x_register, CLS_DWARF_ARM64_FP,
      CLS_DWARF_ARM64_SP, CLS_DWARF_ARM64_LR.
    rewrite (proj2 (Z.leb_gt n 28)), andb_false_r, !(proj2 (Z.eqb_neq _ _)) by lia. done.
Qed.

(** ** Steps *)

Section Steps.
Context {VM : VmRead} {VMS : VmReadSpec}.

(** unwinding by the frame pointer takes the return address and the caller's
    frame pointer from the two words at the frame pointer, the stack pointer
    from just above them, and leaves the other registers; with scanning allowed
    and a usable link register it only moves the program counter there. *)
Theorem frame_pointer_step regs (scan : bool) fp ret w :
  let frame := CLS_PTRAUTH_STRIP (ss_fp regs) in
  FIRCLSIsValidPointer frame = true ->
  read_le (mem w) 8 frame = Some fp -> read_le (mem w) 8 (frame + 8) = Some ret ->
  FIRCLSUnwindWithFramePointer (Some regs) scan w =
  Done (true, Some
    (if scan && FIRCLSIsValidPointer (CLS_PTRAUTH_STRIP (ss_lr regs))
     then with_pc regs (CLS_PTRAUTH_STRIP (ss_lr regs))
     else with_sp (with_fp (with_pc regs ret) fp) (frame + 16))) w.
Proof. exact (frame_pointer_run regs scan fp ret w). Qed.

End Steps.
