(* ===== verification/X86Spec.v ===== *)
(** x86_64 implements the interface of an architecture: its steps end and keep
    the registers, and it follows frame records, with the first address of code
    on the stack as the return address of a function without one. *)
From S2P Require Import Prelude Memory DwarfData ThreadState X86State DwarfDataSpec.
From S2P Require Import DwarfExpression DwarfExpressionSpec DwarfUnwind DwarfUnwindSpec.
From S2P Require Import DwarfSafety CompactUnwind Unwind X86Unwind UnwindSafety FrameChain.

#[local] Existing Instance x86_64.

(** ** The laws *)

Section Laws.
Context {XE : X86Encoding} {VM : VmRead} {VMS : VmReadSpec}.
Context (images : image_table) (uninit : FIRCLSDwarfCFIRecord).

Lemma bp_frame_steps w e regs : steps w (FIRCLSCompactUnwindBPFrame e (Some regs)).
Proof.
  unfold FIRCLSCompactUnwindBPFrame. apply ends_bind. eapply ends_mono; [apply quiet_read|].
  intros [bs|] w' ->; returns.
Qed.

Lemma scanning_steps w regs :
  low_mem (mem w) -> steps w (FIRCLSUnwindWithStackScanning images (Some regs)).
Proof.
  intros Hlow. unfold FIRCLSUnwindWithStackScanning. apply ends_bind.
  eapply ends_mono; [by apply first_executable_ends|]. intros [pc|] w' ->; returns.
Qed.

Lemma x86_frame_pointer_steps w regs scan :
  low_mem (mem w) -> steps w (FIRCLSUnwindWithFramePointer_x86_64 images (Some regs) scan).
Proof.
  intros Hlow. unfold FIRCLSUnwindWithFramePointer_x86_64. apply ends_bind.
  apply (ends_mono _ _ (fun x w' => w' = w /\ is_Some x.2)).
  - destruct scan; [by apply scanning_steps|returns].
  - intros [ok r] w' [-> [regs' Er]]. cbn in Er. subst r. destruct ok; [returns|apply bp_frame_steps].
Qed.

Lemma stack_size_quiet w e start b : quiet w (FIRCLSCompactUnwindComputeStackSize e start b).
Proof.
  unfold FIRCLSCompactUnwindComputeStackSize. cbv zeta. destruct (negb b); [apply quiet_ret|].
  apply quiet_bind; [apply quiet_read|]. intros [bs|]; apply quiet_ret.
Qed.

Lemma remap_loop_quiet w n i p s u : quiet w (remap_loop n i p s u).
Proof.
  revert i s u. induction n as [|n IH]; intros i s u; cbn [remap_loop]; [apply quiet_ret|].
  apply ends_bind, ends_of_option. intros t _. destruct (renumber_loop _ _ _ _); apply IH.
Qed.

Lemma restore_loop_steps w n i s regs a :
  ends (restore_loop n i s (Some regs) a) w (fun x w' => w' = w /\ is_Some x.1.2).
Proof.
  revert i regs a. induction n as [|n IH]; intros i regs a; cbn [restore_loop]; [returns|].
  apply ends_bind, ends_of_option. intros r _. destruct (_ =? _); [|apply IH].
  apply ends_bind. eapply ends_mono; [apply quiet_read|]. intros [bs|] w' ->; [|returns].
  cbn [FIRCLSThreadContextSetFramePointer_x86_64 negb]. apply IH.
Qed.

Lemma frameless_steps w e regs start b : steps w (FIRCLSCompactUnwindFrameless e (Some regs) start b).
Proof.
  unfold FIRCLSCompactUnwindFrameless. apply ends_bind.
  eapply ends_mono; [apply stack_size_quiet|]. intros [size|] w' ->; [|returns].
  destruct (FIRCLSCompactUnwindDecompressPermutation _ _) as [ok p]. destruct (negb ok); [returns|].
  apply ends_bind. apply (ends_mono _ _ (fun _ w' => w' = w)).
  { unfold FIRCLSCompactUnwindRemapRegisters. cbv zeta. destruct (_ <? _); [by apply ends_ret|].
    apply quiet_bind; [apply remap_loop_quiet|]. intros. apply quiet_ret. }
  intros [ok2 saved] w' ->. destruct (negb ok2); [returns|]. apply ends_bind.
  eapply ends_mono; [apply restore_loop_steps|]. intros [[ok3 r] a] w' [-> [r' Er]]. cbn in Er. subst r.
  destruct (negb ok3); [returns|]. apply ends_bind. eapply ends_mono; [apply quiet_read|].
  intros [bs|] w' ->; [|returns]. cbv zeta. destruct (negb _); returns.
Qed.

#[export] Instance x86_64_unwind_laws : UnwindArchLaws (UA := x86_64_unwind images uninit).
Proof.
  split; cbn [UnwindWithFramePointer CompactUnwindComputeRegisters x86_64_unwind].
  - intros. by apply x86_frame_pointer_steps.
  - intros w c r regs Hlow Hwf. unfold FIRCLSCompactUnwindComputeRegisters_x86_64.
    destruct c as [c|], r as [r|]; try (by returns). cbv zeta.
    destruct (_ =? _); [apply bp_frame_steps|]. destruct (_ =? _); [apply frameless_steps|].
    destruct (_ =? _); [apply frameless_steps|]. destruct (_ =? _); [by apply dwarf_frame_steps|returns].
Qed.

(** ** Frame records *)

Lemma bp_frame_run e regs fp ret w :
  FIRCLSIsValidPointer (ss_rbp regs) = true -> ss_rbp regs + 16 < 2 ^ 64 ->
  read_le (mem w) 8 (ss_rbp regs) = Some fp -> read_le (mem w) 8 (ss_rbp regs + 8) = Some ret ->
  FIRCLSCompactUnwindBPFrame e (Some regs) w =
    Done (true, Some (with_rsp (with_rbp (with_rip regs ret) fp) (ss_rbp regs + 16))) w.
Proof.
  intros Hv Hlim H1 H2. unfold FIRCLSCompactUnwindBPFrame. assert (Hb := valid_bound _ Hv).
  apply fmap_Some in H1 as (b1 & H1 & ->). apply fmap_Some in H2 as (b2 & H2 & ->).
  pose proof (read_bytes_length _ _ _ _ H1) as Hl1.
  assert (Hr : FIRCLSReadMemory (ss_rbp regs) 16 w = Done (Some (b1 ++ b2)) w)
    by (apply read_memory_run; [done|by apply (read_bytes_app _ _ 8 8)]).
  cbn [FIRCLSThreadContextGetFramePointer_x86_64]. rewrite (bind_done _ _ _ _ _ Hr).
  rewrite <- Hl1, take_app_length, drop_app_length.
  unfold FIRCLSUnwindStackPointerFromFramePointer_x86_64. by rewrite wrap_small by lia.
Qed.

(** What the scan of the stack finds. *)
Definition scan_guess (w : world) (r : X86ThreadContext) : option (option Z) :=
  match FIRCLSUnwindFirstExecutableAddress images (ss_rsp r) (ss_rbp r) w with
  | Done pc _ => Some pc
  | _ => None
  end.

Lemma scan_guess_run w r g :
  low_mem (mem w) -> scan_guess w r = Some g ->
  FIRCLSUnwindFirstExecutableAddress images (ss_rsp r) (ss_rbp r) w = Done g w.
Proof.
  intros Hlow. unfold scan_guess. pose proof (first_executable_ends w images (ss_rsp r) (ss_rbp r) Hlow) as H.
  unfold quiet, ends in H. destruct (FIRCLSUnwindFirstExecutableAddress _ _ _ w) as [pc w'| |]; [|done..].
  intros [= <-]. by subst w'.
Qed.

#[export] Instance x86_64_frames w (Hlow : low_mem (mem w)) : FrameRecords (UA := x86_64_unwind images uninit) w.
Proof.
  refine {| strip v := v; address_limit := 2 ^ 64; guess := scan_guess w : @thread_context x86_64 -> _ |}.
  - done.
  - done.
  - intros r v _. exists (with_rip r v). by split_and!.
  - intros r v Hg. apply (scan_guess_run w r _ Hlow) in Hg. exists (with_rip r v). split; [|by split_and!].
    cbn [UnwindWithFramePointer x86_64_unwind]. unfold FIRCLSUnwindWithFramePointer_x86_64.
    assert (E : FIRCLSUnwindWithStackScanning images (Some r) w = Done (true, Some (with_rip r v)) w)
      by (unfold FIRCLSUnwindWithStackScanning; cbn [FIRCLSThreadContextGetStackPointer_x86_64
            FIRCLSThreadContextGetFramePointer_x86_64]; by rewrite (bind_done _ _ _ _ _ Hg)).
    by rewrite (bind_done _ _ _ _ _ E).
  - intros r scan saved ret Hg Hv Hlim E1 E2. pose proof (bp_frame_run CLS_X86_MODE_BP_FRAME r saved ret w Hv Hlim E1 E2) as E.
    exists (with_rsp (with_rbp (with_rip r ret) saved) (ss_rbp r + 16)). split; [|by split_and!]. cbn [UnwindWithFramePointer x86_64_unwind].
    unfold FIRCLSUnwindWithFramePointer_x86_64. destruct scan.
    + specialize (Hg eq_refl). apply (scan_guess_run w r _ Hlow) in Hg.
      assert (E0 : FIRCLSUnwindWithStackScanning images (Some r) w = Done (false, Some r) w)
        by (unfold FIRCLSUnwindWithStackScanning; cbn [FIRCLSThreadContextGetStackPointer_x86_64
              FIRCLSThreadContextGetFramePointer_x86_64]; by rewrite (bind_done _ _ _ _ _ Hg)).
      rewrite (bind_done _ _ _ _ _ E0). exact E.
    + exact E.
Defined.

End Laws.
