(* ===== verification/X86Theorems.v ===== *)
(** Functions without a frame pointer on x86_64: the number that stands for the order
    in which a function pushes its registers is decoded to the registers, and the
    frame of the function is undone; the properties of the unwinder that say so. *)
From S2P Require Import Prelude Memory DwarfData ThreadState X86State DwarfDataSpec DwarfExpression.
From S2P Require Import DwarfExpressionSpec DwarfUnwind CompactUnwind Unwind X86Unwind.

#[local] Existing Instance x86_64.

(** ** The order of the saved registers *)

(** Where a register stands in a list. *)
Definition place (u : Z) (free : list Z) : nat := default O (fst <$> list_find (eq u) free).

(** The place of each register among those that are not named before it. *)
Fixpoint places (free saved : list Z) : list Z :=
  match saved with
  | [] => []
  | u :: saved => Z.of_nat (place u free) :: places (filter (.≠ u) free) saved
  end.

(** What a place counts for: the orders of the registers that are left. *)
Definition weights (n : nat) : list Z :=
  match n with
  | 0%nat => []
  | 1%nat => [1]
  | 2%nat => [5; 1]
  | 3%nat => [20; 4; 1]
  | 4%nat => [60; 12; 3; 1]
  | 5%nat => [120; 24; 6; 2; 1]
  | _ => [120; 24; 6; 2; 1; 0]
  end.

(** The number of an order, as a compiler computes it. *)
Definition permutation_number (saved : list Z) : Z :=
  foldr Z.add 0 (zip_with Z.mul (places (seqZ 1 6) saved) (weights (length saved))).

(** Registers a function can save, [free] being those it has not saved before. *)
Definition savable (free saved : list Z) : Prop := NoDup saved /\ Forall (.∈ free) saved.

Lemma place_lookup u free : u ∈ free -> free !! place u free = Some u.
Proof.
  intros Hu. unfold place. destruct (list_find_elem_of (eq u) free u Hu eq_refl) as [[i v] E].
  rewrite E. cbn. by apply list_find_Some in E as (E & <- & _).
Qed.

Lemma savable_tail free u saved : savable free (u :: saved) -> u ∈ free /\ savable (filter (.≠ u) free) saved.
Proof.
  intros [[Hu Hd]%NoDup_cons [Hf Hs]%Forall_cons]. split; [done|]. split; [done|].
  rewrite Forall_forall in Hs |- *. intros v Hv. apply list_elem_of_filter. split; [by intros ->|by apply Hs].
Qed.

Lemma filter_length_lt (u : Z) free : u ∈ free -> (length (filter (.≠ u) free) < length free)%nat.
Proof. intros Hu. apply (length_filter_lt _ _ u); [done|]. by intros H. Qed.

Lemma length_places free saved : length (places free saved) = length saved.
Proof. revert free. induction saved as [|u saved IH]; intros free; cbn; [done|]. by rewrite IH. Qed.

Lemma savable_length free saved : savable free saved -> (length saved <= length free)%nat.
Proof.
  revert free. induction saved as [|u saved IH]; intros free Hs; cbn [length]; [lia|].
  apply savable_tail in Hs as [Hu Hs]. specialize (IH _ Hs). pose proof (filter_length_lt u free Hu). lia.
Qed.

(** Each place is one of those that are left. *)
Lemma place_bound free saved j d :
  savable free saved -> places free saved !! j = Some d -> 0 <= d < Z.of_nat (length free) - Z.of_nat j.
Proof.
  revert free j. induction saved as [|u saved IH]; intros free j Hs; [done|].
  apply savable_tail in Hs as [Hu Hs]. pose proof (filter_length_lt u free Hu).
  destruct j as [|j]; cbn [places lookup list_lookup].
  - intros [= <-]. pose proof (lookup_lt_Some _ _ _ (place_lookup u free Hu)). lia.
  - intros Hd. specialize (IH _ j Hs Hd). lia.
Qed.

(** *** Taking numbers *)

(** The numbers that are not taken. *)
Definition unused (used : list bool) (us : list Z) : list Z :=
  filter (fun u => default false (used !! Z.to_nat u) = false) us.

Lemma renumber_run us used renum k :
  renumber_loop us used renum (renum + Z.of_nat k) = unused used us !! k.
Proof.
  revert renum k. induction us as [|u us IH]; intros renum k; [done|].
  cbn [renumber_loop]. unfold unused. rewrite filter_cons.
  destruct (default false _); case_decide as Hd; try done; try apply IH.
  destruct k as [|k]; [by rewrite (proj2 (Z.eqb_eq _ _)) by lia|].
  rewrite (proj2 (Z.eqb_neq _ _)) by lia.
  replace (renum + Z.of_nat (S k)) with (renum + 1 + Z.of_nat k) by lia. apply IH.
Qed.

Lemma unused_take used u us :
  Forall (fun x => 0 <= x) us -> 0 <= u -> (Z.to_nat u < length used)%nat ->
  unused (<[Z.to_nat u := true]> used) us = filter (.≠ u) (unused used us).
Proof.
  intros Hp Hu Hl. unfold unused. rewrite list_filter_filter.
  induction Hp as [|x us Hx Hp IH]; [done|]. rewrite !filter_cons.
  assert (Heq : default false (<[Z.to_nat u := true]> used !! Z.to_nat x) = false <->
    x <> u /\ default false (used !! Z.to_nat x) = false).
  { destruct (decide (x = u)) as [->|Hne].
    - rewrite list_lookup_insert_eq by done. cbn. split; [done|by intros [? _]].
    - rewrite list_lookup_insert_ne by lia. split; [by split|by intros [_ ?]]. }
  repeat case_decide; rewrite ?IH; try done; exfalso; tauto.
Qed.

(** The loop takes the numbers of the registers, in the order of their places. *)
Lemma remap_loop_run saved pre rest permutated used w :
  savable (unused used (seqZ 1 6)) saved -> length used = 7%nat -> (length saved <= length rest)%nat ->
  (forall j, (j < length saved)%nat ->
     permutated !! (length pre + j)%nat = places (unused used (seqZ 1 6)) saved !! j) ->
  remap_loop (length saved) (length pre) permutated (pre ++ rest) used w =
    Done (pre ++ saved ++ drop (length saved) rest) w.
Proof.
  revert pre rest used. induction saved as [|u saved IH]; intros pre rest used Hs Hu Hl Hp; [done|].
  destruct rest as [|r rest]; [cbn in Hl; lia|]. cbn [length remap_loop drop].
  apply savable_tail in Hs as [Hin Hs].
  pose proof (Hp 0%nat ltac:(cbn; lia)) as Hp0. rewrite Nat.add_0_r in Hp0. rewrite Hp0.
  cbn [places lookup list_lookup of_option]. rewrite bind_ret.
  rewrite (renumber_run (seqZ 1 6) used 0 (place u _) : renumber_loop _ _ 0 (Z.of_nat _) = _).
  rewrite (place_lookup u _ Hin).
  assert (Hr : 1 <= u < 7) by (apply list_elem_of_filter in Hin as [_ Hin]; apply elem_of_seqZ in Hin; lia).
  assert (Hf : Forall (fun x => 0 <= x) (seqZ 1 6)) by (apply Forall_forall; intros x Hx%elem_of_seqZ; lia).
  rewrite <- (unused_take used u _ Hf ltac:(lia) ltac:(lia)) in Hs.
  rewrite insert_app_r_alt, Nat.sub_diag by done. cbn [insert list_insert app].
  replace (S (length pre)) with (length (pre ++ [u])) by (rewrite length_app; cbn; lia).
  rewrite (cons_middle u pre rest), (cons_middle u pre (saved ++ drop _ rest)), !(app_assoc pre [u]).
  apply IH; [done|by rewrite length_insert|cbn in Hl; lia|].
  intros j Hj. rewrite (unused_take used u _ Hf ltac:(lia) ltac:(lia)), length_app. cbn [length].
  rewrite <- Nat.add_assoc. exact (Hp (S j) ltac:(cbn; lia)).
Qed.

(** *** Dividing the number of an order *)

Lemma divide_step d q r qs :
  0 <= d -> 0 <= r < q -> d * q + r < 2 ^ 32 ->
  divide_permutation (d * q + r) (q :: qs) = d :: divide_permutation r qs.
Proof.
  intros Hd Hr Hlim. cbn [divide_permutation].
  rewrite Z.div_add_l, Z.div_small, Z.add_0_r by lia. do 2 f_equal.
  replace (d * q + r - d * q) with r by lia. apply wrap_small. nia.
Qed.

(** The case of the number of registers that is known. *)
Ltac select_count :=
  repeat match goal with |- context [Z.of_nat ?n =? ?k] =>
    let b := eval vm_compute in (Z.of_nat n =? k) in change (Z.of_nat n =? k) with b end;
  cbn -[divide_permutation].

Ltac divide_digits :=
  cbn -[divide_permutation]; select_count; rewrite ?divide_step by lia; cbn [divide_permutation app];
  repeat f_equal; lia.

Section Decoding.
Context {XE : X86Encoding}.

Lemma decompress_run ds e :
  (length ds <= 6)%nat -> (forall j d, ds !! j = Some d -> 0 <= d < 6 - Z.of_nat j) ->
  GET_BITS_WITH_MASK e CLS_X86_FRAMELESS_STACK_REG_COUNT = Z.of_nat (length ds) ->
  GET_BITS_WITH_MASK e CLS_X86_FRAMELESS_STACK_REG_PERMUTATION =
    foldr Z.add 0 (zip_with Z.mul ds (weights (length ds))) ->
  FIRCLSCompactUnwindDecompressPermutation e (replicate 6 0) = (true, ds ++ replicate (6 - length ds) 0).
Proof.
  intros Hl Hb Ec Ep. unfold FIRCLSCompactUnwindDecompressPermutation. rewrite Ec, Ep. clear Ec Ep.
  assert (Hb0 := Hb 0%nat). assert (Hb1 := Hb 1%nat). assert (Hb2 := Hb 2%nat).
  assert (Hb3 := Hb 3%nat). assert (Hb4 := Hb 4%nat). assert (Hb5 := Hb 5%nat). clear Hb.
  destruct ds as [|d0 ds]; [done|]. specialize (Hb0 d0 eq_refl).
  destruct ds as [|d1 ds]; [divide_digits|]. specialize (Hb1 d1 eq_refl).
  destruct ds as [|d2 ds]; [divide_digits|]. specialize (Hb2 d2 eq_refl).
  destruct ds as [|d3 ds]; [divide_digits|]. specialize (Hb3 d3 eq_refl).
  destruct ds as [|d4 ds]; [divide_digits|]. specialize (Hb4 d4 eq_refl).
  destruct ds as [|d5 ds]; [divide_digits|]. specialize (Hb5 d5 eq_refl).
  destruct ds as [|d6 ds]; [divide_digits|cbn in Hl; lia].
Qed.

(** The registers that a function saves are decoded from the number of their
    order. *)
Lemma registers_decoded saved e w :
  savable (seqZ 1 6) saved ->
  GET_BITS_WITH_MASK e CLS_X86_FRAMELESS_STACK_REG_COUNT = Z.of_nat (length saved) ->
  GET_BITS_WITH_MASK e CLS_X86_FRAMELESS_STACK_REG_PERMUTATION = permutation_number saved ->
  exists permutated,
    FIRCLSCompactUnwindDecompressPermutation e (replicate 6 0) = (true, permutated) /\
    FIRCLSCompactUnwindRemapRegisters e permutated (replicate 6 0) w =
      Done (true, saved ++ replicate (6 - length saved) 0) w.
Proof.
  intros Hs Ec Ep. pose proof (savable_length _ _ Hs) as Hl. rewrite length_seqZ in Hl.
  exists (places (seqZ 1 6) saved ++ replicate (6 - length saved) 0). split.
  - rewrite <- (length_places (seqZ 1 6) saved). apply decompress_run; rewrite ?length_places; try done.
    intros j d Hd. exact (place_bound _ _ _ _ Hs Hd).
  - unfold FIRCLSCompactUnwindRemapRegisters. cbv zeta. rewrite Ec, Nat2Z.id.
    rewrite (proj2 (Z.ltb_ge _ _)) by lia.
    rewrite (bind_done _ _ _ _ _ (remap_loop_run saved [] (replicate 6 0) _ (replicate 7 false) w
      Hs eq_refl ltac:(cbn; lia) ltac:(intros j Hj; apply lookup_app_l; by rewrite length_places))).
    cbn [app]. by rewrite drop_replicate.
Qed.

End Decoding.

(** ** The frame of a function *)

Section Frame.
Context {XE : X86Encoding} {VM : VmRead} {VMS : VmReadSpec}.

(** The size of the frame: in the encoding, or in the instruction that makes
    room for the frame, with what was pushed before. *)
Definition stack_size (m : gmap Z Z) (e start : Z) (indirect : bool) : option Z :=
  let field := GET_BITS_WITH_MASK e CLS_X86_FRAMELESS_STACK_SIZE in
  if indirect then
    v ← read_le m 4 (start + field); Some (v + 8 * GET_BITS_WITH_MASK e CLS_X86_FRAMELESS_STACK_ADJUST)
  else Some (8 * field).

(** The frame pointer of the caller: in the slot it was saved in, or where it
    was. *)
Definition caller_frame_pointer (m : gmap Z Z) (regs : X86ThreadContext) (slots : Z) (saved : list Z) (fp : Z) : Prop :=
  match list_find (eq CLS_X86_REG_RBP) saved with
  | Some (i, _) =>
      let slot := slots + 8 * Z.of_nat i in
      FIRCLSIsValidPointer slot = true /\ read_le m 8 slot = Some fp
  | None => fp = ss_rbp regs
  end.

Lemma read_memory_le a n v w :
  FIRCLSIsValidPointer a = true -> read_le (mem w) n a = Some v ->
  exists bs, FIRCLSReadMemory a n w = Done (Some bs) w /\ le_val bs = v.
Proof. intros Ha (bs & Hr & ->)%fmap_Some. exists bs. split; [by apply read_memory_run|done]. Qed.

Lemma stack_size_run e start (indirect : bool) size w :
  stack_size (mem w) e start indirect = Some size -> 0 <= size < 2 ^ 32 ->
  (indirect = true ->
     let a := start + GET_BITS_WITH_MASK e CLS_X86_FRAMELESS_STACK_SIZE in
     FIRCLSIsValidPointer a = true /\ a < 2 ^ 64) ->
  FIRCLSCompactUnwindComputeStackSize e start indirect w = Done (Some size) w.
Proof.
  intros Hs Hb Hi. unfold FIRCLSCompactUnwindComputeStackSize. cbv zeta. unfold stack_size in Hs.
  destruct indirect; cbn [negb].
  - destruct (Hi eq_refl) as [Hv Hlim]. apply bind_Some in Hs as (v & Hr & [= <-]).
    pose proof (valid_bound _ Hv). rewrite (wrap_small 64) by lia.
    destruct (read_memory_le _ 4 v w Hv Hr) as (bs & E & <-). rewrite (bind_done _ _ _ _ _ E).
    by rewrite (Z.mul_comm _ 8), wrap_small by lia.
  - injection Hs as <-. by rewrite (Z.mul_comm _ 8), wrap_small by lia.
Qed.

Lemma restore_loop_run saved pre rest regs a fp w :
  NoDup saved -> 0 <= a -> a + 8 * Z.of_nat (length saved) < 2 ^ 64 ->
  caller_frame_pointer (mem w) regs a saved fp ->
  restore_loop (length saved) (length pre) (pre ++ saved ++ rest) (Some regs) a w =
    Done (true, Some (with_rbp regs fp), a + 8 * Z.of_nat (length saved)) w.
Proof.
  revert pre regs a. induction saved as [|u saved IH]; intros pre regs a Hd Ha Hlim Hfp.
  - cbn in Hfp |- *. subst fp. rewrite Z.add_0_r. by destruct regs.
  - apply NoDup_cons in Hd as [Hu Hd]. cbn [length restore_loop app] in *.
    rewrite list_lookup_middle by done. cbn [of_option]. rewrite bind_ret.
    assert (Hnext : forall regs', caller_frame_pointer (mem w) regs' (a + 8) saved fp ->
      restore_loop (length saved) (S (length pre)) (pre ++ u :: saved ++ rest) (Some regs') (u64 (a + 8)) w =
        Done (true, Some (with_rbp regs' fp), a + 8 * Z.of_nat (S (length saved))) w).
    { intros regs' Hfp'. rewrite (wrap_small 64 (a + 8)), cons_middle, app_assoc by lia.
      replace (S (length pre)) with (length (pre ++ [u])) by (rewrite length_app; cbn; lia).
      rewrite (IH (pre ++ [u]) regs' (a + 8)) by (done || lia). rewrite Nat2Z.inj_succ, <- Z.add_1_l, Z.mul_add_distr_l, Z.add_assoc. done. }
    unfold caller_frame_pointer in Hfp. cbn [list_find] in Hfp. destruct (Z.eqb_spec u CLS_X86_REG_RBP) as [->|Hne].
    + rewrite decide_True in Hfp by done. cbn in Hfp. rewrite Z.add_0_r in Hfp. destruct Hfp as [Hv Hr].
      destruct (read_memory_le _ _ _ _ Hv Hr) as (bs & E & <-). rewrite (bind_done _ _ _ _ _ E).
      cbn [FIRCLSThreadContextSetFramePointer_x86_64 negb]. rewrite Hnext; [done|].
      unfold caller_frame_pointer. destruct (list_find (eq CLS_X86_REG_RBP) saved) as [[i v]|] eqn:Ef; [|done].
      apply list_find_Some in Ef as (Ef & <- & _). by apply list_elem_of_lookup_2 in Ef.
    + rewrite decide_False in Hfp by congruence. apply Hnext. unfold caller_frame_pointer.
      destruct (list_find _ saved) as [[i v]|]; [|done]. cbn in Hfp.
      by replace (a + 8 + 8 * Z.of_nat i) with (a + 8 * Z.of_nat (S i)) by lia.
Qed.

(** What the encoding says of a function without a frame pointer: how many
    registers it saves, and in which order. *)
Record saves (e : Z) (saved : list Z) : Prop := {
  saves_registers : savable (seqZ 1 6) saved;
  saves_count : GET_BITS_WITH_MASK e CLS_X86_FRAMELESS_STACK_REG_COUNT = Z.of_nat (length saved);
  saves_order : GET_BITS_WITH_MASK e CLS_X86_FRAMELESS_STACK_REG_PERMUTATION = permutation_number saved
}.

(** The frame in memory: [size] bytes from the stack pointer, at their end the
    return address and below it the saved registers. *)
Record frame_at (m : gmap Z Z) (regs : X86ThreadContext) (saved : list Z) (size fp ret : Z) : Prop := {
  frame_size : 8 + 8 * Z.of_nat (length saved) <= size < 2 ^ 32;
  frame_space : 0 <= ss_rsp regs /\ ss_rsp regs + size < 2 ^ 64;
  frame_saved : caller_frame_pointer m regs (ss_rsp regs + size - 8 - 8 * Z.of_nat (length saved)) saved fp;
  frame_return : FIRCLSIsValidPointer (ss_rsp regs + size - 8) = true;
  frame_address : read_le m 8 (ss_rsp regs + size - 8) = Some ret;
  frame_code : FIRCLSIsValidPointer ret = true
}.

Lemma frameless_run e start (indirect : bool) regs saved size fp ret w :
  saves e saved -> frame_at (mem w) regs saved size fp ret ->
  FIRCLSCompactUnwindComputeStackSize e start indirect w = Done (Some size) w ->
  FIRCLSCompactUnwindFrameless e (Some regs) start indirect w =
    Done (true, Some (with_rsp (with_rip (with_rbp regs fp) ret) (ss_rsp regs + size))) w.
Proof.
  intros [Hs Ec Eo] [Hsize Hsp Hfp Hv Hr Hc] Esize. unfold FIRCLSCompactUnwindFrameless.
  rewrite (bind_done _ _ _ _ _ Esize). destruct (registers_decoded saved e w Hs Ec Eo) as (p & Ed & Em).
  rewrite Ed. cbn [negb]. rewrite (bind_done _ _ _ _ _ Em). cbn [negb].
  assert (Er : FIRCLSCompactUnwindRestoreRegisters e (Some regs) size (saved ++ replicate (6 - length saved) 0) w =
    Done (true, Some (with_rbp regs fp), ss_rsp regs + size - 8) w).
  { unfold FIRCLSCompactUnwindRestoreRegisters. cbv zeta. cbn [FIRCLSThreadContextGetStackPointer_x86_64].
    rewrite Ec, Nat2Z.id, wrap_small by lia.
    etransitivity; [exact (restore_loop_run saved [] _ regs (ss_rsp regs + size - 8 - 8 * Z.of_nat (length saved)) fp w
      (proj1 Hs) ltac:(lia) ltac:(lia) Hfp)|]. by rewrite Z.sub_add. }
  rewrite (bind_done _ _ _ _ _ Er). cbn [negb].
  destruct (read_memory_le _ _ _ _ Hv Hr) as (bs & E & <-). rewrite (bind_done _ _ _ _ _ E), Hc.
  cbn [negb FIRCLSThreadContextSetPC_x86_64]. by rewrite (wrap_small 64), Z.sub_add by lia.
Qed.

End Frame.

#[local] Existing Instance x86_64.

Section X86.
Context {XE : X86Encoding} {VM : VmRead} {VMS : VmReadSpec}.

(** C35: the order in which a function saves registers is a round trip: from the
    number that a compiler writes for any distinct registers of the six, however
    many, decompressing and renumbering give the registers back, in their order. *)
Theorem saved_registers_roundtrip e saved w :
  savable (seqZ 1 6) saved ->
  GET_BITS_WITH_MASK e CLS_X86_FRAMELESS_STACK_REG_COUNT = Z.of_nat (length saved) ->
  GET_BITS_WITH_MASK e CLS_X86_FRAMELESS_STACK_REG_PERMUTATION = permutation_number saved ->
  exists permutated,
    FIRCLSCompactUnwindDecompressPermutation e (replicate 6 0) = (true, permutated) /\
    FIRCLSCompactUnwindRemapRegisters e permutated (replicate 6 0) w =
      Done (true, saved ++ replicate (6 - length saved) 0) w.
Proof. exact (registers_decoded saved e w). Qed.

(** C34: the step from a function without a frame pointer undoes its frame. The
    program counter becomes the return address at the end of the frame, the
    stack pointer the address behind it, the frame pointer the one of its slot
    if the function saved it, and nothing else changes, whether the size of the
    frame is in the encoding or in the code of the function. *)
Theorem frameless_step images uninit c r regs (indirect : bool) saved size fp ret w :
  NoDup [CLS_X86_MODE_BP_FRAME; CLS_X86_MODE_STACK_IMMD; CLS_X86_MODE_STACK_IND] ->
  Z.land (encoding r) CLS_X86_MODE_MASK =
    (if indirect then CLS_X86_MODE_STACK_IND else CLS_X86_MODE_STACK_IMMD) ->
  saves (encoding r) saved ->
  stack_size (mem w) (encoding r) (functionStart r) indirect = Some size ->
  (indirect = true ->
     let a := functionStart r + GET_BITS_WITH_MASK (encoding r) CLS_X86_FRAMELESS_STACK_SIZE in
     FIRCLSIsValidPointer a = true /\ a < 2 ^ 64) ->
  frame_at (mem w) regs saved size fp ret ->
  CompactUnwindComputeRegisters (UnwindArch := x86_64_unwind images uninit) (Some c) (Some r) (Some regs) w =
    Done (true, Some (with_rsp (with_rip (with_rbp regs fp) ret) (ss_rsp regs + size))) w.
Proof.
  intros Hmodes Hmode Hsaves Hsize Hind Hframe.
  rewrite !NoDup_cons in Hmodes. destruct Hmodes as (H1 & H2 & _).
  apply not_elem_of_cons in H1 as [H1 [H3 _]%not_elem_of_cons], H2 as [H2 _].
  assert (Hrun := frameless_run (encoding r) (functionStart r) indirect regs saved size fp ret w Hsaves Hframe
    (stack_size_run _ _ _ _ _ Hsize ltac:(destruct Hframe; lia) Hind)).
  cbn [CompactUnwindComputeRegisters x86_64_unwind]. unfold FIRCLSCompactUnwindComputeRegisters_x86_64.
  cbv zeta. rewrite Hmode. destruct indirect; rewrite (proj2 (Z.eqb_neq _ CLS_X86_MODE_BP_FRAME)) by congruence.
  - by rewrite (proj2 (Z.eqb_neq _ CLS_X86_MODE_STACK_IMMD)), Z.eqb_refl by congruence.
  - by rewrite Z.eqb_refl.
Qed.

End X86.
