(* ===== verification/UnwindTheorems.v ===== *)
(** The properties of Crashlytics' unwinder above the DWARF data: the lookup of
    compact unwind tables, the step to the next frame and the stack trace of a
    thread; and at concrete inputs: an image with a compact unwind table, and threads
    stopped in code without one, on ARM64; functions without a frame pointer whose
    encoding names the registers they save, on x86_64; the same chain theorem for both
    architectures. *)
From S2P Require Import Prelude Memory DwarfData ThreadState Arm64State X86State DwarfDataSpec.
From S2P Require Import DwarfExpression DwarfExpressionSpec DwarfUnwind DwarfUnwindSpec DwarfSafety.
From S2P Require Import DwarfTheorems CompactUnwind Arm64Unwind CompactSpec Unwind X86Unwind UnwindSafety.
From S2P Require Import FrameChain Arm64Theorems X86Spec X86Theorems.

(** ** Compact unwind tables *)

Section Compact.
Context {CE : CompactEncoding}.

(** in a page whose entries are ordered, the binary search ends. For an
    address before the first entry it gives the first; between two entries the
    one entry whose function holds the address; from the last entry on it fails. *)
Theorem binary_search_exact w array ws address first last :
  words_at (mem w) array ws -> ordered (UNWIND_INFO_COMPRESSED_ENTRY_FUNC_OFFSET <$> ws) ->
  Z.of_nat (length ws) < 2 ^ 16 -> 0 < array -> address <> 0 ->
  ws !! 0%nat = Some first -> ws !! (length ws - 1)%nat = Some last ->
  exists found k,
    FIRCLSCompactUnwindBinarySearchSecondLevel address 0 (Z.of_nat (length ws)) array w =
      Done (found, Z.of_nat k) w /\
    if address <? UNWIND_INFO_COMPRESSED_ENTRY_FUNC_OFFSET first then found = true /\ k = 0%nat
    else if address <? UNWIND_INFO_COMPRESSED_ENTRY_FUNC_OFFSET last then
      found = true /\ forall j, encloses ws address j <-> j = k
    else found = false /\ k = (length ws - 1)%nat.
Proof.
  intros Hws Hord Hn Harr Ha Ef El. assert (Hc := lookup_lt_Some _ _ _ Ef).
  destruct (binary_search_run w array ws address Hws Hord ltac:(lia) first last Harr Ha Ef El) as (found & k & E & H).
  exists found, k. split; [done|]. destruct (_ <? _); [done|]. destruct (_ <? _); [|done].
  destruct H as [-> Hk]. split; [done|]. intros j. split; [|by intros ->].
  intros Hj. by apply (encloses_unique ws address Hord ltac:(lia) j k).
Qed.

(** the last function of a page is not found: from its start to the end of the
    index entry's range the lookup fails, although the code past the search gives
    that function an end. *)
Theorem compact_last_function_lost c es i e e' ws last pc r w :
  let ptr := unwindInfo c + secondLevelPagesSectionOffset e in
  let start_ := loadAddress c + functionOffset e in
  UNWIND_SECOND_LEVEL_REGULAR <> UNWIND_SECOND_LEVEL_COMPRESSED ->
  indexed (mem w) c es -> es !! i = Some e -> es !! S i = Some e' ->
  page_at (mem w) ptr ws -> ws !! (length ws - 1)%nat = Some last ->
  0 <= loadAddress c -> 0 <= functionOffset e -> 0 < ptr < 2 ^ 64 -> pc < 2 ^ 64 ->
  start_ < pc < loadAddress c + functionOffset e' ->
  start_ + UNWIND_INFO_COMPRESSED_ENTRY_FUNC_OFFSET last <= pc ->
  FIRCLSCompactUnwindLookup (Some c) pc (Some r) w =
  Done (false, Some (context_with_index c e (functionOffset e')), Some zero_result) w.
Proof.
  intros ptr start_ Hkind Hi Ee Ee' Hp El Hl Hf Hptr H64 Hpc1 Hpc2. unfold FIRCLSCompactUnwindLookup.
  rewrite (bind_done _ _ _ _ _ (first_level_run c es i e e' pc w Hi Ee Ee' ltac:(lia) Hl Hf ltac:(lia))).
  cbn [negb]. assert (Hs : 0 <= start_ < pc /\ pc < 2 ^ 64) by (unfold start_ in *; lia).
  by rewrite (bind_done _ _ _ _ _ (second_level_last (context_with_index c e (functionOffset e'))
    ws pc w Hptr Hp Hs Hkind r last El Hpc2)).
Qed.


End Compact.

(** ** Steps and stack traces *)

Section Traces.
Context {CE : CompactEncoding} {VM : VmRead} {VMS : VmReadSpec}.
Context {TS : ThreadState} {TL : ThreadStateLaws} {UA : UnwindArch} {UL : UnwindArchLaws}.
Context (images : image_table).

(** computing the registers of the caller from compact unwind information ends
    on any memory, whatever tables, FDE or stack are there, writes nothing, and
    keeps the registers readable. *)
Theorem compact_step_ends c regs w :
  low_mem (mem w) -> wf_mem (mem w) ->
  FIRCLSCompactUnwindLookupAndCompute (Some c) (Some regs) w <> Timeout /\
  forall ok c' regs' w',
    FIRCLSCompactUnwindLookupAndCompute (Some c) (Some regs) w = Done (ok, c', regs') w' ->
    w' = w /\ is_Some regs'.
Proof.
  intros Hlow Hwf. pose proof (lookup_and_compute_steps w Hlow Hwf (Some c) regs) as H. split.
  - by eapply ends_not_timeout.
  - intros ok c' regs' w' E. unfold ends in H. by rewrite E in H.
Qed.

(** The invariant of an unwind context past its start. *)
Definition context_ok (c : FIRCLSUnwindContext) : Prop :=
  is_Some (registers c) /\ 0 <= repeatCount c < frameCount c /\ frameCount c <= FIRCLSUnwindMaxFrames /\
  lastFramePC c = FIRCLSUnwindGetPC c /\ FIRCLSUnwindContextHasValidPCAndSP c = true.

(** C33: a step to the next frame ends and writes nothing; when it succeeds from a
    fresh context or one that satisfies the invariant, so does the context after
    it, with one frame more and the repetitions of its program counter counted. *)
Theorem next_frame_invariant c w :
  low_mem (mem w) -> wf_mem (mem w) ->
  context_ok c \/ (exists r, c = FIRCLSUnwindInit r) ->
  FIRCLSUnwindNextFrame images c w <> Timeout /\
  forall ok c' w', FIRCLSUnwindNextFrame images c w = Done (ok, c') w' ->
    w' = w /\ is_Some (registers c') /\
    (ok = true -> context_ok c' /\ frameCount c' = frameCount c + 1 /\
       repeatCount c' = if lastFramePC c =? FIRCLSUnwindGetPC c' then repeatCount c + 1 else 0).
Proof.
  intros Hlow Hwf Hc.
  assert (is_Some (registers c) /\ 0 <= repeatCount c <= frameCount c /\ frameCount c <= FIRCLSUnwindMaxFrames /\
    (repeatCount c = frameCount c -> lastFramePC c = 0)) as (Hr & Hrc & Hfc & Hz).
  { destruct Hc as [(H1 & H2 & H3 & _)|[r ->]]; [split_and!; [done|lia..]|].
    cbn. unfold FIRCLSUnwindMaxFrames. split_and!; [done|lia..]. }
  pose proof (next_frame_step w Hlow Hwf images c Hr ltac:(lia)) as H. split; [by eapply ends_not_timeout|].
  intros ok c' w' E. unfold ends in H. rewrite E in H. destruct H as [-> [Hr' Hp]]. split; [done|]. split; [done|].
  intros ->. destruct (Hp eq_refl) as (Hlt & E1 & E2 & E3 & Hpc & Hsp). cbn [snd] in *.
  assert (E4 : repeatCount c' = if lastFramePC c =? FIRCLSUnwindGetPC c' then repeatCount c + 1 else 0).
  { rewrite E3. unfold FIRCLSUnwindMaxFrames in *. by rewrite wrap_small by lia. }
  assert (Hv : FIRCLSUnwindGetPC c' <> 0) by (intros E0; by rewrite E0 in Hpc).
  assert (0 <= repeatCount c' < frameCount c').
  { rewrite E1, E4. destruct (Z.eqb_spec (lastFramePC c) (FIRCLSUnwindGetPC c')); [|lia].
    destruct (Z.eq_dec (repeatCount c) (frameCount c)) as [E0|]; [|lia]. specialize (Hz E0). lia. }
  unfold context_ok, FIRCLSUnwindContextHasValidPCAndSP. rewrite Hpc, Hsp. by split_and!; lia || done.
Qed.

Lemma record_frame_context s : unwind_context (record_frame s) = unwind_context s.
Proof. unfold record_frame. cbv zeta. destruct (_ && _); [done|]. by destruct (_ && _). Qed.

Lemma record_frames_done w fuel s pcs c' :
  frames w images (unwind_context s) pcs c' -> (length pcs < fuel)%nat ->
  exists s', record_frames_loop images fuel s w = Done s' w.
Proof.
  revert fuel s. induction pcs as [|pc pcs IH]; intros [|fuel] s H Hf; try (cbn in Hf; lia);
    inversion H as [? ? E|? c1 ? ? E H']; subst; cbn [record_frames_loop]; rewrite (bind_done _ _ _ _ _ E).
  - by eexists.
  - cbn [negb]. apply IH; [by rewrite record_frame_context|cbn in Hf; lia].
Qed.

Lemma stacktrace_run r w :
  low_mem (mem w) -> wf_mem (mem w) ->
  ends (record_stacktrace images r) w (fun x w' => w' = w /\ exists pcs c',
    frames w images (FIRCLSUnwindInit r) pcs c' /\
    Z.of_nat (length pcs) <= FIRCLSUnwindMaxFrames /\
    Forall (fun pc => FIRCLSIsValidPointer pc = true) pcs /\
    exists p n, summary 0 0 0 0 [] pcs = (p, n, x.1) /\ x.2 = if negb (p =? 0) then Some (p, n) else None).
Proof.
  intros Hlow Hwf. unfold record_stacktrace. apply ends_bind. eapply ends_mono.
  - apply (record_frames_loop_run w Hlow Hwf images); cbn [unwind_context FIRCLSUnwindInit
      registers repeatCount frameCount]; [by eexists|lia|unfold FIRCLSUnwindMaxFrames; lia|unfold FIRCLSUnwindMaxFrames; lia].
  - intros s w' (-> & pcs & Hf & Hl & Hv & Hs). cbn [unwind_context FIRCLSUnwindInit frameCount lastFramePC
      repeatCount repeatedPC repeatedPCCount entries] in *. apply ends_ret. split; [done|].
    exists pcs, (unwind_context s). split_and!; [done|lia|done|].
    exists (repeatedPC s), (repeatedPCCount s). by rewrite <- Hs.
Qed.

Lemma stacktrace_of_frames r w pcs c' :
  low_mem (mem w) -> wf_mem (mem w) -> frames w images (FIRCLSUnwindInit r) pcs c' ->
  Z.of_nat (length pcs) <= FIRCLSUnwindMaxFrames ->
  record_stacktrace images r w =
    Done (let '(p, n, es) := summary 0 0 0 0 [] pcs in
          (es, if negb (p =? 0) then Some (p, n) else None)) w.
Proof.
  intros Hlow Hwf Hf Hl. pose proof (stacktrace_run r w Hlow Hwf) as H.
  destruct (record_frames_done w (S (Z.to_nat FIRCLSUnwindMaxFrames))
    (TraceState (FIRCLSUnwindInit r) 0 0 []) pcs c' Hf ltac:(lia)) as [s' E].
  unfold record_stacktrace, ends in *. rewrite (bind_done _ _ _ _ _ E) in H |- *.
  unfold mret, M_ret in *.
  destruct H as (_ & pcs2 & c2 & Hf2 & _ & _ & p & n & Es & Ex).
  destruct (frames_unique w images _ _ _ _ _ Hf Hf2) as [<- _]. rewrite Es. cbn [fst snd] in *. by rewrite <- Ex.
Qed.

(** C6: the stack trace of a thread ends on any memory and whatever its registers;
    it writes no memory and has at most [FIRCLSUnwindMaxFrames] frames, all at
    valid addresses; the recorded entries and the repeated address with its count
    are the summary of the addresses of the frames. *)
Theorem stack_trace_ends r w :
  low_mem (mem w) -> wf_mem (mem w) ->
  record_stacktrace images r w <> Timeout /\
  forall es rep w', record_stacktrace images r w = Done (es, rep) w' ->
    w' = w /\ exists pcs c', frames w images (FIRCLSUnwindInit r) pcs c' /\
      Z.of_nat (length pcs) <= FIRCLSUnwindMaxFrames /\
      Forall (fun pc => FIRCLSIsValidPointer pc = true) pcs /\
      exists p n, summary 0 0 0 0 [] pcs = (p, n, es) /\ rep = if negb (p =? 0) then Some (p, n) else None.
Proof.
  intros Hlow Hwf. pose proof (stacktrace_run r w Hlow Hwf) as H. split; [by eapply ends_not_timeout|].
  intros es rep w' E. unfold ends in H. by rewrite E in H.
Qed.


(** the scan of a stack ends and finds the first of its words that is an address
    in an image, and nothing when there is none. *)
Theorem first_executable_exact start ws w :
  ws <> [] -> stack_at (mem w) start ws -> FIRCLSIsValidPointer start = true ->
  start + 8 * Z.of_nat (length ws) < 2 ^ 64 ->
  FIRCLSUnwindFirstExecutableAddress images start (start + 8 * Z.of_nat (length ws)) w =
    Done (List.find (FIRCLSUnwindIsAddressExecutable images) ws) w.
Proof.
  intros Hne Hs Hv Hb. destruct ws as [|v ws]; [done|]. unfold FIRCLSUnwindFirstExecutableAddress.
  apply first_executable_run; try done. rewrite Z.add_simpl_l, Z.mul_comm, Z.div_mul by lia.
  cbn [length]. lia.
Qed.

(** a recursion is cut: of an address that follows itself at least twelve
    times the trace holds the first ten, and names the address with the number of
    its repetitions; the frames before and after it are all recorded. *)
Theorem recursion_summarised r pre p k post c' w :
  low_mem (mem w) -> wf_mem (mem w) ->
  frames w images (FIRCLSUnwindInit r) (pre ++ replicate k p ++ post) c' ->
  Z.of_nat (length (pre ++ replicate k p ++ post)) <= FIRCLSUnwindMaxFrames ->
  p <> 0 -> Forall (fun n => n < FIRCLSUnwindInfiniteRecursionCountThreshold) (repeats 0 0 pre) ->
  last pre <> Some p -> (12 <= k)%nat -> p ∉ post ->
  record_stacktrace images r w =
    Done (pre ++ replicate 10 p ++ post, Some (p, Z.of_nat k - 1)) w.
Proof.
  intros Hlow Hwf Hf Hl Hp Hpre Hlast Hk Hpost. rewrite (stacktrace_of_frames r w _ c' Hlow Hwf Hf Hl).
  rewrite (summary_recursion pre p k post Hp Hpre Hlast Hk Hpost). by rewrite (proj2 (Z.eqb_neq p 0)).
Qed.

End Traces.

(** The layout and the constants of mach-o/compact_unwind_encoding.h. *)
#[global] Instance macho_encoding : CompactEncoding := {|
  UNWIND_SECTION_VERSION := 1;
  UNWIND_SECOND_LEVEL_REGULAR := 2;
  UNWIND_SECOND_LEVEL_COMPRESSED := 3;
  UNWIND_INFO_COMPRESSED_ENTRY_FUNC_OFFSET w := Z.land w 0xFFFFFF;
  UNWIND_INFO_COMPRESSED_ENTRY_ENCODING_INDEX w := Z.land (Z.shiftr w 24) 0xFF;
  section_header_size := 28;
  version_off := 0;
  commonEncodingsArraySectionOffset_off := 4;
  commonEncodingsArrayCount_off := 8;
  indexSectionOffset_off := 20;
  indexCount_off := 24;
  index_entry_size := 12;
  functionOffset_off := 0;
  secondLevelPagesSectionOffset_off := 4;
  entryPageOffset_off := 4;
  entryCount_off := 6;
  encodingsPageOffset_off := 8
|}.

#[global] Instance macho_arm64 : Arm64Encoding := {|
  UNWIND_ARM64_MODE_MASK := 0x0F000000;
  UNWIND_ARM64_MODE_FRAMELESS := 0x02000000;
  UNWIND_ARM64_MODE_DWARF := 0x03000000;
  UNWIND_ARM64_MODE_FRAME := 0x04000000;
  UNWIND_ARM64_DWARF_SECTION_OFFSET := 0x00FFFFFF
|}.

(** ** A table *)

(** Two ranges of functions, the first with a compressed page of three
    functions; one common encoding (frame pointer), one of the page (link
    register). *)
Definition ex_page : list Z := [0x00000000; 0x01000100; 0x00000200].

Definition ex_index : list unwind_info_section_header_index_entry :=
  [IndexEntry 0x1000 68; IndexEntry 0x4000 68; IndexEntry 0x8000 0].

Definition words (l : list Z) : list Z := l ≫= le_bytes 4.

Definition ex_table : list Z :=
  words [1; 28; 1; 32; 0; 32; 3] ++ words [0x04000000] ++
  words [0x1000; 68; 0; 0x4000; 68; 0; 0x8000; 0; 0] ++
  words [3] ++ le_bytes 2 12 ++ le_bytes 2 3 ++ le_bytes 2 24 ++ le_bytes 2 1 ++
  words ex_page ++ words [0x02000000].

(** A function with a frame record, called from code without a table. *)
Definition tab_world : world :=
  world_of (mem_of [(0x200000, ex_table); (0x600000, le_bytes 8 0 ++ le_bytes 8 0x500300)])
    0x700000 0x800000.

Definition tab_images : image_table :=
  ImageTable true 0x300000 [ImageNode 0x100000 0x10000 0 0x200000 0].

Definition tab_context : FIRCLSCompactUnwindContext :=
  CompactContext 0x200000 0 0x100000 (SectionHeader 1 28 1 32 3) (IndexEntry 0 0) 0.

Definition zero_record : FIRCLSDwarfCFIRecord := CFIRecord zero_cie zero_fde.

#[local] Existing Instance arm64.
#[local] Instance ex_arch : UnwindArch := arm64_unwind zero_record.

Definition regs_at (pc lr fp sp : Z) : thread_context :=
  ThreadContext (replicate 29 0) fp lr sp pc 0.

Lemma low_mem_check m :
  bool_decide (map_Forall (fun a _ => 0 <= a < 2 ^ 47) m) = true -> low_mem m.
Proof. intros H%bool_decide_eq_true a [b Hb]. exact (H a b Hb). Qed.

Lemma tab_low : low_mem (mem tab_world).
Proof. apply low_mem_check. by vm_compute. Qed.

Lemma tab_wf : wf_mem (mem tab_world).
Proof. apply wf_mem_check. by vm_compute. Qed.

(** The table is initialised to the context. *)
Lemma tab_init :
  FIRCLSCompactUnwindInit (Some zero_context) 0x200000 0 0x100000 tab_world =
  Done (true, Some tab_context) tab_world.
Proof. by vm_compute. Qed.

Lemma tab_indexed : indexed (mem tab_world) tab_context ex_index.
Proof.
  split; [done|done| |].
  - intros [|[|[|i]]] e [= <-]; by vm_compute.
  - by intros [|[|[|i]]] [|[|[|j]]] a b [= <-] [= <-] H; try lia; vm_compute.
Qed.

Lemma tab_page_words : words_at (mem tab_world) 0x200050 ex_page.
Proof. intros [|[|[|i]]] e [= <-]; by vm_compute. Qed.

Lemma tab_page_ordered : ordered (UNWIND_INFO_COMPRESSED_ENTRY_FUNC_OFFSET <$> ex_page).
Proof. by intros [|[|[|i]]] [|[|[|j]]] a b [= <-] [= <-] H; try lia; vm_compute. Qed.

Lemma tab_page : page_at (mem tab_world) 0x200044 ex_page.
Proof.
  split; [by vm_compute|by vm_compute| |exact tab_page_ordered|done].
  exists 12. split_and!; [by vm_compute|lia|exact tab_page_words].
Qed.

Lemma binary_search_exact_witness :
  FIRCLSCompactUnwindBinarySearchSecondLevel 0x120 0 3 0x200050 tab_world = Done (true, 1) tab_world /\
  exists k, FIRCLSCompactUnwindBinarySearchSecondLevel 0x280 0 3 0x200050 tab_world =
    Done (false, k) tab_world.
Proof.
  split.
  - destruct (binary_search_exact tab_world 0x200050 ex_page 0x120 0 0x200) as (found & k & E & H);
      [exact tab_page_words|exact tab_page_ordered|done..|]. cbn in H. destruct H as [-> Hk].
    rewrite <- (proj1 (Hk 1%nat)) in E; [exact E|]. exists 0x01000100, 0x200. by split_and!.
  - destruct (binary_search_exact tab_world 0x200050 ex_page 0x280 0 0x200) as (found & k & E & H);
      [exact tab_page_words|exact tab_page_ordered|done..|]. cbn in H. destruct H as [-> Hk].
    exists (Z.of_nat k). exact E.
Defined.


Lemma compact_last_function_lost_witness :
  FIRCLSCompactUnwindLookup (Some tab_context) 0x101280 (Some zero_result) tab_world =
  Done (false, Some (context_with_index tab_context (IndexEntry 0x1000 68) 0x4000), Some zero_result) tab_world.
Proof.
  rewrite (compact_last_function_lost tab_context ex_index 0 (IndexEntry 0x1000 68) (IndexEntry 0x4000 68)
    ex_page 0x200 0x101280 zero_result tab_world); first reflexivity; try done; [exact tab_indexed|exact tab_page].
Defined.

(** The function past the search would have had the range 0x101200 to 0x104000. *)
Example last_function_entry :
  compressed_entry (context_with_index tab_context (IndexEntry 0x1000 68) 0x4000) 0x101280
    0x200044 0x200050 3 2 tab_world =
  Done (true, CompactResult 0x04000000 0x101200 0x104000 0 0) tab_world.
Proof. by vm_compute. Qed.

(** ** Steps *)

Lemma compact_step_ends_witness :
  FIRCLSCompactUnwindLookupAndCompute (Some tab_context)
    (Some (regs_at 0x101010 0 0x600000 0x600000)) tab_world <> Timeout.
Proof. exact (proj1 (compact_step_ends tab_context _ tab_world tab_low tab_wf)). Defined.

(** The first function has the frame pointer's encoding. *)
Example frame_function_step :
  FIRCLSCompactUnwindLookupAndCompute (Some tab_context)
    (Some (regs_at 0x101010 0 0x600000 0x600000)) tab_world =
  Done (true, Some (context_with_index tab_context (IndexEntry 0x1000 68) 0x4000),
        Some (regs_at 0x500300 0 0 0x600010)) tab_world.
Proof. by vm_compute. Qed.

Lemma next_frame_invariant_witness :
  FIRCLSUnwindNextFrame tab_images (FIRCLSUnwindInit (regs_at 0x101010 0 0x600000 0x600000))
    tab_world <> Timeout.
Proof.
  apply (next_frame_invariant tab_images _ tab_world tab_low tab_wf). right. by eexists.
Defined.

Lemma register_get_set_witness :
  exists r', FIRCLSDwarfUnwindSetRegisterValue (Some ex_regs) 30 7 ex_world =
    Done (true, Some r') ex_world /\ ss_pc r' = 7.
Proof.
  destruct (register_get_set ex_regs 30 7 ex_world) as (r' & E & _ & _ & Hp); [lia|done|].
  exists r'. by split.
Defined.

Lemma frame_pointer_step_witness :
  FIRCLSUnwindWithFramePointer (Some ex_regs) false ex_world =
  Done (true, Some (with_sp (with_fp (with_pc ex_regs ex_lr) ex_fp) 0x20010)) ex_world.
Proof. apply (frame_pointer_step ex_regs false ex_fp ex_lr ex_world); by vm_compute. Defined.

(** ** Stack traces *)

(** The thread stopped in the function of the table. *)
Lemma stack_trace_ends_witness :
  record_stacktrace tab_images (regs_at 0x101010 0 0x600000 0x600000) tab_world <> Timeout.
Proof. exact (proj1 (stack_trace_ends tab_images _ tab_world tab_low tab_wf)). Defined.




(** Twelve frames of the same function. *)
Definition loop_world : world :=
  world_of (mem_of [(0x600000,
    concat ((fun k => le_bytes 8 (0x600010 + 16 * k) ++ le_bytes 8 0x500300) <$> seqZ 0 12) ++
    le_bytes 8 0 ++ le_bytes 8 0x500400)]) 0x700000 0x800000.

Definition loop_regs : thread_context := regs_at 0x500010 0 0x600000 0x600000.

Lemma loop_chain : frame_chain loop_world 0x600000 (replicate 12 0x500300 ++ [0x500400]).
Proof.
  do 12 (eapply (chain_frame_at _ _ _ 0x500300); [done|done|by vm_compute..|]).
  eapply (chain_frame_at _ _ _ 0x500400); [done|done|by vm_compute..|]. exact (chain_end _).
Qed.

Lemma recursion_summarised_witness :
  record_stacktrace tab_images loop_regs loop_world =
  Done ([0x500010] ++ replicate 10 0x500300 ++ [0x500400], Some (0x500300, 11)) loop_world.
Proof.
  assert (low_mem (mem loop_world)) as Hlow by (apply low_mem_check; by vm_compute).
  assert (wf_mem (mem loop_world)) as Hwf by (apply wf_mem_check; by vm_compute).
  destruct (frames_of_chain loop_world Hwf tab_images loop_regs None _ eq_refl ltac:(done) eq_refl eq_refl
    ltac:(constructor) loop_chain) as [c' Hf]; [done|done|by repeat constructor|].
  apply (recursion_summarised tab_images loop_regs [0x500010] 0x500300 12 [0x500400] c' loop_world Hlow Hwf Hf);
    [done|done|by repeat constructor|done|lia|].
  by rewrite list_elem_of_singleton.
Defined.

Lemma first_executable_exact_witness :
  FIRCLSUnwindFirstExecutableAddress tab_images 0x600000 0x600018
    (world_of (mem_of [(0x600000, le_bytes 8 7 ++ le_bytes 8 0x101010 ++ le_bytes 8 9)]) 0x700000 0x800000) =
  Done (Some 0x101010)
    (world_of (mem_of [(0x600000, le_bytes 8 7 ++ le_bytes 8 0x101010 ++ le_bytes 8 9)]) 0x700000 0x800000).
Proof.
  rewrite (first_executable_exact tab_images 0x600000 [7; 0x101010; 9]); [reflexivity|done| |done|done].
  intros [|[|[|i]]] v [= <-]; by vm_compute.
Defined.

(** The null page is skipped only after its first word has been read. *)
Example scan_of_null_page :
  FIRCLSUnwindFirstExecutableAddress tab_images 8 16 tab_world = Fault.
Proof. by vm_compute. Qed.

(** ** What the summary loses *)

(** After a recursion, a later frame at its address is not recorded, and the
    count is that of this frame; of eleven frames one is lost, with count 0. *)
Example repeat_count_overwritten :
  summary 0 0 0 0 [] (replicate 20 0x500300 ++ [0x500400; 0x500300; 0x500500]) =
    (0x500300, 0, replicate 10 0x500300 ++ [0x500400; 0x500500]) /\
  summary 0 0 0 0 [] (replicate 11 0x500300) = (0x500300, 0, replicate 10 0x500300).
Proof. by vm_compute. Qed.

(** The constants of mach-o/compact_unwind_encoding.h. *)
#[global] Instance macho_x86_64 : X86Encoding := {|
  UNWIND_X86_64_MODE_MASK := 0x0F000000;
  UNWIND_X86_64_MODE_RBP_FRAME := 0x01000000;
  UNWIND_X86_64_MODE_STACK_IMMD := 0x02000000;
  UNWIND_X86_64_MODE_STACK_IND := 0x03000000;
  UNWIND_X86_64_MODE_DWARF := 0x04000000;
  UNWIND_X86_64_FRAMELESS_STACK_SIZE := 0x00FF0000;
  UNWIND_X86_64_FRAMELESS_STACK_ADJUST := 0x0000E000;
  UNWIND_X86_64_FRAMELESS_STACK_REG_COUNT := 0x00001C00;
  UNWIND_X86_64_FRAMELESS_STACK_REG_PERMUTATION := 0x000003FF;
  UNWIND_X86_64_DWARF_SECTION_OFFSET := 0x00FFFFFF;
  UNWIND_X86_64_REG_RBP := 6
|}.

#[local] Existing Instance x86_64.

(** ** A function without a frame pointer

    It saves r15, rbp and rbx, in a frame of eight words. *)
Definition x86_saved : list Z := [5; 6; 1].

Definition x86_encoding : Z := 0x02000000 + 8 * 2 ^ 16 + 3 * 2 ^ 10 + permutation_number x86_saved.

(** The same with the size in the code, after the pushes of the registers and of
    the return address. *)
Definition x86_indirect_encoding : Z :=
  0x03000000 + 3 * 2 ^ 16 + 4 * 2 ^ 13 + 3 * 2 ^ 10 + permutation_number x86_saved.

Definition x86_regs_at (pc fp sp : Z) : X86ThreadContext :=
  X86Context 0 0 0 0 0 0 fp sp 0 0 0 0 0 0 0 0 pc 0 0 0 0.

Definition x86_regs : X86ThreadContext := x86_regs_at 0x101020 0x77 0x600000.

(** The stack, and the instruction that makes room for 32 bytes. *)
Definition x86_world : world :=
  world_of (mem_of [(0x600000, replicate 32 0 ++ le_bytes 8 0x15 ++ le_bytes 8 0x600100 ++
                               le_bytes 8 0x1 ++ le_bytes 8 0x500300);
                    (0x101000, [0x48; 0x81; 0xEC] ++ le_bytes 4 32)]) 0x700000 0x800000.

Lemma x86_savable : savable (seqZ 1 6) x86_saved.
Proof. split; [by apply (bool_decide_unpack _)|]. by repeat (constructor; [by apply (bool_decide_unpack _)|]). Qed.

Lemma saved_registers_roundtrip_witness :
  exists permutated,
    FIRCLSCompactUnwindDecompressPermutation x86_encoding (replicate 6 0) = (true, permutated) /\
    FIRCLSCompactUnwindRemapRegisters x86_encoding permutated (replicate 6 0) x86_world =
      Done (true, [5; 6; 1; 0; 0; 0]) x86_world.
Proof. exact (saved_registers_roundtrip x86_encoding x86_saved x86_world x86_savable eq_refl eq_refl). Defined.

Lemma x86_frame : frame_at (mem x86_world) x86_regs x86_saved 64 0x600100 0x500300.
Proof. split; [cbn; lia|cbn; lia|by split; vm_compute|done|by vm_compute|done]. Qed.

Definition x86_caller : X86ThreadContext := x86_regs_at 0x500300 0x600100 0x600040.

Lemma frameless_step_witness :
  let step e := FIRCLSCompactUnwindComputeRegisters_x86_64 zero_record (Some tab_context)
    (Some (CompactResult e 0x101000 0x102000 0 0)) (Some x86_regs) x86_world in
  step x86_encoding = Done (true, Some x86_caller) x86_world /\
  step x86_indirect_encoding = Done (true, Some x86_caller) x86_world.
Proof.
  assert (Hm : NoDup [CLS_X86_MODE_BP_FRAME; CLS_X86_MODE_STACK_IMMD; CLS_X86_MODE_STACK_IND])
    by by apply (bool_decide_unpack _).
  split.
  - apply (frameless_step tab_images zero_record tab_context (CompactResult x86_encoding 0x101000 0x102000 0 0)
      x86_regs false x86_saved 64 0x600100 0x500300); [done|done| |done|done|exact x86_frame].
    split; [exact x86_savable|done|done].
  - apply (frameless_step tab_images zero_record tab_context
      (CompactResult x86_indirect_encoding 0x101000 0x102000 0 0)
      x86_regs true x86_saved 64 0x600100 0x500300); [done|done| |by vm_compute|done|exact x86_frame].
    split; [exact x86_savable|done|done].
Defined.

(** ** A stack trace

    The thread stopped in a function of an image without tables; its first
    word on the stack is a datum, its second the return address. *)
Definition x86_images : image_table := ImageTable true 0x300000 [ImageNode 0x500000 0x1000 0 0 0].

Definition x86_stack : world :=
  world_of (mem_of [(0x600000, le_bytes 8 7 ++ le_bytes 8 0x500200 ++
                               le_bytes 8 0x600020 ++ le_bytes 8 0x500300 ++
                               le_bytes 8 0 ++ le_bytes 8 0x500400)]) 0x700000 0x800000.


Lemma x86_stack_low : low_mem (mem x86_stack).
Proof. apply low_mem_check. by vm_compute. Qed.

#[local] Instance x86_arch : UnwindArch (TS := x86_64) := x86_64_unwind x86_images zero_record.
#[local] Instance x86_records : FrameRecords x86_stack := x86_64_frames x86_images zero_record x86_stack x86_stack_low.


