(* ===== verification/Allocate.v ===== *)
(** Crashlytics' allocator of protected memory (FIRCLSAllocate.c): two regions
    between guard pages, from which blocks are cut by moving a cursor, and which
    threads share without a lock.

    The kernel's and libc's functions are the parameter [Host], over its state
    [os]; an allocator is passed to and returned from the functions that have a
    pointer to it, [None] being an invalid pointer. *)
From S2P Require Import Prelude.

(** ** Data *)

Definition FIRCLSAllocationType : Type := Z.
Definition CLS_READONLY : FIRCLSAllocationType := 0.
Definition CLS_READWRITE : FIRCLSAllocationType := 1.

Record FIRCLSAllocationRegion := Region {
  region_size : Z;
  region_start : Z;
  region_cursor : Z
}.

Record FIRCLSAllocator := Allocator {
  buffer : Z;
  protectionEnabled : bool;
  writeableRegion : FIRCLSAllocationRegion;
  readableRegion : FIRCLSAllocationRegion
}.

(** Eight bytes of [buffer], eight of the flag, and two regions of 24 bytes. *)
Definition sizeof_FIRCLSAllocator : Z := 64.

Definition with_cursor (r : FIRCLSAllocationRegion) (cursor : Z) : FIRCLSAllocationRegion :=
  Region (region_size r) (region_start r) cursor.

Definition with_writeable (a : FIRCLSAllocator) (r : FIRCLSAllocationRegion) : FIRCLSAllocator :=
  Allocator (buffer a) (protectionEnabled a) r (readableRegion a).
Definition with_readable (a : FIRCLSAllocator) (r : FIRCLSAllocationRegion) : FIRCLSAllocator :=
  Allocator (buffer a) (protectionEnabled a) (writeableRegion a) r.
Definition with_protection (a : FIRCLSAllocator) (b : bool) : FIRCLSAllocator :=
  Allocator (buffer a) b (writeableRegion a) (readableRegion a).

Inductive protection := PROT_NONE | PROT_READ | PROT_READ_WRITE.

Class Host (os : Type) := {
  FIRCLSHostGetPageSize : Z;
  (* anonymous private memory for reading and writing; [None] is MAP_FAILED *)
  mmap : Z -> os -> option Z * os;
  (* whether the call has succeeded *)
  mprotect : Z -> Z -> protection -> os -> bool * os;
  (* zero is the null pointer *)
  malloc : Z -> os -> Z * os;
  free : Z -> os -> os
}.

(** ** One request, with the cursor shared *)

(** The new value of the object, whether it was replaced, and what is then in
    [expected]. *)
Definition atomic_compare_exchange_strong (object expected desired : Z) : Z * bool * Z :=
  if object =? expected then (desired, true, expected) else (object, false, object).

(** The region has no room for [size] bytes at [cursor]. *)
Definition no_room (r : FIRCLSAllocationRegion) (cursor size : Z) : bool :=
  region_size r <? u64 (u64 (cursor - region_start r) + size).

(** Where a thread is in [FIRCLSAllocatorSafeAllocateFromRegion]. *)
Inductive alloc_thread :=
  | Loading (size : Z)                (* at [originalCursor = region->cursor] *)
  | Falling (size : Z)                (* at the call of malloc *)
  | Swapping (size original : Z)      (* at the atomic exchange *)
  | Allocated (size ptr : Z)          (* returned from the region *)
  | Fallen (size ptr : Z).            (* returned from malloc *)

Definition finished (t : alloc_thread) : bool :=
  match t with Allocated _ _ | Fallen _ _ => true | _ => false end.

(** The next access of a thread to shared state. [ptr] is what malloc returns. *)
Definition alloc_step (t : alloc_thread) (r : FIRCLSAllocationRegion) (ptr : Z) :
    alloc_thread * FIRCLSAllocationRegion :=
  match t with
  | Loading size =>
      let originalCursor := region_cursor r in
      if no_room r originalCursor size then (Falling size, r) else (Swapping size originalCursor, r)
  | Falling size => (Fallen size ptr, r)
  | Swapping size originalCursor =>
      let newCursor := u64 (originalCursor + size) in
      let '(cursor, swapped, _) :=
        atomic_compare_exchange_strong (region_cursor r) originalCursor newCursor in
      (if swapped then Allocated size originalCursor else Loading size, with_cursor r cursor)
  | Allocated _ _ | Fallen _ _ => (t, r)
  end.

(** Threads that request blocks of one region. *)
Record alloc_state := AllocState {
  shared : FIRCLSAllocationRegion;
  threads : list alloc_thread
}.

Inductive alloc_steps : alloc_state -> alloc_state -> Prop :=
  | thread_steps r ts i t ptr t' r' :
      ts !! i = Some t -> finished t = false -> alloc_step t r ptr = (t', r') ->
      alloc_steps (AllocState r ts) (AllocState r' (<[i := t']> ts)).

(** All requests are at their beginning. *)
Definition requests (r : FIRCLSAllocationRegion) (sizes : list Z) : alloc_state :=
  AllocState r (Loading <$> sizes).

Section Allocator.
Context {os : Type} {HO : Host os}.

(** ** Calls without interference *)

(** The loop by a thread that no other one interrupts: its exchange succeeds, so
    that two rounds are enough. The pointer, the region and the state after. *)
Fixpoint safe_allocate_loop (fuel : nat) (region : FIRCLSAllocationRegion) (size : Z) (s : os) :
    option (Z * FIRCLSAllocationRegion * os) :=
  match fuel with
  | O => None
  | S fuel' =>
      let originalCursor := region_cursor region in
      if no_room region originalCursor size then
        let '(ptr, s) := malloc size s in
        if ptr =? 0 then Some (0, region, s) else Some (ptr, region, s)
      else
        let newCursor := u64 (originalCursor + size) in
        let '(cursor, swapped, _) :=
          atomic_compare_exchange_strong (region_cursor region) originalCursor newCursor in
        let region := with_cursor region cursor in
        if swapped then Some (originalCursor, region, s) else safe_allocate_loop fuel' region size s
  end.

Definition FIRCLSAllocatorSafeAllocateFromRegion (region : FIRCLSAllocationRegion) (size : Z) (s : os) :
    option (Z * FIRCLSAllocationRegion * os) :=
  safe_allocate_loop 2 region size s.

(** The allocator's address and contents; [None] in the first place is NULL.
    The whole is [None] for a store through the null pointer. *)
Definition FIRCLSAllocatorCreate (writableSpace readableSpace : Z) (s : os) :
    option (option (Z * FIRCLSAllocator) * os) :=
  let pageSize := FIRCLSHostGetPageSize in
  let readableSpace := u64 (readableSpace + sizeof_FIRCLSAllocator) in
  let writableSize :=
    if 0 <? writableSpace then u64 (u64 (writableSpace / pageSize + 1) * pageSize) else 0 in
  let readableSize :=
    if 0 <? readableSpace then u64 (u64 (readableSpace / pageSize + 1) * pageSize) else 0 in
  let allocationSize := u64 (u64 (writableSize + readableSize) + u64 (pageSize * 3)) in
  let '(mapped, s) := mmap allocationSize s in
  match mapped with
  | None => Some (None, s)
  | Some buffer =>
      let writableCursor := u64 (buffer + pageSize) in
      let readableCursor := u64 (u64 (u64 (buffer + pageSize) + writableSize) + pageSize) in
      let writableRegion := Region writableSize writableCursor writableCursor in
      let readableRegion := Region readableSize readableCursor readableCursor in
      let '(ok, s) := mprotect buffer pageSize PROT_NONE s in
      if negb ok then Some (None, s)
      else
        let '(ok, s) := mprotect (u64 (u64 (buffer + pageSize) + writableSize)) pageSize PROT_NONE s in
        if negb ok then Some (None, s)
        else
          let '(ok, s) :=
            mprotect (u64 (u64 (u64 (u64 (buffer + pageSize) + writableSize) + pageSize) + readableSize))
              pageSize PROT_NONE s in
          if negb ok then Some (None, s)
          else
            '(allocator, readableRegion, s) ←
              FIRCLSAllocatorSafeAllocateFromRegion readableRegion sizeof_FIRCLSAllocator s;
            if allocator =? 0 then None
            else Some (Some (allocator, Allocator buffer false writableRegion readableRegion), s)
  end.

(** Frees nothing. *)
Definition FIRCLSAllocatorDestroy (allocator : option FIRCLSAllocator) (s : os) : os := s.

Definition FIRCLSAllocatorProtect (allocator : option FIRCLSAllocator) (s : os) :
    bool * option FIRCLSAllocator * os :=
  match allocator with
  | None => (false, None, s)
  | Some a =>
      if protectionEnabled a then (true, Some a, s)
      else
        let a := with_protection a true in
        let pageSize := FIRCLSHostGetPageSize in
        let address := u64 (u64 (u64 (buffer a + pageSize) + region_size (writeableRegion a)) + pageSize) in
        let '(ok, s) := mprotect address (region_size (readableRegion a)) PROT_READ s in
        (ok, Some a, s)
  end.

Definition FIRCLSAllocatorUnprotect (allocator : option FIRCLSAllocator) (s : os) :
    bool * option FIRCLSAllocator * os :=
  match allocator with
  | None => (false, None, s)
  | Some a =>
      let pageSize := FIRCLSHostGetPageSize in
      let bufferSize :=
        u64 (u64 (u64 (u64 (u64 (buffer a + pageSize) + region_size (writeableRegion a)) + pageSize) +
          region_size (readableRegion a)) + pageSize) in
      let '(ok, s) := mprotect (buffer a) bufferSize PROT_READ_WRITE s in
      let a := with_protection a (negb ok) in
      (protectionEnabled a, Some a, s)
  end.

Definition FIRCLSAllocatorSafeAllocate (allocator : option FIRCLSAllocator) (size : Z)
    (type : FIRCLSAllocationType) (s : os) : option (Z * option FIRCLSAllocator * os) :=
  match allocator with
  | None =>
      let '(ptr, s) := malloc size s in
      if ptr =? 0 then Some (0, None, s) else Some (ptr, None, s)
  | Some a =>
      if protectionEnabled a then
        let '(ptr, s) := malloc size s in
        if ptr =? 0 then Some (0, Some a, s) else Some (ptr, Some a, s)
      else if type =? CLS_READONLY then
        '(ptr, r, s) ← FIRCLSAllocatorSafeAllocateFromRegion (readableRegion a) size s;
        Some (ptr, Some (with_readable a r), s)
      else if type =? CLS_READWRITE then
        '(ptr, r, s) ← FIRCLSAllocatorSafeAllocateFromRegion (writeableRegion a) size s;
        Some (ptr, Some (with_writeable a r), s)
      else Some (0, Some a, s)
  end.

Definition FIRCLSAllocatorFree (allocator : option FIRCLSAllocator) (ptr : Z) (s : os) : os :=
  match allocator with
  | None => free ptr s
  | Some _ => s
  end.

End Allocator.
