(* ===== verification/AllocateTheorems.v ===== *)
(** The properties of the allocator: that blocks do not overlap under any
    interleaving, that its executions are those of an allocator that serves a request
    at once, that they end, and the layout of a new allocator; and the allocator at
    concrete inputs: a host, three threads on a region, and what the code does where
    the properties need their hypotheses. *)
From S2P Require Import Prelude Allocate.

(** ** Regions *)

Record region_ok (r : FIRCLSAllocationRegion) : Prop := {
  region_from : 0 < region_start r;
  region_to : region_start r + region_size r < 2 ^ 64;
  region_cur : region_start r <= region_cursor r <= region_start r + region_size r
}.

(** The size of a request; the room check does not wrap. *)
Definition request_ok (r : FIRCLSAllocationRegion) (size : Z) : Prop :=
  0 <= size /\ size + region_size r < 2 ^ 64.

Lemma no_room_spec r cursor size :
  region_start r <= cursor <= region_start r + region_size r -> request_ok r size ->
  no_room r cursor size = (region_start r + region_size r <? cursor + size).
Proof.
  intros Hc [H1 H2]. unfold no_room. rewrite !wrap_small by (rewrite ?wrap_small; lia).
  destruct (Z.ltb_spec (region_size r) (cursor - region_start r + size));
    destruct (Z.ltb_spec (region_start r + region_size r) (cursor + size)); lia.
Qed.

(** ** The atomic allocator *)

(** A request is outstanding or served, by a block of the region or by malloc. *)
Inductive served := FromRegion (ptr : Z) | FromMalloc.
Inductive request := Pending (size : Z) | Served (size : Z) (by_ : served).

(** One request, all at once. *)
Definition serve (r : FIRCLSAllocationRegion) (size : Z) : served * FIRCLSAllocationRegion :=
  if region_start r + region_size r <? region_cursor r + size then (FromMalloc, r)
  else (FromRegion (region_cursor r), with_cursor r (region_cursor r + size)).

Inductive atomic_steps :
    FIRCLSAllocationRegion * list request -> FIRCLSAllocationRegion * list request -> Prop :=
  | atomic_serves r qs i size :
      qs !! i = Some (Pending size) ->
      atomic_steps (r, qs) ((serve r size).2, <[i := Served size (serve r size).1]> qs).

(** What of a thread's state the atomic allocator sees. *)
Definition view (t : alloc_thread) : request :=
  match t with
  | Loading size | Swapping size _ => Pending size
  | Falling size | Fallen size _ => Served size FromMalloc
  | Allocated size ptr => Served size (FromRegion ptr)
  end.

Definition view_state (s : alloc_state) : FIRCLSAllocationRegion * list request :=
  (shared s, view <$> threads s).

(** ** The invariant of the concurrent allocator

    The cursor was at [base] when the threads began. *)

Definition thread_size (t : alloc_thread) : Z :=
  match t with
  | Loading size | Falling size | Swapping size _ | Allocated size _ | Fallen size _ => size
  end.

Definition thread_ok (base : Z) (r : FIRCLSAllocationRegion) (t : alloc_thread) : Prop :=
  request_ok r (thread_size t) /\
  match t with
  | Swapping size original =>
      base <= original <= region_cursor r /\
      original + size <= region_start r + region_size r
  | Falling size => region_start r + region_size r < region_cursor r + size
  | Allocated size ptr => base <= ptr /\ ptr + size <= region_cursor r
  | _ => True
  end.

(** Two blocks of the region do not overlap. *)
Definition apart (t t' : alloc_thread) : Prop :=
  match t, t' with
  | Allocated size ptr, Allocated size' ptr' => ptr + size <= ptr' \/ ptr' + size' <= ptr
  | _, _ => True
  end.

Record alloc_ok (base : Z) (s : alloc_state) : Prop := {
  ok_region : region_ok (shared s);
  ok_base : region_start (shared s) <= base <= region_cursor (shared s);
  ok_threads : forall i t, threads s !! i = Some t -> thread_ok base (shared s) t;
  ok_apart : forall i j t t', i <> j -> threads s !! i = Some t -> threads s !! j = Some t' -> apart t t'
}.

Section Invariant.
Context (base : Z).

(** A step of a thread: what it does to the cursor, and the view of it. *)
Inductive thread_effect (r : FIRCLSAllocationRegion) (t : alloc_thread) :
    alloc_thread -> FIRCLSAllocationRegion -> Prop :=
  | effect_load size :
      t = Loading size -> region_cursor r + size <= region_start r + region_size r ->
      thread_effect r t (Swapping size (region_cursor r)) r
  | effect_full size :
      t = Loading size -> region_start r + region_size r < region_cursor r + size ->
      thread_effect r t (Falling size) r
  | effect_malloc size ptr : t = Falling size -> thread_effect r t (Fallen size ptr) r
  | effect_retry size original :
      t = Swapping size original -> region_cursor r <> original -> thread_effect r t (Loading size) r
  | effect_swap size :
      t = Swapping size (region_cursor r) ->
      thread_effect r t (Allocated size (region_cursor r)) (with_cursor r (region_cursor r + size)).

Lemma alloc_step_effect r t ptr t' r' :
  region_ok r -> thread_ok base r t -> finished t = false -> alloc_step t r ptr = (t', r') ->
  thread_effect r t t' r'.
Proof.
  intros [H1 H2 H3] [Hq Ht] Hf. destruct r as [rs st cur]. cbn [region_start region_size region_cursor] in *.
  destruct t as [size|size|size original|size p|size p]; cbn [finished alloc_step thread_size] in *; try done.
  - cbv zeta. rewrite no_room_spec by (try lia; done). cbn [region_start region_size region_cursor].
    destruct (Z.ltb_spec (st + rs) (cur + size)); intros [= <- <-].
    + by apply effect_full.
    + by apply effect_load.
  - intros [= <- <-]. by apply effect_malloc.
  - unfold atomic_compare_exchange_strong. cbn [region_cursor]. destruct (Z.eqb_spec cur original) as [<-|Hne]; intros [= <- <-].
    + rewrite wrap_small by (destruct Hq; lia). by apply (effect_swap (Region rs st cur)).
    + by apply (effect_retry (Region rs st cur) _ size original).
Qed.

Lemma thread_ok_mono r cursor t :
  region_cursor r <= cursor -> thread_ok base r t -> thread_ok base (with_cursor r cursor) t.
Proof. intros Hc [Hq Ht]. split; [exact Hq|]. destruct t; cbn in *; lia. Qed.

(** The thread that has moved, against one that has not. *)
Lemma effect_ok r t t' r' u :
  region_ok r -> thread_ok base r t -> thread_effect r t t' r' -> thread_ok base r u ->
  (apart t u -> apart t' u) /\ thread_ok base r' u.
Proof.
  intros [H1 H2 H3] [Hq Ht] He Hu. destruct He; subst; try (split; [done|exact Hu]).
  split; [|apply thread_ok_mono; [destruct Hq; cbn in *; lia|exact Hu]].
  intros _. destruct u; cbn in *; try done. destruct Hu as [_ Hu]. lia.
Qed.

Lemma effect_moves r t t' r' :
  region_ok r -> region_start r <= base <= region_cursor r -> thread_ok base r t ->
  thread_effect r t t' r' -> region_ok r' /\ thread_ok base r' t'.
Proof.
  intros Hr Hb [Hq Ht] He. assert (Hr' := Hr). destruct Hr' as [H1 H2 H3]. destruct Hq as [Hq1 Hq2].
  destruct He; subst; cbn in *; split; try exact Hr; try (split; [by split|cbn; lia]).
  split; cbn; lia.
Qed.

(** What no step changes. *)
Lemma effect_grows r t t' r' :
  thread_ok base r t -> thread_effect r t t' r' ->
  region_start r' = region_start r /\ region_size r' = region_size r /\
  region_cursor r <= region_cursor r' /\ thread_size t' = thread_size t.
Proof. intros [[Hq _] _] He. destruct He; subst; cbn in *; split_and!; done || lia. Qed.

Lemma alloc_steps_ok s s' : alloc_ok base s -> alloc_steps s s' -> alloc_ok base s'.
Proof.
  intros Hs Hst. revert Hs. destruct Hst as [r ts i t ptr t' r' Hi Hf E]. intros [Hr Hb Ht Ha]. cbn [shared threads] in *.
  assert (He := alloc_step_effect r t ptr t' r' Hr (Ht i t Hi) Hf E).
  assert (Hlt := lookup_lt_Some _ _ _ Hi). destruct (effect_moves r t t' r' Hr Hb (Ht i t Hi) He) as [Hr' Ht'].
  destruct (effect_grows r t t' r' (Ht i t Hi) He) as (Es & _ & Hc & _).
  assert (Hother : forall j u, i <> j -> ts !! j = Some u -> apart t' u /\ thread_ok base r' u).
  { intros j u Hne Hu. destruct (effect_ok r t t' r' u Hr (Ht i t Hi) He (Ht j u Hu)) as [H1 H2].
    split; [|done]. apply H1, (Ha i j); done. }
  split; cbn [shared threads]; [done|lia| |].
  - intros j u. destruct (decide (i = j)) as [<-|Hne].
    + rewrite list_lookup_insert_eq by done. by intros [= <-].
    + rewrite list_lookup_insert_ne by done. intros Hu. by apply (Hother j u).
  - intros j k u v Hjk. destruct (decide (i = j)) as [<-|Hij], (decide (i = k)) as [<-|Hik];
      rewrite ?list_lookup_insert_eq, ?list_lookup_insert_ne by done; try done.
    + intros [= <-] Hv. by apply (Hother k v).
    + intros Hu [= <-]. destruct (Hother j u Hij Hu) as [Hap _]. revert Hap. destruct t', u; cbn; tauto.
    + intros Hu Hv. by apply (Ha j k).
Qed.

(** The region and the sizes of the requests stay. *)
Definition same_requests (s s' : alloc_state) : Prop :=
  region_start (shared s') = region_start (shared s) /\ region_size (shared s') = region_size (shared s) /\
  region_cursor (shared s) <= region_cursor (shared s') /\
  thread_size <$> threads s' = thread_size <$> threads s.

Lemma alloc_steps_same s s' : alloc_ok base s -> alloc_steps s s' -> same_requests s s'.
Proof.
  intros Hs Hst. revert Hs. destruct Hst as [r ts i t ptr t' r' Hi Hf E]. intros [Hr Hb Ht Ha]. cbn [shared threads] in *.
  assert (He := alloc_step_effect r t ptr t' r' Hr (Ht i t Hi) Hf E).
  destruct (effect_grows r t t' r' (Ht i t Hi) He) as (Es & Ez & Hc & Et).
  unfold same_requests. cbn [shared threads]. split_and!; try done.
  rewrite list_fmap_insert, Et. apply list_insert_id. by rewrite list_lookup_fmap, Hi.
Qed.

Lemma executions_ok s s' : alloc_ok base s -> rtc alloc_steps s s' -> alloc_ok base s' /\ same_requests s s'.
Proof.
  intros Hok H. induction H as [s|s s1 s2 Hst _ IH]; [by split_and!|].
  destruct (IH (alloc_steps_ok s s1 Hok Hst)) as (Hok2 & E1 & E2 & Hc & E3).
  destruct (alloc_steps_same s s1 Hok Hst) as (F1 & F2 & Hc' & F3).
  split; [done|]. split_and!; congruence || lia.
Qed.

(** ** The steps of the atomic allocator *)

Lemma effect_view r t t' r' :
  thread_ok base r t -> thread_effect r t t' r' ->
  (view t' = view t /\ r' = r) \/
  (exists size, view t = Pending size /\ view t' = Served size (serve r size).1 /\ r' = (serve r size).2).
Proof.
  intros [_ Ht] He. destruct He as [size ->|size -> Hfull|size ptr ->|size original ->|size ->]; try (by left);
    right; exists size; unfold serve; cbn in *.
  - by rewrite (proj2 (Z.ltb_lt _ _)).
  - by rewrite (proj2 (Z.ltb_ge _ _)) by lia.
Qed.

Lemma steps_refine s s' :
  alloc_ok base s -> alloc_steps s s' -> view_state s' = view_state s \/ atomic_steps (view_state s) (view_state s').
Proof.
  intros Hok Hst. revert Hok. destruct Hst as [r ts i t ptr t' r' Hi Hf E]. intros [Hr Hb Ht _]. cbn [shared threads] in *.
  assert (He := alloc_step_effect r t ptr t' r' Hr (Ht i t Hi) Hf E).
  unfold view_state. cbn [shared threads]. rewrite list_fmap_insert.
  destruct (effect_view r t t' r' (Ht i t Hi) He) as [[-> ->]|(size & Ev & -> & ->)].
  - left. f_equal. apply list_insert_id. by rewrite list_lookup_fmap, Hi.
  - right. apply atomic_serves. by rewrite list_lookup_fmap, Hi, <- Ev.
Qed.

(** ** Termination *)

(** What a thread has still to do until it returns or another thread's exchange
    interferes. *)
Definition work (cursor : Z) (t : alloc_thread) : nat :=
  match t with
  | Loading _ => 2
  | Falling _ => 1
  | Swapping _ original => if original =? cursor then 1 else 3
  | Allocated _ _ | Fallen _ _ => 0
  end.

Definition unfinished (t : alloc_thread) : nat := if finished t then 0 else 1.

Definition remaining (s : alloc_state) : nat :=
  sum_list_with (work (region_cursor (shared s))) (threads s) +
  2 * length (threads s) * sum_list_with unfinished (threads s).

Lemma sum_insert {A} (f : A -> nat) l i x y :
  l !! i = Some x -> (sum_list_with f (<[i:=y]> l) + f x = sum_list_with f l + f y)%nat.
Proof.
  revert i. induction l as [|z l IH]; intros [|i] E; try done.
  - injection E as ->. cbn. lia.
  - specialize (IH i E). change (f z + sum_list_with f (<[i:=y]> l) + f x = f z + sum_list_with f l + f y)%nat. lia.
Qed.

Lemma sum_bound {A} (f g : A -> nat) k l :
  (forall x, f x <= g x + k)%nat -> (sum_list_with f l <= sum_list_with g l + k * length l)%nat.
Proof. intros H. induction l as [|x l IH]; cbn; [lia|]. specialize (H x). lia. Qed.

Lemma work_moves c c' t : (work c t <= work c' t + 2)%nat.
Proof. destruct t as [| |size original| |]; cbn; try lia. destruct (_ =? c), (_ =? c'); lia. Qed.

Lemma remaining_decreases s s' : alloc_ok base s -> alloc_steps s s' -> (remaining s' < remaining s)%nat.
Proof.
  intros Hok Hst. revert Hok. destruct Hst as [r ts i t ptr t' r' Hi Hf E]. intros [Hr Hb Ht _]. cbn [shared threads] in *.
  assert (He := alloc_step_effect r t ptr t' r' Hr (Ht i t Hi) Hf E).
  unfold remaining. cbn [shared threads]. rewrite length_insert.
  pose proof (sum_insert (work (region_cursor r')) ts i t t' Hi).
  pose proof (sum_insert unfinished ts i t t' Hi).
  pose proof (sum_bound _ _ 2 ts (work_moves (region_cursor r') (region_cursor r))).
  assert (Hw : (length ts > 0)%nat) by (apply lookup_lt_Some in Hi; lia).
  destruct He as [size ->|size ->|size p ->|size original -> Hne|size ->]; cbn [unfinished finished work with_cursor region_cursor] in *;
    rewrite ?Z.eqb_refl in *; try (rewrite (proj2 (Z.eqb_neq original _)) in * by done); try nia.
  destruct (region_cursor r =? region_cursor r + size); nia.
Qed.

Lemma steps_bounded n s s' : alloc_ok base s -> nsteps alloc_steps n s s' -> (n + remaining s' <= remaining s)%nat.
Proof.
  intros Hok H. revert Hok. induction H as [s|n s s1 s' Hs _ IH]; intros Hok; [lia|].
  assert (H1 := remaining_decreases s s1 Hok Hs). specialize (IH (alloc_steps_ok s s1 Hok Hs)). lia.
Qed.

End Invariant.

Lemma requests_remaining r sizes :
  remaining (requests r sizes) = (2 * length sizes + 2 * length sizes * length sizes)%nat.
Proof.
  unfold remaining. cbn [shared threads requests]. rewrite length_fmap.
  assert (E : forall f k, (forall size, f (Loading size) = k) ->
    sum_list_with f (Loading <$> sizes) = (k * length sizes)%nat).
  { intros f k Hf. induction sizes as [|x l IH]; cbn; [lia|]. rewrite Hf, IH. lia. }
  by rewrite (E _ 2%nat), (E unfinished 1%nat), Nat.mul_1_l.
Qed.

Lemma unfinished_steps s i t :
  threads s !! i = Some t -> finished t = false -> exists s', alloc_steps s s'.
Proof.
  destruct s as [r ts]. intros Hi Hf. destruct (alloc_step t r 0) as [t' r'] eqn:E.
  eexists. by eapply thread_steps.
Qed.

Lemma requests_ok r sizes :
  region_ok r -> Forall (request_ok r) sizes -> alloc_ok (region_cursor r) (requests r sizes).
Proof.
  intros Hr Hs. assert (Hr' := Hr). destruct Hr' as [H1 H2 H3]. split; cbn; [done|lia| |].
  - intros i t (size & -> & E)%list_lookup_fmap_Some_1. split; [|done]. by eapply Forall_lookup_1 in E.
  - intros i j t t' _ (size & -> & _)%list_lookup_fmap_Some_1. done.
Qed.

(** ** Calls without interference *)

(** The sequential function serves a request at once. *)
Lemma allocate_from_region_run {os} `{Host os} r size (s : os) :
  region_ok r -> request_ok r size ->
  FIRCLSAllocatorSafeAllocateFromRegion r size s =
    Some (match (serve r size).1 with
          | FromRegion ptr => (ptr, (serve r size).2, s)
          | FromMalloc => ((malloc size s).1, r, (malloc size s).2)
          end).
Proof.
  intros Hr Hq. assert (Hr' := Hr). destruct Hr' as [H1 H2 H3]. assert (Hq' := Hq). destruct Hq' as [H4 H5].
  unfold FIRCLSAllocatorSafeAllocateFromRegion, serve. cbn [safe_allocate_loop].
  rewrite (no_room_spec r (region_cursor r) size H3 Hq). destruct (Z.ltb_spec (region_start r + region_size r) (region_cursor r + size)).
  - cbn [fst]. destruct (malloc size s) as [ptr s']. cbn [fst snd]. by destruct (Z.eqb_spec ptr 0) as [->|].
  - unfold atomic_compare_exchange_strong. rewrite Z.eqb_refl. cbn [fst snd]. by rewrite wrap_small by lia.
Qed.

(** ** Schedules *)

(** A step of thread [i], to which malloc would return [ptr]. *)
Definition step_thread (i : nat) (ptr : Z) (s : alloc_state) : option alloc_state :=
  t ← threads s !! i;
  if finished t then None
  else let '(t', r') := alloc_step t (shared s) ptr in Some (AllocState r' (<[i := t']> (threads s))).

Fixpoint run_schedule (l : list (nat * Z)) (s : alloc_state) : option alloc_state :=
  match l with
  | [] => Some s
  | (i, ptr) :: l' => s' ← step_thread i ptr s; run_schedule l' s'
  end.

Lemma step_thread_sound i ptr s s' : step_thread i ptr s = Some s' -> alloc_steps s s'.
Proof.
  unfold step_thread. destruct s as [r ts]. cbn [threads shared]. intros (t & Hi & E)%bind_Some.
  destruct (finished t) eqn:Hf; [done|]. destruct (alloc_step t r ptr) as [t' r'] eqn:Es.
  injection E as <-. by eapply thread_steps.
Qed.

Lemma run_schedule_sound l s s' : run_schedule l s = Some s' -> nsteps alloc_steps (length l) s s'.
Proof.
  revert s. induction l as [|[i ptr] l IH]; intros s; cbn.
  - intros [= ->]. constructor.
  - intros (s1 & E1 & E2)%bind_Some. econstructor; [by eapply step_thread_sound|by apply IH].
Qed.

(** C25: whatever the interleaving of threads that allocate from a region at the same
    time, the blocks they have got have the sizes they asked for, lie between the
    cursor at the beginning and the cursor now, which stays within the region,
    and no two of them overlap. *)
Theorem allocated_blocks_apart r sizes s :
  region_ok r -> Forall (request_ok r) sizes -> rtc alloc_steps (requests r sizes) s ->
  (region_cursor r <= region_cursor (shared s) <= region_start r + region_size r) /\
  (forall i size ptr, threads s !! i = Some (Allocated size ptr) ->
     sizes !! i = Some size /\ region_cursor r <= ptr /\ ptr + size <= region_cursor (shared s)) /\
  (forall i j size ptr size' ptr', i <> j ->
     threads s !! i = Some (Allocated size ptr) -> threads s !! j = Some (Allocated size' ptr') ->
     ptr + size <= ptr' \/ ptr' + size' <= ptr).
Proof.
  intros Hr Hs H. destruct (executions_ok _ _ _ (requests_ok r sizes Hr Hs) H) as [[Hr' Hb Ht Ha] (E1 & E2 & Hc & E3)].
  cbn [shared threads requests] in *. destruct Hr' as [_ _ H3]. split_and!; [lia|lia| |].
  - intros i size ptr Hi. destruct (Ht i _ Hi) as [_ Hp]. split; [|exact Hp].
    assert (E : (thread_size <$> threads s) !! i = Some size) by (by rewrite list_lookup_fmap, Hi).
    rewrite E3, !list_lookup_fmap in E. by destruct (sizes !! i).
  - intros i j size ptr size' ptr' Hne Hi Hj. exact (Ha i j _ _ Hne Hi Hj).
Qed.

(** C26: the lock-free allocator is linearizable: every execution of the threads is,
    step by step and with stuttering, one of the allocator that serves a request
    at once; and serving a request at once is what the function does when it is
    called without interference. *)
Theorem allocator_refines_atomic r sizes s :
  region_ok r -> Forall (request_ok r) sizes -> rtc alloc_steps (requests r sizes) s ->
  rtc atomic_steps (r, Pending <$> sizes) (view_state s) /\
  forall (os : Type) (HO : Host os) (h : os) size, request_ok r size ->
    FIRCLSAllocatorSafeAllocateFromRegion (shared s) size h =
      Some (match (serve (shared s) size).1 with
            | FromRegion ptr => (ptr, (serve (shared s) size).2, h)
            | FromMalloc => ((malloc size h).1, shared s, (malloc size h).2)
            end).
Proof.
  intros Hr Hs H. assert (Hok := requests_ok r sizes Hr Hs). split.
  - replace (r, Pending <$> sizes) with (view_state (requests r sizes)).
    2: { unfold view_state, requests. cbn [shared threads]. f_equal. by rewrite <- list_fmap_compose. }
    induction H as [s0|s0 s1 s2 Hst _ IH]; [done|].
    etransitivity; [|apply IH, (alloc_steps_ok (region_cursor r) s0); done].
    destruct (steps_refine _ _ _ Hok Hst) as [->|Ha]; [done|by apply rtc_once].
  - intros os HO h size [Hq1 Hq2]. destruct (executions_ok _ _ _ Hok H) as [[Hr' _ _ _] (_ & E & _)].
    apply allocate_from_region_run; [done|]. split; [done|]. cbn [shared requests] in E. by rewrite E.
Qed.

(** C30: no thread starves and none blocks another: an execution of [n] requests has
    at most 2n + 2n^2 steps, and one that cannot go on has served them all. *)
Theorem allocator_terminates r sizes n s :
  region_ok r -> Forall (request_ok r) sizes -> nsteps alloc_steps n (requests r sizes) s ->
  (n <= 2 * length sizes + 2 * length sizes * length sizes)%nat /\
  ((forall s', ~ alloc_steps s s') -> Forall (fun t => finished t = true) (threads s)).
Proof.
  intros Hr Hs H. split.
  - pose proof (steps_bounded _ _ _ _ (requests_ok r sizes Hr Hs) H) as Hn. rewrite requests_remaining in Hn. lia.
  - intros Hend. apply Forall_lookup_2. intros i t Hi. destruct (finished t) eqn:Hf; [done|].
    destruct (unfinished_steps s i t Hi Hf) as [s' Hst]. by destruct (Hend s').
Qed.

(** ** The layout of an allocator *)

Section Layout.
Context {os : Type} {HO : Host os}.

(** The pages that hold [n] bytes, and one more when they fill them. *)
Lemma pages_bound p n : 0 < p -> 0 <= n ->
  n < (n / p + 1) * p <= n + p /\ ((n / p + 1) * p) mod p = 0.
Proof.
  intros Hp Hn. pose proof (Z.div_mod n p ltac:(lia)). pose proof (Z.mod_pos_bound n p Hp).
  split; [nia|]. by rewrite Z_mod_mult.
Qed.

(** The size of a region for [n] bytes. *)
Lemma region_pages p n :
  0 < p -> 0 <= n -> n + p < 2 ^ 64 ->
  let size := if 0 <? n then u64 (u64 (n / p + 1) * p) else 0 in
  n <= size <= n + p /\ size mod p = 0.
Proof.
  intros Hp Hn Hb. destruct (pages_bound p n Hp Hn) as [H1 H2]. cbv zeta.
  assert (n / p <= n) by (apply Z.div_le_upper_bound; nia).
  destruct (Z.ltb_spec 0 n); [|split; [lia|by rewrite Zmod_0_l]].
  assert (0 <= n / p) by (apply Z.div_pos; lia).
  rewrite (wrap_small 64 (n / p + 1)) by lia. rewrite wrap_small by lia. split; [lia|done].
Qed.

(** creating an allocator never stores through the null pointer, and the
    allocator it creates has the layout guard, writable region, guard, readable
    region, guard: page-aligned parts of one mapping, the regions large enough
    for the space asked for, the allocator itself at the start of the readable
    one and accounted for by its cursor. *)
Theorem create_layout writableSpace readableSpace h :
  let p := FIRCLSHostGetPageSize (os := os) in
  0 < p -> 0 <= writableSpace -> 0 <= readableSpace ->
  writableSpace + readableSpace + 2 * sizeof_FIRCLSAllocator + 5 * p < 2 ^ 64 ->
  (forall n h' b h'', mmap n h' = (Some b, h'') -> 0 < b /\ b mod p = 0 /\ b + n < 2 ^ 64) ->
  FIRCLSAllocatorCreate writableSpace readableSpace h <> None /\
  forall addr a h', FIRCLSAllocatorCreate writableSpace readableSpace h = Some (Some (addr, a), h') ->
    let w := writeableRegion a in let r := readableRegion a in
    region_ok w /\ region_ok r /\ protectionEnabled a = false /\
    buffer a mod p = 0 /\ region_size w mod p = 0 /\ region_size r mod p = 0 /\
    region_start w = buffer a + p /\ region_cursor w = region_start w /\ writableSpace <= region_size w /\
    region_start r = region_start w + region_size w + p /\ addr = region_start r /\
    region_cursor r = addr + sizeof_FIRCLSAllocator /\
    readableSpace <= region_start r + region_size r - region_cursor r.
Proof.
  intros p Hp Hw Hr Hsum Hmmap. unfold FIRCLSAllocatorCreate. fold p. cbv zeta. clearbody p.
  assert (H64 : sizeof_FIRCLSAllocator = 64) by done.
  rewrite (wrap_small 64 (readableSpace + _)) by lia.
  pose proof (region_pages p writableSpace Hp Hw ltac:(lia)) as [Hws Hwm].
  pose proof (region_pages p (readableSpace + sizeof_FIRCLSAllocator) Hp ltac:(lia) ltac:(lia)) as [Hrs Hrm].
  cbv zeta in *. set (ws := if 0 <? writableSpace then _ else 0) in *.
  set (rs := if 0 <? readableSpace + _ then _ else 0) in *. clearbody ws rs.
  rewrite (wrap_small 64 (ws + rs)), (wrap_small 64 (p * 3)), (wrap_small 64 (ws + rs + _)) by lia.
  destruct (mmap _ h) as [[b|] h1] eqn:Em; [|done]. destruct (Hmmap _ _ _ _ Em) as (Hb1 & Hbm & Hb2).
  rewrite !(wrap_small 64 (b + p)) by lia. rewrite !(wrap_small 64 (b + p + ws)) by lia.
  rewrite !(wrap_small 64 (b + p + ws + p)) by lia. rewrite !(wrap_small 64 (b + p + ws + p + rs)) by lia.
  destruct (mprotect b p PROT_NONE h1) as [[] h2]; cbn [negb]; [|done].
  destruct (mprotect (b + p + ws) p PROT_NONE h2) as [[] h3]; cbn [negb]; [|done].
  destruct (mprotect _ p PROT_NONE h3) as [[] h4]; cbn [negb]; [|done].
  rewrite (allocate_from_region_run (Region rs (b + p + ws + p) (b + p + ws + p)) sizeof_FIRCLSAllocator h4)
    by (split; cbn; lia). unfold serve. cbn [region_start region_size region_cursor].
  rewrite (proj2 (Z.ltb_ge _ _)) by lia. cbn [fst snd mbind option_bind with_cursor region_size region_start].
  rewrite (proj2 (Z.eqb_neq _ 0)) by lia. split; [done|].
  intros addr a h' [= <- <- <-]. cbn. split_and!; try done; try (split; cbn; lia); lia.
Qed.

End Layout.

(** Pages of 16 KB; one mapping; malloc from the next address. *)
#[global] Instance simple_host : Host Z := {|
  FIRCLSHostGetPageSize := 0x4000;
  mmap n s := if n <? 2 ^ 40 then (Some 0x100000000, s) else (None, s);
  mprotect _ _ _ s := (true, s);
  malloc n s := (s, s + n);
  free _ s := s
|}.

Definition ex_region : FIRCLSAllocationRegion := Region 0x4000 0x10000 0x10040.

Definition ex_sizes : list Z := [0x100; 0x200; 0x8000].

Lemma ex_region_ok : region_ok ex_region.
Proof. by split. Qed.

Lemma ex_sizes_ok : Forall (request_ok ex_region) ex_sizes.
Proof. by repeat constructor. Qed.

(** The first thread reads the cursor, the second allocates, the first has to
    read again; the third does not fit. *)
Definition ex_threads : list alloc_thread :=
  [Allocated 0x100 0x10240; Allocated 0x200 0x10040; Falling 0x8000].

Definition ex_after : FIRCLSAllocationRegion := Region 0x4000 0x10000 0x10340.

Lemma ex_steps : nsteps alloc_steps 7 (requests ex_region ex_sizes) (AllocState ex_after ex_threads).
Proof. apply (run_schedule_sound [(0%nat, 0); (1%nat, 0); (1%nat, 0); (0%nat, 0); (0%nat, 0); (2%nat, 0); (0%nat, 0)]). by vm_compute. Qed.

Lemma ex_execution : rtc alloc_steps (requests ex_region ex_sizes) (AllocState ex_after ex_threads).
Proof. exact (rtc_nsteps_2 _ _ _ ex_steps). Qed.

Lemma allocated_blocks_apart_witness :
  0x10240 + 0x100 <= 0x10040 \/ 0x10040 + 0x200 <= 0x10240.
Proof.
  destruct (allocated_blocks_apart ex_region ex_sizes _ ex_region_ok ex_sizes_ok ex_execution) as (_ & _ & H).
  exact (H 0%nat 1%nat _ _ _ _ ltac:(done) eq_refl eq_refl).
Defined.

Lemma allocator_refines_atomic_witness :
  rtc atomic_steps (ex_region, Pending <$> ex_sizes)
    (ex_after, [Served 0x100 (FromRegion 0x10240); Served 0x200 (FromRegion 0x10040); Served 0x8000 FromMalloc]).
Proof.
  exact (proj1 (allocator_refines_atomic ex_region ex_sizes _ ex_region_ok ex_sizes_ok ex_execution)).
Defined.

Lemma allocator_terminates_witness : (7 <= 2 * 3 + 2 * 3 * 3)%nat.
Proof. exact (proj1 (allocator_terminates ex_region ex_sizes 7 _ ex_region_ok ex_sizes_ok ex_steps)). Defined.

Lemma create_layout_witness :
  exists a, FIRCLSAllocatorCreate 0x10000 0x100 0 = Some (Some (0x10001C000, a), 0) /\
    region_start (writeableRegion a) = 0x100004000 /\ 0x10000 <= region_size (writeableRegion a) /\
    region_cursor (readableRegion a) = 0x10001C040.
Proof.
  destruct (create_layout (os := Z) 0x10000 0x100 0) as [_ H]; [done..| |].
  { cbn. intros n h' b h''. destruct (Z.ltb_spec n (2 ^ 40)); [|done]. intros [= <- <-]. split_and!; lia || done. }
  eexists. split; [vm_compute; reflexivity|]. specialize (H _ _ _ ltac:(vm_compute; reflexivity)). cbv zeta in H.
  destruct H as (_ & _ & _ & _ & _ & _ & H1 & _ & H2 & _ & _ & H3 & _). exact (conj H1 (conj H2 H3)).
Defined.

(** ** Protection *)

(** Of a protected allocator the regions are not used. *)
Lemma protected_allocations a size type h :
  protectionEnabled a = true ->
  FIRCLSAllocatorSafeAllocate (Some a) size type h = Some ((malloc size h).1, Some a, (malloc size h).2).
Proof.
  intros E. unfold FIRCLSAllocatorSafeAllocate. rewrite E. destruct (malloc size h) as [ptr h'].
  cbn. by destruct (Z.eqb_spec ptr 0) as [->|].
Qed.

(** The flag is set before the pages are protected. *)
Lemma protect_sets_flag a ok a' h h' :
  FIRCLSAllocatorProtect (Some a) h = (ok, Some a', h') -> protectionEnabled a' = true.
Proof.
  unfold FIRCLSAllocatorProtect. destruct (protectionEnabled a) eqn:E; [by intros [= _ <- _]|].
  cbv zeta. destruct (mprotect _ _ _ _) as [b s]. by intros [= _ <- _].
Qed.

(** ** Where the code goes wrong *)

(** The room check wraps for a size that is close to the whole address space. *)
Example request_wraps : no_room ex_region (region_cursor ex_region) (2 ^ 64 - 0x40) = false.
Proof. by vm_compute. Qed.

(** Removing the protection reports failure when it has succeeded; the length it
    changes has the address of the buffer added to it. *)
Example unprotect_inverted :
  FIRCLSAllocatorUnprotect (Some (Allocator 0x100000000 true ex_region ex_region)) 0 =
  (false, Some (Allocator 0x100000000 false ex_region ex_region), 0).
Proof. by vm_compute. Qed.
