(* ===== verification/File.v ===== *)
(** Crashlytics' report file (the C functions of Helpers/FIRCLSFile.m): a file
    that is written without the allocator once it is open, with an optional
    buffer, and as a sequence of JSON objects.

    The file descriptor belongs to the kernel, the parameter [Kernel]. A
    [FIRCLSFile*] is [None] when it is null. A [char*] is the list of the bytes
    that can be read there, so that a C string ends in a 0; reading past the
    list, writing past an array, using the buffer after it was freed and signed
    overflow are [Undefined]. [Exhausted] is fuel that ran out. *)
From S2P Require Import Prelude.

(** ** The kernel

    [uninit n] is what [n] bytes of the stack hold before they are written. *)
Class Kernel := {
  kernel : Type;
  O_WRONLY : Z;
  O_CREAT : Z;
  O_APPEND : Z;
  O_TRUNC : Z;
  sys_open : list Z -> Z -> kernel -> Z * kernel;
  sys_size : Z -> kernel -> Z;
  sys_write : Z -> list Z -> kernel -> Z * kernel;
  sys_close : Z -> kernel -> Z * kernel;
  sys_malloc : Z -> kernel -> option (list Z) * kernel;
  uninit : nat -> list Z
}.

(** ** The file *)

(** [writeBuffer]: null, freed, or the bytes of its block. *)
Inductive write_buffer := NoBuffer | Freed | Buffer (bytes : list Z).

Record FIRCLSFile := File {
  fd : Z;
  collectionDepth : Z;
  needComma : bool;
  bufferWrites : bool;
  writeBuffer : write_buffer;
  writeBufferLength : Z;
  writtenLength : Z
}.

Definition with_depth (f : FIRCLSFile) (v : Z) : FIRCLSFile :=
  File (fd f) v (needComma f) (bufferWrites f) (writeBuffer f) (writeBufferLength f) (writtenLength f).
Definition with_comma (f : FIRCLSFile) (v : bool) : FIRCLSFile :=
  File (fd f) (collectionDepth f) v (bufferWrites f) (writeBuffer f) (writeBufferLength f) (writtenLength f).
Definition with_buffer (f : FIRCLSFile) (v : write_buffer) : FIRCLSFile :=
  File (fd f) (collectionDepth f) (needComma f) (bufferWrites f) v (writeBufferLength f) (writtenLength f).
Definition with_buffer_length (f : FIRCLSFile) (v : Z) : FIRCLSFile :=
  File (fd f) (collectionDepth f) (needComma f) (bufferWrites f) (writeBuffer f) v (writtenLength f).
Definition with_written (f : FIRCLSFile) (v : Z) : FIRCLSFile :=
  File (fd f) (collectionDepth f) (needComma f) (bufferWrites f) (writeBuffer f) (writeBufferLength f) v.

Definition FIRCLSUInt64StringBufferLength : nat := 21.
Definition FIRCLSStringBufferLength : Z := 16.
Definition FIRCLSWriteBufferLength : Z := 1000.
Definition CLS_FILE_HEX_BUFFER : Z := 32.
Definition CLS_FILE_MAX_WRITE_ATTEMPTS : nat := 50.

(** ** The monad *)

Section Monad.
Context {KN : Kernel}.

Record file_state := FileState { the_file : option FIRCLSFile; the_kernel : kernel }.

Inductive result (A : Type) : Type :=
  | Returns (a : A) (s : file_state)
  | Undefined
  | Exhausted.

Definition F (A : Type) : Type := file_state -> result A.

End Monad.

Arguments Returns {_ A}.
Arguments Undefined {_ A}.
Arguments Exhausted {_ A}.

#[global] Instance F_ret {KN : Kernel} : MRet F := fun A a s => Returns a s.
#[global] Instance F_bind {KN : Kernel} : MBind F := fun A B k m s =>
  match m s with
  | Returns a s' => k a s'
  | Undefined => Undefined
  | Exhausted => Exhausted
  end.

Section File.
Context {KN : Kernel}.

Definition undefined {A} : F A := fun _ => Undefined.
Definition exhausted {A} : F A := fun _ => Exhausted.

Definition or_undefined {A} (o : option A) : F A :=
  match o with Some a => mret a | None => undefined end.

Definition sys {A} (call : kernel -> A * kernel) : F A := fun s =>
  let (a, k) := call (the_kernel s) in Returns a (FileState (the_file s) k).

(** [file != NULL], [*file] and [*file = f]. *)
Definition file_given : F bool := fun s => Returns (bool_decide (is_Some (the_file s))) s.

Definition get_file : F FIRCLSFile := fun s =>
  match the_file s with Some f => Returns f s | None => Undefined end.

Definition put_file (f : FIRCLSFile) : F unit := fun s =>
  match the_file s with Some _ => Returns tt (FileState (Some f) (the_kernel s)) | None => Undefined end.

(** ** The C library *)

Definition strlen (string : list Z) : F Z :=
  '(i, _) ← or_undefined (list_find (eq 0) string); mret (Z.of_nat i).

(** The [n] bytes that [strncpy] stores. *)
Fixpoint strncpy (n : nat) (src : list Z) : option (list Z) :=
  match n, src with
  | O, _ => Some []
  | S n', [] => None
  | S n', b :: src' => if b =? 0 then Some (replicate n 0) else bs ← strncpy n' src'; Some (b :: bs)
  end.

(** Stores [bs] in an array from the index [i] on. *)
Definition store_at (array : list Z) (i : Z) (bs : list Z) : option (list Z) :=
  if (0 <=? i) && (i + Z.of_nat (length bs) <=? Z.of_nat (length array)) then
    Some (take (Z.to_nat i) array ++ bs ++ drop (Z.to_nat i + length bs) array)
  else None.

(** A string literal. *)
Definition chars (s : string) : list Z := (fun c => Z.of_N (Ascii.N_of_ascii c)) <$> String.list_ascii_of_string s.
Definition literal (s : string) : list Z := chars s ++ [0].

(** ** Writing to the descriptor *)

(** [for (size_t count = 0; ...)] with the attempts that are left. *)
Fixpoint write_block_loop (attempts : nat) (buffer : list Z) (length : Z) (writeBlock : list Z -> Z -> F Z) :
    F bool :=
  match attempts with
  | O => mret false
  | S attempts =>
      if negb (0 <? length) then mret false
      else
        ret ← writeBlock buffer length;
        if 2 ^ 64 - 1 <? length then mret false
        else
          let signedLength := s64 length in
          if (0 <=? ret) && (ret =? signedLength) then mret true
          else if ret <? 0 then mret false
          else if signedLength <? ret then mret false
          else if 0 <? ret then
            write_block_loop attempts (drop (Z.to_nat ret) buffer) (u64 (length - ret)) writeBlock
          else mret false
  end.

Definition FIRCLSFileLoopWithWriteBlock (buffer : list Z) (length : Z) (writeBlock : list Z -> Z -> F Z) :
    F bool :=
  write_block_loop CLS_FILE_MAX_WRITE_ATTEMPTS buffer length writeBlock.

(** [write(fd, partialBuffer, partialLength)] *)
Definition write_call (fd : Z) (partialBuffer : list Z) (partialLength : Z) : F Z :=
  if Z.of_nat (length partialBuffer) <? partialLength then undefined
  else sys (sys_write fd (take (Z.to_nat partialLength) partialBuffer)).

Definition FIRCLSFileWriteWithRetries (fd : Z) (buffer : list Z) (length : Z) : F bool :=
  FIRCLSFileLoopWithWriteBlock buffer length (write_call fd).

Definition FIRCLSFileWriteToFileDescriptor (string : list Z) (length : Z) : F unit :=
  f ← get_file;
  ok ← FIRCLSFileWriteWithRetries (fd f) string length;
  if negb ok then mret tt
  else f ← get_file; put_file (with_written f (s64 (writtenLength f + length))).

(** ** The buffer *)

(** What can be read at [file->writeBuffer]. *)
Definition buffer_bytes (b : write_buffer) : list Z :=
  match b with Buffer bytes => bytes | _ => [] end.

Definition FIRCLSFileFlushWriteBuffer : F unit :=
  given ← file_given;
  if negb given then mret tt
  else
    f ← get_file;
    if negb (bufferWrites f) then mret tt
    else
      FIRCLSFileWriteToFileDescriptor (buffer_bytes (writeBuffer f)) (writeBufferLength f);;
      f ← get_file;
      put_file (with_buffer_length f 0).

Definition FIRCLSFileWriteToBuffer (string : list Z) (length : Z) : F unit :=
  f ← get_file;
  let writeLength :=
    if FIRCLSWriteBufferLength - 1 <? u64 (writeBufferLength f + length)
    then u64 (FIRCLSWriteBufferLength - writeBufferLength f - 1) else length in
  bs ← or_undefined (strncpy (Z.to_nat writeLength) string);
  buffer ← or_undefined (store_at (buffer_bytes (writeBuffer f)) (writeBufferLength f) bs);
  let bufferLength := u64 (writeBufferLength f + writeLength) in
  buffer ← or_undefined (store_at buffer bufferLength [0]);
  put_file (with_buffer_length (with_buffer f (Buffer buffer)) bufferLength).

(** The function calls itself on what did not fit. *)
Fixpoint write_or_buffer (fuel : nat) (string : list Z) (length : Z) : F unit :=
  match fuel with
  | O => exhausted
  | S fuel =>
      f ← get_file;
      if bufferWrites f then
        if FIRCLSWriteBufferLength - 1 <? u64 (writeBufferLength f + length) then
          let remainingSpace := u64 (FIRCLSWriteBufferLength - writeBufferLength f - 1) in
          FIRCLSFileWriteToBuffer string remainingSpace;;
          FIRCLSFileFlushWriteBuffer;;
          let remainingLength := u64 (length - remainingSpace) in
          write_or_buffer fuel (drop (Z.to_nat remainingSpace) string) remainingLength
        else FIRCLSFileWriteToBuffer string length
      else FIRCLSFileWriteToFileDescriptor string length
  end.

(** The first call may only flush a full buffer; every other takes a byte. *)
Definition FIRCLSFileWriteToFileDescriptorOrBuffer (string : list Z) (length : Z) : F unit :=
  write_or_buffer (S (S (Z.to_nat length))) string length.

Definition FIRCLSFileWriteStringUnquoted (string : list Z) : F unit :=
  length ← strlen string;
  FIRCLSFileWriteToFileDescriptorOrBuffer string length.

(** ** Opening and closing *)

Definition FIRCLSFileInit (descriptor : Z) (appendMode buffered : bool) : F bool :=
  given ← file_given;
  if negb given then mret false
  else if descriptor <? 0 then mret false
  else
    put_file (File descriptor 0 false buffered NoBuffer 0 0);;
    allocated ←
      (if buffered then
         block ← sys (sys_malloc FIRCLSWriteBufferLength);
         match block with
         | None => mret false
         | Some bytes => f ← get_file; put_file (with_buffer f (Buffer bytes));; mret true
         end
       else mret true);
    if negb allocated then mret false
    else if appendMode then
      currentFileSize ← sys (fun k => (sys_size descriptor k, k));
      f ← get_file;
      (if 0 <? currentFileSize then put_file (with_written f (s64 (writtenLength f + currentFileSize)))
       else mret tt);;
      mret true
    else mret true.

Definition FIRCLSFileInitWithPathMode (path : option (list Z)) (appendMode buffered : bool) : F bool :=
  given ← file_given;
  if negb given then mret false
  else
    let mask := Z.lor (Z.lor O_WRONLY O_CREAT) (if appendMode then O_APPEND else O_TRUNC) in
    descriptor ← match path with None => mret (-1) | Some p => sys (sys_open p mask) end;
    FIRCLSFileInit descriptor appendMode buffered.

Definition FIRCLSFileInitWithPath (path : option (list Z)) (buffered : bool) : F bool :=
  FIRCLSFileInitWithPathMode path true buffered.

(** [free(file->writeBuffer)] of a block that is live. *)
Definition free_buffer : F unit :=
  f ← get_file;
  match writeBuffer f with
  | Buffer _ => put_file (with_buffer f Freed)
  | _ => undefined
  end.

(** Also returns [*finalSize]. *)
Definition FIRCLSFileCloseWithOffset : F (bool * Z) :=
  given ← file_given;
  if negb given then mret (false, 0)
  else
    f ← get_file;
    (if bufferWrites f && match writeBuffer f with NoBuffer => false | _ => true end then
       (if 0 <? writeBufferLength f then FIRCLSFileFlushWriteBuffer else mret tt);;
       free_buffer
     else mret tt);;
    f ← get_file;
    let finalSize := writtenLength f in
    status ← sys (sys_close (fd f));
    if negb (status =? 0) then mret (false, finalSize)
    else
      put_file (File (-1) 0 false false NoBuffer 0 0);;
      mret (true, finalSize).

Definition FIRCLSFileClose : F bool := '(ok, _) ← FIRCLSFileCloseWithOffset; mret ok.

Definition FIRCLSFileIsOpen : F bool :=
  given ← file_given;
  if negb given then mret false else f ← get_file; mret (-1 <? fd f).

End File.
