(* ===== verification/FileFormat.v ===== *)
(** What Crashlytics writes to a report file (Helpers/FIRCLSFile.m,
    FIRCLSByteUtility.m): strings, integers, and JSON collections with the comma
    before an entry kept as state of the file. *)
From S2P Require Import Prelude File.

(** ** Numbers in digits *)

(** [char value = number % base + '0'], and the letters behind the digits. *)
Definition digit_char (number base : Z) : Z :=
  let value := s8 (number mod base + 48) in
  if 57 <? value then s8 (value + (97 - 57 - 1)) else value.

(** The [do ... while] loop, from the index [i] down; [None] when it writes
    before the array. *)
Fixpoint prepare_loop (i : nat) (buffer : list Z) (number base : Z) : option (list Z * Z) :=
  match i with
  | O => None
  | S i' =>
      buffer ← store_at buffer (Z.of_nat i') [digit_char number base];
      let number := number / base in
      if (0 <? number) && (0 <? Z.of_nat i') then prepare_loop i' buffer number base
      else Some (buffer, Z.of_nat i')
  end.

(** Returns the contents of [buffer] and the index of the first digit. *)
Definition FIRCLSFilePrepareUInt64 (number : Z) (hex : bool) : option (list Z * Z) :=
  let base := if hex then 16 else 10 in
  prepare_loop (FIRCLSUInt64StringBufferLength - 1) (replicate FIRCLSUInt64StringBufferLength 0) number base.

(** ** Hexadecimal bytes *)

Definition FIRCLSHexMap : list Z := chars "0123456789abcdef".

Definition FIRCLSHexFromByte (c : Z) : list Z :=
  [nth (Z.to_nat (Z.shiftr c 4)) FIRCLSHexMap 0; nth (Z.to_nat (Z.land c 0x0F)) FIRCLSHexMap 0].

Definition FIRCLSInvalidCharNybble : Z := 255.

(** [char] is signed. *)
Definition FIRCLSNybbleFromChar (byte : Z) : Z :=
  let c := s8 byte in
  if (48 <=? c) && (c <=? 57) then u8 (c - 48)
  else if (97 <=? c) && (c <=? 102) then u8 (c - 97 + 10)
  else if (65 <=? c) && (c <=? 70) then u8 (c - 65 + 10)
  else FIRCLSInvalidCharNybble.

(** The literal of a quotation mark. *)
Definition quote : list Z := [34; 0].

Section Format.
Context {KN : Kernel}.

Notation write_bytes := FIRCLSFileWriteToFileDescriptorOrBuffer.

(** ** Strings *)

Definition FIRCLSFileWriteUnbufferedStringWithSuffix (string : list Z) (length : Z) (suffix : Z) : F unit :=
  let suffixBuffer := [34; suffix] in
  write_bytes quote 1;;
  write_bytes string length;;
  write_bytes suffixBuffer (if suffix =? 0 then 1 else 2).

Definition FIRCLSFileWriteStringWithSuffix (string : list Z) (length : Z) (suffix : Z) : F unit :=
  let maxStringSize := FIRCLSStringBufferLength - (if suffix =? 0 then 3 else 4) in
  if maxStringSize <=? length then FIRCLSFileWriteUnbufferedStringWithSuffix string length suffix
  else
    buffer ← or_undefined (store_at (uninit (Z.to_nat FIRCLSStringBufferLength)) 0 [34]);
    bs ← or_undefined (strncpy (Z.to_nat length) string);
    buffer ← or_undefined (store_at buffer 1 bs);
    buffer ← or_undefined (store_at buffer (length + 1) [34]);
    let length := length + 2 in
    '(buffer, length) ←
      (if suffix =? 0 then mret (buffer, length)
       else buffer ← or_undefined (store_at buffer length [suffix]); mret (buffer, length + 1));
    buffer ← or_undefined (store_at buffer (length + 1) [0]);
    write_bytes buffer length.

Definition FIRCLSFileWriteString (string : option (list Z)) : F unit :=
  match string with
  | None => write_bytes (literal "null") 4
  | Some s => length ← strlen s; FIRCLSFileWriteStringWithSuffix s length 0
  end.

(** [for (int i = 0; i < length; ++i)] from [i] on; [bufferIndex] and the buffer
    are returned. *)
Fixpoint hex_loop (n : nat) (string : list Z) (i length : Z) (buffer : list Z) (bufferIndex : Z) :
    F (list Z * Z) :=
  match n with
  | O => mret (buffer, bufferIndex)
  | S n =>
      c ← or_undefined (string !! Z.to_nat i);
      buffer ← or_undefined (store_at buffer bufferIndex (FIRCLSHexFromByte c));
      let bufferIndex := bufferIndex + 2 in
      bufferIndex ←
        (if CLS_FILE_HEX_BUFFER <=? bufferIndex then write_bytes buffer CLS_FILE_HEX_BUFFER;; mret 0
         else mret bufferIndex);
      if i =? 2 ^ 31 - 1 then undefined else hex_loop n string (i + 1) length buffer bufferIndex
  end.

Definition FIRCLSFileWriteHexEncodedString (string : option (list Z)) : F unit :=
  given ← file_given;
  if negb given then mret tt
  else
    match string with
    | None => write_bytes (literal "null") 4
    | Some s =>
        length ← strlen s;
        write_bytes quote 1;;
        '(buffer, bufferIndex) ←
          hex_loop (Z.to_nat length) s 0 length (replicate (Z.to_nat CLS_FILE_HEX_BUFFER) 0) 0;
        (if (0 <? bufferIndex) && (0 <? length) then write_bytes buffer bufferIndex else mret tt);;
        write_bytes quote 1
    end.

(** ** Integers and booleans *)

(** The string from [beginning] on. *)
Definition prepared (number : Z) (hex : bool) : F (list Z * Z) :=
  '(buffer, i) ← or_undefined (FIRCLSFilePrepareUInt64 number hex);
  let beginning := drop (Z.to_nat i) buffer in
  length ← strlen beginning;
  mret (beginning, length).

Definition FIRCLSFileWriteUInt64 (number : Z) (hex : bool) : F unit :=
  '(beginning, length) ← prepared number hex;
  write_bytes beginning length.

Definition FIRCLSFileFDWriteUInt64 (fd number : Z) (hex : bool) : F unit :=
  '(beginning, length) ← prepared number hex;
  FIRCLSFileWriteWithRetries fd beginning length;;
  mret tt.

(** [number *= -1] *)
Definition negate (number : Z) : F Z :=
  if number =? - 2 ^ 63 then undefined else mret (- number).

Definition FIRCLSFileWriteInt64 (number : Z) : F unit :=
  number ← (if number <? 0 then write_bytes (literal "-") 1;; negate number else mret number);
  FIRCLSFileWriteUInt64 (u64 number) false.

Definition FIRCLSFileFDWriteInt64 (fd number : Z) : F unit :=
  number ← (if number <? 0 then FIRCLSFileWriteWithRetries fd (literal "-") 1;; negate number else mret number);
  FIRCLSFileFDWriteUInt64 fd (u64 number) false.

Definition FIRCLSFileWriteBool (value : bool) : F unit :=
  if value then write_bytes (literal "true") 4 else write_bytes (literal "false") 5.

(** ** Collections *)

Definition FIRCLSFileWriteCollectionStart (openingChar : Z) : F unit :=
  let string := [44; openingChar] in
  f ← get_file;
  (if needComma f then write_bytes string 2 else write_bytes (drop 1 string) 1);;
  f ← get_file;
  (if collectionDepth f =? 2 ^ 31 - 1 then undefined
   else put_file (with_depth f (collectionDepth f + 1)));;
  f ← get_file;
  put_file (with_comma f false).

Definition FIRCLSFileWriteCollectionEnd (closingChar : Z) : F unit :=
  write_bytes [closingChar] 1;;
  f ← get_file;
  if collectionDepth f <=? 0 then mret tt
  else
    put_file (with_depth f (collectionDepth f - 1));;
    f ← get_file;
    put_file (with_comma f (0 <? collectionDepth f)).

Definition FIRCLSFileWriteCollectionEntryProlog : F unit :=
  f ← get_file;
  if needComma f then write_bytes (literal ",") 1 else mret tt.

Definition FIRCLSFileWriteCollectionEntryEpilog : F unit :=
  f ← get_file; put_file (with_comma f true).

Definition FIRCLSFileWriteHashStart : F unit := FIRCLSFileWriteCollectionStart 123.
Definition FIRCLSFileWriteHashEnd : F unit := FIRCLSFileWriteCollectionEnd 125.
Definition FIRCLSFileWriteArrayStart : F unit := FIRCLSFileWriteCollectionStart 91.
Definition FIRCLSFileWriteArrayEnd : F unit := FIRCLSFileWriteCollectionEnd 93.

Definition FIRCLSFileWriteHashKey (key : list Z) : F unit :=
  FIRCLSFileWriteCollectionEntryProlog;;
  length ← strlen key;
  FIRCLSFileWriteStringWithSuffix key length 58;;
  f ← get_file;
  put_file (with_comma f false).

Definition FIRCLSFileWriteSectionStart (name : list Z) : F unit :=
  FIRCLSFileWriteHashStart;;
  FIRCLSFileWriteHashKey name.

Definition FIRCLSFileWriteSectionEnd : F unit :=
  FIRCLSFileWriteHashEnd;;
  write_bytes [10; 0] 1.

(** ** Entries *)

Definition FIRCLSFileWriteHashEntryUint64 (key : list Z) (value : Z) : F unit :=
  FIRCLSFileWriteHashKey key;;
  FIRCLSFileWriteUInt64 value false;;
  FIRCLSFileWriteCollectionEntryEpilog.

Definition FIRCLSFileWriteHashEntryInt64 (key : list Z) (value : Z) : F unit :=
  FIRCLSFileWriteHashKey key;;
  FIRCLSFileWriteInt64 value;;
  FIRCLSFileWriteCollectionEntryEpilog.

Definition FIRCLSFileWriteHashEntryString (key : list Z) (value : option (list Z)) : F unit :=
  FIRCLSFileWriteHashKey key;;
  FIRCLSFileWriteString value;;
  FIRCLSFileWriteCollectionEntryEpilog.

Definition FIRCLSFileWriteHashEntryHexEncodedString (key : list Z) (value : option (list Z)) : F unit :=
  FIRCLSFileWriteHashKey key;;
  FIRCLSFileWriteHexEncodedString value;;
  FIRCLSFileWriteCollectionEntryEpilog.

Definition FIRCLSFileWriteHashEntryBoolean (key : list Z) (value : bool) : F unit :=
  FIRCLSFileWriteHashKey key;;
  FIRCLSFileWriteBool value;;
  FIRCLSFileWriteCollectionEntryEpilog.

Definition FIRCLSFileWriteArrayEntryUint64 (value : Z) : F unit :=
  FIRCLSFileWriteCollectionEntryProlog;;
  FIRCLSFileWriteUInt64 value false;;
  FIRCLSFileWriteCollectionEntryEpilog.

Definition FIRCLSFileWriteArrayEntryString (value : option (list Z)) : F unit :=
  FIRCLSFileWriteCollectionEntryProlog;;
  FIRCLSFileWriteString value;;
  FIRCLSFileWriteCollectionEntryEpilog.

Definition FIRCLSFileWriteArrayEntryHexEncodedString (value : option (list Z)) : F unit :=
  FIRCLSFileWriteCollectionEntryProlog;;
  FIRCLSFileWriteHexEncodedString value;;
  FIRCLSFileWriteCollectionEntryEpilog.

End Format.

(** ** Hexadecimal strings

    What the conversion to an [NSString] gets: the contents of the buffer, [None]
    when memory is accessed that is not the string's or the buffer's, or an [int]
    overflows. The buffer is a block that [malloc] gave, cleared. *)

Fixpoint hex_encode_loop (n : nat) (string : list Z) (i : Z) (buffer : list Z) (bufferIndex : Z) :
    option (list Z) :=
  match n with
  | O => Some buffer
  | S n =>
      c ← string !! Z.to_nat i;
      buffer ← store_at buffer bufferIndex (FIRCLSHexFromByte c);
      let bufferIndex := bufferIndex + 2 in
      if 2 ^ 31 <=? bufferIndex then None else hex_encode_loop n string (i + 1) buffer bufferIndex
  end.

Definition string_length (string : list Z) : option Z :=
  '(i, _) ← list_find (eq 0) string; Some (Z.of_nat i).

Definition FIRCLSFileHexEncodeString (string : list Z) : option (list Z) :=
  length ← string_length string;
  hex_encode_loop (Z.to_nat length) string 0 (replicate (Z.to_nat (length * 2 + 1)) 0) 0.

Fixpoint hex_decode_loop (n : nat) (string : list Z) (i : Z) (decodedBuffer : list Z) : option (list Z) :=
  match n with
  | O => Some decodedBuffer
  | S n =>
      let index := i * 2 in
      if 2 ^ 31 <=? index then None else
      hi ← string !! Z.to_nat index;
      low ← string !! Z.to_nat (index + 1);
      let hiNybble := FIRCLSNybbleFromChar hi in
      let lowNybble := FIRCLSNybbleFromChar low in
      if (hiNybble =? FIRCLSInvalidCharNybble) || (lowNybble =? FIRCLSInvalidCharNybble) then
        Some decodedBuffer
      else
        decodedBuffer ← store_at decodedBuffer i [u8 (Z.lor (Z.shiftl hiNybble 4) lowNybble)];
        hex_decode_loop n string (i + 1) decodedBuffer
  end.

Definition FIRCLSFileHexDecodeString (string : list Z) : option (list Z) :=
  length ← string_length string;
  hex_decode_loop (Z.to_nat (length / 2)) string 0 (replicate (Z.to_nat length) 0).
