(* ===== verification/FileSpec.v ===== *)
(** The contract of Crashlytics' report file: whatever the kernel does, writing
    stays within the buffer, and with a kernel that makes progress the bytes
    written before and the bytes in the buffer are what was asked for. *)
From S2P Require Import Prelude File.

(** ** The kernel's promises

    [contents k fd] is what the file open at [fd] holds. [write] appends a part
    of the bytes to it and returns how many; a negative result is an error. *)
Class KernelSpec {KN : Kernel} := {
  contents : kernel -> Z -> list Z;
  write_appends fd bs k n k' :
    sys_write fd bs k = (n, k') ->
    n <= Z.of_nat (length bs) /\ contents k' fd = contents k fd ++ take (Z.to_nat n) bs;
  malloc_block n k block k' :
    0 <= n -> sys_malloc n k = (Some block, k') -> Z.of_nat (length block) = n;
  malloc_keeps n k block k' fd : sys_malloc n k = (block, k') -> contents k' fd = contents k fd;
  size_contents fd k : sys_size fd k = Z.of_nat (length (contents k fd));
  close_keeps fd k status k' fd' : sys_close fd k = (status, k') -> contents k' fd' = contents k fd';
  uninit_length n : length (uninit n) = n
}.

(** A kernel whose writes transfer [chunk] bytes or all. *)
Definition progress {KN : Kernel} (chunk : Z) : Prop :=
  forall fd bs k n k', sys_write fd bs k = (n, k') -> Z.min (Z.of_nat (length bs)) chunk <= n.

(** What writing to files does to the kernel. *)
Definition file_io {KN : Kernel} : relation kernel := rtc (fun k k' => exists fd bs n, sys_write fd bs k = (n, k')).

Lemma file_io_refl {KN : Kernel} k : file_io k k.
Proof. apply rtc_refl. Qed.

#[export] Hint Resolve file_io_refl : core.

(** ** Postconditions *)

Section Postconditions.
Context {KN : Kernel}.

(** [m] returns, and its result and state satisfy [Q]. *)
Definition fwp {A} (m : F A) (s : file_state) (Q : A -> file_state -> Prop) : Prop :=
  match m s with Returns a s' => Q a s' | _ => False end.

Lemma fwp_ret {A} (a : A) s (Q : A -> file_state -> Prop) : Q a s -> fwp (mret a) s Q.
Proof. done. Qed.

Lemma fwp_bind {A B} (m : F A) (k : A -> F B) s Q :
  fwp m s (fun a s' => fwp (k a) s' Q) -> fwp (m ≫= k) s Q.
Proof. unfold fwp, mbind, F_bind. by destruct (m s). Qed.

Lemma fwp_mono {A} (m : F A) s (Q R : A -> file_state -> Prop) :
  fwp m s Q -> (forall a s', Q a s' -> R a s') -> fwp m s R.
Proof. unfold fwp. destruct (m s); eauto. Qed.

Lemma fwp_get s f (Q : FIRCLSFile -> file_state -> Prop) :
  the_file s = Some f -> Q f s -> fwp get_file s Q.
Proof. unfold fwp, get_file. by intros ->. Qed.

Lemma fwp_given s f (Q : bool -> file_state -> Prop) :
  the_file s = Some f -> Q true s -> fwp file_given s Q.
Proof. unfold fwp, file_given. by intros ->. Qed.

Lemma fwp_put s f g (Q : unit -> file_state -> Prop) :
  the_file s = Some f -> Q tt (FileState (Some g) (the_kernel s)) -> fwp (put_file g) s Q.
Proof. unfold fwp, put_file. by intros ->. Qed.

Lemma fwp_sys {A} (call : kernel -> A * kernel) s (Q : A -> file_state -> Prop) :
  (forall a k, call (the_kernel s) = (a, k) -> Q a (FileState (the_file s) k)) -> fwp (sys call) s Q.
Proof. unfold fwp, sys. destruct (call _) as [a k] eqn:E. eauto. Qed.

Lemma fwp_some {A} (o : option A) a s (Q : A -> file_state -> Prop) :
  o = Some a -> Q a s -> fwp (or_undefined o) s Q.
Proof. by intros ->. Qed.

End Postconditions.

(** ** Arrays and strings *)

Lemma strncpy_take n src :
  (n <= length src)%nat -> 0 ∉ take n src -> strncpy n src = Some (take n src).
Proof.
  revert src. induction n as [|n IH]; intros [|b src] Hn H0; cbn in *; try done; [lia|].
  apply not_elem_of_cons in H0 as [Hb H0]. rewrite (proj2 (Z.eqb_neq _ _)) by done.
  by rewrite IH by (done || lia).
Qed.

Lemma store_at_some array i bs :
  0 <= i -> i + Z.of_nat (length bs) <= Z.of_nat (length array) ->
  store_at array i bs = Some (take (Z.to_nat i) array ++ bs ++ drop (Z.to_nat i + length bs) array).
Proof.
  intros Hi Hl. unfold store_at. by rewrite (proj2 (Z.leb_le _ _)), (proj2 (Z.leb_le _ _)) by lia.
Qed.

Lemma store_at_length array i bs array' :
  store_at array i bs = Some array' -> length array' = length array.
Proof.
  unfold store_at. destruct (_ && _) eqn:E; [|done]. intros [= <-].
  apply andb_true_iff in E as [Hi%Z.leb_le Hl%Z.leb_le].
  rewrite !length_app, length_take, length_drop. lia.
Qed.

(** What was stored, with what was before it. *)
Lemma store_at_take array i bs array' :
  store_at array i bs = Some array' ->
  take (Z.to_nat i + length bs) array' = take (Z.to_nat i) array ++ bs.
Proof.
  unfold store_at. destruct (_ && _) eqn:E; [|done]. intros [= <-].
  apply andb_true_iff in E as [Hi%Z.leb_le Hl%Z.leb_le].
  rewrite app_assoc, take_app_length'; [done|]. rewrite length_app, length_take. lia.
Qed.

Lemma store_at_keeps array i bs array' n :
  store_at array i bs = Some array' -> (n <= Z.to_nat i)%nat -> take n array' = take n array.
Proof.
  unfold store_at. destruct (_ && _) eqn:E; [|done]. intros [= <-] Hn.
  apply andb_true_iff in E as [Hi%Z.leb_le Hl%Z.leb_le].
  rewrite take_app_le by (rewrite length_take; lia). by rewrite take_take, Nat.min_l.
Qed.

Lemma strlen_find s rest : 0 ∉ s -> list_find (eq 0) (s ++ 0 :: rest) = Some (length s, 0).
Proof.
  intros H. apply list_find_Some. split_and!; [by apply list_lookup_middle|done|].
  intros j y Hj Hlt <-. apply H. rewrite lookup_app_l in Hj by done. by eapply list_elem_of_lookup_2.
Qed.

Lemma c_strlen_run {KN : Kernel} s rest st : 0 ∉ s -> strlen (s ++ 0 :: rest) st = Returns (Z.of_nat (length s)) st.
Proof. intros H. unfold strlen. by rewrite strlen_find. Qed.

(** ** The invariant and the output of a file *)

(** The buffer of a file that has one is its block, never full. *)
Record wf_file (f : FIRCLSFile) : Prop := {
  wf_block : bufferWrites f = true ->
    exists bytes, writeBuffer f = Buffer bytes /\ Z.of_nat (length bytes) = FIRCLSWriteBufferLength;
  wf_used : 0 <= writeBufferLength f < FIRCLSWriteBufferLength;
  wf_written : - 2 ^ 63 <= writtenLength f < 2 ^ 63
}.

(** The bytes that wait in the buffer. *)
Definition buffered (f : FIRCLSFile) : list Z :=
  if bufferWrites f then take (Z.to_nat (writeBufferLength f)) (buffer_bytes (writeBuffer f)) else [].

Section Output.
Context {KN : Kernel} {KS : KernelSpec}.
Context (chunk : Z).

Definition output (k : kernel) (f : FIRCLSFile) : list Z := contents k (fd f) ++ buffered f.

(** The bytes that the file has counted, with those it will count. *)
Definition counted (f : FIRCLSFile) : Z := writtenLength f + Z.of_nat (length (buffered f)).

(** From [f] to [f'], [bs] was put out and counted ([off_t] wraps). *)
Definition delivered (k : kernel) (f : FIRCLSFile) (k' : kernel) (f' : FIRCLSFile) (bs : list Z) : Prop :=
  output k' f' = output k f ++ bs /\ u64 (counted f') = u64 (counted f + Z.of_nat (length bs)).

Lemma delivered_buffer k f f' bs :
  fd f' = fd f -> buffered f' = buffered f ++ bs -> writtenLength f' = writtenLength f -> delivered k f k f' bs.
Proof.
  intros H1 H2 H3. unfold delivered, output, counted. rewrite H1, H2, H3, app_assoc, length_app.
  split; [done|]. f_equal. lia.
Qed.

Lemma delivered_nil k f f' :
  fd f' = fd f -> buffered f' = buffered f -> writtenLength f' = writtenLength f -> delivered k f k f' [].
Proof. intros H1 H2 H3. apply delivered_buffer; [done|by rewrite app_nil_r|done]. Qed.

Lemma delivered_trans k f k1 f1 k2 f2 bs bs' :
  delivered k f k1 f1 bs -> delivered k1 f1 k2 f2 bs' -> delivered k f k2 f2 (bs ++ bs').
Proof.
  intros [H1 H2] [H3 H4]. split; [by rewrite H3, H1, app_assoc|].
  rewrite H4, <- (wrap_add_l 64 (counted f1)), H2, wrap_add_l, length_app by lia. f_equal. lia.
Qed.

(** A piece of [n] bytes is written within the attempts that are allowed. *)
Definition fits (f : FIRCLSFile) (n : Z) : Prop :=
  (if bufferWrites f then FIRCLSWriteBufferLength - 1 else n) <= Z.of_nat CLS_FILE_MAX_WRITE_ATTEMPTS * chunk.

(** [emits n m c d bs c' d']: with pieces of at most [n] bytes, [m] writes [bs],
    from a file with [needComma = c] and [collectionDepth = d] to one with [c']
    and [d']. With any kernel it ends and keeps the invariant. *)
Definition emits {A} (n : Z) (m : F A) (c : bool) (d : Z) (bs : list Z) (c' : bool) (d' : Z) : Prop :=
  forall k f, wf_file f -> needComma f = c -> collectionDepth f = d ->
    fwp m (FileState (Some f) k) (fun _ s' => exists f',
      the_file s' = Some f' /\ wf_file f' /\ needComma f' = c' /\ collectionDepth f' = d' /\
      fd f' = fd f /\ bufferWrites f' = bufferWrites f /\ file_io k (the_kernel s') /\
      (0 < chunk -> progress chunk -> fits f n -> delivered k f (the_kernel s') f' bs)).

Lemma emits_bind {A B} n (m : F A) (k : A -> F B) c d bs c1 d1 bs' c' d' :
  emits n m c d bs c1 d1 -> (forall a, emits n (k a) c1 d1 bs' c' d') ->
  emits n (m ≫= k) c d (bs ++ bs') c' d'.
Proof.
  intros Hm Hk kn f Hwf Hc Hd. apply fwp_bind. eapply fwp_mono; [by apply Hm|].
  intros a [tf k1] (f1 & E & Hwf1 & Hc1 & Hd1 & Hfd & Hbw & Hio & Ho). cbn [the_file the_kernel] in *. subst tf.
  eapply fwp_mono; [by apply Hk|]. intros b s2 (f2 & E2 & Hwf2 & Hc2 & Hd2 & Hfd2 & Hbw2 & Hio2 & Ho2).
  exists f2. split_and!; try done; try congruence; [by etransitivity|]. intros Hch Hp Hf.
  eapply delivered_trans; [by apply Ho|]. apply Ho2; [done..|]. unfold fits in *. by rewrite Hbw.
Qed.

Lemma emits_cong {A} n (m : F A) c d bs bs' c' d' : emits n m c d bs c' d' -> bs = bs' -> emits n m c d bs' c' d'.
Proof. by intros H <-. Qed.

Lemma emits_ret {A} n (a : A) c d : emits n (mret a) c d [] c d.
Proof. intros k f Hwf Hc Hd. apply fwp_ret. exists f. split_and!; try done. intros. by apply delivered_nil. Qed.

Lemma emits_mono {A} n n' (m : F A) c d bs c' d' :
  n <= n' -> emits n m c d bs c' d' -> emits n' m c d bs c' d'.
Proof.
  intros Hn Hm k f Hwf Hc Hd. eapply fwp_mono; [by apply Hm|].
  intros a s' (f' & E & Hwf' & Hc' & Hd' & Hfd & Hbw & Hio & Ho). exists f'. split_and!; try done.
  intros Hch Hp Hf. apply Ho; [done..|]. unfold fits in *. destruct (bufferWrites f); lia.
Qed.

(** A computation that does not look at the kernel. *)
Lemma emits_get {A} n (k : FIRCLSFile -> F A) c d bs c' d' :
  (forall f, wf_file f -> needComma f = c -> collectionDepth f = d -> emits n (k f) c d bs c' d') ->
  emits n (f ← get_file; k f) c d bs c' d'.
Proof.
  intros H kn f Hwf Hc Hd. apply fwp_bind. eapply fwp_get; [done|]. by apply (H f).
Qed.

Lemma emits_some {A B} n (o : option A) a (k : A -> F B) c d bs c' d' :
  o = Some a -> emits n (k a) c d bs c' d' -> emits n (a ← or_undefined o; k a) c d bs c' d'.
Proof. intros -> H kn f Hwf Hc Hd. apply fwp_bind, fwp_ret. by apply H. Qed.

(** ** Writing to the descriptor *)

Lemma write_block_loop_run attempts fd buffer n s :
  0 <= n <= Z.of_nat (length buffer) -> n < 2 ^ 63 ->
  fwp (write_block_loop attempts buffer n (write_call fd)) s (fun ok s' => exists m,
    the_file s' = the_file s /\ file_io (the_kernel s) (the_kernel s') /\ (m <= Z.to_nat n)%nat /\
    contents (the_kernel s') fd = contents (the_kernel s) fd ++ take m buffer /\
    (ok = true -> m = Z.to_nat n) /\ (ok = false -> 0 < n -> (m < Z.to_nat n)%nat) /\
    (0 < chunk -> progress chunk -> 0 < n <= Z.of_nat attempts * chunk -> ok = true)).
Proof.
  revert buffer n s. induction attempts as [|attempts IH]; intros buffer n s Hn Hlim; cbn [write_block_loop].
  { exists 0%nat. split_and!; try done; [lia|by rewrite take_0, app_nil_r|lia|lia]. }
  destruct (Z.ltb_spec 0 n) as [Hpos|Hz]; cbn [negb].
  2: { exists 0%nat. split_and!; try done; [lia|by rewrite take_0, app_nil_r|lia|lia]. }
  apply fwp_bind. unfold write_call at 1. rewrite (proj2 (Z.ltb_ge _ _)) by lia. apply fwp_sys.
  intros ret k E. cbn [the_file the_kernel] in *.
  assert (Hio : file_io (the_kernel s) k) by (apply rtc_once; eauto). destruct (write_appends _ _ _ _ _ E) as [Hret Hc].
  rewrite length_take, Nat.min_l, Z2Nat.id in Hret by lia.
  rewrite take_take in Hc. rewrite (proj2 (Z.ltb_ge (2 ^ 64 - 1) _)) by lia. cbv zeta.
  assert (Es : s64 n = n) by (apply to_signed_small; lia). rewrite Es.
  assert (Hprog : progress chunk -> Z.min n chunk <= ret).
  { intros Hp. specialize (Hp _ _ _ _ _ E). rewrite length_take, Nat.min_l, Z2Nat.id in Hp by lia. lia. }
  rewrite (proj2 (Z.ltb_ge n ret)) by lia.
  destruct (Z.leb_spec 0 ret) as [Hr0|Hneg]; cbn [andb].
  2: { rewrite (proj2 (Z.ltb_lt ret 0)) by lia. exists (Z.to_nat ret). split_and!; try done; [lia| |lia|].
       - cbn [the_kernel]. by rewrite Hc, Nat.min_l by lia.
       - intros. specialize (Hprog ltac:(done)). lia. }
  destruct (Z.eqb_spec ret n) as [->|Hne].
  { exists (Z.to_nat n). by rewrite Nat.min_id in Hc. }
  rewrite (proj2 (Z.ltb_ge ret 0)) by lia. destruct (Z.ltb_spec 0 ret) as [Hr|Hr].
  2: { exists (Z.to_nat ret). split_and!; try done; [lia|cbn [the_kernel]; by rewrite Hc, Nat.min_l by lia|lia|].
       intros. specialize (Hprog ltac:(done)). lia. }
  rewrite wrap_small by lia. eapply fwp_mono; [apply IH; rewrite ?length_drop; lia|].
  intros ok s' (m & Ef & Hio' & Hm & Hc' & Hok & Hno & Hp). cbn [the_file the_kernel] in *.
  exists (Z.to_nat ret + m)%nat. split_and!; [done|by etransitivity|lia| | | |].
  - by rewrite Hc', Hc, Nat.min_l, <- app_assoc, take_take_drop by lia.
  - intros H. specialize (Hok H). lia.
  - intros H _. specialize (Hno H ltac:(lia)). lia.
  - intros H1 H2 H3. apply Hp; [done..|]. specialize (Hprog H2). nia.
Qed.

Lemma write_with_retries_run fd buffer n s :
  0 <= n <= Z.of_nat (length buffer) -> n < 2 ^ 63 ->
  fwp (FIRCLSFileWriteWithRetries fd buffer n) s (fun ok s' => exists m,
    the_file s' = the_file s /\ file_io (the_kernel s) (the_kernel s') /\ (m <= Z.to_nat n)%nat /\
    contents (the_kernel s') fd = contents (the_kernel s) fd ++ take m buffer /\
    (ok = true -> m = Z.to_nat n) /\ (ok = false -> 0 < n -> (m < Z.to_nat n)%nat) /\
    (0 < chunk -> progress chunk -> 0 < n <= Z.of_nat CLS_FILE_MAX_WRITE_ATTEMPTS * chunk -> ok = true)).
Proof. apply write_block_loop_run. Qed.

(** The file changes only in the length that it counts. *)
Lemma to_descriptor_run string n k f :
  wf_file f -> 0 <= n <= Z.of_nat (length string) -> n < 2 ^ 63 ->
  fwp (FIRCLSFileWriteToFileDescriptor string n) (FileState (Some f) k) (fun _ s' => exists w,
    the_file s' = Some (with_written f w) /\ file_io k (the_kernel s') /\ (- 2 ^ 63 <= w < 2 ^ 63) /\
    (0 < chunk -> progress chunk -> n <= Z.of_nat CLS_FILE_MAX_WRITE_ATTEMPTS * chunk ->
       contents (the_kernel s') (fd f) = contents k (fd f) ++ take (Z.to_nat n) string /\
       u64 w = u64 (writtenLength f + n))).
Proof.
  intros Hwf Hn Hlim. pose proof (wf_written _ Hwf). unfold FIRCLSFileWriteToFileDescriptor. apply fwp_bind. eapply fwp_get; [done|].
  apply fwp_bind. eapply fwp_mono; [by apply write_with_retries_run|].
  intros ok [tf k'] (m & E & Hio & Hm & Hc & Hok & _ & Hp). cbn [the_file the_kernel] in *. subst tf.
  assert (Hall : 0 < chunk -> progress chunk -> n <= Z.of_nat CLS_FILE_MAX_WRITE_ATTEMPTS * chunk -> m = Z.to_nat n).
  { intros H1 H2 H3. destruct (Z.eq_dec n 0) as [->|]; [lia|]. apply Hok, Hp; [done..|lia]. }
  destruct ok; cbn [negb].
  - apply fwp_bind. eapply fwp_get; [done|]. eapply fwp_put; [done|]. eexists. split; [done|]. split; [done|].
    split; [by apply (to_signed_bounds 64)|]. intros. cbn [the_kernel]. rewrite Hc, Hall by done.
    split; [done|]. by rewrite wrap_to_signed.
  - apply fwp_ret. exists (writtenLength f). split; [by destruct f|]. split; [done|]. split; [done|]. intros. cbn [the_kernel].
    destruct (Z.eq_dec n 0) as [->|Hne]; [|specialize (Hp ltac:(done) ltac:(done) ltac:(lia)); done].
    rewrite Hc, Hall by done. split; [done|]. by rewrite Z.add_0_r.
Qed.

Lemma wf_with_written f w : wf_file f -> - 2 ^ 63 <= w < 2 ^ 63 -> wf_file (with_written f w).
Proof. by intros [H1 H2 H3]. Qed.

(** ** The buffer *)

Lemma flush_run k f :
  wf_file f ->
  fwp FIRCLSFileFlushWriteBuffer (FileState (Some f) k) (fun _ s' => exists f',
    the_file s' = Some f' /\ wf_file f' /\ needComma f' = needComma f /\
    collectionDepth f' = collectionDepth f /\ fd f' = fd f /\ bufferWrites f' = bufferWrites f /\
    file_io k (the_kernel s') /\
    (bufferWrites f = true -> writeBuffer f' = writeBuffer f /\ writeBufferLength f' = 0) /\
    (0 < chunk -> progress chunk -> fits f 0 -> delivered k f (the_kernel s') f' [])).
Proof.
  intros Hwf. destruct (wf_used _ Hwf) as [Hu1 Hu2]. unfold FIRCLSFileFlushWriteBuffer.
  apply fwp_bind. eapply fwp_given; [done|]. cbn [negb]. apply fwp_bind. eapply fwp_get; [done|].
  destruct (bufferWrites f) eqn:Eb; cbn [negb].
  2: { apply fwp_ret. exists f. split_and!; try done. intros. by apply delivered_nil. }
  destruct (wf_block _ Hwf Eb) as (bytes & Ew & Hl). apply fwp_bind.
  unfold FIRCLSWriteBufferLength in *.
  eapply fwp_mono; [apply to_descriptor_run; rewrite ?Ew; cbn [buffer_bytes]; (done || lia)|].
  intros [] [tf k'] (w & E & Hio & Hw & Ho). cbn [the_file the_kernel] in *. subst tf.
  apply fwp_bind. eapply fwp_get; [done|]. eapply fwp_put; [done|].
  eexists. split; [done|]. split; [split; cbn; [apply Hwf|done|done]|]. split_and!; try done.
  intros H1 H2 Hf. unfold fits in Hf. rewrite Eb in Hf. destruct (Ho H1 H2 ltac:(unfold FIRCLSWriteBufferLength in Hf; lia)) as [Hc Hu].
  unfold delivered, output, counted, buffered. cbn. rewrite Eb, take_0, !app_nil_r, !Z.add_0_r. split; [exact Hc|].
  rewrite Hu, Ew. cbn [buffer_bytes]. rewrite length_take. do 2 f_equal. lia.
Qed.

Lemma to_buffer_run string n k f :
  wf_file f -> bufferWrites f = true ->
  0 <= n -> writeBufferLength f + n < FIRCLSWriteBufferLength -> n <= Z.of_nat (length string) ->
  0 ∉ take (Z.to_nat n) string ->
  fwp (FIRCLSFileWriteToBuffer string n) (FileState (Some f) k) (fun _ s' => exists bytes,
    let f' := with_buffer_length (with_buffer f (Buffer bytes)) (writeBufferLength f + n) in
    s' = FileState (Some f') k /\ wf_file f' /\ buffered f' = buffered f ++ take (Z.to_nat n) string).
Proof.
  intros Hwf Eb Hn Hroom Hl H0. destruct (wf_block _ Hwf Eb) as (bytes & Ew & Hbl).
  destruct (wf_used _ Hwf) as [Hu1 Hu2]. unfold FIRCLSWriteBufferLength in *.
  unfold FIRCLSFileWriteToBuffer, FIRCLSWriteBufferLength. apply fwp_bind. eapply fwp_get; [done|]. cbv zeta.
  rewrite (wrap_small 64 (writeBufferLength f + n)), (proj2 (Z.ltb_ge _ _)) by lia.
  rewrite (wrap_small 64 (writeBufferLength f + n)) by lia. apply fwp_bind. eapply fwp_some; [apply strncpy_take; [lia|done]|]. apply fwp_bind.
  rewrite Ew. cbn [buffer_bytes].
  assert (Hlt : length (take (Z.to_nat n) string) = Z.to_nat n) by (rewrite length_take; lia).
  destruct (store_at bytes (writeBufferLength f) (take (Z.to_nat n) string)) as [b1|] eqn:E1.
  2: { by rewrite store_at_some in E1 by lia. }
  eapply fwp_some; [reflexivity|]. apply fwp_bind. pose proof (store_at_length _ _ _ _ E1) as Hl1.
  destruct (store_at b1 (writeBufferLength f + n) [0]) as [b2|] eqn:E2.
  2: { rewrite store_at_some in E2 by (cbn; lia). done. }
  eapply fwp_some; [reflexivity|]. pose proof (store_at_length _ _ _ _ E2) as Hl2.
  eapply fwp_put; [done|]. exists b2. cbv zeta. split; [done|]. split.
  - split; cbn; [|unfold FIRCLSWriteBufferLength; lia|apply Hwf]. intros _. exists b2. split; [done|].
    unfold FIRCLSWriteBufferLength. lia.
  - unfold buffered. cbn. rewrite Eb, Ew. cbn [buffer_bytes].
    rewrite (store_at_keeps _ _ _ _ _ E2) by lia. rewrite <- (store_at_take _ _ _ _ E1), Hlt.
    f_equal. lia.
Qed.

(** ** Any string *)

Lemma write_or_buffer_emits fuel string n c d :
  0 <= n <= Z.of_nat (length string) -> n < 2 ^ 62 -> 0 ∉ take (Z.to_nat n) string ->
  forall k f, (Z.to_nat n < fuel)%nat ->
    (writeBufferLength f = 0 \/ (S (Z.to_nat n) < fuel)%nat) ->
    wf_file f -> needComma f = c -> collectionDepth f = d ->
    fwp (write_or_buffer fuel string n) (FileState (Some f) k) (fun _ s' => exists f',
      the_file s' = Some f' /\ wf_file f' /\ needComma f' = c /\ collectionDepth f' = d /\
      fd f' = fd f /\ bufferWrites f' = bufferWrites f /\ file_io k (the_kernel s') /\
      (0 < chunk -> progress chunk -> fits f n ->
         delivered k f (the_kernel s') f' (take (Z.to_nat n) string))).
Proof.
  revert string n. induction fuel as [|fuel IH]; intros string n Hn Hlim H0 k f Hfuel Hfuel' Hwf Hc Hd; [lia|].
  cbn [write_or_buffer]. destruct (wf_used _ Hwf) as [Hu1 Hu2].
  apply fwp_bind. eapply fwp_get; [done|]. destruct (bufferWrites f) eqn:Eb.
  2: { eapply fwp_mono; [apply to_descriptor_run; (done || lia)|]. intros [] [tf k'] (w & E & Hio & Hw & Ho).
       cbn [the_file the_kernel] in *. subst tf. eexists. split; [done|].
       split; [by apply wf_with_written|]. split_and!; try done.
       intros H1 H2 Hf. unfold fits in Hf. rewrite Eb in Hf. destruct (Ho H1 H2 Hf) as [Hc' Hu].
       unfold delivered, output, counted, buffered. cbn. rewrite Eb, !app_nil_r, Z.add_0_r, Hu.
       split; [exact Hc'|]. rewrite length_take. cbn. f_equal. lia. }
  unfold FIRCLSWriteBufferLength in *. rewrite (wrap_small 64 (writeBufferLength f + n)) by lia.
  destruct (Z.ltb_spec (1000 - 1) (writeBufferLength f + n)) as [Hover|Hin].
  2: { eapply fwp_mono; [apply to_buffer_run; unfold FIRCLSWriteBufferLength; (done || lia)|].
       intros [] s' (bytes & -> & Hwf' & Ebuf). cbn [the_kernel]. eexists. split; [done|]. split; [done|].
       split_and!; try done. intros _ _ _. by apply delivered_buffer. }
  cbv zeta. set (room := u64 (1000 - writeBufferLength f - 1)).
  assert (Er : room = 999 - writeBufferLength f) by (unfold room; rewrite wrap_small; lia).
  rewrite (wrap_small 64 (n - room)) by lia. clearbody room.
  assert (Hsplit : take (Z.to_nat n) string =
    take (Z.to_nat room) string ++ take (Z.to_nat (n - room)) (drop (Z.to_nat room) string)).
  { rewrite take_take_drop. f_equal. lia. }
  rewrite Hsplit in H0 |- *. apply not_elem_of_app in H0 as [H01 H02].
  apply fwp_bind. eapply fwp_mono; [apply to_buffer_run; unfold FIRCLSWriteBufferLength; (done || lia)|].
  intros [] s' (bytes & -> & Hwf' & Ebuf). cbv zeta in *. set (f1 := with_buffer_length _ _) in *.
  apply fwp_bind. eapply fwp_mono; [by apply flush_run|].
  intros [] [tf k2] (f2 & E & Hwf2 & Hc2 & Hd2 & Hfd2 & Hb2 & Hio2 & Hw2 & Ho2). cbn [the_file the_kernel] in *. subst tf.
  destruct (Hw2 Eb) as [_ Hz2]. eapply fwp_mono.
  { apply IH; [rewrite length_drop; lia|lia|done|lia|by left|done|by rewrite Hc2|by rewrite Hd2]. }
  intros [] s3 (f3 & E3 & Hwf3 & Hc3 & Hd3 & Hfd3 & Hb3 & Hio3 & Ho3). exists f3. split_and!; try done.
  - by rewrite Hfd3, Hfd2.
  - rewrite Hb3, Hb2. exact Eb.
  - by etransitivity.
  - intros H1 H2 Hf. unfold fits in *. rewrite Hb2 in Ho3. change (bufferWrites f1) with (bufferWrites f) in *.
    rewrite Eb in *. eapply delivered_trans; [|by apply Ho3].
    rewrite <- (app_nil_r (take _ string)). eapply delivered_trans; [|by apply Ho2]. by apply delivered_buffer.
Qed.

Lemma write_emits string n c d :
  0 <= n <= Z.of_nat (length string) -> n < 2 ^ 62 -> 0 ∉ take (Z.to_nat n) string ->
  emits n (FIRCLSFileWriteToFileDescriptorOrBuffer string n) c d (take (Z.to_nat n) string) c d.
Proof.
  intros Hn Hlim H0 k f Hwf Hc Hd. apply write_or_buffer_emits; try done; [lia|]. right. lia.
Qed.

End Output.
