(* ===== verification/FileFormatSpec.v ===== *)
(** What the writers of numbers, strings and hexadecimal bytes put into a report
    file, and the conversion of strings to and from hexadecimal. *)
From stdpp Require Import pretty.
From S2P Require Import Prelude File FileFormat FileSpec.

(** ** Numerals *)

(** The digits of a number in a base, the most significant first, and without
    needless zeros. *)
Definition digit_value (c : Z) : Z := if c <=? 57 then c - 48 else c - 97 + 10.

Definition value (base : Z) (text : list Z) : Z := foldl (fun v c => v * base + digit_value c) 0 text.

Definition is_digit (base c : Z) : Prop :=
  (48 <= c <= 57 \/ 97 <= c <= 102) /\ 0 <= digit_value c < base.

Record numeral (base : Z) (number : Z) (text : list Z) : Prop := {
  numeral_value : value base text = number;
  numeral_digits : Forall (is_digit base) text;
  numeral_first : head text <> Some 48 \/ text = [48];
  numeral_some : text <> []
}.

Lemma value_app base text c : value base (text ++ [c]) = value base text * base + digit_value c.
Proof. unfold value. by rewrite foldl_app. Qed.

Lemma digit_char_digit base n :
  2 <= base <= 16 -> 0 <= n -> is_digit base (digit_char n base) /\ digit_value (digit_char n base) = n mod base.
Proof.
  intros Hb Hn. pose proof (Z.mod_pos_bound n base ltac:(lia)) as Hm. unfold digit_char, digit_value, is_digit.
  rewrite (to_signed_small 8 (n mod base + 48)) by lia.
  destruct (Z.ltb_spec 57 (n mod base + 48)).
  - rewrite to_signed_small by lia. unfold digit_value. rewrite (proj2 (Z.leb_gt _ _)) by lia. lia.
  - unfold digit_value. rewrite (proj2 (Z.leb_le _ _)) by lia. lia.
Qed.

Lemma numeral_single base n : 2 <= base <= 16 -> 0 <= n < base -> numeral base n [digit_char n base].
Proof.
  intros Hb Hn. destruct (digit_char_digit base n Hb ltac:(lia)) as [Hd Hv]. rewrite Z.mod_small in Hv by lia.
  split; [by unfold value; cbn; lia|by apply Forall_singleton| |done].
  destruct (Z.eq_dec n 0) as [->|]; [right; unfold digit_char; by rewrite Z.mod_0_l by lia|left].
  cbn. intros [= E]. rewrite E in Hv. unfold digit_value in Hv. cbn in Hv. lia.
Qed.

Lemma numeral_step base n text :
  2 <= base <= 16 -> 0 < n / base -> numeral base (n / base) text -> numeral base n (text ++ [digit_char n base]).
Proof.
  intros Hb Hn [Hv Hd Hf Hs].
  assert (0 <= n) by (pose proof (Z.mul_div_le n base ltac:(lia)); nia).
  destruct (digit_char_digit base n Hb ltac:(lia)) as [Hd' Hv'].
  split; [| |left|by destruct text].
  - rewrite value_app, Hv, Hv'. pose proof (Z.div_mod n base ltac:(lia)). lia.
  - apply Forall_app. split; [done|by apply Forall_singleton].
  - destruct text as [|c text]; [done|]. cbn. destruct Hf as [Hf|[= -> ->]]; [done|]. cbn in Hv. lia.
Qed.

(** The decimal text of a number, as stdpp prints it. *)
Definition decimal (n : Z) : list Z := chars (pretty (Z.to_N n)).

Lemma chars_cons c s : chars (String.String c s) = Z.of_N (Ascii.N_of_ascii c) :: chars s.
Proof. done. Qed.

Lemma decimal_char n : 0 <= n ->
  Z.of_N (Ascii.N_of_ascii (pretty_N_char (Z.to_N n `mod` 10))) = digit_char n 10.
Proof.
  intros Hn. unfold digit_char. pose proof (Z.mod_pos_bound n 10 ltac:(lia)) as Hm.
  assert (E : (Z.to_N n `mod` 10)%N = Z.to_N (n mod 10)) by (rewrite Z2N.inj_mod by lia; done).
  rewrite E. clear E. generalize dependent (n mod 10). intros m Hm.
  assert (Hc : m ∈ seqZ 0 10) by (apply elem_of_seqZ; lia). cbn in Hc.
  repeat (apply elem_of_cons in Hc as [->|Hc]; [by vm_compute|]). by apply elem_of_nil in Hc.
Qed.

Lemma pretty_go_step n s :
  0 < n -> chars (pretty_N_go (Z.to_N n) s) =
    chars (pretty_N_go (Z.to_N (n / 10)) (String.String (pretty_N_char (Z.to_N n `mod` 10)) s)).
Proof. intros Hn. rewrite pretty_N_go_step by lia. by rewrite Z2N.inj_div by lia. Qed.

(** ** The loop *)

Lemma prepare_loop_run i buffer number base :
  2 <= base <= 16 -> 0 <= number < base ^ Z.of_nat i -> (0 < i <= length buffer)%nat ->
  exists text, numeral base number text /\ (length text <= i)%nat /\
    prepare_loop i buffer number base =
      Some (take (i - length text) buffer ++ text ++ drop i buffer, Z.of_nat (i - length text)) /\
    (base = 10 -> 0 < number -> forall s, chars (pretty_N_go (Z.to_N number) s) = text ++ chars s) /\
    (number = 0 -> text = [48]).
Proof.
  intros Hb. revert buffer number. induction i as [|i IH]; intros buffer number Hn Hi; [lia|].
  cbn [prepare_loop]. rewrite store_at_some by (cbn; lia). cbn [mbind option_bind].
  rewrite Nat2Z.id. cbn [length]. set (buffer' := take i buffer ++ _).
  assert (Hl : length buffer' = length buffer)
    by (unfold buffer'; rewrite !length_app, length_take, length_drop; cbn; lia).
  rewrite Nat2Z.inj_succ, Z.pow_succ_r in Hn by lia.
  assert (Hq : 0 <= number / base < base ^ Z.of_nat i)
    by (split; [apply Z.div_pos; lia|apply Z.div_lt_upper_bound; lia]).
  destruct (Z.ltb_spec 0 (number / base)) as [Hpos|Hz]; cbn [andb].
  - destruct i as [|i]; [cbn in Hq; lia|]. rewrite (proj2 (Z.ltb_lt _ _)) by lia.
    destruct (IH buffer' (number / base) ltac:(done) ltac:(lia)) as (text & Ht & Htl & E & Hp & _).
    exists (text ++ [digit_char number base]). rewrite length_app. cbn [length].
    split; [by apply numeral_step|]. split; [lia|]. split_and!.
    + rewrite E. f_equal. f_equal; [|lia].
      replace (S (S i) - (length text + 1))%nat with (S i - length text)%nat by lia.
      unfold buffer'. rewrite take_app_le by (rewrite length_take; lia). rewrite take_take, Nat.min_l by lia.
      rewrite drop_app_ge by (rewrite length_take; lia). rewrite length_take, Nat.min_l, Nat.sub_diag by lia.
      rewrite <- app_assoc. cbn. by rewrite Nat.add_1_r.
    + intros -> H0 s. rewrite pretty_go_step, Hp by (done || lia).
      rewrite chars_cons, decimal_char by lia. by rewrite <- app_assoc.
    + intros ->. by rewrite Z.div_0_l in Hpos by lia.
  - assert (Hsm : number < base)
      by (destruct (Z_lt_dec number base); [done|]; pose proof (Z.div_str_pos number base); lia).
    exists [digit_char number base]. cbn [length]. split; [apply numeral_single; lia|]. split; [lia|]. split_and!.
    + f_equal. f_equal; [|lia]. unfold buffer'. by rewrite Nat.sub_succ, Nat.sub_0_r, Nat.add_1_r.
    + intros -> H0 s. rewrite pretty_go_step by lia. rewrite (Z.div_small number 10) by lia.
      change (Z.to_N 0) with 0%N. by rewrite pretty_N_go_0, chars_cons, decimal_char by lia.
    + intros ->. unfold digit_char. by rewrite Z.mod_0_l by lia.
Qed.

(** The digits stand at the end of the array, before the terminator. *)
Lemma prepare_run number hex :
  0 <= number < 2 ^ 64 ->
  exists buffer i text,
    FIRCLSFilePrepareUInt64 number hex = Some (buffer, Z.of_nat i) /\ drop i buffer = text ++ [0] /\
    length buffer = FIRCLSUInt64StringBufferLength /\ (length text <= 20)%nat /\
    numeral (if hex then 16 else 10) number text /\ (hex = false -> text = decimal number).
Proof.
  intros Hn. unfold FIRCLSFilePrepareUInt64. cbv zeta. set (base := if hex then 16 else 10).
  assert (Hb : 2 <= base <= 16) by (unfold base; destruct hex; lia).
  assert (Hlim : 2 ^ 64 <= base ^ Z.of_nat (FIRCLSUInt64StringBufferLength - 1))
    by (unfold base; destruct hex; by vm_compute).
  destruct (prepare_loop_run (FIRCLSUInt64StringBufferLength - 1) (replicate FIRCLSUInt64StringBufferLength 0)
    number base Hb ltac:(lia) ltac:(cbn; lia)) as (text & Ht & Hl & E & Hp & H0).
  unfold FIRCLSUInt64StringBufferLength in *. cbn in Hl. eexists _, _, text. split; [exact E|].
  assert (Htl : length (take (21 - 1 - length text) (replicate 21 0)) = (21 - 1 - length text)%nat)
    by (rewrite length_take, length_replicate; lia).
  split; [by rewrite drop_app_length' by done|]. split; [rewrite !length_app, Htl; cbn; lia|].
  split; [done|]. split; [done|]. intros ->. unfold decimal. destruct (Z.eq_dec number 0) as [->|Hne].
  - by rewrite H0.
  - unfold pretty, pretty_N. rewrite decide_False by lia. rewrite Hp by (done || lia). by rewrite app_nil_r.
Qed.

Lemma numeral_no_zero base number text : numeral base number text -> 0 ∉ text.
Proof.
  intros [_ Hd _ _] Hin. rewrite Forall_forall in Hd. specialize (Hd 0 Hin). unfold is_digit in Hd. lia.
Qed.

(** ** Hexadecimal bytes *)

Definition hex_digit (v : Z) : Z := if v <? 10 then 48 + v else 87 + v.

Definition hex_text (bs : list Z) : list Z := bs ≫= fun b => [hex_digit (b / 16); hex_digit (b mod 16)].

Lemma byte_in b : is_byte b -> b ∈ seqZ 0 256.
Proof. intros Hb. apply elem_of_seqZ. unfold is_byte in Hb. lia. Qed.

(** A decidable fact about bytes, by trying them all. *)
Lemma all_bytes (P : Z -> bool) : forallb P (seqZ 0 256) = true -> forall b, is_byte b -> P b = true.
Proof. intros H b Hb. rewrite forallb_forall in H. apply H, list_elem_of_In. by apply byte_in. Qed.

Lemma hex_from_byte b : is_byte b -> FIRCLSHexFromByte b = [hex_digit (b / 16); hex_digit (b mod 16)].
Proof.
  intros Hb.
  pose proof (all_bytes (fun b => bool_decide (FIRCLSHexFromByte b = [hex_digit (b / 16); hex_digit (b mod 16)]))
    eq_refl b Hb) as H. by apply bool_decide_eq_true in H.
Qed.

Lemma hex_no_zero bs : Forall is_byte bs -> 0 ∉ hex_text bs.
Proof.
  intros Hb Hin. unfold hex_text in Hin. apply list_elem_of_bind in Hin as (b & Hin & Hbs).
  rewrite Forall_forall in Hb. specialize (Hb b Hbs). 
  pose proof (all_bytes (fun b => bool_decide (0 ∉ [hex_digit (b / 16); hex_digit (b mod 16)])) eq_refl b Hb) as H.
  by apply bool_decide_eq_true in H.
Qed.

Lemma length_hex bs : length (hex_text bs) = (2 * length bs)%nat.
Proof. unfold hex_text. induction bs as [|b bs IH]; [done|]. cbn in *. rewrite IH. lia. Qed.

(** ** Emissions *)

Section Emits.
Context {KN : Kernel} {KS : KernelSpec}.
Context (chunk n : Z) (Hn : 32 <= n < 2 ^ 62).

Notation emits m c d bs c' d' := (emits chunk n m c d bs c' d').

Lemma emits_ext {A} (m m' : F A) c d bs c' d' :
  (forall s, m s = m' s) -> emits m' c d bs c' d' -> emits m c d bs c' d'.
Proof. intros E H k f Hwf Hc Hd. unfold fwp. rewrite E. by apply H. Qed.

Lemma emits_ret_bind {A B} (a : A) (k : A -> F B) c d bs c' d' :
  emits (k a) c d bs c' d' -> emits (mret a ≫= k) c d bs c' d'.
Proof. by apply emits_ext. Qed.

Lemma emits_assoc {A B C} (m : F A) (f : A -> F B) (k : B -> F C) c d bs c' d' :
  emits (m ≫= fun a => f a ≫= k) c d bs c' d' -> emits ((m ≫= f) ≫= k) c d bs c' d'.
Proof. apply emits_ext. intros s. unfold mbind, F_bind. by destruct (m s). Qed.

(** A piece that is no longer than [n]. *)
Definition short (s : list Z) : Prop := (0 ∉ s) /\ Z.of_nat (length s) <= n.

Lemma text_emits text rest len c d :
  short text -> len = Z.of_nat (length text) ->
  emits (FIRCLSFileWriteToFileDescriptorOrBuffer (text ++ rest) len) c d text c d.
Proof.
  intros [H0 Hl] ->. eapply emits_mono; [exact Hl|].
  pose proof (write_emits chunk (text ++ rest) (Z.of_nat (length text)) c d) as H.
  rewrite Nat2Z.id, take_app_length in H. apply H; rewrite ?length_app; (done || lia).
Qed.

Lemma emits_strlen {A} (k : Z -> F A) text rest c d bs c' d' :
  0 ∉ text -> emits (k (Z.of_nat (length text))) c d bs c' d' ->
  emits (l ← strlen (text ++ 0 :: rest); k l) c d bs c' d'.
Proof. intros H0 Hk kn f Hwf Hc Hd. apply fwp_bind. unfold fwp at 1. rewrite c_strlen_run by done. by apply Hk. Qed.

Lemma emits_given {A} (k : bool -> F A) c d bs c' d' :
  emits (k true) c d bs c' d' -> emits (b ← file_given; k b) c d bs c' d'.
Proof. intros Hk kn f Hwf Hc Hd. apply fwp_bind. eapply fwp_given; [done|]. by apply Hk. Qed.

(** *** Numbers *)

Lemma prepared_emits {A} number (hex : bool) (k : list Z * Z -> F A) c d bs c' d' :
  0 <= number < 2 ^ 64 ->
  (forall text : list Z, numeral (if hex then 16 else 10) number text -> (hex = false -> text = decimal number) ->
     short text -> emits (k (text ++ [0], Z.of_nat (length text))) c d bs c' d') ->
  emits (p ← prepared number hex; k p) c d bs c' d'.
Proof.
  intros Hnum Hk. destruct (prepare_run number hex Hnum) as (buffer & i & text & E & Ed & _ & Hl & Ht & Hdec).
  assert (H0 := numeral_no_zero _ _ _ Ht).
  assert (Ep : forall st : file_state, prepared number hex st = Returns (text ++ [0], Z.of_nat (length text)) st).
  { intros st. unfold prepared. rewrite E. unfold mbind, F_bind. cbn [or_undefined mret F_ret].
    rewrite Nat2Z.id, Ed. by rewrite c_strlen_run. }
  intros kn f Hwf Hc Hd. apply fwp_bind. unfold fwp at 1. rewrite Ep.
  apply (Hk text); try done. split; [done|lia].
Qed.

Lemma uint_emits number c d :
  0 <= number < 2 ^ 64 -> emits (FIRCLSFileWriteUInt64 number false) c d (decimal number) c d.
Proof.
  intros Hnum. unfold FIRCLSFileWriteUInt64. apply prepared_emits; [done|].
  intros text _ Hdec Hs. rewrite (Hdec eq_refl) in *. by apply text_emits.
Qed.

Definition signed_decimal (number : Z) : list Z :=
  if number <? 0 then 45 :: decimal (- number) else decimal number.

(** A literal of the source is short. *)
Definition literal_ok (s : string) : bool :=
  forallb (fun b => negb (b =? 0)) (chars s) && (Z.of_nat (length (chars s)) <=? 32).

Lemma short_literal s : literal_ok s = true -> short (chars s).
Proof.
  intros [H Hl%Z.leb_le]%andb_true_iff. split; [|lia]. intros Hin. rewrite forallb_forall in H.
  apply list_elem_of_In in Hin. by specialize (H _ Hin).
Qed.

Lemma literal_emits s len c d :
  literal_ok s = true -> len = Z.of_nat (length (chars s)) ->
  emits (FIRCLSFileWriteToFileDescriptorOrBuffer (literal s) len) c d (chars s) c d.
Proof. intros H ->. apply text_emits; [by apply short_literal|done]. Qed.

Lemma int_emits number c d :
  - 2 ^ 63 < number < 2 ^ 63 -> emits (FIRCLSFileWriteInt64 number) c d (signed_decimal number) c d.
Proof.
  intros Hnum. unfold FIRCLSFileWriteInt64, signed_decimal. destruct (Z.ltb_spec number 0) as [Hneg|Hpos].
  - unfold negate. rewrite (proj2 (Z.eqb_neq _ _)) by lia.
    apply (emits_ext _ (FIRCLSFileWriteToFileDescriptorOrBuffer (literal "-") 1;;
                        FIRCLSFileWriteUInt64 (u64 (- number)) false)).
    { intros s. unfold mbind, F_bind. by destruct (FIRCLSFileWriteToFileDescriptorOrBuffer _ _ s). }
    rewrite wrap_small by lia. eapply (emits_bind _ _ _ _ _ _ (chars "-")); [by apply literal_emits|].
    intros _. apply uint_emits. lia.
  - apply (emits_ext _ (FIRCLSFileWriteUInt64 (u64 number) false)); [done|].
    rewrite wrap_small by lia. apply uint_emits. lia.
Qed.

Definition bool_text (b : bool) : list Z := if b then chars "true" else chars "false".

Lemma bool_emits b c d : emits (FIRCLSFileWriteBool b) c d (bool_text b) c d.
Proof. destruct b; by apply literal_emits. Qed.

(** *** Strings *)

(** A string in quotation marks, and a character behind it when it is not 0. *)
Definition quoted (s : list Z) : list Z := [34] ++ s ++ [34].
Definition suffixed (suffix : Z) : list Z := if suffix =? 0 then [] else [suffix].

Lemma unbuffered_string_emits s rest suffix c d :
  short s ->
  emits (FIRCLSFileWriteUnbufferedStringWithSuffix (s ++ rest) (Z.of_nat (length s)) suffix) c d
    (quoted s ++ suffixed suffix) c d.
Proof.
  intros Hs. unfold FIRCLSFileWriteUnbufferedStringWithSuffix. cbv zeta.
  unfold quoted. rewrite <- app_assoc. eapply emits_bind.
  { apply (text_emits [34] [0]); [|done]. split; [by apply (bool_decide_unpack _)|cbn; lia]. }
  intros _. rewrite <- app_assoc. eapply emits_bind; [by apply text_emits|]. intros _.
  unfold suffixed. destruct (Z.eqb_spec suffix 0) as [->|Hne].
  - apply (text_emits [34] [0]); [|done]. split; [by apply (bool_decide_unpack _)|cbn; lia].
  - apply (text_emits [34; suffix] []); [|done].
    split; [|cbn; lia]. rewrite elem_of_cons, list_elem_of_singleton. intros [|]; congruence.
Qed.

(** An array that is filled from its start. *)
Definition starts (array p : list Z) : Prop := take (length p) array = p.

Lemma store_next array p i bs size :
  starts array p -> Z.of_nat (length array) = size -> i = Z.of_nat (length p) ->
  i + Z.of_nat (length bs) <= size ->
  exists array', store_at array i bs = Some array' /\ Z.of_nat (length array') = size /\ starts array' (p ++ bs).
Proof.
  intros Hp Hl -> Hs. destruct (store_at array (Z.of_nat (length p)) bs) as [array'|] eqn:E.
  2: { rewrite store_at_some in E by lia. done. }
  exists array'. split; [done|]. split; [by rewrite (store_at_length _ _ _ _ E)|].
  pose proof (store_at_take _ _ _ _ E) as Ht. rewrite Nat2Z.id, Hp in Ht. unfold starts. by rewrite length_app.
Qed.

Lemma array_emits array text len c d :
  starts array text -> short text -> len = Z.of_nat (length text) ->
  emits (FIRCLSFileWriteToFileDescriptorOrBuffer array len) c d text c d.
Proof. intros Ht Hs Hl. rewrite <- (take_drop (length text) array), Ht. by apply text_emits. Qed.

Lemma length_quoted s suffix :
  Z.of_nat (length (quoted s ++ suffixed suffix)) = Z.of_nat (length s) + 2 + Z.of_nat (length (suffixed suffix)).
Proof. unfold quoted. rewrite !length_app. cbn. lia. Qed.

Lemma quoted_short s suffix :
  short s -> Z.of_nat (length s) + Z.of_nat (length (suffixed suffix)) < 13 -> short (quoted s ++ suffixed suffix).
Proof.
  intros [H0 _] Hl. split; [|rewrite length_quoted; lia]. unfold quoted, suffixed.
  rewrite !elem_of_app, !list_elem_of_singleton. destruct (Z.eqb_spec suffix 0) as [->|Hne].
  - rewrite elem_of_nil. by intros [[|[|]]|].
  - rewrite list_elem_of_singleton. intros [[|[|]]|]; congruence.
Qed.

(** The terminator and the write at the end. *)
Lemma terminated_emits array len text c d :
  starts array text -> short text -> len = Z.of_nat (length text) -> len + 2 <= Z.of_nat (length array) ->
  emits (b ← or_undefined (store_at array (len + 1) [0]); FIRCLSFileWriteToFileDescriptorOrBuffer b len) c d text c d.
Proof.
  intros Ht Hs Hl Hlim. destruct (store_at array (len + 1) [0]) as [b|] eqn:E.
  2: { rewrite store_at_some in E; [done|lia|cbn; lia]. }
  eapply emits_some; [reflexivity|]. apply array_emits; [|done|done].
  unfold starts. by rewrite (store_at_keeps _ _ _ _ _ E) by lia.
Qed.

Lemma string_suffix_emits s rest suffix c d :
  short s ->
  emits (FIRCLSFileWriteStringWithSuffix (s ++ rest) (Z.of_nat (length s)) suffix) c d
    (quoted s ++ suffixed suffix) c d.
Proof.
  intros Hs. unfold FIRCLSFileWriteStringWithSuffix. cbv zeta.
  destruct (Z.leb_spec (FIRCLSStringBufferLength - (if suffix =? 0 then 3 else 4)) (Z.of_nat (length s))) as [|Hlt];
    [by apply unbuffered_string_emits|]. destruct Hs as [Hs0 Hsl].
  assert (Hlt' : Z.of_nat (length s) + Z.of_nat (length (suffixed suffix)) < 13)
    by (unfold suffixed, FIRCLSStringBufferLength in *; destruct (suffix =? 0); cbn in *; lia).
  change (Z.to_nat FIRCLSStringBufferLength) with 16%nat.
  destruct (store_next (uninit 16) [] 0 [34] 16) as (b0 & E0 & L0 & S0);
    [done|by rewrite uninit_length|done|cbn; lia|]. eapply emits_some; [exact E0|]. eapply emits_some.
  { rewrite Nat2Z.id. apply strncpy_take; [rewrite length_app; lia|by rewrite take_app_length]. }
  rewrite take_app_length. destruct (store_next b0 ([] ++ [34]) 1 s 16) as (b1 & E1 & L1 & S1); [done|done|done|lia|].
  eapply emits_some; [exact E1|].
  destruct (store_next b1 (([] ++ [34]) ++ s) (Z.of_nat (length s) + 1) [34] 16) as (b2 & E2 & L2 & S2);
    [done|done|rewrite length_app; cbn; lia|cbn; lia|]. eapply emits_some; [exact E2|].
  assert (Hq := quoted_short s suffix (conj Hs0 Hsl) ltac:(lia)).
  assert (Hl := length_quoted s suffix).
  unfold suffixed in *. destruct (suffix =? 0).
  - apply emits_ret_bind, terminated_emits; [by rewrite app_nil_r|done|rewrite Hl; cbn; lia|lia].
  - destruct (store_next b2 ((([] ++ [34]) ++ s) ++ [34]) (Z.of_nat (length s) + 2) [suffix] 16) as (b3 & E3 & L3 & S3);
      [done|done|rewrite !length_app; cbn; lia|cbn in *; lia|].
    apply emits_assoc. eapply emits_some; [exact E3|].
    apply emits_ret_bind, terminated_emits; [exact S3|done|rewrite Hl; cbn; lia|cbn in Hlt'; lia].
Qed.

Lemma terminated_string_emits s rest c d :
  short s -> emits (FIRCLSFileWriteString (Some (s ++ 0 :: rest))) c d (quoted s) c d.
Proof.
  intros Hs. unfold FIRCLSFileWriteString. apply emits_strlen; [by apply Hs|].
  eapply emits_cong; [by apply string_suffix_emits|]. by rewrite app_nil_r.
Qed.

Lemma string_emits s c d :
  short s -> emits (FIRCLSFileWriteString (Some (c_string s))) c d (quoted s) c d.
Proof. apply terminated_string_emits. Qed.

Lemma null_emits c d : emits (FIRCLSFileWriteString None) c d (chars "null") c d.
Proof. by apply literal_emits. Qed.

(** *** Hexadecimal strings *)

(** [p] is in the buffer; what does not stay there is written. *)
Lemma hex_loop_emits (k : list Z * Z -> F unit) todo : forall pre rest i len buffer p post c d,
  Forall is_byte todo -> i = Z.of_nat (length pre) -> i + Z.of_nat (length todo) < 2 ^ 31 ->
  starts buffer p -> Z.of_nat (length buffer) = 32 -> (length p < 32)%nat -> Nat.Even (length p) -> 0 ∉ p ->
  (forall buffer' p' written, starts buffer' p' -> short p' -> p ++ hex_text todo = written ++ p' ->
     emits (k (buffer', Z.of_nat (length p'))) c d (p' ++ post) c d) ->
  emits (hex_loop (length todo) (pre ++ todo ++ rest) i len buffer (Z.of_nat (length p)) ≫= k) c d
    (p ++ hex_text todo ++ post) c d.
Proof.
  induction todo as [|b todo IH]; intros pre rest i len buffer p post c d Hb Hi Hlim Hp Hl Hlt Hev H0 Hk;
    cbn [length hex_loop].
  { apply emits_ret_bind. apply (Hk buffer p []); [done| |by rewrite app_nil_r]. split; [done|lia]. }
  apply Forall_cons in Hb as [Hb Hbs]. cbn [length] in Hlim.
  apply emits_assoc. eapply emits_some; [rewrite Hi, Nat2Z.id; by apply list_lookup_middle|].
  destruct (store_next buffer p (Z.of_nat (length p)) (FIRCLSHexFromByte b) 32) as (b1 & E1 & L1 & S1);
    [done|done|done| |].
  { destruct Hev as [q Hq]. rewrite hex_from_byte by done. cbn [length]. lia. }
  apply emits_assoc. eapply emits_some; [exact E1|]. cbv zeta.
  rewrite (hex_from_byte b Hb) in S1.
  set (p2 := p ++ _) in S1. assert (Hp2 : length p2 = (length p + 2)%nat) by (unfold p2; by rewrite length_app).
  assert (H02 : 0 ∉ p2).
  { unfold p2. rewrite elem_of_app. intros [?|Hin]; [done|].
    pose proof (hex_no_zero [b] ltac:(by apply Forall_singleton)) as Hz. by apply Hz. }
  assert (Ehex : hex_text (b :: todo) = [hex_digit (b / 16); hex_digit (b mod 16)] ++ hex_text todo) by done.
  assert (Hev2 : Nat.Even (length p2)) by (rewrite Hp2; destruct Hev as [q ->]; exists (S q); lia).
  rewrite Ehex, <- app_assoc, (app_assoc p). fold p2.
  rewrite (proj2 (Z.eqb_neq i _)) by lia. cbn [app]. rewrite (cons_middle b pre), (app_assoc pre [b]).
  assert (Hi' : i + 1 = Z.of_nat (length (pre ++ [b]))) by (rewrite length_app; cbn; lia).
  unfold CLS_FILE_HEX_BUFFER. destruct (Z.leb_spec 32 (Z.of_nat (length p) + 2)) as [Hfull|Hroom]; apply emits_assoc.
  - apply emits_assoc. eapply emits_bind.
    { apply array_emits; [exact S1|split; [done|]|]; destruct Hev2 as [q2 Hq2]; lia. }
    intros _. apply emits_ret_bind.
    eapply (IH (pre ++ [b]) rest (i + 1) len b1 [] post); try done; try lia; try (cbn; lia); [by exists 0%nat|by apply not_elem_of_nil|].
    intros buffer' p' written HS Hs' Ew. apply (Hk buffer' p' (p2 ++ written)); [done..|].
    rewrite Ehex, app_assoc. fold p2. rewrite <- app_assoc. f_equal. exact Ew.
  - apply emits_ret_bind. replace (Z.of_nat (length p) + 2) with (Z.of_nat (length p2)) by lia.
    eapply (IH (pre ++ [b]) rest (i + 1) len b1 p2 post); try done; try lia.
    intros buffer' p' written HS Hs' Ew. apply (Hk buffer' p' written); [done..|].
    rewrite Ehex, app_assoc. exact Ew.
Qed.

Lemma hex_emits s c d :
  Forall is_byte s -> 0 ∉ s -> Z.of_nat (length s) < 2 ^ 31 ->
  emits (FIRCLSFileWriteHexEncodedString (Some (c_string s))) c d (quoted (hex_text s)) c d.
Proof.
  intros Hb H0 Hl. unfold FIRCLSFileWriteHexEncodedString, c_string. apply emits_given. cbn [negb].
  apply emits_strlen; [done|]. unfold quoted. eapply emits_bind.
  { apply (text_emits [34] [0]); [|done]. split; [by apply (bool_decide_unpack _)|cbn; lia]. }
  intros _. rewrite Nat2Z.id.
  eapply (hex_loop_emits _ s [] [0] 0 (Z.of_nat (length s)) _ [] [34]); try done; try (cbn; lia); [by exists 0%nat|by apply not_elem_of_nil|].
  intros buffer p written HS Hs Ew. eapply emits_bind.
  - instantiate (1 := d). instantiate (1 := c).
    destruct p as [|x p]; [by apply emits_ret|].
    rewrite (proj2 (Z.ltb_lt 0 _)) by (cbn; lia). destruct s as [|y s]; [by destruct written|].
    by apply array_emits.
  - intros _. apply (text_emits [34] [0]); [|done]. split; [by apply (bool_decide_unpack _)|cbn; lia].
Qed.

Lemma hex_null_emits c d : emits (FIRCLSFileWriteHexEncodedString None) c d (chars "null") c d.
Proof. apply emits_given. by apply literal_emits. Qed.

End Emits.

Lemma string_length_run s rest : 0 ∉ s -> string_length (s ++ 0 :: rest) = Some (Z.of_nat (length s)).
Proof. intros H. unfold string_length. by rewrite strlen_find. Qed.

(** A nybble is read back from its digit. *)
Lemma nybble_of_digit b :
  is_byte b ->
  FIRCLSNybbleFromChar (hex_digit (b / 16)) = b / 16 /\ FIRCLSNybbleFromChar (hex_digit (b mod 16)) = b mod 16 /\
  u8 (Z.lor (Z.shiftl (b / 16) 4) (b mod 16)) = b /\ b / 16 <> 255 /\ b mod 16 <> 255.
Proof.
  intros Hb.
  pose proof (all_bytes (fun b => bool_decide (
    FIRCLSNybbleFromChar (hex_digit (b / 16)) = b / 16 /\ FIRCLSNybbleFromChar (hex_digit (b mod 16)) = b mod 16 /\
    u8 (Z.lor (Z.shiftl (b / 16) 4) (b mod 16)) = b /\ b / 16 <> 255 /\ b mod 16 <> 255)) eq_refl b Hb) as H.
  by apply bool_decide_eq_true in H.
Qed.

(** An array whose first bytes are [p] and whose others are 0. *)
Definition padded (p : list Z) (size : nat) : list Z := p ++ replicate (size - length p) 0.

Lemma store_padded p bs size :
  (length p + length bs <= size)%nat ->
  store_at (padded p size) (Z.of_nat (length p)) bs = Some (padded (p ++ bs) size).
Proof.
  intros Hl. unfold padded. rewrite store_at_some by (rewrite ?length_app, ?length_replicate; lia).
  rewrite Nat2Z.id, take_app_length, drop_app_ge, drop_replicate, length_app by lia.
  rewrite <- app_assoc. do 4 f_equal. lia.
Qed.

Lemma hex_encode_loop_run todo pre rest p size :
  Forall is_byte todo -> (length p + 2 * length todo <= size)%nat ->
  Z.of_nat (length p + 2 * length todo) < 2 ^ 31 ->
  hex_encode_loop (length todo) (pre ++ todo ++ rest) (Z.of_nat (length pre)) (padded p size) (Z.of_nat (length p)) =
    Some (padded (p ++ hex_text todo) size).
Proof.
  revert pre p. induction todo as [|b todo IH]; intros pre p Hb Hl Hi; cbn [length hex_encode_loop].
  { by rewrite app_nil_r. }
  apply Forall_cons in Hb as [Hb Hbs]. cbn [length app] in *. rewrite Nat2Z.id, list_lookup_middle by done.
  cbn [mbind option_bind]. rewrite hex_from_byte, store_padded by (done || cbn; lia). cbn [mbind option_bind].
  cbv zeta. rewrite (proj2 (Z.leb_gt _ _)) by lia. rewrite (cons_middle b pre), (app_assoc pre [b]).
  replace (Z.of_nat (length pre) + 1) with (Z.of_nat (length (pre ++ [b]))) by (rewrite length_app; cbn; lia).
  set (h := [_; _]). replace (Z.of_nat (length p) + 2) with (Z.of_nat (length (p ++ h))) by (rewrite length_app; cbn; lia).
  rewrite IH by (done || rewrite length_app; cbn; lia). by rewrite <- app_assoc.
Qed.

Lemma hex_encode_run s :
  Forall is_byte s -> 0 ∉ s -> Z.of_nat (length s) < 2 ^ 30 ->
  FIRCLSFileHexEncodeString (c_string s) = Some (c_string (hex_text s)).
Proof.
  intros Hb H0 Hl. unfold FIRCLSFileHexEncodeString, c_string. rewrite string_length_run by done.
  cbn [mbind option_bind]. rewrite Nat2Z.id.
  pose proof (hex_encode_loop_run s [] [0] [] (Z.to_nat (Z.of_nat (length s) * 2 + 1)) Hb ltac:(cbn; lia) ltac:(cbn [length]; lia)) as E.
  unfold padded in E. rewrite Nat.sub_0_r in E. cbn [app length] in E. change (Z.of_nat 0) with 0 in E. rewrite E.
  rewrite length_hex. do 2 f_equal. replace (_ - _)%nat with 1%nat by lia. done.
Qed.

Lemma hex_decode_loop_run todo done_ rest size :
  Forall is_byte todo -> (length done_ + length todo <= size)%nat ->
  Z.of_nat (length done_ + length todo) < 2 ^ 30 ->
  hex_decode_loop (length todo) (hex_text done_ ++ hex_text todo ++ rest) (Z.of_nat (length done_)) (padded done_ size) =
    Some (padded (done_ ++ todo) size).
Proof.
  revert done_. induction todo as [|b todo IH]; intros done_ Hb Hl Hi; cbn [length hex_decode_loop].
  { by rewrite app_nil_r. }
  apply Forall_cons in Hb as [Hb Hbs]. cbn [length] in Hl, Hi. cbv zeta.
  rewrite (proj2 (Z.leb_gt (2 ^ 31) _)) by lia. destruct (nybble_of_digit b Hb) as (E1 & E2 & E3 & N1 & N2).
  change (hex_text (b :: todo)) with (hex_digit (b / 16) :: hex_digit (b mod 16) :: hex_text todo). cbn [app].
  replace (Z.to_nat (Z.of_nat (length done_) * 2)) with (length (hex_text done_)) by (rewrite length_hex; lia).
  rewrite (list_lookup_middle _ _ _ _ eq_refl). cbn [mbind option_bind].
  replace (Z.to_nat (Z.of_nat (length done_) * 2 + 1)) with (length (hex_text done_ ++ [hex_digit (b / 16)]))
    by (rewrite length_app, length_hex; cbn; lia).
  rewrite (cons_middle (hex_digit (b / 16))), (app_assoc _ [hex_digit (b / 16)]), list_lookup_middle by done.
  cbn [mbind option_bind]. rewrite E1, E2. unfold FIRCLSInvalidCharNybble.
  rewrite (proj2 (Z.eqb_neq _ _) N1), (proj2 (Z.eqb_neq _ _) N2). cbn [orb]. rewrite E3.
  rewrite store_padded by (cbn; lia). cbn [mbind option_bind].
  replace (Z.of_nat (length done_) + 1) with (Z.of_nat (length (done_ ++ [b]))) by (rewrite length_app; cbn; lia).
  assert (Eh : (hex_text done_ ++ [hex_digit (b / 16)]) ++ hex_digit (b mod 16) :: hex_text todo ++ rest =
    hex_text (done_ ++ [b]) ++ hex_text todo ++ rest).
  { unfold hex_text at 3. rewrite bind_app. cbn. by rewrite <- !app_assoc. }
  rewrite Eh, IH by (done || rewrite length_app; cbn; lia). by rewrite <- app_assoc.
Qed.

Lemma hex_decode_run s :
  Forall is_byte s -> Z.of_nat (length s) < 2 ^ 30 ->
  FIRCLSFileHexDecodeString (c_string (hex_text s)) = Some (padded s (2 * length s)).
Proof.
  intros Hb Hl. unfold FIRCLSFileHexDecodeString, c_string. rewrite string_length_run by (by apply hex_no_zero).
  cbn [mbind option_bind]. rewrite length_hex.
  replace (Z.to_nat (Z.of_nat (2 * length s) / 2)) with (length s).
  2: { rewrite Nat2Z.inj_mul, Z.mul_comm, Z.div_mul, Nat2Z.id by done. done. }
  pose proof (hex_decode_loop_run s [] [0] (2 * length s) Hb ltac:(cbn; lia) Hl) as E.
  unfold padded in E. rewrite Nat.sub_0_r in E. cbn [app length] in E. rewrite Nat2Z.id.
  change (Z.of_nat 0) with 0 in E. exact E.
Qed.

(** Any string is decoded without leaving the string or the buffer. *)
Lemma hex_decode_loop_total n string i buffer :
  0 <= i -> 2 * (i + Z.of_nat n) <= Z.of_nat (length string) -> i + Z.of_nat n <= Z.of_nat (length buffer) ->
  i + Z.of_nat n < 2 ^ 30 ->
  exists buffer', hex_decode_loop n string i buffer = Some buffer' /\ length buffer' = length buffer.
Proof.
  revert i buffer. induction n as [|n IH]; intros i buffer Hi Hs Hb Hlim; cbn [hex_decode_loop]; [by exists buffer|].
  cbv zeta. rewrite (proj2 (Z.leb_gt _ _)) by lia.
  destruct (lookup_lt_is_Some_2 string (Z.to_nat (i * 2))) as [hi ->]; [lia|].
  destruct (lookup_lt_is_Some_2 string (Z.to_nat (i * 2 + 1))) as [low ->]; [lia|]. cbn [mbind option_bind].
  destruct (_ || _); [by exists buffer|].
  destruct (store_at buffer i _) as [b1|] eqn:E; [|rewrite store_at_some in E by (cbn; lia); done].
  cbn [mbind option_bind]. pose proof (store_at_length _ _ _ _ E) as Hl.
  destruct (IH (i + 1) b1) as (b2 & -> & Hl2); [lia..|]. exists b2. split; [done|lia].
Qed.

Lemma hex_decode_total s rest :
  0 ∉ s -> Z.of_nat (length s) < 2 ^ 31 -> exists buffer, FIRCLSFileHexDecodeString (s ++ 0 :: rest) = Some buffer /\ length buffer = length s.
Proof.
  intros H0 Hlim. unfold FIRCLSFileHexDecodeString. rewrite string_length_run by done. cbn [mbind option_bind].
  pose proof (Z.mul_div_le (Z.of_nat (length s)) 2 ltac:(lia)).
  pose proof (Z.div_pos (Z.of_nat (length s)) 2 ltac:(lia) ltac:(lia)).
  destruct (hex_decode_loop_total (Z.to_nat (Z.of_nat (length s) / 2)) (s ++ 0 :: rest) 0
    (replicate (Z.to_nat (Z.of_nat (length s))) 0)) as (b & E & Hl);
    [lia|rewrite length_app; cbn; lia|rewrite length_replicate; lia|lia|].
  exists b. split; [exact E|]. rewrite Hl, length_replicate. lia.
Qed.
