(* ===== verification/FileJson.v ===== *)
(** JSON values, how a client writes one with the functions of the report file, the
    text that results, with strings as they are, and when that is the JSON text of the
    value; and a report file from its opening to its closing. *)
From S2P Require Import Prelude File FileFormat FileSpec FileFormatSpec.

(** ** Values *)

#[local] Unset Elimination Schemes.

Inductive json :=
  | JNull
  | JBool (b : bool)
  | JUint (n : Z)
  | JInt (n : Z)
  | JString (s : list Z)
  | JHex (s : list Z)
  | JArray (elements : list json)
  | JHash (members : list (list Z * json)).

#[local] Set Elimination Schemes.

Section Induction.
Context (P : json -> Prop).
Context (Hnull : P JNull) (Hbool : forall b, P (JBool b)) (Huint : forall n, P (JUint n)) (Hint : forall n, P (JInt n)).
Context (Hstring : forall s, P (JString s)) (Hhex : forall s, P (JHex s)).
Context (Harray : forall l, Forall P l -> P (JArray l)).
Context (Hhash : forall l, Forall (fun m => P m.2) l -> P (JHash l)).

Fixpoint json_nested_ind (v : json) : P v :=
  match v with
  | JNull => Hnull
  | JBool b => Hbool b
  | JUint n => Huint n
  | JInt n => Hint n
  | JString s => Hstring s
  | JHex s => Hhex s
  | JArray l =>
      Harray l ((fix go l : Forall P l :=
        match l with [] => Forall_nil_2 _ | v :: l => Forall_cons_2 _ _ _ (json_nested_ind v) (go l) end) l)
  | JHash l =>
      Hhash l ((fix go l : Forall (fun m => P m.2) l :=
        match l with [] => Forall_nil_2 _ | m :: l => Forall_cons_2 _ _ _ (json_nested_ind m.2) (go l) end) l)
  end.

End Induction.

(** ** Text *)

(** A comma before each text, but before the first only if [comma] says so. *)
Fixpoint separated (comma : bool) (texts : list (list Z)) : list Z :=
  match texts with
  | [] => []
  | t :: texts => (if comma then [44] else []) ++ t ++ separated true texts
  end.

Definition key_text (key : option (list Z)) : list Z :=
  match key with Some k => quoted k ++ [58] | None => [] end.

(** The text that is written: strings are put between quotation marks as they are. *)
Fixpoint written_text (v : json) : list Z :=
  match v with
  | JNull => chars "null"
  | JBool b => bool_text b
  | JUint n => decimal n
  | JInt n => signed_decimal n
  | JString s => quoted s
  | JHex s => quoted (hex_text s)
  | JArray l => [91] ++ separated false (map written_text l) ++ [93]
  | JHash l => [123] ++ separated false (map (fun m => key_text (Some m.1) ++ written_text m.2) l) ++ [125]
  end.

(** The JSON text of a value (RFC 8259): in strings quotation marks, backslashes and
    control characters are escaped. *)
Definition escaped (b : Z) : list Z :=
  if b =? 34 then [92; 34] else if b =? 92 then [92; 92]
  else if b <? 32 then [92; 117; 48; 48] ++ hex_text [b] else [b].

Definition json_string (s : list Z) : list Z := [34] ++ (s ≫= escaped) ++ [34].

Fixpoint json_text (v : json) : list Z :=
  match v with
  | JNull => chars "null"
  | JBool b => bool_text b
  | JUint n => decimal n
  | JInt n => signed_decimal n
  | JString s => json_string s
  | JHex s => json_string (hex_text s)
  | JArray l => [91] ++ separated false (map json_text l) ++ [93]
  | JHash l => [123] ++ separated false (map (fun m => json_string m.1 ++ [58] ++ json_text m.2) l) ++ [125]
  end.

(** The bytes of characters in UTF-8: [more] bytes of the current one are to come, of
    which the next is from [low] to [high]. *)
Fixpoint utf8_from (more : nat) (low high : Z) (s : list Z) : bool :=
  match s, more with
  | [], _ => Nat.eqb more 0
  | b :: s, S more => (low <=? b) && (b <=? high) && utf8_from more 0x80 0xBF s
  | b :: s, O =>
      if (0 <=? b) && (b <? 0x80) then utf8_from 0 0x80 0xBF s
      else if (0xC2 <=? b) && (b <=? 0xDF) then utf8_from 1 0x80 0xBF s
      else if b =? 0xE0 then utf8_from 2 0xA0 0xBF s
      else if b =? 0xED then utf8_from 2 0x80 0x9F s
      else if (0xE1 <=? b) && (b <=? 0xEF) then utf8_from 2 0x80 0xBF s
      else if b =? 0xF0 then utf8_from 3 0x90 0xBF s
      else if (0xF1 <=? b) && (b <=? 0xF3) then utf8_from 3 0x80 0xBF s
      else if b =? 0xF4 then utf8_from 3 0x80 0x8F s
      else false
  end.

Definition utf8 (s : list Z) : bool := utf8_from 0 0x80 0xBF s.

(** The strings that JSON has as they are: in UTF-8, without a character that is
    escaped. *)
Definition unescaped (b : Z) : bool := negb (b =? 34) && negb (b =? 92) && (32 <=? b).

Definition plain_string (s : list Z) : bool := utf8 s && forallb unescaped s.

Fixpoint plain_json (v : json) : bool :=
  match v with
  | JNull | JBool _ | JUint _ | JInt _ => true
  | JString s => plain_string s
  | JHex s => plain_string (hex_text s)
  | JArray l => forallb plain_json l
  | JHash l => forallb (fun m => plain_string m.1 && plain_json m.2) l
  end.

Lemma plain_escaped s : plain_string s = true -> json_string s = quoted s.
Proof.
  intros [_ H]%andb_true_iff. unfold json_string, quoted. do 2 f_equal. rewrite forallb_forall in H.
  induction s as [|b s IH]; [done|]. cbn. rewrite IH by (intros; apply H; by right).
  specialize (H b ltac:(by left)). unfold unescaped in H. unfold escaped.
  destruct (b =? 34), (b =? 92); cbn in H; try done. by rewrite (proj2 (Z.ltb_ge b 32)) by lia.
Qed.

(** What is written of them is their JSON text. *)
Lemma plain_text v : plain_json v = true -> written_text v = json_text v.
Proof.
  induction v as [| | | |s|s|l IH|l IH] using json_nested_ind; intros Hp; cbn [plain_json written_text json_text] in *; try done.
  - by rewrite plain_escaped.
  - by rewrite plain_escaped.
  - do 3 f_equal. apply map_ext_in. intros v Hv. rewrite forallb_forall in Hp. rewrite Forall_forall in IH.
    apply IH; [by apply list_elem_of_In|by apply Hp].
  - do 3 f_equal. apply map_ext_in. intros m Hm. rewrite forallb_forall in Hp. rewrite Forall_forall in IH.
    destruct (andb_prop _ _ (Hp m Hm)) as [Hk Hv]. unfold key_text. rewrite (plain_escaped _ Hk), <- app_assoc. do 2 f_equal.
    apply IH; [by apply list_elem_of_In|done].
Qed.

Fixpoint nesting (v : json) : Z :=
  match v with
  | JArray l => 1 + foldr Z.max 0 (map nesting l)
  | JHash l => 1 + foldr Z.max 0 (map (fun m => nesting m.2) l)
  | _ => 0
  end.

(** ** Writing *)

Section Writing.
Context {KN : Kernel}.

Fixpoint all {A} (f : A -> F unit) (l : list A) : F unit :=
  match l with [] => mret tt | a :: l => f a;; all f l end.

(** The key of a collection that is a member. *)
Definition write_key (key : option (list Z)) : F unit :=
  match key with Some k => FIRCLSFileWriteHashKey (c_string k) | None => mret tt end.

(** A member of a hash or, without a key, an element of an array; the file has no
    function for an element that is a boolean or signed. *)
Fixpoint write_json (key : option (list Z)) (v : json) : F unit :=
  match v, key with
  | JNull, Some k => FIRCLSFileWriteHashEntryString (c_string k) None
  | JNull, None => FIRCLSFileWriteArrayEntryString None
  | JBool b, Some k => FIRCLSFileWriteHashEntryBoolean (c_string k) b
  | JUint n, Some k => FIRCLSFileWriteHashEntryUint64 (c_string k) n
  | JUint n, None => FIRCLSFileWriteArrayEntryUint64 n
  | JInt n, Some k => FIRCLSFileWriteHashEntryInt64 (c_string k) n
  | JString s, Some k => FIRCLSFileWriteHashEntryString (c_string k) (Some (c_string s))
  | JString s, None => FIRCLSFileWriteArrayEntryString (Some (c_string s))
  | JHex s, Some k => FIRCLSFileWriteHashEntryHexEncodedString (c_string k) (Some (c_string s))
  | JHex s, None => FIRCLSFileWriteArrayEntryHexEncodedString (Some (c_string s))
  | JArray l, _ =>
      write_key key;;
      FIRCLSFileWriteArrayStart;;
      all (write_json None) l;;
      FIRCLSFileWriteArrayEnd
  | JHash l, _ =>
      write_key key;;
      FIRCLSFileWriteHashStart;;
      all (fun m => write_json (Some m.1) m.2) l;;
      FIRCLSFileWriteHashEnd
  | (JBool _ | JInt _), None => undefined
  end.

(** A section of a report: an object of its own on a line. *)
Definition write_section (name : list Z) (v : json) : F unit :=
  FIRCLSFileWriteSectionStart (c_string name);;
  write_json None v;;
  FIRCLSFileWriteSectionEnd.

End Writing.

(** What the functions can write, with strings of at most [n] bytes. *)
Section Writable.
Context (n : Z).

Definition good_string (s : list Z) : Prop := short n s.

Fixpoint writable (member : bool) (v : json) : Prop :=
  match v with
  | JNull => True
  | JBool _ => member = true
  | JUint v => 0 <= v < 2 ^ 64
  | JInt v => member = true /\ - 2 ^ 63 < v < 2 ^ 63
  | JString s => good_string s
  | JHex s => Forall is_byte s /\ (0 ∉ s) /\ Z.of_nat (length s) < 2 ^ 31
  | JArray l => foldr and True (map (writable false) l)
  | JHash l => foldr and True (map (fun m => good_string m.1 /\ writable true m.2) l)
  end.

End Writable.

(** ** The text is written *)

Section Emits.
Context {KN : Kernel} {KS : KernelSpec}.
Context (chunk n : Z) (Hn : 32 <= n < 2 ^ 62).

Notation emits m c d bs c' d' := (emits chunk n m c d bs c' d').

Definition comma (c : bool) : list Z := if c then [44] else [].

Lemma set_comma_emits c c' d :
  emits (f ← get_file; put_file (with_comma f c')) c d [] c' d.
Proof.
  intros k f Hwf Hc Hd. apply fwp_bind. eapply fwp_get; [done|]. eapply fwp_put; [done|].
  exists (with_comma f c'). destruct Hwf as [H1 H2 H3]. split; [done|]. split; [by split|].
  split_and!; try done. intros. by apply delivered_nil.
Qed.

Lemma prolog_emits c d : emits FIRCLSFileWriteCollectionEntryProlog c d (comma c) c d.
Proof.
  apply emits_get. intros f _ Hc _. rewrite Hc. destruct c; [by apply literal_emits|apply emits_ret].
Qed.

Lemma start_emits opening c d :
  opening <> 0 -> d < 2 ^ 31 - 1 ->
  emits (FIRCLSFileWriteCollectionStart opening) c d (comma c ++ [opening]) false (d + 1).
Proof.
  intros Ho Hd. unfold FIRCLSFileWriteCollectionStart. cbv zeta.
  apply emits_get. intros f _ Hc _. rewrite Hc. rewrite <- (app_nil_r (comma c ++ [opening])). eapply emits_bind.
  - instantiate (1 := d). instantiate (1 := c). destruct c; cbn [comma drop app].
    + apply (text_emits _ _ Hn [44; opening] []); [|done]. split; [|cbn; lia].
      rewrite elem_of_cons, list_elem_of_singleton. intros [|]; congruence.
    + apply (text_emits _ _ Hn [opening] []); [|done]. split; [|cbn; lia].
      rewrite list_elem_of_singleton. congruence.
  - intros _. intros k f' Hwf Hc' Hd'. apply fwp_bind. eapply fwp_get; [done|]. apply fwp_bind.
    rewrite (proj2 (Z.eqb_neq _ _)) by lia. eapply fwp_put; [done|].
    apply fwp_bind. eapply fwp_get; [done|]. eapply fwp_put; [done|]. eexists. destruct Hwf as [H1 H2 H3].
    split; [done|]. split; [by split|]. cbn [needComma with_comma with_depth collectionDepth].
    split_and!; try done; [lia|]. intros. by apply delivered_nil.
Qed.

Lemma end_emits closing c d :
  closing <> 0 -> 0 <= d ->
  emits (FIRCLSFileWriteCollectionEnd closing) c (d + 1) [closing] (0 <? d) d.
Proof.
  intros Ho Hd. unfold FIRCLSFileWriteCollectionEnd. rewrite <- (app_nil_r [closing]). eapply emits_bind.
  - apply (text_emits _ _ Hn [closing] []); [|done]. split; [|cbn; lia].
    rewrite list_elem_of_singleton. congruence.
  - intros _. intros k f Hwf Hc Hdf. apply fwp_bind. eapply fwp_get; [done|].
    rewrite (proj2 (Z.leb_gt _ _)) by lia. apply fwp_bind. eapply fwp_put; [done|].
    apply fwp_bind. eapply fwp_get; [done|]. eapply fwp_put; [done|]. eexists. destruct Hwf as [H1 H2 H3].
    split; [done|]. split; [by split|]. cbn [needComma with_comma with_depth collectionDepth].
    split_and!; try done; [by rewrite Hdf, Z.add_simpl_r|lia|]. intros. by apply delivered_nil.
Qed.

Lemma key_emits k c d :
  short n k -> emits (FIRCLSFileWriteHashKey (c_string k)) c d (comma c ++ key_text (Some k)) false d.
Proof.
  intros Hk. unfold FIRCLSFileWriteHashKey. eapply emits_bind; [apply prolog_emits|]. intros _.
  apply emits_strlen; [by apply Hk|]. cbn [key_text]. rewrite <- (app_nil_r (quoted k ++ [58])).
  eapply emits_bind; [by apply string_suffix_emits|]. intros _. apply set_comma_emits.
Qed.

Lemma hash_entry_emits (m : F unit) k t c d :
  short n k -> emits m false d t false d ->
  emits (FIRCLSFileWriteHashKey (c_string k);; m;; FIRCLSFileWriteCollectionEntryEpilog) c d
    (comma c ++ key_text (Some k) ++ t) true d.
Proof.
  intros Hk Hm. rewrite app_assoc. eapply emits_bind; [by apply key_emits|]. intros _.
  rewrite <- (app_nil_r t). eapply emits_bind; [exact Hm|]. intros _. apply set_comma_emits.
Qed.

Lemma array_entry_emits (m : F unit) t c d :
  emits m c d t c d ->
  emits (FIRCLSFileWriteCollectionEntryProlog;; m;; FIRCLSFileWriteCollectionEntryEpilog) c d
    (comma c ++ t) true d.
Proof.
  intros Hm. eapply emits_bind; [apply prolog_emits|]. intros _.
  rewrite <- (app_nil_r t). eapply emits_bind; [exact Hm|]. intros _. apply set_comma_emits.
Qed.

Lemma write_key_emits key c d :
  from_option (short n) True key ->
  emits (write_key key) c d (if key is Some _ then comma c ++ key_text key else []) (if key is Some _ then false else c) d.
Proof. destruct key as [k|]; intros Hk; [by apply key_emits|apply emits_ret]. Qed.

(** Entries one after the other. *)
Lemma all_emits {A} (f : A -> F unit) (text : A -> list Z) l d :
  (forall a c, a ∈ l -> emits (f a) c d (comma c ++ text a) true d) ->
  forall c, exists c', emits (all f l) c d (separated c (map text l)) c' d.
Proof.
  intros Hf. induction l as [|a l IH]; intros c; cbn [all map separated].
  { exists c. apply emits_ret. }
  destruct (IH ltac:(intros; apply Hf; by right) true) as [c' Hl]. exists c'. rewrite app_assoc.
  eapply emits_bind; [apply Hf; by left|]. by intros _.
Qed.

(** A collection between its brackets. *)
Lemma collection_emits (body : F unit) key opening closing t c d :
  opening <> 0 -> closing <> 0 -> 0 <= d < 2 ^ 31 - 1 -> from_option (short n) True key ->
  (exists c', emits body false (d + 1) t c' (d + 1)) ->
  emits (write_key key;; FIRCLSFileWriteCollectionStart opening;; body;; FIRCLSFileWriteCollectionEnd closing) c d
    (comma c ++ key_text key ++ [opening] ++ t ++ [closing]) (0 <? d) d.
Proof.
  intros Ho Hcl Hd Hk [c' Hb].
  assert (Hrest : forall c0, emits (FIRCLSFileWriteCollectionStart opening;; body;; FIRCLSFileWriteCollectionEnd closing)
    c0 d (comma c0 ++ [opening] ++ t ++ [closing]) (0 <? d) d).
  { intros c0. rewrite app_assoc. eapply emits_bind; [apply start_emits; (done || lia)|]. intros _.
    eapply emits_bind; [exact Hb|]. intros _. apply end_emits; (done || lia). }
  pose proof (write_key_emits key c d Hk) as Hw. destruct key as [k|].
  - rewrite app_assoc. eapply emits_bind; [exact Hw|]. intros _. exact (Hrest false).
  - change (comma c ++ key_text None ++ [opening] ++ t ++ [closing]) with ([] ++ comma c ++ [opening] ++ t ++ [closing]).
    eapply emits_bind; [exact Hw|]. intros _. exact (Hrest c).
Qed.

(** [needComma] after a value at a depth. *)
Definition comma_after (v : json) (d : Z) : bool :=
  match v with JArray _ | JHash _ => 0 <? d | _ => true end.

Lemma nesting_positive v : 0 <= nesting v.
Proof. destruct v as [| | | | | |l|l]; cbn; try lia; induction l; cbn; lia. Qed.

Lemma foldr_max_in {A} (f : A -> Z) l x : x ∈ l -> f x <= foldr Z.max 0 (map f l).
Proof. induction 1; cbn; lia. Qed.

Lemma foldr_max_positive {A} (f : A -> Z) l : 0 <= foldr Z.max 0 (map f l).
Proof. induction l; cbn; lia. Qed.

Lemma foldr_and_in {A} (f : A -> Prop) l x : x ∈ l -> foldr and True (map f l) -> f x.
Proof. induction 1; cbn; tauto. Qed.

(** An entry whose value [m] writes. *)
Lemma entry_emits (m : F unit) key t c d :
  from_option (short n) True key -> (forall c, emits m c d t c d) ->
  emits (match key with
         | Some k => FIRCLSFileWriteHashKey (c_string k);; m;; FIRCLSFileWriteCollectionEntryEpilog
         | None => FIRCLSFileWriteCollectionEntryProlog;; m;; FIRCLSFileWriteCollectionEntryEpilog
         end) c d (comma c ++ key_text key ++ t) true d.
Proof.
  intros Hk Hm. destruct key as [k|]; [by apply hash_entry_emits|by apply array_entry_emits].
Qed.

Definition emits_value (v : json) : Prop := forall key c d,
  from_option (short n) True key -> writable n (bool_decide (is_Some key)) v -> 0 <= d -> d + nesting v < 2 ^ 31 ->
  emits (write_json key v) c d (comma c ++ key_text key ++ written_text v) (comma_after v d) d.

(** Inside of a collection there is a comma after every value. *)
Lemma inner_emits v key c d :
  emits_value v -> from_option (short n) True key -> writable n (bool_decide (is_Some key)) v ->
  0 <= d -> d + 1 + nesting v < 2 ^ 31 ->
  emits (write_json key v) c (d + 1) (comma c ++ key_text key ++ written_text v) true (d + 1).
Proof.
  intros Hv Hk Hw Hd Hn'. specialize (Hv key c (d + 1) Hk Hw ltac:(lia) ltac:(lia)).
  unfold comma_after in Hv. rewrite (proj2 (Z.ltb_lt 0 (d + 1))) in Hv by lia. by destruct v.
Qed.

Lemma array_emits_value l : Forall emits_value l -> emits_value (JArray l).
Proof.
  intros IH key c d Hk Hw Hd Hnest. cbn [writable nesting written_text comma_after] in *.
  pose proof (foldr_max_positive nesting l). rewrite Forall_forall in IH.
  destruct key as [k|]; cbn [write_json]; apply collection_emits; (done || lia || idtac);
    apply (all_emits _ written_text); intros v c' Hv;
    pose proof (foldr_max_in nesting l v Hv); pose proof (foldr_and_in _ l v Hv Hw);
    apply (inner_emits v None); (done || by apply IH || lia).
Qed.

Lemma hash_emits_value l : Forall (fun m => emits_value m.2) l -> emits_value (JHash l).
Proof.
  intros IH key c d Hk Hw Hd Hnest. cbn [writable nesting written_text comma_after] in *.
  pose proof (foldr_max_positive (fun m => nesting m.2) l). rewrite Forall_forall in IH.
  destruct key as [k|]; cbn [write_json]; apply collection_emits; (done || lia || idtac);
    apply (all_emits _ (fun m => key_text (Some m.1) ++ written_text m.2)); intros m c' Hm;
    pose proof (foldr_max_in (fun m => nesting m.2) l m Hm); pose proof (foldr_and_in _ l m Hm Hw) as [Hs Hwm]; cbv beta in *;
    apply (inner_emits m.2 (Some m.1)); (done || by apply IH || lia).
Qed.

Lemma write_json_emits v : emits_value v.
Proof.
  induction v as [|b|m|m|s|s|l IH|l IH] using json_nested_ind;
    [..|by apply array_emits_value|by apply hash_emits_value]; intros key c d Hk Hw Hd Hnest;
    cbn [writable nesting written_text comma_after] in *.
  - pose proof (entry_emits _ key _ c d Hk (fun c => null_emits chunk n Hn c d)) as H. by destruct key.
  - pose proof (entry_emits _ key _ c d Hk (fun c => bool_emits chunk n Hn b c d)) as H. by destruct key.
  - pose proof (entry_emits _ key _ c d Hk (fun c => uint_emits chunk n Hn m c d Hw)) as H. by destruct key.
  - destruct Hw as [Hkey Hm].
    pose proof (entry_emits _ key _ c d Hk (fun c => int_emits chunk n Hn m c d Hm)) as H. by destruct key.
  - pose proof (entry_emits _ key _ c d Hk (fun c => string_emits chunk n Hn s c d Hw)) as H. by destruct key.
  - destruct Hw as (Hb & H0 & Hl).
    pose proof (entry_emits _ key _ c d Hk (fun c => hex_emits chunk n Hn s c d Hb H0 Hl)) as H. by destruct key.
Qed.

(** A section is an object on a line of its own. *)
Definition section_text (name : list Z) (v : json) : list Z :=
  [123] ++ key_text (Some name) ++ written_text v ++ [125; 10].

Lemma section_start_emits name c :
  short n name ->
  emits (FIRCLSFileWriteSectionStart (c_string name)) c 0 (comma c ++ [123] ++ key_text (Some name)) false 1.
Proof.
  intros Hs. unfold FIRCLSFileWriteSectionStart. rewrite app_assoc.
  eapply emits_bind; [apply start_emits; (done || lia)|]. intros _. exact (key_emits name false (0 + 1) Hs).
Qed.

Lemma section_end_emits c : emits FIRCLSFileWriteSectionEnd c 1 [125; 10] false 0.
Proof.
  apply (emits_bind _ _ _ _ _ _ [125] false 0 [10]); [by apply (end_emits 125 c 0)|]. intros _.
  apply (text_emits _ _ Hn [10] [0]); [|done]. split; [by apply (bool_decide_unpack _)|cbn; lia].
Qed.

Lemma write_section_emits name v c :
  short n name -> writable n false v -> 1 + nesting v < 2 ^ 31 ->
  emits (write_section name v) c 0 (comma c ++ section_text name v) false 0.
Proof.
  intros Hs Hw Hnest. pose proof (nesting_positive v). unfold write_section, section_text.
  eapply emits_cong; [|instantiate (1 := (comma c ++ [123] ++ key_text (Some name)) ++ written_text v ++ [125; 10]);
    by rewrite <- !app_assoc].
  eapply emits_bind; [by apply section_start_emits|]. intros _.
  eapply emits_bind; [apply (inner_emits v None false 0); (done || lia || apply write_json_emits)|]. intros _.
  apply section_end_emits.
Qed.

End Emits.

Section Session.
Context {KN : Kernel} {KS : KernelSpec}.

(** The memory for the buffer can be had. *)
Definition buffer_available (k : kernel) (buffered : bool) : Prop :=
  buffered = true -> exists block k', sys_malloc FIRCLSWriteBufferLength k = (Some block, k').

(** Where a file that is opened starts to count. *)
Definition start_length (k : kernel) (d : Z) (appendMode : bool) : Z :=
  if appendMode then Z.of_nat (length (contents k d)) else 0.

Lemma init_run d appendMode buf f0 k :
  0 <= d -> buffer_available k buf -> start_length k d appendMode < 2 ^ 63 ->
  fwp (FIRCLSFileInit d appendMode buf) (FileState (Some f0) k) (fun ok s' => ok = true /\ exists f,
    the_file s' = Some f /\ wf_file f /\ needComma f = false /\ collectionDepth f = 0 /\ fd f = d /\
    bufferWrites f = buf /\ buffered f = [] /\ writtenLength f = start_length k d appendMode /\
    contents (the_kernel s') d = contents k d).
Proof.
  intros Hd Hm Hsize. unfold FIRCLSFileInit. apply fwp_bind. eapply fwp_given; [done|]. cbn [negb].
  rewrite (proj2 (Z.ltb_ge _ _)) by lia. apply fwp_bind. eapply fwp_put; [done|]. apply fwp_bind.
  apply (fwp_mono _ _ (fun ok s' => ok = true /\ contents (the_kernel s') d = contents k d /\ exists f,
    the_file s' = Some f /\ wf_file f /\ needComma f = false /\ collectionDepth f = 0 /\ fd f = d /\
    bufferWrites f = buf /\ buffered f = [] /\ writtenLength f = 0)).
  - destruct buf.
    + destruct (Hm eq_refl) as (block & k' & E). apply fwp_bind, fwp_sys. cbn [the_kernel the_file].
      intros a k1 E1. rewrite E in E1. injection E1 as <- <-.
      apply fwp_bind. eapply fwp_get; [done|]. apply fwp_bind. eapply fwp_put; [done|]. apply fwp_ret.
      pose proof (malloc_block FIRCLSWriteBufferLength _ _ _ ltac:(done) E). split; [done|]. split; [by eapply malloc_keeps|].
      eexists. split; [done|]. split; [|by split_and!]. split; [by eexists|done|done].
    + apply fwp_ret. split; [done|]. split; [done|]. eexists. split; [done|]. by split_and!.
  - intros ok [tf k1] (-> & Hc & f & E & Hwf & Hcm & Hdp & Hfd & Hbw & Hb & Hw).
    cbn [the_file the_kernel negb] in *. subst tf. unfold start_length in *. destruct appendMode.
    + apply fwp_bind, fwp_sys. cbn [the_kernel the_file]. intros size k2 [= <- <-].
      apply fwp_bind. eapply fwp_get; [done|]. apply fwp_bind. rewrite size_contents, Hc, Hw.
      destruct (Z.ltb_spec 0 (Z.of_nat (length (contents k d)))) as [Hpos|Hz].
      * eapply fwp_put; [done|]. apply fwp_ret. split; [done|]. eexists. split; [done|].
        rewrite to_signed_small by lia. split; [apply wf_with_written; [done|lia]|]. split_and!; try done.
      * apply fwp_ret. split; [done|]. exists f. split_and!; try done. rewrite Hw. lia.
    + apply fwp_ret. split; [done|]. exists f. by split_and!.
Qed.

Lemma close_run chunk k f :
  0 < chunk -> progress chunk -> fits chunk f 0 -> wf_file f ->
  fwp FIRCLSFileCloseWithOffset (FileState (Some f) k) (fun r s' =>
    contents (the_kernel s') (fd f) = output k f /\ - 2 ^ 63 <= r.2 < 2 ^ 63 /\ u64 r.2 = u64 (counted f) /\
    (r.1 = true -> exists f', the_file s' = Some f' /\ fd f' = -1)).
Proof.
  intros Hch Hp Hf Hwf. unfold FIRCLSFileCloseWithOffset. apply fwp_bind. eapply fwp_given; [done|]. cbn [negb].
  apply fwp_bind. eapply fwp_get; [done|]. apply fwp_bind.
  apply (fwp_mono _ _ (fun _ s' => exists f1, the_file s' = Some f1 /\ fd f1 = fd f /\
    contents (the_kernel s') (fd f) = output k f /\ - 2 ^ 63 <= writtenLength f1 < 2 ^ 63 /\
    u64 (writtenLength f1) = u64 (counted f))).
  - destruct (bufferWrites f) eqn:Eb; cbn [andb].
    2: { apply fwp_ret. exists f. unfold output, counted, buffered. rewrite Eb, app_nil_r, Z.add_0_r.
         split_and!; try done; apply (wf_written _ Hwf). }
    destruct (wf_block _ Hwf Eb) as (bytes & Ew & Hl). rewrite Ew. apply fwp_bind.
    apply (fwp_mono _ _ (fun _ s' => exists f1, the_file s' = Some f1 /\ fd f1 = fd f /\ wf_file f1 /\
      writeBuffer f1 = Buffer bytes /\ bufferWrites f1 = true /\ writeBufferLength f1 = 0 /\
      delivered k f (the_kernel s') f1 [])).
    + destruct (Z.ltb_spec 0 (writeBufferLength f)) as [Hpos|Hz].
      * eapply fwp_mono; [by apply (flush_run chunk)|]. intros [] s' (f1 & E & Hwf1 & _ & _ & Hfd & Hbw & _ & Hbuf & Hdel).
        destruct (Hbuf Eb) as [Ew1 Hz1]. exists f1. split_and!; try done; [by rewrite Ew1|by rewrite Hbw|by apply Hdel].
      * apply fwp_ret. exists f. split_and!; try done; [pose proof (wf_used _ Hwf); lia|by apply delivered_nil].
    + intros [] [tf k1] (f1 & E & Hfd & Hwf1 & Ew1 & Hb1 & Hz1 & Hout & Hcnt). cbn [the_file the_kernel] in *. subst tf.
      unfold free_buffer. apply fwp_bind. eapply fwp_get; [done|]. rewrite Ew1. eapply fwp_put; [done|].
      eexists. split; [done|]. cbn [fd with_buffer writtenLength the_kernel]. split; [done|].
      unfold output, counted, buffered in Hout, Hcnt. rewrite Hb1, Hz1, take_0, app_nil_r, Hfd in Hout.
      rewrite Hb1, Hz1, take_0 in Hcnt. cbn [length] in Hcnt. rewrite !Z.add_0_r in Hcnt.
      split; [by rewrite Hout, app_nil_r|]. split; [apply (wf_written _ Hwf1)|exact Hcnt].
  - intros [] [tf k1] (f1 & E & Hfd & Hc & Hw & Hu). cbn [the_file the_kernel] in *. subst tf.
    apply fwp_bind. eapply fwp_get; [done|]. cbv zeta. apply fwp_bind, fwp_sys. cbn [the_kernel the_file].
    intros status k2 Ec. pose proof (close_keeps _ _ _ _ (fd f) Ec) as Hk. destruct (status =? 0); cbn [negb].
    + apply fwp_bind. eapply fwp_put; [done|]. apply fwp_ret. split; [cbn [the_kernel]; by rewrite Hk|]. split; [done|]. split; [done|].
      intros _. by eexists.
    + apply fwp_ret. split; [cbn [the_kernel]; by rewrite Hk|]. split; [done|]. split; [done|]. cbn. by intros [=].
Qed.

(** ** Whole reports *)

(** A client that opens a file, writes sections to it and closes it. *)
Definition write_report (d : Z) (appendMode buf : bool) (sections : list (list Z * json)) : F (bool * Z) :=
  ok ← FIRCLSFileInit d appendMode buf;
  if negb ok then mret (false, 0)
  else
    all (fun s => write_section s.1 s.2) sections;;
    FIRCLSFileCloseWithOffset.

Definition report_text (sections : list (list Z * json)) : list Z := sections ≫= fun s => section_text s.1 s.2.

(** The JSON text of a report: each section is a line, an object with the section as its
    only member. *)
Definition json_lines (sections : list (list Z * json)) : list Z := sections ≫= fun s => json_text (JHash [s]) ++ [10].

Definition plain_sections (sections : list (list Z * json)) : bool :=
  forallb (fun s => plain_string s.1 && plain_json s.2) sections.

Lemma plain_section name v :
  plain_string name = true -> plain_json v = true -> section_text name v = json_text (JHash [(name, v)]) ++ [10].
Proof.
  intros Hn Hv. rewrite <- plain_text by (cbn; by rewrite Hn, Hv). unfold section_text.
  cbn [written_text map separated fst snd]. by rewrite app_nil_r, <- !app_assoc.
Qed.

Lemma plain_lines sections : plain_sections sections = true -> report_text sections = json_lines sections.
Proof.
  induction sections as [|[name v] sections IH]; [done|].
  cbn [plain_sections forallb fst snd]. intros [[Hn Hv]%andb_prop Hs]%andb_prop.
  change (section_text name v ++ report_text sections = (json_text (JHash [(name, v)]) ++ [10]) ++ json_lines sections).
  by rewrite (plain_section name v Hn Hv), (IH Hs).
Qed.

Definition report_ok (n : Z) (sections : list (list Z * json)) : Prop :=
  Forall (fun s => short n s.1 /\ writable n false s.2 /\ 1 + nesting s.2 < 2 ^ 31) sections.

Lemma sections_emits chunk n sections :
  32 <= n < 2 ^ 62 -> report_ok n sections ->
  emits chunk n (all (fun s => write_section s.1 s.2) sections) false 0 (report_text sections) false 0.
Proof.
  intros Hn. induction 1 as [|[name v] sections (Hs & Hw & Hd) Hall IH]; [apply emits_ret|].
  cbn [all fst snd] in *.
  change (report_text ((name, v) :: sections)) with (section_text name v ++ report_text sections).
  eapply emits_bind; [|by intros _].
  exact (write_section_emits chunk n Hn name v false Hs Hw Hd).
Qed.

Lemma report_run chunk n d appendMode (buf : bool) sections f0 k :
  32 <= n < 2 ^ 62 -> report_ok n sections -> 0 < chunk -> progress chunk ->
  (if buf then FIRCLSWriteBufferLength - 1 else n) <= Z.of_nat CLS_FILE_MAX_WRITE_ATTEMPTS * chunk ->
  0 <= d -> buffer_available k buf ->
  start_length k d appendMode + Z.of_nat (length (report_text sections)) < 2 ^ 63 ->
  fwp (write_report d appendMode buf sections) (FileState (Some f0) k) (fun r s' =>
    contents (the_kernel s') d = contents k d ++ report_text sections /\
    r.2 = start_length k d appendMode + Z.of_nat (length (report_text sections))).
Proof.
  intros Hn Hok Hch Hp Hfit Hd Hm Hsize. unfold write_report. apply fwp_bind.
  eapply fwp_mono; [apply init_run; (done || lia)|].
  intros ok [tf k1] (-> & f & E & Hwf & Hc & Hdp & Hfd & Hbw & Hb & Hw & Hct). cbn [the_file the_kernel negb] in *.
  subst tf. apply fwp_bind. eapply fwp_mono; [by apply (sections_emits chunk n sections Hn Hok)|].
  intros _ [tf k2] (f2 & E & Hwf2 & _ & _ & Hfd2 & Hbw2 & _ & Hdel). cbn [the_file the_kernel] in *. subst tf.
  destruct (Hdel Hch Hp ltac:(unfold fits; by rewrite Hbw)) as [Hout Hcnt].
  eapply fwp_mono; [apply (close_run chunk); (done || unfold fits; rewrite Hbw2, Hbw; destruct buf; lia)|].
  intros [ok size] s' (Hfin & Hr & Hu & _). cbn [fst snd] in *. rewrite Hfd2, Hfd in Hfin.
  unfold output, counted in *. rewrite Hb, Hfd, app_nil_r, Hct in Hout. rewrite Hfin, Hfd2, Hfd in *.
  split; [exact Hout|]. rewrite Hcnt, Hb, Hw in Hu. cbn [length] in Hu.
  assert (0 <= start_length k d appendMode) by (unfold start_length; destruct appendMode; lia).
  rewrite Z.add_0_r, (wrap_small 64 (start_length _ _ _ + _)) in Hu by lia.
  rewrite <- (to_signed_small 64 size), <- to_signed_wrap, Hu, to_signed_small by lia. done.
Qed.

End Session.
