(* ===== verification/FileTheorems.v ===== *)
(** The properties of the report file: that a report is the JSON text of its
    sections, when their strings need no escaping, that the buffer is never overrun, whatever the
    kernel does, that writes are retried, and how numbers and bytes are written; and
    the report file at concrete inputs. *)
From S2P Require Import Prelude File FileFormat FileSpec FileFormatSpec FileJson.

Section Theorems.
Context {KN : Kernel} {KS : KernelSpec}.

(** C13: a report of sections whose strings need no escaping (UTF-8 without quotation
    marks, backslashes and control characters), written with a kernel that transfers at
    least [chunk] bytes of each write, ends up in the file as the JSON text of the
    sections, a line with an object for each, behind what was there before, the same
    text whether or not the file has a buffer; and the size that closing returns is
    that of the file. *)
Theorem report_exact chunk n d appendMode (buf : bool) sections f0 k :
  32 <= n < 2 ^ 62 -> report_ok n sections -> plain_sections sections = true -> 0 < chunk -> progress chunk ->
  (if buf then FIRCLSWriteBufferLength - 1 else n) <= Z.of_nat CLS_FILE_MAX_WRITE_ATTEMPTS * chunk ->
  0 <= d -> buffer_available k buf ->
  start_length k d appendMode + Z.of_nat (length (json_lines sections)) < 2 ^ 63 ->
  exists ok s', write_report d appendMode buf sections (FileState (Some f0) k) =
      Returns (ok, start_length k d appendMode + Z.of_nat (length (json_lines sections))) s' /\
    contents (the_kernel s') d = contents k d ++ json_lines sections.
Proof.
  intros Hn Hok Hplain Hch Hp Hfit Hd Hm. rewrite <- plain_lines by done. intros Hsize.
  pose proof (report_run chunk n d appendMode buf sections f0 k Hn Hok Hch Hp Hfit Hd Hm Hsize) as H.
  unfold fwp in H. destruct (write_report _ _ _ _ _) as [[ok size] s'| |]; [|done..].
  cbn [snd] in H. destruct H as [Hc ->]. by exists ok, s'.
Qed.

(** C14: whatever the kernel does with the writes, fail, be full or stop halfway,
    writing sections to an open file returns, without an access outside the
    buffer or an overflow; the buffer is still the file's block and has room, and
    the collections are closed. *)
Theorem report_safe n sections f k :
  32 <= n < 2 ^ 62 -> report_ok n sections ->
  wf_file f -> needComma f = false -> collectionDepth f = 0 ->
  exists s' f', all (fun s => write_section s.1 s.2) sections (FileState (Some f) k) = Returns tt s' /\
    the_file s' = Some f' /\ wf_file f' /\ needComma f' = false /\ collectionDepth f' = 0 /\ fd f' = fd f.
Proof.
  intros Hn Hok Hwf Hc Hd. pose proof (sections_emits 0 n sections Hn Hok k f Hwf Hc Hd) as H.
  unfold fwp in H. destruct (all _ _ _) as [[] s'| |]; [|done..].
  destruct H as (f' & E & Hwf' & Hc' & Hd' & Hfd & _). by exists s', f'.
Qed.

(** C36: a write that is retried has put out a prefix of the bytes in order, all of
    them if and only if it says so; and it says so
    whenever fifty writes of the least size that the kernel transfers suffice. *)
Theorem write_retries_exact fd buffer n s :
  0 < n <= Z.of_nat (length buffer) -> n < 2 ^ 63 ->
  exists ok m s', FIRCLSFileWriteWithRetries fd buffer n s = Returns ok s' /\ (m <= Z.to_nat n)%nat /\
    contents (the_kernel s') fd = contents (the_kernel s) fd ++ take m buffer /\
    (ok = true <-> m = Z.to_nat n) /\
    (forall chunk, 0 < chunk -> progress chunk -> n <= 50 * chunk -> ok = true).
Proof.
  intros Hn Hlim.
  pose proof (fun chunk => write_with_retries_run chunk fd buffer n s ltac:(lia) Hlim) as H.
  unfold fwp in H. destruct (FIRCLSFileWriteWithRetries _ _ _ _) as [ok s'| |]; [|exact (False_ind _ (H 0))..].
  destruct (H 0) as (m & _ & _ & Hm & Hc & Hok & Hno & _). exists ok, m, s'. split_and!; try done.
  { destruct ok; [by split; auto|]. split; [done|]. specialize (Hno eq_refl ltac:(lia)). lia. }
  intros chunk Hch Hp Hle. destruct (H chunk) as (_ & _ & _ & _ & _ & _ & _ & Hall). apply Hall; [done..|].
  unfold CLS_FILE_MAX_WRITE_ATTEMPTS. lia.
Qed.

(** C37: every 64-bit number fits the array for its digits, in base 10 and 16: the
    text is terminated, has the value of the number, only digits of the base,
    and no zero in front; in base 10 it is the usual numeral. *)
Theorem uint64_text_exact number hex :
  0 <= number < 2 ^ 64 ->
  exists buffer i text,
    FIRCLSFilePrepareUInt64 number hex = Some (buffer, Z.of_nat i) /\
    length buffer = FIRCLSUInt64StringBufferLength /\ drop i buffer = text ++ [0] /\
    value (if hex then 16 else 10) text = number /\
    Forall (is_digit (if hex then 16 else 10)) text /\ (head text <> Some 48 \/ text = [48]) /\
    (hex = false -> text = decimal number).
Proof.
  intros Hn. destruct (prepare_run number hex Hn) as (buffer & i & text & E & Ed & Hl & _ & [Hv Hd Hf _] & Hdec).
  exists buffer, i, text. by split_and!.
Qed.

(** less than 2^30 bytes without a 0 that are encoded in hexadecimal are decoded to
    themselves, in a buffer that is filled up with zeros. *)
Theorem hex_roundtrip s :
  Forall is_byte s -> 0 ∉ s -> Z.of_nat (length s) < 2 ^ 30 ->
  exists text, FIRCLSFileHexEncodeString (c_string s) = Some text /\
    FIRCLSFileHexDecodeString text = Some (s ++ replicate (length s) 0).
Proof.
  intros Hb H0 Hl. exists (c_string (hex_text s)). split; [by apply hex_encode_run|].
  rewrite hex_decode_run by done. unfold padded. do 2 f_equal. f_equal. lia.
Qed.

End Theorems.

(** ** Kernels *)

(** The files' contents by descriptor; a write transfers at most [most] bytes, as
    long as a file has no more than [quota] bytes, and fails when it can transfer
    none. Closing fails when [closes] says so. *)
Notation disk := (gmap Z (list Z)).

Definition on_disk (k : disk) (d : Z) : list Z := default [] (k !! d).

Definition accepted (most : Z) (quota : option Z) (d : Z) (bs : list Z) (k : disk) : Z :=
  let n := Z.min (Z.of_nat (length bs)) most in
  match quota with None => n | Some q => Z.min n (Z.max 0 (q - Z.of_nat (length (on_disk k d)))) end.

Definition disk_write (most : Z) (quota : option Z) (d : Z) (bs : list Z) (k : disk) : Z * disk :=
  let n := accepted most quota d bs k in
  if (n <=? 0) && (0 <? Z.of_nat (length bs)) then (-1, k)
  else (n, <[d := on_disk k d ++ take (Z.to_nat n) bs]> k).

Definition disk_kernel (most : Z) (quota : option Z) (closes : bool) : Kernel := {|
  kernel := disk;
  O_WRONLY := 1;
  O_CREAT := 0x200;
  O_APPEND := 8;
  O_TRUNC := 0x400;
  sys_open _ _ k := (3, k);
  sys_size d k := Z.of_nat (length (on_disk k d));
  sys_write := disk_write most quota;
  sys_close _ k := (if closes then 0 else -1, k);
  sys_malloc n k := (Some (replicate (Z.to_nat n) 0), k);
  uninit n := replicate n 0xAA
|}.

Lemma disk_write_appends most quota d bs k n k' :
  disk_write most quota d bs k = (n, k') ->
  n <= Z.of_nat (length bs) /\ on_disk k' d = on_disk k d ++ take (Z.to_nat n) bs.
Proof.
  unfold disk_write. cbv zeta. destruct (_ && _) eqn:E; intros [= <- <-].
  - split; [lia|]. by rewrite app_nil_r.
  - split; [unfold accepted; cbv zeta; destruct quota; lia|]. unfold on_disk at 1. by rewrite lookup_insert_eq.
Qed.

Definition disk_spec most quota closes : @KernelSpec (disk_kernel most quota closes).
Proof.
  refine (Build_KernelSpec (disk_kernel most quota closes) on_disk (disk_write_appends most quota) _ _ _ _ _).
  - intros n k block k' Hn [= <- <-]. rewrite length_replicate. lia.
  - by intros n k block k' d [= <- <-].
  - done.
  - by intros d k st k' d' [= <- <-].
  - intros n. apply length_replicate.
Defined.

(** Writes of 20 bytes, which is enough for a buffer of 1000 bytes. *)
#[local] Instance slow : Kernel := disk_kernel 20 None true.
#[local] Instance slow_spec : KernelSpec := disk_spec 20 None true.

Lemma slow_progress : progress 20.
Proof.
  intros d bs k n k' E. cbn in E. unfold disk_write in E. cbv zeta in E.
  destruct (_ && _) eqn:Eb; injection E as <- <-; unfold accepted in *; [|lia].
  apply andb_true_iff in Eb as [H1%Z.leb_le H2%Z.ltb_lt]. lia.
Qed.

(** ** A report *)

(** What the file is before it is opened. *)
Definition ex_closed : FIRCLSFile := File (-1) 0 false false NoBuffer 0 0.

Definition ex_disk : disk := {[ 3 := chars "{}" ]}.

Definition ex_sections : list (list Z * json) := [
  (chars "identity", JHash [(chars "api_key", JString (chars "0123456789")); (chars "started_at", JUint 1600000000)]);
  (chars "threads", JArray [JHash [(chars "crashed", JBool true); (chars "offset", JInt (-16));
                                   (chars "stacktrace", JArray [JUint 4294983680; JUint 18446744073709551615])];
                            JNull; JHex [0x66; 0xC3]])
].

Definition ex_text : list Z := chars
  "{'identity':{'api_key':'0123456789','started_at':1600000000}}|{'threads':[{'crashed':true,'offset':-16,'stacktrace':[4294983680,18446744073709551615]},null,'66c3']}|".

(** The text above with quotation marks and newlines. *)
Definition ex_marks (c : Z) : Z := if c =? 39 then 34 else if c =? 124 then 10 else c.

Lemma ex_sections_ok : report_ok 1000 ex_sections.
Proof.
  repeat constructor; cbn; try lia; try done; by apply (bool_decide_unpack _).
Qed.

Lemma ex_json_lines : json_lines ex_sections = ex_marks <$> ex_text.
Proof. by vm_compute. Qed.

Lemma report_exact_witness : exists ok s',
  write_report (KN := slow) 3 true true ex_sections (FileState (Some ex_closed) ex_disk) = Returns (ok, 167) s' /\
  on_disk (the_kernel s') 3 = chars "{}" ++ (ex_marks <$> ex_text).
Proof.
  destruct (report_exact (KN := slow) (KS := slow_spec) 20 1000 3 true true ex_sections ex_closed ex_disk) as (ok & s' & E & Hc);
    [done|exact ex_sections_ok|reflexivity|done|exact slow_progress|done|done|by intros _; eexists _, _|by vm_compute|].
  exists ok, s'. rewrite ex_json_lines in *. split; [exact E|exact Hc].
Defined.

(** The same text without a buffer. *)
Lemma ex_unbuffered :
  match write_report (KN := slow) 3 true false ex_sections (FileState (Some ex_closed) ex_disk) with
  | Returns r s => r = (true, 167) /\ on_disk (the_kernel s) 3 = chars "{}" ++ (ex_marks <$> ex_text)
  | _ => False
  end.
Proof. by vm_compute. Qed.

(** ** A disk that is full *)

(** An open file with a buffer, and a disk that takes 40 bytes. *)
Definition ex_open : FIRCLSFile := File 3 0 false true (Buffer (replicate 1000 0)) 0 0.

Lemma ex_open_wf : wf_file ex_open.
Proof. split; [|done|done]. intros _. by eexists. Qed.

Definition tight : Kernel := disk_kernel 20 (Some 40) true.

Lemma report_safe_witness : exists s' f',
  all (KN := tight) (fun s => write_section s.1 s.2) (ex_sections ++ ex_sections) (FileState (KN := tight) (Some ex_open) ex_disk) =
    Returns tt s' /\ the_file s' = Some f' /\ wf_file f' /\ needComma f' = false.
Proof.
  destruct (report_safe (KN := tight) (KS := disk_spec 20 (Some 40) true) 1000 (ex_sections ++ ex_sections) ex_open ex_disk)
    as (s' & f' & E & Ef & Hwf & Hc & _); [done|by apply Forall_app; split; apply ex_sections_ok|apply ex_open_wf|done|done|].
  exists s', f'. split; [exact E|]. split; [exact Ef|]. split; [exact Hwf|exact Hc].
Defined.

(** The file has the 40 bytes, and does not count those of the write that failed
    halfway. *)
Lemma ex_full :
  match write_report (KN := tight) 3 true true ex_sections (FileState (KN := tight) (Some ex_closed) ex_disk) with
  | Returns r s => r = (true, 2) /\ on_disk (the_kernel s) 3 = chars "{}" ++ take 38 (ex_marks <$> ex_text)
  | _ => False
  end.
Proof. by vm_compute. Qed.

Lemma write_retries_exact_witness : exists ok m s',
  FIRCLSFileWriteWithRetries (KN := slow) 3 (chars "a report of more than 20 bytes") 30 (FileState (KN := slow) None ex_disk) = Returns ok s' /\
  on_disk (the_kernel s') 3 = chars "{}" ++ take m (chars "a report of more than 20 bytes") /\ ok = true /\ m = 30%nat.
Proof.
  destruct (write_retries_exact (KN := slow) (KS := slow_spec) 3 (chars "a report of more than 20 bytes") 30 (FileState (KN := slow) None ex_disk))
    as (ok & m & s' & E & Hm & Hc & Hok & Hall); [done|done|].
  specialize (Hall 20 ltac:(done) slow_progress ltac:(done)). exists ok, m, s'.
  split; [exact E|]. split; [exact Hc|]. split; [exact Hall|]. by apply Hok.
Defined.

(** ** Numbers and bytes *)

Lemma uint64_text_exact_witness : exists buffer i text,
  FIRCLSFilePrepareUInt64 18446744073709551615 false = Some (buffer, Z.of_nat i) /\ drop i buffer = text ++ [0] /\
  text = chars "18446744073709551615".
Proof.
  destruct (uint64_text_exact 18446744073709551615 false) as (buffer & i & text & E & _ & Ed & _ & _ & _ & Et); [done|].
  exists buffer, i, text. split; [exact E|]. split; [exact Ed|]. by rewrite (Et eq_refl).
Defined.

Lemma ex_hex_number :
  (fun '(b, i) => drop (Z.to_nat i) b) <$> FIRCLSFilePrepareUInt64 0xDEADBEEF true = Some (chars "deadbeef" ++ [0]).
Proof. by vm_compute. Qed.

Lemma hex_roundtrip_witness : exists text,
  FIRCLSFileHexEncodeString [0x4D; 0xC3; 0xA9; 0] = Some text /\
  FIRCLSFileHexDecodeString text = Some [0x4D; 0xC3; 0xA9; 0; 0; 0].
Proof.
  apply (hex_roundtrip [0x4D; 0xC3; 0xA9]); [by repeat constructor|by apply (bool_decide_unpack _)|done].
Defined.

(** ** Where the hypotheses are needed *)

(** The smallest number is not negated: [number *= -1] overflows. *)
Lemma ex_smallest :
  FIRCLSFileWriteInt64 (KN := slow) (- 2 ^ 63) (FileState (KN := slow) (Some ex_open) ex_disk) = Undefined.
Proof. by vm_compute. Qed.

(** A string is written as it is, also with a quotation mark, which ends it for
    the reader. *)
Lemma ex_not_escaped :
  match FIRCLSFileWriteString (KN := slow) (Some [97; 34; 98; 0])
      (FileState (KN := slow) (Some (File 3 0 false false NoBuffer 0 0)) ex_disk) with
  | Returns _ s => on_disk (the_kernel s) 3 = chars "{}" ++ [34; 97; 34; 98; 34]
  | _ => False
  end.
Proof. by vm_compute. Qed.

(** The JSON text of such a string, and of one with a newline, is another one; a byte
    that is not UTF-8 has none. *)
Example ex_escapes :
  json_text (JArray [JString [97; 34; 98]; JString [10; 92]]) =
    [91; 34; 97; 92; 34; 98; 34; 44; 34; 92; 117; 48; 48; 48; 97; 92; 92; 34; 93] /\
  plain_json (JString [97; 34; 98]) = false /\ plain_json (JString [10]) = false /\
  plain_string [0xC3; 0xA9; 0xF0; 0x9F; 0x98; 0x80] = true /\ plain_string [0xC3] = false /\ plain_string [0xED; 0xA0; 0x80] = false.
Proof. by vm_compute. Qed.

(** When [close] fails, the file keeps the buffer that was freed: closing it once
    more frees it again. *)
Lemma ex_close_twice :
  (FIRCLSFileClose (KN := disk_kernel 20 None false);; FIRCLSFileClose (KN := disk_kernel 20 None false))
    (FileState (KN := disk_kernel 20 None false) (Some ex_open) ex_disk) = Undefined.
Proof. by vm_compute. Qed.

(** The buffer for the bytes of an empty string has no byte for a terminator. *)
Lemma ex_decode_nothing : FIRCLSFileHexDecodeString [0] = Some [].
Proof. by vm_compute. Qed.
