(* ===== verification/Log.v ===== *)
(** Crashlytics' log of its own (Helpers/FIRCLSInternalLogging.c): messages are
    formatted without the C library, since a handler of a crash may log, and written
    byte by byte to a file that is opened once.

    The branch that uses vfprintf is switched off in the source. *)
From S2P Require Import Prelude File FileFormat FileSpec FileFormatSpec FileTheorems.

(** ** The log *)

(** An argument of the call: an [int], a pointer's bits, or a string. *)
Inductive log_arg :=
  | IntArg (v : Z)
  | PointerArg (v : Z)
  | StringArg (s : option (list Z)).

(** [internalLogging] of the writable context, and whether the block of
    [dispatch_once] has run. *)
Record log_state := LogState { logFd : Z; log_logLevel : Z; once_done : bool }.

Section Log.
Context {KN : Kernel}.

(** [write], whose result is not looked at. *)
Definition write_only (fd : Z) (bytes : list Z) : F unit := _ ← sys (sys_write fd bytes); mret tt.

(** [va_arg(args, type)]; an argument of another type is undefined. *)
Definition next_int (args : list log_arg) : F (Z * list log_arg) :=
  match args with IntArg v :: args => mret (v, args) | _ => undefined end.
Definition next_pointer (args : list log_arg) : F (Z * list log_arg) :=
  match args with PointerArg v :: args => mret (v, args) | _ => undefined end.
Definition next_string (args : list log_arg) : F (option (list Z) * list log_arg) :=
  match args with StringArg s :: args => mret (s, args) | _ => undefined end.

(** [switch (format[idx])]: returns the arguments that are left. *)
Definition write_argument (fd : Z) (format : list Z) (idx : nat) (args : list log_arg) : F (list log_arg) :=
  c ← or_undefined (format !! idx);
  if c =? 100 then
    '(value, args) ← next_int args;
    FIRCLSFileFDWriteInt64 fd (s32 value);;
    mret args
  else if c =? 117 then
    '(value, args) ← next_int args;
    FIRCLSFileFDWriteUInt64 fd (u32 value) false;;
    mret args
  else if c =? 112 then
    '(value, args) ← next_pointer args;
    write_only fd (chars "0x");;
    FIRCLSFileFDWriteUInt64 fd (u64 value) true;;
    mret args
  else if c =? 115 then
    '(string, args) ← next_string args;
    let string := default (literal "(null)") string in
    length ← strlen string;
    write_only fd (take (Z.to_nat length) string);;
    mret args
  else if c =? 120 then
    '(value, args) ← next_int args;
    FIRCLSFileFDWriteUInt64 fd (u32 value) true;;
    mret args
  else
    percent ← or_undefined (format !! pred idx);
    write_only fd [percent; c];;
    mret args.

(** [for (size_t idx = 0; idx < formatLength; ++idx)] with the rounds that are left. *)
Fixpoint log_loop (rounds : nat) (fd : Z) (format : list Z) (formatLength idx : nat) (args : list log_arg) : F unit :=
  match rounds with
  | O => exhausted
  | S rounds =>
      if negb (idx <? formatLength)%nat then mret tt
      else
        c ← or_undefined (format !! idx);
        if negb (c =? 37) then
          write_only fd [c];;
          log_loop rounds fd format formatLength (S idx) args
        else
          args ← write_argument fd format (S idx) args;
          log_loop rounds fd format formatLength (S (S idx)) args
  end.

(** [path] is [_firclsContext.readonly->logPath], [None] when it is not valid; [log] is
    [None] when the contexts are not set up. *)
Definition FIRCLSSDKFileLog (path : option (list Z)) (log : option log_state) (level : Z) (format : list Z)
    (args : list log_arg) : F (option log_state) :=
  match log, path with
  | Some log, Some path =>
      if level <? log_logLevel log then mret (Some log)
      else
        log ← (if once_done log then mret log
               else if logFd log =? -1 then
                 fd ← sys (sys_open path (Z.lor (Z.lor O_WRONLY O_CREAT) O_APPEND));
                 mret (LogState fd (log_logLevel log) true)
               else mret (LogState (logFd log) (log_logLevel log) true));
        let fd := logFd log in
        if fd <? 0 then mret (Some log)
        else
          formatLength ← strlen format;
          log_loop (S (Z.to_nat formatLength)) fd format (Z.to_nat formatLength) 0 args;;
          mret (Some log)
  | _, _ => mret log
  end.

End Log.

(** ** The text of a message *)

(** The modifiers of 64-bit conversions. *)
Definition modifiers : list (list Z) := [chars "l"; chars "ll"; chars "z"].

(** [formatted format args text]: [text] is what printf makes of a format and its
    arguments; an argument of 64 bits, be it a pointer or a number, is a [PointerArg]. *)
Inductive formatted : list Z -> list log_arg -> list Z -> Prop :=
  | formatted_end args : formatted [] args []
  | formatted_char c format args text : c <> 37 -> formatted format args text -> formatted (c :: format) args (c :: text)
  | formatted_percent format args text : formatted format args text -> formatted (37 :: 37 :: format) args (37 :: text)
  | formatted_signed v format args text :
      formatted format args text -> formatted (37 :: 100 :: format) (IntArg v :: args) (signed_decimal (s32 v) ++ text)
  | formatted_unsigned v format args text :
      formatted format args text -> formatted (37 :: 117 :: format) (IntArg v :: args) (decimal (u32 v) ++ text)
  | formatted_hex v digits format args text :
      numeral 16 (u32 v) digits -> formatted format args text -> formatted (37 :: 120 :: format) (IntArg v :: args) (digits ++ text)
  | formatted_long m v format args text :
      m ∈ modifiers -> formatted format args text ->
      formatted (37 :: m ++ 100 :: format) (PointerArg v :: args) (signed_decimal (s64 v) ++ text)
  | formatted_unsigned_long m v format args text :
      m ∈ modifiers -> formatted format args text ->
      formatted (37 :: m ++ 117 :: format) (PointerArg v :: args) (decimal (u64 v) ++ text)
  | formatted_hex_long m v digits format args text :
      m ∈ modifiers -> numeral 16 (u64 v) digits -> formatted format args text ->
      formatted (37 :: m ++ 120 :: format) (PointerArg v :: args) (digits ++ text)
  | formatted_pointer v digits format args text :
      numeral 16 (u64 v) digits -> formatted format args text ->
      formatted (37 :: 112 :: format) (PointerArg v :: args) (chars "0x" ++ digits ++ text)
  | formatted_string s rest format args text :
      0 ∉ s -> formatted format args text ->
      formatted (37 :: 115 :: format) (StringArg (Some (s ++ 0 :: rest)) :: args) (s ++ text)
  | formatted_null format args text :
      formatted format args text -> formatted (37 :: 115 :: format) (StringArg None :: args) (chars "(null)" ++ text).

(** A C string of at most [n] bytes. *)
Definition string_fits (n : Z) (string : list Z) : bool :=
  match list_find (eq 0) string with Some (i, _) => Z.of_nat i <=? n | None => false end.

(** The format has no conversions but %d, %u, %x, %p and %s, which are those the log
    knows; the arguments have their types, and the strings at most [n] bytes. *)
Fixpoint typed (n : Z) (format : list Z) (args : list log_arg) : bool :=
  match format with
  | [] => true
  | percent :: format =>
      if percent =? 37 then
        match format with
        | [] => false
        | c :: format =>
            if c =? 112 then match args with PointerArg _ :: args => typed n format args | _ => false end
            else if c =? 115 then
              match args with
              | StringArg s :: args => default true (string_fits n <$> s) && typed n format args
              | _ => false
              end
            else if (c =? 100) || (c =? 117) || (c =? 120) then
              match args with IntArg _ :: args => typed n format args | _ => false end
            else false
        end
      else typed n format args
  end.

(** A call of the log: the level, the format and the arguments. *)
Record message := Message { level : Z; format : list Z; arguments : list log_arg }.

(** The text of the messages that reach the level of the log. *)
Inductive transcript (lowest : Z) : list message -> list Z -> Prop :=
  | transcript_nil : transcript lowest [] []
  | transcript_hidden m ms text : level m < lowest -> transcript lowest ms text -> transcript lowest (m :: ms) text
  | transcript_shown m ms f rest t text :
      lowest <= level m -> format m = (f ++ 0 :: rest) -> 0 ∉ f -> formatted f (arguments m) t -> transcript lowest ms text ->
      transcript lowest (m :: ms) (t ++ text).

Definition readable (n : Z) (m : message) : Prop :=
  exists f rest, format m = (f ++ 0 :: rest) /\ (0 ∉ f) /\ typed n f (arguments m) = true.

Section Runs.
Context {KN : Kernel}.

(** The calls of the log that the program makes, one after the other. *)
Fixpoint log_all (path : option (list Z)) (log : option log_state) (messages : list message) : F (option log_state) :=
  match messages with
  | [] => mret log
  | m :: messages =>
      log ← FIRCLSSDKFileLog path log (level m) (format m) (arguments m);
      log_all path log messages
  end.

(** The descriptor of the log once a message was let through, and the kernel when it
    was opened. *)
Definition log_opened (path : list Z) (log : log_state) (k : kernel) : Z * kernel :=
  if negb (once_done log) && (logFd log =? -1) then sys_open path (Z.lor (Z.lor O_WRONLY O_CREAT) O_APPEND) k
  else (logFd log, k).

End Runs.

Section Written.
Context {KN : Kernel} {KS : KernelSpec}.
Context (chunk : Z) (Hch : 6 <= chunk) (Hp : progress chunk) (fd : Z).

(** [m] appends some text that satisfies [T] to the file of the log, and gives [a]. *)
Definition appends {A} (m : F A) (a : A) (T : list Z -> Prop) : Prop := forall s,
  fwp m s (fun b s' => b = a /\ the_file s' = the_file s /\ exists text, T text /\
    contents (the_kernel s') fd = contents (the_kernel s) fd ++ text).

Lemma appends_ret {A} (a : A) : appends (mret a) a (fun t => t = []).
Proof. intros s. apply fwp_ret. split; [done|]. split; [done|]. exists []. by rewrite app_nil_r. Qed.

Lemma appends_bind {A B} (m : F A) (k : A -> F B) a b T U :
  appends m a T -> appends (k a) b U -> appends (m ≫= k) b (fun t => exists t1 t2, T t1 /\ U t2 /\ t = t1 ++ t2).
Proof.
  intros Hm Hk s. apply fwp_bind. eapply fwp_mono; [apply Hm|]. intros ? s1 (-> & Ef & t1 & Ht1 & E1).
  eapply fwp_mono; [apply Hk|]. intros ? s2 (-> & Ef2 & t2 & Ht2 & E2). split; [done|]. split; [congruence|].
  exists (t1 ++ t2). split; [by exists t1, t2|]. by rewrite E2, E1, app_assoc.
Qed.

Lemma appends_mono {A} (m : F A) a (T U : list Z -> Prop) : appends m a T -> (forall t, T t -> U t) -> appends m a U.
Proof.
  intros Hm HU s. eapply fwp_mono; [apply Hm|]. intros b s' (-> & Ef & t & Ht & E). split_and!; try done. exists t. by split; [apply HU|].
Qed.

Lemma appends_ext {A} (m m' : F A) a T : (forall s, m s = m' s) -> appends m' a T -> appends m a T.
Proof. intros E H s. unfold fwp. rewrite E. apply H. Qed.

Lemma appends_some {A B} (x : A) (k : A -> F B) b T : appends (k x) b T -> appends (or_undefined (Some x) ≫= k) b T.
Proof. intros H. by eapply appends_ext. Qed.

Lemma write_only_appends bytes : Z.of_nat (length bytes) <= chunk -> appends (write_only fd bytes) tt (fun t => t = bytes).
Proof.
  intros Hl s. unfold write_only. apply fwp_bind, fwp_sys. intros n k' E. apply fwp_ret. split; [done|]. split; [done|].
  exists bytes. split; [done|]. cbn [the_kernel]. destruct (write_appends _ _ _ _ _ E) as [Hle ->].
  pose proof (Hp _ _ _ _ _ E). rewrite take_ge; [done|lia].
Qed.

Lemma number_appends number hex :
  0 <= number < 2 ^ 64 ->
  appends (FIRCLSFileFDWriteUInt64 fd number hex) tt
    (fun t => numeral (if hex then 16 else 10) number t /\ (hex = false -> t = decimal number)).
Proof.
  intros Hn s. destruct (prepare_run number hex Hn) as (buffer & i & text & E & Ed & _ & Hl & Ht & Hdec).
  assert (H0 := numeral_no_zero _ _ _ Ht).
  unfold FIRCLSFileFDWriteUInt64, prepared. do 2 apply fwp_bind. eapply fwp_some; [exact E|]. cbv beta iota zeta. rewrite Nat2Z.id, Ed.
  apply fwp_bind. unfold fwp at 1. rewrite c_strlen_run by done. apply fwp_ret, fwp_bind.
  eapply fwp_mono; [apply (write_with_retries_run chunk); rewrite ?length_app; lia|].
  intros ok s' (m & Ef & _ & Hm & Hc & Hok & _ & Hall). apply fwp_ret. split; [done|]. split; [done|]. exists text. split; [done|].
  pose proof (numeral_some _ _ _ Ht) as Hne. assert (Hpos : (0 < length text)%nat) by (destruct text; cbn; [done|lia]).
  assert (m = length text) as ->.
  { rewrite Hok; [lia|]. apply Hall; [lia|done|unfold CLS_FILE_MAX_WRITE_ATTEMPTS; lia]. }
  by rewrite Hc, take_app_length.
Qed.

Lemma minus_appends k a T :
  appends k a T ->
  appends (FIRCLSFileWriteWithRetries fd (literal "-") 1;; k) (a : unit) (fun t => exists t', T t' /\ t = 45 :: t').
Proof.
  intros Hk s. apply fwp_bind. eapply fwp_mono; [apply (write_with_retries_run chunk); cbn; lia|].
  intros ok s1 (m & Ef & _ & Hm & Hc & Hok & _ & Hall).
  rewrite (Hok ltac:(apply Hall; [lia|done|unfold CLS_FILE_MAX_WRITE_ATTEMPTS; lia])) in Hc.
  eapply fwp_mono; [apply Hk|]. intros ? s2 (-> & Ef2 & t & Ht & Hc2). split; [done|]. split; [congruence|].
  exists (45 :: t). split; [by exists t|]. rewrite Hc2, Hc, <- app_assoc. done.
Qed.

Lemma signed_appends number :
  - 2 ^ 63 < number < 2 ^ 63 -> appends (FIRCLSFileFDWriteInt64 fd number) tt (fun t => t = signed_decimal number).
Proof.
  intros Hn. unfold FIRCLSFileFDWriteInt64, signed_decimal. destruct (Z.ltb_spec number 0) as [Hneg|Hpos].
  - unfold negate. rewrite (proj2 (Z.eqb_neq _ _)) by lia.
    apply (appends_ext _ (FIRCLSFileWriteWithRetries fd (literal "-") 1;; FIRCLSFileFDWriteUInt64 fd (- number) false)).
    { intros s. unfold mbind, F_bind. destruct (FIRCLSFileWriteWithRetries _ _ _ s); [|done..]. cbn [mret F_ret].
      by rewrite wrap_small by lia. }
    eapply appends_mono; [apply minus_appends, (number_appends (- number) false); lia|].
    intros t (t' & [_ Ht] & ->). by rewrite Ht.
  - apply (appends_ext _ (FIRCLSFileFDWriteUInt64 fd number false)).
    { intros s. unfold mbind, F_bind. cbn [mret F_ret]. by rewrite wrap_small by lia. }
    eapply appends_mono; [apply (number_appends number false); lia|]. intros t [_ Ht]. by apply Ht.
Qed.

(** ** The loop *)

Lemma typed_percent n c format args :
  typed n (37 :: c :: format) args =
    (if c =? 112 then match args with PointerArg _ :: args => typed n format args | _ => false end
     else if c =? 115 then
       match args with StringArg s :: args => default true (string_fits n <$> s) && typed n format args | _ => false end
     else if (c =? 100) || (c =? 117) || (c =? 120) then
       match args with IntArg _ :: args => typed n format args | _ => false end
     else false).
Proof. done. Qed.

Lemma string_fits_short n bs : string_fits n bs = true -> exists t rest, bs = t ++ 0 :: rest /\ short n t.
Proof.
  unfold string_fits. destruct (list_find (eq 0) bs) as [[i x]|] eqn:E; [|done]. intros Hi%Z.leb_le.
  apply list_find_Some in E as (Hx & <- & Hbefore). exists (take i bs), (drop (S i) bs). pose proof (lookup_lt_Some _ _ _ Hx).
  split; [by rewrite take_drop_middle|]. split; [|rewrite length_take; lia].
  intros Hin. apply list_elem_of_lookup in Hin as [j Hj]. rewrite lookup_take in Hj. case_decide; [|done]. by apply (Hbefore j 0).
Qed.

Lemma conversion_appends {A} (m : F (list A)) (w : F unit) (args : list A) T (U : list Z -> Prop) :
  (forall s, m s = (w;; mret args) s) -> appends w tt T -> (forall t, T t -> U t) -> appends m args U.
Proof.
  intros E Hw HU. eapply appends_ext; [exact E|]. eapply appends_mono; [eapply appends_bind; [exact Hw|apply appends_ret]|].
  intros t (t1 & ? & Ht1 & -> & ->). rewrite app_nil_r. by apply HU.
Qed.

Lemma string_written (t rest : list Z) (args : list log_arg) s :
  0 ∉ t -> (length ← strlen (t ++ 0 :: rest); write_only fd (take (Z.to_nat length) (t ++ 0 :: rest));; mret args) s =
           (write_only fd t;; mret args) s.
Proof. intros H0. unfold mbind at 1, F_bind at 1. rewrite c_strlen_run by done. by rewrite Nat2Z.id, take_app_length. Qed.

(** A conversion writes its argument. *)
Lemma argument_appends format idx c f args :
  format !! idx = Some c -> typed chunk (37 :: c :: f) args = true ->
  exists args', typed chunk f args' = true /\
    appends (write_argument fd format idx args) args' (fun t => forall text, formatted f args' text -> formatted (37 :: c :: f) args (t ++ text)).
Proof.
  intros Hc. rewrite typed_percent. intros Ht.
  assert (c = 100 \/ c = 117 \/ c = 112 \/ c = 115 \/ c = 120) as [-> | [-> | [-> | [-> | ->]]]]
    by (destruct (Z.eqb_spec c 112), (Z.eqb_spec c 115), (Z.eqb_spec c 100), (Z.eqb_spec c 117), (Z.eqb_spec c 120); cbn in Ht; tauto || done);
    revert Ht;
    cbn [Z.eqb Pos.eqb orb]; intros Ht; destruct args as [|[v|v|s] args]; try done; eexists; (split; [first [exact Ht|exact (proj2 (proj1 (andb_true_iff _ _) Ht))]|]);
    unfold write_argument; rewrite Hc.
  - eapply conversion_appends; [intros s; reflexivity|apply signed_appends; pose proof (to_signed_bounds 32 v); lia|].
    intros t -> text. by apply formatted_signed.
  - eapply conversion_appends; [intros s; reflexivity|apply number_appends; pose proof (wrap_bounds 32 v); lia|].
    intros t [_ Hd] text. rewrite (Hd eq_refl). by apply formatted_unsigned.
  - eapply (conversion_appends _ (write_only fd (chars "0x");; FIRCLSFileFDWriteUInt64 fd (u64 v) true)).
    + intros s. unfold mbind, F_bind. cbn [next_pointer mret F_ret or_undefined Z.eqb Pos.eqb].
      by destruct (write_only fd (chars "0x") s).
    + eapply appends_bind; [apply write_only_appends; cbn; lia|apply number_appends; pose proof (wrap_bounds 64 v); lia].
    + intros t (? & digits & -> & [Hd _] & ->) text. rewrite <- app_assoc. by apply formatted_pointer.
  - apply andb_true_iff in Ht as [Hs _]. destruct s as [bs|]; [apply string_fits_short in Hs as (t & rest & -> & H0 & Hl)|].
    + eapply (conversion_appends _ (write_only fd t)); [|apply write_only_appends; lia|intros ? -> text; by apply formatted_string].
      intros s. apply string_written, H0.
    + eapply (conversion_appends _ (write_only fd (chars "(null)"))); [intros s; reflexivity|apply write_only_appends; cbn; lia|].
      intros ? -> text. by apply formatted_null.
  - eapply conversion_appends; [intros s; reflexivity|apply number_appends; pose proof (wrap_bounds 32 v); lia|].
    intros t [Hd _] text. by apply formatted_hex.
Qed.

Lemma log_loop_appends rounds : forall pre f rest args,
  typed chunk f args = true -> (length f < rounds)%nat ->
  appends (log_loop rounds fd (pre ++ f ++ 0 :: rest) (length pre + length f) (length pre) args) tt (formatted f args).
Proof.
  induction rounds as [|rounds IH]; intros pre f rest args Ht Hr; [lia|]. cbn [log_loop]. destruct f as [|c f].
  { rewrite Nat.add_0_r, Nat.ltb_irrefl. eapply appends_mono; [apply appends_ret|]. intros ? ->. constructor. }
  cbn [length] in Hr |- *. rewrite (proj2 (Nat.ltb_lt _ _)) by lia. cbn [negb typed app] in Ht |- *.
  rewrite list_lookup_middle by done. apply appends_some.
  destruct (Z.eqb_spec c 37) as [->|Hn].
  - destruct f as [|d f]; [done|].
    destruct (argument_appends (pre ++ 37 :: (d :: f) ++ 0 :: rest) (S (length pre)) d f args) as (args' & Ht' & Ha).
    + rewrite lookup_app_r by lia. by replace (S (length pre) - length pre)%nat with 1%nat by lia.
    + exact Ht.
    + eapply appends_mono; [eapply appends_bind; [exact Ha|]|].
      { specialize (IH (pre ++ [37; d]) f rest args' Ht'). rewrite length_app, <- app_assoc in IH. cbn [length app] in IH, Hr |- *.
        replace (length pre + S (S (length f)))%nat with (length pre + 2 + length f)%nat by lia.
        replace (S (S (length pre))) with (length pre + 2)%nat by lia. apply IH. lia. }
      intros t (t1 & t2 & H1 & H2 & ->). by apply H1.
  - eapply appends_mono; [eapply appends_bind; [apply write_only_appends; cbn; lia|]|].
    + specialize (IH (pre ++ [c]) f rest args Ht). rewrite length_app, <- app_assoc in IH. cbn [length app] in IH.
      replace (length pre + S (length f))%nat with (length pre + 1 + length f)%nat by lia.
      replace (S (length pre)) with (length pre + 1)%nat by lia. apply IH. lia.
    + intros t (? & u & -> & Hu & ->). by apply formatted_char.
Qed.

Lemma loop_written f rest args file k :
  0 ∉ f -> typed chunk f args = true ->
  exists text k', formatted f args text /\ contents k' fd = contents k fd ++ text /\
    (formatLength ← strlen (f ++ 0 :: rest);
     log_loop (S (Z.to_nat formatLength)) fd (f ++ 0 :: rest) (Z.to_nat formatLength) 0 args) (FileState file k) =
    Returns tt (FileState file k').
Proof.
  intros H0 Ht. unfold mbind, F_bind. rewrite c_strlen_run by done. rewrite Nat2Z.id.
  pose proof (log_loop_appends (S (length f)) [] f rest args Ht ltac:(lia) (FileState file k)) as H. unfold fwp in H. cbn [length app Nat.add] in H.
  destruct (log_loop _ _ _ _ _ _ _) as [[] [file' k']| |]; [|done..].
  destruct H as (_ & Ef & text & Hl & E). cbn in Ef, E. subst file'. by exists text, k'.
Qed.

End Written.

Section Lines.
Context {KN : Kernel} {KS : KernelSpec}.
Context (chunk : Z) (Hch : 6 <= chunk) (Hp : progress chunk) (path : list Z).

Lemma message_hidden log m file k :
  level m < log_logLevel log ->
  FIRCLSSDKFileLog (Some path) (Some log) (level m) (format m) (arguments m) (FileState file k) = Returns (Some log) (FileState file k).
Proof. intros H. unfold FIRCLSSDKFileLog. by rewrite (proj2 (Z.ltb_lt _ _) H). Qed.

(** A message that is let through: the log is open, and holds the text of the message
    after what it held, unless it could not be opened. *)
Lemma message_shown log m file k :
  log_logLevel log <= level m -> readable chunk m ->
  exists k', FIRCLSSDKFileLog (Some path) (Some log) (level m) (format m) (arguments m) (FileState file k) =
      Returns (Some (LogState (log_opened path log k).1 (log_logLevel log) true)) (FileState file k') /\
    ((log_opened path log k).1 < 0 -> k' = (log_opened path log k).2) /\
    (0 <= (log_opened path log k).1 -> exists f rest text, format m = (f ++ 0 :: rest) /\ (0 ∉ f) /\ formatted f (arguments m) text /\
      contents k' (log_opened path log k).1 = contents (log_opened path log k).2 (log_opened path log k).1 ++ text).
Proof.
  intros Hl (f & rest & Ef & H0 & Ht).
  assert (Eo : (if once_done log then mret log
     else if logFd log =? -1 then
       fd ← sys (sys_open path (Z.lor (Z.lor O_WRONLY O_CREAT) O_APPEND)); mret (LogState fd (log_logLevel log) true)
     else mret (LogState (logFd log) (log_logLevel log) true)) (FileState file k) =
    Returns (LogState (log_opened path log k).1 (log_logLevel log) true) (FileState file (log_opened path log k).2)).
  { unfold log_opened. destruct log as [fd lv []]; [done|]. cbn [negb andb once_done logFd log_logLevel].
    destruct (Z.eqb_spec fd (-1)); [|done]. unfold mbind, F_bind, sys. cbn [the_kernel the_file]. by destruct (sys_open _ _ _). }
  destruct (log_opened path log k) as [fd k1]. cbn [fst snd] in *.
  unfold FIRCLSSDKFileLog. rewrite (proj2 (Z.ltb_ge _ _) Hl). unfold mbind at 1, F_bind at 1. rewrite Eo. cbn [logFd]. clear Eo.
  destruct (Z.ltb_spec fd 0) as [Hneg|Hpos]; [exists k1; split_and!; [done|done|lia]|].
  destruct (loop_written chunk Hch Hp fd f rest (arguments m) file k1 H0 Ht) as (text & k' & Hlog & Hc & E).
  exists k'. split_and!; [|lia|intros _; by exists f, rest, text].
  rewrite Ef. revert E. unfold mbind, F_bind. destruct (strlen _ _); [|done..]. by intros ->.
Qed.

Lemma lines_opened messages : forall log file k,
  once_done log = true -> Forall (readable chunk) messages ->
  exists k', log_all (Some path) (Some log) messages (FileState file k) = Returns (Some log) (FileState file k') /\
    (logFd log < 0 -> k' = k) /\
    (0 <= logFd log -> exists text, transcript (log_logLevel log) messages text /\
      contents k' (logFd log) = contents k (logFd log) ++ text).
Proof.
  induction messages as [|m messages IH]; intros log file k Ho Hr.
  { exists k. split_and!; [done..|]. intros _. exists []. split; [constructor|]. by rewrite app_nil_r. }
  inversion Hr as [|? ? Hm Hms]; subst. cbn [log_all]. unfold mbind, F_bind.
  destruct (Z.lt_ge_cases (level m) (log_logLevel log)) as [Hl|Hl].
  - rewrite message_hidden by done. destruct (IH log file k Ho Hms) as (k' & E & Hf & Ht). exists k'. split_and!; [done..|].
    intros Hpos. destruct (Ht Hpos) as (text & Htr & Hc). exists text. split; [by constructor|done].
  - destruct (message_shown log m file k Hl Hm) as (k1 & -> & Hf1 & Ht1).
    assert (log_opened path log k = (logFd log, k)) as Eo by (unfold log_opened; by rewrite Ho). rewrite Eo in Hf1, Ht1 |- *. cbn [fst snd] in *.
    assert (LogState (logFd log) (log_logLevel log) true = log) as -> by (destruct log; cbn in Ho; by subst).
    destruct (IH log file k1 Ho Hms) as (k' & E & Hf & Ht). exists k'. split_and!; [done|intros Hneg; by rewrite Hf, Hf1|].
    intros Hpos. destruct (Ht1 Hpos) as (f & rest & t & Ef & H0 & Hlog & Hc1). destruct (Ht Hpos) as (text & Htr & Hc).
    exists (t ++ text). split; [by eapply transcript_shown|]. by rewrite Hc, Hc1, app_assoc.
Qed.

(** C15: of messages whose formats have no conversions but %d, %u, %x, %p and %s, with
    arguments of their types and strings that one write transfers, the log of the SDK
    holds those that reach its level, in order and each as printf formats it. The file is opened once, by the first
    such message; messages below the level leave everything as it is, and a log that could
    not be opened is not written to. *)
Theorem log_lines_exact log messages file k :
  Forall (readable chunk) messages ->
  exists log' k', log_all (Some path) (Some log) messages (FileState file k) = Returns (Some log') (FileState file k') /\
    (Forall (fun m => level m < log_logLevel log) messages -> log' = log /\ k' = k) /\
    (Exists (fun m => log_logLevel log <= level m) messages ->
      log' = LogState (log_opened path log k).1 (log_logLevel log) true /\
      ((log_opened path log k).1 < 0 -> k' = (log_opened path log k).2) /\
      (0 <= (log_opened path log k).1 -> exists text, transcript (log_logLevel log) messages text /\
        contents k' (log_opened path log k).1 = contents (log_opened path log k).2 (log_opened path log k).1 ++ text)).
Proof.
  induction messages as [|m messages IH]; intros Hr; [exists log, k; split_and!; [done..|intros H; inversion H]|].
  inversion Hr as [|? ? Hm Hms]; subst. cbn [log_all]. unfold mbind, F_bind.
  destruct (Z.lt_ge_cases (level m) (log_logLevel log)) as [Hl|Hl].
  - rewrite message_hidden by done. destruct (IH Hms) as (log' & k' & E & Hno & Hyes). exists log', k'. split; [done|]. split.
    + intros H. apply Forall_cons in H as [_ H]. by apply Hno.
    + intros H. apply Exists_cons in H as [?|H]; [lia|]. destruct (Hyes H) as (-> & Hf & Ht). split_and!; [done..|].
      intros Hpos. destruct (Ht Hpos) as (text & Htr & Hc). exists text. split; [by constructor|done].
  - destruct (message_shown log m file k Hl Hm) as (k1 & -> & Hf1 & Ht1). destruct (log_opened path log k) as [fd k0]. cbn [fst snd] in *.
    destruct (lines_opened messages (LogState fd (log_logLevel log) true) file k1 eq_refl Hms) as (k' & E & Hf & Ht). cbn [logFd log_logLevel] in *.
    exists (LogState fd (log_logLevel log) true), k'. split; [done|]. split; [intros H; apply Forall_cons in H as [? _]; lia|]. intros _.
    split_and!; [done|intros Hneg; by rewrite Hf, Hf1|].
    intros Hpos. destruct (Ht1 Hpos) as (f & rest & t & Ef & H0 & Hlog & Hc1). destruct (Ht Hpos) as (text & Htr & Hc).
    exists (t ++ text). split; [by eapply transcript_shown|]. by rewrite Hc, Hc1, app_assoc.
Qed.

End Lines.

(** ** The log at concrete inputs *)

(** What [FIRCLSSDKLog(format, ...)] and [FIRCLSSDKLogDebug] call. *)
Definition warn (function : string) (line : Z) (format : string) (args : list log_arg) : message :=
  Message 3 (chars "WARN  [%s:%d] " ++ literal format) (StringArg (Some (literal function)) :: IntArg line :: args).
Definition debug (function : string) (line : Z) (format : string) (args : list log_arg) : message :=
  Message 1 (chars "DEBUG [%s:%d] " ++ literal format) (StringArg (Some (literal function)) :: IntArg line :: args).

Definition ex_messages : list message := [
  debug "scan" 10 "at %p" [PointerArg 4096];
  warn "Create" 42 "flags 0x%x, result %d, name %s" [IntArg 0xBEEF; IntArg (-5); StringArg None];
  warn "Fill" 7 "%u of %s" [IntArg (-1); StringArg (Some (literal "many"))]
].

(** A log that was not opened yet, which takes messages from the level of warnings on. *)
Definition ex_log : log_state := LogState (-1) 3 false.

Notation log_disk := (disk_kernel 20 None true).

Lemma message_readable n lv s args rest :
  forallb (fun b => negb (b =? 0)) s = true -> typed n s args = true -> readable n (Message lv (s ++ 0 :: rest) args).
Proof.
  intros H Ht. exists s, rest. split_and!; [done| |done]. intros Hin%list_elem_of_In. rewrite forallb_forall in H. by apply H in Hin.
Qed.

Lemma ex_messages_readable : Forall (readable 20) ex_messages.
Proof.
  repeat constructor; unfold warn, debug, literal; rewrite app_assoc; by apply message_readable.
Qed.

Lemma log_lines_exact_witness : exists k',
  log_all (KN := log_disk) (Some (chars "/log")) (Some ex_log) ex_messages (FileState (KN := log_disk) None ex_disk) =
    Returns (Some (LogState 3 3 true)) (FileState (KN := log_disk) None k') /\
  exists text, transcript 3 ex_messages text /\ on_disk k' 3 = chars "{}" ++ text.
Proof.
  destruct (log_lines_exact (KN := log_disk) (KS := disk_spec 20 None true) 20 ltac:(done) slow_progress (chars "/log") ex_log ex_messages None ex_disk)
    as (log' & k' & E & _ & H); [exact ex_messages_readable|].
  destruct H as (-> & _ & Ht); [by do 2 constructor|]. exists k'. split; [exact E|]. by apply Ht.
Defined.

(** The text of the messages. *)
Lemma ex_transcript :
  match log_all (KN := log_disk) (Some (chars "/log")) (Some ex_log) ex_messages (FileState (KN := log_disk) None ∅) with
  | Returns _ s => on_disk (the_kernel s) 3 =
      chars "WARN  [Create:42] flags 0xbeef, result -5, name (null)WARN  [Fill:7] 4294967295 of many"
  | _ => False
  end.
Proof. by vm_compute. Qed.

(** Conversions that the log does not know, and the formats of the program with them.
    [%llx], which FIRCLSMachException.c uses, is written as it is; the codes are not. *)
Lemma ex_mach_exception :
  match log_all (KN := log_disk) (Some (chars "/log")) (Some ex_log)
    [warn "Dispatch" 206 "Mach exception: 0x%x, count: %d, code: 0x%llx 0x%llx" [IntArg 1; IntArg 2; PointerArg 13; PointerArg 0]]
    (FileState (KN := log_disk) None ∅) with
  | Returns _ s => on_disk (the_kernel s) 3 = chars "WARN  [Dispatch:206] Mach exception: 0x1, count: 2, code: 0x%llx 0x%llx"
  | _ => False
  end.
Proof. by vm_compute. Qed.

(** After [%zu] an argument of the next conversion is the one of [%zu]. *)
Lemma ex_shifted :
  match log_all (KN := log_disk) (Some (chars "/log")) (Some ex_log) [warn "Create" 76 "total: %zu K, flags %d" [IntArg 16; IntArg 2]]
    (FileState (KN := log_disk) None ∅) with
  | Returns _ s => on_disk (the_kernel s) 3 = chars "WARN  [Create:76] total: %zu K, flags 16"
  | _ => False
  end.
Proof. by vm_compute. Qed.

(** A string that one [write] does not transfer is cut off. *)
Lemma ex_cut :
  match log_all (KN := log_disk) (Some (chars "/log")) (Some ex_log) [Message 3 (literal "%s") [StringArg (Some (literal "a name of more than twenty bytes"))]]
    (FileState (KN := log_disk) None ∅) with
  | Returns _ s => on_disk (the_kernel s) 3 = chars "a name of more than "
  | _ => False
  end.
Proof. by vm_compute. Qed.

(** [%%] is written as it is, with both percent signs; printf writes one. *)
Lemma ex_two_percent :
  match log_all (KN := log_disk) (Some (chars "/log")) (Some ex_log) [Message 3 (literal "50%%") []] (FileState (KN := log_disk) None ∅) with
  | Returns _ s => on_disk (the_kernel s) 3 = chars "50%%" /\ formatted (chars "50%%") [] (chars "50%")
  | _ => False
  end.
Proof. vm_compute. split; [done|]. do 2 (apply formatted_char; [done|]). apply formatted_percent, formatted_end. Qed.

(** A [%] at the end of the format is followed by a zero byte in the log. *)
Lemma ex_percent_at_end :
  match log_all (KN := log_disk) (Some (chars "/log")) (Some ex_log) [Message 3 (literal "50%") []] (FileState (KN := log_disk) None ∅) with
  | Returns _ s => on_disk (the_kernel s) 3 = chars "50%" ++ [0]
  | _ => False
  end.
Proof. by vm_compute. Qed.
