(* ===== verification/Crash.v ===== *)
(** The machine on which Crashlytics handles a crash: the memory of the process
    that crashed (Memory.v), the writable part of [_firclsContext], and the files
    and the kernel (File.v).

    A computation completes; ends the process ([Exits]); does what C leaves
    undefined, such as reading memory that is not mapped ([Faults]); or runs out of
    fuel ([Starves]). *)
From S2P Require Import Prelude Memory ThreadState File.

(** ** The writable context *)

(** [internalLogging.logLevel] and [crashOccurred]. *)
Record FIRCLSReadWriteContext := ReadWriteContext {
  logLevel : Z;
  crashOccurred : bool
}.

Definition FIRCLSInternalLogLevelWarn : Z := 3.

(** ** The monad *)

Section Monad.
Context {KN : Kernel}.

(** [the_writable] is [None] when [_firclsContext.writable] is null. *)
Record crash_state := CrashState {
  the_world : world;
  the_writable : option FIRCLSReadWriteContext;
  the_files : file_state
}.

Inductive crash_result (A : Type) : Type :=
  | Completes (a : A) (s : crash_state)
  | Exits (status : Z) (s : crash_state)
  | Faults
  | Starves.

Definition P (A : Type) : Type := crash_state -> crash_result A.

End Monad.

Arguments Completes {_ A}.
Arguments Exits {_ A}.
Arguments Faults {_ A}.
Arguments Starves {_ A}.

#[global] Instance P_ret {KN : Kernel} : MRet P := fun A a s => Completes a s.
#[global] Instance P_bind {KN : Kernel} : MBind P := fun A B k m s =>
  match m s with
  | Completes a s' => k a s'
  | Exits status s' => Exits status s'
  | Faults => Faults
  | Starves => Starves
  end.

Section Crash.
Context {KN : Kernel}.

Definition faults {A} : P A := fun _ => Faults.
Definition starves {A} : P A := fun _ => Starves.

Definition defined {A} (o : option A) : P A :=
  match o with Some a => mret a | None => faults end.

(** [exit(status)] *)
Definition exit_process {A} (status : Z) : P A := fun s => Exits status s.

Definition in_memory {A} (m : M A) : P A := fun s =>
  match m (the_world s) with
  | Done a w => Completes a (CrashState w (the_writable s) (the_files s))
  | Fault => Faults
  | Timeout => Starves
  end.

(** A function of the file that the caller passes on. *)
Definition to_file {A} (m : F A) : P A := fun s =>
  match m (the_files s) with
  | Returns a f => Completes a (CrashState (the_world s) (the_writable s) f)
  | Undefined => Faults
  | Exhausted => Starves
  end.

Definition ask {A} (question : kernel -> A) : P A := to_file (sys (fun k => (question k, k))).

Definition call {A} (service : kernel -> A * kernel) : P A := to_file (sys service).

Definition get_writable : P FIRCLSReadWriteContext := fun s =>
  match the_writable s with Some c => Completes c s | None => Faults end.

Definition put_writable (c : FIRCLSReadWriteContext) : P unit := fun s =>
  match the_writable s with
  | Some _ => Completes tt (CrashState (the_world s) (Some c) (the_files s))
  | None => Faults
  end.

Definition get_log_level : P Z := c ← get_writable; mret (logLevel c).

Definition set_log_level (level : Z) : P unit :=
  c ← get_writable; put_writable (ReadWriteContext level (crashOccurred c)).

(** The contents of a local [FIRCLSFile] before it is initialised, which are
    arbitrary. *)
Definition local_file : FIRCLSFile := File 0 0 false false NoBuffer 0 0.

(** [m] in a function that declares a [FIRCLSFile]. *)
Definition with_local_file {A} (m : P A) : P A := fun s =>
  let outer := the_file (the_files s) in
  match m (CrashState (the_world s) (the_writable s)
             (FileState (Some local_file) (the_kernel (the_files s)))) with
  | Completes a s' =>
      Completes a (CrashState (the_world s') (the_writable s') (FileState outer (the_kernel (the_files s'))))
  | r => r
  end.

Lemma P_bind_run {A B} (m : P A) (k : A -> P B) s a s' : m s = Completes a s' -> (m ≫= k) s = k a s'.
Proof. intros E. unfold mbind, P_bind. by rewrite E. Qed.

End Crash.

(** ** The services of Mach

    [tasks] is what the kernel knows about the threads of the process; services
    that do more than look at it are functions of the kernel. [thread_get_state]
    and [thread_info] return their status with what they store;
    [pthread_getname_np] returns its status and the new contents of the buffer.
    [ucontext_state] reads the registers in the system's structure for a signal
    handler. *)
Class Mach {KN : Kernel} {TS : ThreadState} := {
  tasks : Type;
  tasks_of : kernel -> tasks;
  MACH_PORT_INDEX : Z -> Z;
  mach_task_self : Z;
  mach_thread_self : tasks -> Z;
  task_threads : Z -> tasks -> Z * list Z;
  thread_suspend : Z -> kernel -> Z * kernel;
  thread_resume : Z -> kernel -> Z * kernel;
  thread_get_state : Z -> tasks -> Z * thread_context;
  pthread_from_mach_thread_np : Z -> tasks -> Z;
  pthread_getname_np : Z -> list Z -> tasks -> Z * list Z;
  thread_info_dispatch_qaddr : Z -> tasks -> Z * Z;
  dispatch_queue_get_label : Z -> M Z;
  ucontext_state : Z -> M thread_context
}.

Definition KERN_SUCCESS : Z := 0.
Definition MACH_PORT_NULL : Z := 0.
