(* ===== verification/Process.v ===== *)
(** Crashlytics' view of the process that crashed and of its threads
    (Components/FIRCLSProcess.c): suspending and resuming the other threads, the
    registers of a thread, and the section of the report with the registers and
    the stack trace of every thread. *)
From S2P Require Import Prelude Memory DwarfData ThreadState CompactUnwind Unwind File FileFormat Crash.

(** ** What depends on the architecture

    [faked_context pc frame return_address stack]: the context that stands for the
    current thread; [RecordThreadRegisters]: FIRCLSProcessRecordThreadRegisters;
    [builtin_frame_address], [builtin_return_address] and [current_pc]: what the
    compiler's builtins give in FIRCLSProcessGetThreadState. *)
Class RecordArch {KN : Kernel} {TS : ThreadState} := {
  StackPointerFromFramePointer : Z -> Z;
  faked_context : Z -> Z -> Z -> Z -> thread_context;
  RecordThreadRegisters : thread_context -> F unit;
  builtin_frame_address : Z;
  builtin_return_address : Z;
  current_pc : Z
}.

(** ** The process *)

Record FIRCLSProcess := Process {
  task : Z;
  thisThread : Z;
  crashedThread : Z;
  process_threads : list Z;
  threadCount : Z;
  uapVoid : Z
}.

Section Process.
Context {KN : Kernel} {TS : ThreadState} {MK : Mach} {RA : RecordArch}.

(** The arguments are those of the function, before it the contents of
    [*process], [None] when that is null. *)
Definition FIRCLSProcessInit (process : option FIRCLSProcess) (crashedThread uapVoid : Z) :
    P (bool * option FIRCLSProcess) :=
  match process with
  | None => mret (false, None)
  | Some p =>
      thisThread ← ask (fun k => mach_thread_self (tasks_of k));
      '(status, threads) ← ask (fun k => task_threads mach_task_self (tasks_of k));
      if negb (status =? KERN_SUCCESS) then
        mret (false, Some (Process mach_task_self thisThread crashedThread (process_threads p) 0 uapVoid))
      else
        mret (true, Some (Process mach_task_self thisThread crashedThread threads
                            (Z.of_nat (length threads)) uapVoid))
  end.

Definition FIRCLSProcessIsCurrentThread (process : FIRCLSProcess) (thread : Z) : bool :=
  MACH_PORT_INDEX (thisThread process) =? MACH_PORT_INDEX thread.

Definition FIRCLSProcessIsCrashedThread (process : FIRCLSProcess) (thread : Z) : bool :=
  MACH_PORT_INDEX (crashedThread process) =? MACH_PORT_INDEX thread.

Definition FIRCLSProcessGetThreadCount (process : FIRCLSProcess) : Z := threadCount process.

Definition FIRCLSProcessGetThread (process : FIRCLSProcess) (index : Z) : P Z :=
  if threadCount process <=? index then mret MACH_PORT_NULL
  else defined (process_threads process !! Z.to_nat index).

(** [for (i = 0; i < process->threadCount; ++i)] from [i] on, with the rounds that
    are left. *)
Fixpoint other_threads_loop (rounds : nat) (process : FIRCLSProcess) (i : Z)
    (service : Z -> kernel -> Z * kernel) (success : bool) : P bool :=
  match rounds with
  | O => mret success
  | S rounds =>
      thread ← FIRCLSProcessGetThread process i;
      success ←
        (if FIRCLSProcessIsCurrentThread process thread then mret success
         else if success then status ← call (service thread); mret (status =? KERN_SUCCESS)
         else mret false);
      other_threads_loop rounds process (i + 1) service success
  end.

Definition FIRCLSProcessSuspendAllOtherThreads (process : FIRCLSProcess) : P bool :=
  other_threads_loop (Z.to_nat (threadCount process)) process 0 thread_suspend true.

Definition FIRCLSProcessResumeAllOtherThreads (process : FIRCLSProcess) : P bool :=
  other_threads_loop (Z.to_nat (threadCount process)) process 0 thread_resume true.

(** ** The registers of a thread *)

(** What the status of [thread_get_state] is under Rosetta. *)
Definition ROSETTA_SUCCESS : Z := 268435459.

(** Returns [*context], which is a local variable of the caller. *)
Definition FIRCLSProcessGetThreadState (process : FIRCLSProcess) (thread : Z) (context : thread_context) :
    P (bool * thread_context) :=
  if FIRCLSProcessIsCrashedThread process thread && FIRCLSIsValidPointer (uapVoid process) then
    context ← in_memory (ucontext_state (uapVoid process)); mret (true, context)
  else if FIRCLSProcessIsCurrentThread process thread then
    let frameAddress := builtin_frame_address in
    let stackAddress := StackPointerFromFramePointer frameAddress in
    mret (true, faked_context current_pc frameAddress builtin_return_address stackAddress)
  else
    '(status, state) ← ask (fun k => thread_get_state thread (tasks_of k));
    if negb (status =? KERN_SUCCESS) && negb (status =? ROSETTA_SUCCESS) then mret (false, context)
    else mret (true, state).

(** ** Recording threads *)

Context {CE : CompactEncoding} {VM : VmRead} {UA : UnwindArch}.
Context (images : image_table).

(** [while (FIRCLSUnwindNextFrame(&unwindContext))]; returns [repeatedPC] and
    [repeatedPCCount]. *)
Fixpoint stacktrace_loop (fuel : nat) (level : Z) (unwindContext : FIRCLSUnwindContext)
    (repeatedPC repeatedPCCount : Z) : P (Z * Z) :=
  match fuel with
  | O => starves
  | S fuel =>
      '(ok, unwindContext) ← in_memory (FIRCLSUnwindNextFrame images unwindContext);
      if negb ok then mret (repeatedPC, repeatedPCCount)
      else
        let pc := FIRCLSUnwindGetPC unwindContext in
        let frameCount := FIRCLSUnwindGetFrameRepeatCount unwindContext in
        if (repeatedPC =? pc) && negb (repeatedPC =? 0) then
          stacktrace_loop fuel level unwindContext repeatedPC frameCount
        else if (FIRCLSUnwindInfiniteRecursionCountThreshold <=? frameCount) && (repeatedPC =? 0) then
          set_log_level FIRCLSInternalLogLevelWarn;;
          stacktrace_loop fuel level unwindContext pc repeatedPCCount
        else
          (if negb (repeatedPC =? 0) then set_log_level level else mret tt);;
          to_file (FIRCLSFileWriteArrayEntryUint64 pc);;
          stacktrace_loop fuel level unwindContext repeatedPC repeatedPCCount
  end.

Definition FIRCLSProcessRecordThread (process : FIRCLSProcess) (thread : Z) (context : thread_context) : P bool :=
  '(ok, context) ← FIRCLSProcessGetThreadState process thread context;
  if negb ok then mret false
  else
    let unwindContext := FIRCLSUnwindInit context in
    to_file FIRCLSFileWriteHashStart;;
    to_file (FIRCLSFileWriteHashKey (literal "registers"));;
    to_file FIRCLSFileWriteHashStart;;
    to_file (RecordThreadRegisters context);;
    to_file FIRCLSFileWriteHashEnd;;
    to_file (FIRCLSFileWriteHashKey (literal "stacktrace"));;
    to_file FIRCLSFileWriteArrayStart;;
    level ← get_log_level;
    '(repeatedPC, repeatedPCCount) ←
      stacktrace_loop (S (Z.to_nat FIRCLSUnwindMaxFrames)) level unwindContext 0 0;
    to_file FIRCLSFileWriteArrayEnd;;
    (if FIRCLSProcessIsCrashedThread process thread then
       to_file (FIRCLSFileWriteHashEntryBoolean (literal "crashed") true)
     else mret tt);;
    (if negb (repeatedPC =? 0) then
       to_file (FIRCLSFileWriteHashEntryUint64 (literal "repeated_pc") repeatedPC);;
       to_file (FIRCLSFileWriteHashEntryUint64 (literal "repeat_count") repeatedPCCount)
     else mret tt);;
    set_log_level level;;
    to_file FIRCLSFileWriteHashEnd;;
    mret true.

(** [garbage] is what the uninitialised local context holds. *)
Context (garbage : thread_context).

(** [for (i = 0; i < threadCount; ++i)] from [i] on; false when a thread could not
    be recorded. *)
Fixpoint record_threads_loop (rounds : nat) (process : FIRCLSProcess) (i : Z) : P bool :=
  match rounds with
  | O => mret true
  | S rounds =>
      thread ← FIRCLSProcessGetThread process i;
      ok ← FIRCLSProcessRecordThread process thread garbage;
      if negb ok then mret false else record_threads_loop rounds process (i + 1)
  end.

Definition FIRCLSProcessRecordAllThreads (process : FIRCLSProcess) : P bool :=
  let threadCount := FIRCLSProcessGetThreadCount process in
  to_file (FIRCLSFileWriteSectionStart (literal "threads"));;
  to_file FIRCLSFileWriteArrayStart;;
  ok ← record_threads_loop (Z.to_nat threadCount) process 0;
  if negb ok then
    to_file FIRCLSFileWriteArrayEnd;;
    to_file FIRCLSFileWriteSectionEnd;;
    mret false
  else
    to_file FIRCLSFileWriteArrayEnd;;
    to_file FIRCLSFileWriteSectionEnd;;
    mret true.

End Process.
