(* ===== verification/CrashSpec.v ===== *)
(** What recording the threads of a process writes: the JSON of each thread's
    registers and stack trace; and the calculus for the other sections of a report:
    what a computation of the crash handler leaves in the report file, when the text
    depends on what the system answers. *)
From S2P Require Import Prelude Memory DwarfData ThreadState DwarfExpressionSpec DwarfSafety CompactUnwind.
From S2P Require Import Unwind UnwindSafety UnwindTheorems File FileFormat FileSpec FileFormatSpec FileJson.
From S2P Require Import Crash Process.

(** ** What the kernel documents *)

(** [opened k d]: the descriptor [d] is in use. Writing to a file changes neither
    what the kernel knows about the threads, which are suspended, nor which files
    are open. The structure of the signal handler is read only. *)
Class MachSpec {KN : Kernel} {TS : ThreadState} {MK : Mach} := {
  opened : kernel -> Z -> Prop;
  write_keeps_tasks fd bs k n k' :
    sys_write fd bs k = (n, k') -> tasks_of k' = tasks_of k /\ forall d, opened k d -> opened k' d;
  ucontext_keeps p w context w' : ucontext_state p w = Done context w' -> w' = w
}.

(** What is known about the threads is [t], and the file is open. *)
Definition settled {KN : Kernel} {TS : ThreadState} {MK : Mach} {MS : MachSpec} (t : tasks) (k : kernel) (d : Z) : Prop :=
  tasks_of k = t /\ opened k d.

Lemma file_io_settled {KN : Kernel} {TS : ThreadState} {MK : Mach} {MS : MachSpec} t k k' d :
  file_io k k' -> settled t k d -> settled t k' d.
Proof.
  induction 1 as [|k k1 k2 (fd & bs & n & E) _ IH]; [done|]. intros [<- Ho]. apply IH.
  apply write_keeps_tasks in E as [Ht Hk]. split; [exact Ht|by apply Hk].
Qed.

(** A call that changes neither files nor threads. *)
Definition quiet {KN : Kernel} {KS : KernelSpec} {TS : ThreadState} {MK : Mach} {MS : MachSpec} (k k' : kernel) : Prop :=
  tasks_of k' = tasks_of k /\ forall d, opened k d -> opened k' d /\ contents k' d = contents k d.

Section Quiet.
Context {KN : Kernel} {KS : KernelSpec} {TS : ThreadState} {MK : Mach} {MS : MachSpec}.

Lemma quiet_settled t k k' d : quiet k k' -> settled t k d -> settled t k' d.
Proof. intros [E Hq] [<- Ho]. split; [exact E|]. by apply Hq. Qed.

Lemma quiet_contents k k' d : quiet k k' -> opened k d -> contents k' d = contents k d.
Proof. intros [_ Hq] Ho. by apply Hq. Qed.

#[global] Instance quiet_preorder : PreOrder quiet.
Proof.
  split; [by split|]. intros k1 k2 k3 [E1 H1] [E2 H2]. split; [congruence|]. intros d Ho.
  destruct (H1 d Ho) as [Ho1 C1]. destruct (H2 d Ho1) as [Ho2 C2]. split; [done|congruence].
Qed.

End Quiet.

(** ** Computations of the crash handler that write *)

Section Emits.
Context {KN : Kernel} {KS : KernelSpec} {TS : ThreadState} {MK : Mach} {MS : MachSpec}.
Context (chunk n : Z) (t : tasks) (wr : option FIRCLSReadWriteContext).

(** [m] completes with [a], takes the memory from [w] to [w'] and writes [bs], as
    [emits] has it; it keeps the context and what is known about the threads. *)
Definition p_emits {A} (w : world) (m : P A) (c : bool) (d : Z) (bs : list Z) (c' : bool) (d' : Z)
    (a : A) (w' : world) : Prop :=
  forall k f, wf_file f -> needComma f = c -> collectionDepth f = d -> settled t k (fd f) ->
    exists f' k', m (CrashState w wr (FileState (Some f) k)) = Completes a (CrashState w' wr (FileState (Some f') k')) /\
      wf_file f' /\ needComma f' = c' /\ collectionDepth f' = d' /\ fd f' = fd f /\ bufferWrites f' = bufferWrites f /\
      settled t k' (fd f') /\ (0 < chunk -> progress chunk -> fits chunk f n -> delivered k f k' f' bs).

Lemma p_emits_ret {A} (a : A) w c d : p_emits w (mret a) c d [] c d a w.
Proof. intros k f Hwf Hc Hd Ht. exists f, k. split; [done|]. split_and!; try done. intros. by apply delivered_nil. Qed.

Lemma p_emits_bind {A B} (m : P A) (k : A -> P B) w c d bs c1 d1 a w1 bs' c' d' b w' :
  p_emits w m c d bs c1 d1 a w1 -> p_emits w1 (k a) c1 d1 bs' c' d' b w' ->
  p_emits w (m ≫= k) c d (bs ++ bs') c' d' b w'.
Proof.
  intros Hm Hk kn f Hwf Hc Hd Ht.
  destruct (Hm kn f Hwf Hc Hd Ht) as (f1 & k1 & E1 & Hwf1 & Hc1 & Hd1 & Hfd1 & Hb1 & Ht1 & Ho1).
  destruct (Hk k1 f1 Hwf1 Hc1 Hd1 Ht1) as (f2 & k2 & E2 & Hwf2 & Hc2 & Hd2 & Hfd2 & Hb2 & Ht2 & Ho2).
  exists f2, k2. unfold mbind, P_bind. rewrite E1. split; [exact E2|]. split_and!; try done; try congruence.
  - intros Hch Hp Hf. eapply delivered_trans; [by apply Ho1|]. apply Ho2; [done..|]. unfold fits in *. by rewrite Hb1.
Qed.

(** A computation that writes nothing and gives [a]. *)
Lemma p_emits_run {A B} (m : P A) (k : A -> P B) w a w1 c d bs c' d' b w' :
  (forall fs, tasks_of (the_kernel fs) = t -> m (CrashState w wr fs) = Completes a (CrashState w1 wr fs)) ->
  p_emits w1 (k a) c d bs c' d' b w' -> p_emits w (m ≫= k) c d bs c' d' b w'.
Proof.
  intros Hm Hk kn f Hwf Hc Hd Ht. unfold mbind, P_bind. rewrite Hm by apply Ht. by apply Hk.
Qed.

Lemma p_emits_call {A} (service : kernel -> A * kernel) (Q : A -> Prop) B (q : A -> P B) w c d bs c' d' b w' :
  (forall k a k', service k = (a, k') -> Q a /\ quiet k k') ->
  (forall a, Q a -> p_emits w (q a) c d bs c' d' b w') ->
  p_emits w (call service ≫= q) c d bs c' d' b w'.
Proof.
  intros Hs Hq k f Hwf Hc Hd Ht. unfold mbind, P_bind, call, to_file, sys. cbn [the_files the_kernel the_file the_world the_writable].
  destruct (service k) as [a k1] eqn:E. destruct (Hs _ _ _ E) as (Ha & Hquiet).
  destruct (Hq a Ha k1 f Hwf Hc Hd) as (f' & k' & E' & H1 & H2 & H3 & H4 & H5 & H6 & Ho); [by eapply quiet_settled|].
  exists f', k'. split_and!; try done. intros Hch Hp Hf. destruct (Ho Hch Hp Hf) as [O1 O2].
  split; [|exact O2]. rewrite O1. unfold output. by rewrite (quiet_contents _ _ _ Hquiet) by apply Ht.
Qed.

Lemma p_emits_file (m : F unit) w c d bs c' d' :
  emits chunk n m c d bs c' d' -> p_emits w (to_file m) c d bs c' d' tt w.
Proof.
  intros Hm k f Hwf Hc Hd Ht. pose proof (Hm k f Hwf Hc Hd) as H. unfold fwp in H. unfold to_file. cbn [the_files the_world the_writable].
  destruct (m _) as [[] [tf k']| |]; [|done..]. destruct H as (f' & E & H). cbn [the_file the_kernel] in *. subst tf.
  destruct H as (H1 & H2 & H3 & H4 & H5 & Hio & Ho). exists f', k'. split_and!; try done. by rewrite H4; eapply file_io_settled.
Qed.

Lemma p_emits_cong {A} w (m : P A) c d bs bs' c' d' a w' :
  p_emits w m c d bs c' d' a w' -> bs = bs' -> p_emits w m c d bs' c' d' a w'.
Proof. by intros H <-. Qed.

Lemma p_emits_ext {A} w (m m' : P A) c d bs c' d' a w' :
  (forall fs, m (CrashState w wr fs) = m' (CrashState w wr fs)) ->
  p_emits w m' c d bs c' d' a w' -> p_emits w m c d bs c' d' a w'.
Proof. intros E H k f Hwf Hc Hd Ht. rewrite E. by apply H. Qed.

(** A section that is an array. *)
Lemma array_section_emits {A B} name (m : P A) (k : A -> P B) texts c' a b w w' :
  32 <= n < 2 ^ 62 -> literal_ok name = true ->
  p_emits w m false 2 (separated false texts) c' 2 a w' ->
  p_emits w' (k a) c' 2 [93; 125; 10] false 0 b w' ->
  p_emits w (to_file (FIRCLSFileWriteSectionStart (literal name));; to_file FIRCLSFileWriteArrayStart;; x ← m; k x)
    false 0 ([123] ++ key_text (Some (chars name)) ++ [91] ++ separated false texts ++ [93; 125; 10]) false 0 b w'.
Proof.
  intros Hn Hname Hm Hk. rewrite app_assoc. eapply p_emits_bind.
  { apply p_emits_file. apply (section_start_emits chunk n Hn (chars name) false). by apply short_literal. }
  eapply p_emits_bind; [by apply p_emits_file, (start_emits chunk n Hn 91 false 1)|].
  by eapply p_emits_bind.
Qed.

Lemma array_section_end_emits {A} (a : A) c w :
  32 <= n < 2 ^ 62 ->
  p_emits w (to_file FIRCLSFileWriteArrayEnd;; to_file FIRCLSFileWriteSectionEnd;; mret a) c 2 [93; 125; 10] false 0 a w.
Proof.
  intros Hn. apply (p_emits_bind _ _ _ _ _ [93] true 1 tt w [125; 10]); [by apply p_emits_file, (end_emits chunk n Hn 93 c 1)|].
  rewrite <- (app_nil_r [125; 10]). eapply p_emits_bind; [apply p_emits_file, section_end_emits; done|apply p_emits_ret].
Qed.

End Emits.

(** ** A thread *)

Definition name_of (s : string) : list Z := chars s.

(** The members of an object that are numbers. *)
Definition number_members (l : list (string * Z)) : list (list Z * json) := (fun m => (name_of m.1, JUint m.2)) <$> l.

(** Recording the registers writes members with short names. *)
Class RecordArchLaws {KN : Kernel} {TS : ThreadState} {RA : RecordArch} := {
  register_members : thread_context -> list (string * Z);
  record_registers_calls context :
    RecordThreadRegisters context =
      all (fun m => FIRCLSFileWriteHashEntryUint64 (literal m.1) m.2) (register_members context);
  register_names context : forallb (fun m => literal_ok m.1) (register_members context) = true
}.

(** The object of a thread in the report: its registers, the addresses of its stack
    trace, and the address that a recursion repeats. *)
Definition thread_json {KN : Kernel} {TS : ThreadState} {RA : RecordArch} {RL : RecordArchLaws}
    (context : thread_context) (trace : list Z * option (Z * Z)) (crashed : bool) : json :=
  JHash ([(name_of "registers", JHash (number_members (register_members context)));
          (name_of "stacktrace", JArray (JUint <$> trace.1))] ++
         (if crashed then [(name_of "crashed", JBool true)] else []) ++
         match trace.2 with
         | Some (p, n) => number_members [("repeated_pc", p); ("repeat_count", n)]%string
         | None => []
         end).

Section Thread.
Context {KN : Kernel} {TS : ThreadState} {MK : Mach} {RA : RecordArch}.
Context {CE : CompactEncoding} {VM : VmRead} {UA : UnwindArch}.
Context (images : image_table).

(** What a computation of a file does, lifted, with another world and context. *)
Definition after_file {A B} (r : result A) (w : world) (wr : option FIRCLSReadWriteContext) (b : B) : crash_result B :=
  match r with
  | Returns _ fs => Completes b (CrashState w wr fs)
  | Undefined => Faults
  | Exhausted => Starves
  end.

Lemma in_memory_bind {A B} (m : M A) (k : A -> P B) w a w1 wr fs :
  m w = Done a w1 -> (in_memory m ≫= k) (CrashState w wr fs) = k a (CrashState w1 wr fs).
Proof. intros E. unfold mbind, P_bind, in_memory. cbn [the_world]. by rewrite E. Qed.

Lemma set_log_level_run level w wr fs :
  set_log_level level (CrashState w (Some wr) fs) =
    Completes tt (CrashState w (Some (ReadWriteContext level (crashOccurred wr))) fs).
Proof. done. Qed.

(** The loop that writes the frames and the one that lists them. *)
Lemma stacktrace_loop_run fuel level ts w ts' w' :
  record_frames_loop images fuel ts w = Done ts' w' ->
  exists new, entries ts' = entries ts ++ new /\ forall wr, exists level', forall fs,
    stacktrace_loop images fuel level (unwind_context ts) (repeatedPC ts) (repeatedPCCount ts)
      (CrashState w (Some wr) fs) =
    after_file (all FIRCLSFileWriteArrayEntryUint64 new fs) w' (Some (ReadWriteContext level' (crashOccurred wr)))
      (repeatedPC ts', repeatedPCCount ts').
Proof.
  revert ts w. induction fuel as [|fuel IH]; intros ts w E; [done|]. cbn [record_frames_loop] in E.
  apply bind_Done_inv in E as ([ok c] & w1 & E1 & E). destruct ok; cbn [negb] in E.
  2: { injection E as <- <-. exists []. cbn [entries repeatedPC repeatedPCCount]. split; [by rewrite app_nil_r|].
       intros [lv cr]. exists lv. intros fs. cbn [stacktrace_loop all]. by rewrite (in_memory_bind _ _ _ _ _ _ _ E1). }
  unfold record_frame in E. cbn [unwind_context repeatedPC repeatedPCCount entries] in E.
  destruct ((repeatedPC ts =? FIRCLSUnwindGetPC c) && negb (repeatedPC ts =? 0)) eqn:B1;
    [|destruct ((FIRCLSUnwindInfiniteRecursionCountThreshold <=? FIRCLSUnwindGetFrameRepeatCount c) &&
        (repeatedPC ts =? 0)) eqn:B2]; destruct (IH _ _ E) as (new & En & Hrun);
    cbn [unwind_context repeatedPC repeatedPCCount entries] in *.
  - exists new. split; [exact En|]. intros wr. destruct (Hrun wr) as [lv Hr]. exists lv. intros fs.
    rewrite <- Hr. cbn [stacktrace_loop]. rewrite (in_memory_bind _ _ _ _ _ _ _ E1). cbn [negb]. by rewrite B1.
  - exists new. split; [exact En|]. intros wr.
    destruct (Hrun (ReadWriteContext FIRCLSInternalLogLevelWarn (crashOccurred wr))) as [lv Hr]. exists lv. intros fs.
    cbn [crashOccurred] in Hr. rewrite <- Hr. cbn [stacktrace_loop]. rewrite (in_memory_bind _ _ _ _ _ _ _ E1).
    cbn [negb]. by rewrite B1, B2.
  - exists (FIRCLSUnwindGetPC c :: new). split; [by rewrite En, <- app_assoc|]. intros wr.
    set (lv := if negb (repeatedPC ts =? 0) then level else logLevel wr).
    destruct (Hrun (ReadWriteContext lv (crashOccurred wr))) as [lv' Hr]. exists lv'. intros fs.
    cbn [stacktrace_loop]. rewrite (in_memory_bind _ _ _ _ _ _ _ E1). cbn [negb all]. rewrite B1, B2.
    assert (Hlv : forall k : P (Z * Z),
      ((if negb (repeatedPC ts =? 0) then set_log_level level else mret tt);; k) (CrashState w1 (Some wr) fs) =
      k (CrashState w1 (Some (ReadWriteContext lv (crashOccurred wr))) fs)).
    { unfold lv. destruct (negb (repeatedPC ts =? 0)); [done|]. by destruct wr. }
    rewrite Hlv. unfold mbind at 1, P_bind, to_file. cbn [the_files the_world the_writable].
    unfold mbind, F_bind. by destruct (FIRCLSFileWriteArrayEntryUint64 (FIRCLSUnwindGetPC c) fs) as [u fs'| |]; [apply Hr|..].
Qed.

(** ** A thread is the calls for its JSON *)

(** From the world [w] and the context [wr], [p] is [m] with other results. *)
Definition follows {A} (w : world) (wr : option FIRCLSReadWriteContext) (p : P A) (m : F unit)
    (w' : world) (wr' : option FIRCLSReadWriteContext) (a : A) : Prop :=
  forall fs, p (CrashState w wr fs) = after_file (m fs) w' wr' a.

Lemma follows_at {A} (p : P A) m w wr w' wr' a fs :
  follows w wr p m w' wr' a -> p (CrashState w wr fs) = after_file (m fs) w' wr' a.
Proof. intros H. apply H. Qed.

Lemma follows_file {A} (m m' : F unit) (k : unit -> P A) w wr w' wr' a :
  follows w wr (k tt) m' w' wr' a -> follows w wr (to_file m ≫= k) (m;; m') w' wr' a.
Proof.
  intros H fs. unfold mbind, P_bind, F_bind, to_file. cbn [the_files the_world the_writable].
  by destruct (m fs) as [[] fs'| |]; [apply H|..].
Qed.

Lemma follows_assoc {A} (p : P A) (m1 m2 m3 : F unit) w wr w' wr' a :
  follows w wr p (m1;; m2;; m3) w' wr' a -> follows w wr p ((m1;; m2);; m3) w' wr' a.
Proof. intros H fs. rewrite H. unfold mbind, F_bind. by destruct (m1 fs). Qed.

Lemma follows_p_assoc {A B C} (p : P A) (q : A -> P B) (k : B -> P C) m w wr w' wr' a :
  follows w wr (x ← p; q x ≫= k) m w' wr' a -> follows w wr ((p ≫= q) ≫= k) m w' wr' a.
Proof. intros H fs. rewrite <- H. unfold mbind, P_bind. by destruct (p _). Qed.

Lemma follows_skip {A} (p : P A) (m : F unit) w wr w' wr' a :
  follows w wr p m w' wr' a -> follows w wr p (mret tt;; m) w' wr' a.
Proof. done. Qed.

Lemma follows_end {A} (p : P A) (m : F unit) w wr w' wr' a :
  follows w wr p (m;; mret tt) w' wr' a -> follows w wr p m w' wr' a.
Proof. intros H fs. rewrite H. unfold mbind, F_bind. by destruct (m fs) as [[]| |]. Qed.

(** The world and the context move on without a write. *)
Lemma follows_run {A B} (p : P A) (k : A -> P B) (m : F unit) a w1 wr1 w wr w' wr' b :
  (forall fs, p (CrashState w wr fs) = Completes a (CrashState w1 wr1 fs)) ->
  follows w1 wr1 (k a) m w' wr' b -> follows w wr (p ≫= k) m w' wr' b.
Proof. intros Hp H fs. unfold mbind, P_bind. rewrite Hp. apply H. Qed.

Lemma follows_bind {A B} (p : P A) (k : A -> P B) (m m' : F unit) a w1 wr1 w wr w' wr' b :
  follows w wr p m w1 wr1 a -> follows w1 wr1 (k a) m' w' wr' b ->
  follows w wr (p ≫= k) (m;; m') w' wr' b.
Proof.
  intros Hp H fs. unfold mbind, P_bind, F_bind. rewrite Hp. by destruct (m fs) as [[] fs'| |]; [apply H|..].
Qed.

Lemma all_map {A B} (f : A -> B) (g : B -> F unit) l : all g (f <$> l) = all (fun a => g (f a)) l.
Proof. induction l as [|a l IH]; cbn; [done|]. by rewrite IH. Qed.

Lemma all_app {A} (f : A -> F unit) l l' fs : all f (l ++ l') fs = (all f l;; all f l') fs.
Proof.
  revert fs. induction l as [|a l IH]; intros fs; [done|]. cbn [all app]. unfold mbind, F_bind in *.
  destruct (f a fs); [apply IH|done|done].
Qed.

End Thread.

(** The next call of both sides. *)
Ltac follow :=
  repeat lazymatch goal with
  | |- follows _ _ _ (mbind (fun _ => _) (mbind _ _)) _ _ _ => apply follows_assoc
  | |- follows _ _ _ (mbind _ (mret tt)) _ _ _ => apply follows_skip
  | |- follows _ _ (mbind _ (mbind _ _)) _ _ _ _ => apply follows_p_assoc
  | |- follows _ _ (mbind _ (to_file _)) _ _ _ _ => apply follows_file
  end.

Section RecordThread.
Context {KN : Kernel} {TS : ThreadState} {MK : Mach} {RA : RecordArch} {RL : RecordArchLaws}.
Context {CE : CompactEncoding} {VM : VmRead} {UA : UnwindArch}.
Context (images : image_table).

Lemma record_thread_run process thread garbage context trace w wr fs :
  FIRCLSProcessGetThreadState process thread garbage (CrashState w (Some wr) fs) =
    Completes (true, context) (CrashState w (Some wr) fs) ->
  record_stacktrace images context w = Done trace w ->
  FIRCLSProcessRecordThread images process thread garbage (CrashState w (Some wr) fs) =
    after_file (write_json None (thread_json context trace (FIRCLSProcessIsCrashedThread process thread)) fs)
      w (Some wr) true.
Proof.
  intros Hs Ht. unfold FIRCLSProcessRecordThread, thread_json. cbn [write_json write_key].
  unfold mbind at 1, P_bind. rewrite Hs. cbn [negb]. clear Hs. apply follows_at, follows_skip.
  apply follows_file. cbn [app all fst snd write_json write_key].
  rewrite record_registers_calls. unfold number_members. rewrite !all_map. follow.
  eapply follows_run; [by intros ?|].
  unfold record_stacktrace in Ht. apply bind_Done_inv in Ht as (ts & w' & Hl & [= <- ->]).
  destruct (stacktrace_loop_run _ _ (logLevel wr) _ _ _ _ Hl) as (new & En & Hrun).
  cbn [entries unwind_context repeatedPC repeatedPCCount app] in *. subst new. destruct (Hrun wr) as [lv Hr]. clear Hrun.
  eapply follows_bind; [exact Hr|].
  destruct (FIRCLSProcessIsCrashedThread process thread), (negb (repeatedPC ts =? 0));
    cbn [fst snd app all fmap list_fmap write_json]; follow;
    repeat (eapply follows_run; [intros ?; first [apply set_log_level_run|by cbn]|]; follow); apply follows_end; follow;
    destruct wr; by intros ?.
Qed.

End RecordThread.

(** ** All threads *)

Lemma get_thread_run {KN : Kernel} process pre thread post s :
  threadCount process = Z.of_nat (length (process_threads process)) -> process_threads process = pre ++ thread :: post ->
  FIRCLSProcessGetThread process (Z.of_nat (length pre)) s = Completes thread s.
Proof.
  intros Hcount E. unfold FIRCLSProcessGetThread. rewrite Hcount, E, length_app. cbn [length].
  rewrite (proj2 (Z.leb_gt _ _)) by lia. by rewrite Nat2Z.id, list_lookup_middle.
Qed.

Section Threads.
Context {KN : Kernel} {KS : KernelSpec} {TS : ThreadState} {MK : Mach} {MS : MachSpec}.
Context {RA : RecordArch} {RL : RecordArchLaws}.
Context {CE : CompactEncoding} {VM : VmRead} {UA : UnwindArch}.
Context (images : image_table) (garbage : thread_context).
Context (process : FIRCLSProcess) (t : tasks) (w : world).

Definition state_status (thread : Z) : bool :=
  let status := (thread_get_state thread t).1 in (status =? KERN_SUCCESS) || (status =? ROSETTA_SUCCESS).

(** The registers of a thread: where it crashed, where it is, or what the kernel
    says. *)
Definition thread_registers (thread : Z) : option thread_context :=
  if FIRCLSProcessIsCrashedThread process thread && FIRCLSIsValidPointer (uapVoid process) then
    match ucontext_state (uapVoid process) w with Done context _ => Some context | _ => None end
  else if FIRCLSProcessIsCurrentThread process thread then
    Some (faked_context current_pc builtin_frame_address builtin_return_address
            (StackPointerFromFramePointer builtin_frame_address))
  else if state_status thread then Some (thread_get_state thread t).2
  else None.

(** A thread whose registers the kernel does not give. *)
Definition unreadable (thread : Z) : bool :=
  negb (FIRCLSProcessIsCrashedThread process thread && FIRCLSIsValidPointer (uapVoid process)) &&
  negb (FIRCLSProcessIsCurrentThread process thread) && negb (state_status thread).

Lemma thread_state_run thread context wr fs :
  tasks_of (the_kernel fs) = t -> thread_registers thread = Some context ->
  FIRCLSProcessGetThreadState process thread garbage (CrashState w wr fs) =
    Completes (true, context) (CrashState w wr fs).
Proof.
  intros Ht. unfold thread_registers, FIRCLSProcessGetThreadState. destruct (_ && _).
  - destruct (ucontext_state _ w) as [c w'| |] eqn:E; [|done..]. intros [= ->].
    rewrite (in_memory_bind _ _ _ _ _ _ _ E). by rewrite (ucontext_keeps _ _ _ _ E).
  - destruct (FIRCLSProcessIsCurrentThread process thread); [by intros [= <-]|]. unfold state_status.
    unfold mbind, P_bind, ask, to_file, sys. cbn [the_files the_kernel the_file the_world the_writable].
    rewrite Ht. destruct fs as [tf k]. destruct (thread_get_state thread t) as [status state]. cbn [fst snd].
    rewrite <- negb_orb. destruct (_ || _); cbn [negb]; [by intros [= ->]|done].
Qed.

Lemma unreadable_run thread wr fs :
  tasks_of (the_kernel fs) = t -> unreadable thread = true ->
  FIRCLSProcessGetThreadState process thread garbage (CrashState w wr fs) =
    Completes (false, garbage) (CrashState w wr fs).
Proof.
  intros Ht. unfold unreadable, FIRCLSProcessGetThreadState. intros [[H1 H2]%andb_true_iff H3]%andb_true_iff.
  apply negb_true_iff in H1, H2. rewrite H1, H2. revert H3. unfold state_status.
  unfold mbind, P_bind, ask, to_file, sys. cbn [the_files the_kernel the_file the_world the_writable].
  rewrite Ht. destruct fs as [tf k]. destruct (thread_get_state thread t) as [status state]. cbn [fst snd].
  rewrite <- negb_orb. by intros ->.
Qed.

(** The JSON of a thread, when its registers are known and its stack can be
    unwound. *)
Definition thread_record (thread : Z) : option json :=
  context ← thread_registers thread;
  match record_stacktrace images context w with
  | Done trace _ => Some (thread_json context trace (FIRCLSProcessIsCrashedThread process thread))
  | _ => None
  end.

(** ** The text of a thread *)

Context {VMS : VmReadSpec} {TL : ThreadStateLaws} {UL : UnwindArchLaws}.
Context (chunk n : Z) (Hn : 32 <= n < 2 ^ 62) (wr : FIRCLSReadWriteContext).
Context (Hlow : low_mem (mem w)) (Hwf : wf_mem (mem w)).

Notation p_emits := (p_emits chunk n t (Some wr)).

Lemma foldr_max_zero {A} (f : A -> Z) l : (forall a, a ∈ l -> f a = 0) -> foldr Z.max 0 (map f l) = 0.
Proof.
  intros Hf. induction l as [|a l IH]; [done|]. cbn. rewrite (Hf a) by left.
  rewrite IH; [done|]. intros b Hb. apply Hf. by right.
Qed.

Lemma thread_nesting context trace crashed : nesting (thread_json context trace crashed) <= 2.
Proof.
  assert (Hnum : forall l, foldr Z.max 0 (map (fun m => nesting m.2) (number_members l)) = 0)
    by (intros l; apply foldr_max_zero; by intros x (m & -> & _)%list_elem_of_fmap).
  assert (Hes : forall l : list Z, foldr Z.max 0 (map nesting (JUint <$> l)) = 0)
    by (intros l; apply foldr_max_zero; by intros x (m & -> & _)%list_elem_of_fmap).
  unfold thread_json. cbn [nesting]. rewrite map_app, map_app, !foldr_app.
  cbn [map fst snd foldr nesting]. rewrite Hes, Hnum.
  destruct crashed, trace.2 as [[p k]|]; cbn; lia.
Qed.

Lemma thread_record_run thread j fs :
  tasks_of (the_kernel fs) = t -> thread_record thread = Some j ->
  FIRCLSProcessRecordThread images process thread garbage (CrashState w (Some wr) fs) =
    after_file (write_json None j fs) w (Some wr) true /\ nesting j <= 2.
Proof.
  intros Ht Hj. unfold thread_record in Hj.
  destruct (thread_registers thread) as [context|] eqn:Ec; [|done]. cbn [mbind option_bind] in Hj.
  pose proof (stacktrace_run images context w Hlow Hwf) as Hst. unfold ends in Hst.
  destruct (record_stacktrace images context w) as [trace w'| |] eqn:Et; [|done..]. injection Hj as <-.
  destruct Hst as [-> _]. split; [|apply thread_nesting].
  apply record_thread_run; [|done]. by apply thread_state_run.
Qed.

Lemma record_thread_emits thread j c :
  thread_record thread = Some j -> writable n false j ->
  p_emits w (FIRCLSProcessRecordThread images process thread garbage) c 2 (comma c ++ written_text j) true 2 true w.
Proof.
  intros Hj Hw k f Hwff Hc Hd Ht. destruct (thread_record_run thread j (FileState (Some f) k) (proj1 Ht) Hj) as [E Hnest].
  pose proof (inner_emits chunk n j None c 1 (write_json_emits chunk n Hn j) I Hw ltac:(lia) ltac:(lia)) as He.
  pose proof (p_emits_file chunk n t (Some wr) _ w _ _ _ _ _ He k f Hwff Hc Hd Ht) as H.
  destruct H as (f' & k' & E' & H). exists f', k'. split; [|exact H]. rewrite E. unfold to_file in E'.
  cbn [the_files the_world the_writable] in E'. destruct (write_json None j _) as [[] fs'| |]; [|done..].
  by injection E' as ->.
Qed.

(** ** The section of the threads *)

Context (Hcount : threadCount process = Z.of_nat (length (process_threads process))).

(** The threads that are recorded, [todo], and those behind the one that cannot be
    read. *)
Definition stops_at (rest : list Z) : Prop := forall thread post, rest = thread :: post -> unreadable thread = true.

Lemma record_threads_loop_emits todo jsons pre rest c :
  Forall2 (fun thread j => thread_record thread = Some j) todo jsons -> Forall (writable n false) jsons ->
  process_threads process = pre ++ todo ++ rest -> stops_at rest ->
  exists c', p_emits w (record_threads_loop images garbage (length (todo ++ rest)) process (Z.of_nat (length pre))) c 2
    (separated c (map written_text jsons)) c' 2 (bool_decide (rest = [])) w.
Proof.
  intros Hj. revert pre c. induction Hj as [|thread j todo jsons Hj _ IH]; intros pre c Hw Hp Hr.
  - exists c. cbn [app map separated]. destruct rest as [|thread rest]; [apply p_emits_ret|].
    cbn [length record_threads_loop]. eapply p_emits_run; [by intros; eapply get_thread_run|].
    eapply p_emits_run.
    { intros fs Ht. unfold FIRCLSProcessRecordThread, mbind, P_bind. by rewrite unreadable_run by (done || by eapply Hr). }
    cbn [negb]. apply p_emits_ret.
  - apply Forall_cons in Hw as [Hw Hws]. destruct (IH (pre ++ [thread]) true Hws) as [c' Hl]; [by rewrite Hp, <- app_assoc|done|].
    exists c'. cbn [app length record_threads_loop map separated].
    eapply p_emits_run; [by intros; eapply get_thread_run|]. rewrite app_assoc.
    eapply p_emits_bind; [by apply record_thread_emits|]. cbn [negb].
    rewrite (length_app pre [thread]), Nat2Z.inj_add in Hl. exact Hl.
Qed.

End Threads.

(** The index of the element behind [x]. *)
Lemma next_index {A} (before : list A) x : Z.of_nat (length before) + 1 = Z.of_nat (length (before ++ [x])).
Proof. rewrite length_app. cbn. lia. Qed.

(** Texts that differ in how they are put together. *)
Ltac same_text := repeat first [rewrite <- app_assoc | progress cbn [app]]; done.

(** ** Postconditions *)

Section Rules.
Context {KN : Kernel} {KS : KernelSpec} {TS : ThreadState} {MK : Mach} {MS : MachSpec}.
Context (chunk n : Z) (t : tasks) (wr : option FIRCLSReadWriteContext).

(** From the memory [w] and a file with [needComma = c] and [collectionDepth = d],
    behind the text [pre], [m] completes; its result, the memory, the text so far,
    and the file's [needComma] and [collectionDepth] satisfy [Q]. *)
Definition pwp {A} (pre : list Z) (w : world) (c : bool) (d : Z) (m : P A)
    (Q : A -> list Z -> world -> bool -> Z -> Prop) : Prop :=
  forall k f, wf_file f -> needComma f = c -> collectionDepth f = d -> settled t k (fd f) ->
    exists a w' bs f' k',
      m (CrashState w wr (FileState (Some f) k)) = Completes a (CrashState w' wr (FileState (Some f') k')) /\
      wf_file f' /\ fd f' = fd f /\ bufferWrites f' = bufferWrites f /\ settled t k' (fd f') /\
      (0 < chunk -> progress chunk -> fits chunk f n -> delivered k f k' f' bs) /\
      Q a (pre ++ bs) w' (needComma f') (collectionDepth f').

Lemma pwp_ret {A} (a : A) pre w c d (Q : A -> list Z -> world -> bool -> Z -> Prop) :
  Q a pre w c d -> pwp pre w c d (mret a) Q.
Proof.
  intros HQ k f Hwf Hc Hd Hs. exists a, w, [], f, k. split; [done|]. split_and!; try done.
  - intros. by apply delivered_nil.
  - by rewrite app_nil_r, Hc, Hd.
Qed.

Lemma pwp_bind {A B} (m : P A) (q : A -> P B) pre w c d Q :
  pwp pre w c d m (fun a pre' w' c' d' => pwp pre' w' c' d' (q a) Q) -> pwp pre w c d (m ≫= q) Q.
Proof.
  intros Hm k f Hwf Hc Hd Hs. destruct (Hm k f Hwf Hc Hd Hs) as (a & w1 & bs & f1 & k1 & E1 & Hwf1 & Hfd1 & Hb1 & Hs1 & Ho1 & Hq).
  destruct (Hq k1 f1 Hwf1 eq_refl eq_refl Hs1) as (b & w2 & bs' & f2 & k2 & E2 & Hwf2 & Hfd2 & Hb2 & Hs2 & Ho2 & HQ).
  exists b, w2, (bs ++ bs'), f2, k2. unfold mbind, P_bind. rewrite E1, app_assoc.
  split_and!; try done; try congruence.
  intros Hch Hp Hf. eapply delivered_trans; [by apply Ho1|]. apply Ho2; [done..|]. unfold fits in *. by rewrite Hb1.
Qed.

Lemma pwp_mono {A} (m : P A) pre w c d (Q R : A -> list Z -> world -> bool -> Z -> Prop) :
  pwp pre w c d m Q -> (forall a pre w c d, Q a pre w c d -> R a pre w c d) -> pwp pre w c d m R.
Proof.
  intros Hm HR k f Hwf Hc Hd Hs. destruct (Hm k f Hwf Hc Hd Hs) as (a & w' & bs & f' & k' & E & Hwf' & Hfd & Hb & Hs' & Ho & HQ).
  exists a, w', bs, f', k'. split_and!; try done. by apply HR.
Qed.

Lemma pwp_emits {A} (m : P A) pre w c d bs c' d' a w' (Q : A -> list Z -> world -> bool -> Z -> Prop) :
  p_emits chunk n t wr w m c d bs c' d' a w' -> Q a (pre ++ bs) w' c' d' -> pwp pre w c d m Q.
Proof.
  intros Hm HQ k f Hwf Hc Hd Hs. destruct (Hm k f Hwf Hc Hd Hs) as (f' & k' & E & H1 & H2 & H3 & H4 & H5 & H6 & H7).
  exists a, w', bs, f', k'. rewrite H2, H3. by split_and!.
Qed.

Lemma pwp_file (m : F unit) pre w c d bs c' d' (Q : unit -> list Z -> world -> bool -> Z -> Prop) :
  emits chunk n m c d bs c' d' -> Q tt (pre ++ bs) w c' d' -> pwp pre w c d (to_file m) Q.
Proof. intros Hm. apply pwp_emits. by apply p_emits_file. Qed.

(** A computation that writes nothing and gives [a]. *)
Lemma pwp_run {A B} (m : P A) (q : A -> P B) pre w c d a w1 Q :
  (forall fs, tasks_of (the_kernel fs) = t -> m (CrashState w wr fs) = Completes a (CrashState w1 wr fs)) ->
  pwp pre w1 c d (q a) Q -> pwp pre w c d (m ≫= q) Q.
Proof. intros Hm Hq k f Hwf Hc Hd Hs. unfold mbind, P_bind. rewrite Hm by apply Hs. by apply Hq. Qed.

Lemma pwp_memory {A B} (m : M A) (q : A -> P B) pre w c d a w1 Q :
  m w = Done a w1 -> pwp pre w1 c d (q a) Q -> pwp pre w c d (in_memory m ≫= q) Q.
Proof. intros Hm. apply pwp_run. intros fs _. unfold in_memory. cbn [the_world]. by rewrite Hm. Qed.

Lemma pwp_ask {A B} (question : kernel -> A) (q : A -> P B) pre w c d (g : tasks -> A) Q :
  (forall k, question k = g (tasks_of k)) -> pwp pre w c d (q (g t)) Q -> pwp pre w c d (ask question ≫= q) Q.
Proof.
  intros Hg. apply pwp_run. intros [tf k] Ht. unfold ask, to_file, sys. cbn in *. by rewrite Hg, Ht.
Qed.

Lemma pwp_assoc {A B C} (m : P A) (f : A -> P B) (q : B -> P C) pre w c d Q :
  pwp pre w c d ((m ≫= f) ≫= q) Q -> pwp pre w c d (m ≫= fun a => f a ≫= q) Q.
Proof.
  intros H k f' Hwf Hc Hd Hs. destruct (H k f' Hwf Hc Hd Hs) as (a & w' & bs & f1 & k' & E & H').
  exists a, w', bs, f1, k'. split; [|exact H']. rewrite <- E. unfold mbind, P_bind. by destruct (m _).
Qed.

(** A call that changes neither files nor threads. *)
Lemma pwp_call {A} (service : kernel -> A * kernel) pre w c d (Q : A -> list Z -> world -> bool -> Z -> Prop) :
  (forall k a k', service k = (a, k') -> quiet k k' /\ Q a pre w c d) -> pwp pre w c d (call service) Q.
Proof.
  intros Hs k f Hwf Hc Hd Ht. unfold call, to_file, sys. cbn [the_files the_kernel the_file the_world the_writable].
  destruct (service k) as [a k'] eqn:E. destruct (Hs _ _ _ E) as (Hq & HQ).
  exists a, w, [], f, k'. rewrite app_nil_r, Hc, Hd. split_and!; try done.
  - by eapply quiet_settled.
  - intros _ _ _. split; [|by rewrite Z.add_0_r]. unfold output. rewrite app_nil_r.
    by rewrite (quiet_contents _ _ _ Hq) by apply Ht.
Qed.

(** A computation with a file of its own. *)
Definition local_wp (w : world) (m : P unit) : Prop :=
  forall k, tasks_of k = t -> exists s', quiet k (the_kernel (the_files s')) /\
    m (CrashState w wr (FileState (Some local_file) k)) = Completes tt s' /\
    the_world s' = w /\ the_writable s' = wr.

Lemma pwp_local (m : P unit) pre w c d (Q : unit -> list Z -> world -> bool -> Z -> Prop) :
  local_wp w m -> Q tt pre w c d -> pwp pre w c d (with_local_file m) Q.
Proof.
  intros Hm HQ k f Hwf Hc Hd Hs. destruct (Hm k (proj1 Hs)) as ([w' wr' [tf k']] & Hq & E & Hw & Hwr).
  cbn in Hq, Hw, Hwr. subst w' wr'. exists tt, w, [], f, k'. unfold with_local_file.
  cbn [the_files the_file the_kernel the_world the_writable]. rewrite E, app_nil_r, Hc, Hd.
  cbn [the_files the_file the_kernel the_world the_writable]. split_and!; try done.
  - by eapply quiet_settled.
  - intros _ _ _. split; [|by rewrite Z.add_0_r]. unfold output. rewrite app_nil_r.
    by rewrite (quiet_contents _ _ _ Hq) by apply Hs.
Qed.

End Rules.

(** ** Members and sections *)

Section Sections.
Context {KN : Kernel} {KS : KernelSpec} {TS : ThreadState} {MK : Mach} {MS : MachSpec}.
Context (chunk n : Z) (t : tasks) (wr : option FIRCLSReadWriteContext) (Hn : 32 <= n < 2 ^ 62).

Notation pwp := (pwp chunk n t wr).

Definition member_text (m : list Z * json) : list Z := key_text (Some m.1) ++ written_text m.2.

Lemma separated_app c l l' : separated c (l ++ l') = separated c l ++ separated (c || negb (bool_decide (l = []))) l'.
Proof.
  revert c. induction l as [|x l IH]; intros c; cbn [app separated].
  - by rewrite bool_decide_true, orb_false_r.
  - rewrite bool_decide_false, orb_true_r, IH, <- !app_assoc by done. by rewrite orb_true_l.
Qed.

(** A member of a section's object, behind others. *)
Lemma pwp_member name v pre w c (Q : unit -> list Z -> world -> bool -> Z -> Prop) :
  literal_ok name = true -> writable n true v -> nesting v <= 2 ->
  Q tt (pre ++ comma c ++ member_text (chars name, v)) w true 2 ->
  pwp pre w c 2 (to_file (write_json (Some (chars name)) v)) Q.
Proof.
  intros Hname Hw Hnest. apply pwp_file.
  apply (inner_emits chunk n v (Some (chars name)) c 1); [by apply write_json_emits|by apply short_literal|done|done|lia].
Qed.

Lemma pwp_section_start name pre w (Q : unit -> list Z -> world -> bool -> Z -> Prop) :
  literal_ok name = true -> Q tt (pre ++ [123] ++ key_text (Some (chars name))) w false 1 ->
  pwp pre w false 0 (to_file (FIRCLSFileWriteSectionStart (literal name))) Q.
Proof. intros Hname. apply pwp_file. apply (section_start_emits chunk n Hn (chars name) false). by apply short_literal. Qed.

Lemma pwp_section_end pre w c (Q : unit -> list Z -> world -> bool -> Z -> Prop) :
  Q tt (pre ++ [125; 10]) w false 0 -> pwp pre w c 1 (to_file FIRCLSFileWriteSectionEnd) Q.
Proof. apply pwp_file. by apply section_end_emits. Qed.

(** A bracket that opens the value of a section or, at depth 2, of a member. *)
Lemma pwp_start opening pre w d (Q : unit -> list Z -> world -> bool -> Z -> Prop) :
  opening <> 0 -> d < 2 ^ 31 - 1 -> Q tt (pre ++ [opening]) w false (d + 1) ->
  pwp pre w false d (to_file (FIRCLSFileWriteCollectionStart opening)) Q.
Proof. intros Ho Hd. apply pwp_file. by apply (start_emits chunk n Hn opening false). Qed.

Lemma pwp_end closing pre w c d (Q : unit -> list Z -> world -> bool -> Z -> Prop) :
  closing <> 0 -> 0 < d -> Q tt (pre ++ [closing]) w true d ->
  pwp pre w c (d + 1) (to_file (FIRCLSFileWriteCollectionEnd closing)) Q.
Proof.
  intros Ho Hd. apply pwp_file. pose proof (end_emits chunk n Hn closing c d Ho ltac:(lia)) as H.
  by rewrite (proj2 (Z.ltb_lt 0 d)) in H by lia.
Qed.

Lemma pwp_key name pre w c d (Q : unit -> list Z -> world -> bool -> Z -> Prop) :
  literal_ok name = true -> Q tt (pre ++ comma c ++ key_text (Some (chars name))) w false d ->
  pwp pre w c d (to_file (FIRCLSFileWriteHashKey (literal name))) Q.
Proof. intros Hname. apply pwp_file. apply key_emits; [done|by apply short_literal]. Qed.

(** A member that is a literal or null. *)
Definition is_literal (s : option (list Z)) : Prop :=
  match s with None => True | Some bs => exists x, bs = literal x /\ literal_ok x = true end.

Definition string_json (s : option (list Z)) : json :=
  match s with None => JNull | Some bs => JString (removelast bs) end.

Lemma pwp_literal name s pre w c (Q : unit -> list Z -> world -> bool -> Z -> Prop) :
  literal_ok name = true -> is_literal s -> Q tt (pre ++ comma c ++ member_text (chars name, string_json s)) w true 2 ->
  pwp pre w c 2 (to_file (FIRCLSFileWriteHashEntryString (literal name) s)) Q.
Proof.
  intros Hname Hs HQ. destruct s as [s|]; [|by apply (pwp_member name JNull)]. destruct Hs as (x & -> & Hx).
  cbn [string_json] in HQ. unfold literal in HQ. rewrite removelast_last in HQ.
  apply (pwp_member name (JString (chars x))); [done|by apply short_literal|done|exact HQ].
Qed.

(** An element that is a string, in an array at a depth. *)
Lemma pwp_string s rest pre w c d (Q : unit -> list Z -> world -> bool -> Z -> Prop) :
  short n s -> Q tt (pre ++ comma c ++ quoted s) w true d ->
  pwp pre w c d (to_file (FIRCLSFileWriteArrayEntryString (Some (s ++ 0 :: rest)))) Q.
Proof.
  intros Hs. apply pwp_file. apply (array_entry_emits chunk n Hn). by apply terminated_string_emits.
Qed.

End Sections.
