(* ===== verification/Redact.v ===== *)
(** Strings in the memory of the process that crashed (Helpers/FIRCLSUtility.m):
    checking that one can be read, and blotting out a UUID in it; and what these
    functions leave, as functions of the string. *)
From S2P Require Import Prelude Memory DwarfData ThreadState DwarfDataSpec DwarfUnwindSpec.

Section Strings.
Context {VM : VmRead}.

(** [for (address = src; address < src + maxlen; ++address)] with the rounds that
    are left. *)
Fixpoint read_string_loop (rounds : nat) (address end_ : Z) : M bool :=
  match rounds with
  | O => timeout
  | S rounds =>
      if negb (address <? end_) then mret true
      else
        bytes ← FIRCLSReadMemory address 1;
        match bytes with
        | None => mret false
        | Some bs => if le_val bs =? 0 then mret true else read_string_loop rounds (u64 (address + 1)) end_
        end
  end.

(** [dest] is the address of a variable, which gets [src] when the result is
    true. *)
Definition FIRCLSReadString (src maxlen : Z) : M bool :=
  read_string_loop (S (Z.to_nat maxlen)) src (u64 (src + maxlen)).

End Strings.

(** [strchr(p, c)] for [c] other than 0: the address, or null. Every round reads
    another allocated byte, whose number bounds the rounds. *)
Fixpoint strchr_loop (fuel : nat) (p c : Z) : M Z :=
  match fuel with
  | O => timeout
  | S fuel =>
      b ← load 1 p;
      if b =? c then mret p else if b =? 0 then mret 0 else strchr_loop fuel (p + 1) c
  end.

Definition strchr (p c : Z) : M Z := fun w => strchr_loop (S (size (mem w))) p c w.

(** [for (int i = 1; i < 37; ++i)] with the rounds that are left. *)
Fixpoint blot_loop (rounds : nat) (p : Z) : M unit :=
  match rounds with
  | O => mret tt
  | S rounds =>
      b ← load 1 p;
      (if b =? 45 then mret tt else store 1 p 42);;
      blot_loop rounds (p + 1)
  end.

(** [while ((openParen = strchr(openParen, '(')) != NULL)] *)
Fixpoint redact_loop (fuel : nat) (openParen : Z) : M unit :=
  match fuel with
  | O => timeout
  | S fuel =>
      openParen ← strchr openParen 40;
      if openParen =? 0 then mret tt
      else
        closeParen ← strchr openParen 41;
        if closeParen =? 0 then mret tt
        else if closeParen - openParen =? 37 then blot_loop 36 (openParen + 1)
        else redact_loop fuel (openParen + 1)
  end.

Definition FIRCLSRedactUUID (value : Z) : M unit := fun w =>
  if value =? 0 then Done tt w else redact_loop (S (size (mem w))) value w.

(** A C string with its terminator. *)
Definition load_string (p : Z) : M (list Z) :=
  n ← strlen p;
  load_bytes p (Z.to_nat (n + 1)).

(** ** Specification *)

Definition blot (b : Z) : Z := if b =? 45 then b else 42.

(** The string after the first pair of parentheses with 36 characters between
    them, none of them the closing one, was blotted out; hyphens stay. *)
Fixpoint redact (s : list Z) : list Z :=
  match s with
  | [] => []
  | c :: s' =>
      if c =? 40 then
        match list_find (eq 41) s' with
        | None => s
        | Some (i, _) => if (i =? 36)%nat then c :: (blot <$> take 36 s') ++ drop 36 s' else c :: redact s'
        end
      else c :: redact s'
  end.

Lemma length_redact s : length (redact s) = length s.
Proof.
  induction s as [|c s IH]; [done|]. cbn [redact]. destruct (c =? 40); [|by cbn; rewrite IH].
  destruct (list_find (eq 41) s) as [[i x]|] eqn:E; [|done].
  destruct (i =? 36)%nat; [|by cbn; rewrite IH]. cbn [length]. by rewrite length_app, length_fmap, <- length_app, take_drop.
Qed.

(** ** Memory *)

(** Writing what is there already. *)
Lemma write_bytes_same m a bs bs' :
  holds m a bs -> write_bytes m a (bs ++ bs') = write_bytes m (a + Z.of_nat (length bs)) bs'.
Proof.
  revert a. induction bs as [|b bs IH]; intros a Hh; [by rewrite Z.add_0_r|].
  apply holds_cons in Hh as [Hb Hh]. cbn [app write_bytes length]. rewrite Hb, insert_id by done.
  rewrite IH by done. f_equal. lia.
Qed.

Lemma write_bytes_rest m a bs bs' m' :
  write_bytes m a bs = Some m' -> holds m (a + Z.of_nat (length bs)) bs' -> write_bytes m a (bs ++ bs') = Some m'.
Proof.
  intros E Hh. eapply write_bytes_app; [exact E|]. rewrite <- (app_nil_r bs'). apply write_bytes_same.
  apply write_bytes_inv in E as (_ & _ & Hsame). unfold holds in *. rewrite <- Hh. apply read_bytes_same.
  intros x Hx. apply Hsame. lia.
Qed.

Lemma strchr_loop_run fuel p c s w :
  c <> 0 -> Forall (fun b => b <> 0) s -> holds (mem w) p (c_string s) -> (length s < fuel)%nat ->
  strchr_loop fuel p c w = Done (match list_find (eq c) s with Some (i, _) => p + Z.of_nat i | None => 0 end) w.
Proof.
  intros Hc. revert p fuel. induction s as [|b s IH]; intros p fuel Hs Hh Hf; (destruct fuel as [|fuel]; [lia|]); cbn [strchr_loop].
  - rewrite (bind_done _ _ _ _ _ (load_byte _ _ _ _ Hh)), (proj2 (Z.eqb_neq 0 c)) by congruence. done.
  - apply Forall_cons in Hs as [Hb Hs]. change (c_string (b :: s)) with (b :: c_string s) in Hh.
    rewrite (bind_done _ _ _ _ _ (load_byte _ _ _ _ Hh)). cbn [list_find]. destruct (Z.eqb_spec b c) as [->|Hne].
    + rewrite decide_True by done. unfold mret, M_ret. by rewrite Z.add_0_r.
    + rewrite (proj2 (Z.eqb_neq b 0)), decide_False by congruence. cbn [length] in Hf.
      rewrite IH by (done || lia || by apply holds_tail in Hh).
      destruct (list_find (eq c) s) as [[i x]|]; [|done]. cbn. f_equal. lia.
Qed.

Lemma strchr_run p c s w :
  c <> 0 -> Forall (fun b => b <> 0) s -> holds (mem w) p (c_string s) ->
  strchr p c w = Done (match list_find (eq c) s with Some (i, _) => p + Z.of_nat i | None => 0 end) w.
Proof.
  intros Hc Hs Hh. pose proof (read_bytes_size _ _ _ _ Hh) as Hl. unfold c_string in Hl. rewrite length_app in Hl. cbn in Hl.
  unfold strchr. apply strchr_loop_run; [done..|lia].
Qed.

Lemma blot_loop_run p bs w :
  holds (mem w) p bs -> exists m, write_bytes (mem w) p (blot <$> bs) = Some m /\
    blot_loop (length bs) p w = Done tt (set_mem m w).
Proof.
  revert p w. induction bs as [|b bs IH]; intros p w Hh.
  { exists (mem w). split; [done|]. by destruct w. }
  pose proof Hh as [Hb Ht]%holds_cons. cbn [length blot_loop fmap list_fmap write_bytes].
  rewrite (bind_done _ _ _ _ _ (load_byte _ _ _ _ Hh)), Hb. unfold blot at 1. destruct (Z.eqb_spec b 45) as [->|Hne].
  - rewrite insert_id by done. exact (IH (p + 1) w Ht).
  - assert (Es : store 1 p 42 w = Done tt (set_mem (<[p := 42]> (mem w)) w))
      by (unfold store, store_bytes; cbn; by rewrite Hb).
    rewrite (bind_done _ _ _ _ _ Es).
    destruct (IH (p + 1) (set_mem (<[p := 42]> (mem w)) w)) as (m & Em & El); [|by exists m].
    unfold holds in *. cbn [mem set_mem]. rewrite <- Ht. apply read_bytes_same. intros x Hx.
    apply lookup_insert_ne. lia.
Qed.

(** ** The loop *)

Lemma redact_skip pre s : Forall (fun b => b <> 40) pre -> redact (pre ++ s) = pre ++ redact s.
Proof.
  induction 1 as [|b pre Hb _ IH]; [done|]. cbn [app redact]. by rewrite (proj2 (Z.eqb_neq _ _)), IH.
Qed.

Lemma redact_nothing s : list_find (eq 40) s = None -> redact s = s.
Proof.
  intros H. rewrite <- (app_nil_r s) at 1. rewrite redact_skip; [by rewrite app_nil_r|].
  apply list_find_None in H. eapply Forall_impl; [exact H|]. cbn. congruence.
Qed.

Lemma list_find_split (c : Z) s i x :
  list_find (eq c) s = Some (i, x) -> exists pre post, s = pre ++ c :: post /\ length pre = i /\ Forall (fun b => b <> c) pre.
Proof.
  intros (Hi & <- & Hpre)%list_find_Some. exists (take i s), (drop (S i) s).
  pose proof (lookup_lt_Some _ _ _ Hi). split; [by rewrite take_drop_middle|]. split; [rewrite length_take; lia|].
  apply Forall_lookup. intros j y [Hj Hlt]%lookup_take_Some. specialize (Hpre j y Hj Hlt). congruence.
Qed.

Lemma redact_loop_run fuel p s w :
  0 < p -> Forall (fun b => b <> 0) s -> holds (mem w) p (c_string s) -> (length s < fuel)%nat ->
  exists m, write_bytes (mem w) p (redact s) = Some m /\ redact_loop fuel p w = Done tt (set_mem m w).
Proof.
  revert p s. induction fuel as [|fuel IH]; intros p s Hp Hs Hh Hf; [lia|]. cbn [redact_loop].
  rewrite (bind_done _ _ _ _ _ (strchr_run p 40 s w ltac:(done) Hs Hh)). pose proof Hh as [Hhs _]%holds_app.
  assert (Hsame : exists m, write_bytes (mem w) p s = Some m /\ (mret tt : M unit) w = Done tt (set_mem m w)).
  { exists (mem w). rewrite <- (app_nil_r s), write_bytes_same by done. split; [done|]. by destruct w. }
  destruct (list_find (eq 40) s) as [[i x]|] eqn:E40; [|by rewrite redact_nothing].
  rewrite (proj2 (Z.eqb_neq _ _)) by lia. apply list_find_split in E40 as (pre & post & -> & <- & Hpre).
  rewrite redact_skip by done. apply Forall_app in Hs as [_ Hs]. pose proof Hhs as [Hhp _]%holds_app.
  unfold c_string in Hh. rewrite <- app_assoc in Hh. apply holds_app in Hh as [_ Hh]. set (q := p + Z.of_nat (length pre)) in *.
  change (40 :: post) with ([40] ++ post) in Hh.
  rewrite (bind_done _ _ _ _ _ (strchr_run q 41 (40 :: post) w ltac:(done) Hs Hh)). rewrite write_bytes_same in * by done.
  fold q in Hsame |- *. apply Forall_cons in Hs as [_ Hs]. cbn [list_find redact]. rewrite decide_False by done.
  destruct (list_find (eq 41) post) as [[j y]|] eqn:E41; cbn [fmap option_fmap option_map prod_map]; [|exact Hsame].
  rewrite (proj2 (Z.eqb_neq _ 0)) by lia. cbn [app] in Hh. pose proof Hh as [H40 Hpost]%holds_cons.
  destruct (Nat.eqb_spec j 36) as [->|Hne].
  - rewrite !Z.eqb_refl. replace (q + Z.of_nat (S (36%nat, y).1) - q) with 37 by (cbn; lia). rewrite Z.eqb_refl. apply list_find_split in E41 as (a & b & -> & Ha & _).
    destruct (blot_loop_run (q + 1) a w) as (m & Em & El).
    { unfold c_string in Hpost. rewrite <- app_assoc in Hpost. by apply holds_app in Hpost as [Hpost _]. }
    rewrite Ha in El. exists m. split; [|exact El]. cbn [write_bytes]. rewrite H40, insert_id by done.
    rewrite take_app_length', drop_app_length' by done. apply write_bytes_rest; [done|].
    rewrite length_fmap. unfold c_string in Hpost. rewrite <- app_assoc in Hpost. apply holds_app in Hpost as [_ Hpost].
    change ((41 :: b) ++ [0]) with ([41] ++ b ++ [0]) in Hpost. rewrite app_assoc in Hpost.
    by apply holds_app in Hpost as [Hpost _].
  - rewrite Z.eqb_refl. replace (q + Z.of_nat (S (j, y).1) - q =? 37) with false by (symmetry; apply Z.eqb_neq; cbn; lia).
    destruct (IH (q + 1) post) as (m & Em & El); [lia|done|done|rewrite length_app in Hf; cbn in Hf; lia|].
    exists m. split; [|exact El]. cbn [write_bytes]. by rewrite H40, insert_id.
Qed.

Lemma redact_run p s w :
  0 < p -> Forall (fun b => b <> 0) s -> holds (mem w) p (c_string s) ->
  exists m, write_bytes (mem w) p (redact s) = Some m /\ FIRCLSRedactUUID p w = Done tt (set_mem m w).
Proof.
  intros Hp Hs Hh. unfold FIRCLSRedactUUID. rewrite (proj2 (Z.eqb_neq _ _)) by lia. apply redact_loop_run; [done..|].
  pose proof (read_bytes_size _ _ _ _ Hh) as Hl. unfold c_string in Hl. rewrite length_app in Hl. cbn in Hl. lia.
Qed.

(** A UUID in parentheses, behind a text without any. *)
Lemma redact_uuid pre uuid post :
  40 ∉ pre -> length uuid = 36%nat -> 41 ∉ uuid ->
  redact (pre ++ 40 :: uuid ++ 41 :: post) = pre ++ 40 :: (blot <$> uuid) ++ 41 :: post.
Proof.
  intros Hpre Hl Hu. rewrite redact_skip by (apply Forall_forall; intros x Hx ->; done). f_equal. cbn [redact].
  rewrite Z.eqb_refl. assert (E : list_find (eq 41) (uuid ++ 41 :: post) = Some (36%nat, 41)).
  { apply list_find_Some. split_and!; [by apply list_lookup_middle|done|].
    intros j y Hj Hlt <-. apply Hu. rewrite lookup_app_l in Hj by lia. by eapply list_elem_of_lookup_2. }
  rewrite E, Nat.eqb_refl, take_app_length', drop_app_length' by done. done.
Qed.

(** ** Strings *)

Lemma load_string_run p s w :
  Forall (fun b => b <> 0) s -> holds (mem w) p (c_string s) -> load_string p w = Done (c_string s) w.
Proof.
  intros Hs Hh. unfold load_string. rewrite (bind_done _ _ _ _ _ (strlen_run p s w Hs Hh)).
  unfold load_bytes. unfold holds, c_string in *. rewrite length_app in Hh. cbn [length] in Hh.
  replace (Z.to_nat (Z.of_nat (length s) + 1)) with (length s + 1)%nat by lia. by rewrite Hh.
Qed.

Section ReadString.
Context {VM : VmRead} {VMS : DwarfExpressionSpec.VmReadSpec}.

Lemma read_string_loop_run s p end_ rounds w :
  Forall (fun b => b <> 0) s -> holds (mem w) p (c_string s) -> 4096 <= p ->
  p <= end_ < 2 ^ 64 -> (Z.to_nat (end_ - p) < rounds)%nat ->
  read_string_loop rounds p end_ w = Done true w.
Proof.
  intros Hs. revert p rounds. induction Hs as [|b s Hb Hs IH]; intros p rounds Hh Hp He Hr;
    (destruct rounds as [|rounds]; [lia|]); cbn [read_string_loop] in *;
    (destruct (Z.ltb_spec p end_); [|done]); cbn [negb]; unfold c_string in Hh; cbn [app] in Hh;
    pose proof Hh as [Hm Ht]%holds_cons.
  - rewrite (bind_done _ _ _ _ _ (DwarfExpressionSpec.read_memory_run p 1 [0] w ltac:(by apply Z.leb_le) Hh)). done.
  - assert (Hone : read_bytes (mem w) p 1 = Some [b]) by (cbn; by rewrite Hm).
    rewrite (bind_done _ _ _ _ _ (DwarfExpressionSpec.read_memory_run p 1 [b] w ltac:(by apply Z.leb_le) Hone)).
    cbn [le_val]. rewrite (proj2 (Z.eqb_neq _ _)) by lia. rewrite wrap_small by lia. apply IH; (done || lia).
Qed.

(** A string can be read, even one that ends behind the limit. *)
Lemma read_string_run s p maxlen w :
  Forall (fun b => b <> 0) s -> holds (mem w) p (c_string s) -> 4096 <= p -> 0 <= maxlen -> p + maxlen < 2 ^ 64 ->
  FIRCLSReadString p maxlen w = Done true w.
Proof.
  intros Hs Hh Hp Hl He. unfold FIRCLSReadString. rewrite wrap_small by lia. apply (read_string_loop_run s); (done || lia).
Qed.

End ReadString.

(** ** The blotted string *)

Lemma redact_forall (P : Z -> Prop) s : P 42 -> Forall P s -> Forall P (redact s).
Proof.
  intros H42. induction 1 as [|c s Hc Hs IH]; [done|]. cbn [redact]. destruct (c =? 40); [|by constructor].
  destruct (list_find (eq 41) s) as [[i x]|]; [|by constructor]. destruct (i =? 36)%nat; [|by constructor].
  constructor; [done|]. apply Forall_app. split; [|by apply Forall_drop].
  apply Forall_fmap. eapply Forall_impl; [by apply Forall_take|]. intros b Hb. cbn. unfold blot. by destruct (b =? 45).
Qed.

Lemma redacted_holds p s w m :
  holds (mem w) p (c_string s) -> write_bytes (mem w) p (redact s) = Some m -> holds m p (c_string (redact s)).
Proof.
  intros Hh Hm. unfold c_string in *. apply holds_app in Hh as [_ H0]. rewrite <- (length_redact s) in H0.
  pose proof (write_bytes_rest _ _ _ _ _ Hm H0) as Hw. by apply write_bytes_inv in Hw as (_ & Hr & _).
Qed.
