(* ===== verification/ProcessInfo.v ===== *)
(** The other sections of a crash report about the process
    (Components/FIRCLSProcess.c, FIRCLSHostWriteDiskUsage of
    Components/FIRCLSHost.m): the names of the threads and of their dispatch
    queues, statistics, and what the runtime knows about the crash. *)
From S2P Require Import Prelude Memory DwarfData ThreadState CompactUnwind Unwind File FileFormat Crash Process Redact.

(** ** What the system tells *)

(** [vm_statistics_data_t], of 32-bit counts. *)
Record vm_statistics := VmStatistics { active_count : Z; inactive_count : Z; wire_count : Z; free_count : Z }.

(** [time_value_t], of two [int]s. *)
Record time_value := TimeValue { seconds : Z; microseconds : Z }.

Record task_basic_info := TaskInfo {
  virtual_size : Z;
  resident_size : Z;
  user_time : time_value;
  system_time : time_value
}.

(** [struct statfs] *)
Record file_system := FileSystem { f_bavail : Z; f_blocks : Z; f_bsize : Z }.

(** The calls return [None] when they fail. *)
Class SystemInfo {KN : Kernel} := {
  host_statistics : kernel -> option vm_statistics * kernel;
  task_info : Z -> kernel -> option task_basic_info * kernel;
  sys_statfs : option (list Z) -> kernel -> option file_system * kernel
}.

(** The functions of the Objective-C runtime. *)
Class ObjCRuntime := {
  objc_msgSend : Z;
  objc_msgSendSuper : Z;
  objc_msgSend_stret : Z;
  objc_msgSendSuper_stret : Z;
  objc_msgSend_fpret : Z
}.

(** The address range that counts as the function at an address. *)
Definition in_function (pc start : Z) : bool := (start <=? pc) && (pc <=? u64 (start + 66)).

(** The address of the selector in the registers, null when the thread is not in
    a function of the runtime: it depends on the architecture. *)
Class SelectorArch {TS : ThreadState} := { selector_address : thread_context -> Z }.

(** ** Strings that are recorded *)

(** A [const char*]: null, a literal, or an address in the process. *)
Inductive string_ref := NullString | LiteralString (s : list Z) | StringAt (address : Z).

Section Info.
Context {KN : Kernel} {TS : ThreadState} {MK : Mach} {SI : SystemInfo} {VM : VmRead}.

Definition string_bytes (s : string_ref) : P (option (list Z)) :=
  match s with
  | NullString => mret None
  | LiteralString bytes => mret (Some bytes)
  | StringAt address => bytes ← in_memory (load_string address); mret (Some bytes)
  end.

(** ** Names *)

Definition THREAD_NAME_BUFFER_SIZE : nat := 64.

(** The buffer is a local variable of the caller; its contents are returned. *)
Definition FIRCLSProcessGetThreadName (thread : Z) (buffer : list Z) : P (bool * list Z) :=
  pthread ← ask (fun k => pthread_from_mach_thread_np thread (tasks_of k));
  '(status, buffer) ← ask (fun k => pthread_getname_np pthread buffer (tasks_of k));
  mret (status =? 0, buffer).

Fixpoint thread_names_loop (rounds : nat) (process : FIRCLSProcess) (i : Z) : P unit :=
  match rounds with
  | O => mret tt
  | S rounds =>
      thread ← FIRCLSProcessGetThread process i;
      name ← defined (store_at (uninit THREAD_NAME_BUFFER_SIZE) 0 [0]);
      '(_, name) ← FIRCLSProcessGetThreadName thread name;
      to_file (FIRCLSFileWriteArrayEntryString (Some name));;
      thread_names_loop rounds process (i + 1)
  end.

Definition FIRCLSProcessRecordThreadNames (process : FIRCLSProcess) : P unit :=
  to_file (FIRCLSFileWriteSectionStart (literal "thread_names"));;
  to_file FIRCLSFileWriteArrayStart;;
  let threadCount := FIRCLSProcessGetThreadCount process in
  thread_names_loop (Z.to_nat threadCount) process 0;;
  to_file FIRCLSFileWriteArrayEnd;;
  to_file FIRCLSFileWriteSectionEnd.

Definition FIRCLSProcessGetThreadDispatchQueueName (thread : Z) : P string_ref :=
  '(status, queueAddress) ← ask (fun k => thread_info_dispatch_qaddr thread (tasks_of k));
  if negb (status =? KERN_SUCCESS) then mret NullString
  else if queueAddress =? 0 then mret (LiteralString (literal ""))
  else
    bytes ← in_memory (FIRCLSReadMemory queueAddress 8);
    match bytes with
    | None => mret (LiteralString (literal ""))
    | Some bs =>
        let queue := le_val bs in
        if queue =? 0 then mret (LiteralString (literal ""))
        else
          string ← in_memory (dispatch_queue_get_label queue);
          ok ← in_memory (FIRCLSReadString string 128);
          if negb ok then mret (LiteralString (literal "")) else mret (StringAt string)
    end.

Fixpoint queue_names_loop (rounds : nat) (process : FIRCLSProcess) (i : Z) : P unit :=
  match rounds with
  | O => mret tt
  | S rounds =>
      thread ← FIRCLSProcessGetThread process i;
      name ← FIRCLSProcessGetThreadDispatchQueueName thread;
      name ← string_bytes (match name with NullString => LiteralString (literal "") | _ => name end);
      to_file (FIRCLSFileWriteArrayEntryString name);;
      queue_names_loop rounds process (i + 1)
  end.

Definition FIRCLSProcessRecordDispatchQueueNames (process : FIRCLSProcess) : P unit :=
  to_file (FIRCLSFileWriteSectionStart (literal "dispatch_queue_names"));;
  to_file FIRCLSFileWriteArrayStart;;
  let threadCount := FIRCLSProcessGetThreadCount process in
  queue_names_loop (Z.to_nat threadCount) process 0;;
  to_file FIRCLSFileWriteArrayEnd;;
  to_file FIRCLSFileWriteSectionEnd.

(** ** Statistics *)

(** [pageSize] is [_firclsContext.readonly->host.pageSize]; the pointers for the
    results are those of variables. *)
Definition FIRCLSProcessGetMemoryUsage (pageSize : Z) : P (option (Z * Z * Z * Z)) :=
  vmStat ← call host_statistics;
  match vmStat with
  | None => mret None
  | Some v =>
      mret (Some (u64 (active_count v * pageSize), u64 (inactive_count v * pageSize),
                  u64 (wire_count v * pageSize), u64 (free_count v * pageSize)))
  end.

Definition FIRCLSProcessGetInfo (process : FIRCLSProcess) : P (option (Z * Z * time_value * time_value)) :=
  taskInfo ← call (task_info (task process));
  match taskInfo with
  | None => mret None
  | Some i => mret (Some (virtual_size i, resident_size i, user_time i, system_time i))
  end.

(** An [int], when the result is one. *)
Definition int_value (x : Z) : P Z := if (- 2 ^ 31 <=? x) && (x <? 2 ^ 31) then mret x else faults.

(** [(time.seconds * 1000 * 1000) + time.microseconds] *)
Definition time_microseconds (time : time_value) : P Z :=
  x ← int_value (seconds time * 1000);
  x ← int_value (x * 1000);
  x ← int_value (x + microseconds time);
  mret (u64 x).

Definition FIRCLSProcessRecordStats (pageSize : Z) (process : FIRCLSProcess) : P unit :=
  usage ← FIRCLSProcessGetMemoryUsage pageSize;
  match usage with
  | None => mret tt
  | Some (active, inactive, wired, freeMem) =>
      info ← FIRCLSProcessGetInfo process;
      match info with
      | None => mret tt
      | Some (virtualSize, residentSize, userTime, systemTime) =>
          to_file (FIRCLSFileWriteSectionStart (literal "process_stats"));;
          to_file FIRCLSFileWriteHashStart;;
          to_file (FIRCLSFileWriteHashEntryUint64 (literal "active") active);;
          to_file (FIRCLSFileWriteHashEntryUint64 (literal "inactive") inactive);;
          to_file (FIRCLSFileWriteHashEntryUint64 (literal "wired") wired);;
          to_file (FIRCLSFileWriteHashEntryUint64 (literal "freeMem") freeMem);;
          to_file (FIRCLSFileWriteHashEntryUint64 (literal "free_mem") freeMem);;
          to_file (FIRCLSFileWriteHashEntryUint64 (literal "virtual") virtualSize);;
          to_file (FIRCLSFileWriteHashEntryUint64 (literal "resident") active);;
          userMicroseconds ← time_microseconds userTime;
          to_file (FIRCLSFileWriteHashEntryUint64 (literal "user_time") userMicroseconds);;
          systemMicroseconds ← time_microseconds systemTime;
          to_file (FIRCLSFileWriteHashEntryUint64 (literal "sys_time") systemMicroseconds);;
          to_file FIRCLSFileWriteHashEnd;;
          to_file FIRCLSFileWriteSectionEnd
      end
  end.

(** [path] is [_firclsContext.readonly->host.documentDirectoryPath]. *)
Definition FIRCLSHostWriteDiskUsage (path : option (list Z)) : P unit :=
  to_file (FIRCLSFileWriteSectionStart (literal "storage"));;
  to_file FIRCLSFileWriteHashStart;;
  stats ← call (sys_statfs path);
  match stats with
  | Some v =>
      to_file (FIRCLSFileWriteHashEntryUint64 (literal "free") (u64 (f_bavail v * f_bsize v)));;
      to_file (FIRCLSFileWriteHashEntryUint64 (literal "total") (u64 (f_blocks v * f_bsize v)))
  | None => mret tt
  end;;
  to_file FIRCLSFileWriteHashEnd;;
  to_file FIRCLSFileWriteSectionEnd.

(** ** The runtime *)

Context {RA : RecordArch} {SA : SelectorArch}.
Context (images : image_table) (garbage : thread_context).

Definition FIRCLSProcessGetObjCSelectorName (registers : thread_context) : P string_ref :=
  let selectorAddress := selector_address registers in
  if selectorAddress =? 0 then mret (LiteralString (literal ""))
  else
    ok ← in_memory (FIRCLSReadString selectorAddress 128);
    if negb ok then mret (LiteralString (literal "")) else mret (StringAt selectorAddress).

Definition crash_info_size : nat := 56.

(** [version] and [message], at offsets 0 and 8. *)
Definition crash_info_version (info : list Z) : Z := le_val (take 4 info).
Definition crash_info_message (info : list Z) : Z := le_val (take 8 (drop 8 info)).

(** One round of the loop over the images. *)
Definition record_crash_info (node : FIRCLSBinaryImageRuntimeNode) : P unit :=
  if node_crashInfo node =? 0 then mret tt
  else
    info ← in_memory (FIRCLSReadMemory (node_crashInfo node) crash_info_size);
    match info with
    | None => mret tt
    | Some info =>
        if 5 <? crash_info_version info then mret tt
        else
          let message := crash_info_message info in
          if message =? 0 then mret tt
          else
            ok ← in_memory (FIRCLSReadString message 256);
            if negb ok then mret tt
            else
              in_memory (FIRCLSRedactUUID message);;
              string ← in_memory (load_string message);
              to_file (FIRCLSFileWriteArrayEntryHexEncodedString (Some string))
    end.

Fixpoint crash_info_loop (nodes : list FIRCLSBinaryImageRuntimeNode) : P unit :=
  match nodes with
  | [] => mret tt
  | node :: nodes => record_crash_info node;; crash_info_loop nodes
  end.

Definition FIRCLSProcessRecordCrashInfo : P unit :=
  if nodes_addr images =? 0 then mret tt else crash_info_loop (nodes images).

(** The registers are recorded whether or not they could be had. *)
Definition FIRCLSProcessRecordRuntimeInfo (process : FIRCLSProcess) : P unit :=
  '(_, mcontext) ← FIRCLSProcessGetThreadState process (crashedThread process) garbage;
  to_file (FIRCLSFileWriteSectionStart (literal "runtime"));;
  to_file FIRCLSFileWriteHashStart;;
  name ← FIRCLSProcessGetObjCSelectorName mcontext;
  string ← string_bytes name;
  to_file (FIRCLSFileWriteHashEntryString (literal "objc_selector") string);;
  to_file (FIRCLSFileWriteHashKey (literal "crash_info_entries"));;
  to_file FIRCLSFileWriteArrayStart;;
  FIRCLSProcessRecordCrashInfo;;
  to_file FIRCLSFileWriteArrayEnd;;
  to_file FIRCLSFileWriteHashEnd;;
  to_file FIRCLSFileWriteSectionEnd.

End Info.
