(* ===== verification/ProcessInfoSpec.v ===== *)
(** What the sections of a crash report about the process contain: the names of
    the threads and of their queues, the statistics, and what the runtime knows. *)
From S2P Require Import Prelude Memory DwarfData ThreadState DwarfDataSpec CompactUnwind Unwind.
From S2P Require Import File FileFormat FileSpec FileFormatSpec FileJson.
From S2P Require Import Crash Process CrashSpec Redact ProcessInfo.

(** ** What the system documents *)

(** The queries change neither files nor threads; sizes are 64-bit numbers. *)
Class SystemSpec {KN : Kernel} {KS : KernelSpec} {TS : ThreadState} {MK : Mach} {MS : MachSpec} {SI : SystemInfo} : Prop := {
  host_statistics_quiet k r k' : host_statistics k = (r, k') -> quiet k k';
  task_info_quiet task k r k' : task_info task k = (r, k') -> quiet k k';
  task_info_sizes task k i k' :
    task_info task k = (Some i, k') -> 0 <= virtual_size i < 2 ^ 64 /\ 0 <= resident_size i < 2 ^ 64;
  statfs_quiet path k r k' : sys_statfs path k = (r, k') -> quiet k k'
}.

Section Info.
Context {KN : Kernel} {KS : KernelSpec} {TS : ThreadState} {MK : Mach} {MS : MachSpec} {SI : SystemInfo} {SS : SystemSpec}.
Context {VM : VmRead} {VMS : DwarfExpressionSpec.VmReadSpec}.
Context (chunk n : Z) (Hn : 32 <= n < 2 ^ 62) (t : tasks) (wr : option FIRCLSReadWriteContext).
Context (process : FIRCLSProcess) (Hcount : threadCount process = Z.of_nat (length (process_threads process))).

Notation pwp := (pwp chunk n t wr).

(** After a section, behind [pre]. *)
Definition section_done (pre bs : list Z) (w : world) : unit -> list Z -> world -> bool -> Z -> Prop :=
  fun _ pre' w' c d => pre' = pre ++ bs /\ w' = w /\ c = false /\ d = 0.

(** After the entries of an array, at a depth. *)
Definition entries_done (pre bs : list Z) (w : world) (d : Z) : unit -> list Z -> world -> bool -> Z -> Prop :=
  fun _ pre' w' _ d' => pre' = pre ++ bs /\ w' = w /\ d' = d.

Lemma entries_none pre w c d : entries_done pre (separated c []) w d tt pre w c d.
Proof. split; [by rewrite app_nil_r|done]. Qed.

Lemma entries_more pre c text texts w d u pre' w' c' d' :
  entries_done (pre ++ comma c ++ text) (separated true texts) w d u pre' w' c' d' ->
  entries_done pre (separated c (text :: texts)) w d u pre' w' c' d'.
Proof. intros (-> & -> & ->). split; [|done]. cbn [separated]. change (if c then [44] else []) with (comma c). by rewrite <- !app_assoc. Qed.

(** A section that is an array. *)
Lemma pwp_array_section name (loop : P unit) texts pre w :
  literal_ok name = true ->
  (forall pre, pwp pre w false 2 loop (entries_done pre (separated false texts) w 2)) ->
  pwp pre w false 0
    (to_file (FIRCLSFileWriteSectionStart (literal name));; to_file FIRCLSFileWriteArrayStart;; loop;;
     to_file FIRCLSFileWriteArrayEnd;; to_file FIRCLSFileWriteSectionEnd)
    (section_done pre ([123] ++ key_text (Some (chars name)) ++ [91] ++ separated false texts ++ [93; 125; 10]) w).
Proof.
  intros Hname Hl. apply pwp_bind, (pwp_section_start _ _ _ _ Hn); [done|].
  apply pwp_bind, (pwp_start _ _ _ _ Hn 91); [done..|]. apply pwp_bind. eapply pwp_mono; [apply Hl|].
  intros [] ? ? c d (-> & -> & ->). apply pwp_bind, (pwp_end _ _ _ _ Hn 93 _ _ _ 1); [done..|].
  apply (pwp_section_end _ _ _ _ Hn). split; [|done]. by rewrite <- !app_assoc.
Qed.

(** ** Names *)

Definition name_buffer : list Z := default [] (store_at (uninit THREAD_NAME_BUFFER_SIZE) 0 [0]).

(** [s] is the name of a thread. *)
Definition thread_name (thread : Z) (s : list Z) : Prop :=
  short n s /\ exists rest,
    (pthread_getname_np (pthread_from_mach_thread_np thread t) name_buffer t).2 = s ++ 0 :: rest.

Lemma pwp_thread before thread after pre w c d A (q : Z -> P A) Q :
  process_threads process = before ++ thread :: after -> pwp pre w c d (q thread) Q ->
  pwp pre w c d (thread ← FIRCLSProcessGetThread process (Z.of_nat (length before)); q thread) Q.
Proof. intros E. apply pwp_run. intros fs _. by eapply get_thread_run. Qed.

Lemma thread_names_loop_run todo names before pre w c :
  Forall2 thread_name todo names -> process_threads process = before ++ todo ->
  pwp pre w c 2 (thread_names_loop (length todo) process (Z.of_nat (length before)))
    (entries_done pre (separated c (map quoted names)) w 2).
Proof.
  intros Hnames. revert before pre c. induction Hnames as [|thread name todo names [Hs [rest Er]] _ IH]; intros before pre c Hp.
  { apply pwp_ret, entries_none. }
  cbn [length thread_names_loop map separated]. eapply pwp_thread; [done|].
  assert (E : store_at (uninit THREAD_NAME_BUFFER_SIZE) 0 [0] = Some name_buffer).
  { unfold name_buffer. rewrite store_at_some; [done|lia|]. rewrite uninit_length. by apply Z.leb_le. }
  rewrite E. eapply pwp_run; [by intros|]. unfold FIRCLSProcessGetThreadName.
  eapply pwp_run.
  { intros [tf k] Ht. unfold mbind, P_bind, ask, to_file, sys. cbn [the_kernel the_files the_world the_writable the_file] in *.
    rewrite Ht. rewrite (surjective_pairing (pthread_getname_np _ _ _)), Er. reflexivity. }
  cbn [fst snd]. apply pwp_bind, (pwp_string _ _ _ _ Hn); [done|].
  rewrite (next_index before thread).
  eapply pwp_mono; [apply IH; by rewrite Hp, <- app_assoc|]. intros. by apply entries_more.
Qed.

(** ** Queues *)

(** A string in the process that is recorded. *)
Definition string_at (w : world) (p : Z) (s : list Z) : Prop :=
  Forall (fun b => b <> 0) s /\ holds (mem w) p (c_string s) /\ 4096 <= p /\ p + 256 < 2 ^ 64.

Lemma string_at_read w p s maxlen :
  string_at w p s -> 0 <= maxlen <= 256 -> FIRCLSReadString p maxlen w = Done true w.
Proof. intros (Hs & Hh & Hp & Hp') Hm. apply (read_string_run s); (done || lia). Qed.

Lemma string_at_run w p s fs :
  string_at w p s ->
  string_bytes (StringAt p) (CrashState w wr fs) = Completes (Some (c_string s)) (CrashState w wr fs).
Proof.
  intros (Hs & Hh & Hp & Hp').
  cbn [string_bytes]. by rewrite (in_memory_bind _ _ _ _ _ _ _ (load_string_run p s w Hs Hh)).
Qed.

(** What is recorded as the name of the queue of a thread: nothing, where there is
    no queue or it cannot be read. *)
Inductive queue_name (w : world) (thread : Z) : list Z -> Prop :=
  | no_queue :
      (thread_info_dispatch_qaddr thread t).1 <> KERN_SUCCESS \/ (thread_info_dispatch_qaddr thread t).2 = 0 ->
      queue_name w thread []
  | unreadable_queue :
      FIRCLSReadMemory (thread_info_dispatch_qaddr thread t).2 8 w = Done None w -> queue_name w thread []
  | null_queue bs :
      FIRCLSReadMemory (thread_info_dispatch_qaddr thread t).2 8 w = Done (Some bs) w -> le_val bs = 0 ->
      queue_name w thread []
  | unreadable_label bs label :
      FIRCLSReadMemory (thread_info_dispatch_qaddr thread t).2 8 w = Done (Some bs) w ->
      dispatch_queue_get_label (le_val bs) w = Done label w -> FIRCLSReadString label 128 w = Done false w ->
      queue_name w thread []
  | queue_label bs label s :
      (thread_info_dispatch_qaddr thread t).1 = KERN_SUCCESS -> (thread_info_dispatch_qaddr thread t).2 <> 0 ->
      FIRCLSReadMemory (thread_info_dispatch_qaddr thread t).2 8 w = Done (Some bs) w -> le_val bs <> 0 ->
      dispatch_queue_get_label (le_val bs) w = Done label w -> string_at w label s ->
      queue_name w thread s.

Lemma queue_name_run w thread s fs :
  queue_name w thread s -> tasks_of (the_kernel fs) = t ->
  (name ← FIRCLSProcessGetThreadDispatchQueueName thread;
   string_bytes (match name with NullString => LiteralString (literal "") | _ => name end)) (CrashState w wr fs) =
    Completes (Some (c_string s)) (CrashState w wr fs).
Proof.
  intros Hq Ht. unfold FIRCLSProcessGetThreadDispatchQueueName.
  unfold mbind at 1 2, P_bind at 1 2, ask, to_file, sys. cbn [the_files the_kernel the_file the_world the_writable].
  rewrite Ht. destruct fs as [tf k]. destruct (thread_info_dispatch_qaddr thread t) as [status queue] eqn:Eq.
  destruct (Z.eqb_spec status KERN_SUCCESS) as [->|Hne]; cbn [negb].
  2: { destruct Hq; rewrite ?Eq in *; done. }
  destruct (Z.eqb_spec queue 0) as [->|Hq0]; [destruct Hq; rewrite ?Eq in *; done|].
  destruct Hq as [[?|?]|Hr|bs Hr H0|bs label Hr Hl Hrs|bs label s _ _ Hr H0 Hl Hs]; rewrite Eq in *; cbn [fst snd] in *;
    try done; rewrite (in_memory_bind _ _ _ _ _ _ _ Hr); try done; cbv zeta.
  - by rewrite H0.
  - destruct (le_val bs =? 0); [done|].
    rewrite (in_memory_bind _ _ _ _ _ _ _ Hl), (in_memory_bind _ _ _ _ _ _ _ Hrs). done.
  - rewrite (proj2 (Z.eqb_neq _ _)) by done. pose proof (string_at_read w label s 128 Hs ltac:(lia)) as Hrs.
    rewrite (in_memory_bind _ _ _ _ _ _ _ Hl), (in_memory_bind _ _ _ _ _ _ _ Hrs). by apply string_at_run.
Qed.

Lemma queue_names_loop_run w todo names before pre c :
  Forall2 (queue_name w) todo names -> Forall (short n) names -> process_threads process = before ++ todo ->
  pwp pre w c 2 (queue_names_loop (length todo) process (Z.of_nat (length before)))
    (entries_done pre (separated c (map quoted names)) w 2).
Proof.
  intros Hnames. revert before pre c. induction Hnames as [|thread name todo names Hq _ IH]; intros before pre c Hs Hp.
  { apply pwp_ret, entries_none. }
  apply Forall_cons in Hs as [Hs Hss]. cbn [length queue_names_loop map]. eapply pwp_thread; [done|].
  apply pwp_assoc. eapply pwp_run; [intros fs Ht; by apply queue_name_run|].
  apply pwp_bind, (pwp_string _ _ _ _ Hn); [done|]. rewrite (next_index before thread).
  eapply pwp_mono; [apply IH; [done|by rewrite Hp, <- app_assoc]|]. intros. by apply entries_more.
Qed.

(** ** Statistics *)

Lemma pwp_uint name v pre w c (Q : unit -> list Z -> world -> bool -> Z -> Prop) :
  literal_ok name = true -> 0 <= v < 2 ^ 64 -> Q tt (pre ++ comma c ++ member_text (chars name, JUint v)) w true 2 ->
  pwp pre w c 2 (to_file (FIRCLSFileWriteHashEntryUint64 (literal name) v)) Q.
Proof. intros Hname Hv. by apply (pwp_member _ _ _ _ Hn name (JUint v)). Qed.

(** The processor times are less than 2147 seconds, so that their microseconds are
    [int]s. *)
Definition time_fits (time : time_value) : Prop :=
  0 <= seconds time /\ 0 <= microseconds time /\ seconds time * 1000000 + microseconds time < 2 ^ 31.

Definition cpu_times_fit : Prop := forall task k i k',
  task_info task k = (Some i, k') -> time_fits (user_time i) /\ time_fits (system_time i).

Definition total_microseconds (time : time_value) : Z := seconds time * 1000000 + microseconds time.

Lemma total_microseconds_range time : time_fits time -> 0 <= total_microseconds time < 2 ^ 64.
Proof. intros (H1 & H2 & H3). unfold total_microseconds. lia. Qed.

Lemma time_microseconds_run time s :
  time_fits time -> time_microseconds time s = Completes (total_microseconds time) s.
Proof.
  intros (H1 & H2 & H3). unfold total_microseconds. unfold time_microseconds, int_value.
  rewrite (proj2 (Z.leb_le (- 2 ^ 31) (seconds time * 1000))), (proj2 (Z.ltb_lt (seconds time * 1000) (2 ^ 31))) by lia.
  cbn [andb]. unfold mbind, P_bind, mret, P_ret.
  replace (seconds time * 1000 * 1000) with (seconds time * 1000000) by lia.
  rewrite (proj2 (Z.leb_le (- 2 ^ 31) (seconds time * 1000000))), (proj2 (Z.ltb_lt (seconds time * 1000000) (2 ^ 31))) by lia.
  cbn [andb]. rewrite (proj2 (Z.leb_le _ _)), (proj2 (Z.ltb_lt _ _)) by lia. cbn [andb]. by rewrite wrap_small by lia.
Qed.

(** The section of the statistics, which is left out when they cannot be had;
    what it calls the resident size is the active memory of the host. *)
Definition stats_json (pageSize : Z) (v : vm_statistics) (i : task_basic_info) : json :=
  let pages count := u64 (count * pageSize) in
  JHash (number_members [("active", pages (active_count v)); ("inactive", pages (inactive_count v));
    ("wired", pages (wire_count v)); ("freeMem", pages (free_count v)); ("free_mem", pages (free_count v));
    ("virtual", virtual_size i); ("resident", pages (active_count v));
    ("user_time", total_microseconds (user_time i)); ("sys_time", total_microseconds (system_time i))]%string).

Inductive stats_text (pageSize : Z) : list Z -> Prop :=
  | no_statistics k k' : host_statistics k = (None, k') -> stats_text pageSize []
  | no_task_info k k' : task_info (task process) k = (None, k') -> stats_text pageSize []
  | the_statistics k v k' l i l' :
      host_statistics k = (Some v, k') -> task_info (task process) l = (Some i, l') ->
      stats_text pageSize (section_text (chars "process_stats") (stats_json pageSize v i)).

(** After a section with one of the texts that [T] allows. *)
Definition section_written (pre : list Z) (T : list Z -> Prop) (w : world) :
    unit -> list Z -> world -> bool -> Z -> Prop :=
  fun _ pre' w' c d => exists bs, T bs /\ pre' = pre ++ bs /\ w' = w /\ c = false /\ d = 0.

Lemma u64_range x : 0 <= u64 x < 2 ^ 64.
Proof. by apply wrap_bounds. Qed.

(** The brackets of a section that is an object. *)
Lemma pwp_object_start name B (q : P B) pre w Q :
  literal_ok name = true -> pwp (pre ++ [123] ++ key_text (Some (chars name)) ++ [123]) w false 2 q Q ->
  pwp pre w false 0 (to_file (FIRCLSFileWriteSectionStart (literal name));; to_file FIRCLSFileWriteHashStart;; q) Q.
Proof.
  intros Hname Hq. apply pwp_bind, (pwp_section_start _ _ _ _ Hn); [done|].
  apply pwp_bind, (pwp_start _ _ _ _ Hn 123); [done..|]. by rewrite <- !app_assoc.
Qed.

Lemma pwp_object_end pre w c (Q : unit -> list Z -> world -> bool -> Z -> Prop) :
  Q tt (pre ++ [125; 125; 10]) w false 0 ->
  pwp pre w c 2 (to_file FIRCLSFileWriteHashEnd;; to_file FIRCLSFileWriteSectionEnd) Q.
Proof.
  intros HQ. apply pwp_bind, (pwp_end _ _ _ _ Hn 125 _ _ _ 1); [done..|]. apply (pwp_section_end _ _ _ _ Hn).
  by rewrite <- app_assoc.
Qed.

Lemma record_stats_run pageSize pre w :
  cpu_times_fit ->
  pwp pre w false 0 (FIRCLSProcessRecordStats pageSize process) (section_written pre (stats_text pageSize) w).
Proof.
  intros Hfit. unfold FIRCLSProcessRecordStats, FIRCLSProcessGetMemoryUsage, FIRCLSProcessGetInfo.
  apply pwp_bind, pwp_bind, pwp_call. intros k v k' Ev. split; [by eapply host_statistics_quiet|].
  assert (Hnone : stats_text pageSize [] -> section_written pre (stats_text pageSize) w tt pre w false 0)
    by (intros; exists []; by rewrite app_nil_r).
  destruct v as [v|]; [|apply pwp_ret, pwp_ret, Hnone; by eapply no_statistics]. apply pwp_ret.
  apply pwp_bind, pwp_bind, pwp_call. intros l i l' Ei. split; [by eapply task_info_quiet|].
  destruct i as [i|]; [|apply pwp_ret, pwp_ret, Hnone; by eapply no_task_info]. apply pwp_ret.
  destruct (Hfit _ _ _ _ Ei) as [Hu Hsys]. destruct (task_info_sizes _ _ _ _ Ei) as [Hv _].
  apply pwp_object_start; [done|]. do 7 (apply pwp_bind, pwp_uint; [done|exact Hv || apply u64_range|]).
  do 2 (eapply pwp_run; [intros fs _; by apply time_microseconds_run|];
    apply pwp_bind, pwp_uint; [done|by apply total_microseconds_range|]).
  apply pwp_object_end. eexists. split; [by eapply the_statistics|]. split; [|done].
  unfold section_text. cbn [written_text stats_json number_members fmap list_fmap map separated fst snd].
  by rewrite <- !app_assoc.
Qed.

(** The section of the disk, empty when its use cannot be had. *)
Inductive storage_text (path : option (list Z)) : list Z -> Prop :=
  | no_storage k k' :
      sys_statfs path k = (None, k') -> storage_text path (section_text (chars "storage") (JHash []))
  | the_storage k v k' :
      sys_statfs path k = (Some v, k') ->
      storage_text path (section_text (chars "storage")
        (JHash (number_members [("free", u64 (f_bavail v * f_bsize v)); ("total", u64 (f_blocks v * f_bsize v))]%string))).

Lemma write_disk_usage_run path pre w :
  pwp pre w false 0 (FIRCLSHostWriteDiskUsage path) (section_written pre (storage_text path) w).
Proof.
  unfold FIRCLSHostWriteDiskUsage. apply pwp_object_start; [done|].
  apply pwp_bind, pwp_call. intros k v k' E. split; [by eapply statfs_quiet|].
  apply pwp_bind. destruct v as [v|].
  - apply pwp_bind, pwp_uint; [done|apply u64_range|]. apply pwp_uint; [done|apply u64_range|].
    apply pwp_object_end. eexists. split; [by eapply the_storage|]. split; [|done].
    unfold section_text. cbn [written_text number_members fmap list_fmap map separated fst snd]. by rewrite <- !app_assoc.
  - apply pwp_ret, pwp_object_end. eexists. split; [by eapply no_storage|]. split; [|done].
    unfold section_text. cbn [written_text map separated]. by rewrite <- !app_assoc.
Qed.

(** ** What the runtime knows *)

(** The images whose crash information is not recorded: there is none, it cannot be
    read, it is too new, or it has no message or one that cannot be read. *)
Definition no_crash_info (w : world) (node : FIRCLSBinaryImageRuntimeNode) : Prop :=
  node_crashInfo node = 0 \/
  exists info, FIRCLSReadMemory (node_crashInfo node) crash_info_size w = Done info w /\
    match info with
    | None => True
    | Some info =>
        5 < crash_info_version info \/ crash_info_message info = 0 \/
        FIRCLSReadString (crash_info_message info) 256 w = Done false w
    end.

(** [s] is the message of an image. *)
Definition crash_message (w : world) (node : FIRCLSBinaryImageRuntimeNode) (message : Z) (s : list Z) : Prop :=
  node_crashInfo node <> 0 /\
  (exists info, FIRCLSReadMemory (node_crashInfo node) crash_info_size w = Done (Some info) w /\
     crash_info_version info <= 5 /\ crash_info_message info = message) /\
  string_at w message s /\ Forall is_byte s /\ Z.of_nat (length s) < 2 ^ 31.

(** The messages of the images, each blotted out in memory before it is recorded. *)
Inductive crash_messages : list FIRCLSBinaryImageRuntimeNode -> world -> list (list Z) -> world -> Prop :=
  | messages_nil w : crash_messages [] w [] w
  | messages_skip node nodes w texts w' :
      no_crash_info w node -> crash_messages nodes w texts w' -> crash_messages (node :: nodes) w texts w'
  | messages_cons node nodes w message s m texts w' :
      crash_message w node message s -> write_bytes (mem w) message (redact s) = Some m ->
      crash_messages nodes (set_mem m w) texts w' -> crash_messages (node :: nodes) w (redact s :: texts) w'.

Lemma pwp_hex s pre w c d (Q : unit -> list Z -> world -> bool -> Z -> Prop) :
  Forall is_byte s -> 0 ∉ s -> Z.of_nat (length s) < 2 ^ 31 -> Q tt (pre ++ comma c ++ quoted (hex_text s)) w true d ->
  pwp pre w c d (to_file (FIRCLSFileWriteArrayEntryHexEncodedString (Some (c_string s)))) Q.
Proof. intros Hb H0 Hl. apply pwp_file. apply (array_entry_emits chunk n Hn). by apply hex_emits. Qed.

Lemma no_crash_info_run w node s : no_crash_info w node -> the_world s = w -> record_crash_info node s = Completes tt s.
Proof.
  intros H <-. destruct s as [w wr' fs]. cbn [the_world] in *. unfold record_crash_info.
  destruct H as [->|(info & Hr & H)]; [done|]. destruct (node_crashInfo node =? 0); [done|].
  rewrite (in_memory_bind _ _ _ _ _ _ _ Hr). destruct info as [info|]; [|done]. cbv zeta.
  destruct (Z.ltb_spec 5 (crash_info_version info)); [done|]. destruct (Z.eqb_spec (crash_info_message info) 0); [done|].
  destruct H as [?|[?|Hs]]; [lia|done|]. by rewrite (in_memory_bind _ _ _ _ _ _ _ Hs).
Qed.

Lemma record_crash_info_run w node message s m pre c d (Q : unit -> list Z -> world -> bool -> Z -> Prop) :
  crash_message w node message s -> write_bytes (mem w) message (redact s) = Some m ->
  Q tt (pre ++ comma c ++ quoted (hex_text (redact s))) (set_mem m w) true d ->
  pwp pre w c d (record_crash_info node) Q.
Proof.
  intros (Hc & (info & Hr & Hv & <-) & Hs & Hb & Hl) Hm HQ. unfold record_crash_info.
  rewrite (proj2 (Z.eqb_neq _ _)) by done. eapply pwp_memory; [exact Hr|]. cbv beta iota zeta.
  rewrite (proj2 (Z.ltb_ge _ _)) by done. pose proof Hs as (H0 & Hh & Hlow & Hhigh).
  rewrite (proj2 (Z.eqb_neq (crash_info_message info) 0)) by lia.
  eapply pwp_memory; [by apply (string_at_read w _ s 256)|]. cbn [negb].
  destruct (redact_run (crash_info_message info) s w) as (m' & Em & Er); [lia|done|done|]. rewrite Hm in Em. injection Em as <-.
  eapply pwp_memory; [exact Er|].
  assert (H0' : Forall (fun b => b <> 0) (redact s)) by by apply redact_forall.
  eapply pwp_memory; [apply load_string_run; [exact H0'|]; by eapply redacted_holds|].
  apply pwp_hex; [by apply redact_forall|..]; [|by rewrite length_redact|done].
  intros Hin. rewrite Forall_forall in H0'. by apply (H0' 0).
Qed.

Lemma crash_info_loop_run nodes w texts w' pre c d :
  crash_messages nodes w texts w' ->
  pwp pre w c d (crash_info_loop nodes) (entries_done pre (separated c (map (fun s => quoted (hex_text s)) texts)) w' d).
Proof.
  intros H. revert pre c. induction H as [w|node nodes w texts w' Hno _ IH|node nodes w message s m texts w' Hs Hm _ IH]; intros pre c.
  - apply pwp_ret, entries_none.
  - cbn [crash_info_loop]. eapply pwp_run; [intros fs _; by eapply no_crash_info_run|apply IH].
  - cbn [crash_info_loop map]. apply pwp_bind. eapply record_crash_info_run; [done..|].
    eapply pwp_mono; [apply IH|]. intros. by apply entries_more.
Qed.

(** *** The section *)

Context {RA : RecordArch} {SA : SelectorArch}.
Context (images : image_table) (garbage : thread_context).

(** The registers that the section is about: those of the thread that crashed, or,
    when they cannot be had, what the variable for them holds. *)
Definition crash_registers (w : world) (context : thread_context) : Prop :=
  thread_registers process t w (crashedThread process) = Some context \/
  unreadable process t (crashedThread process) = true /\ context = garbage.

(** The selector that was sent when the thread crashed. *)
Inductive selector_name (w : world) (context : thread_context) : list Z -> Prop :=
  | no_selector : selector_address context = 0 -> selector_name w context []
  | unreadable_selector :
      FIRCLSReadString (selector_address context) 128 w = Done false w -> selector_name w context []
  | the_selector s : string_at w (selector_address context) s -> selector_name w context s.

(** The messages that are recorded, of the images if there are any. *)
Definition recorded_messages (w : world) (texts : list (list Z)) (w' : world) : Prop :=
  if nodes_addr images =? 0 then texts = [] /\ w' = w else crash_messages (nodes images) w texts w'.

Definition runtime_json (selector : list Z) (messages : list (list Z)) : json :=
  JHash [(chars "objc_selector", JString selector); (chars "crash_info_entries", JArray (JHex <$> messages))].

Lemma selector_name_run w context s fs :
  selector_name w context s ->
  (name ← FIRCLSProcessGetObjCSelectorName context; string_bytes name) (CrashState w wr fs) =
    Completes (Some (c_string s)) (CrashState w wr fs).
Proof.
  intros H. unfold FIRCLSProcessGetObjCSelectorName. destruct H as [->|Hr|s Hs]; [done|..].
  - destruct (selector_address context =? 0); [done|]. erewrite P_bind_run by by rewrite (in_memory_bind _ _ _ _ _ _ _ Hr).
    done.
  - pose proof Hs as (_ & _ & Hlow & _). rewrite (proj2 (Z.eqb_neq _ _)) by lia. 
    erewrite P_bind_run by by rewrite (in_memory_bind _ _ _ _ _ _ _ (string_at_read w _ s 128 Hs ltac:(lia))).
    by apply string_at_run.
Qed.

Lemma crash_registers_run w context :
  crash_registers w context -> exists ok, forall fs, tasks_of (the_kernel fs) = t ->
    FIRCLSProcessGetThreadState process (crashedThread process) garbage (CrashState w wr fs) =
    Completes (ok, context) (CrashState w wr fs).
Proof.
  intros [H|[H ->]]; [exists true; intros; by apply (thread_state_run _ process t w)|].
  exists false. intros. by apply (unreadable_run _ process t w).
Qed.

Lemma record_runtime_run context selector messages pre w w' :
  crash_registers w context -> selector_name w context selector -> short n selector ->
  recorded_messages w messages w' ->
  pwp pre w false 0 (FIRCLSProcessRecordRuntimeInfo images garbage process)
    (section_done pre (section_text (chars "runtime") (runtime_json selector messages)) w').
Proof.
  intros Hc Hsel Hs Hm. unfold FIRCLSProcessRecordRuntimeInfo. destruct (crash_registers_run _ _ Hc) as [ok Hrun].
  eapply pwp_run; [exact Hrun|]. cbv beta iota. apply pwp_object_start; [done|].
  apply pwp_assoc. eapply pwp_run; [intros fs _; by apply selector_name_run|].
  apply pwp_bind, (pwp_member _ _ _ _ Hn "objc_selector" (JString selector)); [done|done|done|].
  apply pwp_bind, (pwp_key _ _ _ _ Hn); [done|]. apply pwp_bind, (pwp_start _ _ _ _ Hn 91); [done..|].
  apply pwp_bind. eapply pwp_mono.
  { instantiate (1 := entries_done _ (separated false (map (fun s => quoted (hex_text s)) messages)) w' 3).
    unfold FIRCLSProcessRecordCrashInfo, recorded_messages in *. destruct (nodes_addr images =? 0).
    - destruct Hm as [-> ->]. apply pwp_ret, entries_none.
    - by apply crash_info_loop_run. }
  intros [] ? ? ? ? (-> & -> & ->). apply pwp_bind, (pwp_end _ _ _ _ Hn 93 _ _ _ 2); [done..|].
  apply pwp_object_end. split; [|done]. unfold section_text, runtime_json.
  unfold member_text. cbn [written_text map separated fst snd comma]. by rewrite map_map, <- !app_assoc.
Qed.

End Info.
