(* ===== verification/ArchProcess.v ===== *)
(** The registers of a thread in a report (FIRCLSProcess.c), on ARM64 and on x86_64:
    the implementations of [RecordArch] and [SelectorArch]. The functions that have
    another version on ARM64 end in [_x86_64]. *)
From S2P Require Import Prelude Memory ThreadState Arm64State X86State X86Unwind File FileFormat.
From S2P Require Import FileFormatSpec FileJson Crash Process CrashSpec ProcessInfo.

(** The names of the registers and their values, in the order of the calls. The
    array [__x] has 29 elements. *)
Definition arm64_registers (context : FIRCLSThreadContext) : list (string * Z) :=
  let x n := ss_x context !!! n in
  [
   ("x0", x 0%nat); ("x1", x 1%nat); ("x2", x 2%nat); ("x3", x 3%nat); ("x4", x 4%nat);
   ("x5", x 5%nat); ("x6", x 6%nat); ("x7", x 7%nat); ("x8", x 8%nat); ("x9", x 9%nat);
   ("x10", x 10%nat); ("x11", x 11%nat); ("x12", x 12%nat); ("x13", x 13%nat); ("x14", x 14%nat);
   ("x15", x 15%nat); ("x16", x 16%nat); ("x17", x 17%nat); ("x18", x 18%nat); ("x19", x 19%nat);
   ("x20", x 20%nat); ("x21", x 21%nat); ("x22", x 22%nat); ("x23", x 23%nat); ("x24", x 24%nat);
   ("x25", x 25%nat); ("x26", x 26%nat); ("x27", x 27%nat); ("x28", x 28%nat);
   ("fp", FIRCLSThreadContextGetFramePointer (Some context));
   ("sp", FIRCLSThreadContextGetStackPointer (Some context));
   ("lr", FIRCLSThreadContextGetLinkRegister (Some context));
   ("pc", FIRCLSThreadContextGetPC (Some context));
   ("cpsr", ss_cpsr context)]%string.

Definition FIRCLSProcessRecordThreadRegisters {KN : Kernel} (context : FIRCLSThreadContext) : F unit :=
  all (fun r => FIRCLSFileWriteHashEntryUint64 (literal r.1) r.2) (arm64_registers context).

(** The context that stands for the current thread: cleared, then set. *)
Definition faked_thread_context (pc frameAddress returnAddress stackAddress : Z) : FIRCLSThreadContext :=
  let context := ThreadContext (replicate 29 0) 0 0 0 0 0 in
  with_sp (with_lr (with_fp (with_pc context pc) frameAddress) returnAddress) stackAddress.

(** The builtins of the compiler are parameters. *)
Definition arm64_records {KN : Kernel} (frame return_address pc : Z) : RecordArch (TS := arm64) := {|
  StackPointerFromFramePointer := FIRCLSUnwindStackPointerFromFramePointer;
  faked_context := (faked_thread_context : Z -> Z -> Z -> Z -> @thread_context arm64);
  RecordThreadRegisters := FIRCLSProcessRecordThreadRegisters;
  builtin_frame_address := frame;
  builtin_return_address := return_address;
  current_pc := pc
|}.

Definition arm64_selector_address {OR : ObjCRuntime} (registers : FIRCLSThreadContext) : Z :=
  let pc := FIRCLSThreadContextGetPC (Some registers) in
  if in_function pc objc_msgSend then ss_x registers !!! 1%nat else 0.

Definition arm64_selectors {OR : ObjCRuntime} : SelectorArch (TS := arm64) := {|
  selector_address := (arm64_selector_address : @thread_context arm64 -> Z)
|}.

(** The calls are for names that are short. *)
Definition arm64_records_laws {KN : Kernel} frame return_address pc :
  @RecordArchLaws KN arm64 (arm64_records frame return_address pc).
Proof.
  refine (Build_RecordArchLaws KN arm64 (arm64_records frame return_address pc) arm64_registers _ _); by intros.
Defined.

(** The names of the registers and their values, in the order of the calls. *)
Definition x86_64_registers (context : X86ThreadContext) : list (string * Z) :=
  [
   ("rax", ss_rax context); ("rbx", ss_rbx context); ("rcx", ss_rcx context); ("rdx", ss_rdx context);
   ("rdi", ss_rdi context); ("rsi", ss_rsi context); ("rbp", ss_rbp context); ("rsp", ss_rsp context);
   ("r8", ss_r8 context); ("r9", ss_r9 context); ("r10", ss_r10 context); ("r11", ss_r11 context);
   ("r12", ss_r12 context); ("r13", ss_r13 context); ("r14", ss_r14 context); ("r15", ss_r15 context);
   ("rip", ss_rip context); ("rflags", ss_rflags context); ("cs", ss_cs context); ("fs", ss_fs context);
   ("gs", ss_gs context)]%string.

Definition FIRCLSProcessRecordThreadRegisters_x86_64 {KN : Kernel} (context : X86ThreadContext) : F unit :=
  all (fun r => FIRCLSFileWriteHashEntryUint64 (literal r.1) r.2) (x86_64_registers context).

(** The context that stands for the current thread: cleared, then set. *)
Definition faked_thread_context_x86_64 (pc frameAddress returnAddress stackAddress : Z) : X86ThreadContext :=
  let context := X86Context 0 0 0 0 0 0 0 0 0 0 0 0 0 0 0 0 0 0 0 0 0 in
  with_rsp (with_rbp (with_rip context pc) frameAddress) stackAddress.

(** The builtins of the compiler are parameters. *)
Definition x86_64_records {KN : Kernel} (frame return_address pc : Z) : RecordArch (TS := x86_64) := {|
  StackPointerFromFramePointer := FIRCLSUnwindStackPointerFromFramePointer_x86_64;
  faked_context := (faked_thread_context_x86_64 : Z -> Z -> Z -> Z -> @thread_context x86_64);
  RecordThreadRegisters := FIRCLSProcessRecordThreadRegisters_x86_64;
  builtin_frame_address := frame;
  builtin_return_address := return_address;
  current_pc := pc
|}.

(** The last range that the program counter is in decides. *)
Definition x86_64_selector_address {OR : ObjCRuntime} (registers : X86ThreadContext) : Z :=
  let pc := ss_rip registers in
  let selRegister := ss_rsi registers in
  let stretSelRegister := ss_rdx registers in
  let selectorAddress := 0 in
  let selectorAddress := if in_function pc objc_msgSend then selRegister else selectorAddress in
  let selectorAddress := if in_function pc objc_msgSendSuper then selRegister else selectorAddress in
  let selectorAddress := if in_function pc objc_msgSend_stret then stretSelRegister else selectorAddress in
  let selectorAddress := if in_function pc objc_msgSendSuper_stret then stretSelRegister else selectorAddress in
  if in_function pc objc_msgSend_fpret then selRegister else selectorAddress.

Definition x86_64_selectors {OR : ObjCRuntime} : SelectorArch (TS := x86_64) := {|
  selector_address := (x86_64_selector_address : @thread_context x86_64 -> Z)
|}.

(** The calls are for names that are short. *)
Definition x86_64_records_laws {KN : Kernel} frame return_address pc :
  @RecordArchLaws KN x86_64 (x86_64_records frame return_address pc).
Proof.
  refine (Build_RecordArchLaws KN x86_64 (x86_64_records frame return_address pc) x86_64_registers _ _); by intros.
Defined.
