(* ===== verification/Handler.v ===== *)
(** The read-only context of Crashlytics (Components/FIRCLSContext.h) and what all
    handlers of crashes have in common: the check that this is the first crash
    (FIRCLSContext.m), the marker file (FIRCLSCrashedMarkerFile.c) and the report
    (Handlers/FIRCLSHandler.m). *)
From S2P Require Import Prelude Memory DwarfData ThreadState CompactUnwind Unwind File FileFormat.
From S2P Require Import Crash Process Redact ProcessInfo.

(** ** The read-only context *)

(** [struct sigaction] and [stack_t]. *)
Record sig_action := SigAction { sa_sigaction : Z; sa_mask : Z; sa_flags : Z }.
Record alt_stack := AltStack { ss_sp : Z; ss_size : Z; ss_flags : Z }.

Record FIRCLSSignalReadContext := SignalReadContext {
  signal_path : option (list Z);
  originalActions : list sig_action;
  originalStack : alt_stack
}.

(** One entry of the arrays of the ports that were there before. *)
Record original_port := OriginalPort { port_mask : Z; port_name : Z; port_behavior : Z; port_flavor : Z }.

Record FIRCLSMachExceptionReadContext := MachReadContext {
  mach_port : Z;
  mach_thread : Z;
  mach_path : option (list Z);
  mach_mask : Z;
  originalPorts : list original_port
}.

(** The members that are used when a crash is handled. *)
Record FIRCLSReadOnlyContext := ReadOnlyContext {
  initialized : bool;
  previouslyCrashedFileFullPath : option (list Z);
  documentDirectoryPath : option (list Z);
  host_pageSize : Z;
  signalStack : Z;
  machStack : Z;
  signal_context : FIRCLSSignalReadContext;
  mach_context : FIRCLSMachExceptionReadContext
}.

Section Handler.
Context {KN : Kernel} {TS : ThreadState} {MK : Mach} {RA : RecordArch} {SI : SystemInfo} {SA : SelectorArch}.
Context {CE : CompactEncoding} {VM : VmRead} {UA : UnwindArch}.
Context (images : image_table) (garbage : thread_context).

(** [_firclsContext.readonly], null before it is set. *)
Definition FIRCLSContextIsInitialized (readonly : option FIRCLSReadOnlyContext) : bool :=
  match readonly with None => false | Some c => initialized c end.

Definition FIRCLSContextMarkAndCheckIfCrashed (readonly : option FIRCLSReadOnlyContext) : P bool :=
  if negb (FIRCLSContextIsInitialized readonly) then mret false
  else
    c ← get_writable;
    if crashOccurred c then mret true
    else put_writable (ReadWriteContext (logLevel c) true);; mret false.

Definition FIRCLSCreateCrashedMarkerFile (readonly : FIRCLSReadOnlyContext) : P unit :=
  with_local_file (
    ok ← to_file (FIRCLSFileInitWithPath (previouslyCrashedFileFullPath readonly) false);
    if negb ok then mret tt
    else
      to_file FIRCLSFileClose;;
      mret tt).

(** [process] is a local variable that nothing was stored in; the read-only
    context is dereferenced. *)
Definition FIRCLSHandler (readonly : FIRCLSReadOnlyContext) (crashedThread uapVoid : Z) : P unit :=
  '(_, process) ← FIRCLSProcessInit (Some (Process 0 0 0 [] 0 0)) crashedThread uapVoid;
  process ← defined process;
  FIRCLSProcessSuspendAllOtherThreads process;;
  FIRCLSProcessRecordAllThreads images garbage process;;
  FIRCLSProcessRecordRuntimeInfo images garbage process;;
  FIRCLSProcessRecordDispatchQueueNames process;;
  FIRCLSProcessRecordThreadNames process;;
  FIRCLSProcessRecordStats (host_pageSize readonly) process;;
  FIRCLSHostWriteDiskUsage (documentDirectoryPath readonly);;
  FIRCLSCreateCrashedMarkerFile readonly;;
  FIRCLSProcessResumeAllOtherThreads process;;
  mret tt.

End Handler.
