(* ===== verification/HandlerSpec.v ===== *)
(** What a handler of a crash writes: the sections of the report about the process,
    in the order of FIRCLSHandler, behind what the handler has written itself. *)
From S2P Require Import Prelude Memory DwarfData ThreadState CompactUnwind Unwind File FileFormat FileSpec FileFormatSpec FileJson.
From S2P Require Import DwarfSafety UnwindSafety UnwindTheorems.
From S2P Require Import Crash Process CrashSpec Redact ProcessInfo ProcessInfoSpec Handler.

(** ** What the system documents *)

(** How the files of the handlers are opened. *)
Definition append_mask {KN : Kernel} : Z := Z.lor (Z.lor O_WRONLY O_CREAT) O_APPEND.

(** A file that is opened gets a descriptor that is not in use, and opening it for
    appending does not change other files; closing a file does not close others.
    Suspending or resuming a thread changes none of the answers to queries. *)
Class HandlerSystem {KN : Kernel} {KS : KernelSpec} {TS : ThreadState} {MK : Mach} {MS : MachSpec} : Prop := {
  open_quiet path k d k' :
    sys_open path append_mask k = (d, k') -> quiet k k' /\ (0 <= d -> ~ opened k d /\ opened k' d);
  close_quiet d k status k' :
    sys_close d k = (status, k') -> tasks_of k' = tasks_of k /\ forall d', d' <> d -> opened k d' -> opened k' d';
  suspend_quiet thread k status k' : thread_suspend thread k = (status, k') -> quiet k k';
  resume_quiet thread k status k' : thread_resume thread k = (status, k') -> quiet k k'
}.

(** ** Files without a buffer *)

Section Files.
Context {KN : Kernel} {KS : KernelSpec} {TS : ThreadState} {MK : Mach} {MS : MachSpec} {HS : HandlerSystem}.

(** A file right after it was opened. *)
Definition fresh_file (f : FIRCLSFile) (d : Z) : Prop :=
  wf_file f /\ needComma f = false /\ collectionDepth f = 0 /\ fd f = d /\ bufferWrites f = false.

Lemma init_path_run path f0 k :
  fwp (FIRCLSFileInitWithPath path false) (FileState (Some f0) k) (fun ok s' =>
    exists d, (path = None /\ d = -1 /\ the_kernel s' = k \/
               exists p, path = Some p /\ sys_open p append_mask k = (d, the_kernel s')) /\
      ok = (0 <=? d) /\ (0 <= d -> exists f, the_file s' = Some f /\ fresh_file f d)).
Proof.
  unfold FIRCLSFileInitWithPath, FIRCLSFileInitWithPathMode. apply fwp_bind. eapply fwp_given; [done|]. cbn [negb].
  apply fwp_bind. apply (fwp_mono _ _ (fun d s' => the_file s' = Some f0 /\
    (path = None /\ d = -1 /\ the_kernel s' = k \/ exists p, path = Some p /\ sys_open p append_mask k = (d, the_kernel s')))).
  { destruct path as [p|]; [|apply fwp_ret; split; [done|by left]].
    apply fwp_sys. cbn [the_kernel the_file]. intros d k' E. split; [done|]. right. by exists p. }
  intros d [tf k'] [E Hd]. cbn [the_file the_kernel] in *. subst tf.
  unfold FIRCLSFileInit. apply fwp_bind. eapply fwp_given; [done|]. cbn [negb].
  destruct (Z.ltb_spec d 0) as [Hlt|Hge].
  { apply fwp_ret. exists d. split; [exact Hd|]. split; [symmetry; by apply Z.leb_gt|lia]. }
  apply fwp_bind. eapply fwp_put; [done|]. apply fwp_bind, fwp_ret. cbn [negb].
  apply fwp_bind, fwp_sys. cbn [the_kernel the_file]. intros size k2 [= <- <-]. apply fwp_bind. eapply fwp_get; [done|].
  apply fwp_bind. apply (fwp_mono _ _ (fun _ s' => the_kernel s' = k' /\ exists f, the_file s' = Some f /\ fresh_file f d)).
  - destruct (0 <? sys_size d k').
    + eapply fwp_put; [done|]. split; [done|]. eexists. split; [done|]. split; [|done].
      apply wf_with_written; [by split|by apply (to_signed_bounds 64)].
    + apply fwp_ret. split; [done|]. eexists. split; [done|]. split; [|done]. by split.
  - intros [] [tf k2] [Ek Hf]. cbn [the_kernel] in Ek. subst k2. apply fwp_ret. exists d.
    split; [exact Hd|]. split; [symmetry; by apply Z.leb_le|done].
Qed.

Lemma close_unbuffered f k :
  bufferWrites f = false ->
  fwp FIRCLSFileClose (FileState (Some f) k) (fun _ s' => exists status, sys_close (fd f) k = (status, the_kernel s')).
Proof.
  intros Hb. unfold FIRCLSFileClose, FIRCLSFileCloseWithOffset. apply fwp_bind, fwp_bind. eapply fwp_given; [done|].
  cbn [negb]. apply fwp_bind. eapply fwp_get; [done|]. rewrite Hb. apply fwp_bind, fwp_ret.
  apply fwp_bind. eapply fwp_get; [done|]. cbv zeta. apply fwp_bind, fwp_sys. cbn [the_kernel the_file].
  intros status k' E. destruct (status =? 0); cbn [negb].
  - apply fwp_bind. eapply fwp_put; [done|]. apply fwp_ret, fwp_ret. by exists status.
  - apply fwp_ret, fwp_ret. by exists status.
Qed.

(** Opening and closing a file is noticed by no other. *)
Lemma open_close_quiet p k d k1 status k2 :
  sys_open p append_mask k = (d, k1) -> 0 <= d -> sys_close d k1 = (status, k2) -> quiet k k2.
Proof.
  intros Eo Hd Ec. destruct (open_quiet _ _ _ _ Eo) as [[Et Hq] Hnew]. destruct (Hnew Hd) as [Hclosed _].
  destruct (close_quiet _ _ _ _ Ec) as [Et' Hk]. split; [congruence|]. intros d' Ho. destruct (Hq d' Ho) as [Ho1 C].
  assert (d' <> d) by by intros ->. split; [by apply Hk|]. by rewrite (close_keeps _ _ _ _ d' Ec).
Qed.

End Files.

(** ** The report about the process *)

Section Handler.
Context {KN : Kernel} {KS : KernelSpec} {TS : ThreadState} {MK : Mach} {MS : MachSpec} {HS : HandlerSystem}.
Context {SI : SystemInfo} {SS : SystemSpec} {RA : RecordArch} {RL : RecordArchLaws} {SA : SelectorArch}.
Context {CE : CompactEncoding} {VM : VmRead} {VMS : DwarfExpressionSpec.VmReadSpec} {UA : UnwindArch}.
Context {TL : ThreadStateLaws} {UL : UnwindArchLaws}.
Context (chunk n : Z) (Hn : 32 <= n < 2 ^ 62) (t : tasks) (wr : FIRCLSReadWriteContext).
Context (images : image_table) (garbage : thread_context).

Notation pwp := (pwp chunk n t (Some wr)).

(** *** The marker file *)

Lemma to_file_run {A} (m : F A) w wr' fs (Q : A -> file_state -> Prop) :
  fwp m fs Q -> exists a fs', to_file m (CrashState w wr' fs) = Completes a (CrashState w wr' fs') /\ Q a fs'.
Proof.
  unfold fwp, to_file. cbn [the_files the_world the_writable]. destruct (m fs) as [a fs'| |]; [|done..].
  intros HQ. by exists a, fs'.
Qed.

Lemma marker_quiet path w :
  local_wp t (Some wr) w (
    ok ← to_file (FIRCLSFileInitWithPath path false);
    if negb ok then mret tt else to_file FIRCLSFileClose;; mret tt).
Proof.
  intros k _. destruct (to_file_run _ w (Some wr) _ _ (init_path_run path local_file k)) as (ok & [tf k1] & E & d & Ho & -> & Hf).
  cbn [the_kernel the_file] in *. erewrite P_bind_run by exact E. destruct (Z.leb_spec 0 d) as [Hd|Hd]; cbn [negb].
  - destruct (Hf Hd) as (f & Ef & _ & _ & _ & Hfd & Hb). subst d tf. destruct Ho as [(_ & Hneg & _)|(p & _ & Eo)]; [lia|].
    destruct (to_file_run _ w (Some wr) _ _ (close_unbuffered f k1 Hb)) as (a & fs & Ec & status & Es).
    erewrite P_bind_run by exact Ec. eexists. split; [|done]. cbn. by eapply open_close_quiet.
  - eexists. split; [|done]. cbn. destruct Ho as [(_ & _ & ->)|(p & _ & Eo)]; [done|]. by apply open_quiet in Eo as [Hq _].
Qed.

(** *** The threads *)

(** The process as the handler finds it. *)
Definition crash_process (crashedThread uapVoid : Z) : FIRCLSProcess :=
  let '(status, threads) := task_threads mach_task_self t in
  let threads := if status =? KERN_SUCCESS then threads else [] in
  Process mach_task_self (mach_thread_self t) crashedThread threads (Z.of_nat (length threads)) uapVoid.

Lemma crash_process_count crashedThread uapVoid :
  threadCount (crash_process crashedThread uapVoid) =
    Z.of_nat (length (process_threads (crash_process crashedThread uapVoid))).
Proof. unfold crash_process. by destruct (task_threads mach_task_self t). Qed.

Lemma process_init_run crashedThread uapVoid w :
  exists ok, forall fs, tasks_of (the_kernel fs) = t ->
    FIRCLSProcessInit (Some (Process 0 0 0 [] 0 0)) crashedThread uapVoid (CrashState w (Some wr) fs) =
    Completes (ok, Some (crash_process crashedThread uapVoid)) (CrashState w (Some wr) fs).
Proof.
  unfold FIRCLSProcessInit, crash_process. destruct (task_threads mach_task_self t) as [status threads] eqn:Et.
  exists (status =? KERN_SUCCESS). intros [tf k] Ht. cbn [the_kernel] in Ht.
  unfold mbind, P_bind, ask, to_file, sys. cbn [the_files the_kernel the_file the_world the_writable]. rewrite Ht, Et.
  by destruct (status =? KERN_SUCCESS).
Qed.

(** Suspending and resuming threads is not noticed by files. *)
Lemma other_threads_run process service before todo b pre w c d :
  threadCount process = Z.of_nat (length (process_threads process)) ->
  (forall thread k status k', service thread k = (status, k') -> quiet k k') ->
  process_threads process = before ++ todo ->
  pwp pre w c d (other_threads_loop (length todo) process (Z.of_nat (length before)) service b)
    (fun _ pre' w' c' d' => pre' = pre /\ w' = w /\ c' = c /\ d' = d).
Proof.
  intros Hcount Hs. revert before b. induction todo as [|thread todo IH]; intros before b Hp; cbn [length other_threads_loop].
  { by apply pwp_ret. }
  eapply pwp_thread; [exact Hcount|done|]. apply pwp_bind. apply (pwp_mono _ _ _ _ _ _ _ _ _ (fun _ pre' w' c' d' =>
    pre' = pre /\ w' = w /\ c' = c /\ d' = d)).
  - destruct (FIRCLSProcessIsCurrentThread process thread); [by apply pwp_ret|]. destruct b; [|by apply pwp_ret].
    apply pwp_bind, pwp_call. intros k status k' E. split; [by eapply Hs|]. by apply pwp_ret.
  - intros b' ? ? ? ? (-> & -> & -> & ->). rewrite (next_index before thread). apply IH. by rewrite Hp, <- app_assoc.
Qed.

(** *** The sections *)

Lemma record_all_threads_emits process w todo rest jsons :
  threadCount process = Z.of_nat (length (process_threads process)) -> low_mem (mem w) -> wf_mem (mem w) ->
  process_threads process = todo ++ rest ->
  Forall2 (fun thread j => thread_record images process t w thread = Some j) todo jsons ->
  stops_at process t rest -> Forall (writable n false) jsons ->
  p_emits chunk n t (Some wr) w (FIRCLSProcessRecordAllThreads images garbage process) false 0
    (section_text (chars "threads") (JArray jsons)) false 0 (bool_decide (rest = [])) w.
Proof.
  intros Hcount Hlow Hwf Hp Hj Hr Hw.
  destruct (record_threads_loop_emits images garbage process t w chunk n Hn wr Hlow Hwf Hcount todo jsons [] rest false)
    as [c Hl]; [done..|]. unfold FIRCLSProcessRecordAllThreads, FIRCLSProcessGetThreadCount. cbv zeta.
  rewrite Hcount, Nat2Z.id, Hp. eapply p_emits_cong.
  - eapply array_section_emits; [exact Hn|done|exact Hl|].
    destruct (bool_decide (rest = [])); cbn [negb]; by apply array_section_end_emits.
  - unfold section_text. cbn [written_text]. by rewrite <- !app_assoc.
Qed.

Lemma thread_names_emits process names pre w :
  threadCount process = Z.of_nat (length (process_threads process)) ->
  Forall2 (thread_name n t) (process_threads process) names ->
  pwp pre w false 0 (FIRCLSProcessRecordThreadNames process)
    (section_done pre (section_text (chars "thread_names") (JArray (JString <$> names))) w).
Proof.
  intros Hcount Hnames. unfold FIRCLSProcessRecordThreadNames, FIRCLSProcessGetThreadCount. cbv zeta.
  rewrite Hcount, Nat2Z.id. eapply pwp_mono.
  - apply (pwp_array_section chunk n Hn t (Some wr) "thread_names" _ (map quoted names)); [done|].
    intros pre'. by apply (thread_names_loop_run chunk n Hn t (Some wr) process Hcount _ names []).
  - intros [] ? ? ? ? (-> & H). split; [|exact H]. unfold section_text. cbn [written_text].
    rewrite map_map, <- !app_assoc. done.
Qed.

Lemma queue_names_emits process names pre w :
  threadCount process = Z.of_nat (length (process_threads process)) ->
  Forall2 (queue_name t w) (process_threads process) names -> Forall (short n) names ->
  pwp pre w false 0 (FIRCLSProcessRecordDispatchQueueNames process)
    (section_done pre (section_text (chars "dispatch_queue_names") (JArray (JString <$> names))) w).
Proof.
  intros Hcount Hnames Hs. unfold FIRCLSProcessRecordDispatchQueueNames, FIRCLSProcessGetThreadCount. cbv zeta.
  rewrite Hcount, Nat2Z.id. eapply pwp_mono.
  - apply (pwp_array_section chunk n Hn t (Some wr) "dispatch_queue_names" _ (map quoted names)); [done|].
    intros pre'. by apply (queue_names_loop_run chunk n Hn t (Some wr) process Hcount w _ names []).
  - intros [] ? ? ? ? (-> & H). split; [|exact H]. unfold section_text. cbn [written_text].
    rewrite map_map, <- !app_assoc. done.
Qed.

(** What is known about a process: the JSON of the threads up to the first that
    cannot be read, the selector, the messages of the images, which are blotted out
    in memory, and the names of the queues and threads. *)
Record crash_facts (process : FIRCLSProcess) (w : world) (jsons : list json) (selector : list Z)
    (messages queues names : list (list Z)) (w' : world) : Prop := {
  facts_threads : exists todo rest, process_threads process = todo ++ rest /\
    Forall2 (fun thread j => thread_record images process t w thread = Some j) todo jsons /\
    stops_at process t rest /\ Forall (writable n false) jsons;
  facts_selector : exists context, crash_registers t process garbage w context /\ selector_name w context selector;
  facts_short : short n selector /\ Forall (short n) queues;
  facts_messages : recorded_messages images w messages w';
  facts_queues : Forall2 (queue_name t w') (process_threads process) queues;
  facts_names : Forall2 (thread_name n t) (process_threads process) names
}.

(** The sections in their order. *)
Definition process_text (jsons : list json) (selector : list Z) (messages queues names : list (list Z))
    (stats storage : list Z) : list Z :=
  section_text (chars "threads") (JArray jsons) ++
  section_text (chars "runtime") (runtime_json selector messages) ++
  section_text (chars "dispatch_queue_names") (JArray (JString <$> queues)) ++
  section_text (chars "thread_names") (JArray (JString <$> names)) ++
  stats ++ storage.

Definition handler_text (readonly : FIRCLSReadOnlyContext) (process : FIRCLSProcess) (jsons : list json)
    (selector : list Z) (messages queues names : list (list Z)) (bs : list Z) : Prop :=
  exists stats storage, stats_text process (host_pageSize readonly) stats /\
    storage_text (documentDirectoryPath readonly) storage /\
    bs = process_text jsons selector messages queues names stats storage.

Lemma handler_run readonly crashedThread uapVoid jsons selector messages queues names pre w w' :
  let process := crash_process crashedThread uapVoid in
  low_mem (mem w) -> wf_mem (mem w) -> cpu_times_fit ->
  crash_facts process w jsons selector messages queues names w' ->
  pwp pre w false 0 (FIRCLSHandler images garbage readonly crashedThread uapVoid)
    (section_written pre (handler_text readonly process jsons selector messages queues names) w').
Proof.
  intros process Hlow Hwf Hfit [(todo & rest & Hp & Hj & Hr & Hw) (context & Hc & Hsel) [Hs Hqs] Hm Hq Hnm].
  pose proof (crash_process_count crashedThread uapVoid) as Hcount. fold process in Hcount.
  destruct (process_init_run crashedThread uapVoid w) as [ok Hinit]. fold process in Hinit.
  unfold FIRCLSHandler. eapply pwp_run; [exact Hinit|]. cbv beta iota. eapply pwp_run; [by intros|].
  assert (Hothers : forall service, (forall thread k status k', service thread k = (status, k') -> quiet k k') ->
    forall pre w, pwp pre w false 0 (other_threads_loop (Z.to_nat (threadCount process)) process 0 service true)
      (fun _ pre' w' c' d' => pre' = pre /\ w' = w /\ c' = false /\ d' = 0)).
  { intros service Hserv pre' w1. rewrite Hcount, Nat2Z.id. by apply (other_threads_run process service []). }
  apply pwp_bind. eapply pwp_mono; [apply Hothers, suspend_quiet|]. intros _ ? ? ? ? (-> & -> & -> & ->).
  apply pwp_bind. eapply pwp_emits; [by eapply record_all_threads_emits|].
  apply pwp_bind. eapply pwp_mono; [by eapply record_runtime_run|]. intros _ ? ? ? ? (-> & -> & -> & ->).
  apply pwp_bind. eapply pwp_mono; [by apply queue_names_emits|]. intros _ ? ? ? ? (-> & -> & -> & ->).
  apply pwp_bind. eapply pwp_mono; [by apply thread_names_emits|]. intros _ ? ? ? ? (-> & -> & -> & ->).
  apply pwp_bind. eapply pwp_mono; [by apply record_stats_run|]. intros _ ? ? ? ? (stats & Hst & -> & -> & -> & ->).
  apply pwp_bind. eapply pwp_mono; [by apply write_disk_usage_run|]. intros _ ? ? ? ? (storage & Hsto & -> & -> & -> & ->).
  apply pwp_bind. apply pwp_local; [apply marker_quiet|].
  apply pwp_bind. eapply pwp_mono; [apply Hothers, resume_quiet|]. intros _ ? ? ? ? (-> & -> & -> & ->).
  apply pwp_ret. eexists. split; [by exists stats, storage|]. split; [|done]. unfold process_text. by rewrite <- !app_assoc.
Qed.

End Handler.
