(* ===== verification/Signal.v ===== *)
(** Crashlytics' handling of signals (Handlers/FIRCLSSignal.c): the handlers of
    seven fatal signals are installed, the actions that were there are kept, and
    they are put back when a signal has been recorded.

    CheckHandlers, which only prints a warning, and the workaround for the
    simulator are not modelled. *)
From S2P Require Import Prelude Memory DwarfData ThreadState CompactUnwind Unwind File FileFormat.
From S2P Require Import Crash Process Redact ProcessInfo Handler.

(** ** The system

    [sigaction signal action k] returns the status, and the action before;
    [function_at]: what a call of the function at an address with three arguments
    does, [None] when there is no function. [siginfo_at] reads [si_signo],
    [si_code] and [si_addr]; [uninit_flags] is what an uninitialised [sa_flags]
    holds. *)
Class Signals {KN : Kernel} := {
  SIGABRT : Z;
  SIGBUS : Z;
  SIGFPE : Z;
  SIGILL : Z;
  SIGSEGV : Z;
  SIGSYS : Z;
  SIGTRAP : Z;
  SA_SIGINFO : Z;
  SA_ONSTACK : Z;
  SIGSTKSZ : Z;
  ENOENT : Z;
  empty_mask : Z;
  uninit_flags : Z;
  signal_handler_address : Z;
  sigaction : Z -> option sig_action -> kernel -> (Z * sig_action) * kernel;
  sigaltstack : alt_stack -> kernel -> (Z * alt_stack) * kernel;
  unblock_all : kernel -> Z * kernel;
  sys_unlink : option (list Z) -> kernel -> Z * kernel;
  errno : kernel -> Z;
  set_errno : Z -> kernel -> kernel;
  sys_time : kernel -> Z * kernel;
  siginfo_at : Z -> M (Z * Z * Z);
  function_at : Z -> option (Z -> Z -> Z -> kernel -> kernel)
}.

Definition SIG_DFL : Z := 0.
Definition FIRCLSSignalCount : nat := 7.

Section Signal.
Context {KN : Kernel} {TS : ThreadState} {MK : Mach} {RA : RecordArch} {SI : SystemInfo} {SA : SelectorArch}.
Context {CE : CompactEncoding} {VM : VmRead} {UA : UnwindArch} {SG : Signals}.

Definition FIRCLSFatalSignals : list Z := [SIGABRT; SIGBUS; SIGFPE; SIGILL; SIGSEGV; SIGSYS; SIGTRAP].

Definition CLS_SIGNAL_HANDLER_STACK_SIZE : Z := SIGSTKSZ * 2.

(** The block is called with the index and the number of each signal; it changes
    the state [s] of its caller. *)
Fixpoint handled_signals_loop {St} (signals : list Z) (i : nat) (block : nat -> Z -> St -> P St) (s : St) : P St :=
  match signals with
  | [] => mret s
  | signal :: signals => s ← block i signal s; handled_signals_loop signals (S i) block s
  end.

Definition FIRCLSSignalEnumerateHandledSignals {St} (block : nat -> Z -> St -> P St) (s : St) : P St :=
  handled_signals_loop FIRCLSFatalSignals 0 block s.

(** ** Installing the handlers *)

Definition FIRCLSUnlinkIfExists (path : option (list Z)) : P bool :=
  status ← call (sys_unlink path);
  if negb (status =? 0) then
    e ← ask errno;
    mret (e =? ENOENT)
  else mret true.

(** Returns [*roContext]; the read-only context has the stack for the handlers. *)
Definition FIRCLSSignalInstallAltStack (stack : Z) (roContext : FIRCLSSignalReadContext) : P FIRCLSSignalReadContext :=
  '(status, original) ← call (sigaltstack (AltStack stack CLS_SIGNAL_HANDLER_STACK_SIZE 0));
  if negb (status =? 0) then mret roContext
  else mret (SignalReadContext (signal_path roContext) (originalActions roContext) original).

Definition with_original_action (roContext : FIRCLSSignalReadContext) (idx : nat) (action : sig_action) :
    FIRCLSSignalReadContext :=
  SignalReadContext (signal_path roContext) (<[idx := action]> (originalActions roContext)) (originalStack roContext).

(** The body of the block of FIRCLSSignalInstallHandlers. *)
Definition install_handler (idx : nat) (signal : Z) (roContext : FIRCLSSignalReadContext) : P FIRCLSSignalReadContext :=
  let action := SigAction signal_handler_address empty_mask (Z.lor SA_SIGINFO SA_ONSTACK) in
  '(status, previous) ← call (sigaction signal (Some action));
  let previousAction := if status =? 0 then sa_sigaction previous else 0 in
  stored ← defined (originalActions roContext !! idx);
  let roContext := with_original_action roContext idx (SigAction 0 (sa_mask stored) (sa_flags stored)) in
  if negb (previousAction =? 0) then mret (with_original_action roContext idx previous) else mret roContext.

Definition FIRCLSSignalInstallHandlers (roContext : FIRCLSSignalReadContext) : P FIRCLSSignalReadContext :=
  FIRCLSSignalEnumerateHandledSignals install_handler roContext.

Definition FIRCLSSignalInitialize (stack : Z) (roContext : FIRCLSSignalReadContext) : P FIRCLSSignalReadContext :=
  FIRCLSUnlinkIfExists (signal_path roContext);;
  roContext ← FIRCLSSignalInstallAltStack stack roContext;
  FIRCLSSignalInstallHandlers roContext.

(** ** Putting the actions back *)

Definition FIRCLSSignalSafeRemoveHandlers (includingAbort : bool) : P unit :=
  FIRCLSSignalEnumerateHandledSignals (fun _ signal _ =>
    if negb includingAbort && (signal =? SIGABRT) then mret tt
    else call (sigaction signal (Some (SigAction SIG_DFL empty_mask uninit_flags)));; mret tt) tt.

(** [function(signal, info, uapVoid)] *)
Definition call_function (function signal info uapVoid : Z) : P unit :=
  f ← defined (function_at function);
  call (fun k => (tt, f signal info uapVoid k)).

(** The body of the block that installs the actions; [success] is the variable of
    its caller. *)
Definition restore_action (roContext : FIRCLSSignalReadContext) (signal info uapVoid : Z)
    (idx : nat) (currentSignal : Z) (success : bool) : P bool :=
  original ← defined (originalActions roContext !! idx);
  if sa_sigaction original =? 0 then mret success
  else
    '(status, _) ← call (sigaction currentSignal (Some original));
    let success := if negb (status =? 0) then false else success in
    if signal <? 0 then mret success
    else if signal =? currentSignal then
      call_function (sa_sigaction original) signal info uapVoid;;
      mret success
    else mret success.

Definition FIRCLSSignalSafeInstallPreexistingHandlers (roContext : FIRCLSSignalReadContext)
    (signal info uapVoid : Z) : P bool :=
  FIRCLSSignalSafeRemoveHandlers true;;
  restored ←
    (if negb (ss_sp (originalStack roContext) =? 0) then
       '(status, _) ← call (sigaltstack (originalStack roContext));
       mret (status =? 0)
     else mret true);
  if negb restored then mret false
  else FIRCLSSignalEnumerateHandledSignals (restore_action roContext signal info uapVoid) true.

(** ** Names *)

(** [*name] and [*codeName]; [code] is not looked at. *)
Definition FIRCLSSignalNameLookup (number code : Z) : list Z * option (list Z) :=
  if number =? SIGABRT then (literal "SIGABRT", Some (literal "ABORT"))
  else if number =? SIGBUS then (literal "SIGBUS", None)
  else if number =? SIGFPE then (literal "SIGFPE", None)
  else if number =? SIGILL then (literal "SIGILL", None)
  else if number =? SIGSEGV then (literal "SIGSEGV", None)
  else if number =? SIGSYS then (literal "SIGSYS", None)
  else if number =? SIGTRAP then (literal "SIGTRAP", None)
  else (literal "UNKNOWN", None).

(** ** Recording a signal *)

Context (images : image_table) (garbage : thread_context).
Context (readonly : option FIRCLSReadOnlyContext).

(** The section of the signal. *)
Definition record_signal_section (savedErrno info : Z) : P unit :=
  to_file (FIRCLSFileWriteSectionStart (literal "signal"));;
  to_file FIRCLSFileWriteHashStart;;
  (if FIRCLSIsValidPointer info then
     '(si_signo, si_code, si_addr) ← in_memory (siginfo_at info);
     to_file (FIRCLSFileWriteHashEntryUint64 (literal "number") (u64 si_signo));;
     to_file (FIRCLSFileWriteHashEntryUint64 (literal "code") (u64 si_code));;
     to_file (FIRCLSFileWriteHashEntryUint64 (literal "address") si_addr);;
     let '(name, codeName) := FIRCLSSignalNameLookup si_signo si_code in
     to_file (FIRCLSFileWriteHashEntryString (literal "name") (Some name));;
     to_file (FIRCLSFileWriteHashEntryString (literal "code_name") codeName)
   else mret tt);;
  to_file (FIRCLSFileWriteHashEntryUint64 (literal "errno") (u64 savedErrno));;
  time ← call sys_time;
  to_file (FIRCLSFileWriteHashEntryUint64 (literal "time") (u64 time));;
  to_file FIRCLSFileWriteHashEnd;;
  to_file FIRCLSFileWriteSectionEnd.

Definition FIRCLSSignalRecordSignal (savedErrno info uapVoid : Z) : P unit :=
  match readonly with
  | None => mret tt
  | Some context =>
      crashed ← FIRCLSContextMarkAndCheckIfCrashed readonly;
      if crashed : bool then exit_process 1
      else
        with_local_file (
          ok ← to_file (FIRCLSFileInitWithPath (signal_path (signal_context context)) false);
          if negb ok then mret tt
          else
            record_signal_section savedErrno info;;
            thread ← ask (fun k => mach_thread_self (tasks_of k));
            FIRCLSHandler images garbage context thread uapVoid;;
            to_file FIRCLSFileClose;;
            mret tt)
  end.

Definition FIRCLSSignalHandler (signal info uapVoid : Z) : P unit :=
  savedErrno ← ask errno;
  call (fun k => (tt, set_errno 0 k));;
  FIRCLSSignalSafeRemoveHandlers true;;
  call unblock_all;;
  let info := if negb (FIRCLSIsValidPointer info) then 0 else info in
  let uapVoid := if negb (FIRCLSIsValidPointer uapVoid) then 0 else uapVoid in
  FIRCLSSignalRecordSignal savedErrno info uapVoid;;
  match readonly with
  | Some context =>
      FIRCLSSignalSafeInstallPreexistingHandlers (signal_context context) signal info uapVoid;;
      mret tt
  | None => mret tt
  end;;
  call (fun k => (tt, set_errno savedErrno k)).

End Signal.
