(* ===== verification/BinaryImage.v ===== *)
(** The images of the process (Components/FIRCLSBinaryImage.m, and the parts of
    Shared/FIRCLSMachO and Shared/FIRCLSByteUtility.m that it calls): what is read
    from the header of an image when dyld loads or unloads it, the table of images
    that the unwinder looks into after a crash, and the lines of the log of images.

    The branches for visionOS and for recording the names of images are other
    builds; NSBundle is a parameter. The pointers to local variables are not null,
    and the memory of a change is freed at its end, which nothing here depends on. *)
From S2P Require Import Prelude Memory DwarfData ThreadState CompactUnwind Unwind Allocate File FileFormat FileFormatSpec.
From S2P Require Import Crash Handler Signal.

(** ** Mach-O images

    The constants and the layout of mach-o/loader.h: the offsets of the members of
    [mach_header] (the same in [mach_header_64]), [load_command], [uuid_command],
    [encryption_info_command], [version_min_command], [segment_command] and
    [segment_command_64]. [getsectbynamefromheader] finds a section of a segment of
    the image at an address: its [addr], [size] and [offset]. *)
Class MachOFormat := {
  MH_MAGIC : Z;
  MH_CIGAM : Z;
  MH_MAGIC_64 : Z;
  MH_CIGAM_64 : Z;
  CPU_ARCH_ABI64 : Z;
  header_cputype_off : Z;
  header_cpusubtype_off : Z;
  header_ncmds_off : Z;
  mach_header_size : Z;
  mach_header_64_size : Z;
  cmd_off : Z;
  cmdsize_off : Z;
  LC_UUID : Z;
  LC_ENCRYPTION_INFO : Z;
  LC_SEGMENT : Z;
  LC_SEGMENT_64 : Z;
  LC_VERSION_MIN_MACOSX : Z;
  LC_VERSION_MIN_IPHONEOS : Z;
  LC_VERSION_MIN_WATCHOS : Z;
  uuid_off : Z;
  cryptid_off : Z;
  version_min_off : Z;
  sdk_off : Z;
  segname_off : Z;
  segment_vmaddr_off : Z;
  segment_vmsize_off : Z;
  segment_64_vmaddr_off : Z;
  segment_64_vmsize_off : Z;
  CPU_TYPE_ARM : Z;
  CPU_SUBTYPE_ARM_V7S : Z;
  CPU_SUBTYPE_ARM_V7K : Z;
  CPU_SUBTYPE_ARM64_ALL : Z;
  getsectbynamefromheader : Z -> list Z -> list Z -> M (option (Z * Z * Z));
  getsectbynamefromheader_64 : Z -> list Z -> list Z -> M (option (Z * Z * Z))
}.

Definition LC_VERSION_MIN_TVOS : Z := 0x2F.

Record FIRCLSMachOSlice := MachOSlice { startAddress : Z; cputype : Z; cpusubtype : Z }.
Record FIRCLSMachOVersion := MachOVersion { major : Z; minor : Z; bugfix : Z }.
Record FIRCLSMachOSection := MachOSection { section_addr : Z; section_size : Z; section_offset : Z }.
Record FIRCLSMachOSegmentCommand := MachOSegment { segname : list Z; segment_vmaddr : Z; segment_vmsize : Z }.

(** [uuidString] is an array of 33 characters. *)
Record FIRCLSBinaryImageDetails := ImageDetails {
  uuidString : list Z;
  encrypted : bool;
  builtSDK : FIRCLSMachOVersion;
  minSDK : FIRCLSMachOVersion;
  details_node : FIRCLSBinaryImageRuntimeNode;
  details_slice : FIRCLSMachOSlice;
  vmaddr_slide : Z
}.

Definition FIRCLSUUIDStringLength : nat := 33.

Definition zero_version : FIRCLSMachOVersion := MachOVersion 0 0 0.
Definition zero_node : FIRCLSBinaryImageRuntimeNode := ImageNode 0 0 0 0 0.

(** [memset(&imageDetails, 0, sizeof(FIRCLSBinaryImageDetails))] *)
Definition zero_details : FIRCLSBinaryImageDetails :=
  ImageDetails (replicate FIRCLSUUIDStringLength 0) false zero_version zero_version zero_node (MachOSlice 0 0 0) 0.

Definition with_uuid (d : FIRCLSBinaryImageDetails) (uuid : list Z) : FIRCLSBinaryImageDetails :=
  ImageDetails uuid (encrypted d) (builtSDK d) (minSDK d) (details_node d) (details_slice d) (vmaddr_slide d).
Definition with_encrypted (d : FIRCLSBinaryImageDetails) (e : bool) : FIRCLSBinaryImageDetails :=
  ImageDetails (uuidString d) e (builtSDK d) (minSDK d) (details_node d) (details_slice d) (vmaddr_slide d).
Definition with_versions (d : FIRCLSBinaryImageDetails) (built min : FIRCLSMachOVersion) : FIRCLSBinaryImageDetails :=
  ImageDetails (uuidString d) (encrypted d) built min (details_node d) (details_slice d) (vmaddr_slide d).
Definition with_node (d : FIRCLSBinaryImageDetails) (node : FIRCLSBinaryImageRuntimeNode) : FIRCLSBinaryImageDetails :=
  ImageDetails (uuidString d) (encrypted d) (builtSDK d) (minSDK d) node (details_slice d) (vmaddr_slide d).
Definition with_slice (d : FIRCLSBinaryImageDetails) (slice : FIRCLSMachOSlice) : FIRCLSBinaryImageDetails :=
  ImageDetails (uuidString d) (encrypted d) (builtSDK d) (minSDK d) (details_node d) slice (vmaddr_slide d).
Definition with_slide (d : FIRCLSBinaryImageDetails) (slide : Z) : FIRCLSBinaryImageDetails :=
  ImageDetails (uuidString d) (encrypted d) (builtSDK d) (minSDK d) (details_node d) (details_slice d) slide.

Definition with_base (n : FIRCLSBinaryImageRuntimeNode) (v : Z) : FIRCLSBinaryImageRuntimeNode :=
  ImageNode v (node_size n) (node_ehFrame n) (node_unwindInfo n) (node_crashInfo n).
Definition with_size (n : FIRCLSBinaryImageRuntimeNode) (v : Z) : FIRCLSBinaryImageRuntimeNode :=
  ImageNode (baseAddress n) v (node_ehFrame n) (node_unwindInfo n) (node_crashInfo n).
Definition with_ehFrame (n : FIRCLSBinaryImageRuntimeNode) (v : Z) : FIRCLSBinaryImageRuntimeNode :=
  ImageNode (baseAddress n) (node_size n) v (node_unwindInfo n) (node_crashInfo n).
Definition with_unwindInfo (n : FIRCLSBinaryImageRuntimeNode) (v : Z) : FIRCLSBinaryImageRuntimeNode :=
  ImageNode (baseAddress n) (node_size n) (node_ehFrame n) v (node_crashInfo n).
Definition with_crashInfo (n : FIRCLSBinaryImageRuntimeNode) (v : Z) : FIRCLSBinaryImageRuntimeNode :=
  ImageNode (baseAddress n) (node_size n) (node_ehFrame n) (node_unwindInfo n) v.

(** ** Strings *)

(** [strncmp(a, b, n) == 0] *)
Fixpoint strncmp_equal (n : nat) (a b : list Z) : option bool :=
  match n, a, b with
  | O, _, _ => Some true
  | S n, x :: a, y :: b =>
      if negb (x =? y) then Some false else if x =? 0 then Some true else strncmp_equal n a b
  | S _, _, _ => None
  end.

(** [strstr(string, pattern) != NULL], of bytes without the terminators. *)
Fixpoint strstr_found (string pattern : list Z) : bool :=
  bool_decide (take (length pattern) string = pattern) ||
  match string with [] => false | _ :: string => strstr_found string pattern end.

(** [for (size_t i = 0; i < length; ++i)] from [i] on. *)
Fixpoint hex_to_string_loop (rounds : nat) (value : list Z) (i : nat) (outputBuffer : list Z) : option (list Z) :=
  match rounds with
  | O => Some outputBuffer
  | S rounds =>
      c ← value !! i;
      outputBuffer ← store_at outputBuffer (Z.of_nat i * 2) (FIRCLSHexFromByte c);
      hex_to_string_loop rounds value (S i) outputBuffer
  end.

Definition FIRCLSSafeHexToString (value : list Z) (length : nat) (outputBuffer : list Z) : option (list Z) :=
  outputBuffer ← store_at outputBuffer 0 (replicate (length * 2 + 1) 0);
  hex_to_string_loop length value 0 outputBuffer.

(** ** Reading an image *)

Section MachO.
Context {MO : MachOFormat}.

Definition FIRCLSMachOSliceIsValid (slice : FIRCLSMachOSlice) : bool := negb (startAddress slice =? 0).

Definition FIRCLSMachOSliceIs64Bit (slice : FIRCLSMachOSlice) : bool :=
  Z.land (cputype slice) CPU_ARCH_ABI64 =? CPU_ARCH_ABI64.

(** [garbage] is what the uninitialised members hold. *)
Definition FIRCLSMachOSliceWithHeader (garbage : FIRCLSMachOSlice) (machHeader : Z) : FIRCLSMachOSlice :=
  MachOSlice machHeader (cputype garbage) (cpusubtype garbage).

(** Returns [*slice], [*cmds] and [*cmdCount]. *)
Definition FIRCLSMachOHeaderValues (slice : FIRCLSMachOSlice) : M (FIRCLSMachOSlice * Z * Z) :=
  let header := startAddress slice in
  if header =? 0 then mret (slice, 0, 0)
  else
    magic ← load 4 header;
    let found size :=
      cpu ← load 4 (u64 (header + header_cputype_off));
      subtype ← load 4 (u64 (header + header_cpusubtype_off));
      commandCount ← load 4 (u64 (header + header_ncmds_off));
      mret (MachOSlice header cpu subtype, u64 (header + size), commandCount) in
    if (magic =? MH_MAGIC) || (magic =? MH_CIGAM) then found mach_header_size
    else if (magic =? MH_MAGIC_64) || (magic =? MH_CIGAM_64) then found mach_header_64_size
    else mret (slice, 0, 0).

(** [for (uint32_t i = 0; cmd != NULL && i < cmdCount; ++i)] with the rounds that are
    left; [function] gets the type, the size and the address of a command. *)
Fixpoint load_commands_loop {C} (rounds : nat) (cmd : Z) (function : Z -> Z -> Z -> C -> M C) (context : C) : M C :=
  match rounds with
  | O => mret context
  | S rounds =>
      if cmd =? 0 then mret context
      else
        type ← load 4 (u64 (cmd + cmd_off));
        size ← load 4 (u64 (cmd + cmdsize_off));
        context ← function type size cmd context;
        size ← load 4 (u64 (cmd + cmdsize_off));
        load_commands_loop rounds (u64 (cmd + size)) function context
  end.

(** Also returns [*slice]. *)
Definition FIRCLSMachOSliceEnumerateLoadCommands_f {C} (slice : FIRCLSMachOSlice) (context : FIRCLSMachOSlice -> C)
    (function : Z -> Z -> Z -> C -> M C) : M C :=
  if negb (FIRCLSMachOSliceIsValid slice) then mret (context slice)
  else
    '(slice, cmd, cmdCount) ← FIRCLSMachOHeaderValues slice;
    load_commands_loop (Z.to_nat cmdCount) cmd function (context slice).

Definition FIRCLSMachOVersionFromEncoded (encoded : Z) : FIRCLSMachOVersion :=
  MachOVersion (Z.shiftr (Z.land encoded 0xffff0000) 16) (Z.shiftr (Z.land encoded 0x0000ff00) 8)
    (Z.land encoded 0x000000ff).

Definition FIRCLSMachOGetUUID (cmd : Z) : Z := u64 (cmd + uuid_off).

Definition FIRCLSMachOGetEncrypted (cmd : Z) : M bool :=
  cryptid ← load 4 (u64 (cmd + cryptid_off)); mret (0 <? cryptid).

Definition FIRCLSMachOGetMinimumOSVersion (cmd : Z) : M FIRCLSMachOVersion :=
  v ← load 4 (u64 (cmd + version_min_off)); mret (FIRCLSMachOVersionFromEncoded v).

Definition FIRCLSMachOGetLinkedSDKVersion (cmd : Z) : M FIRCLSMachOVersion :=
  v ← load 4 (u64 (cmd + sdk_off)); mret (FIRCLSMachOVersionFromEncoded v).

Definition FIRCLSBinaryImageMachOGetSegmentCommand (cmd : Z) : M FIRCLSMachOSegmentCommand :=
  let empty := MachOSegment (replicate 16 0) 0 0 in
  if cmd =? 0 then mret empty
  else
    type ← load 4 (u64 (cmd + cmd_off));
    if type =? LC_SEGMENT then
      name ← load_bytes (u64 (cmd + segname_off)) 16;
      vmaddr ← load 4 (u64 (cmd + segment_vmaddr_off));
      vmsize ← load 4 (u64 (cmd + segment_vmsize_off));
      mret (MachOSegment name vmaddr vmsize)
    else if type =? LC_SEGMENT_64 then
      name ← load_bytes (u64 (cmd + segname_off)) 16;
      vmaddr ← load 8 (u64 (cmd + segment_64_vmaddr_off));
      vmsize ← load 8 (u64 (cmd + segment_64_vmsize_off));
      mret (MachOSegment name vmaddr vmsize)
    else mret empty.

(** "__TEXT" and "__DATA", which loader.h calls SEG_TEXT and SEG_DATA. *)
Definition SEG_TEXT : list Z := chars "__TEXT".
Definition SEG_DATA : list Z := chars "__DATA".

Definition FIRCLSBinaryImageMachOSliceInitSectionByName (slice : FIRCLSMachOSlice) (segName sectionName : list Z) :
    M (option FIRCLSMachOSection) :=
  sect ← (if FIRCLSMachOSliceIs64Bit slice then getsectbynamefromheader_64 (startAddress slice) segName sectionName
          else getsectbynamefromheader (startAddress slice) segName sectionName);
  mret ('(addr, size, offset) ← sect; Some (MachOSection addr size offset)).

Definition FIRCLSPopulateImageDetailWithLoadCommand (type size cmd : Z) (details : FIRCLSBinaryImageDetails) :
    M FIRCLSBinaryImageDetails :=
  if type =? LC_UUID then
    uuid ← load_bytes (FIRCLSMachOGetUUID cmd) 16;
    text ← of_option (FIRCLSSafeHexToString uuid 16 (uuidString details));
    mret (with_uuid details text)
  else if type =? LC_ENCRYPTION_INFO then
    e ← FIRCLSMachOGetEncrypted cmd;
    mret (with_encrypted details e)
  else if (type =? LC_SEGMENT) || (type =? LC_SEGMENT_64) then
    segmentCommand ← FIRCLSBinaryImageMachOGetSegmentCommand cmd;
    text ← of_option (strncmp_equal 7 (segname segmentCommand) (c_string SEG_TEXT));
    mret (if text : bool then with_node details (with_size (details_node details) (segment_vmsize segmentCommand))
          else details)
  else if (type =? LC_VERSION_MIN_MACOSX) || (type =? LC_VERSION_MIN_IPHONEOS) || (type =? LC_VERSION_MIN_TVOS) ||
          (type =? LC_VERSION_MIN_WATCHOS) then
    min ← FIRCLSMachOGetMinimumOSVersion cmd;
    built ← FIRCLSMachOGetLinkedSDKVersion cmd;
    mret (with_versions details built min)
  else mret details.

(** [section.addr + details->vmaddr_slide] of a section, when it is there. *)
Definition section_address (details : FIRCLSBinaryImageDetails) (segName sectionName : list Z) : M (option Z) :=
  section ← FIRCLSBinaryImageMachOSliceInitSectionByName (details_slice details) segName sectionName;
  mret (s ← section; Some (u64 (section_addr s + vmaddr_slide details))).

(** [details] is at a valid address. *)
Definition FIRCLSBinaryImageFillInImageDetails (details : FIRCLSBinaryImageDetails) : M (bool * FIRCLSBinaryImageDetails) :=
  if negb (FIRCLSIsValidPointer (startAddress (details_slice details))) then mret (false, details)
  else
    let details := with_node details (with_base (details_node details) (startAddress (details_slice details))) in
    details ← FIRCLSMachOSliceEnumerateLoadCommands_f (details_slice details) (with_slice details)
                FIRCLSPopulateImageDetailWithLoadCommand;
    let set (f : FIRCLSBinaryImageRuntimeNode -> Z -> FIRCLSBinaryImageRuntimeNode) address details :=
      match address with Some a => with_node details (f (details_node details) a) | None => details end in
    unwindInfo ← section_address details SEG_TEXT (chars "__unwind_info");
    let details := set with_unwindInfo unwindInfo details in
    ehFrame ← section_address details SEG_TEXT (chars "__eh_frame");
    let details := set with_ehFrame ehFrame details in
    crashInfo ← section_address details SEG_DATA (chars "__crash_info");
    mret (true, set with_crashInfo crashInfo details).

(** [for (uint32_t i = 0; i < imageCount; ++i)] over the headers that dyld has;
    [garbage] is what the uninitialised local [image] holds. *)
Fixpoint find_uuid_loop (headers : list Z) (garbage : FIRCLSBinaryImageDetails) (uuid : list Z) :
    M (option FIRCLSBinaryImageDetails) :=
  match headers with
  | [] => mret None
  | mh :: headers =>
      '(_, image) ← FIRCLSBinaryImageFillInImageDetails
        (with_slice garbage (FIRCLSMachOSliceWithHeader (details_slice garbage) mh));
      equal ← of_option (strncmp_equal FIRCLSUUIDStringLength uuid (uuidString image));
      if equal : bool then mret (Some image) else find_uuid_loop headers garbage uuid
  end.

(** [*imageDetails] when it was found. *)
Definition FIRCLSBinaryImageFindImageForUUID (headers : list Z) (garbage : FIRCLSBinaryImageDetails) (uuid : option (list Z)) :
    M (option FIRCLSBinaryImageDetails) :=
  match uuid with None => mret None | Some uuid => find_uuid_loop headers garbage uuid end.

End MachO.

(** ** The table *)

(** [for (uint32_t i = 0; i < CLS_BINARY_IMAGE_RUNTIME_NODE_COUNT; ++i)] with the
    rounds that are left; returns the nodes and [success]. A failed exchange stores
    what it found in [searchAddress]. *)
Fixpoint store_node_loop (rounds i : nat) (nodes_addr : Z) (added : bool) (searchAddress : Z)
    (node : FIRCLSBinaryImageRuntimeNode) (nodes : list FIRCLSBinaryImageRuntimeNode) :
    option (list FIRCLSBinaryImageRuntimeNode * bool) :=
  match rounds with
  | O => Some (nodes, false)
  | S rounds =>
      if nodes_addr + Z.of_nat i * runtime_node_size =? 0 then Some (nodes, false)
      else
        current ← nodes !! i;
        if negb (baseAddress current =? searchAddress) then
          store_node_loop rounds (S i) nodes_addr added searchAddress node nodes
        else
          let '(base, swapped, expected) :=
            atomic_compare_exchange_strong (baseAddress current) searchAddress (baseAddress node) in
          let nodes := <[i := with_base current base]> nodes in
          if swapped : bool then Some (<[i := node]> nodes, true)
          else if negb added then Some (nodes, false)
          else store_node_loop rounds (S i) nodes_addr added expected node nodes
  end.

(** The address that is searched for, and the node that is stored there. *)
Definition search_address (added : bool) (node : FIRCLSBinaryImageRuntimeNode) : Z :=
  if added then 0 else baseAddress node.

Definition stored_node (added : bool) (node : FIRCLSBinaryImageRuntimeNode) : FIRCLSBinaryImageRuntimeNode :=
  if added then node else with_base zero_node (baseAddress node).

(** [table] is [_firclsContext.writable->binaryImage]; [None] is an access outside of
    the array. *)
Definition FIRCLSBinaryImageStoreNode (added : bool) (imageDetails : FIRCLSBinaryImageDetails) (table : image_table) :
    option image_table :=
  '(nodes, _) ← store_node_loop (Z.to_nat CLS_BINARY_IMAGE_RUNTIME_NODE_COUNT) 0 (nodes_addr table) added
                  (search_address added (details_node imageDetails)) (stored_node added (details_node imageDetails)) (nodes table);
  Some (ImageTable (context_initialized table) (nodes_addr table) nodes).

(** ** One step at a time

    A signal can stop the process in the middle of a change, and the handler then
    looks into the table. The state is the array and how far the change is; a
    structure is copied field by field, in any order. *)
Inductive node_field := BaseField | SizeField | EhFrameField | UnwindInfoField | CrashInfoField.

#[global] Instance node_field_eq_dec : EqDecision node_field.
Proof. solve_decision. Defined.

Definition all_node_fields : list node_field := [BaseField; SizeField; EhFrameField; UnwindInfoField; CrashInfoField].

Definition get_field (field : node_field) (n : FIRCLSBinaryImageRuntimeNode) : Z :=
  match field with
  | BaseField => baseAddress n
  | SizeField => node_size n
  | EhFrameField => node_ehFrame n
  | UnwindInfoField => node_unwindInfo n
  | CrashInfoField => node_crashInfo n
  end.

Definition copy_field (field : node_field) (from to : FIRCLSBinaryImageRuntimeNode) : FIRCLSBinaryImageRuntimeNode :=
  match field with
  | BaseField => with_base to (baseAddress from)
  | SizeField => with_size to (node_size from)
  | EhFrameField => with_ehFrame to (node_ehFrame from)
  | UnwindInfoField => with_unwindInfo to (node_unwindInfo from)
  | CrashInfoField => with_crashInfo to (node_crashInfo from)
  end.

Inductive store_progress :=
  | Searching (i : nat)
  | Copying (i : nat) (todo : list node_field)
  | Stopped (success : bool).

(** The steps of a change that looks for [searchAddress] to store [node] there; no
    other change runs, since the queue is serial, so that the exchange succeeds. *)
Inductive store_step (nodes_addr searchAddress : Z) (node : FIRCLSBinaryImageRuntimeNode) :
    relation (list FIRCLSBinaryImageRuntimeNode * store_progress) :=
  | store_skip i nodes current :
      Z.of_nat i < CLS_BINARY_IMAGE_RUNTIME_NODE_COUNT -> nodes_addr + Z.of_nat i * runtime_node_size <> 0 ->
      nodes !! i = Some current -> baseAddress current <> searchAddress ->
      store_step nodes_addr searchAddress node (nodes, Searching i) (nodes, Searching (S i))
  | store_claim i nodes current base expected :
      Z.of_nat i < CLS_BINARY_IMAGE_RUNTIME_NODE_COUNT -> nodes_addr + Z.of_nat i * runtime_node_size <> 0 ->
      nodes !! i = Some current -> baseAddress current = searchAddress ->
      atomic_compare_exchange_strong (baseAddress current) searchAddress (baseAddress node) = (base, true, expected) ->
      store_step nodes_addr searchAddress node (nodes, Searching i)
        (<[i := with_base current base]> nodes, Copying i all_node_fields)
  | store_copy i nodes current field todo :
      field ∈ todo -> nodes !! i = Some current ->
      store_step nodes_addr searchAddress node (nodes, Copying i todo)
        (<[i := copy_field field node current]> nodes, Copying i (filter (.≠ field) todo))
  | store_copied i nodes :
      store_step nodes_addr searchAddress node (nodes, Copying i []) (nodes, Stopped true)
  | store_not_found i nodes :
      CLS_BINARY_IMAGE_RUNTIME_NODE_COUNT <= Z.of_nat i \/ nodes_addr + Z.of_nat i * runtime_node_size = 0 ->
      store_step nodes_addr searchAddress node (nodes, Searching i) (nodes, Stopped false).

(** ** The log of images *)

(** [executable_path start]: the file of the image at an address, by dladdr;
    [bundle_strings path]: identifier, version and short version of the bundle of the
    framework whose executable is at a path. [local_arch]: the CPU of
    [NXGetLocalArchInfo]; [arch_name]: [NXGetArchInfoFromCpuType]; [main_image]: the
    address of the main executable, by dlsym and dladdr. The file is that of the
    table. *)
Class ImageHost := {
  executable_path : Z -> option (list Z);
  bundle_strings : list Z -> option (option (list Z) * option (list Z) * option (list Z));
  local_arch : option (Z * Z);
  arch_name : Z -> Z -> option (list Z);
  main_image : option Z
}.

Section Log.
Context {KN : Kernel} {IH : ImageHost}.

Definition FIRCLSMachOSliceGetExecutablePath (slice : FIRCLSMachOSlice) : option (list Z) :=
  if negb (FIRCLSMachOSliceIsValid slice) then None else executable_path (startAddress slice).

(** [path] is that of the log, [None] when the read-only context is not valid.
    Returns the result and [*needsClosing]. *)
Definition FIRCLSBinaryImageOpenIfNeeded (path : option (list Z)) : F (bool * bool) :=
  writable ← file_given;
  if negb writable then mret (false, false)
  else
    match path with
    | None => mret (false, false)
    | Some path =>
        open ← FIRCLSFileIsOpen;
        if open : bool then mret (true, false)
        else
          ok ← FIRCLSFileInitWithPath (Some path) false;
          if negb ok then mret (false, false) else mret (true, true)
    end.

Definition FIRCLSFileWriteHashEntryNSStringUnlessNilOrEmpty (key : list Z) (string : option (list Z)) : F unit :=
  match string with
  | Some ((_ :: _) as s) => FIRCLSFileWriteHashEntryString key (Some (c_string s))
  | _ => mret tt
  end.

Definition FIRCLSBinaryImageRecordDetails (imageDetails : FIRCLSBinaryImageDetails) : F unit :=
  FIRCLSFileWriteHashEntryString (literal "uuid") (Some (uuidString imageDetails));;
  FIRCLSFileWriteHashEntryUint64 (literal "base") (startAddress (details_slice imageDetails));;
  FIRCLSFileWriteHashEntryUint64 (literal "size") (node_size (details_node imageDetails)).

Definition FIRCLSBinaryImageRecordLibraryFrameworkInfo (path : option (list Z)) : F unit :=
  match path with
  | None => mret tt
  | Some path =>
      if bool_decide (take 7 path = chars "/System") then mret tt
      else if negb (strstr_found path (chars ".framework")) then mret tt
      else
        match bundle_strings path with
        | None => mret tt
        | Some (identifier, version, shortVersion) =>
            FIRCLSFileWriteHashEntryNSStringUnlessNilOrEmpty (literal "bundle_id") identifier;;
            FIRCLSFileWriteHashEntryNSStringUnlessNilOrEmpty (literal "build_version") version;;
            FIRCLSFileWriteHashEntryNSStringUnlessNilOrEmpty (literal "display_version") shortVersion
        end
  end.

(** The section of a change. *)
Definition record_slice_section (added : bool) (imageDetails : FIRCLSBinaryImageDetails) : F unit :=
  FIRCLSFileWriteSectionStart (if added then literal "load" else literal "unload");;
  FIRCLSFileWriteHashStart;;
  let path := FIRCLSMachOSliceGetExecutablePath (details_slice imageDetails) in
  FIRCLSFileWriteHashEntryString (literal "path") (c_string <$> path);;
  (if added then FIRCLSBinaryImageRecordLibraryFrameworkInfo path else mret tt);;
  FIRCLSBinaryImageRecordDetails imageDetails;;
  FIRCLSFileWriteHashEnd;;
  FIRCLSFileWriteSectionEnd.

Definition FIRCLSBinaryImageRecordSlice (log_path : option (list Z)) (added : bool)
    (imageDetails : FIRCLSBinaryImageDetails) : F unit :=
  '(ok, needsClosing) ← FIRCLSBinaryImageOpenIfNeeded log_path;
  if negb ok then mret tt
  else
    record_slice_section added imageDetails;;
    if needsClosing : bool then FIRCLSFileClose;; mret tt else mret tt.

End Log.

(** ** Changes

    dyld's callbacks read the image and put the change into the queue; the blocks of
    the queue run one after the other. *)

Section Changes.
Context {KN : Kernel} {IH : ImageHost} {MO : MachOFormat} {SG : Signals}.

(** [sizeof(FIRCLSImageChange)] *)
Definition image_change_size : Z := 136.

Inductive queue_block :=
  | OpenLog
  | ImageChange (added : bool) (details : FIRCLSBinaryImageDetails)
  | CloseLog.

(** The block that is put into the queue, [None] when there is no memory for it. *)
Definition FIRCLSBinaryImageChanged (garbage : FIRCLSMachOSlice) (added : bool) (mh slide : Z) : P (option queue_block) :=
  let imageDetails := with_slide (with_slice zero_details (FIRCLSMachOSliceWithHeader garbage mh)) slide in
  '(_, imageDetails) ← in_memory (FIRCLSBinaryImageFillInImageDetails imageDetails);
  change ← call (sys_malloc image_change_size);
  mret (match change with None => None | Some _ => Some (ImageChange added imageDetails) end).

(** [table] is [None] when the writable context is null. *)
Definition FIRCLSProcessBinaryImageChange (log_path : option (list Z)) (added : bool) (details : FIRCLSBinaryImageDetails)
    (table : option image_table) : P (option image_table) :=
  table ← match table with
          | None => mret None
          | Some t => t ← defined (FIRCLSBinaryImageStoreNode added details t); mret (Some t)
          end;
  to_file (FIRCLSBinaryImageRecordSlice log_path added details);;
  mret table.

Definition run_block (log_path : option (list Z)) (block : queue_block) (table : option image_table) :
    P (option image_table) :=
  match block with
  | OpenLog =>
      FIRCLSUnlinkIfExists log_path;;
      to_file (FIRCLSBinaryImageOpenIfNeeded log_path);;
      mret table
  | ImageChange added details => FIRCLSProcessBinaryImageChange log_path added details table
  | CloseLog => to_file FIRCLSFileClose;; mret table
  end.

Fixpoint run_queue (log_path : option (list Z)) (queue : list queue_block) (table : option image_table) :
    P (option image_table) :=
  match queue with
  | [] => mret table
  | block :: queue => table ← run_block log_path block table; run_queue log_path queue table
  end.

(** The table and the file that FIRCLSBinaryImageInit starts from, and the queue with
    the changes for the images that dyld reports while the callback is registered. *)
Definition initial_table (initialized : bool) (nodes_addr : Z) : image_table :=
  ImageTable initialized nodes_addr (replicate (Z.to_nat CLS_BINARY_IMAGE_RUNTIME_NODE_COUNT) zero_node).

Definition FIRCLSBinaryImageInit (initialized : bool) (nodes_addr : Z) (loaded : list FIRCLSBinaryImageDetails) :
    image_table * FIRCLSFile * list queue_block :=
  (initial_table initialized nodes_addr, File (-1) 0 false false NoBuffer 0 0,
   [OpenLog] ++ (ImageChange true <$> loaded) ++ [CloseLog]).

End Changes.

(** ** The main executable *)

Section MainExecutable.
Context {KN : Kernel} {IH : ImageHost} {MO : MachOFormat}.

Definition CLS_CPU_SUBTYPE_ARM64E : Z := 2.

Definition FIRCLSMachOSliceGetCurrent (garbage : FIRCLSMachOSlice) : FIRCLSMachOSlice :=
  let '(cpu, subtype) := default (cputype garbage, cpusubtype garbage) local_arch in
  MachOSlice (default 0 main_image) cpu subtype.

Definition FIRCLSMachOSliceGetArchitectureName (slice : FIRCLSMachOSlice) : list Z :=
  let other :=
    if (cputype slice =? CPU_TYPE_ARM) && (cpusubtype slice =? CPU_SUBTYPE_ARM_V7K) then chars "armv7k"
    else default (chars "unknown") (arch_name (cputype slice) (cpusubtype slice)) in
  if (cputype slice =? CPU_TYPE_ARM) && (cpusubtype slice =? CPU_SUBTYPE_ARM_V7S) then chars "armv7s"
  else if cputype slice =? Z.lor CPU_TYPE_ARM CPU_ARCH_ABI64 then
    if cpusubtype slice =? CLS_CPU_SUBTYPE_ARM64E then chars "arm64e"
    else if cpusubtype slice =? CPU_SUBTYPE_ARM64_ALL then chars "arm64"
    else other
  else other.

(** "%d.%d.%d" *)
Definition FIRCLSMachOFormatVersion (version : FIRCLSMachOVersion) : list Z :=
  signed_decimal (s32 (major version)) ++ chars "." ++ signed_decimal (s32 (minor version)) ++ chars "." ++
  signed_decimal (s32 (bugfix version)).

Definition record_main_section (imageDetails : FIRCLSBinaryImageDetails) : F unit :=
  FIRCLSFileWriteSectionStart (literal "executable");;
  FIRCLSFileWriteHashStart;;
  FIRCLSFileWriteHashEntryString (literal "architecture")
    (Some (c_string (FIRCLSMachOSliceGetArchitectureName (details_slice imageDetails))));;
  FIRCLSBinaryImageRecordDetails imageDetails;;
  FIRCLSFileWriteHashEntryBoolean (literal "encrypted") (encrypted imageDetails);;
  FIRCLSFileWriteHashEntryString (literal "minimum_sdk_version") (Some (c_string (FIRCLSMachOFormatVersion (minSDK imageDetails))));;
  FIRCLSFileWriteHashEntryString (literal "built_sdk_version") (Some (c_string (FIRCLSMachOFormatVersion (builtSDK imageDetails))));;
  FIRCLSFileWriteHashEnd;;
  FIRCLSFileWriteSectionEnd.

(** The slide stays 0. *)
Definition FIRCLSBinaryImageRecordMainExecutable (garbage : FIRCLSMachOSlice) : P bool :=
  let imageDetails := with_slice zero_details (FIRCLSMachOSliceGetCurrent garbage) in
  '(_, imageDetails) ← in_memory (FIRCLSBinaryImageFillInImageDetails imageDetails);
  to_file (record_main_section imageDetails);;
  mret true.

End MainExecutable.
