(* ===== verification/ImageSpec.v ===== *)
(** What the table of images promises: that it holds the images that are loaded,
    how far a change that was interrupted has come, and what looking up an address
    gives then; and the text of a change in the log of images. *)
From S2P Require Import Prelude Memory DwarfData ThreadState CompactUnwind Unwind Allocate File FileFormat FileSpec.
From S2P Require Import FileFormatSpec FileJson Crash CrashSpec Handler HandlerSpec Signal BinaryImage.

(** ** Lists *)

Lemma list_find_insert {A} (P : A -> Prop) `{!forall x, Decision (P x)} l j old x :
  l !! j = Some old -> ~ P old -> ~ P x -> list_find P (<[j := x]> l) = list_find P l.
Proof.
  revert j. induction l as [|y l IH]; intros [|j] Hj Ho Hx; cbn in *; try done.
  - injection Hj as ->. by rewrite !decide_False.
  - destruct (decide (P y)); [done|]. by rewrite IH.
Qed.

Lemma list_find_found {A} (P : A -> Prop) `{!forall x, Decision (P x)} l j x :
  list_find P l = Some (j, x) -> l !! j = Some x /\ P x.
Proof. by intros (Hj & Hx & _)%list_find_Some. Qed.

(** ** The table as a list *)

(** The node that is found for an address, and the nodes after a change. *)
Definition covers (address : Z) (n : FIRCLSBinaryImageRuntimeNode) : bool :=
  (baseAddress n <=? address) && (address <? u64 (baseAddress n + node_size n)).

Definition covering (ns : list FIRCLSBinaryImageRuntimeNode) (address : Z) : option FIRCLSBinaryImageRuntimeNode :=
  snd <$> list_find (covers address) ns.

Definition has_base (base : Z) (n : FIRCLSBinaryImageRuntimeNode) : Prop := baseAddress n = base.

#[global] Instance has_base_dec base n : Decision (has_base base n).
Proof. unfold has_base. apply _. Defined.

Definition stored_into (search : Z) (v : FIRCLSBinaryImageRuntimeNode) (ns : list FIRCLSBinaryImageRuntimeNode) :
    list FIRCLSBinaryImageRuntimeNode :=
  match list_find (has_base search) ns with Some (j, _) => <[j := v]> ns | None => ns end.

Lemma find_loop_covering ns addr address :
  4096 <= addr -> find_image_loop ns addr address = covering ns address.
Proof.
  unfold covering. revert addr. induction ns as [|n ns IH]; intros addr Ha; [done|]. cbn.
  unfold FIRCLSIsValidPointer. rewrite (proj2 (Z.leb_le _ _)) by done. cbn [negb].
  fold (covers address n). destruct (covers address n); [done|]. rewrite IH by (unfold runtime_node_size; lia).
  cbn. by destruct (list_find _ ns) as [[]|].
Qed.

Lemma find_covering t address :
  context_initialized t = true -> 4096 <= nodes_addr t -> address <> 0 ->
  FIRCLSBinaryImageSafeFindImageForAddress t address = covering (nodes t) address.
Proof.
  intros Hi Ha H0. unfold FIRCLSBinaryImageSafeFindImageForAddress. rewrite Hi. cbn [negb].
  rewrite !(proj2 (Z.eqb_neq _ _)) by (done || lia). by apply find_loop_covering.
Qed.

Lemma store_loop_run addr added search v rounds : forall i ns,
  0 < addr -> (i + rounds = length ns)%nat ->
  store_node_loop rounds i addr added search v ns =
    Some (match list_find (has_base search) (drop i ns) with Some (j, _) => (<[(i + j)%nat := v]> ns, true) | None => (ns, false) end).
Proof.
  induction rounds as [|rounds IH]; intros i ns Ha Hlen; cbn [store_node_loop].
  { by rewrite drop_ge by lia. }
  rewrite (proj2 (Z.eqb_neq _ _)) by (unfold runtime_node_size; lia).
  destruct (lookup_lt_is_Some_2 ns i ltac:(lia)) as [current Ei]. rewrite Ei. cbn [mbind option_bind].
  rewrite (drop_S _ _ _ Ei). cbn [list_find]. destruct (Z.eqb_spec (baseAddress current) search) as [E|Hne]; cbn [negb].
  - rewrite decide_True by done. unfold atomic_compare_exchange_strong. rewrite (proj2 (Z.eqb_eq _ _)) by done.
    by rewrite list_insert_insert_eq, Nat.add_0_r.
  - rewrite decide_False by done. rewrite IH by (done || lia). do 2 f_equal.
    destruct (list_find _ (drop (S i) ns)) as [[j n]|]; cbn; [|done]. by rewrite Nat.add_succ_r.
Qed.

(** The array has its size, and an address. *)
Record wf_table (t : image_table) : Prop := {
  wf_count : Z.of_nat (length (nodes t)) = CLS_BINARY_IMAGE_RUNTIME_NODE_COUNT;
  wf_address : 4096 <= nodes_addr t;
  wf_initialized : context_initialized t = true
}.

Definition with_nodes (t : image_table) (ns : list FIRCLSBinaryImageRuntimeNode) : image_table :=
  ImageTable (context_initialized t) (nodes_addr t) ns.

Lemma length_stored_into search v ns : length (stored_into search v ns) = length ns.
Proof. unfold stored_into. destruct (list_find _ _) as [[]|]; [apply length_insert|done]. Qed.

Lemma wf_with_nodes t ns : wf_table t -> length ns = length (nodes t) -> wf_table (with_nodes t ns).
Proof. intros [H1 H2 H3] Hl. split; cbn; [by rewrite Hl|done..]. Qed.

Lemma store_node_run added d t :
  wf_table t ->
  FIRCLSBinaryImageStoreNode added d t =
    Some (with_nodes t (stored_into (search_address added (details_node d)) (stored_node added (details_node d)) (nodes t))).
Proof.
  intros [Hc Ha _]. unfold FIRCLSBinaryImageStoreNode. rewrite store_loop_run by lia.
  unfold stored_into. rewrite drop_0. by destruct (list_find _ _) as [[]|].
Qed.

(** Changes, one after the other. *)
Definition store_changes (changes : list (bool * FIRCLSBinaryImageDetails)) (t : image_table) : option image_table :=
  foldl (fun t c => t ≫= FIRCLSBinaryImageStoreNode c.1 c.2) (Some t) changes.

Lemma store_changes_step c cs t : store_changes (c :: cs) t = FIRCLSBinaryImageStoreNode c.1 c.2 t ≫= store_changes cs.
Proof.
  unfold store_changes. cbn [foldl]. change (Some t ≫= FIRCLSBinaryImageStoreNode c.1 c.2) with (FIRCLSBinaryImageStoreNode c.1 c.2 t).
  destruct (FIRCLSBinaryImageStoreNode c.1 c.2 t); [done|]. by induction cs.
Qed.

Lemma store_changes_cons c cs t t' :
  FIRCLSBinaryImageStoreNode c.1 c.2 t = Some t' -> store_changes (c :: cs) t = store_changes cs t'.
Proof. intros E. rewrite store_changes_step. by rewrite E. Qed.

Lemma store_changes_wf cs t : wf_table t -> exists t', store_changes cs t = Some t' /\ wf_table t'.
Proof.
  revert t. induction cs as [|c cs IH]; intros t Hwf; [by exists t|].
  rewrite (store_changes_cons _ _ _ _ (store_node_run _ _ _ Hwf)). apply IH.
  apply wf_with_nodes; [done|apply length_stored_into].
Qed.

(** *** Well-formed nodes *)

Definition node_ok (n : FIRCLSBinaryImageRuntimeNode) : Prop :=
  Forall (fun field => 0 <= get_field field n < 2 ^ 64) all_node_fields.

(** The slots that were ever used. *)
Fixpoint claimed (ns : list FIRCLSBinaryImageRuntimeNode) : Z :=
  match ns with [] => 0 | n :: ns => (if baseAddress n =? 0 then 0 else 1) + claimed ns end.

Definition loads (changes : list (bool * FIRCLSBinaryImageDetails)) : nat := length (filter (fun c => c.1 = true) changes).

Lemma claimed_insert ns j old v :
  ns !! j = Some old ->
  claimed (<[j := v]> ns) = claimed ns + (if baseAddress v =? 0 then 0 else 1) - (if baseAddress old =? 0 then 0 else 1).
Proof.
  revert j. induction ns as [|n ns IH]; intros [|j] Hj; cbn in Hj; try done.
  - injection Hj as ->. cbn. lia.
  - change (<[S j:=v]> (n :: ns)) with (n :: <[j:=v]> ns). cbn [claimed]. rewrite (IH j Hj). lia.
Qed.

(** A change keeps the nodes well-formed; a load takes at most one slot, an unload gives
    none back. *)
Lemma change_claims added d ns :
  Forall node_ok ns -> node_ok (details_node d) -> baseAddress (details_node d) <> 0 ->
  let ns' := stored_into (search_address added (details_node d)) (stored_node added (details_node d)) ns in
  Forall node_ok ns' /\ claimed ns <= claimed ns' <= claimed ns + (if added then 1 else 0).
Proof.
  intros Hns Hd Hb. unfold stored_into. destruct (list_find _ ns) as [[j old]|] eqn:E; [|split; [done|destruct added; lia]].
  apply list_find_found in E as [Hj Hold]. unfold has_base in Hold. cbv zeta. rewrite (claimed_insert _ _ _ _ Hj). split.
  - apply Forall_insert; [done|]. destruct added; [done|]. unfold node_ok, all_node_fields in *. rewrite !Forall_cons in *.
    cbn in *. split_and!; (done || lia).
  - rewrite Hold. destruct added; cbn [search_address stored_node with_base baseAddress]; rewrite ?(proj2 (Z.eqb_neq _ _) Hb); cbn; lia.
Qed.

Lemma changes_claim changes t :
  wf_table t -> Forall node_ok (nodes t) ->
  Forall (fun c => node_ok (details_node c.2) /\ baseAddress (details_node c.2) <> 0) changes ->
  exists t', store_changes changes t = Some t' /\ wf_table t' /\ Forall node_ok (nodes t') /\
    claimed (nodes t) <= claimed (nodes t') <= claimed (nodes t) + Z.of_nat (loads changes).
Proof.
  intros Hwf Hns Hcs. revert t Hwf Hns. induction Hcs as [|[added d] changes [Hd Hb] Hcs IH]; intros t Hwf Hns.
  { exists t. split_and!; [done..|lia|cbn; lia]. }
  cbn [fst snd] in *. destruct (change_claims added d (nodes t) Hns Hd Hb) as [Hns' Hc]. cbv zeta in *.
  rewrite (store_changes_cons (added, d) _ _ _ (store_node_run added d t Hwf)).
  destruct (IH _ (wf_with_nodes t _ Hwf (length_stored_into _ _ _)) Hns') as (t' & E & Hwf' & Hn' & Hc').
  exists t'. cbn [nodes with_nodes] in Hc'. split_and!; [done..|lia|].
  unfold loads. rewrite filter_cons. fold (loads changes). destruct added; cbn [fst]; [rewrite decide_True by done|rewrite decide_False by done];
    cbn [length]; unfold loads in *; lia.
Qed.

(** ** The images that are loaded *)

Notation node := FIRCLSBinaryImageRuntimeNode.

#[global] Instance node_eq_dec : EqDecision node.
Proof. solve_decision. Defined.

(** The addresses of an image, and what dyld reports: images that have addresses, and
    share none. *)
Definition inside (n : node) (address : Z) : Prop := baseAddress n <= address < baseAddress n + node_size n.

Definition image_ok (n : node) : Prop := 0 < baseAddress n /\ 0 < node_size n /\ baseAddress n + node_size n < 2 ^ 64.

Definition apart (n m : node) : Prop :=
  baseAddress n + node_size n <= baseAddress m \/ baseAddress m + node_size m <= baseAddress n.

(** [images_after loaded gone changes loaded' gone']: with the images [loaded], and
    the bases [gone] of those unloaded so far, [changes] can happen and lead to
    [loaded'] and [gone']. An image can be loaded where one was before, but is then not
    unloaded. *)
Inductive images_after : list node -> list Z -> list (bool * FIRCLSBinaryImageDetails) -> list node -> list Z -> Prop :=
  | after_nothing loaded gone : images_after loaded gone [] loaded gone
  | after_load d loaded gone changes loaded' gone' :
      image_ok (details_node d) -> Forall (apart (details_node d)) loaded ->
      images_after (details_node d :: loaded) gone changes loaded' gone' ->
      images_after loaded gone ((true, d) :: changes) loaded' gone'
  | after_unload n d loaded gone changes loaded' gone' :
      n ∈ loaded -> baseAddress (details_node d) = baseAddress n -> baseAddress n ∉ gone ->
      images_after (filter (.≠ n) loaded) (baseAddress n :: gone) changes loaded' gone' ->
      images_after loaded gone ((false, d) :: changes) loaded' gone'.

(** What an image leaves in the table. *)
Definition left_behind (base : Z) : node := with_base zero_node base.

Record tracks_images (loaded : list node) (gone : list Z) (free : nat) (ns : list node) : Prop := {
  loaded_ok : Forall image_ok loaded;
  loaded_apart n m : n ∈ loaded -> m ∈ loaded -> n = m \/ apart n m;
  slots : exists used, ns = used ++ replicate free zero_node /\ NoDup used /\
    (forall n, n ∈ loaded -> n ∈ used) /\
    (forall n, n ∈ used -> n ∈ loaded \/ exists base, base ∈ gone /\ 0 < base < 2 ^ 64 /\ n = left_behind base)
}.

Lemma covers_inside n address : image_ok n -> covers address n = true <-> inside n address.
Proof.
  intros (H1 & H2 & H3). unfold covers, inside. rewrite wrap_small by lia.
  rewrite andb_true_iff, Z.leb_le, Z.ltb_lt. done.
Qed.

Lemma covers_empty address n : node_size n = 0 -> 0 <= baseAddress n < 2 ^ 64 -> covers address n = false.
Proof.
  intros Hs Hb. unfold covers. rewrite Hs, Z.add_0_r, wrap_small by done.
  destruct (Z.leb_spec (baseAddress n) address), (Z.ltb_spec address (baseAddress n)); (done || lia).
Qed.

Lemma apart_outside n m address : apart n m -> inside n address -> ~ inside m address.
Proof. unfold apart, inside. lia. Qed.

Lemma apart_sym n m : apart n m -> apart m n.
Proof. unfold apart. lia. Qed.

Lemma apart_base n m : image_ok n -> image_ok m -> apart n m -> baseAddress n <> baseAddress m.
Proof. unfold image_ok, apart. lia. Qed.

Section Tracking.
Context (loaded : list node) (gone : list Z) (free : nat) (ns : list node).
Context (Htr : tracks_images loaded gone free ns).

Lemma loaded_image n : n ∈ loaded -> image_ok n.
Proof. intros Hn. by apply (proj1 (Forall_forall _ _) (loaded_ok _ _ _ _ Htr)). Qed.

(** A slot that an address is found in is that of a loaded image. *)
Lemma slot_inside j n address : ns !! j = Some n -> covers address n = true -> n ∈ loaded /\ inside n address.
Proof.
  destruct (slots _ _ _ _ Htr) as (used & E & _ & _ & Hslots). intros Hj Hc. rewrite E in Hj.
  assert (Hn : n ∈ loaded).
  { apply lookup_app_Some in Hj as [Hj|[_ Hj]].
    - destruct (Hslots n (list_elem_of_lookup_2 _ _ _ Hj)) as [|(b & Hb & Hpos & ->)]; [done|].
      rewrite covers_empty in Hc; [done|done|cbn; lia].
    - apply lookup_replicate in Hj as [-> _]. by rewrite covers_empty in Hc. }
  split; [done|]. by apply covers_inside; [apply loaded_image|].
Qed.

Lemma loaded_slot n : n ∈ loaded -> exists j, ns !! j = Some n.
Proof.
  destruct (slots _ _ _ _ Htr) as (used & E & _ & Hin & _). rewrite E. intros Hn%Hin.
  apply list_elem_of_lookup in Hn as [j Hj]. exists j. by apply lookup_app_l_Some.
Qed.

(** At most one image has the address. *)
Lemma loaded_unique n m address : n ∈ loaded -> m ∈ loaded -> inside n address -> inside m address -> n = m.
Proof.
  intros Hn Hm Hi Hi'. destruct (loaded_apart _ _ _ _ Htr n m Hn Hm) as [|Ha]; [done|].
  by destruct (apart_outside n m address).
Qed.

Lemma covering_loaded address n : covering ns address = Some n <-> n ∈ loaded /\ inside n address.
Proof.
  unfold covering. split.
  - destruct (list_find _ ns) as [[j m]|] eqn:E; [|done]. intros [= <-].
    apply list_find_found in E as [Hj Hc%Is_true_true]. by eapply slot_inside.
  - intros [Hn Hi]. destruct (loaded_slot n Hn) as [j Hj].
    destruct (list_find_elem_of (covers address) ns n) as [[k m] E].
    { by eapply list_elem_of_lookup_2. }
    { apply Is_true_true. by apply covers_inside; [apply loaded_image|]. }
    rewrite E. cbn. f_equal. apply list_find_found in E as [Hk Hc%Is_true_true].
    destruct (slot_inside k m address Hk Hc). by eapply loaded_unique.
Qed.

End Tracking.

(** *** The slot of a change *)

Lemma used_base loaded gone free ns n :
  tracks_images loaded gone free ns ->
  n ∈ loaded \/ (exists base, base ∈ gone /\ 0 < base < 2 ^ 64 /\ n = left_behind base) -> 0 < baseAddress n.
Proof.
  intros Htr [Hn|(b & _ & Hb & ->)]; [|cbn; lia]. by destruct (loaded_image _ _ _ _ Htr n Hn).
Qed.

Lemma not_left_behind n base : image_ok n -> n <> left_behind base.
Proof. intros (_ & H & _) ->. cbn in H. lia. Qed.

(** An image that is loaded takes the first slot that was never used. *)
Lemma free_slot loaded gone free ns :
  tracks_images loaded gone (S free) ns ->
  exists used, ns = used ++ replicate (S free) zero_node /\ list_find (has_base 0) ns = Some (length used, zero_node).
Proof.
  intros Htr. destruct (slots _ _ _ _ Htr) as (used & -> & _ & _ & Hslots). exists used. split; [done|].
  apply list_find_Some. split_and!.
  - by rewrite lookup_app_r, Nat.sub_diag by done.
  - done.
  - intros j n Hj Hlt. rewrite lookup_app_l in Hj by done. apply list_elem_of_lookup_2 in Hj as Hin.
    pose proof (used_base _ _ _ _ n Htr (Hslots n Hin)). unfold has_base. lia.
Qed.

Lemma full_keeps loaded gone ns v : tracks_images loaded gone 0 ns -> stored_into 0 v ns = ns.
Proof.
  intros Htr. unfold stored_into. destruct (list_find (has_base 0) ns) as [[j n]|] eqn:E; [|done].
  apply list_find_found in E as [Hj Hb]. destruct (slots _ _ _ _ Htr) as (used & Eu & _ & _ & Hslots).
  cbn [replicate] in Eu. rewrite app_nil_r in Eu. subst used. pose proof (used_base _ _ _ _ n Htr (Hslots n (list_elem_of_lookup_2 _ _ _ Hj))).
  unfold has_base in Hb. lia.
Qed.

(** An image that is unloaded gives up the slot it was stored in. *)
Lemma loaded_at loaded gone free ns n :
  tracks_images loaded gone free ns -> n ∈ loaded -> baseAddress n ∉ gone ->
  exists j, list_find (has_base (baseAddress n)) ns = Some (j, n).
Proof.
  intros Htr Hn Hg. destruct (loaded_slot _ _ _ _ Htr n Hn) as [i Hi].
  destruct (list_find_elem_of (has_base (baseAddress n)) ns n (list_elem_of_lookup_2 _ _ _ Hi) eq_refl) as [[j m] E].
  exists j. rewrite E. do 2 f_equal. apply list_find_found in E as [Hj Hb]. unfold has_base in Hb.
  pose proof (loaded_image _ _ _ _ Htr n Hn) as Hok. pose proof Hok as (Hpos & _).
  destruct (slots _ _ _ _ Htr) as (used & -> & _ & _ & Hslots). apply lookup_app_Some in Hj as [Hj|[_ Hj]].
  - destruct (Hslots m (list_elem_of_lookup_2 _ _ _ Hj)) as [Hm|(b & Hin & _ & ->)].
    + destruct (loaded_apart _ _ _ _ Htr n m Hn Hm) as [|Ha]; [done|].
      destruct (apart_base n m Hok (loaded_image _ _ _ _ Htr m Hm) Ha). congruence.
    + cbn in Hb. subst b. done.
  - apply lookup_replicate in Hj as [-> _]. cbn in Hb. lia.
Qed.

Lemma load_tracks loaded gone free ns n :
  tracks_images loaded gone (S free) ns -> image_ok n -> Forall (apart n) loaded ->
  tracks_images (n :: loaded) gone free (stored_into 0 n ns).
Proof.
  intros Htr Hok Hap. destruct (free_slot _ _ _ _ Htr) as (used' & Ens & Ef).
  destruct (slots _ _ _ _ Htr) as (used & Eu & Hnd & Hin & Hslots).
  assert (Hused : used' = used) by by rewrite Ens in Eu; apply app_inv_tail in Eu. subst used'.
  rewrite Forall_forall in Hap. split.
  - constructor; [done|]. apply (loaded_ok _ _ _ _ Htr).
  - intros a b [->|Ha]%elem_of_cons [->|Hb]%elem_of_cons; [by left|right; auto|right; apply apart_sym; auto|].
    by apply (loaded_apart _ _ _ _ Htr).
  - exists (used ++ [n]). split_and!.
    + unfold stored_into. rewrite Ef, Ens. cbn [replicate].
      rewrite insert_app_r_alt, Nat.sub_diag by done. cbn. by rewrite <- app_assoc.
    + apply NoDup_app. split_and!; [done| |apply NoDup_singleton].
      intros m Hm ->%list_elem_of_singleton. destruct (Hslots n Hm) as [Hl|(b & _ & _ & ->)].
      * destruct (apart_base n n Hok Hok (Hap n Hl)). done.
      * by apply (not_left_behind _ b Hok).
    + intros m [->|Hm]%elem_of_cons; apply elem_of_app; [right; by apply list_elem_of_singleton|left; auto].
    + intros m [Hm| ->%list_elem_of_singleton]%elem_of_app; [|left; by left].
      destruct (Hslots m Hm) as [Hl|Hl]; [left; by right|by right].
Qed.

Lemma unload_tracks loaded gone free ns n :
  tracks_images loaded gone free ns -> n ∈ loaded -> baseAddress n ∉ gone ->
  tracks_images (filter (.≠ n) loaded) (baseAddress n :: gone) free
    (stored_into (baseAddress n) (left_behind (baseAddress n)) ns).
Proof.
  intros Htr Hn Hg. destruct (loaded_at _ _ _ _ _ Htr Hn Hg) as [j Ef].
  pose proof (list_find_found _ _ _ _ Ef) as [Hj _]. pose proof (loaded_image _ _ _ _ Htr n Hn) as Hok.
  destruct (slots _ _ _ _ Htr) as (used & Eu & Hnd & Hin & Hslots). split.
  - apply Forall_forall. intros m [_ Hm]%list_elem_of_filter. by apply (loaded_image _ _ _ _ Htr).
  - intros a b [_ Ha]%list_elem_of_filter [_ Hb]%list_elem_of_filter. by apply (loaded_apart _ _ _ _ Htr).
  - assert (Hju : used !! j = Some n).
    { rewrite Eu in Hj. apply lookup_app_Some in Hj as [|[_ Hj]]; [done|].
      apply lookup_replicate in Hj as [-> _]. destruct Hok as (H & _). cbn in H. lia. }
    pose proof (lookup_lt_Some _ _ _ Hju) as Hlt.
    exists (<[j := left_behind (baseAddress n)]> used). split_and!.
    + unfold stored_into. rewrite Ef, Eu. by rewrite insert_app_l.
    + apply NoDup_alt. intros i k m Hi Hk. rewrite list_lookup_insert in Hi, Hk.
      assert (Hnew : forall i', used !! i' <> Some (left_behind (baseAddress n))).
      { intros i' H%list_elem_of_lookup_2. destruct (Hslots _ H) as [Hl|(b & Hb & _ & E)].
        - by apply (not_left_behind _ (baseAddress n) (loaded_image _ _ _ _ Htr _ Hl)).
        - apply (f_equal baseAddress) in E. cbn in E. subst b. done. }
      destruct (decide (j = i /\ _)) as [[<- _]|], (decide (j = k /\ _)) as [[<- _]|]; simplify_eq; try done.
      * by destruct (Hnew k).
      * by destruct (Hnew i).
      * by eapply NoDup_lookup.
    + intros m [Hne Hm]%list_elem_of_filter. apply Hin, list_elem_of_lookup in Hm as [i Hi].
      eapply list_elem_of_lookup_2. rewrite list_lookup_insert_ne; [exact Hi|]. intros ->. congruence.
    + intros m Hm. apply list_elem_of_lookup in Hm as [i Hi]. rewrite list_lookup_insert in Hi.
      destruct (decide (j = i /\ _)) as [[<- _]|Hd]; simplify_eq.
      { right. exists (baseAddress n). split; [by left|]. split; [|done]. destruct Hok as (? & ? & ?). lia. }
      assert (Hij : j <> i) by naive_solver.
      destruct (Hslots m (list_elem_of_lookup_2 _ _ _ Hi)) as [Hm|(b & Hb & Hp & ->)].
      * left. apply list_elem_of_filter. split; [|done]. intros ->. apply Hij. by eapply NoDup_lookup.
      * right. exists b. split; [by right|done].
Qed.

(** ** A history of changes *)

Lemma empty_tracks free : tracks_images [] [] free (replicate free zero_node).
Proof.
  split; [constructor|by intros n m Hn%elem_of_nil|]. exists []. split_and!; [done|constructor|done|].
  by intros n Hn%elem_of_nil.
Qed.

Lemma changes_track changes loaded gone loaded' gone' free t :
  wf_table t -> images_after loaded gone changes loaded' gone' ->
  tracks_images loaded gone (loads changes + free) (nodes t) ->
  exists t', store_changes changes t = Some t' /\ wf_table t' /\ tracks_images loaded' gone' free (nodes t').
Proof.
  intros Hwf Hafter. revert t Hwf. induction Hafter as [| |]; intros t Hwf Htr; [by exists t| |];
    rewrite (store_changes_cons _ _ _ _ (store_node_run _ _ _ Hwf)); cbn [fst snd search_address stored_node].
  - apply IHHafter; [apply wf_with_nodes; [done|apply length_stored_into]|]. by apply load_tracks.
  - apply IHHafter; [apply wf_with_nodes; [done|apply length_stored_into]|]. cbn [nodes with_nodes].
    rewrite H0. by apply unload_tracks.
Qed.

Lemma initial_wf addr : 4096 <= addr -> wf_table (initial_table true addr).
Proof. by split. Qed.

(** What the table of a process holds after a history of changes. *)
Lemma history_tracked changes loaded gone addr :
  4096 <= addr -> images_after [] [] changes loaded gone ->
  Z.of_nat (loads changes) <= CLS_BINARY_IMAGE_RUNTIME_NODE_COUNT ->
  exists t free, store_changes changes (initial_table true addr) = Some t /\ wf_table t /\
    Z.of_nat (loads changes + free) = CLS_BINARY_IMAGE_RUNTIME_NODE_COUNT /\ tracks_images loaded gone free (nodes t).
Proof.
  intros Ha Hafter Hl. pose (free := (Z.to_nat CLS_BINARY_IMAGE_RUNTIME_NODE_COUNT - loads changes)%nat).
  assert (Hf : (loads changes + free = Z.to_nat CLS_BINARY_IMAGE_RUNTIME_NODE_COUNT)%nat) by (unfold free; lia).
  destruct (changes_track changes [] [] loaded gone free (initial_table true addr)) as (t & E & Hwf & Htr);
    [by apply initial_wf|done|rewrite Hf; apply empty_tracks|].
  exists t, free. split_and!; try done. rewrite Hf. by rewrite Z2Nat.id.
Qed.

(** *** Any history *)

(** [history loaded changes loaded']: with the images [loaded], [changes] can happen and
    lead to [loaded']; images can be loaded and unloaded at an address any number of
    times. *)
Inductive history : list node -> list (bool * FIRCLSBinaryImageDetails) -> list node -> Prop :=
  | history_nothing loaded : history loaded [] loaded
  | history_load d loaded changes loaded' :
      image_ok (details_node d) -> Forall (apart (details_node d)) loaded ->
      history (details_node d :: loaded) changes loaded' -> history loaded ((true, d) :: changes) loaded'
  | history_unload n d loaded changes loaded' :
      n ∈ loaded -> baseAddress (details_node d) = baseAddress n ->
      history (filter (.≠ n) loaded) changes loaded' -> history loaded ((false, d) :: changes) loaded'.

(** The bases at which images were unloaded, in their order. *)
Definition unloaded (changes : list (bool * FIRCLSBinaryImageDetails)) : list Z :=
  (fun c => baseAddress (details_node c.2)) <$> filter (fun c => c.1 = false) changes.

Lemma unloaded_cons added d changes :
  unloaded ((added, d) :: changes) = if added then unloaded changes else baseAddress (details_node d) :: unloaded changes.
Proof. unfold unloaded. rewrite filter_cons. by destruct added. Qed.

(** A history in which no address has an image unloaded twice. *)
Lemma history_after loaded changes loaded' gone :
  history loaded changes loaded' -> NoDup (unloaded changes) -> (forall b, b ∈ unloaded changes -> b ∉ gone) ->
  exists gone', images_after loaded gone changes loaded' gone'.
Proof.
  intros Hh. revert gone. induction Hh as [loaded|d loaded changes loaded' Hok Hap _ IH|n d loaded changes loaded' Hn Hb _ IH];
    intros gone Hnd Hg; [exists gone; constructor| |]; rewrite unloaded_cons in Hnd, Hg.
  - destruct (IH gone Hnd Hg) as [gone' H]. exists gone'. by constructor.
  - rewrite Hb in Hnd, Hg. apply NoDup_cons in Hnd as [Hnew Hnd]. destruct (IH (baseAddress n :: gone) Hnd) as [gone' H].
    { intros b Hin. apply not_elem_of_cons. split; [by intros ->|]. apply Hg. by right. }
    exists gone'. econstructor; [done..| |exact H]. apply Hg. by left.
Qed.

(** What holds of the table then: the loaded images have slots, and the other slots are
    those of images that were loaded at some time, or empty. *)
Record holds_images (loaded ever : list node) (free : nat) (ns : list node) : Prop := {
  held_ok : Forall image_ok loaded;
  held_apart n m : n ∈ loaded -> m ∈ loaded -> n = m \/ apart n m;
  held_slots : exists used, ns = used ++ replicate free zero_node /\ (forall n, n ∈ loaded -> n ∈ used) /\
    (forall n, n ∈ used -> n ∈ ever /\ image_ok n \/ exists base, 0 < base < 2 ^ 64 /\ n = left_behind base)
}.

Lemma load_held loaded ever free ns n :
  holds_images loaded ever (S free) ns -> image_ok n -> Forall (apart n) loaded ->
  holds_images (n :: loaded) (n :: ever) free (stored_into 0 n ns).
Proof.
  intros [Hoks Hapart (used & -> & Hin & Hslots)] Hok Hap. rewrite Forall_forall in Hap. split.
  - by constructor.
  - intros a b [->|Ha]%elem_of_cons [->|Hb]%elem_of_cons; [by left|right; auto|right; apply apart_sym; auto|by apply Hapart].
  - exists (used ++ [n]). split_and!.
    + unfold stored_into. rewrite (proj2 (list_find_Some (has_base 0) _ (length used) zero_node)).
      { rewrite insert_app_r_alt, Nat.sub_diag by done. cbn. by rewrite <- app_assoc. }
      split_and!; [by rewrite lookup_app_r, Nat.sub_diag by done|done|].
      intros j m Hj Hlt. rewrite lookup_app_l in Hj by done. apply list_elem_of_lookup_2 in Hj. unfold has_base.
      destruct (Hslots m Hj) as [[_ (? & _)]|(b & Hb & ->)]; cbn; lia.
    + intros m [->|Hm]%elem_of_cons; apply elem_of_app; [right; by apply list_elem_of_singleton|left; auto].
    + intros m [Hm| ->%list_elem_of_singleton]%elem_of_app; [|left; split; [by left|done]].
      destruct (Hslots m Hm) as [[He Hmok]|H]; [left; split; [by right|done]|by right].
Qed.

Lemma unload_held loaded ever free ns n :
  holds_images loaded ever free ns -> n ∈ loaded ->
  holds_images (filter (.≠ n) loaded) ever free (stored_into (baseAddress n) (left_behind (baseAddress n)) ns).
Proof.
  intros [Hoks Hapart (used & -> & Hin & Hslots)] Hn.
  pose proof (proj1 (Forall_forall _ _) Hoks) as Himg. pose proof (Himg n Hn) as Hok. split.
  - apply Forall_forall. intros m [_ Hm]%list_elem_of_filter. by apply Himg.
  - intros a b [_ Ha]%list_elem_of_filter [_ Hb]%list_elem_of_filter. by apply Hapart.
  - unfold stored_into. destruct (list_find_elem_of (has_base (baseAddress n)) used n (Hin n Hn) eq_refl) as [[j m] E].
    rewrite (list_find_app_l _ _ _ _ _ E). apply list_find_found in E as [Hj Hm].
    pose proof (lookup_lt_Some _ _ _ Hj) as Hlt. exists (<[j := left_behind (baseAddress n)]> used). split_and!.
    + by rewrite insert_app_l.
    + intros a [Hne Ha]%list_elem_of_filter. pose proof (Hin a Ha) as [i Hi]%list_elem_of_lookup.
      eapply list_elem_of_lookup_2. rewrite list_lookup_insert_ne; [exact Hi|]. intros ->.
      assert (a = m) as -> by congruence. destruct (Hapart m n Ha Hn) as [|Hap]; [done|].
      by apply (apart_base m n (Himg m Ha) Hok Hap).
    + intros a Ha. apply list_elem_of_lookup in Ha as [i Hi]. rewrite list_lookup_insert in Hi.
      destruct (decide (j = i /\ _)) as [[<- _]|_]; simplify_eq; [|by apply Hslots, (list_elem_of_lookup_2 _ i)].
      right. exists (baseAddress n). split; [|done]. destruct Hok as (? & ? & ?). lia.
Qed.

Lemma changes_hold changes loaded loaded' ever free t :
  wf_table t -> history loaded changes loaded' -> holds_images loaded ever (loads changes + free) (nodes t) ->
  exists t' ever', store_changes changes t = Some t' /\ wf_table t' /\ holds_images loaded' ever' free (nodes t') /\
    forall n, n ∈ ever' -> n ∈ ever \/ exists d, (true, d) ∈ changes /\ n = details_node d.
Proof.
  intros Hwf Hh. revert t ever Hwf.
  induction Hh as [loaded|d loaded changes loaded' Hok Hap _ IH|n d loaded changes loaded' Hn Hb _ IH]; intros t ever Hwf Hold.
  { exists t, ever. split; [done|]. split; [done|]. split; [exact Hold|]. intros n Hn. by left. }
  - rewrite (store_changes_cons _ _ _ _ (store_node_run _ _ _ Hwf)); cbn [fst snd search_address stored_node].
    destruct (IH (with_nodes t (stored_into 0 (details_node d) (nodes t))) (details_node d :: ever))
      as (t' & ever' & E & Hwf' & Hold' & He);
      [apply wf_with_nodes; [done|apply length_stored_into]|by apply load_held|].
    exists t', ever'. split; [exact E|]. split; [exact Hwf'|]. split; [exact Hold'|]. intros n Hn. apply He in Hn as [[->|Hn]%elem_of_cons|(d' & Hd & ->)].
    + right. exists d. split; [by left|done].
    + by left.
    + right. exists d'. split; [by right|done].
  - rewrite (store_changes_cons _ _ _ _ (store_node_run _ _ _ Hwf)); cbn [fst snd search_address stored_node]. rewrite Hb.
    destruct (IH (with_nodes t (stored_into (baseAddress n) (left_behind (baseAddress n)) (nodes t))) ever)
      as (t' & ever' & E & Hwf' & Hold' & He);
      [apply wf_with_nodes; [done|apply length_stored_into]|by apply unload_held|].
    exists t', ever'. split; [exact E|]. split; [exact Hwf'|]. split; [exact Hold'|]. intros m Hm.
    apply He in Hm as [Hm|(d' & Hd & ->)]; [by left|right]. exists d'. split; [by right|done].
Qed.

(** What is found is an image that was loaded, and something is found in every loaded
    image. *)
Lemma covering_held loaded ever free ns address :
  holds_images loaded ever free ns ->
  (forall n, covering ns address = Some n -> n ∈ ever /\ inside n address) /\
  (forall n, n ∈ loaded -> inside n address -> is_Some (covering ns address)).
Proof.
  intros [Hoks _ (used & -> & Hin & Hslots)]. unfold covering. split.
  - intros n. destruct (list_find _ _) as [[j m]|] eqn:E; [|done]. intros [= <-].
    apply list_find_found in E as [Hj Hc%Is_true_true]. apply lookup_app_Some in Hj as [Hj|[_ Hj]].
    + destruct (Hslots m (list_elem_of_lookup_2 _ _ _ Hj)) as [[He Hok]|(b & Hb & ->)].
      * split; [done|]. by apply covers_inside.
      * by rewrite covers_empty in Hc by (done || cbn; lia).
    + apply lookup_replicate in Hj as [-> _]. by rewrite covers_empty in Hc.
  - intros n Hn Hi. destruct (list_find_elem_of (covers address) (used ++ replicate free zero_node) n) as [[k m] E].
    { apply elem_of_app. left. auto. }
    { apply Is_true_true, covers_inside; [|done]. by apply (proj1 (Forall_forall _ _) Hoks). }
    rewrite E. by eexists.
Qed.

(** ** A change that is interrupted *)

(** A node of which some fields are those of [v] and the others still those of
    [old]; a node of which some fields are those of an image and the others 0. *)
Definition mixed (old v cur : node) : Prop :=
  baseAddress cur = baseAddress v /\
  forall field, get_field field cur = get_field field v \/ field <> BaseField /\ get_field field cur = get_field field old.

Definition partial (image n : node) : Prop :=
  baseAddress n = baseAddress image /\ forall field, get_field field n = get_field field image \/ get_field field n = 0.

Inductive store_state (ns : list node) (j : nat) (old v : node) : list node * store_progress -> Prop :=
  | state_searching i : (i <= j)%nat -> store_state ns j old v (ns, Searching i)
  | state_copying todo cur :
      baseAddress cur = baseAddress v ->
      (forall field, field ∉ todo -> get_field field cur = get_field field v) ->
      (forall field, field ∈ todo -> field <> BaseField -> get_field field cur = get_field field old) ->
      store_state ns j old v (<[j := cur]> ns, Copying j todo)
  | state_stopped : store_state ns j old v (<[j := v]> ns, Stopped true).

Lemma get_copy_field field field' from to :
  get_field field (copy_field field' from to) = if decide (field = field') then get_field field from else get_field field to.
Proof. by destruct field, field'. Qed.

Lemma fields_equal n m : (forall field, get_field field n = get_field field m) -> n = m.
Proof.
  intros H. destruct n, m.
  pose proof (H BaseField). pose proof (H SizeField). pose proof (H EhFrameField). pose proof (H UnwindInfoField).
  pose proof (H CrashInfoField). cbn in *. congruence.
Qed.

Lemma all_fields field : field ∈ all_node_fields.
Proof. unfold all_node_fields. destruct field; rewrite !elem_of_cons; tauto. Qed.

Section Interrupted.
Context (addr search : Z) (ns : list node) (j : nat) (old v : node).
Context (Ha : 4096 <= addr) (Hfind : list_find (has_base search) ns = Some (j, old)).
Context (Hlen : Z.of_nat (length ns) = CLS_BINARY_IMAGE_RUNTIME_NODE_COUNT).

Lemma found_slot : ns !! j = Some old /\ baseAddress old = search.
Proof. by apply list_find_found in Hfind. Qed.

Lemma slot_before i n : (i < j)%nat -> ns !! i = Some n -> baseAddress n <> search.
Proof.
  intros Hi Hn. apply list_find_Some in Hfind as (_ & _ & Hbefore). by apply (Hbefore i n).
Qed.

Lemma slot_in_table : (j < length ns)%nat.
Proof. destruct found_slot as [H _]. by apply lookup_lt_Some in H. Qed.

Lemma step_keeps_state s s' : store_state ns j old v s -> store_step addr search v s s' -> store_state ns j old v s'.
Proof.
  destruct found_slot as [Hj Hb]. pose proof slot_in_table as Hlt. pose proof slot_before as Hbefore.
  intros [i Hi|todo cur Hbase Hdone Htodo|] Hstep; inversion Hstep; subst.
  - constructor. assert (i <> j) by (intros ->; congruence). lia.
  - assert (i = j) as -> by (destruct (decide (i = j)); [done|]; by destruct (Hbefore i current ltac:(lia) ltac:(done))).
    replace current with old in * by congruence.
    match goal with H : atomic_compare_exchange_strong _ _ _ = _ |- _ => revert H end.
    unfold atomic_compare_exchange_strong. rewrite Z.eqb_refl. intros [= <- <-].
    constructor; [done|intros field Hf; by destruct (Hf (all_fields field))|by intros [] _].
  - match goal with H : _ \/ _ |- _ => destruct H as [H|H] end; unfold runtime_node_size in *; lia.
  - match goal with H : <[j := cur]> ns !! j = _ |- _ => rewrite list_lookup_insert_eq in H by done; injection H as <- end.
    rewrite list_insert_insert_eq. constructor.
    + destruct field; done.
    + intros f Hf. rewrite get_copy_field. destruct (decide (f = field)) as [->|Hne]; [done|].
      apply Hdone. intros Hin. apply Hf. by apply list_elem_of_filter.
    + intros f [Hne Hin]%list_elem_of_filter Hbf. rewrite get_copy_field, decide_False by done. by apply Htodo.
  - replace cur with v; [constructor|]. symmetry. apply fields_equal. intros field. apply Hdone. by intros ?%elem_of_nil.
Qed.

Lemma reachable_state s : rtc (store_step addr search v) (ns, Searching 0) s -> store_state ns j old v s.
Proof.
  intros H. pattern s. eapply rtc_ind_r; [|intros y z _ Hstep Hy; by eapply step_keeps_state|exact H]. constructor. lia.
Qed.

(** A change that has not stopped can go on. *)
Lemma state_steps s : store_state ns j old v s -> (exists ok, s.2 = Stopped ok) \/ exists s', store_step addr search v s s'.
Proof.
  destruct found_slot as [Hj Hb]. pose proof slot_in_table as Hlt.
  intros [i Hi|todo cur _ _ _|]; [right|right|left; by exists true].
  - destruct (lookup_lt_is_Some_2 ns i ltac:(lia)) as [current Ei].
    destruct (decide (baseAddress current = search)) as [E|Hne].
    + eexists. eapply store_claim; [lia|unfold runtime_node_size; lia|done|done|].
      unfold atomic_compare_exchange_strong. by rewrite (proj2 (Z.eqb_eq _ _)).
    + eexists. eapply store_skip; [lia|unfold runtime_node_size; lia|done|done].
  - destruct todo as [|field todo].
    + eexists. apply store_copied.
    + eexists. eapply store_copy; [by left|]. by apply list_lookup_insert_eq.
Qed.

(** The image that is loaded or unloaded, and what no other slot has of it. *)
Context (image : node) (Hok : image_ok image).
Context (Hmixed : forall cur, mixed old v cur -> partial image cur).
Context (Hold : forall address, covers address old = true -> old = image).
Context (Hothers : forall k m address, ns !! k = Some m -> k <> j -> covers address m = true -> ~ inside image address).

Lemma partial_inside cur address : partial image cur -> covers address cur = true -> inside image address.
Proof.
  intros [Hb Hf] Hc. pose proof Hok as (H1 & H2 & H3). destruct (Hf SizeField) as [Hs|Hs]; cbn in Hs.
  - unfold covers in Hc. rewrite Hb, Hs in Hc. by apply covers_inside.
  - rewrite covers_empty in Hc by (done || rewrite Hb; lia). done.
Qed.

Lemma lookup_with_slot cur address :
  partial image cur ->
  (~ inside image address -> covering (<[j := cur]> ns) address = covering ns address) /\
  (inside image address -> covering (<[j := cur]> ns) address = None \/ covering (<[j := cur]> ns) address = Some cur).
Proof.
  intros Hp. destruct found_slot as [Hj _]. unfold covering. split; intros Hi.
  - rewrite (list_find_insert _ _ _ old) by
      (done || (intros Hc%Is_true_true; apply Hi; first [by eapply partial_inside|
         pose proof (Hold _ Hc) as ->; by apply covers_inside])). done.
  - destruct (list_find (covers address) (<[j := cur]> ns)) as [[k m]|] eqn:E; [|by left]. right. cbn. f_equal.
    apply list_find_found in E as [Hk Hc%Is_true_true]. apply list_lookup_insert_Some in Hk as [(-> & -> & _)|[Hne Hk]]; [done|].
    by destruct (Hothers k m address Hk (not_eq_sym Hne) Hc).
Qed.

Lemma lookup_without_slot address :
  inside image address -> covering ns address = None \/ covering ns address = Some image.
Proof.
  intros Hi. destruct found_slot as [Hj _]. unfold covering. destruct (list_find (covers address) ns) as [[k m]|] eqn:E; [|by left].
  right. cbn. f_equal. apply list_find_found in E as [Hk Hc%Is_true_true]. destruct (decide (k = j)) as [->|Hne].
  - replace m with old in * by congruence. by apply (Hold address).
  - by destruct (Hothers k m address Hk Hne Hc).
Qed.

(** What an address gives while the change goes on. *)
Lemma lookup_in_state s address :
  store_state ns j old v s ->
  (~ inside image address -> covering s.1 address = covering ns address) /\
  (inside image address -> covering s.1 address = None \/ exists n, covering s.1 address = Some n /\ partial image n).
Proof.
  intros [i Hi|todo cur Hb Hdone Htodo|]; cbn [fst].
  - split; [done|]. intros H. destruct (lookup_without_slot address H) as [|E]; [by left|right].
    exists image. split; [done|]. split; [done|]. by left.
  - assert (Hp : partial image cur).
    { apply Hmixed. split; [done|]. intros f. destruct (decide (f ∈ todo)) as [Hin|Hnin]; [|left; by apply Hdone].
      destruct (decide (f = BaseField)) as [->|Hne]; [by left|right; auto]. }
    destruct (lookup_with_slot cur address Hp) as [H1 H2]. split; [done|]. intros H.
    destruct (H2 H); [by left|right; eauto].
  - assert (Hp : partial image v) by (apply Hmixed; split; auto).
    destruct (lookup_with_slot v address Hp) as [H1 H2]. split; [done|]. intros H.
    destruct (H2 H); [by left|right; eauto].
Qed.

End Interrupted.

(** The image that a change is about. *)
Definition changed_image (added : bool) (d : FIRCLSBinaryImageDetails) (loaded : list node) (image : node) : Prop :=
  if added then image = details_node d else image ∈ loaded /\ baseAddress (details_node d) = baseAddress image.

(** What the lemmas on an interrupted change ask for. *)
Record slot_for (ns : list node) (search : Z) (j : nat) (old v image : node) : Prop := {
  slot_found : list_find (has_base search) ns = Some (j, old);
  slot_image : image_ok image;
  slot_mixed cur : mixed old v cur -> partial image cur;
  slot_old address : covers address old = true -> old = image;
  slot_others k m address : ns !! k = Some m -> k <> j -> covers address m = true -> ~ inside image address
}.

Lemma load_slot loaded gone free ns n :
  tracks_images loaded gone (S free) ns -> image_ok n -> Forall (apart n) loaded ->
  exists j, slot_for ns 0 j zero_node n n.
Proof.
  intros Htr Hok Hap. destruct (free_slot _ _ _ _ Htr) as (used & _ & Ef). exists (length used). split; [done|done| | |].
  - intros cur [Hb Hf]. split; [done|]. intros f. destruct (Hf f) as [|[_ ->]]; [by left|right]. by destruct f.
  - intros a Hc. by rewrite covers_empty in Hc.
  - intros k m a Hk _ Hc Hi. destruct (slot_inside _ _ _ _ Htr k m a Hk Hc) as [Hm Him].
    rewrite Forall_forall in Hap. by apply (apart_outside n m a (Hap m Hm)).
Qed.

Lemma unload_slot loaded gone free ns n :
  tracks_images loaded gone free ns -> n ∈ loaded -> baseAddress n ∉ gone ->
  exists j, slot_for ns (baseAddress n) j n (left_behind (baseAddress n)) n.
Proof.
  intros Htr Hn Hg. destruct (loaded_at _ _ _ _ _ Htr Hn Hg) as [j Ef]. exists j.
  pose proof (loaded_image _ _ _ _ Htr n Hn) as Hok. split; [done|done| |done|].
  - intros cur [Hb Hf]. split; [done|]. intros f. destruct (Hf f) as [->|[_ ->]]; [|by left].
    destruct f; [by left|by right..].
  - intros k m a Hk Hne Hc Hi. destruct (slot_inside _ _ _ _ Htr k m a Hk Hc) as [Hm Him].
    rewrite (loaded_unique _ _ _ _ Htr m n a Hm Hn Him Hi) in Hk. apply list_find_found in Ef as [Hj _].
    apply Hne. destruct (slots _ _ _ _ Htr) as (used & E & Hnd & _ & _). rewrite E in Hj, Hk.
    assert (Hu : forall i, (used ++ replicate free zero_node) !! i = Some n -> used !! i = Some n).
    { intros i Hl. apply lookup_app_Some in Hl as [|[_ Hr]]; [done|]. apply lookup_replicate in Hr as [-> _].
      destruct Hok as (Hpos & _). done. }
    by eapply NoDup_lookup; [|by apply Hu|by apply Hu].
Qed.

Lemma change_slot loaded gone free ns added d loaded' gone' :
  tracks_images loaded gone (loads [(added, d)] + free) ns -> images_after loaded gone [(added, d)] loaded' gone' ->
  exists image j old, changed_image added d loaded image /\
    slot_for ns (search_address added (details_node d)) j old (stored_node added (details_node d)) image.
Proof.
  intros Htr Hafter. inversion Hafter; subst.
  - destruct (load_slot _ _ _ _ (details_node d) Htr ltac:(done) ltac:(done)) as [j Hs]. by exists (details_node d), j, zero_node.
  - destruct (unload_slot _ _ _ _ n Htr ltac:(done) ltac:(done)) as [j Hs]. exists n, j, n.
    cbn [search_address stored_node changed_image]. match goal with H : baseAddress _ = baseAddress n |- _ => rewrite H end. by split.
Qed.

(** ** The log of images *)

Section LogText.
Context {IH : ImageHost}.

(** The members of the object of a change. *)
Definition bundle_member (name : string) (s : option (list Z)) : list (list Z * json) :=
  match s with Some ((_ :: _) as s) => [(chars name, JString s)] | _ => [] end.

Definition bundle_members (path : option (list Z)) : list (list Z * json) :=
  match path with
  | None => []
  | Some p =>
      if bool_decide (take 7 p = chars "/System") || negb (strstr_found p (chars ".framework")) then []
      else
        match bundle_strings p with
        | None => []
        | Some (identifier, version, short_version) =>
            bundle_member "bundle_id" identifier ++ bundle_member "build_version" version ++
            bundle_member "display_version" short_version
        end
  end.

Definition image_path (d : FIRCLSBinaryImageDetails) : option (list Z) := FIRCLSMachOSliceGetExecutablePath (details_slice d).

(** The characters of [uuidString] before its terminator. *)
Definition uuid_of (d : FIRCLSBinaryImageDetails) : list Z :=
  match list_find (eq 0) (uuidString d) with Some (i, _) => take i (uuidString d) | None => uuidString d end.

Definition change_json (added : bool) (d : FIRCLSBinaryImageDetails) : json :=
  JHash ([(chars "path", match image_path d with Some p => JString p | None => JNull end)] ++
         (if added then bundle_members (image_path d) else []) ++
         [(chars "uuid", JString (uuid_of d)); (chars "base", JUint (startAddress (details_slice d)));
          (chars "size", JUint (node_size (details_node d)))]).

Definition change_text (added : bool) (d : FIRCLSBinaryImageDetails) : list Z :=
  section_text (if added then chars "load" else chars "unload") (change_json added d).

(** What fits: strings of at most [n] bytes, numbers of 64 bits. *)
Record identified (n : Z) (d : FIRCLSBinaryImageDetails) : Prop := {
  uuid_terminated : 0 ∈ uuidString d;
  uuid_length : Z.of_nat (length (uuidString d)) <= n;
  base_bounds : 0 <= startAddress (details_slice d) < 2 ^ 64;
  size_bounds : 0 <= node_size (details_node d) < 2 ^ 64
}.

Record recordable (n : Z) (d : FIRCLSBinaryImageDetails) : Prop := {
  recordable_identity : identified n d;
  path_short p : image_path d = Some p -> short n p;
  bundle_short p i v s : bundle_strings p = Some (i, v, s) -> Forall (from_option (short n) True) [i; v; s]
}.

Lemma uuid_split (d : FIRCLSBinaryImageDetails) :
  0 ∈ uuidString d -> (exists rest, uuidString d = uuid_of d ++ 0 :: rest) /\ 0 ∉ uuid_of d.
Proof.
  intros H. unfold uuid_of. destruct (list_find_elem_of (eq 0) (uuidString d) 0 H eq_refl) as [[i x] E]. rewrite E.
  apply list_find_Some in E as (Hi & <- & Hbefore). split.
  - exists (drop (S i) (uuidString d)). by rewrite <- (take_drop_middle _ _ _ Hi) at 1.
  - intros H0%list_elem_of_lookup. destruct H0 as [j Hj]. apply lookup_take_Some in Hj as [Hj Hlt].
    by apply (Hbefore j 0 Hj Hlt).
Qed.

Lemma uuid_short n (d : FIRCLSBinaryImageDetails) :
  0 ∈ uuidString d -> Z.of_nat (length (uuidString d)) <= n -> short n (uuid_of d).
Proof.
  intros H Hl. destruct (uuid_split d H) as [[rest E] H0]. split; [done|]. rewrite E, length_app in Hl. lia.
Qed.

End LogText.

Section LogEmits.
Context {KN : Kernel} {KS : KernelSpec} {IH : ImageHost}.
Context (chunk n : Z) (Hn : 32 <= n < 2 ^ 62).

(** [m] writes members of the object of a section. *)
Definition emits_members (m : F unit) (l : list (list Z * json)) : Prop := forall c,
  emits chunk n m c 2 (separated c (map member_text l)) (c || negb (bool_decide (l = []))) 2.

Lemma no_members : emits_members (mret tt) [].
Proof. intros c. rewrite bool_decide_true, orb_false_r by done. apply emits_ret. Qed.

Lemma members_bind (m m' : F unit) l l' :
  emits_members m l -> emits_members m' l' -> emits_members (m;; m') (l ++ l').
Proof.
  intros Hm Hm' c. rewrite map_app, separated_app. replace (bool_decide (map member_text l = [])) with (bool_decide (l = [])).
  2: { by destruct l. }
  eapply emits_bind; [apply Hm|]. intros _. specialize (Hm' (c || negb (bool_decide (l = [])))).
  replace (c || negb (bool_decide (l ++ l' = []))) with
    ((c || negb (bool_decide (l = []))) || negb (bool_decide (l' = []))); [exact Hm'|].
  destruct l; [by rewrite (bool_decide_true ([] = [])), orb_false_r|].
  rewrite !(bool_decide_false (_ :: _ = [])), orb_true_r by done. by rewrite (bool_decide_false (_ ++ _ = [])), orb_true_r.
Qed.

Lemma member_emits name v (m : F unit) :
  literal_ok name = true -> emits chunk n m false 2 (written_text v) false 2 ->
  emits_members (FIRCLSFileWriteHashKey (literal name);; m;; FIRCLSFileWriteCollectionEntryEpilog) [(chars name, v)].
Proof.
  intros Hname Hm c. cbn [map separated]. rewrite bool_decide_false, orb_true_r, app_nil_r by done.
  apply (hash_entry_emits chunk n Hn _ (chars name)); [by apply short_literal|done].
Qed.

Lemma bundle_member_emits name s :
  literal_ok name = true -> from_option (short n) True s ->
  emits_members (FIRCLSFileWriteHashEntryNSStringUnlessNilOrEmpty (literal name) s) (bundle_member name s).
Proof.
  intros Hname Hs. destruct s as [[|b s]|]; [apply no_members| |apply no_members].
  apply (member_emits name (JString (b :: s)) (FIRCLSFileWriteString (Some (c_string (b :: s))))); [done|]. by apply string_emits.
Qed.

Lemma framework_info_emits path :
  (forall p i v s, bundle_strings p = Some (i, v, s) -> Forall (from_option (short n) True) [i; v; s]) ->
  emits_members (FIRCLSBinaryImageRecordLibraryFrameworkInfo path) (bundle_members path).
Proof.
  intros Hb. destruct path as [p|]; [|apply no_members]. cbn [FIRCLSBinaryImageRecordLibraryFrameworkInfo bundle_members].
  destruct (bool_decide (take 7 p = chars "/System")); cbn [orb]; [apply no_members|].
  destruct (strstr_found p _); cbn [negb]; [|apply no_members].
  destruct (bundle_strings p) as [[[i v] s]|] eqn:E; [|apply no_members].
  pose proof (Hb _ _ _ _ E) as H. rewrite !Forall_cons in H. destruct H as (Hi & Hv & Hs & _).
  apply members_bind; [by apply bundle_member_emits|]. apply members_bind; by apply bundle_member_emits.
Qed.

Lemma framework_info_if (added : bool) path :
  (forall p i v s, bundle_strings p = Some (i, v, s) -> Forall (from_option (short n) True) [i; v; s]) ->
  emits_members (if added then FIRCLSBinaryImageRecordLibraryFrameworkInfo path else mret tt)
    (if added then bundle_members path else []).
Proof. intros Hb. destruct added; [by apply framework_info_emits|apply no_members]. Qed.

Lemma details_emits d :
  identified n d ->
  emits_members (FIRCLSBinaryImageRecordDetails d)
    [(chars "uuid", JString (uuid_of d)); (chars "base", JUint (startAddress (details_slice d)));
     (chars "size", JUint (node_size (details_node d)))].
Proof.
  intros Hr. destruct (uuid_split d (uuid_terminated _ _ Hr)) as [[rest Eu] _]. unfold FIRCLSBinaryImageRecordDetails. rewrite Eu.
  apply (members_bind _ _ [_] [_; _]).
  { apply (member_emits "uuid" (JString (uuid_of d)) (FIRCLSFileWriteString (Some _))); [done|].
    apply terminated_string_emits; [done|]. apply uuid_short; apply Hr. }
  apply (members_bind _ _ [_] [_]).
  - apply (member_emits "base" (JUint _) (FIRCLSFileWriteUInt64 _ false)); [done|]. apply uint_emits; [done|apply Hr].
  - apply (member_emits "size" (JUint _) (FIRCLSFileWriteUInt64 _ false)); [done|]. apply uint_emits; [done|apply Hr].
Qed.

Lemma path_emits path :
  (forall p, path = Some p -> short n p) ->
  emits_members (FIRCLSFileWriteHashEntryString (literal "path") (c_string <$> path))
    [(chars "path", match path with Some p => JString p | None => JNull end)].
Proof.
  intros Hp. apply (member_emits "path" _ (FIRCLSFileWriteString _)); [done|]. destruct path as [p|].
  - by apply string_emits; [|apply Hp].
  - by apply null_emits.
Qed.

(** A section whose object has the members that [m] writes. *)
Lemma section_of_members name (m : F unit) l :
  literal_ok name = true -> emits_members m l ->
  emits chunk n (FIRCLSFileWriteSectionStart (literal name);; FIRCLSFileWriteHashStart;; m;; FIRCLSFileWriteHashEnd;; FIRCLSFileWriteSectionEnd)
    false 0 (section_text (chars name) (JHash l)) false 0.
Proof.
  intros Hname Hm. unfold section_text. rewrite app_assoc.
  eapply emits_bind; [apply (section_start_emits chunk n Hn (chars name) false); by apply short_literal|].
  intros _. cbn [written_text]. rewrite <- !(app_assoc [123]), <- !(app_assoc (separated _ _)).
  eapply emits_bind; [by apply (start_emits chunk n Hn 123 false 1)|]. intros _.
  eapply emits_bind; [apply Hm|]. intros _.
  eapply emits_bind; [by apply (end_emits chunk n Hn 125 _ 1)|]. intros _. by apply section_end_emits.
Qed.

(** Monad laws. *)
Ltac reassociate :=
  intros ?s; unfold mbind, F_bind;
  repeat match goal with |- context [match ?m ?st with _ => _ end] => destruct (m st); [|done..] end; try done.

(** The line of a change. *)
Lemma slice_section_emits added d :
  recordable n d ->
  emits chunk n (record_slice_section added d) false 0 (change_text added d) false 0.
Proof.
  intros Hr. pose proof (members_bind _ _ _ _ (path_emits (image_path d) (path_short _ _ Hr))
    (members_bind _ _ _ _ (framework_info_if added (image_path d) (bundle_short _ _ Hr))
      (details_emits d (recordable_identity _ _ Hr)))) as Hm.
  unfold record_slice_section, change_text, change_json. cbv zeta. fold (image_path d).
  destruct added.
  - eapply emits_ext; [|exact (section_of_members "load" _ _ eq_refl Hm)]. reassociate.
  - eapply emits_ext; [|exact (section_of_members "unload" _ _ eq_refl Hm)]. reassociate.
Qed.

(** *** The main executable *)

Definition main_members {MO : MachOFormat} (d : FIRCLSBinaryImageDetails) : list (list Z * json) :=
  [(chars "architecture", JString (FIRCLSMachOSliceGetArchitectureName (details_slice d)))] ++
  [(chars "uuid", JString (uuid_of d)); (chars "base", JUint (startAddress (details_slice d)));
   (chars "size", JUint (node_size (details_node d)))] ++
  [(chars "encrypted", JBool (encrypted d)); (chars "minimum_sdk_version", JString (FIRCLSMachOFormatVersion (minSDK d)));
   (chars "built_sdk_version", JString (FIRCLSMachOFormatVersion (builtSDK d)))].

Lemma main_section_emits {MO : MachOFormat} d :
  identified n d -> short n (FIRCLSMachOSliceGetArchitectureName (details_slice d)) ->
  short n (FIRCLSMachOFormatVersion (minSDK d)) -> short n (FIRCLSMachOFormatVersion (builtSDK d)) ->
  emits chunk n (record_main_section d) false 0 (section_text (chars "executable") (JHash (main_members d))) false 0.
Proof.
  intros Hd Ha Hm Hb.
  assert (Hbody : emits_members
    (FIRCLSFileWriteHashEntryString (literal "architecture") (Some (c_string (FIRCLSMachOSliceGetArchitectureName (details_slice d))));;
     FIRCLSBinaryImageRecordDetails d;;
     FIRCLSFileWriteHashEntryBoolean (literal "encrypted") (encrypted d);;
     FIRCLSFileWriteHashEntryString (literal "minimum_sdk_version") (Some (c_string (FIRCLSMachOFormatVersion (minSDK d))));;
     FIRCLSFileWriteHashEntryString (literal "built_sdk_version") (Some (c_string (FIRCLSMachOFormatVersion (builtSDK d)))))
    (main_members d)).
  { apply members_bind; [apply (member_emits "architecture" (JString _) (FIRCLSFileWriteString (Some _))); [done|by apply string_emits]|].
    apply members_bind; [by apply details_emits|].
    apply (members_bind _ _ [_] [_; _]); [apply (member_emits "encrypted" (JBool _) (FIRCLSFileWriteBool _)); [done|by apply bool_emits]|].
    apply (members_bind _ _ [_] [_]); [apply (member_emits "minimum_sdk_version" (JString _) (FIRCLSFileWriteString (Some _)));
      [done|by apply string_emits]|].
    apply (member_emits "built_sdk_version" (JString _) (FIRCLSFileWriteString (Some _))); [done|by apply string_emits]. }
  eapply emits_ext; [|exact (section_of_members "executable" _ _ eq_refl Hbody)].
  unfold record_main_section. reassociate.
Qed.

(** *** The file of the log *)

Context (Hch : 0 < chunk) (Hp : progress chunk) (Hfit : n <= Z.of_nat CLS_FILE_MAX_WRITE_ATTEMPTS * chunk).

(** A section that is written to a file without a buffer. *)
Lemma section_run (m : F unit) text f desc k :
  fresh_file f desc -> emits chunk n m false 0 text false 0 ->
  fwp m (FileState (Some f) k) (fun _ s' => exists f',
    the_file s' = Some f' /\ fresh_file f' desc /\ contents (the_kernel s') desc = contents k desc ++ text).
Proof.
  intros (Hwf & Hc & Hd & Hfd & Hb) Hm. eapply fwp_mono; [by apply Hm|].
  intros _ s' (f' & E & Hwf' & Hc' & Hd' & Hfd' & Hb' & _ & Ho). exists f'. split; [done|].
  split; [split_and!; congruence|]. destruct Ho as [Ho _]; [done|done|unfold fits; by rewrite Hb|].
  unfold output, buffered in Ho. by rewrite Hb', Hb, Hfd', Hfd, !app_nil_r in Ho.
Qed.

Lemma record_section_run added d f desc k :
  fresh_file f desc -> recordable n d ->
  fwp (record_slice_section added d) (FileState (Some f) k) (fun _ s' => exists f',
    the_file s' = Some f' /\ fresh_file f' desc /\
    contents (the_kernel s') desc = contents k desc ++ change_text added d).
Proof. intros Hf Hr. apply section_run; [done|by apply slice_section_emits]. Qed.

Lemma main_section_run {MO : MachOFormat} d f desc k :
  fresh_file f desc -> identified n d -> short n (FIRCLSMachOSliceGetArchitectureName (details_slice d)) ->
  short n (FIRCLSMachOFormatVersion (minSDK d)) -> short n (FIRCLSMachOFormatVersion (builtSDK d)) ->
  fwp (record_main_section d) (FileState (Some f) k) (fun _ s' => exists f',
    the_file s' = Some f' /\ fresh_file f' desc /\
    contents (the_kernel s') desc = contents k desc ++ section_text (chars "executable") (JHash (main_members d))).
Proof. intros Hf Hd Ha Hm Hb. apply section_run; [done|by apply main_section_emits]. Qed.

(** While the file is open. *)
Lemma record_slice_open path added d f desc k :
  fresh_file f desc -> 0 <= desc -> recordable n d ->
  fwp (FIRCLSBinaryImageRecordSlice (Some path) added d) (FileState (Some f) k) (fun _ s' => exists f',
    the_file s' = Some f' /\ fresh_file f' desc /\
    contents (the_kernel s') desc = contents k desc ++ change_text added d).
Proof.
  intros Hf Hdesc Hr. pose proof Hf as (_ & _ & _ & Hfd & _). unfold FIRCLSBinaryImageRecordSlice, FIRCLSBinaryImageOpenIfNeeded.
  apply fwp_bind, fwp_bind. eapply fwp_given; [done|]. cbn [negb]. apply fwp_bind.
  unfold FIRCLSFileIsOpen. apply fwp_bind. eapply fwp_given; [done|]. cbn [negb]. apply fwp_bind. eapply fwp_get; [done|].
  apply fwp_ret. rewrite Hfd, (proj2 (Z.ltb_lt (-1) desc)) by lia. apply fwp_ret. cbn [negb].
  apply fwp_bind. eapply fwp_mono; [by apply record_section_run|]. done.
Qed.

Lemma open_needed_run path f0 k desc k1 :
  fd f0 = -1 -> sys_open path append_mask k = (desc, k1) ->
  fwp (FIRCLSBinaryImageOpenIfNeeded (Some path)) (FileState (Some f0) k) (fun r s' => the_kernel s' = k1 /\
    if 0 <=? desc then r = (true, true) /\ exists f, the_file s' = Some f /\ fresh_file f desc else r = (false, false)).
Proof.
  intros Hfd Eo. unfold FIRCLSBinaryImageOpenIfNeeded. apply fwp_bind. eapply fwp_given; [done|]. cbn [negb]. apply fwp_bind.
  unfold FIRCLSFileIsOpen. apply fwp_bind. eapply fwp_given; [done|]. cbn [negb]. apply fwp_bind. eapply fwp_get; [done|].
  apply fwp_ret. rewrite Hfd. change (-1 <? -1) with false. cbv iota. apply fwp_bind.
  eapply fwp_mono; [apply init_path_run|]. intros ok [tf k1'] (d' & Ho & -> & Hf). cbn [the_kernel the_file] in *.
  destruct Ho as [(? & _)|(p & [= <-] & Eo')]; [done|]. rewrite Eo in Eo'. injection Eo' as <- <-.
  destruct (Z.leb_spec 0 desc) as [Hd|Hd]; cbn [negb]; apply fwp_ret; [|done]. split; [done|]. split; [done|by apply Hf].
Qed.

(** A change that opens the file and closes it. *)
Lemma record_slice_alone path added d f0 k desc k1 :
  fd f0 = -1 -> recordable n d -> sys_open path append_mask k = (desc, k1) ->
  fwp (FIRCLSBinaryImageRecordSlice (Some path) added d) (FileState (Some f0) k) (fun _ s' =>
    if 0 <=? desc then contents (the_kernel s') desc = contents k1 desc ++ change_text added d else the_kernel s' = k1).
Proof.
  intros Hfd Hr Eo. unfold FIRCLSBinaryImageRecordSlice. apply fwp_bind.
  eapply fwp_mono; [by eapply open_needed_run|]. intros r [tf k1'] [Ek H]. cbn [the_kernel the_file] in *. subst k1'.
  destruct (0 <=? desc); [|subst r; by apply fwp_ret]. destruct H as (-> & f & -> & Hfresh). cbn [negb].
  apply fwp_bind. eapply fwp_mono; [by apply record_section_run|].
  intros _ [tf k2] (f2 & E & (_ & _ & _ & Hfd2 & Hb2) & Hc). cbn [the_kernel the_file] in *. subst tf.
  apply fwp_bind. eapply fwp_mono; [by apply close_unbuffered|]. intros _ s' (status & Ec). apply fwp_ret.
  rewrite Hfd2 in Ec. by rewrite (close_keeps _ _ _ _ desc Ec).
Qed.

End LogEmits.

(** *** The queue *)

Section Queue.
Context {KN : Kernel} {KS : KernelSpec} {TS : ThreadState} {MK : Mach} {MS : MachSpec} {SG : Signals} {IH : ImageHost}.
Context (chunk n : Z) (Hn : 32 <= n < 2 ^ 62).
Context (Hch : 0 < chunk) (Hp : progress chunk) (Hfit : n <= Z.of_nat CLS_FILE_MAX_WRITE_ATTEMPTS * chunk).

Definition changes_text (changes : list (bool * FIRCLSBinaryImageDetails)) : list Z := changes ≫= fun c => change_text c.1 c.2.

(** A change as a section. *)
Definition change_section (c : bool * FIRCLSBinaryImageDetails) : list Z * json :=
  (if c.1 then chars "load" else chars "unload", change_json c.1 c.2).

Lemma changes_text_report changes : changes_text changes = report_text (change_section <$> changes).
Proof.
  induction changes as [|c changes IHc]; [done|].
  change (change_text c.1 c.2 ++ changes_text changes = change_text c.1 c.2 ++ report_text (change_section <$> changes)).
  by rewrite IHc.
Qed.

Definition change_block (c : bool * FIRCLSBinaryImageDetails) : queue_block := ImageChange c.1 c.2.

Lemma process_change_run path added d t t1 w wr fs fs' :
  FIRCLSBinaryImageStoreNode added d t = Some t1 ->
  to_file (FIRCLSBinaryImageRecordSlice path added d) (CrashState w wr fs) = Completes tt (CrashState w wr fs') ->
  run_block path (ImageChange added d) (Some t) (CrashState w wr fs) = Completes (Some t1) (CrashState w wr fs').
Proof.
  intros Et E. cbn [run_block]. unfold FIRCLSProcessBinaryImageChange. erewrite P_bind_run.
  - by erewrite P_bind_run by exact E.
  - by rewrite Et.
Qed.

(** The changes that are made while the log is open. *)
Lemma run_changes_open path changes f desc w wr k t t' :
  fresh_file f desc -> 0 <= desc -> Forall (fun c => recordable n c.2) changes -> store_changes changes t = Some t' ->
  exists f' k', run_queue (Some path) (change_block <$> changes) (Some t) (CrashState w wr (FileState (Some f) k)) =
      Completes (Some t') (CrashState w wr (FileState (Some f') k')) /\ fresh_file f' desc /\
    contents k' desc = contents k desc ++ changes_text changes.
Proof.
  intros Hf Hd Hr. revert f k t Hf. induction Hr as [|[added d] changes Hr Hrs IHr]; intros f k t Hf Est.
  { injection Est as <-. exists f, k. cbn. by rewrite app_nil_r. }
  rewrite store_changes_step in Est. apply bind_Some in Est as (t1 & E1 & Est).
  destruct (to_file_run _ w wr _ _ (record_slice_open chunk n Hn Hch Hp Hfit path added d f desc k Hf Hd Hr))
    as ([] & [tf k1] & E & f1 & Ef1 & Hf1 & Hc1). cbn [the_file the_kernel] in *. subst tf.
  destruct (IHr f1 k1 t1 Hf1 Est) as (f' & k' & E' & Hf' & Hc'). exists f', k'. split; [|split; [done|]].
  - rewrite fmap_cons. cbn [run_queue]. erewrite P_bind_run; [exact E'|]. by apply (process_change_run _ _ _ _ _ _ _ _ _ E1 E).
  - rewrite Hc', Hc1. unfold changes_text. cbn [mbind list_bind fst snd]. by rewrite app_assoc.
Qed.

Lemma run_queue_app path q q' t s t' s' :
  run_queue path q t s = Completes t' s' -> run_queue path (q ++ q') t s = run_queue path q' t' s'.
Proof.
  revert t s. induction q as [|b q IHq]; intros t s; cbn [app run_queue]; [by intros [= <- <-]|].
  unfold mbind, P_bind. destruct (run_block path b t s); [|done..]. apply IHq.
Qed.

Lemma unlink_only path s status k0 :
  sys_unlink (Some path) (the_kernel (the_files s)) = (status, k0) ->
  exists ok, FIRCLSUnlinkIfExists (Some path) s =
    Completes ok (CrashState (the_world s) (the_writable s) (FileState (the_file (the_files s)) k0)).
Proof.
  intros E. unfold FIRCLSUnlinkIfExists, call, ask, to_file, sys, mbind, P_bind. rewrite E.
  destruct (negb (status =? 0)); by eexists.
Qed.

(** The first block: the log is deleted and opened. *)
Lemma open_log_run path t w wr f0 k status k0 desc k1 :
  fd f0 = -1 -> sys_unlink (Some path) k = (status, k0) -> sys_open path append_mask k0 = (desc, k1) -> 0 <= desc ->
  exists f, run_queue (Some path) [OpenLog] t (CrashState w wr (FileState (Some f0) k)) =
      Completes t (CrashState w wr (FileState (Some f) k1)) /\ fresh_file f desc.
Proof.
  intros Hfd Eu Eo Hd. destruct (to_file_run _ w wr _ _ (open_needed_run path f0 k0 desc k1 Hfd Eo)) as (r & [tf k1'] & E & Ek & H).
  cbn [the_kernel the_file] in *. subst k1'. rewrite (proj2 (Z.leb_le 0 desc)) in H by done. destruct H as (-> & f & -> & Hf).
  exists f. split; [|done]. cbn [run_queue]. erewrite P_bind_run; [done|]. cbn [run_block].
  destruct (unlink_only path (CrashState w wr (FileState (Some f0) k)) status k0 Eu) as [ok Ed].
  erewrite P_bind_run by exact Ed. by erewrite P_bind_run by exact E.
Qed.

Lemma close_log_run path t w wr f k :
  bufferWrites f = false ->
  exists tf k', run_queue path [CloseLog] t (CrashState w wr (FileState (Some f) k)) =
    Completes t (CrashState w wr (FileState tf k')) /\ forall desc, contents k' desc = contents k desc.
Proof.
  intros Hb. destruct (to_file_run _ w wr _ _ (close_unbuffered f k Hb)) as (ok & [tf k'] & E & status & Ec).
  exists tf, k'. split.
  - cbn [run_queue run_block]. unfold mbind, P_bind. by rewrite E.
  - intros desc. by eapply close_keeps.
Qed.

End Queue.
