(* ===== verification/MachOSpec.v ===== *)
(** What is read from an image (the parts of FIRCLSMachO.m and FIRCLSBinaryImage.m
    that look at a Mach-O header): the load commands as a list, and the details as
    a function of the list. *)
From S2P Require Import Prelude Memory DwarfData DwarfDataSpec ThreadState CompactUnwind Unwind Allocate File FileFormat.
From S2P Require Import FileSpec FileFormatSpec Crash Handler Signal BinaryImage ImageSpec.

(** ** The UUID as text *)

Lemma hex_to_string_run todo pre p size :
  Forall is_byte todo -> length p = (2 * length pre)%nat -> (length p + 2 * length todo <= size)%nat ->
  hex_to_string_loop (length todo) (pre ++ todo) (length pre) (padded p size) = Some (padded (p ++ hex_text todo) size).
Proof.
  revert pre p. induction todo as [|b todo IH]; intros pre p Hb Hp Hl; cbn [length hex_to_string_loop].
  { by rewrite app_nil_r. }
  apply Forall_cons in Hb as [Hb Hbs]. cbn [length] in *. rewrite list_lookup_middle by done. cbn [mbind option_bind].
  replace (Z.of_nat (length pre) * 2) with (Z.of_nat (length p)) by lia.
  rewrite hex_from_byte, store_padded by (done || cbn; lia). cbn [mbind option_bind].
  rewrite (cons_middle b pre), (app_assoc pre [b]). set (h := [_; _]).
  replace (S (length pre)) with (length (pre ++ [b])) by (rewrite length_app; cbn; lia).
  rewrite IH by (done || rewrite !length_app; cbn; lia). by rewrite <- app_assoc.
Qed.

(** An array that has room is filled with the text, its terminator and what was
    behind them. *)
Lemma safe_hex_run value buffer :
  Forall is_byte value -> length buffer = (2 * length value + 1)%nat ->
  FIRCLSSafeHexToString value (length value) buffer = Some (c_string (hex_text value)).
Proof.
  intros Hb Hl. unfold FIRCLSSafeHexToString. rewrite store_at_some by (rewrite ?length_replicate; lia).
  cbn [mbind option_bind Z.to_nat take app Nat.add]. rewrite drop_ge by (rewrite length_replicate; lia). rewrite app_nil_r.
  pose proof (hex_to_string_run value [] [] (length value * 2 + 1) Hb eq_refl ltac:(cbn; lia)) as E.
  unfold padded in E. cbn [app length] in E. rewrite Nat.sub_0_r in E. change (take (Z.to_nat 0) buffer) with (@nil Z).
  cbn [app]. rewrite E, length_hex.
  unfold c_string. do 2 f_equal. by replace (_ - _)%nat with 1%nat by lia.
Qed.

(** ** Load commands *)

Inductive command :=
  | Uuid (bytes : list Z)
  | Encryption (cryptid : Z)
  | Segment (name : list Z) (vmaddr vmsize : Z)
  | Versions (minimum linked : Z)
  | OtherCommand.

(** The types of commands that are looked at are different. *)
Class MachOLaws {MO : MachOFormat} : Prop := {
  command_types_differ : NoDup [LC_UUID; LC_ENCRYPTION_INFO; LC_SEGMENT; LC_SEGMENT_64; LC_VERSION_MIN_MACOSX;
    LC_VERSION_MIN_IPHONEOS; LC_VERSION_MIN_TVOS; LC_VERSION_MIN_WATCHOS]
}.

Section Image.
Context {MO : MachOFormat} {ML : MachOLaws}.

Definition version_types : list Z :=
  [LC_VERSION_MIN_MACOSX; LC_VERSION_MIN_IPHONEOS; LC_VERSION_MIN_TVOS; LC_VERSION_MIN_WATCHOS].

Definition segment_at (m : gmap Z Z) (a : Z) (name : list Z) (vmaddr vmsize : Z) (width : nat) (addr_off size_off : Z) : Prop :=
  read_bytes m (u64 (a + segname_off)) 16 = Some name /\ read_le m width (u64 (a + addr_off)) = Some vmaddr /\
  read_le m width (u64 (a + size_off)) = Some vmsize.

(** The command of a type at an address. *)
Definition command_at (m : gmap Z Z) (a type : Z) (c : command) : Prop :=
  match c with
  | Uuid bytes => type = LC_UUID /\ Forall is_byte bytes /\ read_bytes m (u64 (a + uuid_off)) 16 = Some bytes
  | Encryption cryptid => type = LC_ENCRYPTION_INFO /\ read_le m 4 (u64 (a + cryptid_off)) = Some cryptid
  | Segment name vmaddr vmsize =>
      (type = LC_SEGMENT /\ segment_at m a name vmaddr vmsize 4 segment_vmaddr_off segment_vmsize_off) \/
      (type = LC_SEGMENT_64 /\ segment_at m a name vmaddr vmsize 8 segment_64_vmaddr_off segment_64_vmsize_off)
  | Versions minimum linked =>
      type ∈ version_types /\ read_le m 4 (u64 (a + version_min_off)) = Some minimum /\
      read_le m 4 (u64 (a + sdk_off)) = Some linked /\ 0 <= minimum < 2 ^ 32 /\ 0 <= linked < 2 ^ 32
  | OtherCommand => type ∉ [LC_UUID; LC_ENCRYPTION_INFO; LC_SEGMENT; LC_SEGMENT_64] ++ version_types
  end.

(** Each command is behind the one before it, by the size that it says. *)
Fixpoint commands_at (m : gmap Z Z) (a : Z) (commands : list command) : Prop :=
  match commands with
  | [] => True
  | c :: commands =>
      exists type size, a <> 0 /\ read_le m 4 (u64 (a + cmd_off)) = Some type /\
        read_le m 4 (u64 (a + cmdsize_off)) = Some size /\ command_at m a type c /\ commands_at m (u64 (a + size)) commands
  end.

(** A header and the commands behind it; the values of its magic number. *)
Record image_at (m : gmap Z Z) (header : Z) (cpu subtype : Z) (commands : list command) : Prop := {
  header_count : read_le m 4 (u64 (header + header_ncmds_off)) = Some (Z.of_nat (length commands));
  header_cpu : read_le m 4 (u64 (header + header_cputype_off)) = Some cpu;
  header_subtype : read_le m 4 (u64 (header + header_cpusubtype_off)) = Some subtype;
  header_magic : exists magic, read_le m 4 header = Some magic /\
    ((magic = MH_MAGIC \/ magic = MH_CIGAM) /\ commands_at m (u64 (header + mach_header_size)) commands \/
     (magic <> MH_MAGIC /\ magic <> MH_CIGAM /\ (magic = MH_MAGIC_64 \/ magic = MH_CIGAM_64)) /\
       commands_at m (u64 (header + mach_header_64_size)) commands)
}.

(** ** The details *)

Definition version_of (encoded : Z) : FIRCLSMachOVersion :=
  MachOVersion (encoded / 2 ^ 16) (encoded / 2 ^ 8 mod 2 ^ 8) (encoded mod 2 ^ 8).

(** The name of a segment is "__TEXT", in an array of 16 bytes. *)
Definition is_text (name : list Z) : bool := bool_decide (take 7 name = chars "__TEXT" ++ [0]).

Definition command_details (c : command) (d : FIRCLSBinaryImageDetails) : FIRCLSBinaryImageDetails :=
  match c with
  | Uuid bytes => with_uuid d (c_string (hex_text bytes))
  | Encryption cryptid => with_encrypted d (0 <? cryptid)
  | Segment name _ vmsize => if is_text name then with_node d (with_size (details_node d) vmsize) else d
  | Versions minimum linked => with_versions d (version_of linked) (version_of minimum)
  | OtherCommand => d
  end.

Lemma version_from_encoded v : 0 <= v < 2 ^ 32 -> FIRCLSMachOVersionFromEncoded v = version_of v.
Proof.
  intros Hv. unfold FIRCLSMachOVersionFromEncoded, version_of. rewrite !Z.shiftr_land.
  change (Z.shiftr 0xffff0000 16) with (Z.ones 16). change (Z.shiftr 0xff00 8) with (Z.ones 8). change 0xff with (Z.ones 8).
  rewrite !Z.land_ones, !Z.shiftr_div_pow2 by lia. f_equal. apply Z.mod_small.
  split; [apply Z.div_pos; lia|apply Z.div_lt_upper_bound; lia].
Qed.

(** [strncmp] with an array of 16 bytes. *)
Lemma strncmp_text name : length name = 16%nat -> strncmp_equal 7 name (c_string SEG_TEXT) = Some (is_text name).
Proof.
  intros Hl. unfold is_text, c_string, SEG_TEXT.
  assert (H : forall n a b, (n <= length a)%nat -> length b = n -> (forall i, (S i < n)%nat -> b !! i <> Some 0) ->
    strncmp_equal n a b = Some (bool_decide (take n a = b))).
  { induction n as [|n IH]; intros [|x a] [|y b] Ha Hb H0; cbn in *; try lia; [by rewrite bool_decide_true..|].
    destruct (Z.eqb_spec x y) as [<-|Hne]; cbn [negb].
    2: { rewrite bool_decide_false; [done|congruence]. }
    destruct (Z.eqb_spec x 0) as [->|Hx].
    - destruct n as [|n]; [|by destruct (H0 0%nat ltac:(lia))]. destruct b; [|done]. cbn. by rewrite bool_decide_true.
    - rewrite IH; [|lia|lia|intros i Hi; by apply (H0 (S i)); lia]. f_equal. apply bool_decide_ext. split; congruence. }
  apply H; [lia|done|]. intros i Hi. do 6 (destruct i as [|i]; [done|]). lia.
Qed.

(** Comparing types is comparing their places. *)
Definition command_types : list Z := [LC_UUID; LC_ENCRYPTION_INFO; LC_SEGMENT; LC_SEGMENT_64] ++ version_types.

Lemma types_eqb i j x y : command_types !! i = Some x -> command_types !! j = Some y -> (x =? y) = (i =? j)%nat.
Proof.
  intros Hi Hj. destruct (Nat.eqb_spec i j) as [->|Hne]; [apply Z.eqb_eq; congruence|].
  apply Z.eqb_neq. intros ->. apply Hne. eapply NoDup_lookup; [exact command_types_differ|exact Hi|exact Hj].
Qed.

Lemma unknown_eqb i x type : type ∉ command_types -> command_types !! i = Some x -> (type =? x) = false.
Proof. intros Hn Hi. apply Z.eqb_neq. intros ->. apply Hn. by eapply list_elem_of_lookup_2. Qed.

Lemma load_bytes_read w a n bs : read_bytes (mem w) a n = Some bs -> load_bytes a n w = Done bs w.
Proof. intros H. unfold load_bytes. by rewrite H. Qed.

Lemma load_segment w a type name vmaddr vmsize :
  a <> 0 -> read_le (mem w) 4 (u64 (a + cmd_off)) = Some type -> command_at (mem w) a type (Segment name vmaddr vmsize) ->
  FIRCLSBinaryImageMachOGetSegmentCommand a w = Done (MachOSegment name vmaddr vmsize) w.
Proof.
  intros Ha Ht Hc. unfold FIRCLSBinaryImageMachOGetSegmentCommand. rewrite (proj2 (Z.eqb_neq _ _)) by done.
  rewrite (bind_done _ _ _ _ _ (load_read _ _ _ _ Ht)).
  destruct Hc as [[-> (Hn & Hv & Hs)]|[-> (Hn & Hv & Hs)]].
  - rewrite Z.eqb_refl, (bind_done _ _ _ _ _ (load_bytes_read _ _ _ _ Hn)), (bind_done _ _ _ _ _ (load_read _ _ _ _ Hv)).
    by rewrite (bind_done _ _ _ _ _ (load_read _ _ _ _ Hs)).
  - rewrite (types_eqb 3 2) by done. cbn [Nat.eqb]. rewrite Z.eqb_refl.
    rewrite (bind_done _ _ _ _ _ (load_bytes_read _ _ _ _ Hn)), (bind_done _ _ _ _ _ (load_read _ _ _ _ Hv)).
    by rewrite (bind_done _ _ _ _ _ (load_read _ _ _ _ Hs)).
Qed.

(** A command changes the details as it should. *)
Lemma populate_run w a type size c d :
  a <> 0 -> read_le (mem w) 4 (u64 (a + cmd_off)) = Some type -> command_at (mem w) a type c ->
  length (uuidString d) = FIRCLSUUIDStringLength ->
  FIRCLSPopulateImageDetailWithLoadCommand type size a d w = Done (command_details c d) w.
Proof.
  intros Ha Ht Hc Hl. unfold FIRCLSPopulateImageDetailWithLoadCommand. destruct c as [bytes|cryptid|name vmaddr vmsize|minimum linked|].
  - destruct Hc as (-> & Hb & Hr). rewrite Z.eqb_refl. unfold FIRCLSMachOGetUUID.
    rewrite (bind_done _ _ _ _ _ (load_bytes_read _ _ _ _ Hr)). pose proof (read_bytes_length _ _ _ _ Hr) as H16.
    rewrite <- H16, safe_hex_run by (done || rewrite H16, Hl; done). done.
  - destruct Hc as (-> & Hr). rewrite (types_eqb 1 0), Z.eqb_refl by done. cbn [Nat.eqb].
    unfold FIRCLSMachOGetEncrypted. by rewrite (bind_done _ _ _ (0 <? cryptid) w) by by rewrite (bind_done _ _ _ _ _ (load_read _ _ _ _ Hr)).
  - assert (E : (type =? LC_UUID) = false /\ (type =? LC_ENCRYPTION_INFO) = false /\ (type =? LC_SEGMENT) || (type =? LC_SEGMENT_64) = true).
    { destruct Hc as [[-> _]|[-> _]]; [rewrite (types_eqb 2 0), (types_eqb 2 1), (types_eqb 2 2) by done|
        rewrite (types_eqb 3 0), (types_eqb 3 1), (types_eqb 3 2), (types_eqb 3 3) by done]; done. }
    destruct E as (-> & -> & ->). rewrite (bind_done _ _ _ _ _ (load_segment _ _ _ _ _ _ Ha Ht Hc)). cbn [segname segment_vmsize].
    assert (H16 : length name = 16%nat) by (destruct Hc as [[_ (H & _)]|[_ (H & _)]]; by apply read_bytes_length in H).
    rewrite strncmp_text by done. cbn [of_option]. unfold mbind, M_bind, mret, M_ret. cbn [command_details]. by destruct (is_text name).
  - destruct Hc as (Hin & Hm & Hk & Hbm & Hbl). apply list_elem_of_lookup in Hin as [i Hi].
    assert (Hi' : command_types !! (4 + i)%nat = Some type) by done.
    rewrite (types_eqb (4 + i) 0), (types_eqb (4 + i) 1), (types_eqb (4 + i) 2), (types_eqb (4 + i) 3) by done. cbn [Nat.add Nat.eqb orb].
    replace ((type =? LC_VERSION_MIN_MACOSX) || _ || _ || _) with true.
    2: { do 4 (destruct i as [|i]; [injection Hi as <-; by rewrite Z.eqb_refl, ?orb_true_r|]). done. }
    rewrite (bind_done _ _ _ (version_of minimum) w), (bind_done _ _ _ (version_of linked) w); [done|..];
      [unfold FIRCLSMachOGetLinkedSDKVersion|unfold FIRCLSMachOGetMinimumOSVersion].
    + by rewrite (bind_done _ _ _ _ _ (load_read _ _ _ _ Hk)), version_from_encoded.
    + by rewrite (bind_done _ _ _ _ _ (load_read _ _ _ _ Hm)), version_from_encoded.
  - rewrite !(unknown_eqb 0 LC_UUID), (unknown_eqb 1 LC_ENCRYPTION_INFO), (unknown_eqb 2 LC_SEGMENT), (unknown_eqb 3 LC_SEGMENT_64),
      (unknown_eqb 4 LC_VERSION_MIN_MACOSX), (unknown_eqb 5 LC_VERSION_MIN_IPHONEOS), (unknown_eqb 6 LC_VERSION_MIN_TVOS),
      (unknown_eqb 7 LC_VERSION_MIN_WATCHOS) by done. done.
Qed.

(** *** All commands *)

Definition commands_details (commands : list command) (d : FIRCLSBinaryImageDetails) : FIRCLSBinaryImageDetails :=
  foldl (fun d c => command_details c d) d commands.

Lemma command_uuid_length m a type c d :
  command_at m a type c -> length (uuidString d) = FIRCLSUUIDStringLength ->
  length (uuidString (command_details c d)) = FIRCLSUUIDStringLength.
Proof.
  intros Hc Hl. destruct c as [bytes| | | |]; cbn [command_details]; try done; [|by destruct (is_text name)].
  destruct Hc as (_ & _ & Hr%read_bytes_length). cbn [uuidString with_uuid]. unfold c_string.
  by rewrite length_app, length_hex, Hr.
Qed.

Lemma commands_loop_run w a commands d :
  commands_at (mem w) a commands -> length (uuidString d) = FIRCLSUUIDStringLength ->
  load_commands_loop (length commands) a FIRCLSPopulateImageDetailWithLoadCommand d w = Done (commands_details commands d) w.
Proof.
  revert a d. induction commands as [|c commands IH]; intros a d Hcs Hl; [done|].
  destruct Hcs as (type & size & Ha & Ht & Hs & Hc & Hcs). cbn [length load_commands_loop].
  rewrite (proj2 (Z.eqb_neq _ _)), (bind_done _ _ _ _ _ (load_read _ _ _ _ Ht)), (bind_done _ _ _ _ _ (load_read _ _ _ _ Hs)) by done.
  rewrite (bind_done _ _ _ _ _ (populate_run w a type size c d Ha Ht Hc Hl)), (bind_done _ _ _ _ _ (load_read _ _ _ _ Hs)).
  apply IH; [done|]. by eapply command_uuid_length.
Qed.

Lemma header_values_run w header garbage cpu subtype commands :
  header <> 0 -> image_at (mem w) header cpu subtype commands ->
  exists cmds, FIRCLSMachOHeaderValues (FIRCLSMachOSliceWithHeader garbage header) w =
      Done (MachOSlice header cpu subtype, cmds, Z.of_nat (length commands)) w /\ commands_at (mem w) cmds commands.
Proof.
  intros H0 [Hn Hcpu Hsub (magic & Hmagic & Hkind)]. unfold FIRCLSMachOHeaderValues, FIRCLSMachOSliceWithHeader. cbn [startAddress].
  rewrite (proj2 (Z.eqb_neq header 0)), (bind_done _ _ _ _ _ (load_read _ _ _ _ Hmagic)) by done. cbv zeta.
  destruct Hkind as [[Hm Hc]|[(H1 & H2 & Hm) Hc]].
  - eexists. split; [|exact Hc]. replace ((magic =? MH_MAGIC) || (magic =? MH_CIGAM)) with true.
    2: { destruct Hm as [->| ->]; rewrite Z.eqb_refl, ?orb_true_r; done. }
    rewrite (bind_done _ _ _ _ _ (load_read _ _ _ _ Hcpu)), (bind_done _ _ _ _ _ (load_read _ _ _ _ Hsub)).
    by rewrite (bind_done _ _ _ _ _ (load_read _ _ _ _ Hn)).
  - eexists. split; [|exact Hc]. rewrite (proj2 (Z.eqb_neq _ _) H1), (proj2 (Z.eqb_neq _ _) H2). cbn [orb].
    replace ((magic =? MH_MAGIC_64) || (magic =? MH_CIGAM_64)) with true.
    2: { destruct Hm as [->| ->]; rewrite Z.eqb_refl, ?orb_true_r; done. }
    rewrite (bind_done _ _ _ _ _ (load_read _ _ _ _ Hcpu)), (bind_done _ _ _ _ _ (load_read _ _ _ _ Hsub)).
    by rewrite (bind_done _ _ _ _ _ (load_read _ _ _ _ Hn)).
Qed.

(** What the last command of a kind says. *)
Definition last_of {B} (f : command -> option B) (commands : list command) (default : B) : B :=
  from_option id default (last (omap f commands)).

Definition uuid_command (c : command) : option (list Z) := match c with Uuid b => Some (c_string (hex_text b)) | _ => None end.
Definition encryption_command (c : command) : option bool := match c with Encryption e => Some (0 <? e) | _ => None end.
Definition text_command (c : command) : option Z :=
  match c with Segment name _ vmsize => if is_text name then Some vmsize else None | _ => None end.
Definition linked_command (c : command) : option FIRCLSMachOVersion :=
  match c with Versions _ linked => Some (version_of linked) | _ => None end.
Definition minimum_command (c : command) : option FIRCLSMachOVersion :=
  match c with Versions minimum _ => Some (version_of minimum) | _ => None end.

(** The details of an image that is at [header] and was moved by [slide]; the
    sections are found at the addresses that the image says, moved as well. *)
Definition image_details (header cpu subtype slide : Z) (commands : list command) (eh unwind crash : option (Z * Z * Z)) :
    FIRCLSBinaryImageDetails :=
  let moved (s : option (Z * Z * Z)) := from_option (fun s => u64 (s.1.1 + slide)) 0 s in
  ImageDetails (last_of uuid_command commands (replicate FIRCLSUUIDStringLength 0))
    (last_of encryption_command commands false) (last_of linked_command commands zero_version)
    (last_of minimum_command commands zero_version)
    (ImageNode header (last_of text_command commands 0) (moved eh) (moved unwind) (moved crash))
    (MachOSlice header cpu subtype) slide.

Lemma last_of_snoc {B} (f : command -> option B) commands c default :
  last_of f (commands ++ [c]) default = from_option id (last_of f commands default) (f c).
Proof.
  unfold last_of. rewrite omap_app. cbn. destruct (f c) as [b|]; cbn; [by rewrite last_snoc|by rewrite app_nil_r].
Qed.

Lemma commands_details_last header cpu subtype slide commands :
  let d := with_node (with_slide (with_slice zero_details (MachOSlice header cpu subtype)) slide) (with_base zero_node header) in
  commands_details commands d = image_details header cpu subtype slide commands None None None.
Proof.
  intros d. induction commands as [|c commands IH] using rev_ind; [done|].
  unfold commands_details in *. rewrite foldl_snoc, IH. unfold image_details. rewrite !last_of_snoc.
  by destruct c as [|?|name ? ?| |]; cbn; try destruct (is_text name).
Qed.

(** A section is found, or is not there. *)
Definition finds_section (w : world) (header cpu : Z) (segment section : list Z) (s : option (Z * Z * Z)) : Prop :=
  (if Z.land cpu CPU_ARCH_ABI64 =? CPU_ARCH_ABI64 then getsectbynamefromheader_64 header segment section
   else getsectbynamefromheader header segment section) w = Done s w.

Lemma section_address_run w d segment section s :
  finds_section w (startAddress (details_slice d)) (cputype (details_slice d)) segment section s ->
  section_address d segment section w = Done ((fun s => u64 (s.1.1 + vmaddr_slide d)) <$> s) w.
Proof.
  intros Hs. unfold section_address, FIRCLSBinaryImageMachOSliceInitSectionByName, FIRCLSMachOSliceIs64Bit.
  unfold mbind at 1, M_bind. rewrite (bind_done _ _ _ _ _ Hs). by destruct s as [[[a size] offset]|].
Qed.

Lemma fill_in_run w garbage header cpu subtype slide commands eh unwind crash :
  4096 <= header -> image_at (mem w) header cpu subtype commands ->
  finds_section w header cpu SEG_TEXT (chars "__eh_frame") eh ->
  finds_section w header cpu SEG_TEXT (chars "__unwind_info") unwind ->
  finds_section w header cpu SEG_DATA (chars "__crash_info") crash ->
  FIRCLSBinaryImageFillInImageDetails (with_slide (with_slice zero_details (FIRCLSMachOSliceWithHeader garbage header)) slide) w =
    Done (true, image_details header cpu subtype slide commands eh unwind crash) w.
Proof.
  intros Hh Him Heh Hun Hcr. unfold FIRCLSBinaryImageFillInImageDetails. cbn [details_slice with_slide with_slice startAddress FIRCLSMachOSliceWithHeader].
  unfold FIRCLSIsValidPointer. rewrite (proj2 (Z.leb_le _ _)) by done. cbn [negb]. cbv zeta.
  destruct (header_values_run w header garbage cpu subtype commands) as (cmds & Eh & Hcs); [lia|done|].
  erewrite bind_done.
  2: { unfold FIRCLSMachOSliceEnumerateLoadCommands_f, FIRCLSMachOSliceIsValid. cbn [details_slice with_node with_slide with_slice].
       change (startAddress (FIRCLSMachOSliceWithHeader garbage header)) with header. rewrite (proj2 (Z.eqb_neq header 0)) by lia. cbn [negb]. rewrite (bind_done _ _ _ _ _ Eh). rewrite Nat2Z.id.
       by apply commands_loop_run. }
  change (with_slice _ _) with (with_node (with_slide (with_slice zero_details (MachOSlice header cpu subtype)) slide) (with_base zero_node header)).
  rewrite commands_details_last.
  rewrite (bind_done _ _ _ _ _ (section_address_run _ (image_details _ _ _ _ _ _ _ _) _ _ unwind Hun)).
  erewrite bind_done; [|apply (section_address_run _ _ _ _ eh); by destruct unwind].
  erewrite bind_done; [|apply (section_address_run _ _ _ _ crash); by destruct unwind, eh].
  unfold image_details, mret, M_ret. by destruct unwind, eh, crash.
Qed.

(** The UUID is a terminated string of 32 digits or none; a version fits a short
    text. *)
Lemma image_details_uuid header cpu subtype slide commands eh unwind crash :
  Forall (fun c => match c with Uuid b => Forall is_byte b /\ length b = 16%nat | _ => True end) commands ->
  0 ∈ uuidString (image_details header cpu subtype slide commands eh unwind crash) /\
  length (uuidString (image_details header cpu subtype slide commands eh unwind crash)) = FIRCLSUUIDStringLength.
Proof.
  intros Hb. cbn [image_details uuidString]. unfold last_of.
  destruct (last (omap uuid_command commands)) as [text|] eqn:E; [|split; [by left|done]].
  apply last_Some_elem_of, list_elem_of_omap in E as (c & Hin & Hc). rewrite Forall_forall in Hb. specialize (Hb c Hin).
  destruct c; try done. injection Hc as <-. destruct Hb as [_ Hl]. cbn [from_option id]. unfold c_string. split.
  - apply elem_of_app. right. by left.
  - by rewrite length_app, length_hex, Hl.
Qed.

End Image.
