(* ===== verification/MachException.v ===== *)
(** Crashlytics' handling of Mach exceptions (Handlers/FIRCLSMachException.c): the
    ports of the task for five kinds of exceptions are replaced by one of its own,
    a thread receives the messages that arrive there, and the ports that were
    there are put back when an exception has been received.

    CheckHandlers, which does nothing, is not modelled. *)
From S2P Require Import Prelude Memory DwarfData ThreadState CompactUnwind Unwind File FileFormat.
From S2P Require Import Crash Process Redact ProcessInfo Handler Signal.

(** ** The system *)

(** The members of [MachExceptionMessage] that are read. *)
Record MachExceptionMessage := MachMessage {
  msgh_bits : Z;
  msgh_remote_port : Z;
  msgh_id : Z;
  message_thread : Z;
  message_task : Z;
  message_exception : Z;
  codeCnt : Z;
  message_code : list Z
}.

(** The members of [MachExceptionReply] that depend on the message. *)
Record MachExceptionReply := MachReply {
  reply_bits : Z;
  reply_remote_port : Z;
  reply_id : Z;
  retCode : Z
}.

(** The constants of the headers ([i386_code name] is the constant of that name);
    calls return their status, [task_swap_exception_ports] with the ports that
    were there, [receive_message] [None] when it fails, and [pthread_create] with
    the thread. *)
Class MachPorts {KN : Kernel} := {
  CLS_CPU_X86 : bool;
  EXC_BAD_ACCESS : Z;
  EXC_BAD_INSTRUCTION : Z;
  EXC_ARITHMETIC : Z;
  EXC_BREAKPOINT : Z;
  EXC_GUARD : Z;
  EXC_MASK_BAD_ACCESS : Z;
  EXC_MASK_BAD_INSTRUCTION : Z;
  EXC_MASK_ARITHMETIC : Z;
  EXC_MASK_BREAKPOINT : Z;
  EXC_MASK_GUARD : Z;
  EXC_MASK_CRASH : Z;
  KERN_FAILURE : Z;
  KERN_INVALID_ADDRESS : Z;
  KERN_PROTECTION_FAILURE : Z;
  i386_code : string -> Z;
  EXCEPTION_DEFAULT : Z;
  MACH_EXCEPTION_CODES : Z;
  THREAD_STATE_NONE : Z;
  MACH_MSGH_BITS_REMOTE : Z -> Z;
  MACH_MSGH_BITS : Z -> Z -> Z;
  mach_port_allocate : kernel -> (Z * Z) * kernel;
  mach_port_insert_right : Z -> kernel -> Z * kernel;
  mach_port_deallocate : Z -> kernel -> Z * kernel;
  task_swap_exception_ports : Z -> Z -> Z -> Z -> kernel -> (Z * list original_port) * kernel;
  task_set_exception_ports : Z -> Z -> Z -> Z -> kernel -> Z * kernel;
  pthread_attr_init : kernel -> Z * kernel;
  pthread_attr_setdetached : kernel -> Z * kernel;
  pthread_attr_setstack : Z -> Z -> kernel -> Z * kernel;
  pthread_create : kernel -> (Z * Z) * kernel;
  receive_message : Z -> kernel -> option MachExceptionMessage * kernel;
  send_reply : MachExceptionReply -> kernel -> Z * kernel
}.

Definition CLS_MACH_EXCEPTION_HANDLER_STACK_SIZE : Z := 256 * 1024.

Section MachException.
Context {KN : Kernel} {TS : ThreadState} {MK : Mach} {RA : RecordArch} {SI : SystemInfo} {SA : SelectorArch}.
Context {CE : CompactEncoding} {VM : VmRead} {UA : UnwindArch} {SG : Signals} {MP : MachPorts}.

(** ** Registration *)

Definition FIRCLSMachExceptionMask : Z :=
  Z.lor (Z.lor (Z.lor (Z.lor EXC_MASK_BAD_ACCESS EXC_MASK_BAD_INSTRUCTION) EXC_MASK_ARITHMETIC) EXC_MASK_BREAKPOINT)
    EXC_MASK_GUARD.

Definition with_port (c : FIRCLSMachExceptionReadContext) (port : Z) : FIRCLSMachExceptionReadContext :=
  MachReadContext port (mach_thread c) (mach_path c) (mach_mask c) (originalPorts c).
Definition with_mask (c : FIRCLSMachExceptionReadContext) (mask : Z) : FIRCLSMachExceptionReadContext :=
  MachReadContext (mach_port c) (mach_thread c) (mach_path c) mask (originalPorts c).
Definition with_ports (c : FIRCLSMachExceptionReadContext) (ports : list original_port) :
    FIRCLSMachExceptionReadContext :=
  MachReadContext (mach_port c) (mach_thread c) (mach_path c) (mach_mask c) ports.
Definition with_thread (c : FIRCLSMachExceptionReadContext) (thread : Z) : FIRCLSMachExceptionReadContext :=
  MachReadContext (mach_port c) thread (mach_path c) (mach_mask c) (originalPorts c).

(** Returns [*context]. *)
Definition FIRCLSMachExceptionRegister (context : FIRCLSMachExceptionReadContext) :
    P (bool * FIRCLSMachExceptionReadContext) :=
  '(kr, port) ← call mach_port_allocate;
  let context := with_port context port in
  if negb (kr =? KERN_SUCCESS) then mret (false, context)
  else
    kr ← call (mach_port_insert_right port);
    if negb (kr =? KERN_SUCCESS) then
      call (mach_port_deallocate port);;
      mret (false, context)
    else
      let context := with_mask context FIRCLSMachExceptionMask in
      '(kr, ports) ←
        call (task_swap_exception_ports (mach_mask context) port (Z.lor EXCEPTION_DEFAULT MACH_EXCEPTION_CODES)
                THREAD_STATE_NONE);
      let context := with_ports context ports in
      mret (kr =? KERN_SUCCESS, context).

(** [for (i = 0; i < originalPorts->count; ++i)]; returns [mask]. *)
Fixpoint restore_ports_loop (ports : list original_port) (mask : Z) : P Z :=
  match ports with
  | [] => mret mask
  | p :: ports =>
      let mask := Z.ldiff mask (port_mask p) in
      call (task_set_exception_ports (port_mask p) (port_name p) (port_behavior p) (port_flavor p));;
      restore_ports_loop ports mask
  end.

Definition FIRCLSMachExceptionUnregister (originalPorts : list original_port) (mask : Z) : P bool :=
  mask ← restore_ports_loop originalPorts mask;
  kr ← call (task_set_exception_ports mask MACH_PORT_NULL (Z.lor EXCEPTION_DEFAULT MACH_EXCEPTION_CODES)
               THREAD_STATE_NONE);
  mret (kr =? KERN_SUCCESS).

(** [stack] is [_firclsContext.readonly->machStack]. *)
Definition FIRCLSMachExceptionThreadStart (stack : Z) (context : FIRCLSMachExceptionReadContext) :
    P (bool * FIRCLSMachExceptionReadContext) :=
  status ← call pthread_attr_init;
  if negb (status =? 0) then mret (false, context)
  else
    status ← call pthread_attr_setdetached;
    if negb (status =? 0) then mret (false, context)
    else
      status ← call (pthread_attr_setstack stack CLS_MACH_EXCEPTION_HANDLER_STACK_SIZE);
      if negb (status =? 0) then mret (false, context)
      else
        '(status, thread) ← call pthread_create;
        let context := with_thread context thread in
        if negb (status =? 0) then mret (false, context) else mret (true, context).

Definition FIRCLSMachExceptionInit (stack : Z) (context : FIRCLSMachExceptionReadContext) :
    P FIRCLSMachExceptionReadContext :=
  FIRCLSUnlinkIfExists (mach_path context);;
  '(ok, context) ← FIRCLSMachExceptionRegister context;
  if negb ok then mret context
  else
    '(ok, context) ← FIRCLSMachExceptionThreadStart stack context;
    if negb ok then
      FIRCLSMachExceptionUnregister (originalPorts context) (mach_mask context);;
      mret context
    else mret context.

Definition FIRCLSMachExceptionMaskForSignal (signal : Z) : Z :=
  if signal =? SIGTRAP then EXC_MASK_BREAKPOINT
  else if signal =? SIGSEGV then EXC_MASK_BAD_ACCESS
  else if signal =? SIGBUS then EXC_MASK_BAD_ACCESS
  else if signal =? SIGILL then EXC_MASK_BAD_INSTRUCTION
  else if signal =? SIGABRT then EXC_MASK_CRASH
  else if signal =? SIGSYS then EXC_MASK_CRASH
  else if signal =? SIGFPE then EXC_MASK_ARITHMETIC
  else 0.

(** ** Names *)

(** The codes of [EXC_ARITHMETIC] and of [EXC_BREAKPOINT] on i386 and x86_64. *)
Definition i386_arithmetic : list string :=
  ["EXC_I386_DIV"; "EXC_I386_INTO"; "EXC_I386_NOEXT"; "EXC_I386_EXTOVR"; "EXC_I386_EXTERR"; "EXC_I386_EMERR";
   "EXC_I386_BOUND"; "EXC_I386_SSEEXTERR"]%string.

Definition i386_breakpoint : list string :=
  ["EXC_I386_DIVERR"; "EXC_I386_SGLSTP"; "EXC_I386_NMIFLT"; "EXC_I386_BPTFLT"; "EXC_I386_INTOFLT";
   "EXC_I386_BOUNDFLT"; "EXC_I386_INVOPFLT"; "EXC_I386_NOEXTFLT"; "EXC_I386_EXTOVRFLT"; "EXC_I386_INVTSSFLT";
   "EXC_I386_SEGNPFLT"; "EXC_I386_STKFLT"; "EXC_I386_GPFLT"; "EXC_I386_PGFLT"; "EXC_I386_EXTERRFLT";
   "EXC_I386_ALIGNFLT"; "EXC_I386_ENDPERR"; "EXC_I386_ENOEXTFLT"]%string.

(** The [switch] over the constants of the names. *)
Fixpoint code_name (names : list string) (code : Z) : option (list Z) :=
  match names with
  | [] => None
  | name :: names => if code =? i386_code name then Some (literal name) else code_name names code
  end.

(** [*name] and [*codeName]. *)
Definition FIRCLSMachExceptionNameLookup (number code : Z) : option (list Z) * option (list Z) :=
  if number =? EXC_BAD_ACCESS then
    (Some (literal "EXC_BAD_ACCESS"),
     if code =? KERN_INVALID_ADDRESS then Some (literal "KERN_INVALID_ADDRESS")
     else if code =? KERN_PROTECTION_FAILURE then Some (literal "KERN_PROTECTION_FAILURE")
     else None)
  else if number =? EXC_BAD_INSTRUCTION then
    (Some (literal "EXC_BAD_INSTRUCTION"), if CLS_CPU_X86 then Some (literal "EXC_I386_INVOP") else None)
  else if number =? EXC_ARITHMETIC then
    (Some (literal "EXC_ARITHMETIC"), if CLS_CPU_X86 then code_name i386_arithmetic code else None)
  else if number =? EXC_BREAKPOINT then
    (Some (literal "EXC_BREAKPOINT"), if CLS_CPU_X86 then code_name i386_breakpoint code else None)
  else if number =? EXC_GUARD then (Some (literal "EXC_GUARD"), None)
  else (None, None).

(** ** Recording an exception *)

Context (images : image_table) (garbage : thread_context).
Context (readonly : FIRCLSReadOnlyContext).

(** [for (i = 0; i < message->codeCnt; ++i)] from [i] on. *)
Fixpoint record_codes_loop (rounds : nat) (message : MachExceptionMessage) (i : nat) : P unit :=
  match rounds with
  | O => mret tt
  | S rounds =>
      code ← defined (message_code message !! i);
      to_file (FIRCLSFileWriteArrayEntryUint64 (u64 code));;
      record_codes_loop rounds message (S i)
  end.

(** The section of the exception. *)
Definition record_exception_section (context : FIRCLSMachExceptionReadContext) (message : MachExceptionMessage) : P unit :=
  to_file (FIRCLSFileWriteSectionStart (literal "mach_exception"));;
  to_file FIRCLSFileWriteHashStart;;
  to_file (FIRCLSFileWriteHashEntryUint64 (literal "exception") (u64 (message_exception message)));;
  to_file (FIRCLSFileWriteHashKey (literal "codes"));;
  to_file FIRCLSFileWriteArrayStart;;
  record_codes_loop (Z.to_nat (codeCnt message)) message 0;;
  to_file FIRCLSFileWriteArrayEnd;;
  code ← (if 0 <? codeCnt message then defined (message_code message !! 0%nat) else mret 0);
  let '(name, codeName) := FIRCLSMachExceptionNameLookup (message_exception message) code in
  to_file (FIRCLSFileWriteHashEntryString (literal "name") name);;
  to_file (FIRCLSFileWriteHashEntryString (literal "code_name") codeName);;
  to_file (FIRCLSFileWriteHashEntryUint64 (literal "original_ports") (Z.of_nat (length (originalPorts context))));;
  time ← call sys_time;
  to_file (FIRCLSFileWriteHashEntryUint64 (literal "time") (u64 time));;
  to_file FIRCLSFileWriteHashEnd;;
  to_file FIRCLSFileWriteSectionEnd.

Definition FIRCLSMachExceptionRecord (context : option FIRCLSMachExceptionReadContext)
    (message : option MachExceptionMessage) : P bool :=
  match context, message with
  | Some context, Some message =>
      crashed ← FIRCLSContextMarkAndCheckIfCrashed (Some readonly);
      if crashed : bool then exit_process 1
      else
        with_local_file (
          ok ← to_file (FIRCLSFileInitWithPath (mach_path context) false);
          if negb ok then mret false
          else
            record_exception_section context message;;
            FIRCLSHandler images garbage readonly (message_thread message) 0;;
            to_file FIRCLSFileClose;;
            mret true)
  | _, _ => mret false
  end.

(** ** Messages *)

Definition FIRCLSMachExceptionReadMessage (context : FIRCLSMachExceptionReadContext) : P (option MachExceptionMessage) :=
  call (receive_message (mach_port context)).

Definition FIRCLSMachExceptionDispatchMessage (context : FIRCLSMachExceptionReadContext) (message : MachExceptionMessage) :
    P Z :=
  if negb (message_task message =? mach_task_self) then mret KERN_FAILURE
  else
    ok ← FIRCLSMachExceptionUnregister (originalPorts context) (mach_mask context);
    if negb ok then mret KERN_FAILURE
    else
      ok ← FIRCLSSignalSafeInstallPreexistingHandlers (signal_context readonly) (-1) 0 0;
      if negb ok then mret KERN_FAILURE
      else
        ok ← FIRCLSMachExceptionRecord (Some context) (Some message);
        mret (if negb ok then KERN_FAILURE else KERN_SUCCESS).

Definition FIRCLSMachExceptionReply (message : MachExceptionMessage) (result : Z) : P bool :=
  let reply := MachReply (MACH_MSGH_BITS (MACH_MSGH_BITS_REMOTE (msgh_bits message)) 0) (msgh_remote_port message)
                 (msgh_id message + 100) result in
  r ← call (send_reply reply);
  mret (r =? 0).

(** [while (1)]; the server goes on as long as messages arrive. *)
Fixpoint FIRCLSMachExceptionServer (rounds : nat) (context : FIRCLSMachExceptionReadContext) : P unit :=
  match rounds with
  | O => starves
  | S rounds =>
      message ← FIRCLSMachExceptionReadMessage context;
      match message with
      | None => mret tt
      | Some message =>
          result ← FIRCLSMachExceptionDispatchMessage context message;
          ok ← FIRCLSMachExceptionReply message result;
          if negb ok then mret tt else FIRCLSMachExceptionServer rounds context
      end
  end.

End MachException.
