(* ===== verification/ReportSpec.v ===== *)
(** What the handlers of a signal and of a Mach exception write: the text of the
    section of each, and of the whole report. *)
From S2P Require Import Prelude Memory DwarfData ThreadState DwarfSafety CompactUnwind Unwind UnwindSafety.
From S2P Require Import UnwindTheorems File FileFormat FileSpec FileFormatSpec FileJson Crash Process.
From S2P Require Import CrashSpec Redact ProcessInfo ProcessInfoSpec Handler HandlerSpec Signal.
From S2P Require Import MachException.

(** ** A report in a file of its own *)

Section ReportFile.
Context {KN : Kernel} {KS : KernelSpec} {TS : ThreadState} {MK : Mach} {MS : MachSpec} {HS : HandlerSystem}.
Context (chunk n : Z) (t : tasks) (wr : FIRCLSReadWriteContext).

(** A function that opens its file, writes to it with [m] and closes it. *)
Lemma report_file_run {A} path (m : P unit) (whole : P A) (failed done_ : A) T outer k d k1 w w' :
  (forall s, whole s = (m;; to_file FIRCLSFileClose;; mret done_) s) ->
  tasks_of k = t -> sys_open path append_mask k = (d, k1) -> 0 <= d ->
  pwp chunk n t (Some wr) [] w false 0 m (section_written [] T w') ->
  exists k' bs, with_local_file (
      ok ← to_file (FIRCLSFileInitWithPath (Some path) false);
      if negb ok then mret failed else whole) (CrashState w (Some wr) (FileState outer k)) =
    Completes done_ (CrashState w' (Some wr) (FileState outer k')) /\ T bs /\
    (0 < chunk -> progress chunk -> n <= Z.of_nat CLS_FILE_MAX_WRITE_ATTEMPTS * chunk ->
     contents k' d = contents k1 d ++ bs).
Proof.
  intros Hwhole Ht Eo Hd Hm. unfold with_local_file. cbn [the_files the_file the_kernel the_world the_writable].
  destruct (to_file_run _ w (Some wr) _ _ (init_path_run (Some path) local_file k)) as (ok & [tf k1'] & E & d' & Ho & -> & Hf).
  cbn [the_kernel the_file] in *. destruct Ho as [(? & _)|(p & [= <-] & Eo')]; [done|]. rewrite Eo in Eo'. injection Eo' as <- <-.
  erewrite P_bind_run by exact E. rewrite (proj2 (Z.leb_le 0 d)) by done. cbn [negb]. rewrite Hwhole.
  destruct (Hf Hd) as (f & Ef & Hwf & Hc & Hdp & Hfd & Hb). subst tf. destruct (open_quiet _ _ _ _ Eo) as [[Et _] Hop].
  destruct (Hm k1 f Hwf Hc Hdp) as ([] & w1 & bs & f' & k2 & Em & _ & Hfd' & Hb' & _ & Ho & bs' & HT & Ebs & -> & _ & _).
  { split; [by rewrite Et|]. rewrite Hfd. by apply Hop. }
  cbn [app] in Ebs. subst bs'. erewrite P_bind_run by exact Em.
  destruct (to_file_run _ w' (Some wr) _ _ (close_unbuffered f' k2 ltac:(by rewrite Hb'))) as (a & [tf' k3] & Ec & status & Es).
  erewrite P_bind_run by exact Ec. exists k3, bs. split; [done|]. split; [done|]. intros Hch Hp Hn. cbn [the_kernel] in Es.
  rewrite (close_keeps _ _ _ _ d Es). destruct (Ho Hch Hp) as [Hout _]; [unfold fits; by rewrite Hb|].
  unfold output, buffered in Hout. by rewrite Hb', Hb, Hfd', Hfd, !app_nil_r in Hout.
Qed.

End ReportFile.

(** ** The first crash *)

Section Once.
Context {KN : Kernel}.

Lemma mark_run readonly w wr fs :
  FIRCLSContextIsInitialized readonly = true ->
  FIRCLSContextMarkAndCheckIfCrashed readonly (CrashState w (Some wr) fs) =
    Completes (crashOccurred wr)
      (CrashState w (Some (ReadWriteContext (logLevel wr) true)) fs).
Proof.
  intros Hi. unfold FIRCLSContextMarkAndCheckIfCrashed. rewrite Hi. cbn [negb].
  unfold mbind, P_bind, get_writable, put_writable. cbn [the_writable the_world the_files].
  by destruct wr as [level []].
Qed.

End Once.

(** ** The section of a signal *)

(** [siginfo_at] only reads, and so does [time]; [si_addr] is an address. *)
Class SignalSystem {KN : Kernel} {KS : KernelSpec} {TS : ThreadState} {MK : Mach} {MS : MachSpec} {SG : Signals} : Prop := {
  time_quiet k time k' : sys_time k = (time, k') -> quiet k k'
}.

Section Signal.
Context {KN : Kernel} {KS : KernelSpec} {TS : ThreadState} {MK : Mach} {MS : MachSpec} {HS : HandlerSystem}.
Context {SI : SystemInfo} {SS : SystemSpec} {RA : RecordArch} {RL : RecordArchLaws} {SA : SelectorArch}.
Context {CE : CompactEncoding} {VM : VmRead} {VMS : DwarfExpressionSpec.VmReadSpec} {UA : UnwindArch}.
Context {TL : ThreadStateLaws} {UL : UnwindArchLaws} {SG : Signals} {SGS : SignalSystem}.
Context (chunk n : Z) (Hn : 32 <= n < 2 ^ 62) (t : tasks) (wr : FIRCLSReadWriteContext).
Context (images : image_table) (garbage : thread_context).

(** The signal, when the handler was given it. *)
Definition signal_at (w : world) (info : Z) (signal : option (Z * Z * Z)) : Prop :=
  if FIRCLSIsValidPointer info then
    exists signo code address, signal = Some (signo, code, address) /\
      siginfo_at info w = Done (signo, code, address) w /\ 0 <= address < 2 ^ 64
  else signal = None.

Definition signal_json (signal : option (Z * Z * Z)) (savedErrno time : Z) : json :=
  JHash (match signal with
         | Some (signo, code, address) =>
             let '(name, codeName) := FIRCLSSignalNameLookup signo code in
             number_members [("number", u64 signo); ("code", u64 code); ("address", address)]%string ++
             [(chars "name", string_json (Some name)); (chars "code_name", string_json codeName)]
         | None => []
         end ++ number_members [("errno", u64 savedErrno); ("time", u64 time)]%string).

(** The names are literals. *)
Lemma signal_names signo code :
  is_literal (Some (FIRCLSSignalNameLookup signo code).1) /\ is_literal (FIRCLSSignalNameLookup signo code).2.
Proof.
  unfold FIRCLSSignalNameLookup. repeat case_match; cbn [fst snd]; (split; [by eexists|]); (by eexists) || done.
Qed.

Lemma signal_section_run savedErrno info signal pre w :
  signal_at w info signal ->
  pwp chunk n t (Some wr) pre w false 0 (record_signal_section savedErrno info)
    (section_written pre (fun bs => exists k time k', sys_time k = (time, k') /\
       bs = section_text (chars "signal") (signal_json signal savedErrno time)) w).
Proof.
  intros Hsig. unfold record_signal_section. apply (pwp_object_start _ _ Hn); [done|]. apply pwp_bind.
  assert (Hrest : forall pre' c, pwp chunk n t (Some wr) pre' w c 2 (
      to_file (FIRCLSFileWriteHashEntryUint64 (literal "errno") (u64 savedErrno));;
      time ← call sys_time;
      to_file (FIRCLSFileWriteHashEntryUint64 (literal "time") (u64 time));;
      to_file FIRCLSFileWriteHashEnd;; to_file FIRCLSFileWriteSectionEnd)
    (fun _ pre2 w' c' d' => exists k time k', sys_time k = (time, k') /\
       pre2 = pre' ++ separated c (map member_text (number_members
         [("errno", u64 savedErrno); ("time", u64 time)]%string)) ++ [125; 125; 10] /\ w' = w /\ c' = false /\ d' = 0)).
  { intros pre' c. apply pwp_bind, (pwp_uint _ _ Hn); [done|apply u64_range|].
    apply pwp_bind, pwp_call. intros k time k' E. split; [by eapply time_quiet|].
    apply pwp_bind, (pwp_uint _ _ Hn); [done|apply u64_range|]. apply (pwp_object_end _ _ Hn).
    exists k, time, k'. split; [done|]. split; [|done]. cbn [number_members fmap list_fmap map separated fst snd].
    by rewrite <- !app_assoc. }
  unfold signal_at in Hsig. destruct (FIRCLSIsValidPointer info).
  - destruct Hsig as (signo & code & address & -> & Hinfo & Ha). eapply pwp_memory; [exact Hinfo|]. cbv beta iota.
    do 3 (apply pwp_bind, (pwp_uint _ _ Hn); [done|exact Ha || apply u64_range|]).
    destruct (signal_names signo code) as [Hname Hcode]. destruct (FIRCLSSignalNameLookup signo code) as [name codeName] eqn:En.
    apply pwp_bind, (pwp_literal _ _ _ _ Hn); [done|exact Hname|]. apply (pwp_literal _ _ _ _ Hn); [done|exact Hcode|].
    eapply pwp_mono; [apply Hrest|]. intros [] ? ? ? ? (k & time & k' & E & -> & -> & -> & ->).
    eexists. split; [by exists k, time, k'|]. split; [|done]. unfold section_text, signal_json. rewrite En.
    cbn [written_text number_members fmap list_fmap map app separated fst snd comma]. unfold member_text. cbn [fst snd written_text].
    same_text.
  - subst signal. apply pwp_ret. eapply pwp_mono; [apply Hrest|]. intros [] ? ? ? ? (k & time & k' & E & -> & -> & -> & ->).
    eexists. split; [by exists k, time, k'|]. split; [|done]. unfold section_text, signal_json.
    cbn [written_text number_members fmap list_fmap map app separated fst snd]. by rewrite <- !app_assoc.
Qed.

(** ** The report of a signal *)

(** The section of the signal, and those about the process. *)
Definition signal_report (readonly : FIRCLSReadOnlyContext) (process : FIRCLSProcess) (signal : option (Z * Z * Z))
    (savedErrno : Z) (jsons : list json) (selector : list Z) (messages queues names : list (list Z)) (bs : list Z) : Prop :=
  exists k time k' rest, sys_time k = (time, k') /\ handler_text readonly process jsons selector messages queues names rest /\
    bs = section_text (chars "signal") (signal_json signal savedErrno time) ++ rest.

Lemma signal_body_run context savedErrno info uapVoid signal jsons selector messages queues names w w' :
  let process := crash_process t (mach_thread_self t) uapVoid in
  low_mem (mem w) -> wf_mem (mem w) -> cpu_times_fit -> signal_at w info signal ->
  crash_facts n t images garbage process w jsons selector messages queues names w' ->
  pwp chunk n t (Some wr) [] w false 0 (
      record_signal_section savedErrno info;;
      thread ← ask (fun k => mach_thread_self (tasks_of k));
      FIRCLSHandler images garbage context thread uapVoid)
    (section_written [] (signal_report context process signal savedErrno jsons selector messages queues names) w').
Proof.
  intros process Hlow Hwf Hfit Hsig Hfacts. apply pwp_bind. eapply pwp_mono; [by apply signal_section_run|].
  intros [] ? ? ? ? (bs & (k & time & k' & Et & ->) & -> & -> & -> & ->).
  apply (pwp_ask _ _ _ _ _ _ _ _ _ _ mach_thread_self); [done|].
  eapply pwp_mono; [by apply handler_run|]. intros [] ? ? ? ? (bs & Hbs & -> & -> & -> & ->).
  eexists. split; [by exists k, time, k', bs|done].
Qed.

End Signal.

Section Report.
Context {KN : Kernel} {KS : KernelSpec} {TS : ThreadState} {MK : Mach} {MS : MachSpec} {HS : HandlerSystem}.
Context {SI : SystemInfo} {SS : SystemSpec} {RA : RecordArch} {RL : RecordArchLaws} {SA : SelectorArch}.
Context {CE : CompactEncoding} {VM : VmRead} {VMS : DwarfExpressionSpec.VmReadSpec} {UA : UnwindArch}.
Context {TL : ThreadStateLaws} {UL : UnwindArchLaws} {SG : Signals} {SGS : SignalSystem}.

Lemma record_signal_run chunk n t wr images garbage context path savedErrno info uapVoid signal jsons selector messages queues names outer k d k1 w w' :
  let process := crash_process t (mach_thread_self t) uapVoid in
  32 <= n < 2 ^ 62 -> low_mem (mem w) -> wf_mem (mem w) -> cpu_times_fit -> signal_at w info signal ->
  crash_facts n t images garbage process w jsons selector messages queues names w' ->
  initialized context = true -> crashOccurred wr = false ->
  signal_path (signal_context context) = Some path ->
  tasks_of k = t -> sys_open path append_mask k = (d, k1) -> 0 <= d ->
  exists k' bs, FIRCLSSignalRecordSignal images garbage (Some context) savedErrno info uapVoid
      (CrashState w (Some wr) (FileState outer k)) =
    Completes tt (CrashState w' (Some (ReadWriteContext (logLevel wr) true)) (FileState outer k')) /\
    signal_report context process signal savedErrno jsons selector messages queues names bs /\
    (0 < chunk -> progress chunk -> n <= Z.of_nat CLS_FILE_MAX_WRITE_ATTEMPTS * chunk ->
     contents k' d = contents k1 d ++ bs).
Proof.
  intros process Hn Hlow Hwf Hfit Hsig Hfacts Hi Hcr Hpath Ht Eo Hd. unfold FIRCLSSignalRecordSignal.
  erewrite P_bind_run by by apply mark_run. rewrite Hcr, Hpath.
  apply (report_file_run chunk n t _ path (
      record_signal_section savedErrno info;;
      thread ← ask (fun k => mach_thread_self (tasks_of k));
      FIRCLSHandler images garbage context thread uapVoid) _ tt tt _ outer k d k1 w w'); [|done..|].
  - intros s. unfold mbind, P_bind. destruct (record_signal_section savedErrno info s) as [[] s1| | |]; [|done..].
    by destruct (ask _ s1).
  - by apply signal_body_run.
Qed.

End Report.

(** ** The section of an exception *)

Section Exception.
Context {KN : Kernel} {KS : KernelSpec} {TS : ThreadState} {MK : Mach} {MS : MachSpec} {HS : HandlerSystem}.
Context {SI : SystemInfo} {SS : SystemSpec} {RA : RecordArch} {RL : RecordArchLaws} {SA : SelectorArch}.
Context {CE : CompactEncoding} {VM : VmRead} {VMS : DwarfExpressionSpec.VmReadSpec} {UA : UnwindArch}.
Context {TL : ThreadStateLaws} {UL : UnwindArchLaws} {SG : Signals} {SGS : SignalSystem} {MP : MachPorts}.
Context (chunk n : Z) (Hn : 32 <= n < 2 ^ 62) (t : tasks) (wr : FIRCLSReadWriteContext).
Context (images : image_table) (garbage : thread_context).

(** The first code, if there is one. *)
Definition first_code (message : MachExceptionMessage) : Z := default 0 (head (message_code message)).

Definition exception_json (context : FIRCLSMachExceptionReadContext) (message : MachExceptionMessage) (time : Z) : json :=
  let '(name, codeName) := FIRCLSMachExceptionNameLookup (message_exception message) (first_code message) in
  JHash (number_members [("exception", u64 (message_exception message))]%string ++
    [(chars "codes", JArray ((fun code => JUint (u64 code)) <$> message_code message));
     (chars "name", string_json name); (chars "code_name", string_json codeName)] ++
    number_members [("original_ports", Z.of_nat (length (originalPorts context))); ("time", u64 time)]%string).

Lemma code_name_literal names code : forallb literal_ok names = true -> is_literal (code_name names code).
Proof.
  induction names as [|x names IH]; [done|]. cbn [forallb code_name]. intros [Hx Hn']%andb_true_iff.
  destruct (code =? i386_code x); [by exists x|by apply IH].
Qed.

Lemma exception_names exception code :
  is_literal (FIRCLSMachExceptionNameLookup exception code).1 /\ is_literal (FIRCLSMachExceptionNameLookup exception code).2.
Proof.
  unfold FIRCLSMachExceptionNameLookup.
  repeat case_match; cbn [fst snd]; (split; [by eexists || done|]); try done; try (by eexists); by apply code_name_literal.
Qed.

Lemma record_codes_run rounds message i pre w c :
  (i + rounds)%nat = length (message_code message) ->
  pwp chunk n t (Some wr) pre w c 3 (record_codes_loop rounds message i)
    (entries_done pre (separated c (map (fun code => decimal (u64 code)) (drop i (message_code message)))) w 3).
Proof.
  revert i pre c. induction rounds as [|rounds IH]; intros i pre c Hi; cbn [record_codes_loop].
  { rewrite drop_ge by lia. apply pwp_ret, entries_none. }
  destruct (lookup_lt_is_Some_2 (message_code message) i ltac:(lia)) as [code E]. rewrite (drop_S _ _ _ E), E.
  eapply pwp_run; [by intros|]. apply pwp_bind. eapply pwp_file.
  { apply (array_entry_emits chunk n Hn). apply (uint_emits chunk n Hn), u64_range. }
  eapply pwp_mono; [apply IH; lia|]. intros. by apply entries_more.
Qed.

Lemma exception_section_run context message pre w :
  codeCnt message = Z.of_nat (length (message_code message)) -> Z.of_nat (length (originalPorts context)) < 2 ^ 64 ->
  pwp chunk n t (Some wr) pre w false 0 (record_exception_section context message)
    (section_written pre (fun bs => exists k time k', sys_time k = (time, k') /\
       bs = section_text (chars "mach_exception") (exception_json context message time)) w).
Proof.
  intros Hcnt Hports. unfold record_exception_section. apply (pwp_object_start _ _ Hn); [done|].
  apply pwp_bind, (pwp_uint _ _ Hn); [done|apply u64_range|]. apply pwp_bind, (pwp_key _ _ _ _ Hn); [done|].
  apply pwp_bind, (pwp_start _ _ _ _ Hn 91); [done..|]. apply pwp_bind. rewrite Hcnt, Nat2Z.id.
  eapply pwp_mono; [by apply record_codes_run|]. intros [] ? ? ? ? (-> & -> & ->).
  apply pwp_bind, (pwp_end _ _ _ _ Hn 93 _ _ _ 2); [done..|].
  eapply (pwp_run _ _ _ _ _ _ _ _ _ _ (first_code message)).
  { intros fs _. unfold first_code. by destruct (message_code message). }
  destruct (exception_names (message_exception message) (first_code message)) as [Hname Hcode]. unfold exception_json.
  destruct (FIRCLSMachExceptionNameLookup (message_exception message) (first_code message)) as [name codeName].
  do 2 (apply pwp_bind, (pwp_literal _ _ _ _ Hn); [done|exact Hname || exact Hcode|]).
  apply pwp_bind, (pwp_uint _ _ Hn); [done|lia|].
  apply pwp_bind, pwp_call. intros k time k' E. split; [by eapply time_quiet|].
  apply pwp_bind, (pwp_uint _ _ Hn); [done|apply u64_range|]. apply (pwp_object_end _ _ Hn).
  eexists. split; [by exists k, time, k'|]. split; [|done]. unfold section_text.
  cbn [written_text number_members fmap list_fmap map app separated fst snd comma]. unfold member_text. cbn [fst snd written_text].
  assert (Ec : map written_text ((fun code => JUint (u64 code)) <$> message_code message) =
    map (fun code => decimal (u64 code)) (drop 0 (message_code message))) by apply map_map.
  rewrite Ec. same_text.
Qed.

(** ** The report of an exception *)

Definition exception_report (readonly : FIRCLSReadOnlyContext) (process : FIRCLSProcess)
    (context : FIRCLSMachExceptionReadContext) (message : MachExceptionMessage)
    (jsons : list json) (selector : list Z) (messages queues names : list (list Z)) (bs : list Z) : Prop :=
  exists k time k' rest, sys_time k = (time, k') /\ handler_text readonly process jsons selector messages queues names rest /\
    bs = section_text (chars "mach_exception") (exception_json context message time) ++ rest.

Lemma exception_body_run readonly context message jsons selector messages queues names w w' :
  let process := crash_process t (message_thread message) 0 in
  low_mem (mem w) -> wf_mem (mem w) -> cpu_times_fit ->
  codeCnt message = Z.of_nat (length (message_code message)) -> Z.of_nat (length (originalPorts context)) < 2 ^ 64 ->
  crash_facts n t images garbage process w jsons selector messages queues names w' ->
  pwp chunk n t (Some wr) [] w false 0 (
      record_exception_section context message;;
      FIRCLSHandler images garbage readonly (message_thread message) 0)
    (section_written [] (exception_report readonly process context message jsons selector messages queues names) w').
Proof.
  intros process Hlow Hwf Hfit Hcnt Hports Hfacts. apply pwp_bind. eapply pwp_mono; [by apply exception_section_run|].
  intros [] ? ? ? ? (bs & (k & time & k' & Et & ->) & -> & -> & -> & ->).
  eapply pwp_mono; [by apply handler_run|]. intros [] ? ? ? ? (bs & Hbs & -> & -> & -> & ->).
  eexists. split; [by exists k, time, k', bs|done].
Qed.

End Exception.

Section Report.
Context {KN : Kernel} {KS : KernelSpec} {TS : ThreadState} {MK : Mach} {MS : MachSpec} {HS : HandlerSystem}.
Context {SI : SystemInfo} {SS : SystemSpec} {RA : RecordArch} {RL : RecordArchLaws} {SA : SelectorArch}.
Context {CE : CompactEncoding} {VM : VmRead} {VMS : DwarfExpressionSpec.VmReadSpec} {UA : UnwindArch}.
Context {TL : ThreadStateLaws} {UL : UnwindArchLaws} {SG : Signals} {SGS : SignalSystem} {MP : MachPorts}.

Lemma record_exception_run chunk n t wr images garbage readonly context path message jsons selector messages queues names outer k d k1 w w' :
  let process := crash_process t (message_thread message) 0 in
  32 <= n < 2 ^ 62 -> low_mem (mem w) -> wf_mem (mem w) -> cpu_times_fit ->
  codeCnt message = Z.of_nat (length (message_code message)) -> Z.of_nat (length (originalPorts context)) < 2 ^ 64 ->
  crash_facts n t images garbage process w jsons selector messages queues names w' ->
  initialized readonly = true -> crashOccurred wr = false -> mach_path context = Some path ->
  tasks_of k = t -> sys_open path append_mask k = (d, k1) -> 0 <= d ->
  exists k' bs, FIRCLSMachExceptionRecord images garbage readonly (Some context) (Some message)
      (CrashState w (Some wr) (FileState outer k)) =
    Completes true (CrashState w' (Some (ReadWriteContext (logLevel wr) true)) (FileState outer k')) /\
    exception_report readonly process context message jsons selector messages queues names bs /\
    (0 < chunk -> progress chunk -> n <= Z.of_nat CLS_FILE_MAX_WRITE_ATTEMPTS * chunk ->
     contents k' d = contents k1 d ++ bs).
Proof.
  intros process Hn Hlow Hwf Hfit Hcnt Hports Hfacts Hi Hcr Hpath Ht Eo Hd. unfold FIRCLSMachExceptionRecord.
  erewrite P_bind_run by by apply mark_run. rewrite Hcr, Hpath.
  apply (report_file_run chunk n t _ path (
      record_exception_section context message;;
      FIRCLSHandler images garbage readonly (message_thread message) 0) _ false true _ outer k d k1 w w'); [|done..|].
  - intros s. unfold mbind, P_bind. by destruct (record_exception_section context message s) as [[] s1| | |].
  - by apply exception_body_run.
Qed.

End Report.
