(* ===== verification/RestoreSpec.v ===== *)
(** That the handlers of signals and exceptions that were there before Crashlytics
    come back, and that the threads that were suspended are resumed. *)
From S2P Require Import Prelude Memory DwarfData ThreadState CompactUnwind Unwind File FileFormat Crash.
From S2P Require Import Process CrashSpec Redact ProcessInfo Handler Signal MachException.

(** ** Signals *)

(** The kernel has an action for every signal and the stack of the handlers;
    [sigaction] does not fail for the signals that are handled, which are
    different. *)
Class ActionsSpec {KN : Kernel} {SG : Signals} := {
  action_of : kernel -> Z -> sig_action;
  stack_of : kernel -> alt_stack;
  sigaction_run signal a k : signal ∈ FIRCLSFatalSignals ->
    exists k', sigaction signal (Some a) k = ((0, action_of k signal), k') /\
      (forall s, action_of k' s = if s =? signal then a else action_of k s) /\ stack_of k' = stack_of k;
  sigaltstack_run new k status old k' : sigaltstack new k = ((status, old), k') ->
    action_of k' = action_of k /\
    (status = 0 -> old = stack_of k /\ stack_of k' = new) /\ (status <> 0 -> stack_of k' = stack_of k);
  unlink_keeps path k status k' :
    sys_unlink path k = (status, k') -> action_of k' = action_of k /\ stack_of k' = stack_of k;
  signals_distinct : NoDup FIRCLSFatalSignals
}.

Section Signals.
Context {KN : Kernel} {SG : Signals} {AS : ActionsSpec}.

Definition kernel_of (s : crash_state) : kernel := the_kernel (the_files s).

Definition with_kernel (s : crash_state) (k : kernel) : crash_state :=
  CrashState (the_world s) (the_writable s) (FileState (the_file (the_files s)) k).

Lemma call_run {A} (service : kernel -> A * kernel) s a k' :
  service (kernel_of s) = (a, k') -> call service s = Completes a (with_kernel s k').
Proof. intros E. unfold call, to_file, sys. unfold kernel_of in E. by rewrite E. Qed.

Definition crash_action : sig_action := SigAction signal_handler_address empty_mask (Z.lor SA_SIGINFO SA_ONSTACK).
Definition default_action : sig_action := SigAction SIG_DFL empty_mask uninit_flags.

(** What is kept of an action: nothing of the default action. *)
Definition kept (stored a : sig_action) : sig_action :=
  if sa_sigaction a =? 0 then SigAction 0 (sa_mask stored) (sa_flags stored) else a.

(** [m] changes the actions of [signals] to those of [f], and no others. *)
Definition actions_become (k k' : kernel) (signals : list Z) (f : Z -> sig_action) : Prop :=
  (forall s, s ∈ signals -> action_of k' s = f s) /\ (forall s, s ∉ signals -> action_of k' s = action_of k s) /\
  stack_of k' = stack_of k.

Lemma install_handler_run idx signal roContext stored s :
  signal ∈ FIRCLSFatalSignals -> originalActions roContext !! idx = Some stored ->
  exists k', install_handler idx signal roContext s =
      Completes (with_original_action roContext idx (kept stored (action_of (kernel_of s) signal))) (with_kernel s k') /\
    actions_become (kernel_of s) k' [signal] (fun _ => crash_action).
Proof.
  intros Hin Hst. destruct (sigaction_run signal crash_action (kernel_of s) Hin) as (k' & E & Ha & Hk). exists k'. split.
  - unfold install_handler. erewrite P_bind_run by by apply call_run. cbv beta iota zeta. rewrite Z.eqb_refl, Hst. unfold kept.
    erewrite P_bind_run by done. destruct (Z.eqb_spec (sa_sigaction (action_of (kernel_of s) signal)) 0); cbn [negb]; [done|].
    unfold with_original_action, mret, P_ret. cbn [originalActions signal_path originalStack]. by rewrite list_insert_insert_eq.
  - split_and!; [..|done]; intros x; rewrite list_elem_of_singleton, Ha; [by intros ->; rewrite Z.eqb_refl|].
    intros Hne. by rewrite (proj2 (Z.eqb_neq _ _)).
Qed.

(** Saved for each signal from index [i] on. *)
Definition saves (k : kernel) (signals : list Z) (i : nat) (roContext roContext' : FIRCLSSignalReadContext) : Prop :=
  length (originalActions roContext') = length (originalActions roContext) /\
  originalStack roContext' = originalStack roContext /\
  (forall j, (j < i)%nat -> originalActions roContext' !! j = originalActions roContext !! j) /\
  forall j s, signals !! j = Some s -> exists stored,
    originalActions roContext' !! (i + j)%nat = Some (kept stored (action_of k s)).

Lemma install_handlers_run signals i roContext s :
  NoDup signals -> (forall x, x ∈ signals -> x ∈ FIRCLSFatalSignals) ->
  (i + length signals <= length (originalActions roContext))%nat ->
  exists roContext' k', handled_signals_loop signals i install_handler roContext s = Completes roContext' (with_kernel s k') /\
    actions_become (kernel_of s) k' signals (fun _ => crash_action) /\
    saves (kernel_of s) signals i roContext roContext'.
Proof.
  revert i roContext s. induction signals as [|signal signals IH]; intros i roContext s Hnd Hin Hlen.
  { exists roContext, (kernel_of s). split; [by destruct s as [? ? []]|]. 
    split; [by split; [intros x ?%elem_of_nil|]|]. by split_and!. }
  apply NoDup_cons in Hnd as [Hnew Hnd]. cbn [length] in Hlen.
  destruct (lookup_lt_is_Some_2 (originalActions roContext) i ltac:(lia)) as [stored Est].
  destruct (install_handler_run i signal roContext stored s) as (k1 & E1 & Ha1 & Hb1 & Hst1); [apply Hin; by left|done|].
  destruct (IH (S i) (with_original_action roContext i (kept stored (action_of (kernel_of s) signal))) (with_kernel s k1))
    as (ro2 & k2 & E2 & (Ha2 & Hb2 & Hst2) & Hlen2 & Hstk2 & Hlow & Hsaved); [done|intros; apply Hin; by right|
    cbn [with_original_action originalActions]; rewrite length_insert; lia|].
  cbn [with_original_action originalActions originalStack] in *. rewrite length_insert in Hlen2.
  exists ro2, k2. cbn [handled_signals_loop]. erewrite P_bind_run by exact E1. split; [exact E2|].
  split; [split; [|split; [|by rewrite Hst2]]|split; [done|split; [done|split]]].
  - intros x [->|Hx]%elem_of_cons; [|by apply Ha2]. rewrite Hb2 by done. apply Ha1. by left.
  - intros x [Hx1 Hx2]%not_elem_of_cons. rewrite Hb2 by done. apply Hb1. by rewrite list_elem_of_singleton.
  - intros j Hj. rewrite Hlow by lia. by rewrite list_lookup_insert_ne by lia.
  - intros [|j] x Hx; cbn in Hx.
    + injection Hx as <-. exists stored. rewrite Nat.add_0_r, Hlow by lia. by rewrite list_lookup_insert_eq by lia.
    + destruct (Hsaved j x Hx) as [st' Es]. exists st'. rewrite <- Nat.add_succ_comm, Es. do 2 f_equal.
      apply Hb1. rewrite list_elem_of_singleton. intros ->. apply Hnew. by eapply list_elem_of_lookup_2.
Qed.

(** A loop whose rounds set the action of one signal each. *)
Lemma enumerate_signals_run {St} (block : nat -> Z -> St -> P St) signals i st s f :
  NoDup signals ->
  (forall j x s', signals !! j = Some x -> action_of (kernel_of s') x = action_of (kernel_of s) x ->
     exists k', block (i + j)%nat x st s' = Completes st (with_kernel s' k') /\
       (forall y, action_of k' y = if y =? x then f x else action_of (kernel_of s') y) /\
       stack_of k' = stack_of (kernel_of s')) ->
  exists k', handled_signals_loop signals i block st s = Completes st (with_kernel s k') /\
    actions_become (kernel_of s) k' signals f.
Proof.
  revert i s. induction signals as [|x signals IH]; intros i s Hnd Hblock.
  { exists (kernel_of s). split; [by destruct s as [? ? []]|]. by split; [intros x ?%elem_of_nil|]. }
  apply NoDup_cons in Hnd as [Hnew Hnd].
  destruct (Hblock 0%nat x s eq_refl eq_refl) as (k1 & E1 & Ha1 & Hst1). rewrite Nat.add_0_r in E1.
  destruct (IH (S i) (with_kernel s k1) Hnd) as (k2 & E2 & Hin2 & Hout2 & Hst2).
  { intros j y s' Hy Hsame. rewrite Nat.add_succ_comm. apply Hblock; [done|]. rewrite Hsame. cbn. rewrite Ha1.
    rewrite (proj2 (Z.eqb_neq _ _)); [done|]. intros ->. apply Hnew. by eapply list_elem_of_lookup_2. }
  change (kernel_of (with_kernel s k1)) with k1 in *.
  exists k2. cbn [handled_signals_loop]. erewrite P_bind_run by exact E1. split; [exact E2|]. split; [|split; [|by rewrite Hst2]].
  - intros y [->|Hy]%elem_of_cons; [|by apply Hin2]. by rewrite Hout2, (Ha1 x), Z.eqb_refl.
  - intros y [Hy1 Hy2]%not_elem_of_cons. rewrite Hout2 by done. cbn. by rewrite Ha1, (proj2 (Z.eqb_neq _ _)).
Qed.

Lemma fatal_signal j x : FIRCLSFatalSignals !! j = Some x -> x ∈ FIRCLSFatalSignals.
Proof. apply list_elem_of_lookup_2. Qed.

Lemma remove_handlers_run s :
  exists k', FIRCLSSignalSafeRemoveHandlers true s = Completes tt (with_kernel s k') /\
    actions_become (kernel_of s) k' FIRCLSFatalSignals (fun _ => default_action).
Proof.
  apply enumerate_signals_run; [apply signals_distinct|]. intros j x s' Hx%fatal_signal _. cbn [negb andb].
  destruct (sigaction_run x default_action (kernel_of s') Hx) as (k' & E & Ha & Hk). exists k'. split; [|done].
  by erewrite P_bind_run by by apply call_run.
Qed.

(** The handler that was there is called for the signal, if any; it leaves the
    actions alone. *)
Definition harmless (roContext : FIRCLSSignalReadContext) (signal info uapVoid : Z) : Prop :=
  signal < 0 \/ forall j original, FIRCLSFatalSignals !! j = Some signal ->
    originalActions roContext !! j = Some original -> sa_sigaction original <> 0 ->
    exists f, function_at (sa_sigaction original) = Some f /\ forall k,
      (forall x, action_of (f signal info uapVoid k) x = action_of k x) /\ stack_of (f signal info uapVoid k) = stack_of k.

Lemma restore_actions_run roContext signal info uapVoid (original : Z -> sig_action) s :
  (forall j x, FIRCLSFatalSignals !! j = Some x -> exists stored, originalActions roContext !! j = Some stored /\
     original x = stored) ->
  harmless roContext signal info uapVoid ->
  exists k', FIRCLSSignalEnumerateHandledSignals (restore_action roContext signal info uapVoid) true s =
      Completes true (with_kernel s k') /\
    actions_become (kernel_of s) k' FIRCLSFatalSignals
      (fun x => if sa_sigaction (original x) =? 0 then action_of (kernel_of s) x else original x).
Proof.
  intros Horig Hcall. apply enumerate_signals_run; [apply signals_distinct|]. intros j x s' Hj Hsame. cbn [Nat.add].
  destruct (Horig j x Hj) as (stored & Est & <-). unfold restore_action. rewrite Est. erewrite P_bind_run by done.
  destruct (Z.eqb_spec (sa_sigaction (original x)) 0) as [Hz|Hnz].
  - exists (kernel_of s'). split; [by destruct s' as [? ? []]|]. split; [|done]. intros y.
    destruct (Z.eqb_spec y x) as [->|]; [done|done].
  - destruct (sigaction_run x (original x) (kernel_of s') (fatal_signal _ _ Hj)) as (k1 & E1 & Ha1 & Hst1).
    erewrite P_bind_run by by apply call_run. cbv beta iota zeta. rewrite Z.eqb_refl. cbn [negb].
    destruct (Z.ltb_spec signal 0) as [|Hpos]; [by exists k1|]. destruct (Z.eqb_spec signal x) as [->|]; [|by exists k1].
    destruct Hcall as [|Hcall]; [lia|]. destruct (Hcall j (original x) Hj Est Hnz) as (f & Ef & Hf).
    exists (f x info uapVoid k1). split; [|destruct (Hf k1) as [Hfa Hfs]; split; [intros y; by rewrite Hfa|by rewrite Hfs]].
    unfold call_function. rewrite Ef. done.
Qed.

(** The action that is kept for a signal. *)
Definition original_of (roContext : FIRCLSSignalReadContext) (x : Z) : sig_action :=
  match list_find (eq x) FIRCLSFatalSignals with
  | Some (j, _) => default default_action (originalActions roContext !! j)
  | None => default_action
  end.

Lemma original_at roContext j x stored :
  FIRCLSFatalSignals !! j = Some x -> originalActions roContext !! j = Some stored -> original_of roContext x = stored.
Proof.
  intros Hj Est. unfold original_of. rewrite (proj2 (list_find_Some (eq x) FIRCLSFatalSignals j x)); [by rewrite Est|].
  split_and!; [done..|]. intros i y Hi Hlt <-. pose proof (NoDup_lookup _ _ _ _ signals_distinct Hi Hj). lia.
Qed.

Lemma unlink_run path s :
  exists ok k', FIRCLSUnlinkIfExists path s = Completes ok (with_kernel s k') /\
    action_of k' = action_of (kernel_of s) /\ stack_of k' = stack_of (kernel_of s).
Proof.
  unfold FIRCLSUnlinkIfExists. destruct (sys_unlink path (kernel_of s)) as [status k'] eqn:E.
  erewrite P_bind_run by by apply call_run. pose proof (unlink_keeps _ _ _ _ E) as [Ha Hs].
  destruct (status =? 0); cbn [negb].
  - by exists true, k'.
  - by exists (errno k' =? ENOENT), k'.
Qed.

Definition crash_stack (stack : Z) : alt_stack := AltStack stack CLS_SIGNAL_HANDLER_STACK_SIZE 0.

Lemma initialize_run stack roContext s :
  length (originalActions roContext) = FIRCLSSignalCount ->
  exists roContext' k', FIRCLSSignalInitialize stack roContext s = Completes roContext' (with_kernel s k') /\
    (forall x, x ∈ FIRCLSFatalSignals -> action_of k' x = crash_action) /\
    (forall x, x ∉ FIRCLSFatalSignals -> action_of k' x = action_of (kernel_of s) x) /\
    (forall j x, FIRCLSFatalSignals !! j = Some x -> exists stored,
       originalActions roContext' !! j = Some (kept stored (action_of (kernel_of s) x))) /\
    (originalStack roContext' = stack_of (kernel_of s) /\ stack_of k' = crash_stack stack \/
     originalStack roContext' = originalStack roContext /\ stack_of k' = stack_of (kernel_of s)).
Proof.
  intros Hlen. unfold FIRCLSSignalInitialize. destruct (unlink_run (signal_path roContext) s) as (ok & k0 & E0 & Ha0 & Hs0).
  erewrite P_bind_run by exact E0. unfold FIRCLSSignalInstallAltStack.
  destruct (sigaltstack (crash_stack stack) k0) as [[status old] k1] eqn:E1.
  destruct (sigaltstack_run _ _ _ _ _ E1) as (Ha1 & Hok & Hno).
  set (ro1 := if negb (status =? 0) then roContext else SignalReadContext (signal_path roContext) (originalActions roContext) old).
  erewrite (P_bind_run _ _ _ ro1 (with_kernel s k1)).
  2: { erewrite P_bind_run by (apply call_run; exact E1). unfold ro1. by destruct (negb (status =? 0)). }
  destruct (install_handlers_run FIRCLSFatalSignals 0 ro1 (with_kernel s k1)) as (ro2 & k2 & E2 & (Hin & Hout & Hst) & Hsv);
    [apply signals_distinct|done|unfold ro1; destruct (status =? 0); cbn [negb originalActions]; by rewrite Hlen|].
  destruct Hsv as (_ & Hstk & _ & Hsv). change (kernel_of (with_kernel s k1)) with k1 in *.
  exists ro2, k2. split; [exact E2|]. split; [done|]. rewrite Ha1, Ha0 in Hout. split; [done|]. rewrite Ha1, Ha0 in Hsv.
  split; [by intros j x Hj; apply Hsv|]. rewrite Hst, Hstk. unfold ro1. destruct (Z.eqb_spec status 0) as [Hz|Hnz]; cbn [negb].
  - left. destruct (Hok Hz) as [-> ->]. cbn. by rewrite Hs0.
  - right. split; [done|]. by rewrite (Hno Hnz).
Qed.

(** Whether the kernel takes back the stack that was there, if there was one. *)
Definition stack_accepted (roContext : FIRCLSSignalReadContext) (accepts : bool) : Prop :=
  if ss_sp (originalStack roContext) =? 0 then accepts = true
  else forall k, ((sigaltstack (originalStack roContext) k).1.1 =? 0) = accepts.

Lemma restore_stack_run roContext accepts s :
  stack_accepted roContext accepts ->
  exists k', (if negb (ss_sp (originalStack roContext) =? 0) then
       '(status, _) ← call (sigaltstack (originalStack roContext)); mret (status =? 0)
     else mret true) s = Completes accepts (with_kernel s k') /\
    action_of k' = action_of (kernel_of s) /\
    stack_of k' = if accepts && negb (ss_sp (originalStack roContext) =? 0) then originalStack roContext else stack_of (kernel_of s).
Proof.
  unfold stack_accepted. intros Hacc. destruct (ss_sp (originalStack roContext) =? 0); cbn [negb].
  { subst accepts. exists (kernel_of s). split; [by destruct s as [? ? []]|done]. }
  destruct (sigaltstack (originalStack roContext) (kernel_of s)) as [[status old] k'] eqn:E. specialize (Hacc (kernel_of s)). rewrite E in Hacc.
  destruct (sigaltstack_run _ _ _ _ _ E) as (Ha & Hok & Hno). exists k'. cbn in Hacc. rewrite Hacc || subst accepts.
  split; [by erewrite P_bind_run by (apply call_run; exact E)|]. split; [done|].
  rewrite andb_true_r. destruct (Z.eqb_spec status 0) as [Hz|Hnz]; [by apply Hok|by apply Hno].
Qed.

Lemma preexisting_run roContext signal info uapVoid (original : Z -> sig_action) accepts s :
  (forall j x, FIRCLSFatalSignals !! j = Some x -> exists stored, originalActions roContext !! j = Some stored /\
     original x = stored) ->
  harmless roContext signal info uapVoid -> stack_accepted roContext accepts ->
  exists k', FIRCLSSignalSafeInstallPreexistingHandlers roContext signal info uapVoid s = Completes accepts (with_kernel s k') /\
    (forall x, x ∉ FIRCLSFatalSignals -> action_of k' x = action_of (kernel_of s) x) /\
    (forall x, x ∈ FIRCLSFatalSignals -> action_of k' x =
       if negb accepts || (sa_sigaction (original x) =? 0) then default_action else original x) /\
    stack_of k' = if accepts && negb (ss_sp (originalStack roContext) =? 0) then originalStack roContext else stack_of (kernel_of s).
Proof.
  intros Horig Hcall Hacc. unfold FIRCLSSignalSafeInstallPreexistingHandlers.
  destruct (remove_handlers_run s) as (k1 & E1 & Hin1 & Hout1 & Hst1). erewrite P_bind_run by exact E1.
  destruct (restore_stack_run roContext accepts (with_kernel s k1) Hacc) as (k2 & E2 & Ha2 & Hst2). erewrite P_bind_run by exact E2.
  change (kernel_of (with_kernel s k1)) with k1 in *. rewrite Hst1 in Hst2. destruct accepts; cbn [negb andb orb] in *.
  - destruct (restore_actions_run roContext signal info uapVoid original (with_kernel s k2) Horig Hcall)
      as (k3 & E3 & Hin3 & Hout3 & Hst3). change (kernel_of (with_kernel s k2)) with k2 in *.
    exists k3. split; [exact E3|]. rewrite Ha2 in *. split; [intros x Hx; by rewrite Hout3, Hout1|].
    split; [|by rewrite Hst3]. intros x Hx. rewrite Hin3 by done.
    destruct (sa_sigaction (original x) =? 0); [by apply Hin1|done].
  - exists k2. split; [done|]. rewrite Ha2. split; [done|]. split; [|done]. intros x Hx. by apply Hin1.
Qed.

(** An action that is kept for the signal and is no function, as SIG_IGN, is called all
    the same. *)
Lemma restore_faults roContext signal info uapVoid original : forall signals i s,
  0 <= signal -> (forall x, x ∈ signals -> x ∈ FIRCLSFatalSignals) ->
  (forall j x, signals !! j = Some x -> exists stored, originalActions roContext !! (i + j)%nat = Some stored /\ (x = signal -> stored = original)) ->
  signal ∈ signals -> sa_sigaction original <> 0 -> function_at (sa_sigaction original) = None ->
  handled_signals_loop signals i (restore_action roContext signal info uapVoid) true s = Faults.
Proof.
  induction signals as [|x signals IH]; intros i s Hpos Hsub Horig Hin Hnz Hnone; [by apply elem_of_nil in Hin|].
  cbn [handled_signals_loop]. destruct (Horig 0%nat x eq_refl) as (stored & Est & Hx). rewrite Nat.add_0_r in Est.
  assert (Hnext : x <> signal -> forall s', handled_signals_loop signals (S i) (restore_action roContext signal info uapVoid) true s' = Faults).
  { intros Hne s'. apply elem_of_cons in Hin as [->|Hin]; [done|]. apply IH; try done; [intros; apply Hsub; by right|].
    intros j y Hj. rewrite Nat.add_succ_comm. by apply Horig. }
  unfold mbind at 1, P_bind at 1. unfold restore_action at 1. rewrite Est. erewrite P_bind_run by done.
  destruct (Z.eqb_spec (sa_sigaction stored) 0) as [Hz|Hnz1].
  { assert (x <> signal) by (intros ->; by rewrite (Hx eq_refl) in Hz). by apply Hnext. }
  destruct (sigaction_run x stored (kernel_of s) (Hsub x ltac:(by left))) as (k1 & E1 & _).
  erewrite P_bind_run by by apply call_run. cbv beta iota zeta. rewrite Z.eqb_refl, (proj2 (Z.ltb_ge _ _)) by done. cbn [negb].
  destruct (Z.eqb_spec signal x) as [->|Hne]; [|by apply Hnext].
  rewrite (Hx eq_refl). unfold call_function. by rewrite Hnone.
Qed.

Lemma preexisting_faults roContext signal info uapVoid s :
  (forall j x, FIRCLSFatalSignals !! j = Some x -> exists stored, originalActions roContext !! j = Some stored) ->
  stack_accepted roContext true -> 0 <= signal -> signal ∈ FIRCLSFatalSignals -> sa_sigaction (original_of roContext signal) <> 0 ->
  function_at (sa_sigaction (original_of roContext signal)) = None ->
  FIRCLSSignalSafeInstallPreexistingHandlers roContext signal info uapVoid s = Faults.
Proof.
  intros Hlen Hacc Hpos Hin Hnz Hnone. unfold FIRCLSSignalSafeInstallPreexistingHandlers.
  destruct (remove_handlers_run s) as (k1 & E1 & _). erewrite P_bind_run by exact E1.
  destruct (restore_stack_run roContext true (with_kernel s k1) Hacc) as (k2 & E2 & _). erewrite P_bind_run by exact E2. cbn [negb].
  apply (restore_faults roContext signal info uapVoid (original_of roContext signal)); try done.
  intros j x Hj. destruct (Hlen j x Hj) as [stored Est].
  exists stored. split; [done|]. intros ->. symmetry. by eapply original_at.
Qed.

End Signals.

(** ** Exception ports *)

(** Every kind of exception, a bit of a mask, has a port with a behaviour and a
    flavour. Swapping the ports of a mask returns entries for those that were
    there; kinds without an entry had none. Other calls leave ports alone. *)
Class PortsSpec {KN : Kernel} {SG : Signals} {MP : MachPorts} := {
  exception_port : kernel -> Z -> Z * Z * Z;
  swap_run mask port behavior flavor k status ports k' :
    task_swap_exception_ports mask port behavior flavor k = ((status, ports), k') ->
    if status =? KERN_SUCCESS then
      (forall i, 0 <= i -> exception_port k' i =
         if Z.testbit mask i then (port, behavior, flavor) else exception_port k i) /\
      (forall p, p ∈ ports -> forall i, 0 <= i -> Z.testbit (port_mask p) i = true ->
         Z.testbit mask i = true /\ (port_name p, port_behavior p, port_flavor p) = exception_port k i) /\
      (forall i, 0 <= i -> Z.testbit mask i = true ->
         (exists p, p ∈ ports /\ Z.testbit (port_mask p) i = true) \/ (exception_port k i).1.1 = MACH_PORT_NULL)
    else exception_port k' = exception_port k;
  set_run mask port behavior flavor k status k' :
    task_set_exception_ports mask port behavior flavor k = (status, k') ->
    if status =? KERN_SUCCESS then
      forall i, 0 <= i -> exception_port k' i =
        if Z.testbit mask i then (port, behavior, flavor) else exception_port k i
    else exception_port k' = exception_port k;
  allocate_keeps k r k' : mach_port_allocate k = (r, k') -> exception_port k' = exception_port k;
  insert_keeps port k r k' : mach_port_insert_right port k = (r, k') -> exception_port k' = exception_port k;
  deallocate_keeps port k r k' : mach_port_deallocate port k = (r, k') -> exception_port k' = exception_port k
}.

Section Ports.
Context {KN : Kernel} {SG : Signals} {MP : MachPorts} {PS : PortsSpec}.

(** The port of Crashlytics, and what stands for no port. *)
Definition crash_port (port : Z) : Z * Z * Z := (port, Z.lor EXCEPTION_DEFAULT MACH_EXCEPTION_CODES, THREAD_STATE_NONE).

(** The same port, or none again. *)
Definition port_restored (before after : Z * Z * Z) : Prop :=
  after = before \/ before.1.1 = MACH_PORT_NULL /\ after = crash_port MACH_PORT_NULL.

(** The kernel takes back the ports that it gave out. *)
Definition ports_accepted (ports : list original_port) : Prop :=
  (forall p k, p ∈ ports -> (task_set_exception_ports (port_mask p) (port_name p) (port_behavior p) (port_flavor p) k).1 = KERN_SUCCESS) /\
  forall mask k, Z.ldiff mask FIRCLSMachExceptionMask = 0 -> (task_set_exception_ports mask MACH_PORT_NULL (Z.lor EXCEPTION_DEFAULT MACH_EXCEPTION_CODES)
    THREAD_STATE_NONE k).1 = KERN_SUCCESS.

(** Of a kind of exception with an entry. *)
Definition covered (ports : list original_port) (i : Z) : Prop := exists p, p ∈ ports /\ Z.testbit (port_mask p) i = true.

Lemma restore_ports_run (ports : list original_port) mask s (old : Z -> Z * Z * Z) :
  ports_accepted ports ->
  (forall p, p ∈ ports -> forall i, 0 <= i -> Z.testbit (port_mask p) i = true ->
     (port_name p, port_behavior p, port_flavor p) = old i) ->
  exists mask' k', restore_ports_loop ports mask s = Completes mask' (with_kernel s k') /\
    (forall i, 0 <= i -> covered ports i -> exception_port k' i = old i /\ Z.testbit mask' i = false) /\
    (forall i, 0 <= i -> ~ covered ports i ->
       exception_port k' i = exception_port (kernel_of s) i /\ Z.testbit mask' i = Z.testbit mask i).
Proof.
  intros [Hacc Hnull]. revert mask s. induction ports as [|p ports IH]; intros mask s Hold.
  { exists mask, (kernel_of s). split; [by destruct s as [? ? []]|]. split; [|done].
    by intros i _ (p & ?%elem_of_nil & _). }
  cbn [restore_ports_loop].
  destruct (task_set_exception_ports (port_mask p) (port_name p) (port_behavior p) (port_flavor p) (kernel_of s))
    as [status k1] eqn:E1. pose proof (Hacc p (kernel_of s) ltac:(by left)) as Hst. rewrite E1 in Hst. cbn in Hst. subst status.
  pose proof (set_run _ _ _ _ _ _ _ E1) as Hset. rewrite Z.eqb_refl in Hset.
  destruct (IH ltac:(intros; apply Hacc; by right) (Z.ldiff mask (port_mask p)) (with_kernel s k1)
    ltac:(intros; eapply Hold; [by right|done..])) as (mask' & k2 & E2 & Hin & Hout).
  change (kernel_of (with_kernel s k1)) with k1 in *. exists mask', k2. erewrite P_bind_run by by apply call_run.
  split; [exact E2|]. split.
  - intros i Hi Hc. destruct (Z.testbit (port_mask p) i) eqn:Ep.
    + destruct (decide (Exists (fun q => Z.testbit (port_mask q) i = true) ports)) as [Hex%Exists_exists|Hno]; [by apply Hin|].
      rewrite Exists_exists in Hno. destruct (Hout i Hi Hno) as [-> ->]. rewrite Hset, Ep by done.
      split; [by eapply Hold; [left|..]|]. by rewrite Z.ldiff_spec, Ep, andb_false_r.
    + apply Hin; [done|]. destruct Hc as (q & [->|Hq]%elem_of_cons & Hb); [congruence|by exists q].
  - intros i Hi Hc. assert (Ep : Z.testbit (port_mask p) i = false).
    { destruct (Z.testbit (port_mask p) i) eqn:Ep; [|done]. exfalso. apply Hc. exists p. split; [by left|done]. }
    destruct (Hout i Hi) as [-> ->]; [intros (q & Hq & Hb); apply Hc; exists q; split; [by right|done]|].
    rewrite Hset, Ep, Z.ldiff_spec, Ep by done. by rewrite andb_true_r.
Qed.

Lemma unregister_run (ports : list original_port) mask s (old : Z -> Z * Z * Z) :
  ports_accepted ports -> Z.ldiff mask FIRCLSMachExceptionMask = 0 ->
  (forall p, p ∈ ports -> forall i, 0 <= i -> Z.testbit (port_mask p) i = true ->
     Z.testbit mask i = true /\ (port_name p, port_behavior p, port_flavor p) = old i) ->
  (forall i, 0 <= i -> Z.testbit mask i = true -> covered ports i \/ (old i).1.1 = MACH_PORT_NULL) ->
  exists k', FIRCLSMachExceptionUnregister ports mask s = Completes true (with_kernel s k') /\
    (forall i, 0 <= i -> Z.testbit mask i = true -> port_restored (old i) (exception_port k' i)) /\
    (forall i, 0 <= i -> Z.testbit mask i = false -> exception_port k' i = exception_port (kernel_of s) i).
Proof.
  intros Hacc Hsub Hold Hcov. destruct (restore_ports_run ports mask s old Hacc) as (mask' & k1 & E1 & Hin & Hout).
  { intros p Hp i Hi Hb. by apply Hold. }
  unfold FIRCLSMachExceptionUnregister. erewrite P_bind_run by exact E1. destruct Hacc as [_ Hnull].
  destruct (task_set_exception_ports mask' MACH_PORT_NULL (Z.lor EXCEPTION_DEFAULT MACH_EXCEPTION_CODES)
    THREAD_STATE_NONE k1) as [status k2] eqn:E2. 
  assert (Hsub' : Z.ldiff mask' FIRCLSMachExceptionMask = 0).
  { apply Z.bits_inj_0. intros i. destruct (Z.ltb_spec i 0) as [|Hi]; [by apply Z.testbit_neg_r|]. rewrite Z.ldiff_spec.
    destruct (decide (Exists (fun q => Z.testbit (port_mask q) i = true) ports)) as [Hex%Exists_exists|Hno].
    - by destruct (Hin i Hi Hex) as [_ ->].
    - rewrite Exists_exists in Hno. destruct (Hout i Hi Hno) as [_ ->]. by rewrite <- Z.ldiff_spec, Hsub, Z.bits_0. }
  pose proof (Hnull mask' k1 Hsub') as Hst. rewrite E2 in Hst. cbn in Hst. subst status.
  pose proof (set_run _ _ _ _ _ _ _ E2) as Hset. rewrite Z.eqb_refl in Hset.
  exists k2. erewrite P_bind_run by by apply call_run. split; [by rewrite Z.eqb_refl|]. split; intros i Hi Hb.
  - destruct (decide (Exists (fun q => Z.testbit (port_mask q) i = true) ports)) as [Hex%Exists_exists|Hno].
    + destruct (Hin i Hi Hex) as [Ho Hm]. left. by rewrite Hset, Hm.
    + rewrite Exists_exists in Hno. destruct (Hout i Hi Hno) as [_ Hm]. right.
      destruct (Hcov i Hi Hb) as [|Hn]; [done|]. by rewrite Hset, Hm, Hb.
  - destruct (Hout i Hi) as [Ho Hm]; [|by rewrite Hset, Hm, Hb].
    intros (p & Hp & Ep). destruct (Hold p Hp i Hi Ep) as [? _]. congruence.
Qed.

(** ** Registration *)

(** The kinds of exceptions that Crashlytics handles. *)
Definition handled (i : Z) : Prop := 0 <= i /\ Z.testbit FIRCLSMachExceptionMask i = true.

(** The kernel will take back all ports that it gives out. *)
Definition ports_live : Prop := forall mask port behavior flavor k status ports k',
  task_swap_exception_ports mask port behavior flavor k = ((status, ports), k') -> ports_accepted ports.

(** The context after a successful registration from a kernel. *)
Definition registered (k : kernel) (context : FIRCLSMachExceptionReadContext) : Prop :=
  mach_mask context = FIRCLSMachExceptionMask /\
  (forall p, p ∈ originalPorts context -> forall i, 0 <= i -> Z.testbit (port_mask p) i = true ->
     handled i /\ (port_name p, port_behavior p, port_flavor p) = exception_port k i) /\
  (forall i, handled i -> covered (originalPorts context) i \/ (exception_port k i).1.1 = MACH_PORT_NULL).

Lemma mach_register_run context s :
  ports_live ->
  exists ok context' k', FIRCLSMachExceptionRegister context s = Completes (ok, context') (with_kernel s k') /\
    if ok : bool then registered (kernel_of s) context' /\ ports_accepted (originalPorts context') /\
      (forall i, handled i -> exception_port k' i = crash_port (mach_port context')) /\
      (forall i, 0 <= i -> ~ handled i -> exception_port k' i = exception_port (kernel_of s) i)
    else exception_port k' = exception_port (kernel_of s).
Proof.
  intros Hlive. unfold FIRCLSMachExceptionRegister. destruct (mach_port_allocate (kernel_of s)) as [[kr port] k1] eqn:E1.
  erewrite P_bind_run by by apply call_run. pose proof (allocate_keeps _ _ _ E1) as H1. cbv beta iota zeta.
  destruct (kr =? KERN_SUCCESS); cbn [negb]; [|by exists false, (with_port context port), k1].
  destruct (mach_port_insert_right port k1) as [kr2 k2] eqn:E2.
  erewrite P_bind_run by (apply call_run; exact E2). pose proof (insert_keeps _ _ _ _ E2) as H2. cbv beta iota zeta.
  destruct (kr2 =? KERN_SUCCESS); cbn [negb].
  2: { destruct (mach_port_deallocate port k2) as [kr3 k3] eqn:E3. exists false, (with_port context port), k3.
       erewrite P_bind_run by (apply call_run; exact E3). split; [done|]. rewrite (deallocate_keeps _ _ _ _ E3). congruence. }
  cbn [with_mask mach_mask].
  destruct (task_swap_exception_ports FIRCLSMachExceptionMask port (Z.lor EXCEPTION_DEFAULT MACH_EXCEPTION_CODES)
    THREAD_STATE_NONE k2) as [[kr3 ports] k3] eqn:E3. pose proof (swap_run _ _ _ _ _ _ _ _ E3) as H3.
  erewrite P_bind_run by (apply call_run; exact E3). exists (kr3 =? KERN_SUCCESS). exists (with_ports (with_mask (with_port context port) FIRCLSMachExceptionMask) ports), k3. split; [done|].
  destruct (kr3 =? KERN_SUCCESS); [|by rewrite H3, H2, H1]. rewrite H2, H1 in H3. destruct H3 as (Hset & Hold & Hcov).
  split; [split; [done|split]|split; [by eapply Hlive|split]].
  - intros p Hp i Hi Hb. by destruct (Hold p Hp i Hi Hb).
  - intros i [Hi Hb]. by apply Hcov.
  - intros i [Hi Hb]. by rewrite Hset, Hb.
  - intros i Hi Hno. rewrite Hset by done. destruct (Z.testbit FIRCLSMachExceptionMask i) eqn:Eb; [|done].
    exfalso. by apply Hno.
Qed.

End Ports.

(** ** Starting the server *)

(** A thread that is created runs; neither that nor unlinking a file changes
    ports. *)
Class ServerSpec {KN : Kernel} {SG : Signals} {MP : MachPorts} {PS : PortsSpec} := {
  running : kernel -> Z -> Prop;
  unlink_keeps_ports path k r k' : sys_unlink path k = (r, k') -> exception_port k' = exception_port k;
  attr_init_keeps k r k' : pthread_attr_init k = (r, k') -> exception_port k' = exception_port k;
  attr_detached_keeps k r k' : pthread_attr_setdetached k = (r, k') -> exception_port k' = exception_port k;
  attr_stack_keeps stack size k r k' : pthread_attr_setstack stack size k = (r, k') -> exception_port k' = exception_port k;
  create_run k status thread k' : pthread_create k = ((status, thread), k') ->
    exception_port k' = exception_port k /\ (status = 0 -> running k' thread)
}.

Section Server.
Context {KN : Kernel} {SG : Signals} {MP : MachPorts} {PS : PortsSpec} {SS : ServerSpec}.

Lemma thread_start_run stack context s :
  exists ok context' k', FIRCLSMachExceptionThreadStart stack context s = Completes (ok, context') (with_kernel s k') /\
    exception_port k' = exception_port (kernel_of s) /\ mach_port context' = mach_port context /\
    mach_mask context' = mach_mask context /\ originalPorts context' = originalPorts context /\
    (ok = true -> running k' (mach_thread context')).
Proof.
  unfold FIRCLSMachExceptionThreadStart. destruct (pthread_attr_init (kernel_of s)) as [st1 k1] eqn:E1.
  erewrite P_bind_run by by apply call_run. pose proof (attr_init_keeps _ _ _ E1) as H1. cbv beta.
  destruct (st1 =? 0); cbn [negb]; [|by exists false, context, k1].
  destruct (pthread_attr_setdetached k1) as [st2 k2] eqn:E2.
  erewrite P_bind_run by (apply call_run; exact E2). pose proof (attr_detached_keeps _ _ _ E2) as H2. cbv beta.
  rewrite H1 in H2. destruct (st2 =? 0); cbn [negb]; [|by exists false, context, k2].
  destruct (pthread_attr_setstack stack CLS_MACH_EXCEPTION_HANDLER_STACK_SIZE k2) as [st3 k3] eqn:E3.
  erewrite P_bind_run by (apply call_run; exact E3). pose proof (attr_stack_keeps _ _ _ _ _ E3) as H3. cbv beta.
  rewrite H2 in H3. destruct (st3 =? 0); cbn [negb]; [|by exists false, context, k3].
  destruct (pthread_create k3) as [[st4 thread] k4] eqn:E4.
  erewrite P_bind_run by (apply call_run; exact E4). destruct (create_run _ _ _ _ E4) as [H4 Hr]. cbv beta iota zeta.
  rewrite H3 in H4. exists (st4 =? 0), (with_thread context thread), k4. split; [by destruct (st4 =? 0)|].
  split_and!; try done. intros Hz%Z.eqb_eq. by apply Hr.
Qed.

(** Unregistering gives back the ports. *)
Lemma unregister_registered k context s :
  registered k context -> ports_accepted (originalPorts context) ->
  exists k', FIRCLSMachExceptionUnregister (originalPorts context) (mach_mask context) s = Completes true (with_kernel s k') /\
    (forall i, handled i -> port_restored (exception_port k i) (exception_port k' i)) /\
    (forall i, 0 <= i -> ~ handled i -> exception_port k' i = exception_port (kernel_of s) i).
Proof.
  intros (-> & Hold & Hcov) Hacc.
  destruct (unregister_run (originalPorts context) FIRCLSMachExceptionMask s (exception_port k) Hacc) as (k' & E & Hin & Hout).
  - apply Z.ldiff_diag.
  - intros p Hp i Hi Hb. by destruct (Hold p Hp i Hi Hb) as [[_ ?] ?].
  - intros i Hi Hb. by apply Hcov.
  - exists k'. split; [exact E|]. split; [intros i [Hi Hb]; by apply Hin|]. intros i Hi Hno. apply Hout; [done|].
    destruct (Z.testbit FIRCLSMachExceptionMask i) eqn:Eb; [|done]. exfalso. by apply Hno.
Qed.

Lemma mach_unlink_run path s :
  exists ok k', FIRCLSUnlinkIfExists path s = Completes ok (with_kernel s k') /\
    exception_port k' = exception_port (kernel_of s).
Proof.
  unfold FIRCLSUnlinkIfExists. destruct (sys_unlink path (kernel_of s)) as [status k'] eqn:E.
  erewrite P_bind_run by by apply call_run. pose proof (unlink_keeps_ports _ _ _ _ E).
  destruct (status =? 0); cbn [negb]; [by exists true, k'|by exists (errno k' =? ENOENT), k'].
Qed.

Lemma mach_init_run stack context s :
  ports_live ->
  exists context' k', FIRCLSMachExceptionInit stack context s = Completes context' (with_kernel s k') /\
    (forall i, 0 <= i -> ~ handled i -> exception_port k' i = exception_port (kernel_of s) i) /\
    (registered (kernel_of s) context' /\ running k' (mach_thread context') /\
       (forall i, handled i -> exception_port k' i = crash_port (mach_port context')) \/
     (forall i, handled i -> port_restored (exception_port (kernel_of s) i) (exception_port k' i))).
Proof.
  intros Hlive. unfold FIRCLSMachExceptionInit. destruct (mach_unlink_run (mach_path context) s) as (_ok & k0 & E0 & H0).
  erewrite P_bind_run by exact E0. destruct (mach_register_run context (with_kernel s k0) Hlive) as (ok & c1 & k1 & E1 & H1).
  change (kernel_of (with_kernel s k0)) with k0 in *. erewrite P_bind_run by exact E1. cbv beta iota.
  destruct ok; cbn [negb].
  2: { exists c1, k1. rewrite H1, H0. split; [done|]. split; [done|]. right. intros i _. by left. }
  destruct H1 as (Hreg & Hacc & Hours & Hothers).
  destruct (thread_start_run stack c1 (with_kernel s k1)) as (ok & c2 & k2 & E2 & H2 & Hport & Hmask & Horig & Hrun).
  change (kernel_of (with_kernel (with_kernel s k0) k1)) with k1 in *. change (kernel_of (with_kernel s k1)) with k1 in *.
  erewrite P_bind_run by exact E2. cbv beta iota.
  assert (Hreg2 : registered k0 c2) by (unfold registered in *; by rewrite Hmask, Horig).
  destruct ok; cbn [negb].
  - exists c2, k2. split; [done|]. split; [intros i Hi Hno; by rewrite H2, Hothers, H0|]. left.
    unfold registered in *. rewrite H0 in Hreg2. split; [done|]. split; [by apply Hrun|]. intros i Hi. by rewrite H2, Hport, Hours.
  - rewrite <- Horig in Hacc. destruct (unregister_registered k0 c2 (with_kernel s k2) Hreg2 Hacc) as (k3 & E3 & Hin3 & Hout3).
    change (kernel_of (with_kernel s k2)) with k2 in *. exists c2, k3. erewrite P_bind_run by exact E3.
    rewrite H0 in *. split; [done|]. split; [intros i Hi Hno; by rewrite Hout3, H2, Hothers|]. by right.
Qed.

End Server.

(** How often a thread is suspended. *)
Class SuspendSpec {KN : Kernel} {TS : ThreadState} {MK : Mach} := {
  suspend_count : kernel -> Z -> Z;
  suspend_run thread k status k' : thread_suspend thread k = (status, k') ->
    forall x, suspend_count k' x =
      if (status =? KERN_SUCCESS) && (x =? thread) then suspend_count k x + 1 else suspend_count k x;
  resume_run thread k status k' : thread_resume thread k = (status, k') ->
    forall x, suspend_count k' x =
      if (status =? KERN_SUCCESS) && (x =? thread) then suspend_count k x - 1 else suspend_count k x
}.

Section Suspend.
Context {KN : Kernel} {TS : ThreadState} {MK : Mach} {SP : SuspendSpec}.
Context (process : FIRCLSProcess) (Hcount : threadCount process = Z.of_nat (length (process_threads process))).

(** The threads but the current one. *)
Definition others (threads : list Z) : list Z := filter (fun x => FIRCLSProcessIsCurrentThread process x = false) threads.

Definition times (x : Z) (threads : list Z) : Z := Z.of_nat (length (filter (eq x) threads)).

(** What a loop does to the counts, [step] for each of the threads [done_], up to
    the first of the others for which the service fails. *)
Definition stepped (step : Z) (k k' : kernel) (threads : list Z) (ok : bool) : Prop :=
  exists done_ rest, others threads = done_ ++ rest /\ ok = bool_decide (rest = []) /\
    forall x, suspend_count k' x = suspend_count k x + step * times x done_.

Lemma others_cons x threads :
  others (x :: threads) = if FIRCLSProcessIsCurrentThread process x then others threads else x :: others threads.
Proof. unfold others. rewrite filter_cons. by destruct (FIRCLSProcessIsCurrentThread process x). Qed.

(** After a failure no other thread is suspended or resumed. *)
Lemma other_threads_failed before todo service s :
  process_threads process = before ++ todo ->
  other_threads_loop (length todo) process (Z.of_nat (length before)) service false s = Completes false s.
Proof.
  revert before. induction todo as [|thread todo IH]; intros before Hp; [done|]. cbn [length other_threads_loop].
  erewrite P_bind_run by by eapply get_thread_run. rewrite (next_index before thread).
  erewrite P_bind_run; [apply IH; by rewrite Hp, <- app_assoc|]. by destruct (FIRCLSProcessIsCurrentThread process thread).
Qed.

Lemma times_cons x y threads : times x (y :: threads) = (if x =? y then 1 else 0) + times x threads.
Proof.
  unfold times. rewrite filter_cons. destruct (Z.eqb_spec x y) as [->|Hne].
  - rewrite decide_True by done. cbn [length]. lia.
  - by rewrite decide_False.
Qed.

Lemma other_threads_loop_run step service before todo s :
  (forall thread k status k', service thread k = (status, k') -> forall x, suspend_count k' x =
     if (status =? KERN_SUCCESS) && (x =? thread) then suspend_count k x + step else suspend_count k x) ->
  process_threads process = before ++ todo ->
  exists ok k', other_threads_loop (length todo) process (Z.of_nat (length before)) service true s =
      Completes ok (with_kernel s k') /\ stepped step (kernel_of s) k' todo ok.
Proof.
  intros Hserv. revert before s. induction todo as [|thread todo IH]; intros before s Hp.
  { exists true, (kernel_of s). split; [by destruct s as [? ? []]|]. exists [], []. split; [done|]. split; [done|].
    intros x. unfold times. cbn. lia. }
  cbn [length other_threads_loop]. erewrite P_bind_run by by eapply get_thread_run.
  assert (Hp' : process_threads process = (before ++ [thread]) ++ todo) by by rewrite Hp, <- app_assoc.
  rewrite (next_index before thread). unfold stepped. rewrite others_cons.
  destruct (FIRCLSProcessIsCurrentThread process thread).
  { erewrite P_bind_run by done. by apply IH. }
  destruct (service thread (kernel_of s)) as [status k1] eqn:E. pose proof (Hserv _ _ _ _ E) as Hcnt.
  erewrite (P_bind_run _ _ _ (status =? KERN_SUCCESS) (with_kernel s k1)) by (by erewrite P_bind_run by by apply call_run).
  destruct (status =? KERN_SUCCESS); cbn [andb] in Hcnt.
  - destruct (IH (before ++ [thread]) (with_kernel s k1) Hp') as (ok & k2 & E2 & done_ & rest & Eo & Eok & Hx).
    exists ok, k2. split; [exact E2|]. exists (thread :: done_), rest. split; [by rewrite Eo|]. split; [done|].
    intros x. rewrite Hx. change (kernel_of (with_kernel s k1)) with k1. rewrite Hcnt, times_cons.
    destruct (x =? thread); lia.
  - exists false, k1. split; [by apply other_threads_failed|]. exists [], (thread :: others todo).
    split; [done|]. split; [done|]. intros x. rewrite Hcnt. unfold times. cbn. lia.
Qed.

End Suspend.
