(* ===== verification/RunSpec.v ===== *)
(** No step of a report clears the flag of a crash, so that a second one exits; and
    the whole handlers: what they do before and after a report, which changes neither
    files nor threads, as a calculus of computations that keep a relation of kernels;
    one round of the server of Mach exceptions. *)
From S2P Require Import Prelude Memory DwarfData ThreadState DwarfSafety CompactUnwind Unwind UnwindSafety.
From S2P Require Import UnwindTheorems File FileFormat FileSpec FileFormatSpec FileJson Crash Process.
From S2P Require Import CrashSpec Redact ProcessInfo ProcessInfoSpec Handler HandlerSpec Signal MachException.
From S2P Require Import ReportSpec RestoreSpec.

(** ** Computations that keep the flag *)

Definition crashed {KN : Kernel} (s : crash_state) : option bool := crashOccurred <$> the_writable s.

Definition keeps {KN : Kernel} {A} (m : P A) : Prop := forall s,
  match m s with Completes _ s' | Exits _ s' => crashed s' = crashed s | _ => True end.

Create HintDb crash.

Section Keeps.
Context {KN : Kernel}.

Lemma keeps_mret {A} (a : A) : keeps (mret a).
Proof. done. Qed.

Lemma keeps_bind {A B} (m : P A) (k : A -> P B) : keeps m -> (forall a, keeps (k a)) -> keeps (m ≫= k).
Proof.
  intros Hm Hk s. unfold mbind, P_bind. specialize (Hm s). destruct (m s) as [a s1| | |]; try done.
  specialize (Hk a s1). destruct (k a s1); try done; by rewrite <- Hm.
Qed.

Lemma keeps_in_memory {A} (m : M A) : keeps (in_memory m).
Proof. intros s. unfold in_memory. by destruct (m _). Qed.

Lemma keeps_to_file {A} (m : F A) : keeps (to_file m).
Proof. intros s. unfold to_file. by destruct (m _). Qed.

Lemma keeps_defined {A} (o : option A) : keeps (defined o).
Proof. by destruct o. Qed.

Lemma keeps_starves {A} : keeps (starves : P A).
Proof. done. Qed.

Lemma keeps_faults {A} : keeps (faults : P A).
Proof. done. Qed.

Lemma keeps_get_log_level : keeps get_log_level.
Proof. intros s. unfold get_log_level, mbind, P_bind, get_writable. by destruct (the_writable s). Qed.

Lemma keeps_set_log_level level : keeps (set_log_level level).
Proof.
  intros [w [wr|] fs]; [|done]. done.
Qed.

Lemma keeps_with_local_file {A} (m : P A) : keeps m -> keeps (with_local_file m).
Proof. intros Hm s. unfold with_local_file. specialize (Hm (CrashState (the_world s) (the_writable s)
  (FileState (Some local_file) (the_kernel (the_files s))))). by destruct (m _). Qed.

End Keeps.

#[export] Hint Resolve keeps_mret keeps_in_memory keeps_to_file keeps_defined keeps_starves keeps_faults
  keeps_get_log_level keeps_set_log_level keeps_with_local_file : crash.

(** Goes through the calls of a computation and the cases of its conditions. *)
Ltac keeps_calls :=
  repeat first
    [ progress intros
    | solve [eauto with crash nocore]
    | apply keeps_bind
    | apply keeps_with_local_file
    | match goal with
      | |- keeps (match ?x with _ => _ end) => destruct x
      | |- keeps (let '_ := ?x in _) => destruct x
      end
    | progress cbv beta zeta ].

Section Process.
Context {KN : Kernel} {TS : ThreadState} {MK : Mach} {RA : RecordArch} {SI : SystemInfo} {SA : SelectorArch}.
Context {CE : CompactEncoding} {VM : VmRead} {UA : UnwindArch}.
Context (images : image_table) (garbage : thread_context).

Lemma keeps_ask {A} (q : kernel -> A) : keeps (ask q).
Proof. apply keeps_to_file. Qed.

Lemma keeps_call {A} (q : kernel -> A * kernel) : keeps (call q).
Proof. apply keeps_to_file. Qed.

Hint Resolve keeps_ask keeps_call : crash.

Lemma keeps_get_thread process i : keeps (FIRCLSProcessGetThread process i).
Proof. unfold FIRCLSProcessGetThread. keeps_calls. Qed.

Hint Resolve keeps_get_thread : crash.

Lemma keeps_init process crashedThread uapVoid : keeps (FIRCLSProcessInit process crashedThread uapVoid).
Proof. unfold FIRCLSProcessInit. keeps_calls. Qed.

Lemma keeps_other_threads rounds process i service b : keeps (other_threads_loop rounds process i service b).
Proof. revert i b. induction rounds as [|rounds IH]; intros i b; cbn [other_threads_loop]; keeps_calls. Qed.

Lemma keeps_thread_state process thread context : keeps (FIRCLSProcessGetThreadState process thread context).
Proof. unfold FIRCLSProcessGetThreadState. keeps_calls. Qed.

Lemma keeps_stacktrace fuel level c pc count : keeps (stacktrace_loop images fuel level c pc count).
Proof. revert c pc count. induction fuel as [|fuel IH]; intros c pc count; cbn [stacktrace_loop]; keeps_calls. Qed.

Hint Resolve keeps_init keeps_other_threads keeps_thread_state keeps_stacktrace : crash.

Lemma keeps_record_thread process thread : keeps (FIRCLSProcessRecordThread images process thread garbage).
Proof. unfold FIRCLSProcessRecordThread. keeps_calls. Qed.

Hint Resolve keeps_record_thread : crash.

Lemma keeps_record_threads rounds process i : keeps (record_threads_loop images garbage rounds process i).
Proof. revert i. induction rounds as [|rounds IH]; intros i; cbn [record_threads_loop]; keeps_calls. Qed.

Hint Resolve keeps_record_threads : crash.

Lemma keeps_string_bytes s : keeps (string_bytes s).
Proof. destruct s; cbn [string_bytes]; keeps_calls. Qed.

Lemma keeps_thread_name thread buffer : keeps (FIRCLSProcessGetThreadName thread buffer).
Proof. unfold FIRCLSProcessGetThreadName. keeps_calls. Qed.

Lemma keeps_queue_name thread : keeps (FIRCLSProcessGetThreadDispatchQueueName thread).
Proof. unfold FIRCLSProcessGetThreadDispatchQueueName. keeps_calls. Qed.

Hint Resolve keeps_string_bytes keeps_thread_name keeps_queue_name : crash.

Lemma keeps_thread_names rounds process i : keeps (thread_names_loop rounds process i).
Proof. revert i. induction rounds as [|rounds IH]; intros i; cbn [thread_names_loop]; keeps_calls. Qed.

Lemma keeps_queue_names rounds process i : keeps (queue_names_loop rounds process i).
Proof. revert i. induction rounds as [|rounds IH]; intros i; cbn [queue_names_loop]; keeps_calls. Qed.

Lemma keeps_time time : keeps (time_microseconds time).
Proof. unfold time_microseconds, int_value. keeps_calls. Qed.

Lemma keeps_selector context : keeps (FIRCLSProcessGetObjCSelectorName context).
Proof. unfold FIRCLSProcessGetObjCSelectorName. keeps_calls. Qed.

Lemma keeps_crash_info node : keeps (record_crash_info node).
Proof. unfold record_crash_info. keeps_calls. Qed.

Hint Resolve keeps_thread_names keeps_queue_names keeps_time keeps_selector keeps_crash_info : crash.

Lemma keeps_crash_infos nodes : keeps (crash_info_loop nodes).
Proof. induction nodes as [|node nodes IH]; cbn [crash_info_loop]; keeps_calls. Qed.

Hint Resolve keeps_crash_infos : crash.

Lemma keeps_handler readonly crashedThread uapVoid : keeps (FIRCLSHandler images garbage readonly crashedThread uapVoid).
Proof.
  unfold FIRCLSHandler, FIRCLSProcessSuspendAllOtherThreads, FIRCLSProcessRecordAllThreads, FIRCLSProcessRecordRuntimeInfo,
    FIRCLSProcessRecordDispatchQueueNames, FIRCLSProcessRecordThreadNames, FIRCLSProcessRecordStats,
    FIRCLSProcessGetMemoryUsage, FIRCLSProcessGetInfo, FIRCLSHostWriteDiskUsage, FIRCLSCreateCrashedMarkerFile,
    FIRCLSProcessResumeAllOtherThreads, FIRCLSProcessRecordCrashInfo.
  keeps_calls.
Qed.

End Process.

#[export] Hint Resolve keeps_ask keeps_call keeps_handler : crash.

(** ** The two ways to record a crash *)

Inductive crash_record :=
  | BySignal (savedErrno info uapVoid : Z)
  | ByException (context : FIRCLSMachExceptionReadContext) (message : MachExceptionMessage).

Section Once.
Context {KN : Kernel} {TS : ThreadState} {MK : Mach} {RA : RecordArch} {SI : SystemInfo} {SA : SelectorArch}.
Context {CE : CompactEncoding} {VM : VmRead} {UA : UnwindArch} {SG : Signals} {MP : MachPorts}.
Context (images : image_table) (garbage : thread_context) (readonly : FIRCLSReadOnlyContext).
Context (Hinit : initialized readonly = true).

Definition record_crash (h : crash_record) : P unit :=
  match h with
  | BySignal savedErrno info uapVoid => FIRCLSSignalRecordSignal images garbage (Some readonly) savedErrno info uapVoid
  | ByException context message =>
      FIRCLSMachExceptionRecord images garbage readonly (Some context) (Some message);; mret tt
  end.

Lemma mark_again s :
  crashed s = Some true -> FIRCLSContextMarkAndCheckIfCrashed (Some readonly) s = Completes true s.
Proof.
  destruct s as [w [[level flag]|] fs]; [|done]. intros [= ->]. unfold FIRCLSContextMarkAndCheckIfCrashed.
  cbn [FIRCLSContextIsInitialized]. by rewrite Hinit.
Qed.

Lemma mark_first s b s' :
  FIRCLSContextMarkAndCheckIfCrashed (Some readonly) s = Completes b s' -> crashed s' = Some true.
Proof.
  destruct s as [w [[level flag]|] fs]; unfold FIRCLSContextMarkAndCheckIfCrashed; cbn [FIRCLSContextIsInitialized];
    rewrite Hinit; [|done]. by destruct flag; intros [= <- <-].
Qed.

Lemma keeps_signal_section savedErrno info : keeps (record_signal_section savedErrno info).
Proof. unfold record_signal_section. keeps_calls. Qed.

Lemma keeps_codes rounds message i : keeps (record_codes_loop rounds message i).
Proof. revert i. induction rounds as [|rounds IH]; intros i; cbn [record_codes_loop]; keeps_calls. Qed.

Hint Resolve keeps_signal_section keeps_codes : crash.

Lemma keeps_exception_section context message : keeps (record_exception_section context message).
Proof. unfold record_exception_section. keeps_calls. Qed.

Hint Resolve keeps_exception_section : crash.

(** Behind the check the flag stays. *)
Lemma marked_keeps {A} (m : P A) s a s' :
  keeps m -> (crashed_before ← FIRCLSContextMarkAndCheckIfCrashed (Some readonly);
              if crashed_before : bool then exit_process 1 else m) s = Completes a s' ->
  crashed s' = Some true.
Proof.
  intros Hm. unfold mbind, P_bind. destruct (FIRCLSContextMarkAndCheckIfCrashed _ s) as [b s1| | |] eqn:E; [|done..].
  apply mark_first in E. destruct b; [done|]. intros Ea. specialize (Hm s1). by rewrite Ea, E in Hm.
Qed.

Lemma recorded_flag h s s' : record_crash h s = Completes tt s' -> crashed s' = Some true.
Proof.
  destruct h as [savedErrno info uapVoid|context message]; cbn [record_crash].
  - intros E. eapply marked_keeps; [|exact E]. keeps_calls.
  - unfold mbind at 1, P_bind at 1. destruct (FIRCLSMachExceptionRecord _ _ _ _ _ s) as [b s1| | |] eqn:E; [|done..].
    intros [= <-]. eapply marked_keeps; [|exact E]. keeps_calls.
Qed.

Lemma recorded_exits h s : crashed s = Some true -> record_crash h s = Exits 1 s.
Proof.
  intros Hc. destruct h; cbn [record_crash]; unfold FIRCLSSignalRecordSignal, FIRCLSMachExceptionRecord;
    unfold mbind, P_bind; by rewrite (mark_again _ Hc).
Qed.

End Once.

(** ** Calls that leave files and threads alone *)

(** Unlike [quiet] this speaks of every file, open or not. *)
Definition silent {KN : Kernel} {KS : KernelSpec} {TS : ThreadState} {MK : Mach} {MS : MachSpec} (k k' : kernel) : Prop :=
  tasks_of k' = tasks_of k /\ (forall d, opened k d -> opened k' d) /\ forall d, contents k' d = contents k d.

(** The calls of the handlers other than those of the report are silent; [errno] is
    a variable. *)
Class HandlerCalls {KN : Kernel} {KS : KernelSpec} {TS : ThreadState} {MK : Mach} {MS : MachSpec} {SG : Signals}
    {AS : ActionsSpec} {MP : MachPorts} {PS : PortsSpec} : Prop := {
  errno_set e k : errno (set_errno e k) = e;
  set_errno_silent e k : silent k (set_errno e k);
  set_errno_actions e k : action_of (set_errno e k) = action_of k;
  unblock_silent k status k' : unblock_all k = (status, k') -> silent k k';
  unblock_actions k status k' : unblock_all k = (status, k') -> action_of k' = action_of k;
  sigaction_silent signal a k r k' : sigaction signal a k = (r, k') -> silent k k';
  sigaltstack_silent stack k r k' : sigaltstack stack k = (r, k') -> silent k k';
  sigaction_ports signal a k r k' : sigaction signal a k = (r, k') -> exception_port k' = exception_port k;
  sigaltstack_ports stack k r k' : sigaltstack stack k = (r, k') -> exception_port k' = exception_port k;
  set_ports_silent mask port behavior flavor k r k' :
    task_set_exception_ports mask port behavior flavor k = (r, k') -> silent k k';
  receive_silent port k message k' : receive_message port k = (message, k') -> silent k k';
  send_silent reply k status k' : send_reply reply k = (status, k') -> silent k k'
}.

#[global] Instance silent_preorder {KN : Kernel} {KS : KernelSpec} {TS : ThreadState} {MK : Mach} {MS : MachSpec} :
  PreOrder silent.
Proof.
  split; [by split|]. intros k1 k2 k3 (E1 & O1 & C1) (E2 & O2 & C2). split; [congruence|].
  split; [intros d Ho; by apply O2, O1|]. intros d. by rewrite C2.
Qed.

(** A change of the kernel that keeps the ports of exceptions. *)
Definition same_ports {KN : Kernel} {SG : Signals} {MP : MachPorts} {PS : PortsSpec} (k k' : kernel) : Prop :=
  exception_port k' = exception_port k.

#[global] Instance same_ports_preorder {KN : Kernel} {SG : Signals} {MP : MachPorts} {PS : PortsSpec} : PreOrder same_ports.
Proof. split; [done|]. intros k1 k2 k3 E1 E2. unfold same_ports in *. congruence. Qed.

(** *** Computations whose calls follow a relation *)

Section Tracks.
Context {KN : Kernel} (R : kernel -> kernel -> Prop) `{!PreOrder R}.

Definition tracks {A} (m : P A) : Prop := forall s a s', m s = Completes a s' -> R (kernel_of s) (kernel_of s').

Lemma tracks_ret {A} (a : A) : tracks (mret a).
Proof. by intros s b s' [= <- <-]. Qed.

Lemma tracks_bind {A B} (m : P A) (q : A -> P B) : tracks m -> (forall a, tracks (q a)) -> tracks (m ≫= q).
Proof.
  intros Hm Hq s b s'. unfold mbind, P_bind. destruct (m s) as [a s1| | |] eqn:E; [|done..]. intros Eq.
  transitivity (kernel_of s1); [by eapply Hm|by eapply Hq].
Qed.

Lemma tracks_call {A} (service : kernel -> A * kernel) :
  (forall k a k', service k = (a, k') -> R k k') -> tracks (call service).
Proof.
  intros H [w wr [tf k]] a s'. unfold call, to_file, sys. cbn [the_files the_kernel the_file].
  destruct (service k) as [a' k'] eqn:E. intros [= <- <-]. by eapply H.
Qed.

Lemma tracks_defined {A B} (o : option A) (q : A -> P B) :
  (forall a, o = Some a -> tracks (q a)) -> tracks (defined o ≫= q).
Proof. intros Hq. destruct o as [a|]; [by apply (Hq a)|by intros s b s']. Qed.

(** For a computation of which it is known how it completes. *)
Lemma tracks_run {A} (m : P A) s a k' : tracks m -> m s = Completes a (with_kernel s k') -> R (kernel_of s) k'.
Proof. intros Hm E. by apply Hm in E. Qed.

Context {SG : Signals} {MP : MachPorts}.

Lemma tracks_signals {St} (block : nat -> Z -> St -> P St) signals i st :
  (forall i x st, tracks (block i x st)) -> tracks (handled_signals_loop signals i block st).
Proof.
  intros Hb. revert i st. induction signals as [|x signals IH]; intros i st; cbn [handled_signals_loop]; [apply tracks_ret|].
  apply tracks_bind; [apply Hb|intros st'; apply IH].
Qed.

Context (Hsigaction : forall signal a k r k', sigaction signal a k = (r, k') -> R k k').

Lemma tracks_remove b : tracks (FIRCLSSignalSafeRemoveHandlers b).
Proof.
  apply tracks_signals. intros i x []. destruct (negb b && (x =? SIGABRT)); [apply tracks_ret|].
  apply tracks_bind; [apply tracks_call, Hsigaction|intros _; apply tracks_ret].
Qed.

(** The handler that was there does, if it is called. *)
Definition called_tracks (roContext : FIRCLSSignalReadContext) (signal info uapVoid : Z) : Prop :=
  signal < 0 \/ forall original f k, original ∈ originalActions roContext ->
    function_at (sa_sigaction original) = Some f -> R k (f signal info uapVoid k).

Lemma tracks_restore roContext signal info uapVoid i x success :
  called_tracks roContext signal info uapVoid -> tracks (restore_action roContext signal info uapVoid i x success).
Proof.
  intros Hf. apply tracks_defined. intros original Hin%list_elem_of_lookup_2.
  destruct (sa_sigaction original =? 0); [apply tracks_ret|].
  apply tracks_bind; [apply tracks_call, Hsigaction|intros [status _]; cbv zeta].
  destruct (Z.ltb_spec signal 0) as [|Hpos]; [apply tracks_ret|]. destruct (signal =? x); [|apply tracks_ret].
  apply tracks_bind; [|intros _; apply tracks_ret]. apply tracks_defined. intros f Ef.
  apply tracks_call. intros k [] k' [= <-]. destruct Hf as [|Hf]; [lia|]. by eapply Hf.
Qed.

Lemma tracks_preexisting roContext signal info uapVoid :
  (forall stack k r k', sigaltstack stack k = (r, k') -> R k k') -> called_tracks roContext signal info uapVoid ->
  tracks (FIRCLSSignalSafeInstallPreexistingHandlers roContext signal info uapVoid).
Proof.
  intros Hstack Hf. apply tracks_bind; [apply tracks_remove|intros _]. apply tracks_bind.
  - destruct (negb (ss_sp (originalStack roContext) =? 0)); [|apply tracks_ret].
    apply tracks_bind; [apply tracks_call, Hstack|intros [status _]; apply tracks_ret].
  - intros []; cbn [negb]; [|apply tracks_ret]. apply tracks_signals. intros i x st. by apply tracks_restore.
Qed.

Lemma tracks_unregister ports mask :
  (forall mask port behavior flavor k r k', task_set_exception_ports mask port behavior flavor k = (r, k') -> R k k') ->
  tracks (FIRCLSMachExceptionUnregister ports mask).
Proof.
  intros Hset. apply tracks_bind.
  - revert mask. induction ports as [|p ports IH]; intros mask; cbn [restore_ports_loop]; [apply tracks_ret|].
    apply tracks_bind; [apply tracks_call, Hset|intros _; apply IH].
  - intros mask'. apply tracks_bind; [apply tracks_call, Hset|intros kr; apply tracks_ret].
Qed.

End Tracks.

(** ** The signal handler *)

Section Handlers.
Context {KN : Kernel} {KS : KernelSpec} {TS : ThreadState} {MK : Mach} {MS : MachSpec} {HS : HandlerSystem}.
Context {SI : SystemInfo} {SS : SystemSpec} {RA : RecordArch} {RL : RecordArchLaws} {SA : SelectorArch}.
Context {CE : CompactEncoding} {VM : VmRead} {VMS : DwarfExpressionSpec.VmReadSpec} {UA : UnwindArch}.
Context {TL : ThreadStateLaws} {UL : UnwindArchLaws} {SG : Signals} {SGS : SignalSystem} {AS : ActionsSpec}.
Context {MP : MachPorts} {PS : PortsSpec} {HC : HandlerCalls}.

Lemma ask_run {A} (question : kernel -> A) s : ask question s = Completes (question (kernel_of s)) s.
Proof. by destruct s as [w wr [tf k]]. Qed.

Lemma call_state {A} (service : kernel -> A * kernel) w wr tf k a k' :
  service k = (a, k') ->
  call service (CrashState w wr (FileState tf k)) = Completes a (CrashState w wr (FileState tf k')).
Proof. intros E. by apply (call_run service (CrashState w wr (FileState tf k))). Qed.

(** An argument that is not a valid pointer is taken as null. *)
Definition valid_or_null (p : Z) : Z := if negb (FIRCLSIsValidPointer p) then 0 else p.

Lemma signal_at_or_null w info signal : signal_at w info signal -> signal_at w (valid_or_null info) signal.
Proof. unfold signal_at, valid_or_null. by destruct (FIRCLSIsValidPointer info) eqn:E; cbn [negb]; rewrite ?E. Qed.

(** The actions that were kept are in force again, the default action where none was;
    when the kernel does not take the earlier stack back, the default action everywhere. *)
Definition actions_back (roContext : FIRCLSSignalReadContext) (accepts : bool) (k : kernel) : Prop :=
  forall x, x ∈ FIRCLSFatalSignals -> action_of k x =
    if negb accepts || (sa_sigaction (original_of roContext x) =? 0) then default_action else original_of roContext x.

Lemma preexisting_back roContext signal info uapVoid accepts s :
  length (originalActions roContext) = FIRCLSSignalCount -> harmless roContext signal info uapVoid ->
  called_tracks silent roContext signal info uapVoid -> stack_accepted roContext accepts ->
  exists k', FIRCLSSignalSafeInstallPreexistingHandlers roContext signal info uapVoid s =
      Completes accepts (with_kernel s k') /\ silent (kernel_of s) k' /\ actions_back roContext accepts k'.
Proof.
  intros Hlen Hcall Hf Hstack. destruct (preexisting_run roContext signal info uapVoid (original_of roContext) accepts s)
    as (k' & E & _ & Hin & _); [|done..|].
  { intros j x Hj. destruct (lookup_lt_is_Some_2 (originalActions roContext) j) as [stored Est].
    { rewrite Hlen. by apply lookup_lt_Some in Hj. }
    exists stored. split; [done|]. by eapply original_at. }
  exists k'. split; [exact E|]. split; [|exact Hin].
  eapply tracks_run; [|exact E]. apply (tracks_preexisting silent); [apply sigaction_silent|apply sigaltstack_silent|exact Hf].
Qed.

(** What the handler does before the report. *)
Lemma signal_prologue signal info uapVoid images garbage context w wr outer k :
  exists k1, silent k k1 /\ (forall x, x ∈ FIRCLSFatalSignals -> action_of k1 x = default_action) /\
    FIRCLSSignalHandler images garbage (Some context) signal info uapVoid (CrashState w (Some wr) (FileState outer k)) =
    (FIRCLSSignalRecordSignal images garbage (Some context) (errno k) (valid_or_null info) (valid_or_null uapVoid);;
     FIRCLSSignalSafeInstallPreexistingHandlers (signal_context context) signal (valid_or_null info) (valid_or_null uapVoid);;
     call (fun k' => (tt, set_errno (errno k) k'))) (CrashState w (Some wr) (FileState outer k1)).
Proof.
  pose (k0 := set_errno 0 k). pose (s0 := CrashState w (Some wr) (FileState outer k0)).
  destruct (remove_handlers_run s0) as (k1 & E1 & Hin1 & _ & _).
  destruct (unblock_all k1) as [status k2] eqn:E2. exists k2. split; [|split].
  - transitivity k0; [apply set_errno_silent|]. transitivity k1; [|by eapply unblock_silent].
    change k0 with (kernel_of s0). eapply tracks_run; [|exact E1]. apply (tracks_remove silent), sigaction_silent.
  - intros x Hx. rewrite (unblock_actions _ _ _ E2). by apply Hin1.
  - unfold FIRCLSSignalHandler. erewrite P_bind_run by apply ask_run. change (kernel_of _) with k.
    erewrite P_bind_run by by apply call_state. erewrite P_bind_run by exact E1. unfold with_kernel.
    erewrite P_bind_run by by apply call_state. cbv beta zeta. unfold s0. cbn [the_world the_writable the_files the_file].
    unfold mbind, P_bind. destruct (FIRCLSSignalRecordSignal _ _ _ _ _ _ _) as [[] s1| | |]; [|done..].
    by destruct (FIRCLSSignalSafeInstallPreexistingHandlers _ _ _ _ s1).
Qed.

(** What it does behind the report. *)
Lemma signal_epilogue roContext signal info uapVoid e accepts s :
  length (originalActions roContext) = FIRCLSSignalCount -> harmless roContext signal info uapVoid ->
  called_tracks silent roContext signal info uapVoid -> stack_accepted roContext accepts ->
  exists k', (FIRCLSSignalSafeInstallPreexistingHandlers roContext signal info uapVoid;;
      call (fun k => (tt, set_errno e k))) s = Completes tt (with_kernel s k') /\
    silent (kernel_of s) k' /\ errno k' = e /\ actions_back roContext accepts k'.
Proof.
  intros Hlen Hcall Hf Hst. destruct (preexisting_back roContext signal info uapVoid accepts s Hlen Hcall Hf Hst) as (k1 & E & Hs & Hb).
  exists (set_errno e k1). erewrite P_bind_run by exact E.
  split; [by apply (call_run _ (with_kernel s k1))|]. split; [transitivity k1; [exact Hs|apply set_errno_silent]|]. split; [apply errno_set|].
  intros x Hx. rewrite set_errno_actions. by apply Hb.
Qed.

(** When the file of the report cannot be opened, only the flag of the crash is set. *)
Lemma record_signal_unopened images garbage context path savedErrno info uapVoid w wr outer k d k1 :
  initialized context = true -> crashOccurred wr = false -> signal_path (signal_context context) = Some path ->
  sys_open path append_mask k = (d, k1) -> d < 0 ->
  FIRCLSSignalRecordSignal images garbage (Some context) savedErrno info uapVoid (CrashState w (Some wr) (FileState outer k)) =
  Completes tt (CrashState w (Some (ReadWriteContext (logLevel wr) true)) (FileState outer k1)).
Proof.
  intros Hi Hcr Hpath Eo Hd. unfold FIRCLSSignalRecordSignal. erewrite P_bind_run by by apply mark_run. rewrite Hcr, Hpath.
  unfold with_local_file. cbn [the_files the_file the_kernel the_world the_writable].
  destruct (to_file_run _ w (Some (ReadWriteContext (logLevel wr) true)) _ _ (init_path_run (Some path) local_file k))
    as (ok & [tf k1'] & E & d' & Ho & -> & _). cbn [the_kernel] in Ho.
  destruct Ho as [(? & _)|(p & [= <-] & Eo')]; [done|]. rewrite Eo in Eo'. injection Eo' as <- <-.
  erewrite P_bind_run by exact E. by rewrite (proj2 (Z.leb_gt 0 d)).
Qed.

Lemma record_exception_unopened images garbage readonly context path message w wr outer k d k1 :
  initialized readonly = true -> crashOccurred wr = false -> mach_path context = Some path ->
  sys_open path append_mask k = (d, k1) -> d < 0 ->
  FIRCLSMachExceptionRecord images garbage readonly (Some context) (Some message) (CrashState w (Some wr) (FileState outer k)) =
  Completes false (CrashState w (Some (ReadWriteContext (logLevel wr) true)) (FileState outer k1)).
Proof.
  intros Hi Hcr Hpath Eo Hd. unfold FIRCLSMachExceptionRecord. erewrite P_bind_run by by apply mark_run. rewrite Hcr, Hpath.
  unfold with_local_file. cbn [the_files the_file the_kernel the_world the_writable].
  destruct (to_file_run _ w (Some (ReadWriteContext (logLevel wr) true)) _ _ (init_path_run (Some path) local_file k))
    as (ok & [tf k1'] & E & d' & Ho & -> & _). cbn [the_kernel] in Ho.
  destruct Ho as [(? & _)|(p & [= <-] & Eo')]; [done|]. rewrite Eo in Eo'. injection Eo' as <- <-.
  erewrite P_bind_run by exact E. by rewrite (proj2 (Z.leb_gt 0 d)).
Qed.

(** What the server does with an exception of its process before the report. *)
Lemma exception_prologue images garbage readonly context message registered_in accepts w wr outer k :
  message_task message = mach_task_self -> registered registered_in context -> ports_accepted (originalPorts context) ->
  length (originalActions (signal_context readonly)) = FIRCLSSignalCount -> stack_accepted (signal_context readonly) accepts ->
  exists k1, silent k k1 /\ actions_back (signal_context readonly) accepts k1 /\
    (forall i, handled i -> port_restored (exception_port registered_in i) (exception_port k1 i)) /\
    FIRCLSMachExceptionDispatchMessage images garbage readonly context message (CrashState w wr (FileState outer k)) =
    (if accepts : bool then
       ok ← FIRCLSMachExceptionRecord images garbage readonly (Some context) (Some message);
       mret (if negb ok then KERN_FAILURE else KERN_SUCCESS)
     else mret KERN_FAILURE) (CrashState w wr (FileState outer k1)).
Proof.
  intros Htask Hreg Hacc Hlen Hst. pose (s0 := CrashState w wr (FileState outer k)).
  destruct (unregister_registered registered_in context s0 Hreg Hacc) as (k1 & E1 & Hports & _).
  destruct (preexisting_back (signal_context readonly) (-1) 0 0 accepts (with_kernel s0 k1) Hlen) as (k2 & E2 & Hs2 & Hback);
    [by left..|exact Hst|]. change (kernel_of (with_kernel s0 k1)) with k1 in *.
  assert (Hsame : same_ports k1 k2).
  { change k1 with (kernel_of (with_kernel s0 k1)). eapply tracks_run; [|exact E2].
    apply (tracks_preexisting same_ports); [apply sigaction_ports|apply sigaltstack_ports|by left]. }
  exists k2. split.
  { transitivity k1; [|exact Hs2]. change k with (kernel_of s0). eapply tracks_run; [|exact E1].
    apply (tracks_unregister silent), set_ports_silent. }
  split; [exact Hback|]. split; [by intros i Hi; rewrite Hsame; apply Hports|].
  unfold FIRCLSMachExceptionDispatchMessage. rewrite Htask, Z.eqb_refl. cbn [negb].
  erewrite P_bind_run by exact E1. cbn [negb]. erewrite P_bind_run by exact E2. by destruct accepts.
Qed.

(** The reply to a message. *)
Definition reply_to (message : MachExceptionMessage) (result : Z) : MachExceptionReply :=
  MachReply (MACH_MSGH_BITS (MACH_MSGH_BITS_REMOTE (msgh_bits message)) 0) (msgh_remote_port message) (msgh_id message + 100) result.

(** A round of the server, for a message that is handled with [result]. *)
Lemma server_round images garbage readonly rounds context message result s k0 s1 :
  receive_message (mach_port context) (kernel_of s) = (Some message, k0) ->
  FIRCLSMachExceptionDispatchMessage images garbage readonly context message (with_kernel s k0) = Completes result s1 ->
  exists status k2, send_reply (reply_to message result) (kernel_of s1) = (status, k2) /\
    FIRCLSMachExceptionServer images garbage readonly (S rounds) context s =
    (if status =? 0 then FIRCLSMachExceptionServer images garbage readonly rounds context else mret tt) (with_kernel s1 k2).
Proof.
  intros Er Ed. destruct (send_reply (reply_to message result) (kernel_of s1)) as [status k2] eqn:Es. exists status, k2.
  split; [done|]. cbn [FIRCLSMachExceptionServer]. unfold FIRCLSMachExceptionReadMessage.
  erewrite P_bind_run by by apply call_run. cbv beta iota. erewrite P_bind_run by exact Ed. unfold FIRCLSMachExceptionReply.
  erewrite (P_bind_run _ _ s1 (status =? 0)); [by destruct (status =? 0)|].
  cbv zeta. by erewrite P_bind_run by (apply call_run; exact Es).
Qed.

End Handlers.
