(* ===== verification/CrashMachine.v ===== *)
(** A concrete system for the examples of the crash handlers: files by path, an
    action for every signal, a port for every kind of exception, counts of
    suspensions, messages that wait and replies that were sent, and a process of three
    threads on ARM64, one of which the kernel does not give the registers of. *)
From S2P Require Import Prelude Memory DwarfData ThreadState Arm64State CompactUnwind Unwind File FileFormat FileSpec FileJson.
From S2P Require Import DwarfTheorems UnwindTheorems FileTheorems.
From S2P Require Import Crash Process CrashSpec ProcessInfo ProcessInfoSpec ArchProcess Handler HandlerSpec.
From S2P Require Import Signal ReportSpec MachException RestoreSpec RunSpec.

#[local] Existing Instance arm64.

(** ** Files *)

Record machine := Machine {
  m_files : gmap (list Z) (list Z);
  m_paths : gmap Z (list Z);
  m_open : gset Z;
  m_actions : gmap Z sig_action;
  m_stack : alt_stack;
  m_ports : gmap Z (Z * Z * Z);
  m_suspended : gmap Z Z;
  m_errno : Z;
  m_inbox : list MachExceptionMessage;
  m_sent : list MachExceptionReply
}.

Definition path_of (k : machine) (d : Z) : list Z := default [] (m_paths k !! d).
Definition content (k : machine) (d : Z) : list Z := default [] (m_files k !! path_of k d).

Definition with_files (k : machine) (files : gmap (list Z) (list Z)) : machine :=
  Machine files (m_paths k) (m_open k) (m_actions k) (m_stack k) (m_ports k) (m_suspended k) (m_errno k) (m_inbox k) (m_sent k).
Definition with_opened (k : machine) (paths : gmap Z (list Z)) (opened : gset Z) : machine :=
  Machine (m_files k) paths opened (m_actions k) (m_stack k) (m_ports k) (m_suspended k) (m_errno k) (m_inbox k) (m_sent k).
Definition with_actions (k : machine) (actions : gmap Z sig_action) (stack : alt_stack) : machine :=
  Machine (m_files k) (m_paths k) (m_open k) actions stack (m_ports k) (m_suspended k) (m_errno k) (m_inbox k) (m_sent k).
Definition with_ports_of (k : machine) (ports : gmap Z (Z * Z * Z)) : machine :=
  Machine (m_files k) (m_paths k) (m_open k) (m_actions k) (m_stack k) ports (m_suspended k) (m_errno k) (m_inbox k) (m_sent k).
Definition with_suspended (k : machine) (suspended : gmap Z Z) : machine :=
  Machine (m_files k) (m_paths k) (m_open k) (m_actions k) (m_stack k) (m_ports k) suspended (m_errno k) (m_inbox k) (m_sent k).

Definition with_errno (k : machine) (e : Z) : machine :=
  Machine (m_files k) (m_paths k) (m_open k) (m_actions k) (m_stack k) (m_ports k) (m_suspended k) e (m_inbox k) (m_sent k).
Definition with_mail (k : machine) (inbox : list MachExceptionMessage) (sent : list MachExceptionReply) : machine :=
  Machine (m_files k) (m_paths k) (m_open k) (m_actions k) (m_stack k) (m_ports k) (m_suspended k) (m_errno k) inbox sent.

(** There are two descriptors. *)
Definition phone_open (path : list Z) (mask : Z) (k : machine) : Z * machine :=
  let use d := (d, with_opened k (<[d := path]> (m_paths k)) ({[d]} ∪ m_open k)) in
  if bool_decide (3 ∈ m_open k) then if bool_decide (4 ∈ m_open k) then (-1, k) else use 4 else use 3.

(** A write transfers at most 30 bytes. *)
Definition phone_write (d : Z) (bs : list Z) (k : machine) : Z * machine :=
  let n := Z.min (Z.of_nat (length bs)) 30 in
  (n, with_files k (<[path_of k d := content k d ++ take (Z.to_nat n) bs]> (m_files k))).

#[global] Instance phone : Kernel := {|
  kernel := machine;
  O_WRONLY := 1;
  O_CREAT := 0x200;
  O_APPEND := 8;
  O_TRUNC := 0x400;
  sys_open := phone_open;
  sys_size d k := Z.of_nat (length (content k d));
  sys_write := phone_write;
  sys_close d k := (0, with_opened k (m_paths k) (m_open k ∖ {[d]}));
  sys_malloc n k := (Some (replicate (Z.to_nat n) 0), k);
  uninit n := replicate n 0xAA
|}.

#[global] Instance phone_spec : KernelSpec.
Proof.
  refine (Build_KernelSpec phone content _ _ _ _ _ _).
  - intros d bs k n k' [= <- <-]. split; [lia|]. unfold content, with_files, path_of. cbn. by rewrite lookup_insert_eq.
  - intros n k block k' Hn [= <- <-]. rewrite length_replicate. lia.
  - by intros n k block k' d [= <- <-].
  - done.
  - by intros d k st k' d' [= <- <-].
  - intros n. apply length_replicate.
Defined.

Lemma phone_progress : progress 30.
Proof. intros d bs k n k' [= <- <-]. lia. Qed.

(** ** Threads *)

(** The current thread crashed while it sent the message length. *)
Definition crash_regs : thread_context :=
  ThreadContext (0 :: 0x903000 :: replicate 27 0) 0x600000 0 0x600000 0x500010 0.

#[global] Instance phone_mach : Mach := {|
  tasks := unit;
  tasks_of (_ : kernel) := tt;
  MACH_PORT_INDEX port := Z.shiftr port 8;
  mach_task_self := 0x103;
  mach_thread_self _ := 0x203;
  task_threads _ _ := (0, [0x203; 0x303; 0x403]);
  thread_suspend thread k :=
    (0, with_suspended k (<[thread := default 0 (m_suspended k !! thread) + 1]> (m_suspended k)));
  thread_resume thread k :=
    (0, with_suspended k (<[thread := default 0 (m_suspended k !! thread) - 1]> (m_suspended k)));
  thread_get_state thread _ := if thread =? 0x303 then (0, loop_regs) else (4, loop_regs);
  pthread_from_mach_thread_np thread _ := thread;
  pthread_getname_np thread buffer _ := (0, (if thread =? 0x203 then chars "main" else []) ++ 0 :: drop 5 buffer);
  thread_info_dispatch_qaddr thread _ := (0, if thread =? 0x203 then 0x901000 else 0);
  dispatch_queue_get_label queue := mret (queue + 16);
  ucontext_state _ := mret crash_regs
|}.

#[global] Instance phone_mach_spec : MachSpec.
Proof.
  refine (Build_MachSpec phone arm64 phone_mach (fun k d => d ∈ m_open k) _ _).
  - by intros d bs k n k' [= <- <-].
  - intros p w context w' E. unfold ucontext_state in E. cbn in E. by injection E.
Defined.

#[global] Instance phone_handlers : HandlerSystem.
Proof.
  split.
  - intros path k d k' E. cbn in E. unfold phone_open in E.
    destruct (bool_decide_reflect (3 ∈ m_open k)) as [H3|H3]; [destruct (bool_decide_reflect (4 ∈ m_open k)) as [H4|H4]|];
      injection E as <- <-; [by split|..];
      (split; [split; [done|]; intros d Hd; split; [cbn; set_solver|]|cbn; set_solver]);
      unfold contents, phone_spec, content, path_of; cbn; rewrite lookup_insert_ne by (intros <-; by apply H4 || by apply H3); done.
  - intros d k status k' [= <- <-]. split; [done|]. intros d' Hne Hd. cbn in *. set_solver.
  - by intros thread k status k' [= <- <-].
  - by intros thread k status k' [= <- <-].
Qed.

#[global] Instance phone_info : SystemInfo := {|
  host_statistics k := (Some (VmStatistics 100 200 300 400), k);
  task_info _ k := (Some (TaskInfo 5000000 4000000 (TimeValue 3 500000) (TimeValue 1 250000)), k);
  sys_statfs _ k := (Some (FileSystem 1000 2000 4096), k)
|}.

#[global] Instance phone_info_spec : SystemSpec.
Proof.
  split.
  - by intros k r k' [= <- <-].
  - by intros task k r k' [= <- <-].
  - intros task k i k' [= <- <-]. cbn. lia.
  - by intros path k r k' [= <- <-].
Qed.

Lemma phone_times : cpu_times_fit.
Proof. intros task k i k' [= <- <-]. unfold time_fits. cbn. lia. Qed.

#[global] Instance phone_runtime : ObjCRuntime := {|
  objc_msgSend := 0x500000;
  objc_msgSendSuper := 0;
  objc_msgSend_stret := 0;
  objc_msgSendSuper_stret := 0;
  objc_msgSend_fpret := 0
|}.

#[global] Instance phone_records : RecordArch := arm64_records 0x600000 0 0x500010.
#[global] Instance phone_records_laws : RecordArchLaws := arm64_records_laws 0x600000 0 0x500010.
#[global] Instance phone_selectors : SelectorArch := arm64_selectors.

(** ** Signals *)

Definition phone_sigaction (signal : Z) (action : option sig_action) (k : machine) : (Z * sig_action) * machine :=
  let before := default (SigAction 0 0 0) (m_actions k !! signal) in
  ((0, before), match action with Some a => with_actions k (<[signal := a]> (m_actions k)) (m_stack k) | None => k end).

(** The numbers of the system. *)
#[global] Instance phone_signals : Signals := {|
  SIGABRT := 6;
  SIGBUS := 10;
  SIGFPE := 8;
  SIGILL := 4;
  SIGSEGV := 11;
  SIGSYS := 12;
  SIGTRAP := 5;
  SA_SIGINFO := 0x40;
  SA_ONSTACK := 1;
  SIGSTKSZ := 131072;
  ENOENT := 2;
  empty_mask := 0;
  uninit_flags := 0xAA;
  signal_handler_address := 0x510000;
  sigaction := phone_sigaction;
  sigaltstack stack k := ((0, m_stack k), with_actions k (m_actions k) stack);
  unblock_all k := (0, k);
  sys_unlink _ k := (-1, with_errno k 2);
  errno := m_errno;
  set_errno e k := with_errno k e;
  sys_time k := (1600000000, k);
  siginfo_at _ := mret (11, 1, 0x18);
  function_at address := if address =? 0x520000 then Some (fun _ _ _ k => k) else None
|}.

#[global] Instance phone_signal_system : SignalSystem.
Proof. split. by intros k time k' [= <- <-]. Qed.

#[global] Instance phone_actions : ActionsSpec.
Proof.
  refine (Build_ActionsSpec phone phone_signals (fun k signal => default (SigAction 0 0 0) (m_actions k !! signal)) m_stack _ _ _ _).
  - intros signal a k _. eexists. split; [done|]. split; [|done]. intros s. cbn.
    destruct (Z.eqb_spec s signal) as [->|Hne]; [by rewrite lookup_insert_eq|by rewrite lookup_insert_ne].
  - by intros new k status old k' [= <- <- <-].
  - by intros path k status k' [= <- <-].
  - by apply (bool_decide_unpack _).
Defined.

(** ** Ports *)

Definition no_port : Z * Z * Z := (0, 0, 0).
Definition port_of (k : machine) (i : Z) : Z * Z * Z := default no_port (m_ports k !! i).

Definition set_bits (l : list Z) (mask : Z) (v : Z * Z * Z) (m : gmap Z (Z * Z * Z)) : gmap Z (Z * Z * Z) :=
  foldr (fun i m => if Z.testbit mask i then <[i := v]> m else m) m l.

Lemma set_bits_lookup l mask v m i :
  set_bits l mask v m !! i = if bool_decide (i ∈ l) && Z.testbit mask i then Some v else m !! i.
Proof.
  induction l as [|j l IH]; [done|]. cbn [set_bits foldr]. fold (set_bits l mask v m).
  destruct (Z.testbit mask j) eqn:Ej; (destruct (decide (i = j)) as [->|Hne];
    [|rewrite (bool_decide_ext (i ∈ j :: l) (i ∈ l)) by (rewrite elem_of_cons; split; [by intros [?|?]|by right]); rewrite ?lookup_insert_ne; done]).
  - by rewrite lookup_insert_eq, bool_decide_true, Ej by left.
  - by rewrite IH, Ej, !andb_false_r.
Qed.

(** Masks have 32 bits. *)
Definition valid_mask (mask : Z) : bool := (0 <=? mask) && (mask <? 2 ^ 32).

Definition phone_set (mask port behavior flavor : Z) (k : machine) : Z * machine :=
  if valid_mask mask then (0, with_ports_of k (set_bits (seqZ 0 32) mask (port, behavior, flavor) (m_ports k)))
  else (4, k).

Definition port_entry (e : Z * (Z * Z * Z)) : original_port := OriginalPort (2 ^ e.1) e.2.1.1 e.2.1.2 e.2.2.

Definition phone_swap (mask port behavior flavor : Z) (k : machine) : (Z * list original_port) * machine :=
  if valid_mask mask then
    ((0, port_entry <$> filter (fun e => Z.testbit mask e.1 = true) (map_to_list (m_ports k))),
     (phone_set mask port behavior flavor k).2)
  else ((4, []), k).

#[global] Instance phone_ports : MachPorts := {|
  CLS_CPU_X86 := false;
  EXC_BAD_ACCESS := 1;
  EXC_BAD_INSTRUCTION := 2;
  EXC_ARITHMETIC := 3;
  EXC_BREAKPOINT := 6;
  EXC_GUARD := 12;
  EXC_MASK_BAD_ACCESS := 2;
  EXC_MASK_BAD_INSTRUCTION := 4;
  EXC_MASK_ARITHMETIC := 8;
  EXC_MASK_BREAKPOINT := 64;
  EXC_MASK_GUARD := 4096;
  EXC_MASK_CRASH := 1024;
  KERN_FAILURE := 5;
  KERN_INVALID_ADDRESS := 1;
  KERN_PROTECTION_FAILURE := 2;
  i386_code _ := 0;
  EXCEPTION_DEFAULT := 1;
  MACH_EXCEPTION_CODES := 0x80000000;
  THREAD_STATE_NONE := 5;
  MACH_MSGH_BITS_REMOTE bits := Z.land bits 31;
  MACH_MSGH_BITS remote _ := remote;
  mach_port_allocate k := ((0, 0x703), k);
  mach_port_insert_right _ k := (0, k);
  mach_port_deallocate _ k := (0, k);
  task_swap_exception_ports := phone_swap;
  task_set_exception_ports := phone_set;
  pthread_attr_init k := (0, k);
  pthread_attr_setdetached k := (0, k);
  pthread_attr_setstack _ _ k := (0, k);
  pthread_create k := ((0, 0x900), k);
  receive_message _ k :=
    match m_inbox k with [] => (None, k) | message :: inbox => (Some message, with_mail k inbox (m_sent k)) end;
  send_reply reply k := (0, with_mail k (m_inbox k) (m_sent k ++ [reply]))
|}.

Lemma valid_bit mask i : valid_mask mask = true -> 0 <= i -> Z.testbit mask i = true -> i ∈ seqZ 0 32.
Proof.
  intros [Hm%Z.leb_le Hlt%Z.ltb_lt]%andb_true_iff Hi Hb. apply elem_of_seqZ. split; [lia|].
  destruct (Z.ltb_spec i 32) as [|Hge]; [lia|]. rewrite Z.bits_above_log2 in Hb; [done|done|].
  destruct (decide (mask = 0)) as [->|Hnz]; [cbn; lia|]. apply Z.log2_lt_pow2; [lia|].
  pose proof (Z.pow_le_mono_r 2 32 i). lia.
Qed.

Lemma set_port mask v k i :
  valid_mask mask = true -> 0 <= i ->
  port_of (with_ports_of k (set_bits (seqZ 0 32) mask v (m_ports k))) i = if Z.testbit mask i then v else port_of k i.
Proof.
  intros Hm Hi. unfold port_of, with_ports_of. cbn [m_ports]. rewrite set_bits_lookup.
  destruct (Z.testbit mask i) eqn:Eb; [|by rewrite andb_false_r]. by rewrite bool_decide_true by by eapply valid_bit.
Qed.

Lemma entry_bit mask k p i :
  p ∈ (phone_swap mask 0 0 0 k).1.2 -> 0 <= i -> Z.testbit (port_mask p) i = true ->
  Z.testbit mask i = true /\ (port_name p, port_behavior p, port_flavor p) = port_of k i.
Proof.
  unfold phone_swap. destruct (valid_mask mask) eqn:Em; cbn [fst snd]; [|by intros ?%elem_of_nil].
  intros ([j [[a b] c]] & -> & [Hj Hin%elem_of_map_to_list]%list_elem_of_filter)%list_elem_of_fmap Hi.
  cbn [port_entry port_mask port_name port_behavior port_flavor fst snd] in *.
  destruct (Z.ltb_spec j 0); [by rewrite Z.testbit_neg_r in Hj|]. rewrite Z.pow2_bits_eqb by lia. intros ->%Z.eqb_eq.
  split; [done|]. unfold port_of. by rewrite Hin.
Qed.

Lemma swap_parts mask port behavior flavor k status ports k' :
  phone_swap mask port behavior flavor k = ((status, ports), k') ->
  status = (if valid_mask mask then 0 else 4) /\ ports = (phone_swap mask 0 0 0 k).1.2 /\
  k' = (phone_set mask port behavior flavor k).2.
Proof.
  unfold phone_swap. destruct (valid_mask mask) eqn:Em; intros E.
  - apply pair_eq in E as [E <-]. apply pair_eq in E as [<- <-]. done.
  - apply pair_eq in E as [E <-]. apply pair_eq in E as [<- <-]. unfold phone_set. by rewrite Em.
Qed.

Lemma set_parts mask port behavior flavor k :
  (phone_set mask port behavior flavor k).1 = (if valid_mask mask then 0 else 4) /\
  if valid_mask mask then
    forall i, 0 <= i -> port_of (phone_set mask port behavior flavor k).2 i =
      if Z.testbit mask i then (port, behavior, flavor) else port_of k i
  else (phone_set mask port behavior flavor k).2 = k.
Proof.
  unfold phone_set. destruct (valid_mask mask) eqn:Em; [|done]. split; [done|]. intros i Hi. cbn [snd]. by apply set_port.
Qed.

#[global] Instance phone_ports_spec : PortsSpec.
Proof.
  refine (Build_PortsSpec phone phone_signals phone_ports port_of _ _ _ _ _).
  - intros mask port behavior flavor k status ports k' E. apply swap_parts in E as (-> & -> & ->).
    pose proof (entry_bit mask k) as Hentry. destruct (set_parts mask port behavior flavor k) as [_ Hset].
    destruct (valid_mask mask) eqn:Em; [|by rewrite Hset].
    change (0 =? KERN_SUCCESS) with true. cbv iota. split; [exact Hset|]. split; [intros p Hp i; by apply Hentry|].
    unfold phone_swap. rewrite Em. cbn [fst snd].
    intros i Hi Hb. destruct (m_ports k !! i) as [[[a b] c]|] eqn:El; [|right; unfold port_of; by rewrite El].
    left. exists (port_entry (i, (a, b, c))). split.
    + apply list_elem_of_fmap_2, list_elem_of_filter. split; [done|]. by apply elem_of_map_to_list.
    + cbn. by rewrite Z.pow2_bits_eqb, Z.eqb_refl.
  - intros mask port behavior flavor k status k' E. destruct (set_parts mask port behavior flavor k) as [Hst Hset].
    change (phone_set mask port behavior flavor k = (status, k')) in E. rewrite E in Hst, Hset. cbn [fst snd] in *. subst status.
    destruct (valid_mask mask); [exact Hset|by rewrite Hset].
  - by intros k r k' [= <- <-].
  - by intros port k r k' [= <- <-].
  - by intros port k r k' [= <- <-].
Defined.

Lemma phone_ports_live : ports_live.
Proof.
  intros mask port behavior flavor k status ports k' E. split.
  - intros p k2 Hp. apply swap_parts in E as (_ & -> & _). unfold phone_swap in Hp. destruct (valid_mask mask) eqn:Em; cbn [fst snd] in Hp; [|by apply elem_of_nil in Hp].
    apply list_elem_of_fmap in Hp as ([j v] & -> & [Hj _]%list_elem_of_filter). cbn [fst] in Hj.
    destruct (Z.ltb_spec j 0); [by rewrite Z.testbit_neg_r in Hj|]. apply (valid_bit _ j Em) in Hj as Hb%elem_of_seqZ; [|done].
    destruct (set_parts (port_mask (port_entry (j, v))) (port_name (port_entry (j, v))) (port_behavior (port_entry (j, v)))
      (port_flavor (port_entry (j, v))) k2) as [Hst _].
    etransitivity; [exact Hst|]. change (port_mask (port_entry (j, v))) with (2 ^ j). unfold valid_mask.
    pose proof (Z.pow_lt_mono_r 2 j 32). pose proof (Z.pow_nonneg 2 j).
    by rewrite (proj2 (Z.leb_le _ _)), (proj2 (Z.ltb_lt _ _)) by lia.
  - intros mask' k2 Hsub. destruct (set_parts mask' MACH_PORT_NULL (Z.lor EXCEPTION_DEFAULT MACH_EXCEPTION_CODES)
      THREAD_STATE_NONE k2) as [Hst _]. etransitivity; [exact Hst|]. unfold valid_mask.
    assert (Em : mask' = Z.land mask' FIRCLSMachExceptionMask) by (rewrite <- (Z.lor_ldiff_and mask' FIRCLSMachExceptionMask) at 1; by rewrite Hsub).
    change FIRCLSMachExceptionMask with 4174 in Em.
    change 4174 with (Z.land 4174 (Z.ones 13)) in Em. rewrite Z.land_assoc, Z.land_ones in Em by done.
    pose proof (Z.mod_pos_bound (Z.land mask' 4174) (2 ^ 13)).
    by rewrite (proj2 (Z.leb_le _ _)), (proj2 (Z.ltb_lt _ _)) by lia.
Qed.

#[global] Instance phone_server : ServerSpec.
Proof.
  refine (Build_ServerSpec phone phone_signals phone_ports phone_ports_spec (fun _ thread => thread = 0x900) _ _ _ _ _).
  - by intros path k r k' [= <- <-].
  - by intros k r k' [= <- <-].
  - by intros k r k' [= <- <-].
  - by intros stack size k r k' [= <- <-].
  - intros k status thread k' [= <- <- <-]. by split.
Defined.

#[global] Instance phone_suspend : SuspendSpec.
Proof.
  refine (Build_SuspendSpec phone arm64 phone_mach (fun k thread => default 0 (m_suspended k !! thread)) _ _);
    intros thread k status k' [= <- <-] x; cbn; (destruct (Z.eqb_spec x thread) as [->|Hne];
      [by rewrite lookup_insert_eq|by rewrite lookup_insert_ne]).
Defined.

Lemma phone_set_silent mask port behavior flavor k r k' : phone_set mask port behavior flavor k = (r, k') -> silent k k'.
Proof.
  unfold phone_set. destruct (valid_mask mask); intros E; apply pair_eq in E as [_ <-]; [|done].
  by generalize (set_bits (seqZ 0 32) mask (port, behavior, flavor) (m_ports k)).
Qed.

#[global] Instance phone_calls : HandlerCalls.
Proof.
  split.
  - done.
  - by intros e k.
  - done.
  - by intros k status k' [= <- <-].
  - by intros k status k' [= <- <-].
  - intros signal [a|] k r k' [= <- <-]; done.
  - by intros stack k r k' [= <- <-].
  - intros signal [a|] k r k' [= <- <-]; done.
  - by intros stack k r k' [= <- <-].
  - intros mask port behavior flavor k r k' E. by apply phone_set_silent in E.
  - intros port k message k' E. cbn in E. destruct (m_inbox k); by injection E as <- <-.
  - by intros reply k status k' [= <- <-].
Qed.
