(* ===== verification/ImageTheorems.v ===== *)
(** The properties of the images of the process: that the table holds what is loaded,
    that a crash in the middle of a change finds nothing that is wrong, what is read
    from an image in memory, and what the log of images and the section of the main
    executable say; and the images at concrete inputs: an image in memory and its log,
    and what the code does where the properties need their hypotheses. *)
From S2P Require Import Prelude Memory DwarfData ThreadState Arm64State DwarfTheorems CompactUnwind Unwind.
From S2P Require Import UnwindTheorems Allocate File FileFormat FileSpec FileFormatSpec FileJson FileTheorems.
From S2P Require Import Crash Process CrashSpec Handler HandlerSpec Signal BinaryImage ImageSpec MachOSpec.
From S2P Require Import CrashMachine.

(** C9: after any history of loads and unloads of images that share no addresses, with
    at most 1024 loads, looking up an address finds something when a loaded image has
    it, and what is found is an image that has it and was loaded at some time, with the
    fields it was loaded with. It is exactly the loaded image that has the address, and
    nothing where there is none, as long as no image is unloaded at a base where another
    one was unloaded before. *)
Theorem images_tracked changes loaded addr :
  4096 <= addr -> history [] changes loaded ->
  Z.of_nat (loads changes) <= CLS_BINARY_IMAGE_RUNTIME_NODE_COUNT ->
  exists t, store_changes changes (initial_table true addr) = Some t /\
    let lookup := FIRCLSBinaryImageSafeFindImageForAddress t in
    forall address, address <> 0 ->
      (forall n, lookup address = Some n -> inside n address /\ exists d, (true, d) ∈ changes /\ n = details_node d) /\
      (forall n, n ∈ loaded -> inside n address -> is_Some (lookup address)) /\
      (NoDup (unloaded changes) -> forall n, lookup address = Some n <-> n ∈ loaded /\ inside n address).
Proof.
  intros Ha Hh Hl. pose (free := (Z.to_nat CLS_BINARY_IMAGE_RUNTIME_NODE_COUNT - loads changes)%nat).
  destruct (changes_hold changes [] loaded [] free (initial_table true addr)) as (t & ever & E & Hwf & Hold & He).
  { by apply initial_wf. }
  { done. }
  { replace (loads changes + free)%nat with (Z.to_nat CLS_BINARY_IMAGE_RUNTIME_NODE_COUNT) by (unfold free; lia).
    split; [constructor|by intros n m Hn%elem_of_nil|]. exists []. split; [done|]. by split; intros n Hn%elem_of_nil. }
  exists t. split; [exact E|]. cbv zeta. intros address H0. destruct Hwf. rewrite find_covering by done.
  destruct (covering_held loaded ever free (nodes t) address Hold) as [Hsound Hcomplete]. split; [|split].
  - intros n Hn. apply Hsound in Hn as [Hn Hi]. split; [done|]. by apply He in Hn as [?%elem_of_nil|].
  - exact Hcomplete.
  - intros Hnd n. destruct (history_after [] changes loaded [] Hh Hnd) as [gone Hafter]; [intros b _; apply not_elem_of_nil|].
    destruct (history_tracked changes loaded gone addr Ha Hafter Hl) as (t' & free' & E' & _ & _ & Htr).
    rewrite E in E'. injection E' as <-. by eapply covering_loaded.
Qed.

(** C40: whatever images dyld reports, loaded or not, in any order, the changes stay
    within the array of 1024 nodes, whose fields keep their width; a load takes at
    most one slot, and none is ever given back. *)
Theorem table_well_formed changes t :
  wf_table t -> Forall node_ok (nodes t) ->
  Forall (fun c => node_ok (details_node c.2) /\ baseAddress (details_node c.2) <> 0) changes ->
  exists t', store_changes changes t = Some t' /\ wf_table t' /\ Forall node_ok (nodes t') /\
    claimed (nodes t) <= claimed (nodes t') <= claimed (nodes t) + Z.of_nat (loads changes).
Proof. apply changes_claim. Qed.

(** Slots are not used again: after 1024 loads, whatever was unloaded, the next image
    that is loaded is not found. *)
Lemma full_table changes loaded gone addr t d :
  4096 <= addr -> images_after [] [] changes loaded gone -> store_changes changes (initial_table true addr) = Some t ->
  Z.of_nat (loads changes) = CLS_BINARY_IMAGE_RUNTIME_NODE_COUNT -> FIRCLSBinaryImageStoreNode true d t = Some t.
Proof.
  intros Ha Hafter Et Hl. destruct (history_tracked changes loaded gone addr Ha Hafter ltac:(lia)) as (t' & free & Et' & Hwf & Hf & Htr).
  rewrite Et in Et'. injection Et' as <-. rewrite store_node_run by done. cbn [search_address stored_node].
  replace free with 0%nat in Htr by lia. rewrite (full_keeps _ _ _ _ Htr). by destruct t.
Qed.


(** ** What dyld reports *)

(** C22: when dyld reports an image whose header and load commands are in memory, the
    block for the queue has its address and CPU, the UUID of its last UUID command in
    hexadecimal, the size of its last __TEXT segment, its versions and whether it is
    encrypted, and the addresses of the sections for unwinding, moved by its slide;
    without memory for the block the change is dropped. No memory is written. *)
Theorem image_change_read {KN : Kernel} {MO : MachOFormat} {ML : MachOLaws} garbage added w wr fs header cpu subtype slide
    commands eh unwind crash block k' :
  4096 <= header -> image_at (mem w) header cpu subtype commands ->
  finds_section w header cpu SEG_TEXT (chars "__eh_frame") eh ->
  finds_section w header cpu SEG_TEXT (chars "__unwind_info") unwind ->
  finds_section w header cpu SEG_DATA (chars "__crash_info") crash ->
  sys_malloc image_change_size (the_kernel fs) = (block, k') ->
  FIRCLSBinaryImageChanged garbage added header slide (CrashState w wr fs) =
    Completes (match block with
               | Some _ => Some (ImageChange added (image_details header cpu subtype slide commands eh unwind crash))
               | None => None
               end) (CrashState w wr (FileState (the_file fs) k')).
Proof.
  intros Hh Him Heh Hun Hcr Em. pose proof (fill_in_run w garbage header cpu subtype slide commands eh unwind crash Hh Him Heh Hun Hcr) as E.
  unfold FIRCLSBinaryImageChanged, in_memory, call, to_file, sys, mbind, P_bind. cbv zeta. cbn [the_world]. rewrite E.
  cbn [the_files the_writable]. rewrite Em. by destruct block.
Qed.

(** ** The log *)

Section Log.
Context {KN : Kernel} {KS : KernelSpec} {TS : ThreadState} {MK : Mach} {MS : MachSpec} {SG : Signals} {IH : ImageHost}.

(** C21: the blocks that FIRCLSBinaryImageInit puts into the queue, with the changes
    that dyld reports between them, delete the log, open it, make every change to
    the table and append to the file a line with a JSON object for each change, in
    order: where the image is, its UUID, address and size, and for a framework that is
    loaded its bundle. The strings, that is the path and those of the bundle, need no
    escaping: they are UTF-8 without quotation marks, backslashes and control
    characters. *)
Theorem images_logged chunk n path changes w wr f0 k status k0 desc k1 t :
  32 <= n < 2 ^ 62 -> 0 < chunk -> progress chunk -> n <= Z.of_nat CLS_FILE_MAX_WRITE_ATTEMPTS * chunk ->
  fd f0 = -1 -> wf_table t -> Forall (fun c => recordable n c.2) changes ->
  plain_sections (change_section <$> changes) = true ->
  sys_unlink (Some path) k = (status, k0) -> sys_open path append_mask k0 = (desc, k1) -> 0 <= desc ->
  exists t' tf k',
    run_queue (Some path) ([OpenLog] ++ (change_block <$> changes) ++ [CloseLog]) (Some t)
      (CrashState w wr (FileState (Some f0) k)) = Completes (Some t') (CrashState w wr (FileState tf k')) /\
    store_changes changes t = Some t' /\ contents k' desc = contents k1 desc ++ json_lines (change_section <$> changes).
Proof.
  intros Hn Hch Hp Hfit Hfd Hwf Hr Hplain Eu Eo Hd. rewrite <- plain_lines, <- changes_text_report by done.
  destruct (store_changes_wf changes t Hwf) as (t' & Est & _).
  destruct (open_log_run path (Some t) w wr f0 k status k0 desc k1 Hfd Eu Eo Hd) as (f & E1 & Hf).
  destruct (run_changes_open chunk n Hn Hch Hp Hfit path changes f desc w wr k1 t t' Hf Hd Hr Est) as (f2 & k2 & E2 & Hf2 & Hc2).
  destruct (close_log_run (Some path) (Some t') w wr f2 k2) as (tf & k3 & E3 & Hc3); [by apply Hf2|].
  exists t', tf, k3. split; [|split; [done|by rewrite Hc3]].
  rewrite (run_queue_app _ _ _ _ _ _ _ E1), (run_queue_app _ _ _ _ _ _ _ E2). exact E3.
Qed.

(** a change that dyld reports later is made to the table, and opens the log,
    appends its line, strings as they are, and closes the log; if the log cannot be opened, the table
    is changed all the same. *)
Theorem late_change_logged chunk n path added d w wr f0 k desc k1 t :
  32 <= n < 2 ^ 62 -> 0 < chunk -> progress chunk -> n <= Z.of_nat CLS_FILE_MAX_WRITE_ATTEMPTS * chunk ->
  fd f0 = -1 -> wf_table t -> recordable n d -> sys_open path append_mask k = (desc, k1) ->
  exists t' tf k',
    run_queue (Some path) [ImageChange added d] (Some t) (CrashState w wr (FileState (Some f0) k)) =
      Completes (Some t') (CrashState w wr (FileState tf k')) /\
    FIRCLSBinaryImageStoreNode added d t = Some t' /\
    if 0 <=? desc then contents k' desc = contents k1 desc ++ change_text added d else k' = k1.
Proof.
  intros Hn Hch Hp Hfit Hfd Hwf Hr Eo. pose proof (store_node_run added d t Hwf) as Et.
  destruct (to_file_run _ w wr _ _ (record_slice_alone chunk n Hn Hch Hp Hfit path added d f0 k desc k1 Hfd Hr Eo))
    as ([] & [tf k'] & E & H).
  exists (with_nodes t (stored_into (search_address added (details_node d)) (stored_node added (details_node d)) (nodes t))), tf, k'.
  split; [|by split]. cbn [run_queue]. erewrite P_bind_run; [done|]. by apply (process_change_run _ _ _ _ _ _ _ _ _ Et E).
Qed.

(** the section of the main executable, written to the file of the process's
    metadata, has the name of its architecture, its UUID, address and size, whether it
    is encrypted, and its versions, as its header in memory has them. *)
Theorem main_executable_recorded {MO : MachOFormat} {ML : MachOLaws} chunk n garbage w wr f k desc header cpu subtype
    commands eh unwind crash :
  let d := image_details header cpu subtype 0 commands eh unwind crash in
  32 <= n < 2 ^ 62 -> 0 < chunk -> progress chunk -> n <= Z.of_nat CLS_FILE_MAX_WRITE_ATTEMPTS * chunk ->
  fresh_file f desc -> main_image = Some header -> 4096 <= header -> image_at (mem w) header cpu subtype commands ->
  finds_section w header cpu SEG_TEXT (chars "__eh_frame") eh ->
  finds_section w header cpu SEG_TEXT (chars "__unwind_info") unwind ->
  finds_section w header cpu SEG_DATA (chars "__crash_info") crash ->
  identified n d -> short n (FIRCLSMachOSliceGetArchitectureName (details_slice d)) ->
  short n (FIRCLSMachOFormatVersion (minSDK d)) -> short n (FIRCLSMachOFormatVersion (builtSDK d)) ->
  exists f' k', FIRCLSBinaryImageRecordMainExecutable garbage (CrashState w wr (FileState (Some f) k)) =
      Completes true (CrashState w wr (FileState (Some f') k')) /\ fresh_file f' desc /\
    contents k' desc = contents k desc ++ section_text (chars "executable") (JHash (main_members d)).
Proof.
  intros d Hn Hch Hp Hfit Hf Hmain Hh Him Heh Hun Hcr Hd Ha Hm Hb.
  pose proof (fill_in_run w (FIRCLSMachOSliceGetCurrent garbage) header cpu subtype 0 commands eh unwind crash Hh Him Heh Hun Hcr) as E.
  assert (Es : FIRCLSMachOSliceGetCurrent garbage = FIRCLSMachOSliceWithHeader (FIRCLSMachOSliceGetCurrent garbage) header).
  { unfold FIRCLSMachOSliceGetCurrent. rewrite Hmain. by destruct (default _ local_arch). }
  unfold FIRCLSBinaryImageRecordMainExecutable. cbv zeta. rewrite Es.
  change (with_slice zero_details ?x) with (with_slide (with_slice zero_details x) 0).
  erewrite P_bind_run; [|unfold in_memory; cbn [the_world]; by rewrite E].
  destruct (to_file_run _ w wr _ _ (main_section_run chunk n Hn Hch Hp Hfit d f desc k Hf Hd Ha Hm Hb)) as ([] & [tf k'] & Er & f' & Ef & Hf' & Hc).
  cbn [the_file the_kernel] in *. subst tf. exists f', k'. split; [|by split]. by erewrite P_bind_run by exact Er.
Qed.

End Log.

#[local] Existing Instance arm64.

(** ** An image *)

(** The numbers of mach-o/loader.h. The image has one section for unwinding. *)
#[global] Instance loader : MachOFormat := {|
  MH_MAGIC := 0xfeedface;
  MH_CIGAM := 0xcefaedfe;
  MH_MAGIC_64 := 0xfeedfacf;
  MH_CIGAM_64 := 0xcffaedfe;
  CPU_ARCH_ABI64 := 0x01000000;
  header_cputype_off := 4;
  header_cpusubtype_off := 8;
  header_ncmds_off := 16;
  mach_header_size := 28;
  mach_header_64_size := 32;
  cmd_off := 0;
  cmdsize_off := 4;
  LC_UUID := 0x1b;
  LC_ENCRYPTION_INFO := 0x21;
  LC_SEGMENT := 1;
  LC_SEGMENT_64 := 0x19;
  LC_VERSION_MIN_MACOSX := 0x24;
  LC_VERSION_MIN_IPHONEOS := 0x25;
  LC_VERSION_MIN_WATCHOS := 0x30;
  uuid_off := 8;
  cryptid_off := 16;
  version_min_off := 8;
  sdk_off := 12;
  segname_off := 8;
  segment_vmaddr_off := 24;
  segment_vmsize_off := 28;
  segment_64_vmaddr_off := 24;
  segment_64_vmsize_off := 32;
  CPU_TYPE_ARM := 12;
  CPU_SUBTYPE_ARM_V7S := 11;
  CPU_SUBTYPE_ARM_V7K := 12;
  CPU_SUBTYPE_ARM64_ALL := 0;
  getsectbynamefromheader _ _ _ := mret None;
  getsectbynamefromheader_64 _ _ section :=
    mret (if bool_decide (section = chars "__unwind_info") then Some (0x5000, 0x100, 0x1000) else None)
|}.

#[global] Instance loader_laws : MachOLaws.
Proof. split. by apply (bool_decide_unpack _). Qed.

Definition the_uuid : list Z := seqZ 0xA0 16.
Definition array_16 (s : string) : list Z := chars s ++ replicate (16 - String.length s) 0.

Definition segment_64 (name : string) (vmsize : Z) : list Z :=
  le_bytes 4 0x19 ++ le_bytes 4 72 ++ array_16 name ++ le_bytes 8 0 ++ le_bytes 8 vmsize ++ replicate 32 0.

(** A header, "__TEXT", "__DATA", a UUID, versions, encryption, and a command of
    another kind. *)
Definition image_bytes : list Z :=
  concat (le_bytes 4 <$> [0xfeedfacf; 0x0100000c; 0; 2; 6; 300; 0; 0]) ++
  segment_64 "__TEXT" 0x4000 ++ segment_64 "__DATA" 0x2000 ++
  le_bytes 4 0x1b ++ le_bytes 4 24 ++ the_uuid ++
  concat (le_bytes 4 <$> [0x25; 16; 0x000c0102; 0x000d0000]) ++
  concat (le_bytes 4 <$> [0x21; 20; 0; 0; 1]) ++
  concat (le_bytes 4 <$> [2; 8]).

Definition image_world : world := world_of (mem_of [(0x100000, image_bytes)]) 0xA00000 0xB00000.

Definition the_commands : list command :=
  [Segment (array_16 "__TEXT") 0 0x4000; Segment (array_16 "__DATA") 0 0x2000; Uuid the_uuid;
   Versions 0x000c0102 0x000d0000; Encryption 1; OtherCommand].

Definition the_details : FIRCLSBinaryImageDetails :=
  image_details 0x100000 0x0100000c 0 0xfb000 the_commands None (Some (0x5000, 0x100, 0x1000)) None.

Definition garbage_slice : FIRCLSMachOSlice := MachOSlice 0 0xAAAAAAAA 0xAAAAAAAA.

(** The details, evaluated. *)
Example ex_details :
  the_details = ImageDetails (c_string (chars "a0a1a2a3a4a5a6a7a8a9aaabacadaeaf")) true (MachOVersion 13 0 0) (MachOVersion 12 1 2)
    (ImageNode 0x100000 0x4000 0 0x100000 0) (MachOSlice 0x100000 0x0100000c 0) 0xfb000.
Proof. by vm_compute. Qed.

Example ex_read :
  FIRCLSBinaryImageFillInImageDetails (with_slide (with_slice zero_details (FIRCLSMachOSliceWithHeader garbage_slice 0x100000)) 0xfb000)
    image_world = Done (true, the_details) image_world.
Proof. by vm_compute. Qed.

(** One command of the list is read, and is as [tac] proves. *)
Ltac next_command tac :=
  eexists _, _; split; [done|]; split; [by vm_compute|]; split; [by vm_compute|]; split; [tac|].

Lemma image_in_memory : image_at (mem image_world) 0x100000 0x0100000c 0 the_commands.
Proof.
  split; [by vm_compute..|]. exists 0xfeedfacf. split; [by vm_compute|]. right. split; [split_and!; (done || by left)|].
  unfold the_commands. cbn [commands_at].
  next_command ltac:(right; split; [done|split_and!; by vm_compute]).
  next_command ltac:(right; split; [done|split_and!; by vm_compute]).
  next_command ltac:(split; [done|split; [by apply (bool_decide_unpack _); vm_compute|by vm_compute]]).
  next_command ltac:(split; [right; by left|split_and!; (by vm_compute || done)]).
  next_command ltac:(split; [done|by vm_compute]).
  next_command ltac:(by apply (bool_decide_unpack _); vm_compute).
  done.
Qed.

Lemma image_change_read_witness :
  FIRCLSBinaryImageChanged garbage_slice true 0x100000 0xfb000 (CrashState image_world None (FileState None (Machine ∅ ∅ ∅ ∅ (AltStack 0 0 0) ∅ ∅ 0 [] []))) =
  Completes (Some (ImageChange true the_details))
    (CrashState image_world None (FileState None (Machine ∅ ∅ ∅ ∅ (AltStack 0 0 0) ∅ ∅ 0 [] []))).
Proof.
  exact (image_change_read garbage_slice true image_world None _ 0x100000 0x0100000c 0 0xfb000 the_commands None
    (Some (0x5000, 0x100, 0x1000)) None (Some (replicate 136 0)) _ ltac:(lia) image_in_memory eq_refl eq_refl eq_refl eq_refl).
Defined.

(** ** The table *)

Definition loaded_at_base (base size : Z) : FIRCLSBinaryImageDetails :=
  with_node zero_details (ImageNode base size 0 (base + 0x100) 0).

Definition first_image := loaded_at_base 0x100000 0x4000.
Definition second_image := loaded_at_base 0x200000 0x8000.

(** The first image is unloaded, and loaded again at its address. *)
Definition the_history : list (bool * FIRCLSBinaryImageDetails) :=
  [(true, first_image); (true, second_image); (false, first_image); (true, first_image)].

Lemma the_history_ok : images_after [] [] the_history [details_node first_image; details_node second_image] [0x100000].
Proof.
  apply after_load; [by unfold image_ok; cbn|constructor|].
  apply after_load; [by unfold image_ok; cbn|by repeat constructor; unfold apart; cbn; lia|].
  apply (after_unload (details_node first_image)); [right; by left|done|by apply not_elem_of_nil|].
  apply after_load; [by unfold image_ok; cbn|by repeat constructor; unfold apart; cbn; lia|]. constructor.
Qed.

Lemma the_history_happens : history [] the_history [details_node first_image; details_node second_image].
Proof.
  apply history_load; [by unfold image_ok; cbn|constructor|].
  apply history_load; [by unfold image_ok; cbn|by repeat constructor; unfold apart; cbn; lia|].
  apply (history_unload (details_node first_image)); [right; by left|done|].
  apply history_load; [by unfold image_ok; cbn|by repeat constructor; unfold apart; cbn; lia|]. constructor.
Qed.

Lemma images_tracked_witness : exists t,
  store_changes the_history (initial_table true 0x300000) = Some t /\
  is_Some (FIRCLSBinaryImageSafeFindImageForAddress t 0x200010) /\
  FIRCLSBinaryImageSafeFindImageForAddress t 0x100010 = Some (details_node first_image).
Proof.
  destruct (images_tracked the_history _ 0x300000 ltac:(lia) the_history_happens ltac:(done)) as (t & E & H).
  exists t. split; [exact E|]. split.
  - apply (proj1 (proj2 (H 0x200010 ltac:(done))) (details_node second_image)); [right; by left|]. unfold inside. cbn. lia.
  - apply (proj2 (proj2 (H 0x100010 ltac:(done)))); [apply NoDup_singleton|]. split; [by left|]. unfold inside. cbn. lia.
Defined.

Lemma table_well_formed_witness : exists t',
  store_changes the_history (initial_table true 0x300000) = Some t' /\ claimed (nodes t') <= 3.
Proof.
  destruct (table_well_formed the_history (initial_table true 0x300000)) as (t' & E & _ & _ & _ & H).
  - by apply initial_wf.
  - apply Forall_replicate. unfold node_ok, all_node_fields. repeat apply Forall_cons_2; [cbn; lia..|constructor].
  - unfold the_history, node_ok, all_node_fields. repeat apply Forall_cons_2; [split; [repeat apply Forall_cons_2; [cbn; lia..|constructor]|cbn; lia]..|constructor].
  - exists t'. split; [exact E|]. replace (claimed (nodes (initial_table true 0x300000))) with 0 in H by (by vm_compute).
    change (Z.of_nat (loads the_history)) with 3 in H. lia.
Defined.

Definition table_after (changes : list (bool * FIRCLSBinaryImageDetails)) : image_table :=
  default (initial_table true 0x300000) (store_changes changes (initial_table true 0x300000)).

(** What looking up an address finds, the base. *)
Definition found_base (t : image_table) (address : Z) : option Z :=
  baseAddress <$> FIRCLSBinaryImageSafeFindImageForAddress t address.

(** The second time that an image at an address is unloaded it stays: the slot of the
    first one, which keeps its base, is cleared again. *)
Example ex_stale_image :
  found_base (table_after (the_history ++ [(false, first_image)])) 0x100010 = Some 0x100000.
Proof. by vm_compute. Qed.

(** The first image is being loaded: its size was copied, its other fields not yet. *)
Definition interrupted : list FIRCLSBinaryImageRuntimeNode :=
  <[1%nat := ImageNode 0x100000 0x4000 0 0 0]> (nodes (table_after [(true, second_image)])).




(** Meanwhile the image is found by its addresses, without what is not yet there. *)
Example ex_interrupted :
  FIRCLSBinaryImageSafeFindImageForAddress (with_nodes (table_after [(true, second_image)]) interrupted) 0x100010 =
    Some (ImageNode 0x100000 0x4000 0 0 0).
Proof. by vm_compute. Qed.

(** ** Searching by UUID *)

(** The local variable holds the UUID by chance, and the header is not readable. *)
Example ex_uuid_never_read :
  FIRCLSBinaryImageFindImageForUUID [0x10] (with_uuid zero_details (c_string (chars "abc"))) (Some (c_string (chars "abc"))) image_world =
    Done (Some (with_slice (with_uuid zero_details (c_string (chars "abc"))) (MachOSlice 0x10 0 0))) image_world.
Proof. by vm_compute. Qed.

(** A header of the other byte order: the number of commands is read as 0x06000000,
    and the loop leaves the image. *)
Definition swapped_world : world :=
  world_of (mem_of [(0x100000, concat ((fun v => rev (le_bytes 4 v)) <$> [0xfeedfacf; 0x0100000c; 0; 2; 6; 300; 0; 0]))]) 0xA00000 0xB00000.

Example ex_other_byte_order :
  FIRCLSMachOHeaderValues (FIRCLSMachOSliceWithHeader garbage_slice 0x100000) swapped_world =
    Done (MachOSlice 0x100000 0x0c000001 0, 0x100020, 0x06000000) swapped_world.
Proof. by vm_compute. Qed.

(** ** The log *)

#[global] Instance phone_images : ImageHost := {|
  executable_path start := if start =? 0x100000 then Some (chars "/app/My.framework/My") else None;
  bundle_strings _ := Some (Some (chars "com.example.my"), Some (chars "7"), Some []);
  local_arch := Some (0x0100000c, 2);
  arch_name _ _ := None;
  main_image := Some 0x100000
|}.

Definition log_path : list Z := chars "/images".

(** The text that is written, with ' for the quotation mark. *)
Definition plain (text : list Z) : list Z := (fun c => if c =? 34 then 39 else c) <$> text.

Example ex_change_text :
  plain (change_text true the_details) =
    chars "{'load':{'path':'/app/My.framework/My','bundle_id':'com.example.my','build_version':'7'," ++
    chars "'uuid':'a0a1a2a3a4a5a6a7a8a9aaabacadaeaf','base':1048576,'size':16384}}" ++ [10].
Proof. by vm_compute. Qed.

Lemma short_example s : bool_decide (0 ∉ s) && (Z.of_nat (length s) <=? 1000) = true -> short 1000 s.
Proof. intros [H1%bool_decide_eq_true H2%Z.leb_le]%andb_true_iff. by split. Qed.

Lemma details_identified : identified 1000 the_details.
Proof. split; [by apply (bool_decide_unpack _); vm_compute|by vm_compute..]. Qed.

Lemma details_recordable : recordable 1000 the_details.
Proof.
  split; [exact details_identified|..].
  - intros p E. injection E as <-. by apply short_example.
  - intros p i v s E. injection E as <- <- <-. repeat apply Forall_cons_2; [by apply short_example..|constructor].
Qed.

Definition log_file : FIRCLSFile := File (-1) 0 false false NoBuffer 0 0.
Definition log_phone : machine := Machine {[ log_path := chars "{}" ]} ∅ ∅ ∅ (AltStack 0 0 0) ∅ ∅ 0 [] [].

Lemma images_logged_witness : exists t' tf k',
  run_queue (KN := phone) (Some log_path) [OpenLog; ImageChange true the_details; CloseLog] (Some (initial_table true 0x300000))
    (CrashState image_world None (FileState (Some log_file) log_phone)) =
    Completes (Some t') (CrashState image_world None (FileState tf k')) /\
  found_base t' 0x100010 = Some 0x100000 /\ content k' 3 = chars "{}" ++ change_text true the_details.
Proof.
  destruct (images_logged (KN := phone) 30 1000 log_path [(true, the_details)] image_world None log_file log_phone (-1) (with_errno log_phone 2) 3
    (phone_open log_path 0 (with_errno log_phone 2)).2 (initial_table true 0x300000)) as (t' & tf & k' & E & Est & Hc);
    [lia|lia|exact phone_progress|done|done|by apply initial_wf|apply Forall_singleton, details_recordable|reflexivity|done|done|done|].
  exists t', tf, k'. split; [exact E|]. split; [|etransitivity; [exact Hc|by vm_compute]].
  replace t' with (table_after [(true, the_details)]) by (unfold table_after; rewrite Est; done). by vm_compute.
Defined.

Lemma late_change_logged_witness : exists t' tf k',
  run_queue (KN := phone) (Some log_path) [ImageChange false the_details] (Some (table_after [(true, the_details)]))
    (CrashState image_world None (FileState (Some log_file) log_phone)) =
    Completes (Some t') (CrashState image_world None (FileState tf k')) /\
  content k' 3 = chars "{}" ++ change_text false the_details.
Proof.
  assert (Hwf : wf_table (table_after [(true, the_details)])) by (by split; vm_compute).
  destruct (late_change_logged (KN := phone) 30 1000 log_path false the_details image_world None log_file log_phone 3
    (phone_open log_path 0 log_phone).2 _ ltac:(lia) ltac:(lia) phone_progress ltac:(done) eq_refl Hwf details_recordable eq_refl)
    as (t' & tf & k' & E & _ & Hc).
  exists t', tf, k'. split; [exact E|exact Hc].
Defined.

Definition meta_phone : machine := (phone_open (chars "/metadata") 0 log_phone).2.
Definition meta_file : FIRCLSFile := File 3 0 false false NoBuffer 0 0.

Definition the_main : FIRCLSBinaryImageDetails :=
  image_details 0x100000 0x0100000c 0 0 the_commands None (Some (0x5000, 0x100, 0x1000)) None.

Example ex_main_text :
  plain (section_text (chars "executable") (JHash (main_members the_main))) =
    chars "{'executable':{'architecture':'arm64','uuid':'a0a1a2a3a4a5a6a7a8a9aaabacadaeaf','base':1048576,'size':16384," ++
    chars "'encrypted':true,'minimum_sdk_version':'12.1.2','built_sdk_version':'13.0.0'}}" ++ [10].
Proof. by vm_compute. Qed.

Lemma main_executable_recorded_witness : exists f' k',
  FIRCLSBinaryImageRecordMainExecutable (KN := phone) garbage_slice (CrashState image_world None (FileState (Some meta_file) meta_phone)) =
    Completes true (CrashState image_world None (FileState (Some f') k')) /\
  content k' 3 = section_text (chars "executable") (JHash (main_members the_main)).
Proof.
  destruct (main_executable_recorded (KN := phone) 30 1000 garbage_slice image_world None meta_file meta_phone 3 0x100000 0x0100000c 0
    the_commands None (Some (0x5000, 0x100, 0x1000)) None) as (f' & k' & E & _ & Hc);
    [lia|lia|exact phone_progress|done|split_and!; (done || by split)|done|lia|exact image_in_memory|done|done|done|
     split; [by apply (bool_decide_unpack _); vm_compute|by vm_compute..]|by apply short_example|by apply short_example|by apply short_example|].
  exists f', k'. split; [exact E|exact Hc].
Defined.
