(* ===== verification/CrashTheorems.v ===== *)
(** The properties of the handlers of crashes: that the report of a signal and of an
    exception is exactly the text of its sections, that a process is reported once,
    that UUIDs are blotted out, and that what was there before is restored: actions
    of signals, exception ports, and suspended threads. *)
From S2P Require Import Prelude Memory DwarfData ThreadState CompactUnwind Unwind File FileFormat FileSpec FileFormatSpec FileJson.
From S2P Require Import DwarfDataSpec DwarfSafety UnwindSafety UnwindTheorems.
From S2P Require Import Crash Process CrashSpec Redact ProcessInfo ProcessInfoSpec Handler HandlerSpec.
From S2P Require Import Signal ReportSpec MachException RestoreSpec RunSpec.

(** ** Reports *)

Section Reports.
Context {KN : Kernel} {KS : KernelSpec} {TS : ThreadState} {MK : Mach} {MS : MachSpec} {HS : HandlerSystem}.
Context {SI : SystemInfo} {SS : SystemSpec} {RA : RecordArch} {RL : RecordArchLaws} {SA : SelectorArch}.
Context {CE : CompactEncoding} {VM : VmRead} {VMS : DwarfExpressionSpec.VmReadSpec} {UA : UnwindArch}.
Context {TL : ThreadStateLaws} {UL : UnwindArchLaws} {SG : Signals} {SGS : SignalSystem} {MP : MachPorts}.

(** the first signal of a process is recorded: the file of its report gets, behind
    what was there, exactly the text, strings as they are, of the signal, of the
    registers and the stack traces of the threads up to the first that cannot be read,
    of the selector and the messages of the images with UUIDs blotted out, of the names
    of the queues and threads, and of the statistics that the system gives; the process
    is marked as crashed and otherwise only the messages in memory have changed. *)
Theorem signal_report_exact chunk n t wr images garbage context path savedErrno info uapVoid signal
    jsons selector messages queues names outer k d k1 w w' :
  let process := crash_process t (mach_thread_self t) uapVoid in
  32 <= n < 2 ^ 62 -> 0 < chunk -> progress chunk -> n <= Z.of_nat CLS_FILE_MAX_WRITE_ATTEMPTS * chunk ->
  low_mem (mem w) -> wf_mem (mem w) -> cpu_times_fit -> signal_at w info signal ->
  crash_facts n t images garbage process w jsons selector messages queues names w' ->
  initialized context = true -> crashOccurred wr = false -> signal_path (signal_context context) = Some path ->
  tasks_of k = t -> sys_open path append_mask k = (d, k1) -> 0 <= d ->
  exists k' bs, FIRCLSSignalRecordSignal images garbage (Some context) savedErrno info uapVoid
      (CrashState w (Some wr) (FileState outer k)) =
    Completes tt (CrashState w' (Some (ReadWriteContext (logLevel wr) true)) (FileState outer k')) /\
    signal_report context process signal savedErrno jsons selector messages queues names bs /\
    contents k' d = contents k1 d ++ bs.
Proof.
  intros process Hn Hch Hp Hfit Hlow Hwf Htimes Hsig Hfacts Hi Hcr Hpath Ht Eo Hd.
  destruct (record_signal_run chunk n t wr images garbage context path savedErrno info uapVoid signal jsons selector
    messages queues names outer k d k1 w w') as (k' & bs & E & Hbs & Hc); [done..|].
  exists k', bs. split; [exact E|]. split; [exact Hbs|]. by apply Hc.
Qed.

(** the first exception of a process is recorded in the same way: its codes, its
    name and the number of the ports there were, and the sections about the process,
    with the thread of the message as the one that crashed. *)
Theorem exception_report_exact chunk n t wr images garbage readonly context path message
    jsons selector messages queues names outer k d k1 w w' :
  let process := crash_process t (message_thread message) 0 in
  32 <= n < 2 ^ 62 -> 0 < chunk -> progress chunk -> n <= Z.of_nat CLS_FILE_MAX_WRITE_ATTEMPTS * chunk ->
  low_mem (mem w) -> wf_mem (mem w) -> cpu_times_fit ->
  codeCnt message = Z.of_nat (length (message_code message)) -> Z.of_nat (length (originalPorts context)) < 2 ^ 64 ->
  crash_facts n t images garbage process w jsons selector messages queues names w' ->
  initialized readonly = true -> crashOccurred wr = false -> mach_path context = Some path ->
  tasks_of k = t -> sys_open path append_mask k = (d, k1) -> 0 <= d ->
  exists k' bs, FIRCLSMachExceptionRecord images garbage readonly (Some context) (Some message)
      (CrashState w (Some wr) (FileState outer k)) =
    Completes true (CrashState w' (Some (ReadWriteContext (logLevel wr) true)) (FileState outer k')) /\
    exception_report readonly process context message jsons selector messages queues names bs /\
    contents k' d = contents k1 d ++ bs.
Proof.
  intros process Hn Hch Hp Hfit Hlow Hwf Htimes Hcnt Hports Hfacts Hi Hcr Hpath Ht Eo Hd.
  destruct (record_exception_run chunk n t wr images garbage readonly context path message jsons selector
    messages queues names outer k d k1 w w') as (k' & bs & E & Hbs & Hc); [done..|].
  exists k', bs. split; [exact E|]. split; [exact Hbs|]. by apply Hc.
Qed.

End Reports.

(** ** The handlers as a whole *)

Section Handlers.
Context {KN : Kernel} {KS : KernelSpec} {TS : ThreadState} {MK : Mach} {MS : MachSpec} {HS : HandlerSystem}.
Context {SI : SystemInfo} {SS : SystemSpec} {RA : RecordArch} {RL : RecordArchLaws} {SA : SelectorArch}.
Context {CE : CompactEncoding} {VM : VmRead} {VMS : DwarfExpressionSpec.VmReadSpec} {UA : UnwindArch}.
Context {TL : ThreadStateLaws} {UL : UnwindArchLaws} {SG : Signals} {SGS : SignalSystem} {AS : ActionsSpec}.
Context {MP : MachPorts} {PS : PortsSpec} {HC : HandlerCalls}.

(** C7: the handler of the first signal first gives every fatal signal its default
    action; then, in the state [k1] this leaves, it writes the report, strings as they
    are, to its file, with the [errno] of the moment of the signal, where invalid
    pointers count as null; then the actions that were kept at the initialisation are
    in force, or the default actions when the kernel does not take the earlier signal
    stack back ([accepts] says which), and [errno] is what it was. When the file cannot
    be opened, everything but the report happens. The action that was kept for the
    signal is the default one or a function, which is called, and leaves actions and
    files alone. *)
Theorem signal_handled chunk n t wr images garbage context path signal info uapVoid siginfo accepts
    jsons selector messages queues names outer k w w' :
  let roContext := signal_context context in
  let process := crash_process t (mach_thread_self t) (valid_or_null uapVoid) in
  32 <= n < 2 ^ 62 -> 0 < chunk -> progress chunk -> n <= Z.of_nat CLS_FILE_MAX_WRITE_ATTEMPTS * chunk ->
  low_mem (mem w) -> wf_mem (mem w) -> cpu_times_fit -> signal_at w info siginfo ->
  crash_facts n t images garbage process w jsons selector messages queues names w' ->
  initialized context = true -> crashOccurred wr = false -> signal_path roContext = Some path ->
  length (originalActions roContext) = FIRCLSSignalCount -> stack_accepted roContext accepts ->
  harmless roContext signal (valid_or_null info) (valid_or_null uapVoid) ->
  called_tracks silent roContext signal (valid_or_null info) (valid_or_null uapVoid) -> tasks_of k = t ->
  let handler := FIRCLSSignalHandler images garbage (Some context) signal info uapVoid in
  let record := FIRCLSSignalRecordSignal images garbage (Some context) (errno k) (valid_or_null info) (valid_or_null uapVoid) in
  exists k1, silent k k1 /\ (forall x, x ∈ FIRCLSFatalSignals -> action_of k1 x = default_action) /\
  forall d k2, sys_open path append_mask k1 = (d, k2) ->
  exists s3 k' bs, record (CrashState w (Some wr) (FileState outer k1)) = Completes tt s3 /\
    handler (CrashState w (Some wr) (FileState outer k)) = Completes tt (with_kernel s3 k') /\
    s3 = CrashState (if 0 <=? d then w' else w) (Some (ReadWriteContext (logLevel wr) true)) (FileState outer (kernel_of s3)) /\
    (if 0 <=? d then
       signal_report context process siginfo (errno k) jsons selector messages queues names bs /\
       contents k' d = contents k2 d ++ bs
     else silent k2 k') /\
    errno k' = errno k /\ actions_back roContext accepts k'.
Proof.
  intros roContext process Hn Hch Hp Hfit Hlow Hwf Htimes Hsig Hfacts Hi Hcr Hpath Hlen Hst Hharm Hq Ht handler record.
  destruct (signal_prologue signal info uapVoid images garbage context w wr outer k) as (k1 & Hs1 & Hdef & E).
  exists k1. split; [exact Hs1|]. split; [exact Hdef|]. intros d k2 Eo. unfold handler. rewrite E. destruct (Z.leb_spec 0 d) as [Hd|Hd].
  - destruct (record_signal_run chunk n t wr images garbage context path (errno k) (valid_or_null info) (valid_or_null uapVoid)
      siginfo jsons selector messages queues names outer k1 d k2 w w') as (k3 & bs & Er & Hbs & Hc);
      [try done..|].
    { by apply signal_at_or_null. }
    { by rewrite (proj1 Hs1). }
    erewrite P_bind_run by exact Er.
    destruct (signal_epilogue roContext signal (valid_or_null info) (valid_or_null uapVoid) (errno k) accepts
      (CrashState w' (Some (ReadWriteContext (logLevel wr) true)) (FileState outer k3)) Hlen Hharm Hq Hst)
      as (k' & Ee & (_ & _ & Hsame) & He & Hback).
    eexists _, k', bs. split; [exact Er|]. split; [exact Ee|]. split; [done|]. split; [|by split]. split; [exact Hbs|].
    rewrite Hsame. by apply Hc.
  - pose proof (record_signal_unopened images garbage context path (errno k) (valid_or_null info) (valid_or_null uapVoid)
      w wr outer k1 d k2 Hi Hcr Hpath Eo Hd) as Er. erewrite P_bind_run by exact Er.
    destruct (signal_epilogue roContext signal (valid_or_null info) (valid_or_null uapVoid) (errno k) accepts
      (CrashState w (Some (ReadWriteContext (logLevel wr) true)) (FileState outer k2)) Hlen Hharm Hq Hst)
      as (k' & Ee & Hs & He & Hback).
    by eexists _, k', [].
Qed.

(** C8: the server answers a message about another task with a failure and does
    nothing else. For the first exception of the process it first gives every kind of
    exception the port it had and every fatal signal the action that was kept, or the
    default action when the kernel does not take the earlier signal stack back
    ([accepts] says which); then, in the state [k1] this leaves, it writes the report,
    strings as they are, and replies with success, or with failure when the stack is
    refused or the file cannot be opened; and it waits for the next message if the
    reply was accepted. *)
Theorem exception_served chunk n t wr images garbage readonly context path message registered_in accepts rounds
    jsons selector messages queues names outer k k0 w w' :
  let process := crash_process t (message_thread message) 0 in
  let s := CrashState w (Some wr) (FileState outer k) in
  let serve := FIRCLSMachExceptionServer images garbage readonly in
  let next status := if status =? 0 then serve rounds context else mret tt in
  receive_message (mach_port context) k = (Some message, k0) ->
  if message_task message =? mach_task_self then
    32 <= n < 2 ^ 62 -> 0 < chunk -> progress chunk -> n <= Z.of_nat CLS_FILE_MAX_WRITE_ATTEMPTS * chunk ->
    low_mem (mem w) -> wf_mem (mem w) -> cpu_times_fit ->
    codeCnt message = Z.of_nat (length (message_code message)) -> Z.of_nat (length (originalPorts context)) < 2 ^ 64 ->
    crash_facts n t images garbage process w jsons selector messages queues names w' ->
    initialized readonly = true -> crashOccurred wr = false -> mach_path context = Some path -> tasks_of k = t ->
    registered registered_in context -> ports_accepted (originalPorts context) ->
    length (originalActions (signal_context readonly)) = FIRCLSSignalCount ->
    stack_accepted (signal_context readonly) accepts ->
    let record := FIRCLSMachExceptionRecord images garbage readonly (Some context) (Some message) in
    exists k1, silent k k1 /\ actions_back (signal_context readonly) accepts k1 /\
      (forall i, handled i -> port_restored (exception_port registered_in i) (exception_port k1 i)) /\
      if accepts then
        forall d k2, sys_open path append_mask k1 = (d, k2) ->
        exists s3 bs status k4,
          record (CrashState w (Some wr) (FileState outer k1)) = Completes (0 <=? d) s3 /\
          send_reply (reply_to message (if 0 <=? d then KERN_SUCCESS else KERN_FAILURE)) (kernel_of s3) = (status, k4) /\
          serve (S rounds) context s = next status (with_kernel s3 k4) /\
          s3 = CrashState (if 0 <=? d then w' else w) (Some (ReadWriteContext (logLevel wr) true)) (FileState outer (kernel_of s3)) /\
          if 0 <=? d then
            exception_report readonly process context message jsons selector messages queues names bs /\
            contents k4 d = contents k2 d ++ bs
          else silent k2 k4
      else
        exists status k4, send_reply (reply_to message KERN_FAILURE) k1 = (status, k4) /\
          serve (S rounds) context s = next status (CrashState w (Some wr) (FileState outer k4))
  else
    exists status k1, send_reply (reply_to message KERN_FAILURE) k0 = (status, k1) /\
      serve (S rounds) context s = next status (CrashState w (Some wr) (FileState outer k1)).
Proof.
  intros process s serve next Er. destruct (Z.eqb_spec (message_task message) mach_task_self) as [Htask|Hother].
  - intros Hn Hch Hp Hfit Hlow Hwf Htimes Hcnt Hports Hfacts Hi Hcr Hpath Ht Hreg Hacc Hlen Hst record.
    destruct (exception_prologue images garbage readonly context message registered_in accepts w (Some wr) outer k0 Htask Hreg Hacc Hlen Hst)
      as (k1 & Hs1 & Hback & Hrest & E). pose proof (receive_silent _ _ _ _ Er) as Hs0.
    assert (Hs : silent k k1) by by transitivity k0. exists k1. split_and!; [done..|]. destruct accepts.
    + intros d k2 Eo. destruct (Z.leb_spec 0 d) as [Hd|Hd].
      * destruct (record_exception_run chunk n t wr images garbage readonly context path message jsons selector messages queues names
          outer k1 d k2 w w') as (k3 & bs & Erec & Hbs & Hc); [try done..|]; [by rewrite (proj1 Hs)|].
        erewrite P_bind_run in E by exact Erec.
        destruct (server_round images garbage readonly rounds context message KERN_SUCCESS s k0 _ Er E) as (status & k4 & Es & Eserve).
        eexists _, bs, status, k4. split; [exact Erec|]. split; [exact Es|]. split; [exact Eserve|]. split; [done|]. split; [exact Hbs|].
        destruct (send_silent _ _ _ _ Es) as (_ & _ & ->). by apply Hc.
      * pose proof (record_exception_unopened images garbage readonly context path message w wr outer k1 d k2 Hi Hcr Hpath Eo Hd) as Erec.
        erewrite P_bind_run in E by exact Erec.
        destruct (server_round images garbage readonly rounds context message KERN_FAILURE s k0 _ Er E) as (status & k4 & Es & Eserve).
        eexists _, [], status, k4. split; [exact Erec|]. split; [exact Es|]. split; [exact Eserve|]. split; [done|].
        by apply send_silent in Es.
    + destruct (server_round images garbage readonly rounds context message KERN_FAILURE s k0 _ Er E) as (status & k4 & Es & Eserve).
      by exists status, k4.
  - destruct (server_round images garbage readonly rounds context message KERN_FAILURE s k0 (with_kernel s k0) Er)
      as (status & k1 & Es & Eserve).
    { unfold FIRCLSMachExceptionDispatchMessage. by rewrite (proj2 (Z.eqb_neq _ _) Hother). }
    exists status, k1. by split.
Qed.

End Handlers.

(** C12: a string in memory that is blotted out keeps its length and its terminator,
    and only its bytes change: of the first pair of parentheses with 36 characters
    between them these become asterisks, except hyphens; a UUID in the first pair of
    parentheses is so removed. *)
Theorem redaction_exact p s w :
  0 < p -> Forall (fun b => b <> 0) s -> holds (mem w) p (c_string s) ->
  exists m, FIRCLSRedactUUID p w = Done tt (set_mem m w) /\ holds m p (c_string (redact s)) /\
    length (redact s) = length s /\ (forall a, ~ (p <= a < p + Z.of_nat (length s)) -> m !! a = mem w !! a) /\
    forall before uuid after, s = before ++ 40 :: uuid ++ 41 :: after -> 40 ∉ before -> length uuid = 36%nat -> 41 ∉ uuid ->
      redact s = before ++ 40 :: (blot <$> uuid) ++ 41 :: after.
Proof.
  intros Hp Hs Hh. destruct (redact_run p s w Hp Hs Hh) as (m & Em & E). exists m. split; [exact E|].
  split; [by eapply redacted_holds|]. split; [apply length_redact|]. split.
  - apply write_bytes_inv in Em as (_ & _ & Hsame). by rewrite length_redact in Hsame.
  - intros before uuid after -> Hb Hl Hu. by apply redact_uuid.
Qed.

(** C11: a process is reported once: after a signal or an exception has been recorded,
    whatever the kernel and the memory did meanwhile, another signal or exception
    ends the process with status 1 before anything is written. *)
Theorem second_crash_exits {KN : Kernel} {TS : ThreadState} {MK : Mach} {RA : RecordArch} {SI : SystemInfo}
    {SA : SelectorArch} {CE : CompactEncoding} {VM : VmRead} {UA : UnwindArch} {SG : Signals} {MP : MachPorts}
    images garbage readonly h s s' :
  initialized readonly = true -> record_crash images garbage readonly h s = Completes tt s' ->
  crashed s' = Some true /\
  forall h' s2, the_writable s2 = the_writable s' -> record_crash images garbage readonly h' s2 = Exits 1 s2.
Proof.
  intros Hi E. pose proof (recorded_flag images garbage readonly Hi h s s' E) as Hc. split; [exact Hc|].
  intros h' s2 Hw. apply (recorded_exits images garbage readonly Hi). unfold crashed. by rewrite Hw.
Qed.

(** ** What is restored *)

(** C19: the initialisation gives every fatal signal the handler of Crashlytics, keeps
    what was there, and makes the stack of the handlers current unless the kernel
    refuses. Later, in any state, installing the preexisting handlers, when the kernel
    takes the earlier stack back or there was none, gives every fatal signal that had a
    handler exactly the action it had, and the others the default handler, with an empty
    mask and flags that are not initialised; the earlier stack is current again, but
    where there was none the current one stays. When the kernel does not take the
    stack back, every fatal signal gets that default action. Actions of other signals
    stay as they are. Of the signal that is being handled the earlier action is the
    default handler or a function, which leaves the actions alone; any other value, such as that which ignores a
    signal, is called as well, which is a fault. *)
Theorem signals_restored {KN : Kernel} {SG : Signals} {AS : ActionsSpec} stack roContext s :
  length (originalActions roContext) = FIRCLSSignalCount ->
  let before := kernel_of s in
  exists roContext' k, FIRCLSSignalInitialize stack roContext s = Completes roContext' (with_kernel s k) /\
    (forall x, x ∈ FIRCLSFatalSignals -> action_of k x = crash_action) /\
    (forall x, x ∉ FIRCLSFatalSignals -> action_of k x = action_of before x) /\
    (originalStack roContext' = stack_of before /\ stack_of k = crash_stack stack \/
     originalStack roContext' = originalStack roContext /\ stack_of k = stack_of before) /\
    (forall signal info uapVoid accepts s2, harmless roContext' signal info uapVoid -> stack_accepted roContext' accepts ->
       exists k', FIRCLSSignalSafeInstallPreexistingHandlers roContext' signal info uapVoid s2 =
           Completes accepts (with_kernel s2 k') /\
         (forall x, x ∉ FIRCLSFatalSignals -> action_of k' x = action_of (kernel_of s2) x) /\
         (forall x, x ∈ FIRCLSFatalSignals -> action_of k' x =
            if accepts && negb (sa_sigaction (action_of before x) =? SIG_DFL) then action_of before x else default_action) /\
         stack_of k' = if accepts && negb (ss_sp (originalStack roContext') =? 0) then originalStack roContext'
                       else stack_of (kernel_of s2)) /\
    (forall signal info uapVoid s2, 0 <= signal -> signal ∈ FIRCLSFatalSignals -> stack_accepted roContext' true ->
       sa_sigaction (action_of before signal) <> SIG_DFL -> function_at (sa_sigaction (action_of before signal)) = None ->
       FIRCLSSignalSafeInstallPreexistingHandlers roContext' signal info uapVoid s2 = Faults).
Proof.
  intros Hlen before. destruct (initialize_run stack roContext s Hlen) as (ro & k & E & Hours & Hothers & Hsaved & Hstack).
  exists ro, k. split; [exact E|]. split; [exact Hours|]. split; [exact Hothers|]. split; [exact Hstack|].
  assert (Hat : forall j x, FIRCLSFatalSignals !! j = Some x ->
    exists stored, originalActions ro !! j = Some stored /\ original_of ro x = stored).
  { intros j x Hj. destruct (Hsaved j x Hj) as [stored Es]. eexists. split; [exact Es|]. by eapply original_at. }
  assert (Horig : forall x, x ∈ FIRCLSFatalSignals -> exists stored, original_of ro x = kept stored (action_of before x)).
  { intros x [j Hj]%list_elem_of_lookup. destruct (Hsaved j x Hj) as [stored Es]. exists stored. by eapply original_at. }
  split.
  - intros signal info uapVoid accepts s2 Hcall Hst.
    destruct (preexisting_run ro signal info uapVoid (original_of ro) accepts s2 Hat Hcall Hst) as (k' & E2 & Hout & Hin & Hst2).
    exists k'. split; [exact E2|]. split; [exact Hout|]. split; [|exact Hst2]. intros x Hx. rewrite Hin by done.
    destruct (Horig x Hx) as [stored ->]. unfold kept. change SIG_DFL with 0.
    by destruct accepts, (sa_sigaction (action_of before x) =? 0) eqn:Ez; cbn [negb orb andb sa_sigaction Z.eqb]; rewrite ?Ez.
  - intros signal info uapVoid s2 Hpos Hin Hst Hnz Hnone. change SIG_DFL with 0 in Hnz.
    apply preexisting_faults; try done.
    + intros j x Hj. destruct (Hat j x Hj) as (stored & Es & _). by exists stored.
    + destruct (Horig signal Hin) as [stored ->]. unfold kept. by rewrite (proj2 (Z.eqb_neq _ _) Hnz).
    + destruct (Horig signal Hin) as [stored ->]. unfold kept. by rewrite (proj2 (Z.eqb_neq _ _) Hnz).
Qed.

(** C20: registering for exceptions and, in any later state, unregistering gives every
    kind of exception that is handled the port it had, with behaviour and flavour, or
    no port where there was none, and leaves the other kinds as they are; when
    registering fails no port has changed. *)
Theorem exception_ports_restored {KN : Kernel} {SG : Signals} {MP : MachPorts} {PS : PortsSpec} context s :
  ports_live ->
  let before := kernel_of s in
  exists ok context' k, FIRCLSMachExceptionRegister context s = Completes (ok, context') (with_kernel s k) /\
    (ok = false -> exception_port k = exception_port before) /\
    (ok = true -> (forall i, handled i -> exception_port k i = crash_port (mach_port context')) /\
       forall s2, exists k', FIRCLSMachExceptionUnregister (originalPorts context') (mach_mask context') s2 =
           Completes true (with_kernel s2 k') /\
         (forall i, handled i -> port_restored (exception_port before i) (exception_port k' i)) /\
         (forall i, 0 <= i -> ~ handled i -> exception_port k' i = exception_port (kernel_of s2) i)).
Proof.
  intros Hlive before. destruct (mach_register_run context s Hlive) as (ok & c & k & E & H). exists ok, c, k. split; [exact E|].
  destruct ok; [|by split]. destruct H as (Hreg & Hacc & Hours & _). split; [done|]. intros _. split; [exact Hours|].
  intros s2. by apply unregister_registered.
Qed.

(** C23: the initialisation for exceptions is all or nothing: either a thread runs
    that receives the messages of all kinds that are handled, or every kind has the
    port that it had; other kinds are left alone. *)
Theorem exception_init_all_or_nothing {KN : Kernel} {SG : Signals} {MP : MachPorts} {PS : PortsSpec} {SS : ServerSpec}
    stack context s :
  ports_live ->
  exists context' k', FIRCLSMachExceptionInit stack context s = Completes context' (with_kernel s k') /\
    (forall i, 0 <= i -> ~ handled i -> exception_port k' i = exception_port (kernel_of s) i) /\
    (running k' (mach_thread context') /\ (forall i, handled i -> exception_port k' i = crash_port (mach_port context')) \/
     (forall i, handled i -> port_restored (exception_port (kernel_of s) i) (exception_port k' i))).
Proof.
  intros Hlive. destruct (mach_init_run stack context s Hlive) as (c & k & E & Hothers & H). exists c, k.
  split; [exact E|]. split; [exact Hothers|]. destruct H as [(_ & Hr & Hours)|H]; [by left|by right].
Qed.

(** C24: suspending the other threads suspends each of them once, in their order, up to
    the first that cannot be suspended, and never the current one; if all were
    suspended and later all are resumed, every thread is suspended as often as
    before. *)
Theorem threads_resumed {KN : Kernel} {TS : ThreadState} {MK : Mach} {SP : SuspendSpec} process s :
  threadCount process = Z.of_nat (length (process_threads process)) ->
  exists ok k, FIRCLSProcessSuspendAllOtherThreads process s = Completes ok (with_kernel s k) /\
    stepped process 1 (kernel_of s) k (process_threads process) ok /\
    forall s2, exists ok2 k2, FIRCLSProcessResumeAllOtherThreads process s2 = Completes ok2 (with_kernel s2 k2) /\
      stepped process (-1) (kernel_of s2) k2 (process_threads process) ok2 /\
      (ok = true -> ok2 = true -> (forall x, suspend_count (kernel_of s2) x = suspend_count k x) ->
       forall x, suspend_count k2 x = suspend_count (kernel_of s) x).
Proof.
  intros Hcount. unfold FIRCLSProcessSuspendAllOtherThreads, FIRCLSProcessResumeAllOtherThreads. rewrite Hcount, Nat2Z.id.
  destruct (other_threads_loop_run process Hcount 1 thread_suspend [] (process_threads process) s) as (ok & k & E & Hst);
    [by apply suspend_run|done|]. exists ok, k. split; [exact E|]. split; [exact Hst|]. intros s2.
  destruct (other_threads_loop_run process Hcount (-1) thread_resume [] (process_threads process) s2) as (ok2 & k2 & E2 & Hst2);
    [by apply resume_run|done|]. exists ok2, k2. split; [exact E2|]. split; [exact Hst2|]. intros -> -> Hsame x.
  destruct Hst as (d1 & r1 & Eo1 & Hr1 & H1), Hst2 as (d2 & r2 & Eo2 & Hr2 & H2).
  symmetry in Hr1, Hr2. apply bool_decide_eq_true in Hr1, Hr2. subst r1 r2. rewrite app_nil_r in Eo1, Eo2.
  rewrite H2, Hsame, H1, <- Eo1, <- Eo2. lia.
Qed.
