(* ===== verification/CrashExamples.v ===== *)
(** The handlers of crashes on the concrete system: reports that are written, what is
    restored, and what the code does where the properties need their hypotheses. *)
From S2P Require Import Prelude Memory DwarfData ThreadState Arm64State CompactUnwind Arm64Unwind Unwind.
From S2P Require Import File FileFormat FileSpec FileFormatSpec FileJson.
From S2P Require Import DwarfDataSpec DwarfSafety UnwindSafety UnwindTheorems Arm64Theorems.
From S2P Require Import DwarfTheorems UnwindTheorems FileTheorems.
From S2P Require Import Crash Process CrashSpec Redact ProcessInfo ProcessInfoSpec ArchProcess.
From S2P Require Import Handler HandlerSpec Signal ReportSpec MachException RestoreSpec RunSpec.
From S2P Require Import CrashTheorems CrashMachine.

#[local] Existing Instance arm64.
#[local] Instance crash_arch : UnwindArch := arm64_unwind zero_record.

(** ** The process *)

Definition crash_message_text : list Z := chars "assertion (12345678-1234-1234-1234-1234567890ab) failed".

Definition crash_world : world :=
  world_of (mem_of [
    (0x600000, concat ((fun k => le_bytes 8 (0x600010 + 16 * k) ++ le_bytes 8 0x500300) <$> seqZ 0 12) ++
               le_bytes 8 0 ++ le_bytes 8 0x500400);
    (0x900000, le_bytes 8 5 ++ le_bytes 8 0x900100 ++ replicate 40 0);
    (0x900100, c_string crash_message_text);
    (0x901000, le_bytes 8 0x902000);
    (0x902010, c_string (chars "com.apple.main-thread"));
    (0x903000, c_string (chars "length"))]) 0xA00000 0xB00000.

Definition crash_images : image_table := ImageTable true 0x300000 [ImageNode 0x100000 0x10000 0 0x200000 0x900000].

Definition crash_context : FIRCLSReadOnlyContext :=
  ReadOnlyContext true (Some (chars "/marker")) (Some (chars "/documents")) 16384 0x800000 0x810000
    (SignalReadContext (Some (chars "/signal")) (replicate 7 (SigAction 0 0 0)) (AltStack 0 0 0))
    (MachReadContext 0 0 (Some (chars "/mach")) 0 []).

(** A phone whose report of a signal is not empty. *)
Definition crash_phone : machine :=
  Machine {[ chars "/signal" := chars "{}" ]} ∅ ∅ ∅ (AltStack 0 0 0) ∅ ∅ 7 [] [].

(** After the message was blotted out. *)
Definition blotted_world : world :=
  set_mem (default ∅ (write_bytes (mem crash_world) 0x900100 (redact crash_message_text))) crash_world.

Definition the_process : FIRCLSProcess := crash_process tt 0x203 0x700000.

(** The JSON of a thread that can be recorded. *)
Definition json_of (process : FIRCLSProcess) (thread : Z) : json :=
  default JNull (thread_record crash_images process tt crash_world thread).

Definition the_jsons : list json := json_of the_process <$> [0x203; 0x303].

Definition the_report : list Z := section_text (chars "signal") (signal_json (Some (11, 1, 0x18)) 2 1600000000) ++
  process_text the_jsons (chars "length") [redact crash_message_text] [chars "com.apple.main-thread"; []; []] [chars "main"; []; []]
    (section_text (chars "process_stats") (stats_json 16384 (VmStatistics 100 200 300 400)
      (TaskInfo 5000000 4000000 (TimeValue 3 500000) (TimeValue 1 250000))))
    (section_text (chars "storage") (JHash (number_members [("free", 4096000); ("total", 8192000)]%string))).

(** The whole handler, evaluated: the report is behind what its file had. *)
Example ex_signal_report :
  match FIRCLSSignalRecordSignal crash_images loop_regs (Some crash_context) 2 0x710000 0x700000
          (CrashState crash_world (Some (ReadWriteContext 1 false)) (FileState None crash_phone)) with
  | Completes _ s => m_files (kernel_of s) !! chars "/signal" = Some (chars "{}" ++ the_report) /\
      the_writable s = Some (ReadWriteContext 1 true)
  | _ => False
  end.
Proof. by vm_compute. Qed.

(** The message in the report, of which the UUID was blotted out. *)
Example ex_blotted : redact crash_message_text = chars "assertion (********-****-****-****-************) failed".
Proof. by vm_compute. Qed.

(** *** What is known about it *)

Lemma crash_low : low_mem (mem crash_world).
Proof. apply low_mem_check. by vm_compute. Qed.

Lemma crash_wf : wf_mem (mem crash_world).
Proof. apply wf_mem_check. by vm_compute. Qed.

Lemma string_at_check w p s :
  forallb (fun b => negb (b =? 0)) s = true -> read_bytes (mem w) p (length (c_string s)) = Some (c_string s) ->
  (4096 <=? p) && (p + 256 <? 2 ^ 64) = true -> string_at w p s.
Proof.
  intros Hs Hh [Hl%Z.leb_le Hh'%Z.ltb_lt]%andb_true_iff. split_and!; [|exact Hh|lia|lia].
  apply Forall_forall. intros b Hb ->. rewrite forallb_forall in Hs. apply list_elem_of_In in Hb. by specialize (Hs _ Hb).
Qed.

Definition is_some {A} (o : option A) : bool := match o with Some _ => true | None => false end.

Lemma some_default {A} (o : option A) (a : A) : is_some o = true -> o = Some (default a o).
Proof. by destruct o. Qed.

Lemma phone_messages : recorded_messages crash_images crash_world [redact crash_message_text] blotted_world.
Proof.
  unfold recorded_messages. change (nodes_addr crash_images =? 0) with false. cbv iota.
  apply (messages_cons _ _ crash_world 0x900100 crash_message_text (default ∅ (write_bytes (mem crash_world) 0x900100 (redact crash_message_text)))).
  - split; [done|]. split.
    { exists (le_bytes 8 5 ++ le_bytes 8 0x900100 ++ replicate 40 0). split; [|by vm_compute].
      apply DwarfExpressionSpec.read_memory_run; [done|by vm_compute]. }
    split; [by apply string_at_check; vm_compute|]. split; [|by vm_compute]. by apply (bool_decide_unpack _).
  - apply some_default. by vm_compute.
  - apply messages_nil.
Qed.

Lemma phone_queues :
  Forall2 (queue_name tt blotted_world) [0x203; 0x303; 0x403] [chars "com.apple.main-thread"; []; []].
Proof.
  repeat constructor; [|by right..].
  apply (queue_label _ _ _ (le_bytes 8 0x902000) 0x902010); [done|done| |done|done|].
  { apply DwarfExpressionSpec.read_memory_run; [done|by vm_compute]. }
  by apply string_at_check; vm_compute.
Qed.

Lemma short_check n s : forallb (fun b => negb (b =? 0)) s && (Z.of_nat (length s) <=? n) = true -> short n s.
Proof.
  intros [Hs Hl%Z.leb_le]%andb_true_iff. split; [|done]. intros Hin. rewrite forallb_forall in Hs.
  apply list_elem_of_In in Hin. by specialize (Hs _ Hin).
Qed.

Lemma phone_names : Forall2 (thread_name 1000 tt) [0x203; 0x303; 0x403] [chars "main"; []; []].
Proof. do 3 (apply Forall2_cons_2; [split; [by apply short_check|eexists; by vm_compute]|]). apply Forall2_nil_2. Qed.

(** Members that can be written, decided. *)
Fixpoint writable_check (n : Z) (member : bool) (v : json) : bool :=
  match v with
  | JNull => true
  | JBool _ => member
  | JUint v => (0 <=? v) && (v <? 2 ^ 64)
  | JInt v => member && (- 2 ^ 63 <? v) && (v <? 2 ^ 63)
  | JString s => forallb (fun b => negb (b =? 0)) s && (Z.of_nat (length s) <=? n)
  | JHex s => forallb (fun b => (0 <? b) && (b <? 256)) s && (Z.of_nat (length s) <? 2 ^ 31)
  | JArray l => forallb (writable_check n false) l
  | JHash l => forallb (fun m => forallb (fun b => negb (b =? 0)) m.1 && (Z.of_nat (length m.1) <=? n) && writable_check n true m.2) l
  end.

Lemma writable_check_ok n v : forall member, writable_check n member v = true -> writable n member v.
Proof.
  induction v as [|b|m|m|s|s|l IH|l IH] using json_nested_ind; intros member H; cbn [writable_check writable] in *.
  - done.
  - done.
  - lia.
  - destruct member; [split; [done|]; cbn in H; lia|done].
  - by apply short_check.
  - apply andb_true_iff in H as [H Hl%Z.ltb_lt]. rewrite forallb_forall in H. split_and!; [|..|done].
    + apply Forall_forall. intros b Hb%list_elem_of_In. specialize (H b Hb). unfold is_byte. lia.
    + intros Hin%list_elem_of_In. specialize (H _ Hin). done.
  - induction IH as [|v l Hv _ IHl]; [done|]. cbn in *. apply andb_true_iff in H as [H1 H2]. split; [by apply Hv|by apply IHl].
  - induction IH as [|[key v] l Hv _ IHl]; [done|]. cbn in *. apply andb_true_iff in H as [H1 H2].
    apply andb_true_iff in H1 as [H0 H1]. split; [|by apply IHl]. split; [by apply short_check|by apply Hv].
Qed.

Lemma writable_all n l : forallb (writable_check n false) l = true -> Forall (writable n false) l.
Proof.
  intros H. apply Forall_forall. intros v Hv%list_elem_of_In. rewrite forallb_forall in H. by apply writable_check_ok, H.
Qed.

Lemma signal_facts :
  crash_facts 1000 tt crash_images loop_regs the_process crash_world the_jsons (chars "length")
    [redact crash_message_text] [chars "com.apple.main-thread"; []; []] [chars "main"; []; []] blotted_world.
Proof.
  split.
  - exists [0x203; 0x303], [0x403]. split; [by vm_compute|]. 
    split; [do 2 (apply Forall2_cons_2; [apply some_default; by vm_compute|]); apply Forall2_nil_2|].
    split; [intros thread post [= <- _]; by vm_compute|]. apply writable_all. by vm_compute.
  - exists crash_regs. split; [left; by vm_compute|]. apply the_selector. by apply string_at_check; vm_compute.
  - split; [by apply short_check|]. do 3 (apply Forall_cons_2; [by apply short_check|]). apply Forall_nil_2.
  - exact phone_messages.
  - exact phone_queues.
  - exact phone_names.
Qed.

(** ** The properties on the phone *)

Lemma signal_report_exact_witness : exists k' bs,
  FIRCLSSignalRecordSignal crash_images loop_regs (Some crash_context) 2 0x710000 0x700000
    (CrashState crash_world (Some (ReadWriteContext 1 false)) (FileState None crash_phone)) =
  Completes tt (CrashState blotted_world (Some (ReadWriteContext 1 true)) (FileState None k')) /\
  content k' 3 = chars "{}" ++ bs.
Proof.
  destruct (signal_report_exact (TS := arm64) (MK := phone_mach) 30 1000 tt (ReadWriteContext 1 false) crash_images loop_regs crash_context (chars "/signal")
    2 0x710000 0x700000 (Some (11, 1, 0x18)) the_jsons (chars "length") [redact crash_message_text]
    [chars "com.apple.main-thread"; []; []] [chars "main"; []; []] None crash_phone 3
    (phone_open (chars "/signal") 0 crash_phone).2 crash_world blotted_world) as (k' & bs & E & _ & Hc);
    [lia|lia|exact phone_progress|done|exact crash_low|exact crash_wf|exact phone_times|by eexists _, _, _|exact signal_facts|
     done|done|done|done|done|done|].
  exists k', bs. split; [exact E|exact Hc].
Defined.

(** *** The handlers as a whole *)

(** The application had a handler of SIGSEGV and a signal stack. *)
Definition app_context : FIRCLSReadOnlyContext :=
  ReadOnlyContext true (Some (chars "/marker")) (Some (chars "/documents")) 16384 0x800000 0x810000
    (SignalReadContext (Some (chars "/signal")) (<[4%nat := SigAction 0x520000 0 0x40]> (replicate 7 (SigAction 0 0 0)))
      (AltStack 0x820000 4096 0))
    (MachReadContext 0 0 (Some (chars "/mach")) 0 []).

Lemma signal_handled_witness : exists s,
  FIRCLSSignalHandler crash_images loop_regs (Some app_context) 11 0x710000 0x700000
    (CrashState crash_world (Some (ReadWriteContext 1 false)) (FileState None crash_phone)) = Completes tt s /\
  errno (kernel_of s) = 7 /\ the_writable s = Some (ReadWriteContext 1 true) /\
  action_of (kernel_of s) 11 = SigAction 0x520000 0 0x40 /\ action_of (kernel_of s) 6 = default_action.
Proof.
  destruct (signal_handled (TS := arm64) (MK := phone_mach) 30 1000 tt (ReadWriteContext 1 false) crash_images loop_regs app_context
    (chars "/signal") 11 0x710000 0x700000 (Some (11, 1, 0x18)) true the_jsons (chars "length") [redact crash_message_text]
    [chars "com.apple.main-thread"; []; []] [chars "main"; []; []] None crash_phone crash_world blotted_world)
    as (k1 & _ & _ & H); [lia|lia|exact phone_progress|done|exact crash_low|exact crash_wf|exact phone_times|by eexists _, _, _|
     exact signal_facts|reflexivity|reflexivity|reflexivity|reflexivity|done| | |reflexivity|].
  - right. intros j original Hj Eo Hnz. exists (fun _ _ _ k => k). split; [|done].
    do 7 (destruct j as [|j]; [cbn in Hj, Eo; simplify_eq; done|]). done.
  - right. intros original f k _ Ef. unfold function_at in Ef. cbn in Ef. case_match; by simplify_eq.
  - destruct (sys_open (chars "/signal") append_mask k1) as [d k2] eqn:Eo.
    destruct (H d k2 eq_refl) as (s3 & k' & bs & _ & E & Es & _ & He & Hback). eexists. split; [exact E|]. split; [exact He|].
    split; [by rewrite Es|]. split; [exact (Hback 11 ltac:(by apply (bool_decide_unpack _)))|].
    exact (Hback 6 ltac:(by apply (bool_decide_unpack _))).
Defined.

(** Evaluated: the report, the handler of the application in force again, [errno]. *)
Example ex_signal_handled :
  match FIRCLSSignalHandler crash_images loop_regs (Some app_context) 11 0x710000 0
          (CrashState crash_world (Some (ReadWriteContext 1 false)) (FileState None crash_phone)) with
  | Completes _ s => (action_of (kernel_of s) <$> [6; 11]) = [default_action; SigAction 0x520000 0 0x40] /\
      errno (kernel_of s) = 7 /\ match m_files (kernel_of s) !! chars "/signal" with Some bs => chars "{}" <> bs | None => False end
  | _ => False
  end.
Proof. vm_compute. by split_and!. Qed.

(** *** An exception *)

Definition ex_message : MachExceptionMessage := MachMessage 0x11 0x1203 2405 0x303 0x103 1 2 [1; 0x18].

Definition the_mach_context : FIRCLSMachExceptionReadContext :=
  MachReadContext 0x703 0x900 (Some (chars "/mach")) 4174 [OriginalPort 6 0x2203 1 5].

Definition exception_process : FIRCLSProcess := crash_process tt 0x303 0.

Definition exception_jsons : list json := json_of exception_process <$> [0x203; 0x303].

(** The thread of the message did not send a message. *)
Lemma exception_facts :
  crash_facts 1000 tt crash_images loop_regs exception_process crash_world exception_jsons []
    [redact crash_message_text] [chars "com.apple.main-thread"; []; []] [chars "main"; []; []] blotted_world.
Proof.
  split.
  - exists [0x203; 0x303], [0x403]. split; [by vm_compute|].
    split; [do 2 (apply Forall2_cons_2; [apply some_default; by vm_compute|]); apply Forall2_nil_2|].
    split; [intros thread post [= <- _]; by vm_compute|]. apply writable_all. by vm_compute.
  - exists loop_regs. split; [left; by vm_compute|]. by apply no_selector.
  - split; [by apply short_check|]. do 3 (apply Forall_cons_2; [by apply short_check|]). apply Forall_nil_2.
  - exact phone_messages.
  - exact phone_queues.
  - exact phone_names.
Qed.

Lemma exception_report_exact_witness : exists k' bs,
  FIRCLSMachExceptionRecord crash_images loop_regs crash_context (Some the_mach_context) (Some ex_message)
    (CrashState crash_world (Some (ReadWriteContext 1 false)) (FileState None crash_phone)) =
  Completes true (CrashState blotted_world (Some (ReadWriteContext 1 true)) (FileState None k')) /\
  content k' 3 = bs.
Proof.
  destruct (exception_report_exact (TS := arm64) (MK := phone_mach) 30 1000 tt (ReadWriteContext 1 false) crash_images loop_regs
    crash_context the_mach_context (chars "/mach") ex_message exception_jsons [] [redact crash_message_text]
    [chars "com.apple.main-thread"; []; []] [chars "main"; []; []] None crash_phone 3
    (phone_open (chars "/mach") 0 crash_phone).2 crash_world blotted_world) as (k' & bs & E & _ & Hc);
    [lia|lia|exact phone_progress|done|exact crash_low|exact crash_wf|exact phone_times|done|done|exact exception_facts|
     done|done|done|done|done|done|].
  exists k', bs. split; [exact E|exact Hc].
Defined.

(** A phone that waits for the reply to a message of its own, and behind it has one of
    a child process. *)
Definition served_phone (message : MachExceptionMessage) : machine :=
  Machine ∅ ∅ ∅ ∅ (AltStack 0 0 0) {[ 1 := crash_port 0x703; 2 := crash_port 0x703 ]} ∅ 7 [message] [].

(** The phone on which the port was registered. *)
Definition before_phone : machine :=
  Machine ∅ ∅ ∅ ∅ (AltStack 0 0 0) {[ 1 := (0x2203, 1, 5); 2 := (0x2203, 1, 5) ]} ∅ 7 [] [].

Definition ex_child_message : MachExceptionMessage := MachMessage 0x11 0x1303 2405 0x503 0x999 1 2 [1; 0x18].

Lemma mach_registered : registered before_phone the_mach_context.
Proof.
  split; [done|]. split.
  - intros p ->%list_elem_of_singleton i Hi Hb. cbn [port_mask] in Hb.
    assert (i = 1 \/ i = 2) as [-> | ->]; [|by split; [|by vm_compute]..].
    destruct (Z.leb_spec 3 i); [by rewrite Z.bits_above_log2 in Hb by (cbn; lia)|].
    destruct (decide (i = 0)) as [->|]; [done|lia].
  - intros i [Hi Hb]. unfold exception_port. cbn. unfold port_of. cbn [m_ports before_phone].
    destruct (decide (i = 1)) as [->|]; [left; eexists; split; [by left|done]|].
    destruct (decide (i = 2)) as [->|]; [left; eexists; split; [by left|done]|].
    right. by rewrite lookup_insert_ne, lookup_singleton_ne by lia.
Qed.

Lemma mach_accepted : ports_accepted (originalPorts the_mach_context).
Proof.
  destruct (phone_swap FIRCLSMachExceptionMask 0 0 0 before_phone) as [[status ports] k] eqn:E.
  destruct (phone_ports_live _ _ _ _ _ _ _ _ E) as [_ Hnull]. split; [|exact Hnull].
  intros p k2 ->%list_elem_of_singleton. apply set_parts.
Qed.

Definition served_state (message : MachExceptionMessage) : crash_state :=
  CrashState crash_world (Some (ReadWriteContext 1 false)) (FileState None (served_phone message)).

Lemma exception_served_witness :
  (exists k1 d k2 s status k,
    port_restored (0x2203, 1, 5) (exception_port k1 1) /\ action_of k1 11 = default_action /\
    sys_open (chars "/mach") append_mask k1 = (d, k2) /\
    send_reply (reply_to ex_message (if 0 <=? d then KERN_SUCCESS else KERN_FAILURE)) (kernel_of s) = (status, k) /\
    FIRCLSMachExceptionServer crash_images loop_regs crash_context 2 the_mach_context (served_state ex_message) =
      (if status =? 0 then FIRCLSMachExceptionServer crash_images loop_regs crash_context 1 the_mach_context else mret tt)
        (with_kernel s k) /\
    (0 <= d -> the_world s = blotted_world /\ exists bs, contents k d = contents k2 d ++ bs /\
      exception_report crash_context exception_process the_mach_context ex_message exception_jsons [] [redact crash_message_text]
        [chars "com.apple.main-thread"; []; []] [chars "main"; []; []] bs)) /\
  exists status k2,
    FIRCLSMachExceptionServer crash_images loop_regs crash_context 2 the_mach_context (served_state ex_child_message) =
      (if status =? 0 then FIRCLSMachExceptionServer crash_images loop_regs crash_context 1 the_mach_context else mret tt)
        (CrashState crash_world (Some (ReadWriteContext 1 false)) (FileState None k2)).
Proof.
  assert (Hgot : forall message, receive_message (mach_port the_mach_context) (served_phone message) =
    (Some message, with_mail (served_phone message) [] [])) by done.
  pose proof (exception_served (TS := arm64) (MK := phone_mach) 30 1000 tt (ReadWriteContext 1 false) crash_images loop_regs
    crash_context the_mach_context (chars "/mach") ex_message before_phone true 1 exception_jsons [] [redact crash_message_text]
    [chars "com.apple.main-thread"; []; []] [chars "main"; []; []] None (served_phone ex_message) _ crash_world blotted_world
    (Hgot ex_message)) as Hown.
  destruct Hown as (k1 & _ & Hback & Hports & H);
    [lia|lia|exact phone_progress|done|exact crash_low|exact crash_wf|exact phone_times|done|done|exact exception_facts|
     done|done|done|done|exact mach_registered|exact mach_accepted|done|done|].
  split.
  - destruct (sys_open (chars "/mach") append_mask k1) as [d k2] eqn:Eo. destruct (H d k2 eq_refl) as (s3 & bs & status & k4 & _ & Es & E & Es3 & Hbs).
    exists k1, d, k2, s3, status, k4. split; [apply (Hports 1); by split|].
    split; [exact (Hback 11 ltac:(by apply (bool_decide_unpack _)))|]. split; [exact Eo|]. split; [exact Es|]. split; [exact E|].
    intros Hd. rewrite (proj2 (Z.leb_le 0 d) Hd) in Hbs, Es3. split; [by rewrite Es3|]. exists bs. destruct Hbs as [Hr Hc]. split; [exact Hc|exact Hr].
  - destruct (exception_served (TS := arm64) (MK := phone_mach) 30 1000 tt (ReadWriteContext 1 false) crash_images loop_regs
      crash_context the_mach_context (chars "/mach") ex_child_message before_phone true 1 [] [] [] [] [] None
      (served_phone ex_child_message) _ crash_world crash_world (Hgot ex_child_message)) as (status & k2 & _ & E).
    by exists status, k2.
Defined.

(** The replies to both, and the states they leave. *)
Example ex_served :
  match FIRCLSMachExceptionServer crash_images loop_regs crash_context 2 the_mach_context (served_state ex_message) with
  | Completes _ s => m_sent (kernel_of s) = [MachReply 0x11 0x1203 2505 0] /\
      (exception_port (kernel_of s) <$> [1; 2]) = [(0x2203, 1, 5); (0x2203, 1, 5)] /\
      match m_files (kernel_of s) !! chars "/mach" with Some _ => True | None => False end
  | _ => False
  end.
Proof. by vm_compute. Qed.

Example ex_child_refused :
  match FIRCLSMachExceptionServer crash_images loop_regs crash_context 2 the_mach_context (served_state ex_child_message) with
  | Completes _ s => m_sent (kernel_of s) = [MachReply 0x11 0x1303 2505 5] /\ m_ports (kernel_of s) !! 1 = Some (crash_port 0x703) /\
      m_files (kernel_of s) = ∅
  | _ => False
  end.
Proof. by vm_compute. Qed.

Lemma redaction_exact_witness : exists m,
  FIRCLSRedactUUID 0x900100 crash_world = Done tt (set_mem m crash_world) /\
  holds m 0x900100 (c_string (chars "assertion (********-****-****-****-************) failed")).
Proof.
  destruct (redaction_exact 0x900100 crash_message_text crash_world) as (m & E & Hh & _);
    [done|by apply (bool_decide_unpack _)|by vm_compute|]. rewrite ex_blotted in Hh. exists m. split; [exact E|exact Hh].
Defined.

Lemma second_crash_exits_witness : exists s,
  record_crash crash_images loop_regs crash_context (ByException the_mach_context ex_message)
    (CrashState crash_world (Some (ReadWriteContext 1 true)) (FileState None crash_phone)) = Exits 1 s /\
  s = CrashState crash_world (Some (ReadWriteContext 1 true)) (FileState None crash_phone).
Proof.
  destruct (record_signal_run 30 1000 (tt : @tasks phone arm64 phone_mach) (ReadWriteContext 1 false) crash_images loop_regs
    crash_context (chars "/signal") 2 0x710000 0x700000 (Some (11, 1, 0x18)) the_jsons (chars "length") [redact crash_message_text]
    [chars "com.apple.main-thread"; []; []] [chars "main"; []; []] None crash_phone 3
    (phone_open (chars "/signal") 0 crash_phone).2 crash_world blotted_world) as (k' & bs & E & _);
    [lia|exact crash_low|exact crash_wf|exact phone_times|by eexists _, _, _|exact signal_facts|done|done|done|done|done|done|].
  destruct (second_crash_exits crash_images loop_regs crash_context (BySignal 2 0x710000 0x700000) _ _ eq_refl E) as [_ H].
  eexists. split; [apply H; reflexivity|reflexivity].
Defined.

(** *** What is restored *)

(** Before Crashlytics, SIGSEGV had a handler and SIGABRT the default action. *)
Definition app_phone : machine :=
  Machine ∅ ∅ ∅ {[ 11 := SigAction 0x520000 0 0x40 ]} (AltStack 0x820000 4096 0) {[ 1 := (0x2203, 1, 5); 2 := (0x2203, 1, 5) ]} ∅ 7 [] [].

Definition app_state : crash_state := CrashState crash_world (Some (ReadWriteContext 1 false)) (FileState None app_phone).

Definition signal_context_of : FIRCLSSignalReadContext :=
  SignalReadContext (Some (chars "/signal")) (replicate 7 (SigAction 0 0 0)) (AltStack 0 0 0).

Lemma signals_restored_witness : exists roContext k,
  FIRCLSSignalInitialize 0x800000 signal_context_of app_state = Completes roContext (with_kernel app_state k) /\
  action_of k 11 = crash_action /\
  exists k', FIRCLSSignalSafeInstallPreexistingHandlers roContext (-1) 0 0 (with_kernel app_state k) =
      Completes true (with_kernel (with_kernel app_state k) k') /\
    action_of k' 11 = SigAction 0x520000 0 0x40 /\ action_of k' 6 = default_action.
Proof.
  destruct (signals_restored 0x800000 signal_context_of app_state) as (ro & k & E & Hours & _ & _ & H & _); [reflexivity|].
  destruct (H (-1) 0 0 true (with_kernel app_state k)) as (k' & E' & _ & Hback & _); [left; lia| |].
  { unfold stack_accepted. case_match; [done|]. intros k0. reflexivity. }
  exists ro, k. split; [exact E|]. split; [apply Hours; by apply (bool_decide_unpack _)|]. exists k'. split; [exact E'|].
  split; [exact (Hback 11 ltac:(by apply (bool_decide_unpack _)))|exact (Hback 6 ltac:(by apply (bool_decide_unpack _)))].
Defined.

(** Both, evaluated, and the handler of SIGSEGV called. *)
Example ex_signals :
  match FIRCLSSignalInitialize 0x800000 signal_context_of app_state with
  | Completes ro s =>
      match FIRCLSSignalSafeInstallPreexistingHandlers ro 11 0x710000 0x700000 s with
      | Completes ok s' => ok = true /\ action_of (kernel_of s') 11 = SigAction 0x520000 0 0x40 /\
          stack_of (kernel_of s') = AltStack 0x820000 4096 0
      | _ => False
      end
  | _ => False
  end.
Proof. by vm_compute. Qed.

Definition no_mach_context : FIRCLSMachExceptionReadContext := MachReadContext 0 0 (Some (chars "/mach")) 0 [].

Lemma exception_ports_restored_witness : exists ok context k,
  FIRCLSMachExceptionRegister no_mach_context app_state = Completes (ok, context) (with_kernel app_state k) /\
  (ok = true -> exception_port k 1 = crash_port (mach_port context) /\
    exists k', FIRCLSMachExceptionUnregister (originalPorts context) (mach_mask context) (with_kernel app_state k) =
        Completes true (with_kernel (with_kernel app_state k) k') /\
      port_restored (0x2203, 1, 5) (exception_port k' 1) /\ port_restored (0, 0, 0) (exception_port k' 3)).
Proof.
  destruct (exception_ports_restored no_mach_context app_state phone_ports_live) as (ok & c & k & E & _ & H).
  exists ok, c, k. split; [exact E|]. intros Hok. destruct (H Hok) as [Hours Hback].
  split; [apply Hours; by split|]. destruct (Hback (with_kernel app_state k)) as (k' & E' & Hin & _).
  exists k'. split; [exact E'|]. split; [apply (Hin 1); by split|apply (Hin 3); by split].
Defined.

Lemma exception_init_all_or_nothing_witness : exists context k,
  FIRCLSMachExceptionInit 0x810000 no_mach_context app_state = Completes context (with_kernel app_state k) /\
  exception_port k 10 = exception_port app_phone 10.
Proof.
  destruct (exception_init_all_or_nothing 0x810000 no_mach_context app_state phone_ports_live) as (c & k & E & Hothers & _).
  exists c, k. split; [exact E|]. apply Hothers; [lia|]. by intros [_ H].
Defined.

(** The ports after registration, and after unregistering. *)
Example ex_ports :
  match FIRCLSMachExceptionInit 0x810000 no_mach_context app_state with
  | Completes c s =>
      (exception_port (kernel_of s) <$> [1; 2; 3; 10]) = [(0x703, 0x80000001, 5); (0x703, 0x80000001, 5); (0x703, 0x80000001, 5); (0, 0, 0)] /\
      match FIRCLSMachExceptionUnregister (originalPorts c) (mach_mask c) s with
      | Completes ok s' => ok = true /\
          (exception_port (kernel_of s') <$> [1; 2; 3; 10]) = [(0x2203, 1, 5); (0x2203, 1, 5); (0, 0x80000001, 5); (0, 0, 0)]
      | _ => False
      end
  | _ => False
  end.
Proof. by vm_compute. Qed.

Lemma threads_resumed_witness : exists ok k,
  FIRCLSProcessSuspendAllOtherThreads the_process app_state = Completes ok (with_kernel app_state k) /\
  stepped the_process 1 app_phone k (process_threads the_process) ok.
Proof.
  destruct (threads_resumed the_process app_state) as (ok & k & E & Hst & _); [reflexivity|].
  exists ok, k. split; [exact E|exact Hst].
Defined.

(** ** Where the code does something else than it means to *)

(** When one thread cannot be resumed, those behind it stay suspended. *)
Definition resume_some (thread : Z) (k : kernel) : Z * kernel :=
  if thread =? 0x303 then (4, k) else thread_resume thread k.

Example ex_resume_stops :
  match FIRCLSProcessSuspendAllOtherThreads the_process app_state with
  | Completes ok s =>
      match other_threads_loop 3 the_process 0 resume_some true s with
      | Completes ok' s' => ok = true /\ ok' = false /\ (suspend_count (kernel_of s') <$> [0x203; 0x303; 0x403]) = [0; 1; 1]
      | _ => False
      end
  | _ => False
  end.
Proof. by vm_compute. Qed.

(** An action that ignores a signal is not null, and its value is called. *)
Example ex_ignored_signal_called :
  match FIRCLSSignalSafeInstallPreexistingHandlers
    (SignalReadContext None (replicate 7 (SigAction 1 0 0)) (AltStack 0 0 0)) 11 0 0 app_state with
  | Faults => True
  | _ => False
  end.
Proof. by vm_compute. Qed.

(** Seconds are multiplied by a million as an [int]. *)
Example ex_time_overflows :
  match time_microseconds (TimeValue 2148 0) app_state with Faults => True | _ => False end.
Proof. by vm_compute. Qed.

(** A string is said to be readable, although it does not end in memory. *)
Definition unterminated_world : world := world_of (mem_of [(0x5000, replicate 128 65)]) 0x6000 0x7000.

Example ex_unterminated :
  match FIRCLSReadString 0x5000 128 unterminated_world with
  | Done readable w => readable = true /\ load_string 0x5000 w = Fault
  | _ => False
  end.
Proof. by vm_compute. Qed.

(** Only one UUID is blotted out. *)
Example ex_second_uuid :
  redact (chars "(12345678-1234-1234-1234-1234567890ab) (12345678-1234-1234-1234-1234567890ab)") =
  chars "(********-****-****-****-************) (12345678-1234-1234-1234-1234567890ab)".
Proof. by vm_compute. Qed.
