(* ===== verification/Base64.v ===== *)
(** BoringSSL's base64 (crypto/base64/base64.c): encoding and decoding in one go and
    as a stream, over the constant-time operations of crypto/internal.h that they use.

    A buffer is the list of its bytes, and a pointer into it an offset; [None] is a
    read or a write outside of a buffer, an assertion that fails, or fuel that ran
    out. The buffers of a call do not overlap. A word has 64 bits. *)
From S2P Require Import Prelude.

(** ** Constant-time operations *)

(** It hides its argument from the optimiser. *)
Definition value_barrier_w (a : Z) : Z := a.

Definition constant_time_msb_w (a : Z) : Z := wrap 64 (0 - Z.shiftr a 63).

Definition constant_time_is_zero_w (a : Z) : Z := constant_time_msb_w (Z.land (wrap 64 (Z.lnot a)) (wrap 64 (a - 1))).

Definition constant_time_eq_w (a b : Z) : Z := constant_time_is_zero_w (Z.lxor a b).

Definition constant_time_eq_8 (a b : Z) : Z := wrap 8 (constant_time_eq_w a b).

Definition constant_time_select_w (mask a b : Z) : Z :=
  Z.lor (Z.land (value_barrier_w mask) a) (Z.land (value_barrier_w (wrap 64 (Z.lnot mask))) b).

Definition constant_time_select_8 (mask a b : Z) : Z := wrap 8 (constant_time_select_w mask a b).

Definition constant_time_lt_args_8 (a b : Z) : Z := wrap 8 (constant_time_msb_w (wrap 64 (a - b))).

Definition constant_time_in_range_8 (a min max : Z) : Z :=
  let a := wrap 8 (a - min) in
  constant_time_lt_args_8 a (wrap 8 (max - min + 1)).

(** ** Buffers *)

Definition set_byte (buffer : list Z) (i : nat) (v : Z) : option (list Z) :=
  if (i <? length buffer)%nat then Some (<[i := v]> buffer) else None.

(** [OPENSSL_memcpy(&dst[d], &src[s], n)] *)
Definition OPENSSL_memcpy (dst : list Z) (d : nat) (src : list Z) (s n : nat) : option (list Z) :=
  if ((d + n <=? length dst) && (s + n <=? length src))%nat then
    Some (take d dst ++ take n (drop s src) ++ drop (d + n) dst)
  else None.

Record EVP_ENCODE_CTX := EncodeCtx {
  data_used : Z;
  data : list Z;
  eof_seen : bool;
  error_encountered : bool
}.

(** [sizeof(ctx->data)] *)
Definition sizeof_data : nat := 48.

(** [OPENSSL_memset(ctx, 0, sizeof(EVP_ENCODE_CTX))] *)
Definition zero_ctx : EVP_ENCODE_CTX := EncodeCtx 0 (replicate sizeof_data 0) false false.

Definition EVP_EncodeInit : EVP_ENCODE_CTX := zero_ctx.
Definition EVP_DecodeInit : EVP_ENCODE_CTX := zero_ctx.

(** ** Encoding *)

Definition conv_bin2ascii (a : Z) : Z :=
  let a := Z.land a 0x3f in
  let ret := constant_time_select_8 (constant_time_eq_8 a 62) 43 47 in
  let ret := constant_time_select_8 (constant_time_lt_args_8 a 62) (wrap 8 (a - 52 + 48)) ret in
  let ret := constant_time_select_8 (constant_time_lt_args_8 a 52) (wrap 8 (a - 26 + 97)) ret in
  constant_time_select_8 (constant_time_lt_args_8 a 26) (wrap 8 (a + 65)) ret.

(** [*out_len], when the result is 1. *)
Definition EVP_EncodedLength (len : Z) : option Z :=
  if wrap 64 (len + 2) <? len then None
  else
    let len := wrap 64 (len + 2) in
    let len := len / 3 in
    if negb (Z.shiftr (wrap 64 (Z.shiftl len 2)) 2 =? len) then None
    else
      let len := wrap 64 (Z.shiftl len 2) in
      if wrap 64 (len + 1) <? len then None else Some (wrap 64 (len + 1)).

(** The parameter of [conv_bin2ascii] is a uint8_t. *)
Definition conv (l : Z) : Z := conv_bin2ascii (wrap 8 l).

(** [while (remaining)], with the rounds that are left: the buffer, the offset of
    [dst] and [ret]. *)
Fixpoint encode_block_loop (rounds : nat) (dst : list Z) (d : nat) (src : list Z) (s : nat) (remaining ret : Z)
    : option (list Z * nat * Z) :=
  match rounds with
  | O => None
  | S rounds =>
      if remaining =? 0 then Some (dst, d, ret)
      else
        '(dst, remaining) ←
          (if 3 <=? remaining then
             s0 ← src !! s; s1 ← src !! S s; s2 ← src !! S (S s);
             let l := Z.lor (Z.lor (Z.shiftl s0 16) (Z.shiftl s1 8)) s2 in
             dst ← set_byte dst d (conv (Z.shiftr l 18));
             dst ← set_byte dst (d + 1) (conv (Z.shiftr l 12));
             dst ← set_byte dst (d + 2) (conv (Z.shiftr l 6));
             dst ← set_byte dst (d + 3) (conv l);
             Some (dst, remaining - 3)
           else
             s0 ← src !! s;
             let l := Z.shiftl s0 16 in
             l ← (if remaining =? 2 then s1 ← src !! S s; Some (Z.lor l (Z.shiftl s1 8)) else Some l);
             dst ← set_byte dst d (conv (Z.shiftr l 18));
             dst ← set_byte dst (d + 1) (conv (Z.shiftr l 12));
             dst ← set_byte dst (d + 2) (if remaining =? 1 then 61 else conv (Z.shiftr l 6));
             dst ← set_byte dst (d + 3) 61;
             Some (dst, 0));
        encode_block_loop rounds dst (d + 4) src (s + 3) remaining (wrap 64 (ret + 4))
  end.

(** [EVP_EncodeBlock(&dst[d], &src[s], src_len)] *)
Definition EVP_EncodeBlock (dst : list Z) (d : nat) (src : list Z) (s : nat) (src_len : Z) : option (list Z * Z) :=
  '(dst, d, ret) ← encode_block_loop (S (Z.to_nat src_len)) dst d src s src_len 0;
  dst ← set_byte dst d 0;
  Some (dst, ret).

(** [EVP_EncodeBlock] at [&out[o]], and the newline and the terminator behind it: the
    buffer, the offset of the terminator, and [encoded]. *)
Definition encode_line (out : list Z) (o : nat) (src : list Z) (s : nat) (src_len : Z) : option (list Z * nat * Z) :=
  '(out, encoded) ← EVP_EncodeBlock out o src s src_len;
  let o := (o + Z.to_nat encoded)%nat in
  out ← set_byte out o 10;
  let o := S o in
  out ← set_byte out o 0;
  Some (out, o, encoded).

(** [while (in_len >= sizeof(ctx->data))]: the buffer, the offset of [in], [in_len] and
    [total], [None] when the function returns from within the loop. *)
Fixpoint encode_update_loop (rounds : nat) (out : list Z) (o : nat) (input : list Z) (i : nat) (in_len total : Z)
    : option (list Z * option (nat * Z * Z)) :=
  match rounds with
  | O => None
  | S rounds =>
      if negb (Z.of_nat sizeof_data <=? in_len) then Some (out, Some (i, in_len, total))
      else
        '(out, o, encoded) ← encode_line out o input i (Z.of_nat sizeof_data);
        let i := (i + sizeof_data)%nat in
        let in_len := in_len - Z.of_nat sizeof_data in
        if wrap 64 (wrap 64 (total + encoded) + 1) <? total then Some (out, None)
        else encode_update_loop rounds out o input i in_len (wrap 64 (total + (wrap 64 (encoded + 1))))
  end.

(** limits.h *)
Definition INT_MAX : Z := 2 ^ 31 - 1.

(** The context, the buffer and [*out_len]. *)
Definition EVP_EncodeUpdate (ctx : EVP_ENCODE_CTX) (out : list Z) (input : list Z) (in_len : Z)
    : option (EVP_ENCODE_CTX * list Z * Z) :=
  if in_len =? 0 then Some (ctx, out, 0)
  else if negb (data_used ctx <? Z.of_nat sizeof_data) then None
  else if in_len <? Z.of_nat sizeof_data - data_used ctx then
    buffered ← OPENSSL_memcpy (data ctx) (Z.to_nat (data_used ctx)) input 0 (Z.to_nat in_len);
    Some (EncodeCtx (wrap 32 (data_used ctx + wrap 32 in_len)) buffered (eof_seen ctx) (error_encountered ctx), out, 0)
  else
    '(ctx, out, o, i, in_len, total) ←
      (if negb (data_used ctx =? 0) then
         let todo := Z.of_nat sizeof_data - data_used ctx in
         buffered ← OPENSSL_memcpy (data ctx) (Z.to_nat (data_used ctx)) input 0 (Z.to_nat todo);
         '(out, o, encoded) ← encode_line out 0 buffered 0 (Z.of_nat sizeof_data);
         Some (EncodeCtx 0 buffered (eof_seen ctx) (error_encountered ctx), out, o, Z.to_nat todo, in_len - todo,
               wrap 64 (encoded + 1))
       else Some (ctx, out, 0%nat, 0%nat, in_len, 0));
    '(out, rest) ← encode_update_loop (S (Z.to_nat in_len)) out o input i in_len total;
    match rest with
    | None => Some (ctx, out, 0)
    | Some (i, in_len, total) =>
        buffered ← (if negb (in_len =? 0) then OPENSSL_memcpy (data ctx) 0 input i (Z.to_nat in_len) else Some (data ctx));
        let total := if INT_MAX <? total then 0 else total in
        Some (EncodeCtx (wrap 32 in_len) buffered (eof_seen ctx) (error_encountered ctx), out, to_signed 32 total)
    end.

Definition EVP_EncodeFinal (ctx : EVP_ENCODE_CTX) (out : list Z) : option (EVP_ENCODE_CTX * list Z * Z) :=
  if data_used ctx =? 0 then Some (ctx, out, 0)
  else
    '(out, encoded) ← EVP_EncodeBlock out 0 (data ctx) 0 (data_used ctx);
    out ← set_byte out (Z.to_nat encoded) 10;
    let encoded := wrap 64 (encoded + 1) in
    out ← set_byte out (Z.to_nat encoded) 0;
    let ctx := EncodeCtx 0 (data ctx) (eof_seen ctx) (error_encountered ctx) in
    if negb (encoded <=? INT_MAX) then None else Some (ctx, out, to_signed 32 encoded).

(** ** Decoding *)

(** [*out_len], when the result is 1. *)
Definition EVP_DecodedLength (len : Z) : option Z :=
  if negb (len mod 4 =? 0) then None else Some (wrap 64 (len / 4 * 3)).

Definition base64_ascii_to_bin (a : Z) : Z :=
  let is_upper := constant_time_in_range_8 a 65 90 in
  let is_lower := constant_time_in_range_8 a 97 122 in
  let is_digit := constant_time_in_range_8 a 48 57 in
  let is_plus := constant_time_eq_8 a 43 in
  let is_slash := constant_time_eq_8 a 47 in
  let is_equals := constant_time_eq_8 a 61 in
  let ret := 0 in
  let ret := wrap 8 (Z.lor ret (Z.land is_upper (a - 65))) in
  let ret := wrap 8 (Z.lor ret (Z.land is_lower (a - 97 + 26))) in
  let ret := wrap 8 (Z.lor ret (Z.land is_digit (a - 48 + 52))) in
  let ret := wrap 8 (Z.lor ret (Z.land is_plus 62)) in
  let ret := wrap 8 (Z.lor ret (Z.land is_slash 63)) in
  let is_valid := Z.lor (Z.lor (Z.lor (Z.lor (Z.lor is_upper is_lower) is_digit) is_plus) is_slash) is_equals in
  wrap 8 (Z.lor ret (Z.lnot is_valid)).

Definition is_equals (c : Z) : Z := if c =? 61 then 1 else 0.

(** [base64_decode_quad(&out[o], &n, &in[i])]: the buffer and [n], when the result is 1,
    and the inner [None] when it is 0. *)
Definition base64_decode_quad (out : list Z) (o : nat) (input : list Z) (i : nat) : option (option (list Z * Z)) :=
  in0 ← input !! i; in1 ← input !! S i; in2 ← input !! S (S i); in3 ← input !! S (S (S i));
  let a := base64_ascii_to_bin in0 in
  let b := base64_ascii_to_bin in1 in
  let c := base64_ascii_to_bin in2 in
  let d := base64_ascii_to_bin in3 in
  if (a =? 0xff) || (b =? 0xff) || (c =? 0xff) || (d =? 0xff) then Some None
  else
    let v := Z.lor (Z.lor (Z.lor (Z.shiftl a 18) (Z.shiftl b 12)) (Z.shiftl c 6)) d in
    let padding_pattern :=
      Z.lor (Z.lor (Z.lor (Z.shiftl (is_equals in0) 3) (Z.shiftl (is_equals in1) 2)) (Z.shiftl (is_equals in2) 1)) (is_equals in3) in
    if padding_pattern =? 0 then
      out ← set_byte out o (wrap 8 (Z.shiftr v 16));
      out ← set_byte out (o + 1) (wrap 8 (Z.shiftr v 8));
      out ← set_byte out (o + 2) (wrap 8 v);
      Some (Some (out, 3))
    else if padding_pattern =? 1 then
      out ← set_byte out o (wrap 8 (Z.shiftr v 16));
      out ← set_byte out (o + 1) (wrap 8 (Z.shiftr v 8));
      Some (Some (out, 2))
    else if padding_pattern =? 3 then
      out ← set_byte out o (wrap 8 (Z.shiftr v 16));
      Some (Some (out, 1))
    else Some None.

Definition is_space (c : Z) : bool := (c =? 32) || (c =? 9) || (c =? 13) || (c =? 10).

(** [for (i = 0; i < in_len; i++)], with the rounds that are left: the context, the
    buffer and [bytes_out], [None] when the function returns -1 from within the loop. *)
Fixpoint decode_update_loop (rounds : nat) (ctx : EVP_ENCODE_CTX) (out : list Z) (o : nat) (input : list Z) (i : nat)
    (in_len bytes_out : Z) : option (EVP_ENCODE_CTX * list Z * option Z) :=
  match rounds with
  | O => None
  | S rounds =>
      if negb (Z.of_nat i <? in_len) then Some (ctx, out, Some bytes_out)
      else
        c ← input !! i;
        if is_space c then decode_update_loop rounds ctx out o input (S i) in_len bytes_out
        else if eof_seen ctx then Some (EncodeCtx (data_used ctx) (data ctx) (eof_seen ctx) true, out, None)
        else
          collected ← set_byte (data ctx) (Z.to_nat (data_used ctx)) c;
          let ctx := EncodeCtx (wrap 32 (data_used ctx + 1)) collected (eof_seen ctx) (error_encountered ctx) in
          if data_used ctx =? 4 then
            decoded ← base64_decode_quad out o (data ctx) 0;
            match decoded with
            | None => Some (EncodeCtx (data_used ctx) (data ctx) (eof_seen ctx) true, out, None)
            | Some (out, num_bytes_resulting) =>
                let eof := if num_bytes_resulting <? 3 then true else eof_seen ctx in
                decode_update_loop rounds (EncodeCtx 0 (data ctx) eof (error_encountered ctx)) out
                  (o + Z.to_nat num_bytes_resulting) input (S i) in_len (wrap 64 (bytes_out + num_bytes_resulting))
            end
          else decode_update_loop rounds ctx out o input (S i) in_len bytes_out
  end.

(** The context, the buffer, [*out_len] and the result. *)
Definition EVP_DecodeUpdate (ctx : EVP_ENCODE_CTX) (out : list Z) (input : list Z) (in_len : Z)
    : option (EVP_ENCODE_CTX * list Z * Z * Z) :=
  if error_encountered ctx then Some (ctx, out, 0, -1)
  else
    '(ctx, out, bytes_out) ← decode_update_loop (S (Z.to_nat in_len)) ctx out 0 input 0 in_len 0;
    match bytes_out with
    | None => Some (ctx, out, 0, -1)
    | Some bytes_out =>
        if INT_MAX <? bytes_out then Some (EncodeCtx (data_used ctx) (data ctx) (eof_seen ctx) true, out, 0, -1)
        else if eof_seen ctx then Some (ctx, out, to_signed 32 bytes_out, 0)
        else Some (ctx, out, to_signed 32 bytes_out, 1)
    end.

(** [*out_len] and the result; nothing is written to the buffer. *)
Definition EVP_DecodeFinal (ctx : EVP_ENCODE_CTX) : Z * Z :=
  if error_encountered ctx || negb (data_used ctx =? 0) then (0, -1) else (0, 1).

(** [for (i = 0; i < in_len; i += 4)]: the buffer, and [bytes_out], [None] when the
    function returns 0 from within the loop. *)
Fixpoint decode_base64_loop (rounds : nat) (out : list Z) (o : nat) (input : list Z) (i : nat) (in_len bytes_out : Z)
    : option (list Z * option Z) :=
  match rounds with
  | O => None
  | S rounds =>
      if negb (Z.of_nat i <? in_len) then Some (out, Some bytes_out)
      else
        decoded ← base64_decode_quad out o input i;
        match decoded with
        | None => Some (out, None)
        | Some (out, num_bytes_resulting) =>
            let bytes_out := wrap 64 (bytes_out + num_bytes_resulting) in
            let o := (o + Z.to_nat num_bytes_resulting)%nat in
            if negb (num_bytes_resulting =? 3) && negb (Z.of_nat i =? in_len - 4) then Some (out, None)
            else decode_base64_loop rounds out o input (i + 4) in_len bytes_out
        end
  end.

(** The buffer, [*out_len] and the result. *)
Definition EVP_DecodeBase64 (out : list Z) (max_out : Z) (input : list Z) (s : nat) (in_len : Z) : option (list Z * Z * Z) :=
  if negb (in_len mod 4 =? 0) then Some (out, 0, 0)
  else
    match EVP_DecodedLength in_len with
    | None => Some (out, 0, 0)
    | Some max_len =>
        if max_out <? max_len then Some (out, 0, 0)
        else
          '(out, bytes_out) ← decode_base64_loop (S (Z.to_nat in_len)) out 0 (drop s input) 0 in_len 0;
          match bytes_out with None => Some (out, 0, 0) | Some bytes_out => Some (out, bytes_out, 1) end
    end.

(** The loops that move past spaces and tabs at the start, and spaces at the end. *)
Fixpoint trim_start (rounds : nat) (src : list Z) (s : nat) (src_len : Z) : option (nat * Z) :=
  match rounds with
  | O => None
  | S rounds =>
      if negb (0 <? src_len) then Some (s, src_len)
      else
        c ← src !! s;
        if negb (c =? 32) && negb (c =? 9) then Some (s, src_len)
        else trim_start rounds src (S s) (src_len - 1)
  end.

Fixpoint trim_end (rounds : nat) (src : list Z) (s : nat) (src_len : Z) : option Z :=
  match rounds with
  | O => None
  | S rounds =>
      if negb (0 <? src_len) then Some src_len
      else
        c ← src !! (s + Z.to_nat (src_len - 1))%nat;
        if is_space c then trim_end rounds src s (src_len - 1) else Some src_len
  end.

(** [while (dst_len % 3 != 0)] *)
Fixpoint pad_loop (rounds : nat) (dst : list Z) (dst_len : Z) : option (list Z * Z) :=
  match rounds with
  | O => None
  | S rounds =>
      if dst_len mod 3 =? 0 then Some (dst, dst_len)
      else
        dst ← set_byte dst (Z.to_nat dst_len) 0;
        pad_loop rounds dst (wrap 64 (dst_len + 1))
  end.

(** The buffer and the result. *)
Definition EVP_DecodeBlock (dst : list Z) (src : list Z) (src_len : Z) : option (list Z * Z) :=
  '(s, src_len) ← trim_start (S (Z.to_nat src_len)) src 0 src_len;
  src_len ← trim_end (S (Z.to_nat src_len)) src s src_len;
  match EVP_DecodedLength src_len with
  | None => Some (dst, -1)
  | Some dst_len =>
      if INT_MAX <? dst_len then Some (dst, -1)
      else
        '(dst, dst_len, ok) ← EVP_DecodeBase64 dst dst_len src s src_len;
        if ok =? 0 then Some (dst, -1)
        else
          '(dst, dst_len) ← pad_loop 3 dst dst_len;
          if negb (dst_len <=? INT_MAX) then None else Some (dst, to_signed 32 dst_len)
  end.
