(* ===== verification/Base64Theorems.v ===== *)
(** The properties of BoringSSL's base64: what text the encoder writes, in one go and
    as a stream, that the stream decoder is the decoder of the whole text whatever the
    pieces, and the round trip; and base64 at concrete inputs. *)
From S2P Require Import Prelude File FileFormatSpec Base64.

(** ** Base64 as a function *)

(** 'A' to 'Z', 'a' to 'z', '0' to '9', '+' and '/'. *)
Definition alphabet : list Z := seqZ 65 26 ++ seqZ 97 26 ++ seqZ 48 10 ++ [43; 47].

Definition letter (v : Z) : Z := nth (Z.to_nat v) alphabet 0.

Definition letter_value (c : Z) : option Z := Z.of_nat ∘ fst <$> list_find (eq c) alphabet.

(** The four letters of a number of 24 bits, and its three bytes. *)
Definition letters (v : Z) : list Z :=
  [letter (v / 2 ^ 18 mod 64); letter (v / 2 ^ 12 mod 64); letter (v / 2 ^ 6 mod 64); letter (v mod 64)].
Definition word_bytes (v : Z) : list Z := [v / 2 ^ 16 mod 256; v / 2 ^ 8 mod 256; v mod 256].

(** Three bytes are four letters; the last group is filled up with [=]. *)
Fixpoint base64_text (bs : list Z) : list Z :=
  match bs with
  | a :: b :: c :: bs => letters (a * 2 ^ 16 + b * 2 ^ 8 + c) ++ base64_text bs
  | [a; b] => take 3 (letters (a * 2 ^ 16 + b * 2 ^ 8)) ++ [61]
  | [a] => take 2 (letters (a * 2 ^ 16)) ++ [61; 61]
  | [] => []
  end.

(** The bytes of four characters. *)
Definition decode_quad (a b c d : Z) : option (list Z) :=
  va ← letter_value a; vb ← letter_value b;
  if d =? 61 then
    if c =? 61 then Some (take 1 (word_bytes (va * 2 ^ 18 + vb * 2 ^ 12)))
    else vc ← letter_value c; Some (take 2 (word_bytes (va * 2 ^ 18 + vb * 2 ^ 12 + vc * 2 ^ 6)))
  else vc ← letter_value c; vd ← letter_value d; Some (word_bytes (va * 2 ^ 18 + vb * 2 ^ 12 + vc * 2 ^ 6 + vd)).

(** Only the last group may be filled up. *)
Fixpoint base64_decode (text : list Z) : option (list Z) :=
  match text with
  | [] => Some []
  | a :: b :: c :: d :: text =>
      bs ← decode_quad a b c d;
      if (length bs =? 3)%nat then (bs ++.) <$> base64_decode text
      else match text with [] => Some bs | _ => None end
  | _ => None
  end.

(** Lines of 48 bytes, each with a newline. *)
Definition line (bs : list Z) : list Z := base64_text bs ++ [10].

Fixpoint pem_lines (rounds : nat) (bs : list Z) : list Z :=
  match rounds with
  | O => []
  | S rounds => match bs with [] => [] | _ => line (take sizeof_data bs) ++ pem_lines rounds (drop sizeof_data bs) end
  end.

Definition pem_text (bs : list Z) : list Z := pem_lines (length bs) bs.

(** ** Constant-time operations *)

(** The letters by comparison of values: checked for every byte. *)
Lemma conv_letter a : is_byte a -> conv_bin2ascii a = letter (a mod 64).
Proof.
  intros H%byte_in. revert a H. apply Forall_forall, (bool_decide_unpack _). by vm_compute.
Qed.

Lemma ascii_value c : is_byte c -> base64_ascii_to_bin c = if c =? 61 then 0 else default 0xff (letter_value c).
Proof.
  intros H%byte_in. revert c H. apply Forall_forall, (bool_decide_unpack _). by vm_compute.
Qed.

Lemma letter_value_letter v : 0 <= v < 64 -> letter_value (letter v) = Some v.
Proof.
  intros H. assert (Hin : v ∈ seqZ 0 64) by (by apply elem_of_seqZ). clear H; revert v Hin.
  apply Forall_forall, (bool_decide_unpack _). by vm_compute.
Qed.

Lemma letter_not v : 0 <= v < 64 -> is_byte (letter v) /\ letter v <> 61 /\ is_space (letter v) = false.
Proof.
  intros H. assert (Hin : v ∈ seqZ 0 64) by (by apply elem_of_seqZ). unfold is_byte. clear H; revert v Hin.
  apply Forall_forall, (bool_decide_unpack _). by vm_compute.
Qed.

Lemma letter_value_bounds c v : letter_value c = Some v -> 0 <= v < 64.
Proof.
  unfold letter_value. intros ([i x] & H & ->)%fmap_Some. apply list_find_Some in H as (H%lookup_lt_Some & _). change (length alphabet) with 64%nat in H. cbn. lia.
Qed.

(** ** A text is decoded to its bytes *)

Lemma mod64 x : 0 <= x mod 64 < 64.
Proof. by apply Z.mod_pos_bound. Qed.

Lemma decode_letters v : 0 <= v < 2 ^ 24 ->
  match letters v with [a; b; c; d] => decode_quad a b c d | _ => None end = Some (word_bytes v).
Proof.
  intros Hv. unfold letters, decode_quad. rewrite !letter_value_letter by apply mod64. cbn [mbind option_bind].
  rewrite (proj2 (Z.eqb_neq _ _)) by apply letter_not, mod64. do 2 f_equal.
  change (2 ^ 18) with 262144. change (2 ^ 12) with 4096. change (2 ^ 6) with 64. change (2 ^ 24) with 16777216 in Hv.
  Z.to_euclidean_division_equations; lia.
Qed.

Lemma decode_two v : 0 <= v < 2 ^ 24 -> v mod 2 ^ 12 = 0 ->
  decode_quad (letter (v / 2 ^ 18 mod 64)) (letter (v / 2 ^ 12 mod 64)) 61 61 = Some (take 1 (word_bytes v)).
Proof.
  intros Hv Hm. unfold decode_quad. rewrite !letter_value_letter by apply mod64. cbn [mbind option_bind Z.eqb Pos.eqb].
  do 3 f_equal.
  change (2 ^ 18) with 262144. change (2 ^ 12) with 4096 in *. change (2 ^ 24) with 16777216 in Hv.
  Z.to_euclidean_division_equations; lia.
Qed.

Lemma decode_three v : 0 <= v < 2 ^ 24 -> v mod 2 ^ 6 = 0 ->
  decode_quad (letter (v / 2 ^ 18 mod 64)) (letter (v / 2 ^ 12 mod 64)) (letter (v / 2 ^ 6 mod 64)) 61 = Some (take 2 (word_bytes v)).
Proof.
  intros Hv Hm. unfold decode_quad. rewrite !letter_value_letter by apply mod64. cbn [mbind option_bind Z.eqb Pos.eqb].
  rewrite (proj2 (Z.eqb_neq _ _)) by apply letter_not, mod64. do 3 f_equal.
  change (2 ^ 18) with 262144. change (2 ^ 12) with 4096 in *. change (2 ^ 6) with 64 in *. change (2 ^ 24) with 16777216 in Hv.
  Z.to_euclidean_division_equations; lia.
Qed.

Lemma triples_ind (P : list Z -> Prop) :
  P [] -> (forall a, P [a]) -> (forall a b, P [a; b]) -> (forall a b c l, P l -> P (a :: b :: c :: l)) -> forall l, P l.
Proof.
  intros H0 H1 H2 H3. fix IH 1. intros [|a [|b [|c l]]]; [done|apply H1|apply H2|]. apply H3, IH.
Qed.

Lemma word_bytes_of a b c : is_byte a -> is_byte b -> is_byte c -> word_bytes (a * 2 ^ 16 + b * 2 ^ 8 + c) = [a; b; c].
Proof.
  unfold is_byte, word_bytes. intros. change (2 ^ 16) with 65536. change (2 ^ 8) with 256.
  repeat f_equal; Z.to_euclidean_division_equations; lia.
Qed.

Lemma decode_text bs : Forall is_byte bs -> base64_decode (base64_text bs) = Some bs.
Proof.
  induction bs as [|a|a b|a b c bs IH] using triples_ind; intros Hb; [done|..].
  - apply Forall_cons in Hb as [Ha _]. unfold is_byte in Ha. cbn [base64_text letters take app base64_decode].
    rewrite decode_two by (Z.to_euclidean_division_equations; lia). cbn [mbind option_bind].
    pose proof (word_bytes_of a 0 0 Ha) as E. rewrite !Z.add_0_r in E. by rewrite E.
  - rewrite !Forall_cons in Hb. destruct Hb as (Ha & Hb & _). pose proof (word_bytes_of a b 0 Ha Hb) as E. unfold is_byte in Ha, Hb.
    cbn [base64_text letters take app base64_decode].
    rewrite decode_three by (Z.to_euclidean_division_equations; lia). cbn [mbind option_bind]. rewrite !Z.add_0_r in E. by rewrite E.
  - rewrite !Forall_cons in Hb. destruct Hb as (Ha & Hb & Hc & Hbs). pose proof (word_bytes_of a b c Ha Hb Hc) as E.
    pose proof (decode_letters (a * 2 ^ 16 + b * 2 ^ 8 + c)) as D. unfold is_byte in Ha, Hb, Hc.
    cbn [base64_text letters app base64_decode] in D |- *. rewrite D, E by lia. cbn [mbind option_bind length Nat.eqb].
    by rewrite IH.
Qed.

(** ** The encoder writes the text *)

Lemma set_byte_at t j i v : i = length t -> (0 < length j)%nat -> set_byte (t ++ j) i v = Some ((t ++ [v]) ++ drop 1 j).
Proof.
  intros -> Hj. unfold set_byte. rewrite (proj2 (Nat.ltb_lt _ _)) by (rewrite length_app; lia).
  destruct j as [|x j]; cbn in Hj; [lia|]. f_equal. replace (length t) with (length t + 0)%nat by lia.
  rewrite insert_app_r. cbn. by rewrite <- app_assoc, drop_0.
Qed.

Lemma conv_spec l : conv l = letter (l mod 64).
Proof.
  unfold conv. rewrite conv_letter by (pose proof (wrap_bounds 8 l); unfold is_byte; lia).
  assert (wrap 8 l mod 64 = l mod 64) as ->; [|done]. unfold wrap. change (2 ^ 8) with 256. Z.to_euclidean_division_equations; lia.
Qed.

Lemma word_lor a b c : is_byte a -> is_byte b -> is_byte c ->
  Z.lor (Z.lor (Z.shiftl a 16) (Z.shiftl b 8)) c = a * 2 ^ 16 + b * 2 ^ 8 + c.
Proof.
  unfold is_byte. intros. rewrite Z.lor_comm.
  rewrite (Z.lor_comm (Z.shiftl a 16)), Z.lor_assoc, (lor_shiftl_add c b 8), lor_shiftl_add by lia. lia.
Qed.

Lemma lookup_from {A} (src rest : list A) (s i : nat) x : drop s src = rest -> rest !! i = Some x -> src !! (s + i)%nat = Some x.
Proof. intros <-. by rewrite lookup_drop. Qed.

Lemma text_length bs : Z.of_nat (length (base64_text bs)) = (Z.of_nat (length bs) + 2) / 3 * 4.
Proof.
  induction bs as [|a|a b|a b c bs IH] using triples_ind; [done..|].
  cbn [base64_text]. rewrite length_app, Nat2Z.inj_add, IH. cbn [length letters]. Z.to_euclidean_division_equations; lia.
Qed.

(** Four characters are stored one after the other. *)
Lemma store_four {A} t j a b c d (k : list Z -> option A) :
  (4 <= length j)%nat ->
  (dst ← set_byte (t ++ j) (length t) a; dst ← set_byte dst (length t + 1) b;
   dst ← set_byte dst (length t + 2) c; dst ← set_byte dst (length t + 3) d; k dst) =
  k ((t ++ [a; b; c; d]) ++ drop 4 j).
Proof.
  intros Hj. destruct j as [|x [|y [|z [|u j]]]]; cbn in Hj; try lia.
  repeat (rewrite set_byte_at by (rewrite ?length_app; cbn; lia); cbn [mbind option_bind drop]).
  by rewrite drop_0, <- !app_assoc.
Qed.

Lemma encode_loop_end rounds dst d src s ret :
  (0 < rounds)%nat -> encode_block_loop rounds dst d src s 0 ret = Some (dst, d, ret).
Proof. by destruct rounds; [lia|]. Qed.

Lemma shift_letter l n : 0 <= n -> conv (Z.shiftr l n) = letter (l / 2 ^ n mod 64).
Proof. intros. by rewrite conv_spec, Z.shiftr_div_pow2. Qed.

Lemma encode_loop_run bs : forall rounds t j src s rest ret,
  drop s src = bs ++ rest -> Forall is_byte bs -> (length bs < rounds)%nat -> (length (base64_text bs) <= length j)%nat ->
  0 <= ret -> ret + Z.of_nat (length (base64_text bs)) < 2 ^ 64 ->
  encode_block_loop rounds (t ++ j) (length t) src s (Z.of_nat (length bs)) ret =
    Some ((t ++ base64_text bs) ++ drop (length (base64_text bs)) j, (length t + length (base64_text bs))%nat,
          ret + Z.of_nat (length (base64_text bs))).
Proof.
  induction bs as [|a|a b|a b c bs IH] using triples_ind; intros [|rounds] t j src s rest ret Es Hb Hr Hj H0 Hret; try (cbn in Hr; lia).
  1: { cbn. by rewrite app_nil_r, Nat.add_0_r, Z.add_0_r, drop_0. }
  all: pose proof (lookup_from _ _ s 0 a Es eq_refl) as L0; rewrite Nat.add_0_r in L0; cbn [encode_block_loop].
  all: rewrite (proj2 (Z.eqb_neq _ _)) by (cbn [length]; lia).
  - apply Forall_cons in Hb as [Ha _]. change (3 <=? Z.of_nat (length [a])) with false. cbv iota. rewrite L0. cbn [mbind option_bind].
    change (Z.of_nat (length [a]) =? 2) with false. change (Z.of_nat (length [a]) =? 1) with true. cbv iota. cbn [mbind option_bind].
    rewrite store_four by done. cbn [mbind option_bind]. rewrite encode_loop_end by (cbn in Hr; lia).
    rewrite !shift_letter, wrap_small, (Z.shiftl_mul_pow2 a 16) by (cbn in Hret; lia). done.
  - rewrite !Forall_cons in Hb. destruct Hb as (Ha & Hb & _).
    change (3 <=? Z.of_nat (length [a; b])) with false. cbv iota. rewrite L0. cbn [mbind option_bind].
    change (Z.of_nat (length [a; b]) =? 2) with true. change (Z.of_nat (length [a; b]) =? 1) with false. cbv iota.
    pose proof (lookup_from _ _ s 1 b Es eq_refl) as L1. rewrite Nat.add_1_r in L1. rewrite L1. cbn [mbind option_bind].
    rewrite store_four by done. cbn [mbind option_bind]. rewrite encode_loop_end by (cbn in Hr; lia).
    pose proof (word_lor a b 0 Ha Hb ltac:(done)) as E. rewrite Z.lor_0_r, Z.add_0_r in E.
    by rewrite !shift_letter, wrap_small, E by (cbn in Hret; lia).
  - rewrite !Forall_cons in Hb. destruct Hb as (Ha & Hb & Hc & Hbs). cbn [base64_text length] in Hr, Hj, Hret.
    rewrite length_app in Hj, Hret. cbn [letters length] in Hj, Hret.
    rewrite (proj2 (Z.leb_le _ _)) by (cbn [length]; lia). rewrite L0. cbn [mbind option_bind].
    pose proof (lookup_from _ _ s 1 b Es eq_refl) as L1. pose proof (lookup_from _ _ s 2 c Es eq_refl) as L2.
    rewrite Nat.add_1_r in L1. replace (s + 2)%nat with (S (S s)) in L2 by lia. rewrite L1. cbn [mbind option_bind]. rewrite L2. cbn [mbind option_bind].
    rewrite store_four by lia. cbn [mbind option_bind]. rewrite !shift_letter, conv_spec, word_lor, wrap_small by first [done|lia].
    fold (letters (a * 2 ^ 16 + b * 2 ^ 8 + c)). set (w := letters _).
    replace (Z.of_nat (length (a :: b :: c :: bs)) - 3) with (Z.of_nat (length bs)) by (cbn [length]; lia).
    replace (length t + 4)%nat with (length (t ++ w)) by (by rewrite length_app).
    rewrite (IH rounds (t ++ w) (drop 4 j) src (s + 3)%nat rest) by
      first [done|lia|by rewrite <- drop_drop, Es|by rewrite length_drop; lia].
    cbn [base64_text]. fold w. rewrite drop_drop, !length_app, <- !app_assoc.
    change (length w) with 4%nat. rewrite Nat.add_assoc, Nat2Z.inj_add, Z.add_assoc. done.
Qed.

Lemma encode_block_run bs t j src s rest :
  drop s src = bs ++ rest -> Forall is_byte bs -> (length (base64_text bs) < length j)%nat -> Z.of_nat (length bs) < 2 ^ 62 ->
  EVP_EncodeBlock (t ++ j) (length t) src s (Z.of_nat (length bs)) =
    Some ((t ++ base64_text bs ++ [0]) ++ drop (S (length (base64_text bs))) j, Z.of_nat (length (base64_text bs))).
Proof.
  intros Es Hb Hj Hl. pose proof (text_length bs). unfold EVP_EncodeBlock. rewrite Nat2Z.id.
  rewrite (encode_loop_run bs _ t j src s rest) by first [done|lia|Z.to_euclidean_division_equations; lia]. cbn [mbind option_bind].
  rewrite set_byte_at by (rewrite ?length_app, ?length_drop; lia). cbn [mbind option_bind].
  by rewrite drop_drop, Nat.add_1_r, <- !app_assoc.
Qed.

Lemma line_length bs : length (line bs) = S (length (base64_text bs)).
Proof. unfold line. rewrite length_app. cbn. lia. Qed.

Lemma encode_line_run bs t j src s rest :
  drop s src = bs ++ rest -> Forall is_byte bs -> (length (line bs) < length j)%nat -> Z.of_nat (length bs) < 2 ^ 62 ->
  exists j', encode_line (t ++ j) (length t) src s (Z.of_nat (length bs)) =
    Some ((t ++ line bs) ++ j', length (t ++ line bs), Z.of_nat (length (base64_text bs))) /\
    (length (line bs) + length j' = length j)%nat.
Proof.
  intros Es Hb Hj Hl. rewrite line_length in Hj. unfold encode_line.
  rewrite (encode_block_run bs t j src s rest) by first [done|lia]. cbn [mbind option_bind]. rewrite Nat2Z.id.
  rewrite app_assoc, <- app_assoc. rewrite <- length_app, set_byte_at by (rewrite ?length_app; cbn; lia). cbn [mbind option_bind app drop].
  rewrite drop_0, <- (app_assoc t). fold (line bs).
  replace (S (length (t ++ base64_text bs))) with (length (t ++ line bs)) by (rewrite !length_app, line_length; lia).
  rewrite set_byte_at by (rewrite ?length_drop; lia). cbn [mbind option_bind].
  eexists (0 :: _). split; [do 3 f_equal; by rewrite <- app_assoc|].
  cbn [length]. rewrite !length_drop, line_length. lia.
Qed.

(** ** The stream of lines *)

Definition whole (blocks : list (list Z)) : Prop := Forall (fun b => length b = sizeof_data) blocks.

Lemma whole_line b : length b = sizeof_data -> length (line b) = 65%nat.
Proof. intros H. pose proof (text_length b) as E. rewrite H in E. rewrite line_length. change (Z.of_nat (length (base64_text b)) = 64) in E. lia. Qed.

Lemma whole_lines blocks : whole blocks -> length (blocks ≫= line) = (65 * length blocks)%nat.
Proof.
  induction 1 as [|b blocks Hb _ IH]; [done|]. cbn [mbind list_bind length]. rewrite length_app, whole_line by done.
  change (list_bind _ _ line blocks) with (blocks ≫= line). lia.
Qed.

Lemma whole_concat blocks : whole blocks -> length (concat blocks) = (48 * length blocks)%nat.
Proof. induction 1 as [|b blocks Hb _ IH]; [done|]. cbn [concat length]. rewrite length_app, Hb, IH. unfold sizeof_data. lia. Qed.

Lemma split_blocks n : forall bs, (length bs < n)%nat ->
  exists blocks p, bs = concat blocks ++ p /\ whole blocks /\ (length p < sizeof_data)%nat.
Proof.
  induction n as [|n IH]; intros bs Hn; [lia|]. destruct (decide (length bs < sizeof_data)%nat) as [Hs|Hs].
  - exists [], bs. split_and!; [done|constructor|done].
  - unfold sizeof_data in Hs. destruct (IH (drop sizeof_data bs)) as (blocks & p & E & Hw & Hp).
    { rewrite length_drop. unfold sizeof_data. lia. }
    exists (take sizeof_data bs :: blocks), p. cbn [concat]. rewrite <- app_assoc, <- E, take_drop. split_and!; [done| |done].
    constructor; [|done]. rewrite length_take. unfold sizeof_data. lia.
Qed.

Lemma update_loop_run blocks : forall rounds t j input i p total,
  drop i input = concat blocks ++ p -> whole blocks -> (length p < sizeof_data)%nat -> Forall is_byte (concat blocks) ->
  (length blocks < rounds)%nat -> (blocks <> [] -> (length (blocks ≫= line) < length j)%nat) ->
  0 <= total -> total + Z.of_nat (length (blocks ≫= line)) < 2 ^ 63 ->
  exists j' i', encode_update_loop rounds (t ++ j) (length t) input i (Z.of_nat (length (concat blocks ++ p))) total =
    Some ((t ++ (blocks ≫= line)) ++ j', Some (i', Z.of_nat (length p), total + Z.of_nat (length (blocks ≫= line)))) /\
    drop i' input = p /\ (length (blocks ≫= line) + length j' = length j)%nat.
Proof.
  induction blocks as [|b blocks IH]; intros [|rounds] t j input i p total Ei Hw Hp Hb Hr Hj H0 Ht; try (cbn in Hr; lia).
  - exists j, i. cbn [encode_update_loop concat app mbind list_bind]. rewrite (proj2 (Z.leb_gt _ _)) by lia. cbn [negb].
    by rewrite app_nil_r, Z.add_0_r.
  - apply Forall_cons in Hw as [Hl Hw]. cbn [concat] in *. apply Forall_app in Hb as [Hbb Hb].
    change ((b :: blocks) ≫= line) with (line b ++ (blocks ≫= line)) in *. rewrite length_app in Hj, Ht. specialize (Hj ltac:(done)).
    rewrite <- app_assoc in Ei. cbn [encode_update_loop]. rewrite <- app_assoc, length_app, Nat2Z.inj_add.
    rewrite (proj2 (Z.leb_le _ _)) by lia. cbn [negb]. pose proof (whole_line b Hl) as HL.
    rewrite <- Hl. destruct (encode_line_run b t j input i (concat blocks ++ p)) as (j1 & -> & Hj1); [done|done|lia|rewrite Hl; done|].
    cbn [mbind option_bind]. pose proof (line_length b). set (enc := Z.of_nat (length (base64_text b))).
    rewrite (wrap_small 64 (total + enc)), (wrap_small 64 (enc + 1)), (wrap_small 64 (total + enc + 1)), (wrap_small 64 (total + (enc + 1))) by lia.
    rewrite (proj2 (Z.ltb_ge _ _)) by lia.
    replace (Z.of_nat (length b) + Z.of_nat (length (concat blocks ++ p)) - Z.of_nat (length b)) with (Z.of_nat (length (concat blocks ++ p))) by lia.
    destruct (IH rounds (t ++ line b) j1 input (i + length b)%nat p (total + (enc + 1))) as (j' & i' & E & Ed & Hj');
      [by rewrite <- drop_drop, Ei, drop_app_length|done|done|done|cbn in Hr; lia|lia|lia|lia|].
    exists j', i'. rewrite E. split_and!; [|done|rewrite length_app; lia].
    replace (total + Z.of_nat (length (line b ++ (blocks ≫= line)))) with (total + (enc + 1) + Z.of_nat (length (blocks ≫= line)))
      by (rewrite length_app; lia).
    by rewrite !app_assoc.
Qed.

Lemma memcpy_run q dj src s n :
  (n <= length dj)%nat -> (s + n <= length src)%nat ->
  OPENSSL_memcpy (q ++ dj) (length q) src s n = Some (q ++ take n (drop s src) ++ drop n dj).
Proof.
  intros Hd Hs. unfold OPENSSL_memcpy. rewrite (proj2 (Nat.leb_le _ _)), (proj2 (Nat.leb_le _ _)) by (rewrite ?length_app; lia). cbn [andb].
  by rewrite take_app_length, drop_app_add.
Qed.

(** The bytes [p] wait in the context. *)
Definition holding (ctx : EVP_ENCODE_CTX) (p : list Z) : Prop :=
  data_used ctx = Z.of_nat (length p) /\ length (data ctx) = sizeof_data /\ exists junk, data ctx = p ++ junk.

Lemma holding_new p buffered junk eof err :
  buffered = p ++ junk -> length buffered = sizeof_data -> holding (EncodeCtx (Z.of_nat (length p)) buffered eof err) p.
Proof. intros -> H. split; [done|]. split; [done|]. by exists junk. Qed.

(** From the context to the end of the input: the lines of the whole blocks are written,
    and the rest waits. [o] characters were written before. *)
Lemma update_tail blocks t j input i p total dj ctx :
  drop i input = concat blocks ++ p -> whole blocks -> (length p < sizeof_data)%nat -> Forall is_byte (concat blocks) ->
  (blocks <> [] -> (length (blocks ≫= line) < length j)%nat) ->
  total = Z.of_nat (length t) -> Z.of_nat (length t + length (blocks ≫= line)) <= INT_MAX ->
  data ctx = dj -> length dj = sizeof_data ->
  exists ctx' j', ('(out, rest) ← encode_update_loop (S (Z.to_nat (Z.of_nat (length (concat blocks ++ p))))) (t ++ j) (length t) input i
      (Z.of_nat (length (concat blocks ++ p))) total;
    match rest with
    | None => Some (ctx, out, 0)
    | Some (i, in_len, total) =>
        buffered ← (if negb (in_len =? 0) then OPENSSL_memcpy (data ctx) 0 input i (Z.to_nat in_len) else Some (data ctx));
        let total := if INT_MAX <? total then 0 else total in
        Some (EncodeCtx (wrap 32 in_len) buffered (eof_seen ctx) (error_encountered ctx), out, to_signed 32 total)
    end) = Some (ctx', (t ++ (blocks ≫= line)) ++ j', Z.of_nat (length (t ++ (blocks ≫= line)))) /\ holding ctx' p.
Proof.
  intros Ei Hw Hp Hb Hj Ht Hmax Hd Hl. unfold INT_MAX in Hmax. rewrite Nat2Z.id.
  destruct (update_loop_run blocks (S (length (concat blocks ++ p))) t j input i p total) as (j' & i' & -> & Ed & _); try done; try lia.
  { rewrite length_app, whole_concat by done. lia. }
  cbn [mbind option_bind]. rewrite Nat2Z.id.
  assert (exists buffered junk, (if negb (Z.of_nat (length p) =? 0) then OPENSSL_memcpy (data ctx) 0 input i' (length p) else Some (data ctx)) =
    Some buffered /\ buffered = p ++ junk /\ length buffered = sizeof_data) as (buffered & junk & -> & Eb & Hlb).
  { destruct (Z.eqb_spec (Z.of_nat (length p)) 0) as [E0|E0]; cbn [negb].
    - destruct p; [|cbn in E0; lia]. exists dj, dj. rewrite <- Hd in *. split_and!; done.
    - assert (length p = length input - i')%nat as Hpl by (by rewrite <- length_drop, Ed). unfold sizeof_data in *.
      pose proof (memcpy_run [] (data ctx) input i' (length p)) as E. cbn [app length] in E. rewrite E by (rewrite ?Hd; lia).
      rewrite Ed, firstn_all. do 2 eexists. split; [done|]. split; [done|]. rewrite length_app, length_drop, Hd. lia. }
  cbn [mbind option_bind]. unfold INT_MAX. rewrite (proj2 (Z.ltb_ge _ _)), to_signed_small by lia. unfold sizeof_data in Hp.
  rewrite wrap_small by lia. do 2 eexists. split; [rewrite length_app, Nat2Z.inj_add, <- Ht; done|]. by eapply holding_new.
Qed.

(** Room for the lines of [n] bytes, and a terminator behind them. *)
Definition room_for (n : nat) (out : list Z) : Prop := (sizeof_data <= n -> 65 * (n / 48) < length out)%nat.

Lemma room_blocks bs blocks p (out : list Z) :
  bs = concat blocks ++ p -> whole blocks -> (length p < sizeof_data)%nat -> room_for (length bs) out ->
  blocks <> [] -> (length (blocks ≫= line) < length out)%nat.
Proof.
  intros -> Hw Hp Hr Hn. unfold room_for, sizeof_data in *. rewrite length_app, whole_concat in Hr by done.
  rewrite whole_lines by done. destruct blocks as [|b blocks]; [done|]. cbn [length] in *.
  replace ((48 * S (length blocks) + length p) / 48)%nat with (S (length blocks)) in Hr; [lia|].
  apply (Nat.div_unique _ _ _ (length p)); lia.
Qed.

Lemma encode_update_run ctx q input out :
  holding ctx q -> (length q < sizeof_data)%nat -> Forall is_byte (q ++ input) -> Z.of_nat (length input) < 2 ^ 30 ->
  room_for (length (q ++ input)) out ->
  exists blocks p ctx' j', q ++ input = concat blocks ++ p /\ whole blocks /\ (length p < sizeof_data)%nat /\ holding ctx' p /\
    EVP_EncodeUpdate ctx out input (Z.of_nat (length input)) = Some (ctx', (blocks ≫= line) ++ j', Z.of_nat (length (blocks ≫= line))).
Proof.
  intros (Hu & Hl & junk & Hd) Hq Hb Hi Hroom. destruct (split_blocks _ (q ++ input) (Nat.lt_succ_diag_r _)) as (blocks & p & Es & Hw & Hp).
  pose proof (room_blocks _ _ _ _ Es Hw Hp Hroom) as Hout. pose proof (f_equal length Es) as HE. rewrite !length_app, whole_concat in HE by done.
  pose proof (whole_lines _ Hw) as HL. rewrite Es in Hb. apply Forall_app in Hb as [Hb _].
  assert (Hju : (length q + length junk = sizeof_data)%nat) by (by rewrite <- Hl, Hd, length_app).
  exists blocks, p. unfold EVP_EncodeUpdate. rewrite Hu. unfold sizeof_data in *.
  destruct (Z.eqb_spec (Z.of_nat (length input)) 0) as [E0|E0].
  { destruct input; [|cbn in E0; lia]. destruct blocks; [|cbn in *; lia]. rewrite app_nil_r in Es. cbn in Es. subst p.
    exists ctx, out. split_and!; try done; [by rewrite app_nil_r|split_and!; try done; by exists junk]. }
  rewrite (proj2 (Z.ltb_lt _ _)) by lia. cbn [negb].
  destruct (Z.ltb_spec (Z.of_nat (length input)) (Z.of_nat 48 - Z.of_nat (length q))) as [Hs|Hs].
  { destruct blocks; [|cbn in *; lia]. cbn in Es. subst p. rewrite Nat2Z.id, Hd, Nat2Z.id, memcpy_run by (cbn; lia). cbn [mbind option_bind].
    rewrite drop_0, firstn_all, !wrap_small by (rewrite ?wrap_small by lia; lia).
    eexists _, out. split_and!; try done. replace (Z.of_nat (length q) + Z.of_nat (length input)) with (Z.of_nat (length (q ++ input))) by (rewrite length_app; lia).
    eapply holding_new; [by rewrite app_assoc|rewrite !length_app, length_drop; unfold sizeof_data; lia]. }
  destruct (Z.eqb_spec (Z.of_nat (length q)) 0) as [Hz|Hz]; cbn [negb].
  - destruct q; [|cbn in Hz; lia]. cbn [app] in Es, HE. cbn [mbind option_bind].
    destruct (update_tail blocks [] out input 0 p 0 (data ctx) ctx) as (ctx' & j' & E & Hh); try done.
    { unfold INT_MAX. cbn [length] in *. lia. }
    rewrite <- Es in E. cbn [app length] in E. exists ctx', j'. by split_and!.
  - destruct blocks as [|b blocks]; [cbn in HE; lia|]. specialize (Hout ltac:(done)). apply Forall_cons in Hw as [Hlb Hw].
    cbn [concat] in Es, Hb. apply Forall_app in Hb as [Hbb Hb].
    change ((b :: blocks) ≫= line) with (line b ++ (blocks ≫= line)) in *. rewrite length_app in Hout, HL. cbn [length] in HE, HL.
    assert (Eb : q ++ take (48 - length q) input = b).
    { pose proof (f_equal (take 48) Es) as E. rewrite <- app_assoc, (take_app_length' b) in E by done. rewrite <- E.
      rewrite take_app, (take_ge q) by lia. done. }
    assert (Er : drop (48 - length q) input = concat blocks ++ p).
    { pose proof (f_equal (drop 48) Es) as E. rewrite <- app_assoc, (drop_app_length' b) in E by done. rewrite <- E.
      rewrite drop_app, (drop_ge q) by lia. done. }
    rewrite Nat2Z.id, Hd. replace (Z.to_nat (Z.of_nat 48 - Z.of_nat (length q))) with (48 - length q)%nat by lia.
    rewrite memcpy_run by (cbn; lia). rewrite drop_0, (drop_ge junk), app_nil_r, Eb by lia. cbn [mbind option_bind].
    destruct (encode_line_run b [] out b 0 []) as (j1 & E & Hj1); [by rewrite app_nil_r|done|lia|rewrite Hlb; done|].
    rewrite Hlb in E. cbn [app length] in E. unfold sizeof_data in E. rewrite E. cbn [mbind option_bind]. clear E.
    pose proof (line_length b) as HLb. pose proof (whole_line b Hlb) as HL65.
    rewrite wrap_small by lia.
    destruct (update_tail blocks (line b) j1 input (48 - length q) p (Z.of_nat (length (base64_text b)) + 1) b
      (EncodeCtx 0 b (eof_seen ctx) (error_encountered ctx))) as (ctx' & j' & E & Hh); try done; try lia.
    { unfold INT_MAX. lia. }
    rewrite <- Er in E. cbn [eof_seen error_encountered data] in E.
    replace (Z.of_nat (length input) - (Z.of_nat 48 - Z.of_nat (length q))) with (Z.of_nat (length (drop (48 - length q) input)))
      by (rewrite length_drop; lia).
    exists ctx', j'. split_and!; [by rewrite Es|by constructor|done|done|exact E].
Qed.

(** ** Runs of the encoder *)

(** The calls of [EVP_EncodeUpdate], each with its input and its buffer for the output:
    the context after them and what the callers have got. *)
Fixpoint encode_updates (ctx : EVP_ENCODE_CTX) (pieces : list (list Z * list Z)) : option (EVP_ENCODE_CTX * list Z) :=
  match pieces with
  | [] => Some (ctx, [])
  | (input, out) :: pieces =>
      '(ctx, out, out_len) ← EVP_EncodeUpdate ctx out input (Z.of_nat (length input));
      '(ctx, text) ← encode_updates ctx pieces;
      Some (ctx, take (Z.to_nat out_len) out ++ text)
  end.

Definition encode_stream (pieces : list (list Z * list Z)) (last : list Z) : option (list Z) :=
  '(ctx, text) ← encode_updates EVP_EncodeInit pieces;
  '(_, out, out_len) ← EVP_EncodeFinal ctx last;
  Some (text ++ take (Z.to_nat out_len) out).

(** A piece of the input, with room for its lines whatever the context holds. *)
Definition piece_ok (piece : list Z * list Z) : Prop :=
  Forall is_byte piece.1 /\ Z.of_nat (length piece.1) < 2 ^ 30 /\ room_for (47 + length piece.1) piece.2.

Lemma room_mono m n out : (m <= n)%nat -> room_for n out -> room_for m out.
Proof. intros Hle Hr Hm. pose proof (Nat.Div0.div_le_mono m n 48 Hle). specialize (Hr ltac:(lia)). lia. Qed.

Lemma encode_updates_run pieces : forall ctx q,
  holding ctx q -> (length q < sizeof_data)%nat -> Forall is_byte q -> Forall piece_ok pieces ->
  exists blocks p ctx', q ++ concat pieces.*1 = concat blocks ++ p /\ whole blocks /\ (length p < sizeof_data)%nat /\
    Forall is_byte p /\ holding ctx' p /\ encode_updates ctx pieces = Some (ctx', blocks ≫= line).
Proof.
  induction pieces as [|[input out] pieces IH]; intros ctx q Hh Hq Hb Hok.
  { exists [], q, ctx. cbn. rewrite app_nil_r. split_and!; try done. constructor. }
  apply Forall_cons in Hok as [(Hbi & Hli & Hr) Hok]. cbn [fst snd] in *.
  destruct (encode_update_run ctx q input out) as (blocks & p & ctx1 & j' & Es & Hw & Hp & Hh1 & E); try done; [by apply Forall_app| |].
  { eapply room_mono; [|exact Hr]. rewrite length_app. unfold sizeof_data in Hq. lia. }
  assert (Hbp : Forall is_byte p).
  { assert (H : Forall is_byte (concat blocks ++ p)) by (rewrite <- Es; by apply Forall_app). apply Forall_app in H. apply H. }
  destruct (IH ctx1 p Hh1 Hp Hbp Hok) as (blocks2 & p2 & ctx2 & Es2 & Hw2 & Hp2 & Hb2 & Hh2 & E2).
  exists (blocks ++ blocks2), p2, ctx2. split_and!; try done.
  - cbn [fmap list_fmap concat fst]. rewrite app_assoc, Es, <- app_assoc, Es2, concat_app. by rewrite app_assoc.
  - by apply Forall_app.
  - cbn [encode_updates]. rewrite E. cbn [mbind option_bind]. rewrite E2. cbn [mbind option_bind].
    by rewrite Nat2Z.id, take_app_length, bind_app.
Qed.

Lemma encode_final_run ctx p out :
  holding ctx p -> (length p < sizeof_data)%nat -> Forall is_byte p -> (length (line p) < length out)%nat ->
  exists ctx' j, EVP_EncodeFinal ctx out = 
    Some (ctx', (match p with [] => [] | _ => line p end) ++ j, Z.of_nat (length (match p with [] => [] | _ => line p end))).
Proof.
  intros (Hu & Hl & junk & Hd) Hp Hb Hr. unfold EVP_EncodeFinal. rewrite Hu.
  destruct (Z.eqb_spec (Z.of_nat (length p)) 0) as [E0|E0]; [destruct p; [by exists ctx, out|cbn in E0; lia]|].
  destruct (encode_line_run p [] out (data ctx) 0 junk) as (j' & E & Hj'); [by rewrite drop_0|done|done|unfold sizeof_data in Hp; lia|].
  pose proof (text_length p) as HT. pose proof (line_length p) as HL. unfold sizeof_data in Hp.
  cbn [app length] in E. unfold encode_line in E. destruct (EVP_EncodeBlock out 0 (data ctx) 0 (Z.of_nat (length p))) as [[out1 n]|]; [|done].
  cbn [mbind option_bind] in E |- *. rewrite Nat.add_0_l in E. destruct (set_byte out1 (Z.to_nat n) 10) as [out2|]; [|done]. cbn [mbind option_bind] in E |- *.
  destruct (set_byte out2 (S (Z.to_nat n)) 0) as [out3|] eqn:E3; [|done]. cbn in E. injection E as -> HS ->.
  assert (Z.of_nat (length (base64_text p)) < 70) by (Z.to_euclidean_division_equations; lia).
  rewrite wrap_small by lia. replace (Z.to_nat (Z.of_nat (length (base64_text p)) + 1)) with (S (Z.to_nat (Z.of_nat (length (base64_text p))))) by lia.
  rewrite E3. cbn [mbind option_bind]. unfold INT_MAX. rewrite (proj2 (Z.leb_le _ _)), to_signed_small by lia. cbn [negb].
  assert (match p with [] => [] | _ => line p end = line p) as -> by (by destruct p). do 2 eexists. rewrite HL.
  do 3 f_equal. lia.
Qed.

(** ** The text with lines *)

Lemma pem_lines_blocks blocks : forall rounds p,
  whole blocks -> (length p < sizeof_data)%nat -> (length (concat blocks ++ p) <= rounds)%nat ->
  pem_lines rounds (concat blocks ++ p) = (blocks ≫= line) ++ match p with [] => [] | _ => line p end.
Proof.
  induction blocks as [|b blocks IH]; intros rounds p Hw Hp Hr.
  - cbn [concat app mbind list_bind] in *. destruct p as [|x p]; [by destruct rounds|]. destruct rounds as [|rounds]; [cbn in Hr; lia|].
    cbn [pem_lines]. rewrite take_ge, drop_ge by lia. destruct rounds; cbn; by rewrite app_nil_r.
  - apply Forall_cons in Hw as [Hb Hw]. cbn [concat] in *. rewrite <- app_assoc in *. rewrite length_app in Hr. unfold sizeof_data in Hb.
    destruct b as [|x b]; [done|]. destruct rounds as [|rounds]; [cbn in Hr; lia|]. cbn [pem_lines app].
    rewrite (app_comm_cons b _ x), take_app_length', drop_app_length' by done.
    change ((x :: b) :: blocks ≫= line) with (line (x :: b) ++ (blocks ≫= line)).
    rewrite IH by first [done|cbn in Hr; lia]. by rewrite app_assoc.
Qed.

Lemma encode_stream_run pieces last :
  Forall piece_ok pieces -> (66 <= length last)%nat -> encode_stream pieces last = Some (pem_text (concat pieces.*1)).
Proof.
  intros Hok Hl. destruct (encode_updates_run pieces EVP_EncodeInit []) as (blocks & p & ctx & Es & Hw & Hp & Hb & Hh & E);
    [split_and!; [done|done|by eexists]|unfold sizeof_data; cbn; lia|constructor|done|].
  unfold encode_stream. rewrite E. cbn [mbind option_bind].
  destruct (encode_final_run ctx p last) as (ctx' & j & ->); try done.
  { pose proof (text_length p). pose proof (line_length p). unfold sizeof_data in Hp. Z.to_euclidean_division_equations; lia. }
  cbn [mbind option_bind]. rewrite Nat2Z.id, take_app_length. cbn [app] in Es. unfold pem_text. by rewrite Es, pem_lines_blocks.
Qed.

(** ** The decoder of four characters *)

Lemma quad_lor a b c d : 0 <= a < 64 -> 0 <= b < 64 -> 0 <= c < 64 -> 0 <= d < 64 ->
  Z.lor (Z.lor (Z.lor (Z.shiftl a 18) (Z.shiftl b 12)) (Z.shiftl c 6)) d = a * 2 ^ 18 + b * 2 ^ 12 + c * 2 ^ 6 + d.
Proof.
  intros. rewrite (Z.lor_comm _ d), (Z.lor_comm _ (Z.shiftl c 6)), (Z.lor_comm (Z.shiftl a 18)), !Z.lor_assoc.
  rewrite (lor_shiftl_add d c 6), (lor_shiftl_add _ b 12), (lor_shiftl_add _ a 18) by lia. lia.
Qed.

(** A character is the padding, a letter, or not valid. *)
Lemma char_cases c : is_byte c ->
  (c = 61 /\ letter_value c = None /\ base64_ascii_to_bin c = 0 /\ is_equals c = 1) \/
  (exists v, c <> 61 /\ letter_value c = Some v /\ 0 <= v < 64 /\ base64_ascii_to_bin c = v /\ is_equals c = 0) \/
  (c <> 61 /\ letter_value c = None /\ base64_ascii_to_bin c = 0xff).
Proof.
  intros Hc. rewrite (ascii_value c Hc). unfold is_equals. destruct (Z.eqb_spec c 61) as [->|Hn]; [by left|right].
  destruct (letter_value c) as [v|] eqn:E; [left|by right]. exists v. split_and!; try done; by eapply letter_value_bounds.
Qed.

(** The bytes of a word are stored one after the other. *)
Lemma store_word {A} t j w n (k : list Z -> option A) : 0 <= w -> (n <= length j)%nat -> (n = 1 \/ n = 2 \/ n = 3)%nat ->
  (out ← set_byte (t ++ j) (length t) (wrap 8 (Z.shiftr w 16));
   out ← (if (1 <? n)%nat then set_byte out (length t + 1) (wrap 8 (Z.shiftr w 8)) else Some out);
   out ← (if (2 <? n)%nat then set_byte out (length t + 2) (wrap 8 w) else Some out); k out) =
  k ((t ++ take n (word_bytes w)) ++ drop n j).
Proof.
  intros Hw Hn Hk. unfold word_bytes. rewrite !Z.shiftr_div_pow2 by lia.
  destruct Hk as [->|[->| ->]]; cbn [Nat.ltb Nat.leb]; destruct j as [|x [|y [|z j]]]; cbn in Hn; try lia;
    repeat (rewrite set_byte_at by (rewrite ?length_app; cbn; lia); cbn [mbind option_bind drop]);
    cbn [take drop]; by rewrite ?drop_0, <- ?app_assoc.
Qed.

Lemma is_equals_cases c : is_equals c = 0 \/ is_equals c = 1.
Proof. unfold is_equals. destruct (_ =? _); auto. Qed.

Lemma quad_run t j input i a b c d rest :
  drop i input = a :: b :: c :: d :: rest -> is_byte a -> is_byte b -> is_byte c -> is_byte d ->
  (match decode_quad a b c d with Some bs => length bs <= length j | None => True end)%nat ->
  base64_decode_quad (t ++ j) (length t) input i =
    Some ((fun bs => ((t ++ bs) ++ drop (length bs) j, Z.of_nat (length bs))) <$> decode_quad a b c d).
Proof.
  intros Ei Ha Hb Hc Hd Hj. unfold base64_decode_quad.
  pose proof (lookup_from _ _ i 0 a Ei eq_refl) as L0. rewrite Nat.add_0_r in L0. rewrite L0. cbn [mbind option_bind].
  pose proof (lookup_from _ _ i 1 b Ei eq_refl) as L1. rewrite Nat.add_1_r in L1. rewrite L1. cbn [mbind option_bind].
  pose proof (lookup_from _ _ i 2 c Ei eq_refl) as L2. replace (i + 2)%nat with (S (S i)) in L2 by lia. rewrite L2. cbn [mbind option_bind].
  pose proof (lookup_from _ _ i 3 d Ei eq_refl) as L3. replace (i + 3)%nat with (S (S (S i))) in L3 by lia. rewrite L3. cbn [mbind option_bind].
  clear L0 L1 L2 L3 Ei. unfold decode_quad in *.
  assert (Hv : forall v, 0 <= v < 64 -> (v =? 0xff) = false) by (intros; apply Z.eqb_neq; lia).
  destruct (char_cases a Ha) as [(-> & Va & Aa & Ea)|[(va & Na & Va & Ba & Aa & Ea)|(Na & Va & Aa)]]; rewrite Va, Aa in *; [| |done].
  { destruct (_ || _); [done|]. rewrite Ea. by destruct (is_equals_cases b) as [-> | ->], (is_equals_cases c) as [-> | ->], (is_equals_cases d) as [-> | ->]. }
  destruct (char_cases b Hb) as [(-> & Vb & Ab & Eb)|[(vb & Nb & Vb & Bb & Ab & Eb)|(Nb & Vb & Ab)]]; rewrite Vb, Ab in *;
    [| |by rewrite orb_true_r].
  { destruct (_ || _); [done|]. rewrite Ea, Eb. by destruct (is_equals_cases c) as [-> | ->], (is_equals_cases d) as [-> | ->]. }
  rewrite (Hv va), (Hv vb), Ea, Eb by done. cbn [orb mbind option_bind] in *.
  destruct (char_cases c Hc) as [(-> & Vc & Ac & Ec)|[(vc & Nc & Vc & Bc & Ac & Ec)|(Nc & Vc & Ac)]]; rewrite Ac; [| |rewrite Vc in *].
  - rewrite Ec. destruct (char_cases d Hd) as [(-> & Vd & Ad & Ed)|[(vd & Nd & Vd & Bd & Ad & Ed)|(Nd & Vd & Ad)]]; rewrite Ad.
    + rewrite Ed. cbn [Z.eqb Pos.eqb orb Z.shiftl Pos.shiftl Z.lor Pos.lor] in *. rewrite quad_lor by lia. rewrite !Z.mul_0_l, !Z.add_0_r.
      by apply (store_word t j _ 1 (fun out => Some (Some (out, 1)))); [lia| |auto].
    + rewrite Ed, (Hv vd), (proj2 (Z.eqb_neq d 61) Nd), Vc by done. done.
    + rewrite (proj2 (Z.eqb_neq d 61) Nd), Vc. done.
  - rewrite Ec, (Hv vc), Vc in * by done. rewrite (proj2 (Z.eqb_neq c 61) Nc) in *. cbn [mbind option_bind] in *.
    destruct (char_cases d Hd) as [(-> & Vd & Ad & Ed)|[(vd & Nd & Vd & Bd & Ad & Ed)|(Nd & Vd & Ad)]]; rewrite Ad.
    + rewrite Ed. cbn [Z.eqb Pos.eqb orb] in *. rewrite quad_lor, Z.add_0_r by lia.
      by apply (store_word t j _ 2 (fun out => Some (Some (out, 2)))); [lia| |auto].
    + rewrite Ed, (Hv vd), (proj2 (Z.eqb_neq d 61) Nd), Vd in * by done. cbn [mbind option_bind orb] in *. rewrite quad_lor by lia.
      by apply (store_word t j _ 3 (fun out => Some (Some (out, 3)))); [lia| |auto].
    + rewrite (proj2 (Z.eqb_neq d 61) Nd), Vd. done.
  - destruct (d =? 61); [|done]. destruct (Z.eqb_spec c 61); [done|]. done.
Qed.

(** ** The stream decoder *)

(** Characters one after the other: the bytes, the characters that wait, and whether the
    end was seen. *)
Fixpoint feed (p : list Z) (eof : bool) (cs : list Z) : option (list Z * list Z * bool) :=
  match cs with
  | [] => Some ([], p, eof)
  | c :: cs =>
      if eof then None
      else
        match p with
        | [x; y; z] =>
            bs ← decode_quad x y z c;
            '(t, p, eof) ← feed [] (length bs <? 3)%nat cs;
            Some (bs ++ t, p, eof)
        | _ => feed (p ++ [c]) false cs
        end
  end.

Lemma decode_quad_length a b c d bs : decode_quad a b c d = Some bs -> (1 <= length bs <= 3)%nat.
Proof.
  unfold decode_quad. destruct (letter_value a), (letter_value b); cbn [mbind option_bind]; try done.
  destruct (d =? 61); [destruct (c =? 61); [intros [= <-]; cbn; lia|]|].
  - destruct (letter_value c); [|done]. intros [= <-]. cbn. lia.
  - destruct (letter_value c), (letter_value d); try done. intros [= <-]. cbn. lia.
Qed.

Lemma feed_app cs1 cs2 : forall p eof,
  feed p eof (cs1 ++ cs2) = '(t1, p1, eof1) ← feed p eof cs1; '(t2, p2, eof2) ← feed p1 eof1 cs2; Some (t1 ++ t2, p2, eof2).
Proof.
  induction cs1 as [|c cs1 IH]; intros p eof.
  { cbn [app feed mbind option_bind]. by destruct (feed p eof cs2) as [[[? ?] ?]|]. }
  cbn [app feed]. destruct eof; [done|].
  assert (Hgo : feed (p ++ [c]) false (cs1 ++ cs2) =
    '(t1, p1, eof1) ← feed (p ++ [c]) false cs1; '(t2, p2, eof2) ← feed p1 eof1 cs2; Some (t1 ++ t2, p2, eof2)) by apply IH.
  destruct p as [|x [|y [|z [|u p]]]]; try exact Hgo. clear Hgo.
  destruct (decode_quad x y z c) as [bs|]; [|done]. cbn [mbind option_bind]. rewrite IH.
  destruct (feed [] _ cs1) as [[[t1 p1] e1]|]; [|done]. cbn [mbind option_bind].
  destruct (feed p1 e1 cs2) as [[[t2 p2] e2]|]; [|done]. cbn [mbind option_bind]. by rewrite app_assoc.
Qed.

Lemma quads_ind (P : list Z -> Prop) :
  P [] -> (forall a, P [a]) -> (forall a b, P [a; b]) -> (forall a b c, P [a; b; c]) ->
  (forall a b c d l, P l -> P (a :: b :: c :: d :: l)) -> forall l, P l.
Proof.
  intros H0 H1 H2 H3 H4. fix IH 1. intros [|a [|b [|c [|d l]]]]; [done|apply H1|apply H2|apply H3|]. apply H4, IH.
Qed.

Lemma feed_decode text : base64_decode text = match feed [] false text with Some (t, [], _) => Some t | _ => None end.
Proof.
  induction text as [|a|a b|a b c|a b c d text IH] using quads_ind; try done.
  cbn [base64_decode feed app]. destruct (decode_quad a b c d) as [bs|] eqn:E; [|done]. cbn [mbind option_bind].
  apply decode_quad_length in E. destruct (Nat.eqb_spec (length bs) 3) as [H3|H3].
  - rewrite (proj2 (Nat.ltb_ge _ _)), IH by lia. destruct (feed [] false text) as [[[t [|? ?]] e]|]; done.
  - rewrite (proj2 (Nat.ltb_lt _ _)) by lia. destruct text; [cbn; by rewrite app_nil_r|done].
Qed.

Definition nonspace (c : Z) : Prop := is_space c = false.
#[local] Instance nonspace_dec c : Decision (nonspace c) := bool_eq_dec _ _.

(** What the calls leave: the end of the input, or the error. *)
Definition decoded_to (r : option (EVP_ENCODE_CTX * list Z * option Z)) (t : list Z) (n : Z) (verdict : option (list Z * list Z * bool)) : Prop :=
  match verdict with
  | Some (u, p, eof) => exists ctx j, r = Some (ctx, (t ++ u) ++ j, Some (n + Z.of_nat (length u))) /\
      holding ctx p /\ (length p < 4)%nat /\ eof_seen ctx = eof /\ error_encountered ctx = false
  | None => exists ctx out, r = Some (ctx, out, None) /\ error_encountered ctx = true
  end.

Lemma decode_loop_run cs : forall rounds ctx p t j input i n,
  drop i input = cs -> (length cs < rounds)%nat -> holding ctx p -> (length p < 4)%nat -> error_encountered ctx = false ->
  Forall is_byte p -> Forall is_byte cs -> (3 * ((length p + length cs) / 4) <= length j)%nat ->
  0 <= n -> n + 3 * Z.of_nat (length p + length cs) < 2 ^ 63 ->
  decoded_to (decode_update_loop rounds ctx (t ++ j) (length t) input i (Z.of_nat (length input)) n) t n
    (feed p (eof_seen ctx) (filter nonspace cs)).
Proof.
  induction cs as [|c cs IH]; intros [|rounds] ctx p t j input i n Ei Hr Hh Hp He Hbp Hb Hj H0 Hn; try (cbn in Hr; lia); cbn [decode_update_loop].
  { assert (length input <= i)%nat by (rewrite <- Nat.sub_0_le, <- length_drop, Ei; done).
    rewrite (proj2 (Z.ltb_ge _ _)) by lia. cbn. exists ctx, j. by rewrite app_nil_r, Z.add_0_r. }
  pose proof (lookup_from _ _ i 0 c Ei eq_refl) as L. rewrite Nat.add_0_r in L. pose proof (lookup_lt_Some _ _ _ L).
  rewrite (proj2 (Z.ltb_lt _ _)), L by lia. cbn [negb mbind option_bind].
  assert (Ei' : drop (S i) input = cs) by (by rewrite <- Nat.add_1_r, <- drop_drop, Ei).
  apply Forall_cons in Hb as [Hbc Hb]. cbn [length] in Hr, Hj, Hn. rewrite filter_cons.
  destruct (decide (nonspace c)) as [Es|Es]; [unfold nonspace in Es; rewrite Es|apply not_false_is_true in Es; rewrite Es].
  2: { apply IH; try done; [lia| |lia]. pose proof (Nat.Div0.div_le_mono (length p + length cs) (length p + S (length cs)) 4 ltac:(lia)). lia. }
  cbn [feed]. destruct (eof_seen ctx) eqn:Ee; [by do 2 eexists|]. destruct Hh as (Hu & Hl & junk & Hd). unfold sizeof_data in Hl.
  rewrite Hu, Nat2Z.id, Hd, set_byte_at by (rewrite ?Hd, ?length_app in Hl; lia). cbn [mbind option_bind data_used data error_encountered eof_seen].
  rewrite wrap_small by lia. destruct (decide (length p = 3)%nat) as [H3|H3].
  - destruct p as [|x [|y [|z [|? ?]]]]; try done. cbn [length Z.of_nat Z.add Z.eqb Pos.of_succ_nat Pos.succ Pos.add Pos.eqb].
    rewrite !Forall_cons in Hbp. destruct Hbp as (Hx & Hy & Hz & _).
    change (Z.of_nat 3 + 1 =? 4) with true. cbv iota. cbn [length] in Hj, Hn.
    replace ((3 + S (length cs)) / 4)%nat with (S (length cs / 4)) in Hj by (apply (Nat.div_unique _ _ _ (length cs mod 4));
      [by apply Nat.mod_upper_bound|pose proof (Nat.div_mod_eq (length cs) 4); lia]).
    rewrite (quad_run t j _ 0 x y z c (drop 1 junk)) by first
      [done|destruct (decode_quad x y z c) eqn:E; [apply decode_quad_length in E; lia|done]].
    cbn [mbind option_bind]. destruct (decode_quad x y z c) as [bs|] eqn:Eq; [|by do 2 eexists].
    apply decode_quad_length in Eq. cbn [fmap option_fmap option_map mbind option_bind]. rewrite Nat2Z.id, wrap_small by lia.
    replace (if Z.of_nat (length bs) <? 3 then true else false) with (length bs <? 3)%nat
      by (destruct (Nat.ltb_spec (length bs) 3), (Z.ltb_spec (Z.of_nat (length bs)) 3); lia || done).
    rewrite <- length_app. set (eof := (length bs <? 3)%nat). set (buffered := ([x; y; z] ++ [c]) ++ drop 1 junk).
    assert (Hstep := IH rounds (EncodeCtx 0 buffered eof (error_encountered ctx)) [] (t ++ bs) (drop (length bs) j) input (S i) (n + Z.of_nat (length bs))).
    cbn [eof_seen length Nat.add] in Hstep. rewrite length_drop in Hstep.
    assert (Hlb : length buffered = sizeof_data).
    { unfold buffered, sizeof_data. rewrite Hd in Hl. cbn [length app] in *. rewrite length_drop. lia. }
    specialize (Hstep Ei' ltac:(lia) ltac:(split_and!; [done|done|by exists buffered]) ltac:(lia) He ltac:(constructor) Hb ltac:(lia) ltac:(lia) ltac:(lia)).
    destruct (feed [] eof (filter nonspace cs)) as [[[u p'] eof']|]; [|exact Hstep]. cbn [mbind option_bind].
    destruct Hstep as (ctx' & j' & E & Hh' & Hp' & He' & Herr). exists ctx', j'. rewrite E. split_and!; try done.
    by rewrite length_app, Nat2Z.inj_add, Z.add_assoc, <- !app_assoc.
  - rewrite (proj2 (Z.eqb_neq _ _)) by lia.
    assert (Hstep : decoded_to (decode_update_loop rounds (EncodeCtx (Z.of_nat (length p) + 1) ((p ++ [c]) ++ drop 1 junk) false (error_encountered ctx))
      (t ++ j) (length t) input (S i) (Z.of_nat (length input)) n) t n (feed (p ++ [c]) false (filter nonspace cs))).
    { eapply (IH rounds (EncodeCtx _ _ false _) (p ++ [c]) t j); rewrite ?length_app; cbn [length]; try done; try lia.
      - replace (Z.of_nat (length p) + 1) with (Z.of_nat (length (p ++ [c]))) by (rewrite length_app; cbn; lia).
        eapply holding_new; [done|]. rewrite Hd, length_app in Hl. rewrite !length_app, length_drop. cbn. unfold sizeof_data. lia.
      - apply Forall_app. split; [done|by constructor].
      - by replace (length p + 1 + length cs)%nat with (length p + S (length cs))%nat by lia. }
    destruct p as [|x [|y [|z [|u p]]]]; try exact Hstep; cbn in H3, Hp; lia.
Qed.

(** ** Runs of the decoder *)

(** The calls of [EVP_DecodeUpdate] up to the first that returns -1. *)
Fixpoint decode_updates (ctx : EVP_ENCODE_CTX) (pieces : list (list Z * list Z)) : option (EVP_ENCODE_CTX * option (list Z)) :=
  match pieces with
  | [] => Some (ctx, Some [])
  | (input, out) :: pieces =>
      '(ctx, out, out_len, ret) ← EVP_DecodeUpdate ctx out input (Z.of_nat (length input));
      if ret <? 0 then Some (ctx, None)
      else
        '(ctx, bytes) ← decode_updates ctx pieces;
        Some (ctx, option_map (app (take (Z.to_nat out_len) out)) bytes)
  end.

(** The bytes, and [None] when a call returned -1. *)
Definition decode_stream (pieces : list (list Z * list Z)) : option (option (list Z)) :=
  '(ctx, bytes) ← decode_updates EVP_DecodeInit pieces;
  let (_, ret) := EVP_DecodeFinal ctx in
  Some (if ret <? 0 then None else bytes).

(** A piece of the text, with room for its bytes whatever the context holds. *)
Definition text_ok (piece : list Z * list Z) : Prop :=
  Forall is_byte piece.1 /\ Z.of_nat (length piece.1) < 2 ^ 28 /\ (3 * ((3 + length piece.1) / 4) <= length piece.2)%nat.

Lemma feed_length cs : forall p eof t p' eof', (length p < 4)%nat -> feed p eof cs = Some (t, p', eof') -> (length t <= 3 * length cs)%nat.
Proof.
  induction cs as [|c cs IH]; intros p eof t p' eof' Hp; cbn [feed]; [by intros [= <- _ _]|]. destruct eof; [done|].
  destruct p as [|x [|y [|z [|? ?]]]]; cbn [length] in *; try lia; try (intros H%IH; [lia|cbn; lia]).
  destruct (decode_quad x y z c) as [bs|] eqn:E; [|done]. apply decode_quad_length in E. cbn [mbind option_bind].
  destruct (feed [] _ cs) as [[[u q] e]|] eqn:Ef; [|done]. intros [= <- _ _]. apply IH in Ef; [|cbn; lia]. rewrite length_app. lia.
Qed.

Lemma decode_update_run ctx p input out :
  holding ctx p -> (length p < 4)%nat -> error_encountered ctx = false -> Forall is_byte p -> text_ok (input, out) ->
  match feed p (eof_seen ctx) (filter nonspace input) with
  | Some (u, p', eof) => exists ctx' j, EVP_DecodeUpdate ctx out input (Z.of_nat (length input)) =
        Some (ctx', u ++ j, Z.of_nat (length u), if eof then 0 else 1) /\
      holding ctx' p' /\ (length p' < 4)%nat /\ eof_seen ctx' = eof /\ error_encountered ctx' = false
  | None => exists ctx' out', EVP_DecodeUpdate ctx out input (Z.of_nat (length input)) = Some (ctx', out', 0, -1) /\ error_encountered ctx' = true
  end.
Proof.
  intros Hh Hp He Hbp (Hb & Hl & Hr). cbn [fst snd] in *. unfold EVP_DecodeUpdate. rewrite He, Nat2Z.id.
  pose proof (decode_loop_run input (S (length input)) ctx p [] out input 0 0) as Hrun. cbn [app length] in Hrun.
  pose proof (Nat.Div0.div_le_mono (length p + length input) (3 + length input) 4 ltac:(lia)).
  specialize (Hrun eq_refl ltac:(lia) Hh Hp He Hbp Hb ltac:(lia) ltac:(lia) ltac:(lia)).
  pose proof (feed_length (filter nonspace input) p (eof_seen ctx)) as Hfl. pose proof (length_filter nonspace input) as Hf.
  destruct (feed p (eof_seen ctx) (filter nonspace input)) as [[[u p'] eof]|].
  - destruct Hrun as (ctx' & j & -> & Hh' & Hp' & He' & Herr). cbn [mbind option_bind]. specialize (Hfl _ _ _ Hp eq_refl).
    rewrite Z.add_0_l. unfold INT_MAX. rewrite (proj2 (Z.ltb_ge _ _)), to_signed_small by lia. exists ctx', j.
    rewrite He'. by destruct eof.
  - destruct Hrun as (ctx' & out' & -> & Herr). cbn [mbind option_bind]. by exists ctx', out'.
Qed.

Lemma filter_bytes cs : Forall is_byte cs -> Forall is_byte (filter nonspace cs).
Proof. rewrite !Forall_forall. intros H x [_ Hx]%list_elem_of_filter. by apply H. Qed.

Lemma feed_pending cs : forall p eof t p' eof', (length p < 4)%nat -> Forall is_byte p -> Forall is_byte cs ->
  feed p eof cs = Some (t, p', eof') -> Forall is_byte p'.
Proof.
  induction cs as [|c cs IH]; intros p eof t p' eof' Hp Hbp Hb; cbn [feed]; [by intros [= _ <- _]|]. destruct eof; [done|].
  apply Forall_cons in Hb as [Hc Hb].
  assert (Hpc : Forall is_byte (p ++ [c])) by (apply Forall_app; split; [done|by constructor]).
  destruct p as [|x [|y [|z [|? ?]]]]; cbn [length] in *; try lia; try (apply IH; try done; cbn; lia).
  destruct (decode_quad x y z c) as [bs|] eqn:E; [|done]. cbn [mbind option_bind].
  destruct (feed [] _ cs) as [[[u q] e]|] eqn:Ef; [|done]. intros [= _ <- _]. eapply IH; [| | |exact Ef]; [cbn; lia|constructor|done].
Qed.

Lemma decode_updates_run pieces : forall ctx p,
  holding ctx p -> (length p < 4)%nat -> error_encountered ctx = false -> Forall is_byte p -> Forall text_ok pieces ->
  match feed p (eof_seen ctx) (filter nonspace (concat pieces.*1)) with
  | Some (u, p', eof) => exists ctx', decode_updates ctx pieces = Some (ctx', Some u) /\ holding ctx' p' /\ error_encountered ctx' = false
  | None => exists ctx', decode_updates ctx pieces = Some (ctx', None)
  end.
Proof.
  induction pieces as [|[input out] pieces IH]; intros ctx p Hh Hp He Hb Hok; [by exists ctx|].
  apply Forall_cons in Hok as [Hi Hok]. change (concat ((input, out) :: pieces).*1) with (input ++ concat pieces.*1).
  rewrite filter_app, feed_app. pose proof (decode_update_run ctx p input out Hh Hp He Hb Hi) as Hrun. cbn [decode_updates].
  destruct (feed p (eof_seen ctx) (filter nonspace input)) as [[[u p'] eof]|] eqn:Ef; cbn [mbind option_bind].
  - destruct Hrun as (ctx' & j & -> & Hh' & Hp' & He' & Herr). cbn [mbind option_bind].
    assert (Hb' : Forall is_byte p').
    { eapply feed_pending; [| | |exact Ef]; try done. by apply filter_bytes, Hi. }
    replace ((if eof then 0 else 1) <? 0) with false by (by destruct eof). specialize (IH ctx' p' Hh' Hp' Herr Hb' Hok). rewrite He' in IH.
    destruct (feed p' eof (filter nonspace (concat pieces.*1))) as [[[u2 p2] eof2]|]; cbn [mbind option_bind].
    + destruct IH as (ctx2 & -> & Hh2 & Herr2). cbn [mbind option_bind fmap option_fmap option_map]. rewrite Nat2Z.id, take_app_length. by exists ctx2.
    + destruct IH as (ctx2 & ->). by exists ctx2.
  - destruct Hrun as (ctx' & out' & -> & Herr). by exists ctx'.
Qed.

Lemma decode_stream_run pieces :
  Forall text_ok pieces -> decode_stream pieces = Some (base64_decode (filter nonspace (concat pieces.*1))).
Proof.
  intros Hok. pose proof (decode_updates_run pieces EVP_DecodeInit [] ltac:(split_and!; [done|done|by eexists]) ltac:(cbn; lia) eq_refl ltac:(constructor) Hok) as Hrun.
  rewrite feed_decode. unfold decode_stream. cbn [EVP_DecodeInit zero_ctx eof_seen] in Hrun.
  destruct (feed [] false _) as [[[u p] eof]|].
  - destruct Hrun as (ctx & -> & (Hu & _) & Herr). cbn [mbind option_bind]. unfold EVP_DecodeFinal. rewrite Herr, Hu. by destruct p.
  - destruct Hrun as (ctx & ->). cbn [mbind option_bind]. destruct (EVP_DecodeFinal ctx) as [? ret]. by destruct (ret <? 0).
Qed.

(** ** Decoding in one go *)

Lemma base64_loop_run text : forall rounds t j input i n,
  drop i input = text -> (length text mod 4 = 0)%nat -> (length text < rounds)%nat -> Forall is_byte text ->
  (3 * (length text / 4) <= length j)%nat -> 0 <= n -> n + Z.of_nat (length text) < 2 ^ 63 ->
  match base64_decode text with
  | Some u => exists j', decode_base64_loop rounds (t ++ j) (length t) input i (Z.of_nat (length input)) n =
      Some ((t ++ u) ++ j', Some (n + Z.of_nat (length u)))
  | None => exists out, decode_base64_loop rounds (t ++ j) (length t) input i (Z.of_nat (length input)) n = Some (out, None)
  end.
Proof.
  induction text as [|a|a b|a b c|a b c d text IH] using quads_ind; intros [|rounds] t j input i n Ei Hm Hr Hb Hj H0 Hn;
    try (cbn in Hr; lia); try done.
  - cbn [base64_decode decode_base64_loop]. pose proof (f_equal length Ei) as HL. rewrite length_drop in HL. cbn in HL.
    rewrite (proj2 (Z.ltb_ge _ _)) by lia. cbn [negb]. exists j. by rewrite app_nil_r, Z.add_0_r.
  - pose proof (f_equal length Ei) as HL. rewrite length_drop in HL. cbn [length] in *.
    rewrite !Forall_cons in Hb. destruct Hb as (Ha & Hbb & Hc & Hd & Hb).
    assert (Hdiv : (S (S (S (S (length text)))) / 4 = S (length text / 4))%nat) by
      (symmetry; apply (Nat.div_unique _ _ _ (length text mod 4)); [by apply Nat.mod_upper_bound|pose proof (Nat.div_mod_eq (length text) 4); lia]).
    assert (Hmod : (length text mod 4 = 0)%nat) by (pose proof (Nat.div_mod_eq (S (S (S (S (length text))))) 4); pose proof (Nat.div_mod_eq (length text) 4); lia).
    rewrite Hdiv in Hj. cbn [base64_decode decode_base64_loop]. rewrite (proj2 (Z.ltb_lt _ _)) by lia. cbn [negb].
    rewrite (quad_run t j input i a b c d text) by first
      [done|destruct (decode_quad a b c d) eqn:E; [apply decode_quad_length in E; lia|done]].
    destruct (decode_quad a b c d) as [bs|] eqn:Eq; cbn [mbind option_bind fmap option_fmap option_map]; [|by eexists].
    apply decode_quad_length in Eq. rewrite Nat2Z.id, wrap_small by lia.
    assert (Hgo := IH rounds (t ++ bs) (drop (length bs) j) input (i + 4)%nat (n + Z.of_nat (length bs))).
    rewrite length_drop, length_app in Hgo.
    specialize (Hgo ltac:(by rewrite <- drop_drop, Ei) Hmod ltac:(lia) Hb ltac:(lia) ltac:(lia) ltac:(lia)).
    destruct (Nat.eqb_spec (length bs) 3) as [H3|H3].
    + rewrite (proj2 (Z.eqb_eq (Z.of_nat (length bs)) 3)) by lia. cbn [negb andb].
      destruct (base64_decode text) as [u|]; cbn [fmap option_fmap option_map]; [|exact Hgo].
      destruct Hgo as (j' & ->). exists j'. by rewrite length_app, Nat2Z.inj_add, Z.add_assoc, <- !app_assoc.
    + rewrite (proj2 (Z.eqb_neq (Z.of_nat (length bs)) 3)) by lia. cbn [negb andb].
      destruct text as [|e text]; cbn [length] in *.
      * rewrite (proj2 (Z.eqb_eq (Z.of_nat i) _)) by lia. cbn [negb]. cbn [base64_decode] in Hgo. destruct Hgo as (j' & ->).
        exists j'. by rewrite app_nil_r, Z.add_0_r.
      * rewrite (proj2 (Z.eqb_neq (Z.of_nat i) _)) by lia. cbn [negb]. by eexists.
Qed.

Lemma decode_base64_run input out max_out :
  Forall is_byte input -> Z.of_nat (length input) < 2 ^ 62 -> 0 <= max_out <= Z.of_nat (length out) ->
  exists out' n ret, EVP_DecodeBase64 out max_out input 0 (Z.of_nat (length input)) = Some (out', n, ret) /\
    (ret = 1 <-> is_Some (base64_decode input) /\ 3 * (Z.of_nat (length input) / 4) <= max_out) /\
    (ret = 1 -> base64_decode input = Some (take (Z.to_nat n) out')) /\ (ret <> 1 -> ret = 0 /\ n = 0).
Proof.
  intros Hb Hl Hm. unfold EVP_DecodeBase64, EVP_DecodedLength. destruct (Z.eqb_spec (Z.of_nat (length input) mod 4) 0) as [Hz|Hz]; cbn [negb].
  2: { exists out, 0, 0. split_and!; try done; split; try done. intros [[u Hu] _]. exfalso. apply Hz. clear -Hu. revert u Hu.
       induction input as [|a|a b|a b c|a b c d text IH] using quads_ind; intros u; try done. cbn [base64_decode].
       destruct (decode_quad a b c d) as [bs|]; [|done]. cbn [mbind option_bind length]. intros Hu.
       assert (Z.of_nat (length text) mod 4 = 0) by (destruct (length bs =? 3)%nat;
         [destruct (base64_decode text) eqn:E; [by eapply IH|done]|by destruct text]).
       Z.to_euclidean_division_equations; lia. }
  rewrite wrap_small by (Z.to_euclidean_division_equations; lia).
  destruct (Z.ltb_spec max_out (Z.of_nat (length input) / 4 * 3)) as [Hs|Hs].
  { exists out, 0, 0. split_and!; try done; split; try done. intros [_ ?]. lia. }
  rewrite drop_0, Nat2Z.id. pose proof (base64_loop_run input (S (length input)) [] out input 0 0 eq_refl) as Hrun. cbn [app length] in Hrun.
  assert (Hdiv : Z.of_nat (length input / 4) = Z.of_nat (length input) / 4) by apply (Nat2Z.inj_div _ 4).
  specialize (Hrun ltac:(pose proof (Nat2Z.inj_mod (length input) 4); lia) ltac:(lia) Hb ltac:(lia) ltac:(lia) ltac:(lia)).
  destruct (base64_decode input) as [u|].
  - destruct Hrun as (j' & ->). cbn [mbind option_bind]. rewrite Z.add_0_l. exists (u ++ j'), (Z.of_nat (length u)), 1.
    split_and!; [done| | |done]; [split; [intros _; split; [by eexists|lia]|done]|intros _; by rewrite Nat2Z.id, take_app_length].
  - destruct Hrun as (out' & ->). cbn [mbind option_bind]. exists out', 0, 0. split_and!; try done; split; try done. by intros [[? ?] _].
Qed.

(** The length of the buffer that [EVP_EncodeBlock] needs: it fails when it does not fit. *)
Lemma encoded_length_exact len :
  0 <= len < 2 ^ 64 ->
  EVP_EncodedLength len = if (len + 2) / 3 * 4 + 1 <? 2 ^ 64 then Some ((len + 2) / 3 * 4 + 1) else None.
Proof.
  intros Hl. unfold EVP_EncodedLength.
  destruct (Z.ltb_spec (wrap 64 (len + 2)) len) as [Hs|Hs].
  { destruct (Z.ltb_spec ((len + 2) / 3 * 4 + 1) (2 ^ 64)); [|done]. rewrite wrap_small in Hs by (Z.to_euclidean_division_equations; lia). lia. }
  assert (len + 2 < 2 ^ 64).
  { destruct (Z_lt_dec (len + 2) (2 ^ 64)); [done|]. unfold wrap in Hs. rewrite <- (Z_mod_plus_full (len + 2) (-1)), Z.mod_small in Hs by lia. lia. }
  rewrite (wrap_small 64 (len + 2)) by lia. rewrite Z.shiftl_mul_pow2, Z.shiftr_div_pow2 by lia. change (2 ^ 2) with 4.
  assert (Hq : 0 <= (len + 2) / 3 < 2 ^ 63) by (Z.to_euclidean_division_equations; lia). set (q := (len + 2) / 3) in *.
  destruct (Z_lt_dec (q * 4) (2 ^ 64)) as [Hq4|Hq4].
  - rewrite (wrap_small 64 (q * 4)), Z.div_mul, Z.eqb_refl by lia. cbn [negb]. rewrite (wrap_small 64 (q * 4 + 1)) by lia.
    rewrite !(proj2 (Z.ltb_lt (q * 4 + 1) (2 ^ 64))), (proj2 (Z.ltb_ge _ _)) by lia. done.
  - rewrite (proj2 (Z.ltb_ge (q * 4 + 1) (2 ^ 64))) by lia. rewrite (proj2 (Z.eqb_neq _ _)); [done|].
    unfold wrap. rewrite <- (Z_mod_plus_full (q * 4) (-1)), Z.mod_small by lia. Z.to_euclidean_division_equations; lia.
Qed.

(** ** The properties *)

Lemma text_app xs ys : (length xs mod 3 = 0)%nat -> base64_text (xs ++ ys) = base64_text xs ++ base64_text ys.
Proof.
  induction xs as [|a|a b|a b c xs IH] using triples_ind; intros Hm; try done. cbn [app base64_text length] in *.
  rewrite IH, app_assoc; [done|]. pose proof (Nat.Div0.add_mod_idemp_l 3 (length xs) 3). pose proof (Nat.div_mod_eq (S (S (S (length xs)))) 3). pose proof (Nat.div_mod_eq (length xs) 3). pose proof (Nat.mod_upper_bound (length xs) 3). lia.
Qed.

Lemma text_nonspace bs : Forall is_byte bs -> Forall nonspace (base64_text bs).
Proof.
  unfold nonspace. induction bs as [|a|a b|a b c bs IH] using triples_ind; intros Hb; [constructor|..];
    cbn [base64_text letters take app]; repeat (constructor; [first [done|apply letter_not, mod64]|]); [constructor..|].
  rewrite !Forall_cons in Hb. by apply IH, Hb.
Qed.

Lemma filter_nonspace cs : Forall nonspace cs -> filter nonspace cs = cs.
Proof. induction 1 as [|c cs Hc _ IH]; [done|]. by rewrite filter_cons_True, IH. Qed.

Lemma filter_line bs : Forall is_byte bs -> filter nonspace (line bs) = base64_text bs.
Proof.
  intros Hb. unfold line. rewrite filter_app, (filter_nonspace (base64_text bs)) by (by apply text_nonspace).
  cbn. by rewrite app_nil_r.
Qed.

Lemma filter_pem bs : Forall is_byte bs -> filter nonspace (pem_text bs) = base64_text bs.
Proof.
  intros Hb. destruct (split_blocks _ bs (Nat.lt_succ_diag_r _)) as (blocks & p & -> & Hw & Hp).
  unfold pem_text. rewrite pem_lines_blocks, filter_app by done. apply Forall_app in Hb as [Hb Hbp].
  assert (Hlast : filter nonspace (match p with [] => [] | _ => line p end) = base64_text p) by (destruct p; [done|by apply filter_line]).
  rewrite Hlast. clear Hlast Hp. induction Hw as [|b blocks Hl Hw IH]; [done|]. cbn [concat] in *. apply Forall_app in Hb as [Hbb Hb].
  change ((b :: blocks) ≫= line) with (line b ++ (blocks ≫= line)). rewrite filter_app, filter_line, <- !app_assoc, (text_app b), IH by
    first [done|by rewrite Hl]. done.
Qed.

(** C16: bytes that are encoded as a stream, in pieces of any sizes, are the lines of 64
    characters that base64 prescribes, and decoding these characters as a stream, in
    pieces of any sizes and with any white space between them, gives the bytes back. *)
Theorem base64_roundtrip pieces last texts :
  Forall piece_ok pieces -> (66 <= length last)%nat -> Forall text_ok texts ->
  encode_stream pieces last = Some (pem_text (concat pieces.*1)) /\
  (filter nonspace (concat texts.*1) = filter nonspace (pem_text (concat pieces.*1)) ->
   decode_stream texts = Some (Some (concat pieces.*1))).
Proof.
  intros Hp Hl Ht. split; [by apply encode_stream_run|]. intros Heq.
  assert (Hb : Forall is_byte (concat pieces.*1)) by (apply Forall_concat, Forall_fmap; eapply Forall_impl; [exact Hp|]; by intros ? [? _]).
  by rewrite decode_stream_run, Heq, filter_pem, decode_text.
Qed.

(** C17: a stream decoder that is given a text in any pieces accepts it exactly when
    [EVP_DecodeBase64] accepts the text without its white space, and gives the same bytes:
    those of the groups of four characters, of which only the last may be filled up. *)
Theorem base64_decoders_agree texts out :
  Forall text_ok texts -> let input := filter nonspace (concat texts.*1) in
  Z.of_nat (length input) < 2 ^ 62 -> 3 * (Z.of_nat (length input) / 4) <= Z.of_nat (length out) ->
  decode_stream texts = Some (base64_decode input) /\
  exists out' n ret, EVP_DecodeBase64 out (Z.of_nat (length out)) input 0 (Z.of_nat (length input)) = Some (out', n, ret) /\
    base64_decode input = if ret =? 1 then Some (take (Z.to_nat n) out') else None.
Proof.
  intros Ht input Hl Hr. split; [by apply decode_stream_run|].
  assert (Hb : Forall is_byte input) by (apply filter_bytes, Forall_concat, Forall_fmap; eapply Forall_impl; [exact Ht|]; by intros ? [? _]).
  destruct (decode_base64_run input out (Z.of_nat (length out)) Hb Hl) as (out' & n & ret & E & Hok & Hyes & Hno); [lia|].
  exists out', n, ret. split; [exact E|]. destruct (Z.eqb_spec ret 1) as [H1|H1]; [by apply Hyes|].
  destruct (base64_decode input) as [u|]; [|done]. exfalso. apply H1, Hok. split; [by eexists|done].
Qed.

(** ** Base64 at concrete inputs *)

Definition ex_bytes : list Z := chars "Two lines of base64, since these are more than forty-eight bytes" ++ [0; 255; 0x80].

Definition ex_pieces : list (list Z * list Z) := [
  (take 5 ex_bytes, replicate 70 0);
  ([], []);
  (drop 5 ex_bytes, replicate 140 0xAA)
].

Definition ex_text : list Z := chars "VHdvIGxpbmVzIG9mIGJhc2U2NCwgc2luY2UgdGhlc2UgYXJlIG1vcmUgdGhhbiBm" ++ [10] ++
  chars "b3J0eS1laWdodCBieXRlcwD/gA==" ++ [10].

(** The text in other pieces, with other white space. *)
Definition ex_texts : list (list Z * list Z) := [
  (take 3 ex_text ++ [32; 9], replicate 10 0);
  (drop 3 (take 90 ex_text), replicate 70 0);
  (13 :: drop 90 ex_text ++ [10; 32], replicate 10 0)
].

Lemma ex_pieces_ok : Forall piece_ok ex_pieces.
Proof.
  repeat constructor; cbn [fst snd]; try (by apply (bool_decide_unpack _)); unfold room_for, sizeof_data; by vm_compute; lia.
Qed.

Lemma ex_texts_ok : Forall text_ok ex_texts.
Proof. repeat constructor; cbn [fst snd]; try (by apply (bool_decide_unpack _)); by vm_compute; lia. Qed.

Lemma base64_roundtrip_witness :
  encode_stream ex_pieces (replicate 70 0) = Some ex_text /\ decode_stream ex_texts = Some (Some ex_bytes).
Proof.
  destruct (base64_roundtrip ex_pieces (replicate 70 0) ex_texts) as [E D];
    [exact ex_pieces_ok|rewrite length_replicate; lia|exact ex_texts_ok|].
  split; [rewrite E; by vm_compute|]. rewrite D by (by vm_compute). by vm_compute.
Defined.

(** A text whose padding is followed by characters is refused by both. *)
Definition ex_refused : list (list Z * list Z) := [(chars "QUI= QUJD", replicate 9 0)].

Lemma base64_decoders_agree_witness :
  decode_stream ex_refused = Some None /\
  exists out' n, EVP_DecodeBase64 (replicate 6 0) 6 (chars "QUI=QUJD") 0 8 = Some (out', n, 0).
Proof.
  destruct (base64_decoders_agree ex_refused (replicate 6 0)) as (D & out' & n & ret & E & H);
    [repeat constructor; cbn [fst snd]; try (by apply (bool_decide_unpack _)); by vm_compute; lia|by vm_compute|by vm_compute|].
  split; [rewrite D; by vm_compute|]. exists out', n.
  assert (Er : ret = 0) by (vm_compute in E; congruence). subst ret. exact E.
Defined.

(** The bits of the padding are not looked at: two texts are decoded to the same byte. *)
Lemma ex_padding_bits :
  EVP_DecodeBase64 (replicate 3 0) 3 (chars "QQ==") 0 4 = Some ([65; 0; 0], 1, 1) /\
  EVP_DecodeBase64 (replicate 3 0) 3 (chars "QR==") 0 4 = Some ([65; 0; 0], 1, 1).
Proof. by vm_compute. Qed.

(** [EVP_DecodeBlock] strips spaces, and fills the last group up with zeros, but it does
    not strip minuses at the end nor newlines at the start. *)
Lemma ex_decode_block :
  EVP_DecodeBlock (replicate 9 7) (chars "  QUJDRA== ") 11 = Some ([65; 66; 67; 68; 0; 0; 7; 7; 7], 6) /\
  EVP_DecodeBlock (replicate 9 7) (chars "QUJD-") 5 = Some (replicate 9 7, -1) /\
  EVP_DecodeBlock (replicate 9 7) (10 :: chars "QUJD") 5 = Some (replicate 9 7, -1).
Proof. by vm_compute. Qed.

(** What is left of the text is not decoded at the end, but refused. *)
Lemma ex_decode_final :
  decode_stream [(chars "QUJDRA", replicate 9 0)] = Some None /\
  EVP_DecodeFinal (EncodeCtx 2 (replicate 48 0) false false) = (0, -1).
Proof. by vm_compute. Qed.

(** A buffer that is too small for the lines is overrun. *)
Lemma ex_no_room :
  EVP_EncodeUpdate EVP_EncodeInit (replicate 65 0) (replicate 48 0) 48 = None /\
  is_Some (EVP_EncodeUpdate EVP_EncodeInit (replicate 66 0) (replicate 48 0) 48).
Proof. split; [by vm_compute|]. vm_compute. eauto. Qed.
